(* ===== verification/_CoqProject ===== *)
-Q . S2P
Prelude.v
GoTime.v
Money.v
States.v
Errors.v
Models.v
Store.v
Logic.v
Guarantee.v
Samples.v
Service.v
Quiet.v
Tax.v
Accounts.v
Plans.v
SubQuery.v
Quota.v
Invoices.v
Subscriptions.v
Settlement.v
Providers.v
Payments.v
Dunning.v
Lifecycle.v
Webhook.v
Reconcile.v
Sessions.v
ChargeOnce.v
Threads.v
Channels.v
Schedule.v
Scheduler.v
Chunk.v
Files.v
Lock.v
Retention.v
Archive.v
Backup.v
Recovery.v
StateFile.v
RateLimit.v
Resp.v
MemoryCache.v
Valkey.v
CacheAPI.v
Sql.v
Rely.v
Text.v
DeskModels.v
DeskStates.v
Desk.v
DeskStore.v
BotPatterns.v
DeskBot.v
DeskService.v
DeskTickets.v
DeskChat.v
DeskKB.v
DeskFiles.v
DeskPromise.v
DeskOps.v
DeskLife.v
DeskTenant.v
Token.v
NodeValidate.v
Outbound.v
Tran.v
Cluster.v
ClusterLock.v
Fleet.v
FleetTransport.v
FleetTasks.v
FleetEnroll.v
FleetOps.v
FleetJoin.v
FleetLife.v
Guard.v
GuardQuota.v
GuardWebhook.v
GuardWorkload.v
