(* ===== verification/Prelude.v ===== *)
(** * cashp: a verification development

    cashp is a hosting control panel written in Go.  This library models the
    parts of it that carry its own logic, and proves what makes them correct:
    billing ([src/src/billing], with the errors, database, masking and driver
    packages it rests on), the task scheduler ([src/src/scheduler]), backups
    ([src/src/backup] and the sealing of [src/src/security/crypto.go]), the
    channels of [src/src/notify], the rate limiter of [src/src/security] and
    the cache of [src/src/cache]: in memory, its
    wire protocol and its remote backend, the support desk
    ([src/src/support]), and the fleet of nodes ([src/src/nodes]) with the
    cluster primitives of [src/src/database/cluster.go], the tokens and the
    outbound guard of [src/src/security], and the checks of [src/src/guard]
    (which nothing calls yet).

    ** Billing and its model

    One [Service] serves tenants, administrators, payment providers' webhooks
    and scheduled tasks.  All its state is in SQL tables; there are no
    transactions, only single statements, some of them guarded by a [version]
    column.  So the model has three layers.

    - Values.  [Money.v] (money.go: minor units as [int64], with the wrap-around
      written out), [GoTime.v] (the calendar of package time), [States.v]
      (state.go: the lifecycle tables, cycles, resources), [Errors.v]
      (errors/errors.go, billing/errors.go, database/errors.go), [Models.v]
      (models.go: one record per struct).
    - The store.  [Store.v] has the tables of schema.go as finite maps, the
      driver registry of provider.go, the [World] (clock, random identifiers,
      failures, other sessions, providers) and the monad [M] in which every
      operation of the service is written, one SQL statement per step.  Between
      two statements any other session may write; any statement may fail,
      before or after it took effect; a provider answers as it likes.
    - The operations, one Definition per Go function, composed as the code
      composes them: [Service.v] (service.go, audit.go, notify.go), [Tax.v],
      [Accounts.v], [Plans.v], [SubQuery.v] (the reads of subscriptions.go),
      [Quota.v] (quota.go and metering.go), [Invoices.v], [Subscriptions.v],
      [Providers.v], [Payments.v], [Dunning.v] (dunning.go and tasks.go),
      [Webhook.v], [Reconcile.v].  A Go method whose name is also a type here
      carries the prefix Get ([Account] is [GetAccount], [Invoice] is
      [GetInvoice]); named pieces of a long body ([completeLine], [chargeLoop],
      [dunOne], [processEvent]) are separate definitions with their own lines in
      the map.

    ** The other parts

    - [Threads.v] gives goroutines a meaning: a [prog] is a sequence of atomic
      sections (what runs under the mutex between two unlocks, or one system
      call), [reachable] the states of any interleaving of any number of
      them, [good] a proof rule in which a thread may hold tokens that no other
      thread holds.  [Channels.v] (notify/state.go, channel.go) and
      [Scheduler.v] (scheduler.go, builtin.go) are written in it.
    - [Schedule.v] is schedule.go: intervals, cron fields as bit sets at 64
      bits, the search for the next minute.  [Lock.v] is lock.go over a file
      system of paths and inodes, [StateFile.v] the atomic save of state.go.
    - [Chunk.v], [Files.v], [Retention.v], [Archive.v], [Backup.v] and
      [Recovery.v] are the backup package: the rolling hash and the split, a
      file system whose every operation may fail, the retention policy, sealed
      archives, creation, verification and restore.  [Archive.v] ends with the
      concrete library used by their witnesses.
    - [RateLimit.v] and [MemoryCache.v] are security/ratelimit.go and
      cache/memory.go, one step per call under the mutex.
      [Resp.v] is cache/resp.go at the level of bytes, [Valkey.v] the remote
      cache of valkey.go over an arbitrary server and network, with its pool and
      its one retry, [CacheAPI.v] what cache.go builds on any backend.
    - [Sql.v] has services over shared tables: statements as atomic sections of
      [Threads.v] and the retry loop of database/tx.go; [Rely.v] is the proof rule
      for their interleavings.
    - The support desk: [Text.v] (UTF-8 and the cleaning of text), [DeskModels.v]
      (models.go), [DeskStates.v] (state.go and the pure part of sla.go),
      [Desk.v] (the tables of schema.go), [DeskStore.v] (store.go),
      [BotPatterns.v] and [DeskBot.v] (the help bot),
      [DeskService.v] (service.go and the rest of sla.go), [DeskTickets.v]
      (tickets.go, agents.go, the ticket sweeps of tasks.go), [DeskChat.v]
      (chat.go and the reaper), [DeskKB.v] (kb.go, canned.go, admin.go),
      [DeskFiles.v] (attachments.go, with SafeJoin).
      [DeskPromise.v] and [DeskOps.v] show that the data layer
      and every operation keep the promise, [DeskLife.v] has the entry points and
      the theorems about all of them together, [DeskTenant.v] those about one
      customer.
    - The fleet: [Token.v] (security/token.go), [NodeValidate.v] (validate.go and
      errors.go of nodes), [Outbound.v] (the guard of security/input.go),
      [Tran.v] (the bodies of transactions, statement by statement),
      [Cluster.v] (database/cluster.go), [Fleet.v] (nodes.go, schema.go and the
      lifecycle of state.go), [FleetTransport.v] (transport.go and cluster.go),
      [FleetTasks.v] (dispatch.go, drain and removal), [FleetEnroll.v]
      (enroll.go).  [ClusterLock.v] shows what every operation of the cluster
      leaves of the locks; [FleetOps.v] and [FleetJoin.v] that
      every operation of the fleet keeps the promise; [FleetLife.v] has the entry
      points of administrators, nodes and the scheduler, the theorems about all
      of them together and whole runs, and who a credential lets in.
    - The checks of package guard: [Guard.v] (guard.go, identifier.go and
      authz.go), [GuardQuota.v] (quota.go, network.go and enumeration.go),
      [GuardWebhook.v] (webhook.go), [GuardWorkload.v] (workload.go and exec.go).

    ** The proofs

    - [Logic.v] is a rely-guarantee logic for [M]: a [Protocol] says which
      worlds are admitted, which invariant holds, what other sessions may do and
      what this one promises; [ok] is a Hoare triple relative to it, with one
      rule per statement, and [guar] says every write keeps the promise.
    - [Guarantee.v] states the promise [G] of the billing code, table by table
      (how each row may change), the invariant [wf] (rows are stored under their
      keys) and the protocol [billing].  The class [Accepts] is the interface
      between the operations and a protocol: every operation is proved to keep
      any protocol that accepts the writes it makes, so the same lemmas serve
      [billing] and the stricter protocols of [ChargeOnce.v] and [Quiet.v].
      [Charging], in [Payments.v], is the interface of the one remaining
      effect, a charge.
    - [Quiet.v] has the exact rules for a session that runs alone without
      failures, and the frame that leaves everything but the audit trail alone.
    - [Sessions.v] puts all operations together: [Op] has a constructor per
      entry point, [session] runs any list of them.  Theorems there hold for
      every sequence of operations, every interleaving and every failure.

    What the groups of theorems show:
    - Sessions: an issued invoice is immutable, subscriptions only move along
      lifecycle edges and stay ended, money records and logs are never
      rewritten, and every single write of every operation keeps the promise
      that the other sessions rely on.
    - ChargeOnce: no idempotency key is sent to a provider twice, and each
      charge sent has its attempt row.
    - Settlement: document numbers are never given out twice, whatever other
      sessions allocate in between.
    - Settlement, Subscriptions, Quota, Tax, Accounts, Providers, Dunning,
      Reconcile, Webhook: what each operation computes and which records it
      touches (payments, proration, entitlement, tax, the default method, the
      failover chain, retry schedules, reconciliation, rejected deliveries).
    - States and Money: the string switches are the documented machines, the
      billing period advances by calendar months, rounding is to nearest,
      amounts survive printing and parsing.
    - Scheduler: under every interleaving no task runs twice at once on a node,
      retries come in rounds with doubling delays, a start replays exactly the
      missed runs; Schedule: a field parses to exactly the values it denotes and
      the next run is the first matching minute; Lock: lock files implement
      leases that exclude each other; StateFile: a save replaces the state or
      leaves it.
    - Recovery and Backup: what a backup holds is what a restore writes back,
      whatever was on the disk; verification accepts only archives whose files
      match their checksums; a restore writes below its roots only; a write
      replaces a file or leaves it.  Chunk: the rolling split is the reference
      split by window hashes.  Retention: which backups are kept, and that
      nothing else is ever deleted.
    - Channels: a delivering channel has passed a test, and failures move it
      along the documented ladder.  RateLimit: no window of the configured
      length ever holds more than the limit.  MemoryCache: the map and list
      implement a least-recently-used cache with expiry.
    - Resp: replies survive printing and reading, what is read is within the
      limits, and the reader always returns.  Valkey: every command gets its own
      reply whatever connections break, the remote cache is a map, a SetNX is
      sent at most once, and DeletePrefix removes nothing else.
    - DeskLife: under every interleaving of every entry point of the support
      desk and under every failure, tickets and articles move along their
      machines one version at a time and keep what identifies them, and the
      audit trail, messages, assignments and attachments only grow.  DeskTenant:
      what a customer calls changes and shows the own organization only, and no
      internal note.  DeskStates, DeskBot, DeskFiles: the transition index is the
      table, a service level is breached exactly from its deadline on, the bot
      answers only when one rule wins, joined paths stay below the directory.
    - FleetLife, under every interleaving and failure: a node keeps its identity
      and role and moves along the lifecycle one version at a time, and removal
      is final; a task is attempted within its budget and a finished one never
      changes; there are as many credentials as uses of enrollment tokens, and
      no token is used beyond its budget; when a secret is accepted, its
      credential and its node were valid during the call.  ClusterLock: a lock
      changes hands only by release or after it lapsed.  Outbound: the refused
      addresses as ten blocks.  FleetTasks: the retry delay as a closed formula.
      Token, FleetEnroll, FleetTransport: generated tokens parse, facts are read
      back, which pushes are accepted.
    - Guard: authorization is exactly a set of rules, and the tenant filter
      agrees with the check of a single record.  GuardQuota: quotas are exact
      without overflow, a tenant reaches no more targets in a window than
      allowed, enough failures lock a key for the whole duration.  GuardWebhook:
      what is signed verifies, and a delivery is accepted once.  GuardWorkload:
      guests of different tenants share no path and no network, an admitted
      container is hardened, a command runs what was registered.
    - Divergences between the code and its documentation or intent are lemmas
      and examples too: [full_payment_leaves_open], [escalation_skips_grace],
      [ended_subscription_renewed], [line_quantity_ignored],
      [Resume_withdraws_cancellation], [unique_violation_not_recognised],
      [decide_overflow_allows], [ParseMinor_wraps],
      [secret_shown_up_to_equals], [untested_configuration_delivers],
      [leap_day_given_up], [giant_step_wraps], [lock_released_under_a_run],
      [backoff_overflows], [interrupted_not_retried],
      [unwritten_lock_taken_over], [expired_lock_taken_twice],
      [negative_size_panics], [index_duplicate_accepted],
      [dotted_name_not_restorable], [same_second_replaces],
      [lock_evicted], [set_sent_twice], [late_reply_breaches],
      [clean_keeps_lines], [ticket_number_twice],
      [attachment_without_organization], [election_preempts],
      [reserved_accepted], [far_future_accepted], [rejoin_lost],
      [drained_with_work], [late_failure_unlocks], [retention_too_short],
      [far_future_verifies], [nan_cores], [string_masks], [decoy_lost].

    ** Modelling choices

    - Go [int64] arithmetic in Go code wraps ([+!], [-!], [*!] of this file).
      Arithmetic inside a SQL statement ([paid_minor = paid_minor + ?],
      [version = version + 1], [SUM]) is done by the database and is not
      wrapped.
    - In billing a time is its Unix second; in the scheduler, the limiter and
      the cache it is a nanosecond count.  Formatting with [%q], [%06d],
      RFC 3339 and [encoding/json] is written out for the texts the code
      produces.
    - Loops that are not over a list have fuel: [nextDocumentNumber] the eight
      attempts of the source; the next-run search the minutes of its window,
      proved enough because every step moves forward; the split one step per
      byte; the dispatch loop as many ticks as a schedule of steps chooses.
    - The payment drivers behind the [Provider] interface, AES-GCM, base64,
      SHA-256 and the JSON of a credential map are fields of [World]: the
      theorems hold for every such function.  A provider method is a function of
      the moment of the call, so it may answer differently each time.
    - Hash, key derivation, cipher, JSON and tar.gz of the backups are the
      record [Lib] with the laws [LibLaws] (what is sealed opens with the same
      password, what is encoded decodes to itself, digests do not collide on the
      blocks at hand); the JSON of the scheduler's state is a codec with its
      round trip.  Witnesses instantiate them.
    - The faults of the file system are a field of its environment: any
      operation may fail, and a failed write may leave a prefix.
    - Random identifiers are arbitrary strings: a collision shows up as a
      violated key.  A driver's text for a violated key is a field of [World].
    - A row read with several joined tables is computed from one state of the
      tables, since it is one statement; [ORDER BY] ties are broken by the order
      of the map of rows.
    - The support desk's tables have no keys, so they are lists of rows; the
      theorems about versions assume states in which no two rows share a random
      identifier and no version is at the end of int64 ([calm], decidable).
      Case mapping and classes of runes outside ASCII, LIKE, regular
      expressions, and whether a transaction sees a snapshot are the class
      [Params]; the theorems hold for every choice.
    - Recursion in a wire reply is bounded by the nesting limit of the source,
      which is the fuel of [readReply]; it is never reached because the limit is
      checked first.
    - Transactions of the cluster and the nodes run at READ COMMITTED: a
      statement sees what is committed and the own writes, a row is locked
      between a write and the commit, and keys are enforced.  The tables of the
      fleet have their primary and unique keys; [calm] is part of the invariant
      there and holds of every reachable state.
    - [c_clock] and [c_released] of [Cluster.v] record, for the theorems only, the
      latest time read and the tokens presented for release.  Digest, HMAC, JSON,
      the network and the HTTP client are the class [FleetParams].  The random
      source answers; its bytes are arbitrary.
    - A tracker of package guard is its policy and its tables; every method holds
      a mutex, so a call is one step, and takes the time the clock answered.

    ** Not modelled

    The payload maps of notifications, the HTTP handlers, templates, exports
    and Prometheus metrics of billing; the Stripe driver; the SQL text itself
    (columns, dialects, migrations) and the connection pool; log lines and wait
    groups of the scheduler; the dialer of the remote cache; the rest of the
    control panel.  The support desk's HTTP
    handlers and pages.  Of nodes, the table of schedules in tasks.go.
    Of guard, the redaction of secrets and the checks of HTTP requests.  Password
    hashing and cookies of security. *)
From stdpp Require Import prelude strings list sorting.
From Stdlib Require Import ZArith Lia Ascii.

#[global] Open Scope Z_scope.

Declare Scope cashp_scope.
Delimit Scope cashp_scope with cashp.
#[global] Open Scope cashp_scope.

(** * Outcomes of fallible Go calls: the pair [(value, error)] *)

Inductive Result (E A : Type) : Type :=
| Ok (a : A)
| Err (e : E).
Arguments Ok {E A} a.
Arguments Err {E A} e.

Definition is_ok {E A} (r : Result E A) : bool :=
  match r with Ok _ => true | Err _ => false end.

(** Propagation of an error through pure code ([if err != nil { return err }]). *)
Notation "'try' x := r 'in' k" :=
  (match r with Ok x => k | Err e => Err e end)
  (at level 10, x pattern, r at level 100, k at level 200) : cashp_scope.

(** Go compares strings byte by byte. *)
Infix "=s" := String.eqb (at level 70, no associativity) : cashp_scope.

Lemma seqb_eq (a b : string) : (a =s b) = true ↔ a = b.
Proof. apply String.eqb_eq. Qed.

Lemma seqb_neq (a b : string) : (a =s b) = false ↔ a ≠ b.
Proof. apply String.eqb_neq. Qed.

Lemma seqb_refl (a : string) : (a =s a) = true.
Proof. apply String.eqb_refl. Qed.

(** * 64-bit integers *)

(** Every [int64] is a [Z] in this range; arithmetic wraps around. *)
Definition min_int64 : Z := - 2 ^ 63.
Definition max_int64 : Z := 2 ^ 63 - 1.
Definition in_int64 (z : Z) : Prop := min_int64 ≤ z ≤ max_int64.

Definition wrap64 (z : Z) : Z := (z + 2 ^ 63) mod 2 ^ 64 - 2 ^ 63.

Notation "a +! b" := (wrap64 (a + b)) (at level 50, left associativity) : cashp_scope.
Notation "a -! b" := (wrap64 (a - b)) (at level 50, left associativity) : cashp_scope.
Notation "a *! b" := (wrap64 (a * b)) (at level 40, left associativity) : cashp_scope.
Notation "-! a" := (wrap64 (- a)) (at level 35, right associativity) : cashp_scope.

(** Go's [/] and [%] truncate toward zero. *)
Notation "a /! b" := (wrap64 (Z.quot a b)) (at level 40, left associativity) : cashp_scope.
Notation "a %! b" := (Z.rem a b) (at level 40, left associativity) : cashp_scope.

#[global] Instance in_int64_dec z : Decision (in_int64 z).
Proof. unfold in_int64. apply _. Defined.

Lemma wrap64_id z : in_int64 z → wrap64 z = z.
Proof.
  unfold in_int64, min_int64, max_int64, wrap64. intros H.
  rewrite Z.mod_small; lia.
Qed.

Lemma wrap64_in z : in_int64 (wrap64 z).
Proof.
  unfold in_int64, min_int64, max_int64, wrap64.
  pose proof (Z.mod_pos_bound (z + 2 ^ 63) (2 ^ 64) ltac:(lia)). lia.
Qed.

Lemma wrap64_wrap64_add a b : wrap64 (wrap64 a + b) = wrap64 (a + b).
Proof.
  unfold wrap64.
  replace ((a + 2 ^ 63) mod 2 ^ 64 - 2 ^ 63 + b + 2 ^ 63)
    with ((a + 2 ^ 63) mod 2 ^ 64 + b) by lia.
  rewrite Zplus_mod_idemp_l. do 2 f_equal. lia.
Qed.

(** Discharges [in_int64] goals once the bounds are in the context. *)
Ltac int64 := unfold in_int64, min_int64, max_int64 in *; lia.

(** Linear arithmetic with quotients and remainders by constants. *)
Ltac divlia := Z.div_mod_to_equations; lia.

(** Removes a wrap-around whose argument is in range. *)
Ltac unwrap64 :=
  repeat match goal with
  | |- context [wrap64 ?x] => rewrite (wrap64_id x) by int64
  end.

(** * ASCII text, as the [strings] and [strconv] packages treat it *)

Definition is_space (c : ascii) : bool :=
  let n := Ascii.N_of_ascii c in
  ((9 <=? n) && (n <=? 13) || (n =? 32))%N.

Fixpoint trim_left (s : string) : string :=
  match s with
  | String c s' => if is_space c then trim_left s' else s
  | EmptyString => EmptyString
  end.

(** Drops the trailing blanks: a character stays when something non-blank
    follows or it is not a blank itself. *)
Fixpoint trim_right (s : string) : string :=
  match s with
  | String c s' =>
      match trim_right s' with
      | EmptyString => if is_space c then EmptyString else String c EmptyString
      | r => String c r
      end
  | EmptyString => EmptyString
  end.

(** [strings.TrimSpace] on ASCII text. *)
Definition TrimSpace (s : string) : string := trim_right (trim_left s).

Definition upper_char (c : ascii) : ascii :=
  let n := Ascii.N_of_ascii c in
  if ((97 <=? n) && (n <=? 122))%N then Ascii.ascii_of_N (n - 32) else c.

Definition lower_char (c : ascii) : ascii :=
  let n := Ascii.N_of_ascii c in
  if ((65 <=? n) && (n <=? 90))%N then Ascii.ascii_of_N (n + 32) else c.

Fixpoint string_map (f : ascii → ascii) (s : string) : string :=
  match s with
  | String c s' => String (f c) (string_map f s')
  | EmptyString => EmptyString
  end.

Definition ToUpper : string → string := string_map upper_char.
Definition ToLower : string → string := string_map lower_char.

Definition HasPrefix (s p : string) : bool := String.prefix p s.

(** [strings.Contains]. *)
Fixpoint Contains (s sub : string) : bool :=
  HasPrefix s sub ||
  match s with
  | String _ s' => Contains s' sub
  | EmptyString => false
  end.

(** [strings.Index]: offset of the first occurrence, or -1. *)
Fixpoint Index (s sub : string) : Z :=
  if HasPrefix s sub then 0 else
  match s with
  | String _ s' => let i := Index s' sub in if i <? 0 then -1 else i + 1
  | EmptyString => -1
  end.

(** [strings.Split] on a one-byte separator; never the empty list. *)
Fixpoint split_go (sep : ascii) (cur s : string) : list string :=
  match s with
  | EmptyString => [cur]
  | String c s' =>
      if Ascii.eqb c sep then cur :: split_go sep EmptyString s'
      else split_go sep (cur +:+ String c EmptyString) s'
  end.

Definition Split (s : string) (sep : ascii) : list string := split_go sep EmptyString s.

(** [strings.Cut] around the first separator byte. *)
Fixpoint Cut (s : string) (sep : ascii) : string * string * bool :=
  match s with
  | EmptyString => (EmptyString, EmptyString, false)
  | String c s' =>
      if Ascii.eqb c sep then (EmptyString, s', true)
      else let '(a, b, found) := Cut s' sep in (String c a, b, found)
  end.

(** [strings.ReplaceAll] of one byte by a string. *)
Fixpoint ReplaceChar (s : string) (old : ascii) (new : string) : string :=
  match s with
  | EmptyString => EmptyString
  | String c s' =>
      (if Ascii.eqb c old then new else String c EmptyString) +:+ ReplaceChar s' old new
  end.

Definition slen (s : string) : Z := Z.of_nat (String.length s).

(** * Decimal numerals *)

Definition digit (n : Z) : ascii := Ascii.ascii_of_N (Z.to_N (48 + n)).

Definition is_digit (c : ascii) : bool :=
  let n := Ascii.N_of_ascii c in ((48 <=? n) && (n <=? 57))%N.

Definition digit_value (c : ascii) : Z := Z.of_N (Ascii.N_of_ascii c) - 48.

Fixpoint digits_go (fuel : nat) (n : Z) (acc : string) : string :=
  match fuel with
  | O => acc
  | S f =>
      let acc' := String (digit (n mod 10)) acc in
      if n <? 10 then acc' else digits_go f (n / 10) acc'
  end.

(** The decimal digits of a natural number; the fuel exceeds their count
    because dividing by ten lowers the binary logarithm. *)
Definition digits (n : Z) : string :=
  digits_go (S (Z.to_nat (Z.log2 n))) n EmptyString.

(** [strconv.FormatInt(n, 10)] and [fmt]'s [%d]. *)
Definition itoa (n : Z) : string :=
  if n <? 0 then String "-"%char (digits (- n)) else digits n.

Fixpoint zeros (k : nat) : string :=
  match k with O => EmptyString | S k' => String "0"%char (zeros k') end.

Definition pad_left (width : Z) (s : string) : string :=
  zeros (Z.to_nat (width - slen s)) +:+ s.

(** [fmt]'s [%0*d]: the sign counts toward the width. *)
Definition fmt_0d (width n : Z) : string :=
  if n <? 0 then String "-"%char (pad_left (width - 1) (digits (- n)))
  else pad_left width (digits n).

Fixpoint all_digits (s : string) : bool :=
  match s with
  | EmptyString => true
  | String c s' => is_digit c && all_digits s'
  end.

Fixpoint dec_value (acc : Z) (s : string) : Z :=
  match s with
  | EmptyString => acc
  | String c s' => dec_value (acc * 10 + digit_value c) s'
  end.

(** [strconv.ParseInt(s, 10, 64)]: an optional sign, at least one digit,
    and a value in range; [None] is its error. *)
Definition ParseInt (s : string) : option Z :=
  let '(neg, body) :=
    match s with
    | String c r =>
        if Ascii.eqb c "-"%char then (true, r)
        else if Ascii.eqb c "+"%char then (false, r) else (false, s)
    | EmptyString => (false, s)
    end in
  if (body =s "") || negb (all_digits body) then None
  else
    let v := dec_value 0 body in
    let v := if neg : bool then - v else v in
    if bool_decide (in_int64 v) then Some v else None.

Definition hex_digit (n : N) : ascii :=
  Ascii.ascii_of_N (if (n <? 10)%N then 48 + n else 87 + n)%N.

(** [fmt]'s [%q] on ASCII text. *)
Definition quote_char (c : ascii) : string :=
  let n := Ascii.N_of_ascii c in
  let esc (k : string) := String "\"%char k in
  if ((n =? 34) || (n =? 92))%N then esc (String c "")
  else if (n =? 7)%N then esc "a" else if (n =? 8)%N then esc "b"
  else if (n =? 9)%N then esc "t" else if (n =? 10)%N then esc "n"
  else if (n =? 11)%N then esc "v" else if (n =? 12)%N then esc "f"
  else if (n =? 13)%N then esc "r"
  else if ((n <? 32) || (n =? 127))%N
  then esc (String "x"%char (String (hex_digit (n / 16)) (String (hex_digit (n mod 16)) "")))
  else String c "".

Fixpoint quote_body (s : string) : string :=
  match s with
  | EmptyString => EmptyString
  | String c s' => quote_char c +:+ quote_body s'
  end.

Definition quote (s : string) : string :=
  String "034"%char (quote_body s +:+ String "034"%char "").

(** Lookup in a Go map literal, kept as an association list. *)
Fixpoint assoc {A} (k : string) (l : list (string * A)) : option A :=
  match l with
  | [] => None
  | (k', v) :: l' => if k =s k' then Some v else assoc k l'
  end.

(** * Sorting *)

(** [sort.Strings] orders by bytes. *)
Definition string_leb (a b : string) : bool :=
  match String.compare a b with Gt => false | _ => true end.

Fixpoint insert_string (s : string) (l : list string) : list string :=
  match l with
  | [] => [s]
  | x :: l' => if string_leb s x then s :: l else x :: insert_string s l'
  end.

Definition sort_strings (l : list string) : list string := foldr insert_string [] l.

Fixpoint insert_by {V} (leb : V → V → bool) (x : V) (l : list V) : list V :=
  match l with
  | [] => [x]
  | y :: l' => if leb x y then x :: l else y :: insert_by leb x l'
  end.

(** A stable sort by any comparison: [ORDER BY], [sort.SliceStable]. *)
Definition sort_by {V} (leb : V → V → bool) (l : list V) : list V := foldr (insert_by leb) [] l.

(** * Lemmas on text and numerals *)

Lemma assoc_Some_in {A} k (l : list (string * A)) v : assoc k l = Some v → (k, v) ∈ l.
Proof.
  induction l as [|[k' v'] l IH]; simpl; [done|]. intros Hv.
  destruct (k =s k') eqn:Hk; [|right; auto].
  apply seqb_eq in Hk as ->. injection Hv as ->. left.
Qed.

Lemma string_app_nil (t : string) : "" +:+ t = t.
Proof. done. Qed.

Lemma string_app_cons c (s t : string) : String c s +:+ t = String c (s +:+ t).
Proof. done. Qed.

Lemma string_app_empty_r (s : string) : s +:+ "" = s.
Proof. induction s as [|c s IH]; [done|]. by rewrite string_app_cons, IH. Qed.

Lemma string_app_assoc (s t u : string) : (s +:+ t) +:+ u = s +:+ (t +:+ u).
Proof. induction s as [|c s IH]; [done|]. by rewrite !string_app_cons, IH. Qed.

Lemma digit_cases (P : Z → Prop) n :
  P 0 → P 1 → P 2 → P 3 → P 4 → P 5 → P 6 → P 7 → P 8 → P 9 → 0 ≤ n < 10 → P n.
Proof.
  intros ?????????? H.
  assert (n = 0 ∨ n = 1 ∨ n = 2 ∨ n = 3 ∨ n = 4 ∨ n = 5 ∨ n = 6 ∨ n = 7 ∨ n = 8 ∨ n = 9)
    as Hc by lia.
  by destruct Hc as [->|[->|[->|[->|[->|[->|[->|[->|[->| ->]]]]]]]]].
Qed.

Lemma digit_is_digit n : 0 ≤ n < 10 → is_digit (digit n) = true.
Proof. by apply (digit_cases (λ n, is_digit (digit n) = true)). Qed.

Lemma digit_value_digit n : 0 ≤ n < 10 → digit_value (digit n) = n.
Proof. by apply (digit_cases (λ n, digit_value (digit n) = n)). Qed.

Lemma all_digits_app s t : all_digits (s +:+ t) = all_digits s && all_digits t.
Proof.
  induction s as [|c s IH]; [done|]. rewrite string_app_cons. simpl.
  by rewrite IH, andb_assoc.
Qed.

Lemma dec_value_app acc s t : dec_value acc (s +:+ t) = dec_value (dec_value acc s) t.
Proof.
  revert acc. induction s as [|c s IH]; intros acc; [done|].
  rewrite string_app_cons. simpl. apply IH.
Qed.

Lemma slen_cons c s : slen (String c s) = slen s + 1.
Proof. unfold slen. simpl String.length. lia. Qed.

Lemma slen_app s t : slen (s +:+ t) = slen s + slen t.
Proof.
  induction s as [|c s IH]; [by rewrite string_app_nil|].
  rewrite string_app_cons, !slen_cons. lia.
Qed.

Lemma slen_nonneg s : 0 ≤ slen s.
Proof. unfold slen. lia. Qed.

Lemma zeros_digits k : all_digits (zeros k) = true.
Proof. by induction k. Qed.

Lemma zeros_length k : slen (zeros k) = Z.of_nat k.
Proof. unfold slen. induction k; simpl in *; lia. Qed.

Lemma dec_value_zeros k : dec_value 0 (zeros k) = 0.
Proof. by induction k. Qed.

Lemma dec_value_acc acc s :
  dec_value acc s = acc * 10 ^ slen s + dec_value 0 s.
Proof.
  revert acc. induction s as [|c s IH]; intros acc.
  - unfold slen. simpl. lia.
  - rewrite slen_cons. cbn [dec_value]. rewrite IH, (IH (0 * 10 + digit_value c)).
    rewrite Z.pow_add_r by (pose proof (slen_nonneg s); lia). lia.
Qed.

(** What the digit loop leaves in front of its accumulator. *)
Lemma digits_go_spec fuel n acc :
  0 ≤ n < 2 ^ Z.of_nat fuel → (0 < fuel)%nat →
  ∃ d, digits_go fuel n acc = d +:+ acc ∧ all_digits d = true ∧
       dec_value 0 d = n ∧ d ≠ "" ∧ (∀ k, 1 ≤ k → n < 10 ^ k → slen d ≤ k).
Proof.
  revert n acc. induction fuel as [|fuel IH]; intros n acc Hn Hf; [lia|].
  simpl. pose proof (Z.mod_pos_bound n 10 ltac:(lia)) as Hm.
  destruct (Z.ltb_spec n 10) as [Hlt|Hge].
  - exists (String (digit (n mod 10)) ""). simpl.
    rewrite digit_is_digit, digit_value_digit by done.
    rewrite Z.mod_small by lia. repeat split; [done|]. intros k Hk _. unfold slen. simpl. lia.
  - rewrite Nat2Z.inj_succ, Z.pow_succ_r in Hn by lia.
    destruct (IH (n / 10) (String (digit (n mod 10)) acc)) as (d & Hd & Hall & Hv & Hne & Hlen).
    { split; [apply Z.div_pos; lia|]. apply Z.div_lt_upper_bound; lia. }
    { destruct fuel; [simpl in Hn; lia|lia]. }
    exists (d +:+ String (digit (n mod 10)) ""). rewrite Hd. repeat split.
    + by rewrite string_app_assoc.
    + rewrite all_digits_app, Hall. simpl. by rewrite digit_is_digit.
    + rewrite dec_value_app, Hv. simpl. rewrite digit_value_digit by done.
      pose proof (Z.div_mod n 10). lia.
    + by destruct d.
    + intros k Hk Hnk. rewrite slen_app.
      change (slen (String (digit (n mod 10)) "")) with 1.
      destruct (Z.eq_dec k 1) as [->|Hk1]; [simpl in Hnk; lia|].
      assert (slen d ≤ k - 1); [|lia]. apply Hlen; [lia|].
      apply Z.div_lt_upper_bound; [lia|].
      rewrite <-Z.pow_succ_r by lia. by replace (Z.succ (k - 1)) with k by lia.
Qed.

Lemma log2_fuel n : 0 ≤ n → n < 2 ^ Z.of_nat (S (Z.to_nat (Z.log2 n))).
Proof.
  intros Hn. rewrite Nat2Z.inj_succ, Z2Nat.id by apply Z.log2_nonneg.
  destruct (Z.eq_dec n 0) as [->|]; [done|]. apply Z.log2_spec. lia.
Qed.

Lemma digits_spec n :
  0 ≤ n → all_digits (digits n) = true ∧ dec_value 0 (digits n) = n ∧
          digits n ≠ "" ∧ (∀ k, 1 ≤ k → n < 10 ^ k → slen (digits n) ≤ k).
Proof.
  intros Hn. unfold digits.
  destruct (digits_go_spec (S (Z.to_nat (Z.log2 n))) n "") as (d & -> & Hd).
  { split; [done|]. by apply log2_fuel. }
  { lia. }
  rewrite string_app_empty_r. naive_solver.
Qed.

(** Zero padding changes neither the digits nor the value. *)
Lemma pad_left_spec w n :
  0 ≤ n → all_digits (pad_left w (digits n)) = true ∧
          dec_value 0 (pad_left w (digits n)) = n.
Proof.
  intros Hn. destruct (digits_spec n Hn) as (Hd & Hv & _).
  unfold pad_left. rewrite all_digits_app, zeros_digits, Hd, dec_value_app, dec_value_zeros.
  done.
Qed.

(** A number below [10 ^ w] is padded to exactly [w] characters. *)
Lemma pad_left_length w n :
  1 ≤ w → 0 ≤ n < 10 ^ w → slen (pad_left w (digits n)) = w.
Proof.
  intros Hw Hn. destruct (digits_spec n ltac:(lia)) as (_ & _ & _ & Hlen).
  specialize (Hlen w Hw ltac:(lia)).
  unfold pad_left. rewrite slen_app, zeros_length. lia.
Qed.

(** A digit is neither a sign nor a point. *)
Lemma digits_head n : 0 ≤ n → ∃ c s, digits n = String c s ∧ is_digit c = true ∧
  Ascii.eqb c "-"%char = false ∧ Ascii.eqb c "+"%char = false.
Proof.
  intros Hn. destruct (digits_spec n Hn) as (Hd & _ & Hne & _).
  destruct (digits n) as [|c s]; [done|]. exists c, s. simpl in Hd.
  apply andb_true_iff in Hd as [Hc _]. split; [done|]. split; [done|].
  destruct c as [[] [] [] [] [] [] [] []]; done.
Qed.

(** Printed numbers are read back. *)
Lemma ParseInt_itoa n : in_int64 n → ParseInt (itoa n) = Some n.
Proof.
  intros Hn. unfold itoa. destruct (Z.ltb_spec n 0) as [Hneg | Hpos].
  - destruct (digits_spec (- n) ltac:(lia)) as (Hd & Hv & Hne & _).
    unfold ParseInt. cbn -[digits bool_decide]. rewrite Hd, (proj2 (seqb_neq _ _) Hne), Hv. cbn -[bool_decide].
    rewrite Z.opp_involutive. by rewrite bool_decide_eq_true_2.
  - destruct (digits_spec n Hpos) as (Hd & Hv & Hne & _).
    destruct (digits_head n Hpos) as (c & s & E & _ & Hm & Hp).
    unfold ParseInt. rewrite E, Hm, Hp, <-E, Hd, (proj2 (seqb_neq _ _) Hne), Hv. cbn -[bool_decide].
    by rewrite bool_decide_eq_true_2.
Qed.

Lemma dec_value_nonneg s acc :
  0 ≤ acc → all_digits s = true → 0 ≤ dec_value acc s.
Proof.
  revert acc. induction s as [|c s IH]; intros acc Ha Hs; [done|].
  simpl in *. apply andb_true_iff in Hs as [Hc Hs]. apply IH; [|done].
  unfold is_digit in Hc. apply andb_true_iff in Hc as [Hc _].
  apply N.leb_le in Hc. unfold digit_value. lia.
Qed.

(** * Lemmas on sorting *)

Lemma insert_by_perm {V} (leb : V → V → bool) x l : insert_by leb x l ≡ₚ x :: l.
Proof.
  induction l as [|y l IH]; [done|]. simpl. destruct (leb x y); [done|].
  rewrite IH. constructor.
Qed.

Lemma sort_by_perm {V} (leb : V → V → bool) l : sort_by leb l ≡ₚ l.
Proof. induction l as [|x l IH]; [done|]. simpl. by rewrite insert_by_perm, IH. Qed.

(** Any total and transitive order. *)
Lemma sort_by_ordered {V} (leb : V → V → bool) l :
  (∀ a b, leb a b = false → leb b a = true) →
  (∀ a b c, leb a b = true → leb b c = true → leb a c = true) →
  Sorted.StronglySorted (λ a b, leb a b = true) (sort_by leb l).
Proof.
  intros Htot Htr. induction l as [|x l IH]; simpl; [constructor|]. revert IH.
  generalize (sort_by leb l). clear l. intros l Hl.
  induction Hl as [|y l Hl IH Hy]; simpl; [repeat constructor|].
  destruct (leb x y) eqn:E.
  - constructor; [by constructor|]. constructor; [done|].
    eapply Forall_impl; [exact Hy|]. simpl. eauto.
  - constructor; [done|]. rewrite insert_by_perm. constructor; [by apply Htot|done].
Qed.

(** Go's order of strings is total. *)
Lemma string_leb_cons x a y b :
  string_leb (String x a) (String y b) =
  match (Ascii.N_of_ascii x ?= Ascii.N_of_ascii y)%N with
  | Lt => true | Gt => false | Eq => string_leb a b end.
Proof.
  unfold string_leb. simpl. unfold Ascii.compare.
  by destruct (Ascii.N_of_ascii x ?= Ascii.N_of_ascii y)%N.
Qed.

Lemma string_leb_total a b : string_leb a b = false → string_leb b a = true.
Proof.
  revert b. induction a as [|x a IH]; intros [|y b]; try done.
  rewrite !string_leb_cons, (N.compare_antisym (Ascii.N_of_ascii x)).
  destruct (Ascii.N_of_ascii x ?= Ascii.N_of_ascii y)%N; simpl; [apply IH|done|done].
Qed.

Lemma string_leb_trans a b c :
  string_leb a b = true → string_leb b c = true → string_leb a c = true.
Proof.
  revert b c. induction a as [|x a IH]; intros [|y b] [|z c]; try done.
  rewrite !string_leb_cons.
  destruct (N.compare_spec (Ascii.N_of_ascii x) (Ascii.N_of_ascii y)) as [Hxy|Hxy|Hxy]; [| |done];
    destruct (N.compare_spec (Ascii.N_of_ascii y) (Ascii.N_of_ascii z)) as [Hyz|Hyz|Hyz]; try done;
    destruct (N.compare_spec (Ascii.N_of_ascii x) (Ascii.N_of_ascii z)) as [Hxz|Hxz|Hxz];
    try done; try lia. apply IH.
Qed.

Lemma string_leb_antisym a b : string_leb a b = true → string_leb b a = true → a = b.
Proof.
  revert b. induction a as [|x a IH]; intros [|y b]; try done.
  rewrite !string_leb_cons, (N.compare_antisym (Ascii.N_of_ascii x)).
  destruct (N.compare_spec (Ascii.N_of_ascii x) (Ascii.N_of_ascii y)) as [Hxy|?|?]; try done.
  simpl. intros Hab Hba. f_equal; [|by apply IH].
  by rewrite <-(Ascii.ascii_N_embedding x), Hxy, Ascii.ascii_N_embedding.
Qed.

Lemma sort_strings_by l : sort_strings l = sort_by string_leb l.
Proof.
  assert (∀ x l, insert_string x l = insert_by string_leb x l) as H.
  { intros x l'. induction l' as [|y l' IH]; simpl; [done|]. by rewrite IH. }
  unfold sort_strings, sort_by. induction l as [|x l IH]; simpl; [done|]. by rewrite IH, H.
Qed.

Lemma sort_strings_perm l : sort_strings l ≡ₚ l.
Proof. rewrite sort_strings_by. apply sort_by_perm. Qed.
