(* ===== verification/GoTime.v ===== *)
(** The proleptic Gregorian calendar of Go's [time] package, in UTC.

    An instant is its count of Unix seconds.  [TimeDate] is [time.Date] with
    its normalisation of out-of-range months, days and clock fields; the
    accessors are the methods of [time.Time].  The calendar functions are
    mutually inverse ([civil_days], [days_civil]), which is what the billing
    periods, the retention buckets and the schedules rest on. *)
From stdpp Require Import prelude.
From Stdlib Require Import ZArith Lia.
From S2P Require Import Prelude.

(** * Definitions *)

Definition leap (y : Z) : bool :=
  (y mod 4 =? 0) && (negb (y mod 100 =? 0) || (y mod 400 =? 0)).

Definition month_length (y m : Z) : Z :=
  if (m =? 4) || (m =? 6) || (m =? 9) || (m =? 11) then 30
  else if m =? 2 then (if leap y then 29 else 28) else 31.

(** Days since 1970-01-01, counting years from March so that the leap day is
    the last of its year, in eras of 400 years. *)
Definition year_start (yoe : Z) : Z := 365 * yoe + yoe / 4 - yoe / 100.
Definition month_start (mp : Z) : Z := (153 * mp + 2) / 5.
Definition year_of (doe : Z) : Z := (doe - doe / 1460 + doe / 36524 - doe / 146096) / 365.

Definition days_from_civil (y m d : Z) : Z :=
  let y := if m <=? 2 then y - 1 else y in
  (y / 400) * 146097 + year_start (y mod 400) + month_start ((m + 9) mod 12) + d - 1 - 719468.

Definition civil_from_days (n : Z) : Z * Z * Z :=
  let z := n + 719468 in
  let yoe := year_of (z mod 146097) in
  let doy := z mod 146097 - year_start yoe in
  let mp := (5 * doy + 2) / 153 in
  let m := if mp <? 10 then mp + 3 else mp - 9 in
  (z / 146097 * 400 + yoe + (if m <=? 2 then 1 else 0), m, doy - month_start mp + 1).

Definition day_seconds : Z := 86400.

(** Accessors of a [time.Time]. *)
Definition TDate (t : Z) : Z * Z * Z := civil_from_days (t / day_seconds).
Definition TYear (t : Z) : Z := (TDate t).1.1.
Definition TMonth (t : Z) : Z := (TDate t).1.2.
Definition TDay (t : Z) : Z := (TDate t).2.
Definition THour (t : Z) : Z := t mod day_seconds / 3600.
Definition TMinute (t : Z) : Z := t mod 3600 / 60.
Definition TSecond (t : Z) : Z := t mod 60.
(** Sunday is 0; 1970-01-01 was a Thursday. *)
Definition TWeekday (t : Z) : Z := (t / day_seconds + 4) mod 7.

(** [time.Date(y, m, d, h, mi, s, 0, time.UTC)]. *)
Definition TimeDate (y m d h mi s : Z) : Z :=
  let y := y + (m - 1) / 12 in
  let m := (m - 1) mod 12 + 1 in
  (days_from_civil y m 1 + (d - 1)) * day_seconds + h * 3600 + mi * 60 + s.

(** [time.Time{}], year 1. *)
Definition zero_time : Z := -62135596800.
Definition IsZero (t : Z) : bool := t =? zero_time.

(** [time.Time.Sub] on instants in nanoseconds: a [time.Duration] that saturates. *)
Definition time_Sub (a b : Z) : Z := Z.max min_int64 (Z.min max_int64 (a - b)).

(** [t.AddDate]. *)
Definition AddDate (t years months days : Z) : Z :=
  TimeDate (TYear t + years) (TMonth t + months) (TDay t + days)
           (THour t) (TMinute t) (TSecond t).

Definition valid_date (y m d : Z) : Prop := 1 ≤ m ≤ 12 ∧ 1 ≤ d ≤ month_length y m.

(** * Lemmas *)

Lemma zero_time_date : TimeDate 1 1 1 0 0 0 = zero_time.
Proof. reflexivity. Qed.

Lemma year_of_step doe : 0 ≤ doe →
  doe - doe / 1460 + doe / 36524 - doe / 146096 ≤
  (doe + 1) - (doe + 1) / 1460 + (doe + 1) / 36524 - (doe + 1) / 146096.
Proof.
  intros H.
  divlia.
Qed.

Lemma year_of_mono a b : 0 ≤ a ≤ b → year_of a ≤ year_of b.
Proof.
  intros H. unfold year_of. apply Z.div_le_mono; [lia|].
  replace b with (a + Z.of_nat (Z.to_nat (b - a))) by lia.
  induction (Z.to_nat (b - a)) as [|n IH]; [rewrite Z.add_0_r; lia|].
  etrans; [apply IH|]. replace (a + Z.of_nat (S n)) with (a + Z.of_nat n + 1) by lia.
  apply year_of_step. lia.
Qed.

(** Both ends of each of the 400 years of an era are assigned to it. *)
Definition year_ends_ok (yoe : Z) : bool :=
  (year_of (year_start yoe) =? yoe) &&
  ((year_of (year_start (yoe + 1) - 1) =? yoe) || (yoe =? 399)).

Lemma year_ends_checked : forallb year_ends_ok (seqZ 0 400) = true.
Proof. vm_compute. reflexivity. Qed.

Lemma year_of_spec yoe doe :
  0 ≤ yoe < 400 → year_start yoe ≤ doe <
    (if yoe =? 399 then 146097 else year_start (yoe + 1)) → year_of doe = yoe.
Proof.
  intros Hy Hd. pose proof year_ends_checked as Hc. rewrite forallb_forall in Hc.
  specialize (Hc yoe). rewrite <-list_elem_of_In, elem_of_seqZ in Hc.
  specialize (Hc ltac:(lia)). unfold year_ends_ok in Hc.
  apply andb_true_iff in Hc as [H1 H2]. apply Z.eqb_eq in H1.
  assert (0 ≤ year_start yoe) by (unfold year_start; divlia).
  pose proof (year_of_mono (year_start yoe) doe ltac:(lia)).
  destruct (Z.eqb_spec yoe 399) as [->|].
  - pose proof (year_of_mono doe 146096 ltac:(lia)) as Hm.
    change (year_of 146096) with 399 in Hm. lia.
  - rewrite orb_false_r in H2. apply Z.eqb_eq in H2.
    pose proof (year_of_mono doe (year_start (yoe + 1) - 1) ltac:(lia)). lia.
Qed.

(** The year length in the March calendar. *)
Lemma year_start_next yoe : 0 ≤ yoe < 400 →
  (if yoe =? 399 then 146097 else year_start (yoe + 1)) =
  year_start yoe + 365 + (if leap (yoe + 1) then 1 else 0).
Proof.
  intros Hy.
  assert (forallb (λ yoe, (if yoe =? 399 then 146097 else year_start (yoe + 1)) =?
    year_start yoe + 365 + (if leap (yoe + 1) then 1 else 0)) (seqZ 0 400) = true) as Hc
    by (vm_compute; reflexivity).
  rewrite forallb_forall in Hc. apply Z.eqb_eq, Hc.
  rewrite <-list_elem_of_In, elem_of_seqZ. lia.
Qed.

Lemma leap_period y k : leap (y + k * 400) = leap y.
Proof.
  unfold leap.
  replace ((y + k * 400) mod 4) with (y mod 4) by divlia.
  replace ((y + k * 400) mod 100) with (y mod 100) by divlia.
  replace ((y + k * 400) mod 400) with (y mod 400) by divlia. done.
Qed.

Lemma month_length_bounds y m : 28 ≤ month_length y m ≤ 31.
Proof. unfold month_length. repeat case_match; lia. Qed.

(** The March month holding a day of the year. *)
Lemma month_of_spec mp d :
  0 ≤ mp ≤ 11 → 0 ≤ d → month_start mp + d < month_start (mp + 1) →
  (5 * (month_start mp + d) + 2) / 153 = mp.
Proof. unfold month_start. intros. divlia. Qed.

(** Lengths of the March months: February is bounded by the year instead. *)
Lemma month_start_length y m d :
  1 ≤ m ≤ 12 → 1 ≤ d ≤ month_length y m →
  let mp := (m + 9) mod 12 in
  0 ≤ mp ≤ 11 ∧ month_start mp + (d - 1) < month_start (mp + 1) ∧
  0 ≤ month_start mp + (d - 1) < 365 + (if leap y then 1 else 0) ∧
  (m = 2 ∨ month_start mp + (d - 1) < 337).
Proof.
  intros Hm Hd mp. subst mp. unfold month_length in Hd.
  assert (m = 1 ∨ m = 2 ∨ m = 3 ∨ m = 4 ∨ m = 5 ∨ m = 6 ∨ m = 7 ∨ m = 8 ∨ m = 9 ∨ m = 10
          ∨ m = 11 ∨ m = 12) as Hc by lia.
  unfold month_start.
  destruct Hc as [->|[->|[->|[->|[->|[->|[->|[->|[->|[->|[->| ->]]]]]]]]]]];
    cbn in Hd |- *; destruct (leap y); divlia.
Qed.

(** [TDate] recovers every valid date handed to [TimeDate]. *)
Lemma days_civil y m d :
  valid_date y m d → civil_from_days (days_from_civil y m d) = (y, m, d).
Proof.
  intros [Hm Hd]. unfold civil_from_days, days_from_civil.
  destruct (month_start_length y m d Hm Hd) as (Hmp & Hnext & Hdoy & Hfeb).
  set (mp := (m + 9) mod 12) in *.
  set (y' := if m <=? 2 then y - 1 else y).
  set (yoe := y' mod 400). set (doy := month_start mp + (d - 1)) in *.
  assert (0 ≤ yoe < 400) as Hyoe by (subst yoe; apply Z.mod_pos_bound; lia).
  assert (0 ≤ doy < 365 + (if leap (yoe + 1) then 1 else 0)) as Hdoy'.
  { destruct (Z.leb_spec m 2); subst y'.
    - replace (leap (yoe + 1)) with (leap y); [lia|].
      rewrite <-(leap_period (yoe + 1) ((y - 1) / 400)). f_equal. subst yoe. divlia.
    - destruct (leap (yoe + 1)); [lia|]. lia. }
  assert (0 ≤ year_start yoe + doy < 146097 ∧ year_of (year_start yoe + doy) = yoe) as [Hdoe Hyo].
  { pose proof (year_start_next yoe Hyoe) as Hn.
    assert (0 ≤ year_start yoe) by (unfold year_start; divlia). split.
    - destruct (Z.eqb_spec yoe 399); [lia|]. split; [lia|].
      assert (year_start (yoe + 1) ≤ 146097); [|lia]. unfold year_start. divlia.
    - apply year_of_spec; lia. }
  set (doe := year_start yoe + doy) in *.
  replace (y' / 400 * 146097 + year_start yoe + month_start mp + d - 1 - 719468 + 719468)
    with (doe + y' / 400 * 146097) by (subst doe doy; lia).
  rewrite Z.div_add, Z.mod_add by lia. rewrite Z.div_small, Z.mod_small by lia. rewrite Hyo.
  replace (doe - year_start yoe) with doy by (subst doe; lia).
  replace ((5 * doy + 2) / 153) with mp by (symmetry; apply month_of_spec; lia).
  assert ((if mp <? 10 then mp + 3 else mp - 9) = m) as ->.
  { subst mp. destruct (Z.ltb_spec ((m + 9) mod 12) 10); divlia. }
  repeat f_equal.
  - subst yoe y'. destruct (Z.leb_spec m 2); divlia.
  - subst doy. lia.
Qed.

(** Every day of an era falls in one of its years. *)
Lemma era_year doe : 0 ≤ doe < 146097 →
  ∃ yoe, 0 ≤ yoe < 400 ∧ year_start yoe ≤ doe <
    (if yoe =? 399 then 146097 else year_start (yoe + 1)).
Proof.
  intros Hdoe.
  assert (∀ j : nat, (j ≤ 399)%nat → year_start (399 - Z.of_nat j) ≤ doe →
    ∃ yoe, 0 ≤ yoe < 400 ∧ year_start yoe ≤ doe <
      (if yoe =? 399 then 146097 else year_start (yoe + 1))) as Hj.
  { induction j as [|j IH]; intros Hj Hs.
    - exists 399. split; [lia|]. change (399 - Z.of_nat 0) with 399 in Hs.
      rewrite Z.eqb_refl. lia.
    - destruct (Z.le_gt_cases (year_start (399 - Z.of_nat j)) doe); [apply IH; [lia|done]|].
      exists (399 - Z.of_nat (S j)). split; [lia|].
      destruct (Z.eqb_spec (399 - Z.of_nat (S j)) 399); [lia|].
      replace (399 - Z.of_nat (S j) + 1) with (399 - Z.of_nat j) by lia. lia. }
  apply (Hj 399%nat); [lia|]. change (year_start (399 - Z.of_nat 399)) with 0. lia.
Qed.

(** A day of the year, split into a March month and a day of it, is within the
    length of that month. *)
Lemma month_length_covers y mp doy :
  0 ≤ mp ≤ 11 → month_start mp ≤ doy < month_start (mp + 1) →
  (mp = 11 → doy < 365 + (if leap y then 1 else 0)) →
  doy - month_start mp + 1 ≤ month_length y (if mp <? 10 then mp + 3 else mp - 9).
Proof.
  intros Hmp Hdoy Hfeb. unfold month_length.
  assert (mp = 0 ∨ mp = 1 ∨ mp = 2 ∨ mp = 3 ∨ mp = 4 ∨ mp = 5 ∨ mp = 6 ∨ mp = 7 ∨ mp = 8
          ∨ mp = 9 ∨ mp = 10 ∨ mp = 11) as Hc by lia.
  destruct Hc as [->|[->|[->|[->|[->|[->|[->|[->|[->|[->|[->| ->]]]]]]]]]]];
    unfold month_start in *; simpl; try (clear Hfeb; divlia).
  specialize (Hfeb eq_refl). destruct (leap y); divlia.
Qed.

(** Every day has a valid date, and [days_from_civil] recovers the day. *)
Lemma civil_days n :
  let '(y, m, d) := civil_from_days n in
  valid_date y m d ∧ days_from_civil y m d = n.
Proof.
  unfold civil_from_days. set (z := n + 719468). set (doe := z mod 146097).
  assert (0 ≤ doe < 146097) as Hdoe by (subst doe; apply Z.mod_pos_bound; lia).
  destruct (era_year doe Hdoe) as (yoe & Hyoe & Hin).
  rewrite (year_of_spec yoe doe Hyoe Hin).
  rewrite (year_start_next yoe Hyoe) in Hin.
  set (doy := doe - year_start yoe).
  assert (0 ≤ doy < 365 + (if leap (yoe + 1) then 1 else 0)) as Hdoy by (subst doy; lia).
  set (mp := (5 * doy + 2) / 153).
  assert (0 ≤ mp ≤ 11 ∧ month_start mp ≤ doy < month_start (mp + 1)) as [Hmp Hms].
  { subst mp. unfold month_start. destruct (leap (yoe + 1)); divlia. }
  set (m := if mp <? 10 then mp + 3 else mp - 9).
  set (y := z / 146097 * 400 + yoe + (if m <=? 2 then 1 else 0)).
  assert (1 ≤ m ≤ 12 ∧ (m + 9) mod 12 = mp) as [Hm Hmm].
  { subst m. destruct (Z.ltb_spec mp 10); divlia. }
  assert ((if m <=? 2 then y - 1 else y) = yoe + z / 146097 * 400) as Hy.
  { subst y. destruct (m <=? 2); lia. }
  split.
  - split; [done|]. split; [lia|]. apply month_length_covers; [done..|].
    intros E. replace (leap y) with (leap (yoe + 1)); [apply Hdoy|].
    rewrite <-(leap_period (yoe + 1) (z / 146097)). f_equal.
    subst y m. rewrite E. simpl. lia.
  - unfold days_from_civil. rewrite Hy, Hmm.
    rewrite Z.div_add, Z.mod_add, Z.div_small, Z.mod_small by lia.
    subst doy doe. pose proof (Z.div_mod z 146097 ltac:(lia)). subst z. lia.
Qed.

(** ** Instants *)

Lemma TDate_valid t : valid_date (TYear t) (TMonth t) (TDay t).
Proof.
  unfold TYear, TMonth, TDay, TDate. pose proof (civil_days (t / day_seconds)) as H.
  destruct (civil_from_days _) as [[y m] d]. apply H.
Qed.

Lemma TDate_days t : days_from_civil (TYear t) (TMonth t) (TDay t) = t / day_seconds.
Proof.
  unfold TYear, TMonth, TDay, TDate. pose proof (civil_days (t / day_seconds)) as H.
  destruct (civil_from_days _) as [[y m] d]. apply H.
Qed.

Definition clock_of (t : Z) : Z := THour t * 3600 + TMinute t * 60 + TSecond t.

Lemma clock_of_mod t : clock_of t = t mod day_seconds.
Proof. unfold clock_of, THour, TMinute, TSecond, day_seconds. divlia. Qed.

Lemma days_from_civil_day y m d : days_from_civil y m 1 + (d - 1) = days_from_civil y m d.
Proof. unfold days_from_civil. lia. Qed.

Lemma TimeDate_valid y m d h mi s :
  1 ≤ m ≤ 12 →
  TimeDate y m d h mi s = days_from_civil y m d * day_seconds + h * 3600 + mi * 60 + s.
Proof.
  intros Hm. unfold TimeDate.
  rewrite (Z.div_small (m - 1)), (Z.mod_small (m - 1)), days_from_civil_day by lia.
  by replace (m - 1 + 1) with m by lia; rewrite Z.add_0_r.
Qed.

(** Splitting an instant into its date and clock loses nothing. *)
Lemma TimeDate_TDate t :
  TimeDate (TYear t) (TMonth t) (TDay t) (THour t) (TMinute t) (TSecond t) = t.
Proof.
  rewrite TimeDate_valid by apply TDate_valid. rewrite TDate_days.
  pose proof (clock_of_mod t) as Hc. unfold clock_of in Hc.
  pose proof (Z.div_mod t day_seconds ltac:(done)). lia.
Qed.

(** The date and clock of an instant built from valid fields. *)
Lemma TDate_TimeDate y m d h mi s :
  valid_date y m d → 0 ≤ h * 3600 + mi * 60 + s < day_seconds →
  TDate (TimeDate y m d h mi s) = (y, m, d) ∧
  clock_of (TimeDate y m d h mi s) = h * 3600 + mi * 60 + s.
Proof.
  intros Hv Hc. rewrite clock_of_mod. unfold TDate.
  rewrite TimeDate_valid by apply Hv.
  replace (days_from_civil y m d * day_seconds + h * 3600 + mi * 60 + s)
    with (h * 3600 + mi * 60 + s + days_from_civil y m d * day_seconds) by lia.
  rewrite Z.div_add, Z.mod_add by done. rewrite Z.div_small, Z.mod_small by done.
  rewrite Z.add_0_l, days_civil by done. done.
Qed.

(** ** Ordering of dates *)

(** A month other than February ends where the next March month starts. *)
Lemma month_start_next y m :
  1 ≤ m ≤ 12 → m ≠ 2 →
  month_start ((m + 9) mod 12) + month_length y m = month_start ((m + 9) mod 12 + 1).
Proof.
  intros Hm Hm2.
  assert (m = 1 ∨ m = 3 ∨ m = 4 ∨ m = 5 ∨ m = 6 ∨ m = 7 ∨ m = 8 ∨ m = 9 ∨ m = 10
          ∨ m = 11 ∨ m = 12) as Hc by lia.
  destruct Hc as [->|[->|[->|[->|[->|[->|[->|[->|[->|[->| ->]]]]]]]]]]; reflexivity.
Qed.

(** The day after the last of a month is the first of the next. *)
Lemma days_from_civil_month y m :
  1 ≤ m ≤ 12 →
  days_from_civil y m (month_length y m) + 1 = days_from_civil (y + m / 12) (m mod 12 + 1) 1.
Proof.
  intros Hm.
  destruct (Z.eq_dec m 2) as [->|Hm2].
  - change (2 / 12) with 0. change (2 mod 12 + 1) with 3.
    unfold days_from_civil, month_length.
    change ((3 + 9) mod 12) with 0. change ((2 + 9) mod 12) with 11.
    change (month_start 11) with 337. change (month_start 0) with 0.
    change (2 <=? 2) with true. change (3 <=? 2) with false. cbv iota.
    replace (y + 0) with y by lia.
    pose proof (year_start_next ((y - 1) mod 400) ltac:(apply Z.mod_pos_bound; lia)) as Hn.
    rewrite <-(leap_period ((y - 1) mod 400 + 1) ((y - 1) / 400)) in Hn.
    replace ((y - 1) mod 400 + 1 + (y - 1) / 400 * 400) with y in Hn by divlia.
    simpl (_ || _). simpl (2 =? 2). cbv iota.
    destruct (Z.eqb_spec ((y - 1) mod 400) 399) as [E|E].
    + assert (y mod 400 = 0 ∧ y / 400 = (y - 1) / 400 + 1) as [-> ->] by divlia.
      rewrite E in Hn |- *. change (year_start 0) with 0. destruct (leap y); lia.
    + assert (y mod 400 = (y - 1) mod 400 + 1 ∧ y / 400 = (y - 1) / 400) as [-> ->] by divlia.
      destruct (leap y); lia.
  - pose proof (month_start_next y m Hm Hm2). unfold days_from_civil.
    assert ((if m mod 12 + 1 <=? 2 then y + m / 12 - 1 else y + m / 12) =
            (if m <=? 2 then y - 1 else y) ∧ (m mod 12 + 1 + 9) mod 12 = (m + 9) mod 12 + 1)
      as [-> ->]; [|lia].
    destruct (Z.leb_spec m 2), (Z.leb_spec (m mod 12 + 1) 2); divlia.
Qed.

(** ** Months counted from year 0 *)

(** The day that starts a month, by the index of the month. *)
Definition month_first (i : Z) : Z := days_from_civil (i / 12) (i mod 12 + 1) 1.

Lemma month_first_last i :
  days_from_civil (i / 12) (i mod 12 + 1) (month_length (i / 12) (i mod 12 + 1)) + 1
  = month_first (i + 1).
Proof.
  rewrite days_from_civil_month by divlia. unfold month_first.
  replace ((i + 1) / 12) with (i / 12 + (i mod 12 + 1) / 12) by divlia.
  by replace ((i + 1) mod 12) with ((i mod 12 + 1) mod 12) by divlia.
Qed.

Lemma month_first_next i d :
  d ≤ month_length (i / 12) (i mod 12 + 1) →
  days_from_civil (i / 12) (i mod 12 + 1) d < month_first (i + 1).
Proof.
  intros Hd. rewrite <-month_first_last. rewrite <-!(days_from_civil_day _ _ d),
    <-(days_from_civil_day _ _ (month_length _ _)). lia.
Qed.

Lemma month_first_mono i k : 0 ≤ k → month_first i ≤ month_first (i + k).
Proof.
  intros Hk. replace k with (Z.of_nat (Z.to_nat k)) by lia.
  induction (Z.to_nat k) as [|n IH]; [by rewrite Z.add_0_r|].
  etrans; [exact IH|]. replace (i + Z.of_nat (S n)) with (i + Z.of_nat n + 1) by lia.
  apply Z.lt_le_incl. apply month_first_next.
  pose proof (month_length_bounds ((i + Z.of_nat n) / 12) ((i + Z.of_nat n) mod 12 + 1)). lia.
Qed.

(** Overflowing months carry into the year. *)
Lemma TimeDate_month y m k d h mi s :
  TimeDate y (m + k) d h mi s =
  TimeDate ((y * 12 + (m - 1) + k) / 12) ((y * 12 + (m - 1) + k) mod 12 + 1) d h mi s.
Proof.
  unfold TimeDate.
  replace (((y * 12 + (m - 1) + k) mod 12 + 1 - 1) / 12) with 0 by divlia.
  replace (((y * 12 + (m - 1) + k) mod 12 + 1 - 1) mod 12) with ((m + k - 1) mod 12) by divlia.
  by replace ((y * 12 + (m - 1) + k) / 12 + 0) with (y + (m + k - 1) / 12) by divlia.
Qed.

Lemma month_index y m : 1 ≤ m ≤ 12 →
  (y * 12 + (m - 1)) / 12 = y ∧ (y * 12 + (m - 1)) mod 12 + 1 = m.
Proof. intros. divlia. Qed.
