(* ===== verification/Money.v ===== *)
(** Integer money: [src/src/billing/money.go].

    Amounts are [int64] counts of a currency's minor unit; every operation
    below wraps around exactly where the Go code would. *)
From stdpp Require Import prelude strings list.
From Stdlib Require Import ZArith Lia Ascii.
From S2P Require Import Prelude.

Definition DefaultCurrency : string := "USD".

(** [currencyExponents], in source order. *)
Definition currencyExponents : list (string * Z) :=
  [("AED", 2); ("ARS", 2); ("AUD", 2); ("BGN", 2); ("BHD", 3); ("BRL", 2); ("CAD", 2);
   ("CHF", 2); ("CLP", 0); ("CNY", 2); ("COP", 2); ("CZK", 2); ("DKK", 2); ("EGP", 2);
   ("EUR", 2); ("GBP", 2); ("HKD", 2); ("HRK", 2); ("HUF", 2); ("IDR", 2); ("ILS", 2);
   ("INR", 2); ("ISK", 0); ("JOD", 3); ("JPY", 0); ("KES", 2); ("KRW", 0); ("KWD", 3);
   ("MAD", 2); ("MXN", 2); ("MYR", 2); ("NGN", 2); ("NOK", 2); ("NZD", 2); ("OMR", 3);
   ("PEN", 2); ("PHP", 2); ("PKR", 2); ("PLN", 2); ("QAR", 2); ("RON", 2); ("RSD", 2);
   ("RUB", 2); ("SAR", 2); ("SEK", 2); ("SGD", 2); ("THB", 2); ("TND", 3); ("TRY", 2);
   ("TWD", 2); ("TZS", 2); ("UAH", 2); ("USD", 2); ("UYU", 2); ("VND", 0); ("ZAR", 2)].

Definition SupportedCurrency (code : string) : bool :=
  match assoc (ToUpper (TrimSpace code)) currencyExponents with
  | Some _ => true
  | None => false
  end.

Definition NormalizeCurrency (code : string) : Result string string :=
  let c := ToUpper (TrimSpace code) in
  if c =s "" then Err "billing: currency is required"
  else match assoc c currencyExponents with
       | None => Err ("billing: unsupported currency " +:+ quote c)
       | Some _ => Ok c
       end.

Definition CurrencyExponent (code : string) : Z :=
  match assoc (ToUpper (TrimSpace code)) currencyExponents with
  | Some e => e
  | None => 2
  end.

Fixpoint pow10_loop (n : nat) (out : Z) : Z :=
  match n with
  | O => out
  | S n' => pow10_loop n' (out *! 10)
  end.

Definition pow10 (n : Z) : Z := pow10_loop (Z.to_nat n) 1.

Definition FormatMinor (amount : Z) (currency : string) : string :=
  let exp := CurrencyExponent currency in
  if exp =? 0 then itoa amount
  else
    let '(sign, amount) := if amount <? 0 then ("-", -! amount) else ("", amount) in
    let div := pow10 exp in
    sign +:+ itoa (amount /! div) +:+ "." +:+ fmt_0d exp (amount %! div).

(** The [for len(frac) < exp] loop. *)
Definition pad_frac (frac : string) (exp : Z) : string :=
  frac +:+ zeros (Z.to_nat (exp - slen frac)).

(** The digit loop of [ParseMinor], accumulating in an [int64]. *)
Fixpoint parse_digits (out : Z) (s : string) : option Z :=
  match s with
  | EmptyString => Some out
  | String r s' =>
      if is_digit r then parse_digits ((out *! 10) +! digit_value r) s' else None
  end.

Definition ParseMinor (s currency : string) : Result string Z :=
  let exp := CurrencyExponent currency in
  let raw := TrimSpace s in
  match raw with
  | EmptyString => Err "billing: empty amount"
  | String c rest =>
      let '(neg, raw) :=
        if Ascii.eqb c "-"%char then (true, rest)
        else if Ascii.eqb c "+"%char then (false, rest) else (false, raw) in
      let '(whole, frac, hasFrac) := Cut raw "."%char in
      let whole := if whole =s "" then "0" else whole in
      if hasFrac && (exp <? slen frac) then
        Err ("billing: " +:+ quote s +:+ " has more than " +:+ itoa exp +:+
             " fractional digits for " +:+ currency)
      else
        match parse_digits 0 (whole +:+ pad_frac frac exp) with
        | None => Err ("billing: " +:+ quote s +:+ " is not a valid amount")
        | Some out => Ok (if neg : bool then -! out else out)
        end
  end.

(** Both operands are reduced once at the swap, as Go's tuple assignment does. *)
Definition divRoundHalfAway (num den : Z) : Z :=
  let '(num, den) := if den <? 0 then (-! num, -! den) else (num, den) in
  if num <? 0 then -! (((-! num *! 2) +! den) /! (den *! 2))
  else ((num *! 2) +! den) /! (den *! 2).

Definition PercentBasisPoints (amount bps : Z) : Z :=
  if (bps =? 0) || (amount =? 0) then 0
  else divRoundHalfAway (amount *! bps) 10000.

Definition Prorate (amount numerator denominator : Z) : Z :=
  if (denominator =? 0) || (amount =? 0) || (numerator =? 0) then 0
  else if denominator <=? numerator then amount
  else if numerator <? 0 then 0
  else divRoundHalfAway (amount *! numerator) denominator.

Fixpoint sum_loop (total : Z) (amounts : list Z) : Z :=
  match amounts with
  | [] => total
  | a :: rest => sum_loop (total +! a) rest
  end.

Definition SumMinor (amounts : list Z) : Z := sum_loop 0 amounts.

Definition ClampNonNegative (amount : Z) : Z := if amount <? 0 then 0 else amount.

(** * Helper lemmas *)

Lemma CurrencyExponent_cases c :
  CurrencyExponent c = 0 ∨ CurrencyExponent c = 2 ∨ CurrencyExponent c = 3.
Proof.
  unfold CurrencyExponent.
  destruct (assoc _ currencyExponents) as [v|] eqn:Hv; [|lia].
  apply assoc_Some_in in Hv. apply list_elem_of_In in Hv.
  assert (forallb (λ p, (p.2 =? 0) || (p.2 =? 2) || (p.2 =? 3)) currencyExponents = true)
    as Hall by reflexivity.
  rewrite forallb_forall in Hall. apply Hall in Hv. cbn [snd] in Hv. lia.
Qed.

Lemma ClampNonNegative_max a : ClampNonNegative a = Z.max 0 a.
Proof. unfold ClampNonNegative. destruct (Z.ltb_spec a 0); lia. Qed.

(** The rounding quotient, before machine arithmetic. *)
Definition round_half_away (num den : Z) : Z :=
  Z.sgn num * ((2 * Z.abs num + den) / (2 * den)).

Lemma divRoundHalfAway_round num den :
  0 < den → 2 * Z.abs num + den ≤ max_int64 →
  2 * den ≤ max_int64 → divRoundHalfAway num den = round_half_away num den.
Proof.
  intros Hd Hb Hb2. unfold divRoundHalfAway, round_half_away.
  destruct (Z.ltb_spec den 0); [lia|].
  assert (0 ≤ (2 * Z.abs num + den) / (2 * den) ≤ max_int64) as Hq.
  { split; [apply Z.div_pos; lia|].
    apply Z.div_le_upper_bound; [lia|].
    pose proof (Z.mul_le_mono_nonneg_r 1 (2 * den) max_int64 ltac:(done) ltac:(lia)). lia. }
  destruct (Z.ltb_spec num 0) as [Hn|Hn].
  - rewrite Z.sgn_neg by lia. rewrite Z.abs_neq in * by lia.
    rewrite (wrap64_id (- num)), (wrap64_id (- num * 2)), (wrap64_id (den * 2)),
      (wrap64_id (- num * 2 + den)) by int64.
    rewrite Z.quot_div_nonneg by lia.
    replace (- num * 2 + den) with (2 * - num + den) by lia.
    replace (den * 2) with (2 * den) by lia.
    set (q := (2 * - num + den) / (2 * den)) in *. clearbody q. unwrap64. lia.
  - rewrite Z.abs_eq in * by lia.
    rewrite (wrap64_id (num * 2)), (wrap64_id (den * 2)), (wrap64_id (num * 2 + den)) by int64.
    rewrite Z.quot_div_nonneg by lia.
    replace (num * 2 + den) with (2 * num + den) by lia.
    replace (den * 2) with (2 * den) by lia.
    rewrite (wrap64_id (_ / _)) by int64.
    destruct (Z.eq_dec num 0) as [->|]; [|rewrite Z.sgn_pos; lia].
    rewrite Z.div_small by lia. done.
Qed.

Lemma round_half_away_spec num den :
  0 < den →
  let r := round_half_away num den in
  2 * Z.abs (num - r * den) ≤ den ∧
  (2 * Z.abs (num - r * den) = den → Z.abs num < Z.abs (r * den)).
Proof.
  intros Hd r.
  pose proof (Z.div_mod (2 * Z.abs num + den) (2 * den) ltac:(lia)) as Hdm.
  pose proof (Z.mod_pos_bound (2 * Z.abs num + den) (2 * den) ltac:(lia)) as Hmb.
  set (q := (2 * Z.abs num + den) / (2 * den)) in *.
  subst r. unfold round_half_away. fold q.
  assert (0 ≤ q) by (apply Z.div_pos; lia).
  destruct (Z.lt_trichotomy num 0) as [Hn|[->|Hn]].
  - rewrite Z.sgn_neg by lia. rewrite Z.abs_neq in Hdm, Hmb by lia. split; nia.
  - rewrite Z.sgn_0. simpl. lia.
  - rewrite Z.sgn_pos by lia. rewrite Z.abs_eq in Hdm, Hmb by lia. split; nia.
Qed.

Lemma round_half_away_le num den a :
  0 < den → 0 ≤ num ≤ a * den → 0 ≤ a → 0 ≤ round_half_away num den ≤ a.
Proof.
  intros Hd Hn Ha. unfold round_half_away. rewrite Z.abs_eq by lia.
  destruct (Z.eq_dec num 0) as [->|Hnz]; [simpl; lia|].
  rewrite Z.sgn_pos by lia. split.
  - apply Z.mul_nonneg_nonneg; [lia|]. apply Z.div_pos; lia.
  - rewrite Z.mul_1_l. enough ((2 * num + den) / (2 * den) < a + 1) by lia.
    apply Z.div_lt_upper_bound; [lia|]. nia.
Qed.

Lemma round_half_away_opp num den :
  round_half_away (- num) den = - round_half_away num den.
Proof. unfold round_half_away. rewrite Z.sgn_opp, Z.abs_opp. lia. Qed.

Lemma round_half_away_exact a den : 0 < den → round_half_away (a * den) den = a.
Proof.
  intros Hd. destruct (round_half_away_spec (a * den) den Hd) as [H1 _].
  cbv zeta in H1. rewrite <-Z.mul_sub_distr_r, Z.abs_mul, (Z.abs_eq den) in H1 by lia.
  nia.
Qed.

(** Rounding is monotone, and shifting by whole units shifts the result. *)
Lemma round_half_away_mono a b d den :
  0 < den → 0 ≤ a → a ≤ b ≤ a + d * den →
  0 ≤ round_half_away b den - round_half_away a den ≤ d.
Proof.
  intros Hd Ha Hb. unfold round_half_away. rewrite !Z.abs_eq by lia.
  assert (∀ x, 0 ≤ x → Z.sgn x * ((2 * x + den) / (2 * den)) = (2 * x + den) / (2 * den)) as Hs.
  { intros x Hx. destruct (Z.eq_dec x 0) as [->|]; [|rewrite Z.sgn_pos; lia].
    rewrite Z.div_small by lia. done. }
  rewrite !Hs by lia.
  assert ((2 * a + den) / (2 * den) ≤ (2 * b + den) / (2 * den)) by (apply Z.div_le_mono; lia).
  assert ((2 * b + den) / (2 * den) ≤ (2 * a + den + d * (2 * den)) / (2 * den))
    by (apply Z.div_le_mono; lia).
  rewrite Z.div_add in * by lia. lia.
Qed.

(** Within a period, proration is the rounded quotient, for charges and
    credits alike. *)
Lemma Prorate_round amount n den :
  0 ≤ n ≤ den → 0 < den → 2 * (Z.abs amount * den) + den ≤ max_int64 →
  2 * den ≤ max_int64 → Prorate amount n den = round_half_away (amount * n) den.
Proof.
  intros Hn Hd Hb Hb2. unfold Prorate.
  destruct (Z.eqb_spec den 0); [lia|].
  destruct (Z.eqb_spec amount 0) as [->|]; [done|].
  destruct (Z.eqb_spec n 0) as [->|]; [by rewrite Z.mul_0_r|]. simpl.
  destruct (Z.leb_spec den n).
  { assert (n = den) as -> by lia. by rewrite round_half_away_exact. }
  destruct (Z.ltb_spec n 0); [lia|].
  assert (Z.abs (amount * n) ≤ Z.abs amount * den) by (rewrite Z.abs_mul; nia).
  rewrite wrap64_id by int64. apply divRoundHalfAway_round; lia.
Qed.

Lemma PercentBasisPoints_round a bps :
  0 ≤ bps ≤ 10000 → 2 * (Z.abs a * 10000) + 10000 ≤ max_int64 →
  PercentBasisPoints a bps = round_half_away (a * bps) 10000.
Proof.
  intros Hb Ha. unfold PercentBasisPoints.
  destruct (Z.eqb_spec bps 0) as [->|]; [by rewrite Z.mul_0_r|].
  destruct (Z.eqb_spec a 0) as [->|]; [done|]. simpl.
  assert (Z.abs (a * bps) ≤ Z.abs a * 10000) by (rewrite Z.abs_mul; nia).
  rewrite wrap64_id by int64. apply divRoundHalfAway_round; unfold max_int64 in *; lia.
Qed.

(** ** Text without blanks *)

Fixpoint no_space (s : string) : bool :=
  match s with
  | EmptyString => true
  | String c s' => negb (is_space c) && no_space s'
  end.

Lemma no_space_app s t : no_space (s +:+ t) = no_space s && no_space t.
Proof.
  induction s as [|c s IH]; [done|]. rewrite string_app_cons. simpl.
  by rewrite IH, andb_assoc.
Qed.

Lemma TrimSpace_no_space s : no_space s = true → TrimSpace s = s.
Proof.
  intros Hs. unfold TrimSpace.
  assert (trim_left s = s) as ->.
  { destruct s as [|c s]; [done|]. simpl in *. by destruct (is_space c). }
  induction s as [|c s IH]; [done|]. simpl in *.
  apply andb_true_iff in Hs as [Hc Hs]. rewrite IH by done.
  destruct s; [|done]. by destruct (is_space c).
Qed.

Lemma is_digit_not_space c : is_digit c = true → is_space c = false.
Proof. destruct c as [[] [] [] [] [] [] [] []]; done. Qed.

Lemma all_digits_no_space s : all_digits s = true → no_space s = true.
Proof.
  induction s as [|c s IH]; [done|]. simpl. intros [Hc Hs]%andb_true_iff.
  by rewrite is_digit_not_space, IH.
Qed.

Lemma Cut_digits s t :
  all_digits s = true → Cut (s +:+ String "."%char t) "."%char = (s, t, true).
Proof.
  induction s as [|c s IH]; [done|]. intros [Hc Hs]%andb_true_iff.
  rewrite string_app_cons. cbn [Cut].
  destruct (Ascii.eqb_spec c "."%char) as [->|_]; [done|]. by rewrite IH.
Qed.

Lemma Cut_digits_none s : all_digits s = true → Cut s "."%char = (s, "", false).
Proof.
  induction s as [|c s IH]; [done|]. simpl. intros [Hc Hs]%andb_true_iff.
  destruct (Ascii.eqb_spec c "."%char) as [->|_]; [done|]. by rewrite IH.
Qed.

(** ** The digit loop computes the numeral when it fits in an [int64] *)

Lemma dec_value_ge s acc : 0 ≤ acc → all_digits s = true → acc ≤ dec_value acc s.
Proof.
  intros Ha Hs. rewrite dec_value_acc.
  pose proof (dec_value_nonneg s 0 ltac:(lia) Hs).
  assert (1 ≤ 10 ^ slen s); [|nia].
  pose proof (Z.pow_pos_nonneg 10 (slen s) ltac:(lia) (slen_nonneg s)). lia.
Qed.

Lemma parse_digits_value s out :
  0 ≤ out → all_digits s = true → dec_value out s ≤ max_int64 →
  parse_digits out s = Some (dec_value out s).
Proof.
  revert out. induction s as [|c s IH]; intros out Ho Hs Hb; [done|].
  simpl in *. apply andb_true_iff in Hs as [Hc Hs]. rewrite Hc.
  assert (0 ≤ digit_value c) as Hd.
  { pose proof (dec_value_nonneg (String c "") 0 ltac:(lia)) as Hd. simpl in Hd.
    apply Hd. by rewrite Hc. }
  pose proof (dec_value_ge s (out * 10 + digit_value c) ltac:(lia) Hs) as Hge.
  unwrap64. apply IH; [lia|done|lia].
Qed.

Lemma parse_digits_not_digits s out : all_digits s = false → parse_digits out s = None.
Proof.
  revert out. induction s as [|c s IH]; intros out Hs; [done|].
  simpl in *. destruct (is_digit c); [by apply IH|done].
Qed.

Lemma pow10_exp c : pow10 (CurrencyExponent c) = 10 ^ CurrencyExponent c.
Proof. by destruct (CurrencyExponent_cases c) as [->|[->| ->]]. Qed.

(** What [ParseMinor] does after the sign, on a well-formed numeral. *)
Lemma parse_unsigned c q r :
  0 < CurrencyExponent c → 0 ≤ q → 0 ≤ r < 10 ^ CurrencyExponent c →
  q * 10 ^ CurrencyExponent c + r ≤ max_int64 →
  let e := CurrencyExponent c in
  let frac := pad_left e (digits r) in
  (e <? slen frac) = false ∧
  parse_digits 0 (digits q +:+ pad_frac frac e) = Some (q * 10 ^ e + r).
Proof.
  intros He Hq Hr Hb e frac.
  destruct (digits_spec q Hq) as (Hqd & Hqv & _).
  destruct (pad_left_spec e r ltac:(lia)) as [Hrd Hrv].
  pose proof (pad_left_length e r ltac:(lia) Hr) as Hlen. fold frac in Hlen, Hrd, Hrv.
  split; [apply Z.ltb_ge; lia|].
  unfold pad_frac. rewrite Hlen, Z.sub_diag. change (zeros (Z.to_nat 0)) with "".
  rewrite string_app_empty_r.
  assert (dec_value 0 (digits q +:+ frac) = q * 10 ^ e + r) as Hv.
  { by rewrite dec_value_app, Hqv, dec_value_acc, Hrv, Hlen. }
  rewrite parse_digits_value; [by rewrite Hv|done| |by rewrite Hv].
  by rewrite all_digits_app, Hqd, Hrd.
Qed.

(** * Properties *)

(** [divRoundHalfAway] rounds to the nearest integer, halves away from
    zero, whenever twice the numerator plus the denominator fits in an
    [int64]: the error is at most half the divisor, and on an exact half the
    result is the larger multiple in magnitude. *)
Theorem divRoundHalfAway_nearest (num den : Z)
    (Hden : 0 < den) (Hfits : 2 * Z.abs num + den ≤ max_int64)
    (Hfits' : 2 * den ≤ max_int64) :
  let r := divRoundHalfAway num den in
  2 * Z.abs (num - r * den) ≤ den ∧
  (2 * Z.abs (num - r * den) = den → Z.abs num < Z.abs (r * den)).
Proof.
  intros r. subst r. rewrite divRoundHalfAway_round by done.
  by apply round_half_away_spec.
Qed.

Lemma divRoundHalfAway_nearest_witness :
  divRoundHalfAway (-25) 10 = -3 ∧
  2 * Z.abs (-25 - divRoundHalfAway (-25) 10 * 10) ≤ 10.
Proof.
  split; [reflexivity|].
  apply (divRoundHalfAway_nearest (-25) 10); unfold max_int64; lia.
Defined.

(** Proration is fair: for a fraction of a period the prorated amount lies
    between zero and the full amount, a charge and the credit that undoes it
    are exact mirror images, and the used and unused parts of a period add up
    to the full amount to within one minor unit. *)
Theorem Prorate_fair (amount num den : Z)
    (Hamount : 0 ≤ amount) (Hnum : 0 ≤ num ≤ den) (Hden : 0 < den)
    (Hfits : 2 * (amount * den) + den ≤ max_int64) (Hfits' : 2 * den ≤ max_int64) :
  0 ≤ Prorate amount num den ≤ amount ∧
  Prorate (- amount) num den = - Prorate amount num den ∧
  Z.abs (Prorate amount num den + Prorate amount (den - num) den - amount) ≤ 1.
Proof.
  rewrite !Prorate_round by lia.
  replace (- amount * num) with (- (amount * num)) by lia.
  rewrite round_half_away_opp. split; [apply round_half_away_le; nia|]. split; [done|].
  destruct (round_half_away_spec (amount * num) den Hden) as [H1 _].
  destruct (round_half_away_spec (amount * (den - num)) den Hden) as [H2 _].
  cbv zeta in H1, H2.
  generalize dependent (round_half_away (amount * num) den).
  generalize dependent (round_half_away (amount * (den - num)) den). intros b H2 a H1. nia.
Qed.

Lemma Prorate_fair_witness :
  Prorate 2999 10 31 = 967 ∧
  Z.abs (Prorate 2999 10 31 + Prorate 2999 (31 - 10) 31 - 2999) ≤ 1.
Proof.
  split; [reflexivity|].
  apply (Prorate_fair 2999 10 31); unfold max_int64; lia.
Defined.

(** ** The printed form of an amount *)

(** The unsigned numeral [FormatMinor] prints for a magnitude. *)
Definition magnitude (m : Z) (c : string) : string :=
  let e := CurrencyExponent c in
  if e =? 0 then digits m
  else digits (m / 10 ^ e) +:+ String "."%char (pad_left e (digits (m mod 10 ^ e))).

Lemma FormatMinor_magnitude a c :
  min_int64 < a ≤ max_int64 →
  FormatMinor a c = if a <? 0 then String "-"%char (magnitude (- a) c) else magnitude a c.
Proof.
  intros Ha. unfold FormatMinor, magnitude. rewrite pow10_exp.
  assert (∀ m, 0 ≤ m ≤ max_int64 → CurrencyExponent c ≠ 0 →
    itoa (m /! 10 ^ CurrencyExponent c) +:+ "." +:+
      fmt_0d (CurrencyExponent c) (m %! 10 ^ CurrencyExponent c)
    = digits (m / 10 ^ CurrencyExponent c) +:+
      String "."%char (pad_left (CurrencyExponent c) (digits (m mod 10 ^ CurrencyExponent c))))
    as Hm.
  { intros m Hm _. set (d := 10 ^ CurrencyExponent c).
    assert (1 ≤ d) by (subst d; destruct (CurrencyExponent_cases c) as [->|[->| ->]]; lia).
    rewrite Z.quot_div_nonneg, Z.rem_mod_nonneg by lia.
    pose proof (Z.mod_pos_bound m d ltac:(lia)).
    assert (0 ≤ m / d ≤ max_int64).
    { split; [apply Z.div_pos; lia|]. apply Z.div_le_upper_bound; nia. }
    rewrite wrap64_id by int64. unfold itoa, fmt_0d.
    destruct (Z.ltb_spec (m / d) 0), (Z.ltb_spec (m mod d) 0); [lia..|done]. }
  destruct (Z.eqb_spec (CurrencyExponent c) 0) as [E|E]; destruct (Z.ltb_spec a 0).
  - unfold itoa. by destruct (Z.ltb_spec a 0); [|lia].
  - unfold itoa. by destruct (Z.ltb_spec a 0); [lia|].
  - rewrite (wrap64_id (- a)) by int64. rewrite Hm by (done || int64). done.
  - rewrite Hm by (done || lia). done.
Qed.

Lemma no_space_magnitude m c : 0 ≤ m → no_space (magnitude m c) = true.
Proof.
  intros Hm. unfold magnitude.
  destruct (digits_spec m Hm) as (Hd & _).
  destruct (_ =? 0); [by apply all_digits_no_space|].
  assert (0 < 10 ^ CurrencyExponent c)
    by (destruct (CurrencyExponent_cases c) as [->|[->| ->]]; lia).
  pose proof (Z.mod_pos_bound m (10 ^ CurrencyExponent c) ltac:(lia)).
  rewrite no_space_app. simpl.
  rewrite !all_digits_no_space; [done| |]; [apply pad_left_spec; lia|].
  apply digits_spec. apply Z.div_pos; lia.
Qed.

(** The point and the digits that follow it are read back exactly. *)
Lemma magnitude_read m c :
  0 ≤ m ≤ max_int64 →
  let '(whole, frac, hasFrac) := Cut (magnitude m c) "."%char in
  (whole =s "") = false ∧
  hasFrac && (CurrencyExponent c <? slen frac) = false ∧
  parse_digits 0 (whole +:+ pad_frac frac (CurrencyExponent c)) = Some m.
Proof.
  intros Hm. unfold magnitude.
  destruct (Z.eqb_spec (CurrencyExponent c) 0) as [E|E].
  - destruct (digits_spec m ltac:(lia)) as (Hd & Hv & Hne & _).
    rewrite Cut_digits_none by done. split; [by apply seqb_neq|]. split; [done|].
    rewrite E. change (pad_frac "" 0) with "". rewrite string_app_empty_r.
    rewrite parse_digits_value; [by rewrite Hv|done|done|lia].
  - assert (0 < CurrencyExponent c) by (destruct (CurrencyExponent_cases c) as [?|[?|?]]; lia).
    assert (0 < 10 ^ CurrencyExponent c) by (apply Z.pow_pos_nonneg; lia).
    pose proof (Z.mod_pos_bound m (10 ^ CurrencyExponent c) ltac:(lia)).
    pose proof (Z.div_mod m (10 ^ CurrencyExponent c) ltac:(lia)).
    assert (0 ≤ m / 10 ^ CurrencyExponent c) by (apply Z.div_pos; lia).
    destruct (digits_spec (m / 10 ^ CurrencyExponent c) ltac:(done)) as (Hd & Hv & Hne & _).
    rewrite Cut_digits by done. split; [by apply seqb_neq|].
    destruct (parse_unsigned c (m / 10 ^ CurrencyExponent c) (m mod 10 ^ CurrencyExponent c))
      as [-> ->]; [lia..|]. split; [done|]. f_equal. lia.
Qed.

Lemma magnitude_head m c : 0 ≤ m →
  ∃ h t, magnitude m c = String h t ∧
    Ascii.eqb h "-"%char = false ∧ Ascii.eqb h "+"%char = false.
Proof.
  intros Hm. unfold magnitude. destruct (_ =? 0).
  - destruct (digits_head m Hm) as (h & t & -> & _ & ? & ?). naive_solver.
  - destruct (digits_head (m / 10 ^ CurrencyExponent c)) as (h & t & -> & _ & ? & ?).
    { apply Z.div_pos; [lia|]. apply Z.pow_pos_nonneg; [lia|].
      destruct (CurrencyExponent_cases c) as [->|[->| ->]]; lia. }
    rewrite string_app_cons. naive_solver.
Qed.

(** Amounts survive printing and parsing: for every currency and every
    [int64] amount other than the least one, [ParseMinor] reads back exactly
    the amount [FormatMinor] printed. *)
Theorem ParseMinor_FormatMinor (a : Z) (c : string) (Ha : min_int64 < a ≤ max_int64) :
  ParseMinor (FormatMinor a c) c = Ok a.
Proof.
  rewrite FormatMinor_magnitude by done. unfold ParseMinor.
  destruct (Z.ltb_spec a 0) as [Hneg|Hpos].
  - rewrite TrimSpace_no_space by (simpl; apply no_space_magnitude; lia). simpl.
    pose proof (magnitude_read (- a) c ltac:(unfold min_int64, max_int64 in *; lia)) as Hr.
    destruct (Cut (magnitude (- a) c) "."%char) as [[whole frac] hasFrac].
    destruct Hr as (-> & -> & ->). rewrite wrap64_id by int64. f_equal. lia.
  - rewrite TrimSpace_no_space by (apply no_space_magnitude; lia).
    destruct (magnitude_head a c Hpos) as (h & t & E & Hm & Hp).
    pose proof (magnitude_read a c ltac:(lia)) as Hr. rewrite E in *. rewrite Hm, Hp.
    destruct (Cut (String h t) "."%char) as [[whole frac] hasFrac].
    by destruct Hr as (-> & -> & ->).
Qed.

Lemma ParseMinor_FormatMinor_witness :
  FormatMinor (-123456) "USD" = "-1234.56" ∧
  ParseMinor (FormatMinor (-123456) "USD") "USD" = Ok (-123456).
Proof.
  split; [reflexivity|].
  apply (ParseMinor_FormatMinor (-123456) "USD"). unfold min_int64, max_int64. lia.
Defined.

(** The range of the round trip is exact: the least [int64] is printed
    with a doubled sign and cannot be read back, and a numeral one past the
    largest amount is accepted and wraps around to it instead of being
    refused. *)
Theorem ParseMinor_wraps :
  FormatMinor min_int64 "USD" = "--92233720368547758.-8" ∧
  is_ok (ParseMinor (FormatMinor min_int64 "USD") "USD") = false ∧
  ParseMinor "92233720368547758.08" "USD" = Ok min_int64.
Proof. repeat split; vm_compute; reflexivity. Qed.

(** A percentage in basis points is nonnegative, never exceeds the
    base while the rate is at most 100%, and is odd in the amount, so a
    discount and its reversal cancel. *)
Theorem PercentBasisPoints_bounds (amount bps : Z)
    (Hamount : 0 ≤ amount) (Hbps : 0 ≤ bps ≤ 10000)
    (Hfits : 2 * (amount * 10000) + 10000 ≤ max_int64) :
  0 ≤ PercentBasisPoints amount bps ≤ amount ∧
  PercentBasisPoints (- amount) bps = - PercentBasisPoints amount bps ∧
  2 * Z.abs (amount * bps - PercentBasisPoints amount bps * 10000) ≤ 10000.
Proof.
  rewrite !PercentBasisPoints_round by lia. replace (- amount * bps) with (- (amount * bps)) by lia.
  rewrite round_half_away_opp.
  split; [apply round_half_away_le; nia|]. split; [done|].
  by apply round_half_away_spec.
Qed.

Lemma PercentBasisPoints_bounds_witness :
  PercentBasisPoints 1999 2150 = 430 ∧ 0 ≤ PercentBasisPoints 1999 2150 ≤ 1999.
Proof.
  split; [reflexivity|].
  apply (PercentBasisPoints_bounds 1999 2150); unfold max_int64; lia.
Defined.
