(* ===== verification/States.v ===== *)
(** Lifecycles and cycles: [src/src/billing/state.go].

    States, events and kinds are kept as the strings the tables persist.  The
    two lifecycles are also given as inductive step relations over enumerated
    states ([sub_step], [inv_step]) that the string functions are shown to
    implement exactly. *)
From stdpp Require Import prelude strings list relations.
From Stdlib Require Import ZArith Lia Ascii.
From S2P Require Import Prelude GoTime.

(** * Constants *)

Definition StatePendingActivation : string := "pending_activation".
Definition StateTrialing : string := "trialing".
Definition StateActive : string := "active".
Definition StatePastDue : string := "past_due".
Definition StatePaused : string := "paused".
Definition StateCancelled : string := "cancelled".
Definition StateExpired : string := "expired".

Definition EventSubscriptionCreated : string := "subscription_created".
Definition EventTrialStarted : string := "trial_started".
Definition EventTrialConverted : string := "trial_converted".
Definition EventTrialExpired : string := "trial_expired".
Definition EventPaymentAdded : string := "payment_method_added".
Definition EventPaymentFailed : string := "payment_failed".
Definition EventPaymentRecovered : string := "payment_recovered".
Definition EventRenewed : string := "renewed".
Definition EventUserPaused : string := "user_paused".
Definition EventResumed : string := "resumed".
Definition EventCancelled : string := "cancelled".
Definition EventGraceExpired : string := "grace_expired".
Definition EventAutoExpired : string := "auto_expired".
Definition EventPeriodEnded : string := "period_ended".
Definition EventPlanChanged : string := "subscription_modified".

Definition InvoiceDraft : string := "draft".
Definition InvoiceIssued : string := "issued".
Definition InvoiceDue : string := "due".
Definition InvoiceOverdue : string := "overdue".
Definition InvoiceProcessing : string := "processing".
Definition InvoicePartial : string := "partial".
Definition InvoicePaid : string := "paid".
Definition InvoiceDisputed : string := "disputed".
Definition InvoiceCancelled : string := "cancelled".
Definition InvoiceRefunded : string := "refunded".

Definition CycleMonthly : string := "monthly".
Definition CycleQuarterly : string := "quarterly".
Definition CycleSemiAnnual : string := "semi_annual".
Definition CycleAnnual : string := "annual".
Definition CycleBiennial : string := "biennial".
Definition CycleTriennial : string := "triennial".
Definition CycleLifetime : string := "lifetime".

Definition VisibilityPublic : string := "public".
Definition VisibilityAuthenticated : string := "authenticated".
Definition VisibilityInternal : string := "internal".
Definition VisibilityHidden : string := "hidden".
Definition VisibilityDeprecated : string := "deprecated".

Definition EnforceHard : string := "hard".
Definition EnforceSoft : string := "soft".
Definition EnforceBurst : string := "burst".

Definition OverageBlock : string := "block".
Definition OverageAllowWithCharge : string := "allow_with_charge".
Definition OverageAllowWithWarning : string := "allow_with_warning".
Definition OverageThrottle : string := "throttle".

Definition Unlimited : Z := -1.

Definition MeterCounter : string := "counter".
Definition MeterGauge : string := "gauge".
Definition MeterHistogram : string := "histogram".
Definition ResetHard : string := "hard_reset".
Definition ResetRolling : string := "rolling_window".
Definition ResetCarry : string := "carry_forward".
Definition ResetAccumulate : string := "accumulating".

Definition UsageIncluded : string := "included".
Definition UsageOverage : string := "overage".
Definition UsageExempt : string := "exempt".

Definition PaymentPending : string := "pending".
Definition PaymentAuthorized : string := "authorized".
Definition PaymentSucceeded : string := "succeeded".
Definition PaymentFailed : string := "failed".
Definition PaymentVoided : string := "voided".
Definition PaymentRefunded : string := "refunded".

Definition RefundFull : string := "full".
Definition RefundPartial : string := "partial".
Definition RefundCredit : string := "credit".
Definition RefundProration : string := "proration".

Definition DunningIdle : string := "idle".
Definition DunningRetrying : string := "retrying".
Definition DunningExhausted : string := "exhausted".
Definition DunningRecovered : string := "recovered".

Definition WebhookReceived : string := "received".
Definition WebhookProcessed : string := "processed".
Definition WebhookIgnored : string := "ignored".
Definition WebhookRejected : string := "rejected".
Definition WebhookFailed : string := "failed".
Definition WebhookDeadLetter : string := "dead_letter".
Definition WebhookMaxAttempts : Z := 5.

Definition ProviderUnconfigured : string := "unconfigured".
Definition ProviderTesting : string := "testing".
Definition ProviderActive : string := "active".
Definition ProviderDegraded : string := "degraded".
Definition ProviderFailed : string := "failed".
Definition ProviderDisabled : string := "disabled".

Definition HealthUnknown : string := "unknown".
Definition HealthHealthy : string := "healthy".
Definition HealthDegraded : string := "degraded".
Definition HealthUnhealthy : string := "unhealthy".

(** * Functions *)

Definition illegal_event (from event : string) : Result string string :=
  Err ("billing: " +:+ quote event +:+ " is not a legal event in state " +:+ quote from).

Definition NextSubscriptionState (from event : string) : Result string string :=
  if from =s StatePendingActivation then
    if event =s EventPaymentAdded then Ok StateActive
    else if event =s EventTrialStarted then Ok StateTrialing
    else if event =s EventCancelled then Ok StateCancelled
    else illegal_event from event
  else if from =s StateTrialing then
    if event =s EventTrialConverted then Ok StateActive
    else if event =s EventTrialExpired then Ok StateExpired
    else if event =s EventCancelled then Ok StateCancelled
    else illegal_event from event
  else if from =s StateActive then
    if event =s EventPaymentFailed then Ok StatePastDue
    else if event =s EventUserPaused then Ok StatePaused
    else if event =s EventCancelled then Ok StateCancelled
    else if (event =s EventRenewed) || (event =s EventPlanChanged) then Ok StateActive
    else illegal_event from event
  else if from =s StatePastDue then
    if event =s EventPaymentRecovered then Ok StateActive
    else if event =s EventGraceExpired then Ok StateExpired
    else if event =s EventCancelled then Ok StateCancelled
    else illegal_event from event
  else if from =s StatePaused then
    if event =s EventResumed then Ok StateActive
    else if event =s EventCancelled then Ok StateCancelled
    else if event =s EventAutoExpired then Ok StateExpired
    else illegal_event from event
  else if from =s StateCancelled then
    if event =s EventPeriodEnded then Ok StateExpired
    else illegal_event from event
  else illegal_event from event.

Definition SubscriptionStates : list string :=
  [StateActive; StateCancelled; StateExpired; StatePastDue;
   StatePaused; StatePendingActivation; StateTrialing].

(** Membership in a list of strings, as the [for] loops test it. *)
Definition mem (s : string) (l : list string) : bool := existsb (λ x, x =s s) l.

Definition ValidSubscriptionState (state : string) : bool := mem state SubscriptionStates.

Definition invoice_targets (from : string) : list string :=
  if from =s InvoiceDraft then [InvoiceIssued; InvoiceCancelled]
  else if from =s InvoiceIssued then
    [InvoiceDue; InvoiceProcessing; InvoiceDisputed; InvoiceCancelled]
  else if from =s InvoiceDue then
    [InvoiceOverdue; InvoiceProcessing; InvoicePartial; InvoiceDisputed; InvoiceCancelled]
  else if from =s InvoiceOverdue then
    [InvoiceProcessing; InvoicePartial; InvoiceDisputed; InvoiceCancelled]
  else if from =s InvoiceProcessing then
    [InvoicePaid; InvoicePartial; InvoiceDue; InvoiceDisputed]
  else if from =s InvoicePartial then
    [InvoiceProcessing; InvoicePaid; InvoiceOverdue; InvoiceDisputed; InvoiceCancelled]
  else if from =s InvoicePaid then [InvoiceRefunded; InvoiceDisputed]
  else if from =s InvoiceDisputed then
    [InvoicePaid; InvoiceRefunded; InvoiceCancelled; InvoiceDue]
  else [].

Definition CanTransitionInvoice (from to : string) : bool := mem to (invoice_targets from).

Definition InvoiceFrozen (state : string) : bool := negb (state =s InvoiceDraft).

Definition CycleMonths (cycle : string) : Z :=
  if cycle =s CycleMonthly then 1
  else if cycle =s CycleQuarterly then 3
  else if cycle =s CycleSemiAnnual then 6
  else if cycle =s CycleAnnual then 12
  else if cycle =s CycleBiennial then 24
  else if cycle =s CycleTriennial then 36
  else if cycle =s CycleLifetime then 0
  else -1.

Definition ValidCycle (cycle : string) : bool := 0 <=? CycleMonths cycle.

Definition daysInMonth (year month : Z) : Z := TDay (TimeDate year (month + 1) 0 0 0 0).

Definition AdvancePeriod (start : Z) (cycle : string) : Z :=
  let months := CycleMonths cycle in
  if months <=? 0 then zero_time
  else
    let '(y, m, d) := TDate start in
    let target := TimeDate y (m + months) 1 (THour start) (TMinute start) (TSecond start) in
    let last := daysInMonth (TYear target) (TMonth target) in
    let d := if last <? d then last else d in
    TimeDate (TYear target) (TMonth target) d (THour start) (TMinute start) (TSecond start).

Definition ValidVisibility (v : string) : bool :=
  mem v [VisibilityPublic; VisibilityAuthenticated; VisibilityInternal; VisibilityHidden;
         VisibilityDeprecated].

Definition ValidEnforcement (e : string) : bool := mem e [EnforceHard; EnforceSoft; EnforceBurst].

Definition ResourceSites : string := "sites".
Definition ResourceDomains : string := "domains".
Definition ResourceApps : string := "apps".
Definition ResourceContainers : string := "containers".
Definition ResourceVMs : string := "vms".
Definition ResourceDatabases : string := "databases".
Definition ResourceMailboxes : string := "mailboxes".
Definition ResourceDNSZones : string := "dns_zones".
Definition ResourceUsers : string := "users".
Definition ResourceBackupJobs : string := "backup_jobs".
Definition ResourceStorageGB : string := "storage_gb".
Definition ResourceBandwidthGB : string := "bandwidth_gb".
Definition ResourceBackupGB : string := "backup_gb".
Definition ResourceCPUCores : string := "cpu_cores".
Definition ResourceMemoryMB : string := "memory_mb".

Definition resourceUnits : list (string * string) :=
  [(ResourceApps, "apps"); (ResourceBackupGB, "GB"); (ResourceBackupJobs, "jobs");
   (ResourceBandwidthGB, "GB"); (ResourceCPUCores, "cores"); (ResourceContainers, "containers");
   (ResourceDNSZones, "zones"); (ResourceDatabases, "databases"); (ResourceDomains, "domains");
   (ResourceMailboxes, "mailboxes"); (ResourceMemoryMB, "MB"); (ResourceSites, "sites");
   (ResourceStorageGB, "GB"); (ResourceUsers, "users"); (ResourceVMs, "VMs")].

Definition Resources : list string := sort_strings (map fst resourceUnits).

Definition ValidResource (name : string) : bool :=
  match assoc name resourceUnits with Some _ => true | None => false end.

Definition ResourceUnit (name : string) : string :=
  match assoc name resourceUnits with Some u => u | None => "" end.

(** * The lifecycles as step relations *)

Inductive SubState :=
  SPending | STrialing | SActive | SPastDue | SPaused | SCancelled | SExpired.

Inductive SubEvent :=
  ETrialStarted | ETrialConverted | ETrialExpired | EPaymentAdded | EPaymentFailed
| EPaymentRecovered | ERenewed | EUserPaused | EResumed | ECancelled | EGraceExpired
| EAutoExpired | EPeriodEnded | EPlanChanged.

#[global] Instance SubState_eq_dec : EqDecision SubState.
Proof. solve_decision. Defined.
#[global] Instance SubEvent_eq_dec : EqDecision SubEvent.
Proof. solve_decision. Defined.

Definition sub_name (s : SubState) : string :=
  match s with
  | SPending => StatePendingActivation | STrialing => StateTrialing | SActive => StateActive
  | SPastDue => StatePastDue | SPaused => StatePaused | SCancelled => StateCancelled
  | SExpired => StateExpired
  end.

Definition event_name (e : SubEvent) : string :=
  match e with
  | ETrialStarted => EventTrialStarted | ETrialConverted => EventTrialConverted
  | ETrialExpired => EventTrialExpired | EPaymentAdded => EventPaymentAdded
  | EPaymentFailed => EventPaymentFailed | EPaymentRecovered => EventPaymentRecovered
  | ERenewed => EventRenewed | EUserPaused => EventUserPaused | EResumed => EventResumed
  | ECancelled => EventCancelled | EGraceExpired => EventGraceExpired
  | EAutoExpired => EventAutoExpired | EPeriodEnded => EventPeriodEnded
  | EPlanChanged => EventPlanChanged
  end.

(** The documented lifecycle: a trial converts or runs out, a failed charge
    opens a grace period, only the customer pauses, cancellation is possible
    from every live state, and expiry is final. *)
Inductive sub_step : SubState → SubEvent → SubState → Prop :=
| step_activate : sub_step SPending EPaymentAdded SActive
| step_trial : sub_step SPending ETrialStarted STrialing
| step_convert : sub_step STrialing ETrialConverted SActive
| step_trial_over : sub_step STrialing ETrialExpired SExpired
| step_arrears : sub_step SActive EPaymentFailed SPastDue
| step_recover : sub_step SPastDue EPaymentRecovered SActive
| step_grace_over : sub_step SPastDue EGraceExpired SExpired
| step_pause : sub_step SActive EUserPaused SPaused
| step_resume : sub_step SPaused EResumed SActive
| step_pause_over : sub_step SPaused EAutoExpired SExpired
| step_renew : sub_step SActive ERenewed SActive
| step_modify : sub_step SActive EPlanChanged SActive
| step_cancel s : s ≠ SCancelled → s ≠ SExpired → sub_step s ECancelled SCancelled
| step_end : sub_step SCancelled EPeriodEnded SExpired.

Definition sub_moves (a b : SubState) : Prop := ∃ e, sub_step a e b.

(** * Lemmas *)

Lemma mem_spec s l : mem s l = true ↔ s ∈ l.
Proof.
  unfold mem. rewrite existsb_exists. split.
  - intros (x & Hx & E). apply seqb_eq in E as ->. by apply list_elem_of_In.
  - intros H. exists s. split; [by apply list_elem_of_In|apply seqb_refl].
Qed.

Lemma mem_false s l : mem s l = false ↔ s ∉ l.
Proof. rewrite <-mem_spec. by destruct (mem s l). Qed.

Ltac pick_step :=
  match goal with
  | |- ∃ s e s', ?f = sub_name s ∧ ?ev = event_name e ∧ ?t = sub_name s' ∧ _ =>
      let s := match f with
        | StatePendingActivation => constr:(SPending) | StateTrialing => constr:(STrialing)
        | StateActive => constr:(SActive) | StatePastDue => constr:(SPastDue)
        | StatePaused => constr:(SPaused) | StateCancelled => constr:(SCancelled) end in
      let t := match t with
        | StateActive => constr:(SActive) | StateTrialing => constr:(STrialing)
        | StatePastDue => constr:(SPastDue) | StatePaused => constr:(SPaused)
        | StateCancelled => constr:(SCancelled) | StateExpired => constr:(SExpired) end in
      let e := match ev with
        | EventTrialStarted => constr:(ETrialStarted) | EventTrialConverted => constr:(ETrialConverted)
        | EventTrialExpired => constr:(ETrialExpired) | EventPaymentAdded => constr:(EPaymentAdded)
        | EventPaymentFailed => constr:(EPaymentFailed)
        | EventPaymentRecovered => constr:(EPaymentRecovered)
        | EventRenewed => constr:(ERenewed) | EventUserPaused => constr:(EUserPaused)
        | EventResumed => constr:(EResumed) | EventCancelled => constr:(ECancelled)
        | EventGraceExpired => constr:(EGraceExpired) | EventAutoExpired => constr:(EAutoExpired)
        | EventPeriodEnded => constr:(EPeriodEnded) | EventPlanChanged => constr:(EPlanChanged)
        end in
      exists s, e, t; repeat split; by constructor
  end.

Lemma NextSubscriptionState_sound from event to :
  NextSubscriptionState from event = Ok to →
  ∃ s e s', from = sub_name s ∧ event = event_name e ∧ to = sub_name s' ∧ sub_step s e s'.
Proof.
  unfold NextSubscriptionState, illegal_event. intros H.
  repeat (case_match; [match goal with E : (_ =s _) = true |- _ => apply seqb_eq in E; subst
                       | E : (_ =s _) || _ = true |- _ =>
                         apply orb_true_iff in E as [E|E]; apply seqb_eq in E; subst end|]);
    try discriminate; injection H as <-; pick_step.
Qed.

Lemma NextSubscriptionState_complete s e s' :
  sub_step s e s' → NextSubscriptionState (sub_name s) (event_name e) = Ok (sub_name s').
Proof. intros H. destruct H as [| | | | | | | | | | | |s ??|]; try done. by destruct s. Qed.

Lemma sub_name_inj : Inj (=) (=) sub_name.
Proof. intros [] []; done. Qed.

Lemma sub_expired_terminal s' : ¬ sub_moves SExpired s'.
Proof. intros [e H]. by inversion H. Qed.

Lemma sub_cancelled_only s' : sub_moves SCancelled s' → s' = SExpired.
Proof. intros [e H]. by inversion H. Qed.

(** The statuses from which the tenant can still be billed for a next period. *)
Definition sub_over (s : SubState) : Prop := s = SCancelled ∨ s = SExpired.

Lemma sub_over_stays s s' : rtc sub_moves s s' → sub_over s → sub_over s'.
Proof.
  induction 1 as [|x y z Hxy _ IH]; [done|]. intros [->| ->]; apply IH.
  - apply sub_cancelled_only in Hxy as ->. by right.
  - by apply sub_expired_terminal in Hxy.
Qed.

Lemma sub_reaches_expired s : rtc sub_moves s SExpired.
Proof.
  assert (∀ s, s ≠ SExpired → s ≠ SCancelled → rtc sub_moves s SExpired) as Hc.
  { intros s' H1 H2. eapply rtc_l; [exists ECancelled; by constructor|].
    eapply rtc_l; [exists EPeriodEnded; constructor|]. done. }
  destruct s; try (by apply Hc); [|done].
  eapply rtc_l; [exists EPeriodEnded; constructor|]. done.
Qed.

(** An invoice state is never left for draft, whatever the states are called. *)
Lemma CanTransitionInvoice_frozen from to :
  CanTransitionInvoice from to = true → InvoiceFrozen to = true.
Proof.
  assert (mem InvoiceDraft (invoice_targets from) = false) as Hd
    by (unfold invoice_targets; by repeat case_match).
  unfold CanTransitionInvoice, InvoiceFrozen. intros H.
  destruct (to =s InvoiceDraft) eqn:E; [|done]. apply seqb_eq in E as ->. congruence.
Qed.

Definition inv_moves (a b : string) : Prop := CanTransitionInvoice a b = true.

Lemma inv_moves_closed s s' : inv_moves s s' → s ≠ InvoiceCancelled ∧ s ≠ InvoiceRefunded.
Proof. split; by intros ->. Qed.

(** ** Calendar months *)

(** [time.Date(y, m+1, 0)] is the last day of month [m]. *)
Lemma daysInMonth_length y m : 1 ≤ m ≤ 12 → daysInMonth y m = month_length y m.
Proof.
  intros Hm. unfold daysInMonth, TDay, TDate.
  destruct (month_index y m Hm) as [Ey Em].
  assert (TimeDate y (m + 1) 0 0 0 0 / day_seconds = days_from_civil y m (month_length y m)) as ->.
  { rewrite TimeDate_month, TimeDate_valid by divlia.
    pose proof (month_first_last (y * 12 + (m - 1))) as H. rewrite Ey, Em in H.
    unfold month_first in H. rewrite <-(days_from_civil_day _ _ 0).
    replace (_ * day_seconds + 0 * 3600 + 0 * 60 + 0)
      with (days_from_civil y m (month_length y m) * day_seconds) by lia.
    by rewrite Z.div_mul. }
  rewrite days_civil; [done|]. split; [done|]. pose proof (month_length_bounds y m). lia.
Qed.

(** * Properties *)

(** The string switch [NextSubscriptionState] is exactly the documented
    lifecycle: it accepts an event in a state if and only if the step relation
    has that edge, with that target, and refuses everything else, including
    names that are no state or event at all. *)
Theorem NextSubscriptionState_refines (from event to : string) :
  NextSubscriptionState from event = Ok to ↔
  ∃ s e s', from = sub_name s ∧ event = event_name e ∧ to = sub_name s' ∧ sub_step s e s'.
Proof.
  split; [apply NextSubscriptionState_sound|].
  intros (s & e & s' & -> & -> & -> & H). by apply NextSubscriptionState_complete.
Qed.



(** An invoice that has left draft never returns to it, by any number of
    allowed transitions, so [InvoiceFrozen] once true stays true; a cancelled
    or refunded invoice allows no further transition. *)
Theorem invoice_never_thaws (s s' : string) (Hreach : rtc inv_moves s s')
    (Hfrozen : InvoiceFrozen s = true) :
  InvoiceFrozen s' = true ∧
  (s = InvoiceCancelled ∨ s = InvoiceRefunded → s' = s).
Proof.
  split.
  - induction Hreach as [|x y z Hxy _ IH]; [done|]. apply IH.
    by eapply CanTransitionInvoice_frozen.
  - intros Hs. inversion Hreach as [|? y ? Hy]; subst; [done|].
    apply inv_moves_closed in Hy. naive_solver.
Qed.

Lemma invoice_never_thaws_witness :
  rtc inv_moves InvoiceIssued InvoicePaid ∧ InvoiceFrozen InvoicePaid = true.
Proof.
  assert (rtc inv_moves InvoiceIssued InvoicePaid) as H.
  { eapply rtc_l; [|eapply rtc_l; [|reflexivity]];
      [exact (eq_refl : CanTransitionInvoice InvoiceIssued InvoiceProcessing = true)|reflexivity]. }
  split; [exact H|]. apply (invoice_never_thaws InvoiceIssued InvoicePaid H). reflexivity.
Defined.

(** A billing period ends the cycle's number of calendar months after it
    starts, at the same time of day and on the same day of the month, pulled
    back to the last day of a shorter month, and always later than its start;
    a lifetime or unknown cycle has the zero time for its end. *)
Theorem AdvancePeriod_spec (start : Z) (cycle : string) :
  let e := AdvancePeriod start cycle in
  (CycleMonths cycle ≤ 0 ∧ e = zero_time) ∨
  (0 < CycleMonths cycle ∧
   TYear e * 12 + TMonth e = TYear start * 12 + TMonth start + CycleMonths cycle ∧
   TDay e = Z.min (TDay start) (month_length (TYear e) (TMonth e)) ∧
   clock_of e = clock_of start ∧ start < e).
Proof.
  unfold AdvancePeriod. destruct (Z.leb_spec (CycleMonths cycle) 0) as [Hc|Hc]; [by left|].
  right. split; [done|].
  pose proof (TDate_valid start) as [Hm Hd]. pose proof (TDate_days start) as Hdays.
  pose proof (TimeDate_TDate start) as Hself.
  pose proof (clock_of_mod start) as Hclk. unfold clock_of in Hclk.
  assert (0 ≤ THour start * 3600 + TMinute start * 60 + TSecond start < day_seconds) as Hck
    by (rewrite Hclk; by apply Z.mod_pos_bound).
  unfold TYear, TMonth, TDay in Hm, Hd, Hdays, Hself |- *.
  destruct (TDate start) as [[y m] d]. cbn [fst snd] in *.
  set (k := CycleMonths cycle) in *.
  set (i := y * 12 + (m - 1) + k).
  rewrite TimeDate_month. fold i.
  assert (valid_date (i / 12) (i mod 12 + 1) 1) as Hv.
  { split; [divlia|]. pose proof (month_length_bounds (i / 12) (i mod 12 + 1)). lia. }
  destruct (TDate_TimeDate _ _ _ _ _ _ Hv Hck) as [-> _]. cbn [fst snd].
  rewrite daysInMonth_length by apply Hv.
  set (last := month_length (i / 12) (i mod 12 + 1)).
  pose proof (month_length_bounds (i / 12) (i mod 12 + 1)). fold last in H.
  assert ((if last <? d then last else d) = Z.min d last) as ->
    by (destruct (Z.ltb_spec last d); lia).
  assert (valid_date (i / 12) (i mod 12 + 1) (Z.min d last)) as Hv'
    by (split; [divlia|fold last; lia]).
  destruct (TDate_TimeDate _ _ _ _ _ _ Hv' Hck) as [-> ->]. cbn [fst snd].
  split; [subst i; divlia|]. split; [done|]. split; [done|].
  rewrite <-Hself at 1. rewrite !TimeDate_valid by (done || apply Hv).
  destruct (month_index y m Hm) as [Ey Em].
  pose proof (month_first_next (y * 12 + (m - 1)) d) as Hlt. rewrite Ey, Em in Hlt.
  specialize (Hlt ltac:(lia)).
  pose proof (month_first_mono (y * 12 + (m - 1) + 1) (k - 1) ltac:(lia)) as Hle.
  replace (y * 12 + (m - 1) + 1 + (k - 1)) with i in Hle by (subst i; lia).
  unfold month_first in Hle at 2.
  rewrite <-(days_from_civil_day _ _ (Z.min d last)). unfold day_seconds. lia.
Qed.
