(* ===== verification/Errors.v ===== *)
(** Errors: [src/src/errors/errors.go] (the application error and its codes),
    [src/src/billing/errors.go] (the billing constructors) and the predicates of
    [src/src/database/errors.go] on driver errors.

    A Go [error] is one inductive type: the sentinels the code compares with
    [errors.Is], driver and provider texts ([Plain]), two joined errors
    ([errors.Join]) and the application error with its wrapped cause. *)
From stdpp Require Import prelude strings list.
From Stdlib Require Import ZArith Lia Ascii.
From S2P Require Import Prelude States.

(** * Values *)

Inductive Detail := DStr (s : string) | DInt (n : Z).

Inductive error :=
| Plain (msg : string)
| ENoRows          (* sql.ErrNoRows *)
| EDeadline        (* context.DeadlineExceeded *)
| ECanceled        (* context.Canceled *)
| ETimeout         (* database.ErrTimeout *)
| EMissing         (* database.ErrNotFound *)
| EAborted         (* database.ErrCanceled *)
| EConflict        (* database.ErrConflict *)
| EUnsupported     (* provider.ErrUnsupported *)
| ENotRegistered   (* provider.ErrNotRegistered *)
| Join (first second : error)
| App (code : string) (status : Z) (msg : string) (details : list (string * Detail))
      (cause : option error).

Notation Res A := (Result error A).

(** * Package errors *)

Definition CodeBadRequest : string := "BAD_REQUEST".
Definition CodeValidation : string := "VALIDATION_FAILED".
Definition CodeUnauthorized : string := "UNAUTHORIZED".
Definition CodeForbidden : string := "FORBIDDEN".
Definition CodeNotFound : string := "NOT_FOUND".
Definition CodeConflict : string := "CONFLICT".
Definition CodeQuotaExceeded : string := "QUOTA_EXCEEDED".
Definition CodeInternal : string := "SERVER_ERROR".
Definition CodeUnavailable : string := "UNAVAILABLE".
Definition CodeTimeout : string := "TIMEOUT".

Definition codeTable : list (string * (Z * string)) :=
  [(CodeBadRequest, (400, "Invalid request format"));
   (CodeValidation, (400, "Validation failed"));
   (CodeUnauthorized, (401, "Authentication required"));
   ("TOKEN_EXPIRED", (401, "Token has expired"));
   ("TOKEN_INVALID", (401, "Invalid token"));
   ("2FA_REQUIRED", (401, "Two-factor authentication required"));
   ("2FA_INVALID", (401, "Invalid 2FA code"));
   (CodeForbidden, (403, "Permission denied"));
   ("ACCOUNT_LOCKED", (403, "Account locked"));
   (CodeNotFound, (404, "Resource not found"));
   ("METHOD_NOT_ALLOWED", (405, "Method not allowed"));
   (CodeConflict, (409, "Resource already exists"));
   ("PAYLOAD_TOO_LARGE", (413, "Request payload too large"));
   ("RATE_LIMITED", (429, "Too many requests"));
   (CodeQuotaExceeded, (429, "Quota exceeded"));
   (CodeInternal, (500, "Internal server error"));
   (CodeUnavailable, (503, "Service unavailable"));
   ("MAINTENANCE", (503, "Service unavailable"));
   (CodeTimeout, (504, "Request timed out"))].

Definition normalizeCode (code : string) : string :=
  let c := ToUpper (TrimSpace code) in
  let c := ReplaceChar c " "%char "_" in
  let c := ReplaceChar c "-"%char "_" in
  if c =s "" then CodeInternal else c.

Definition StatusForCode (code : string) : Z :=
  match assoc (normalizeCode code) codeTable with Some (st, _) => st | None => 500 end.

Definition DefaultMessage (code : string) : string :=
  match assoc (normalizeCode code) codeTable with
  | Some (_, m) => m
  | None => match assoc CodeInternal codeTable with Some (_, m) => m | None => "" end
  end.

Definition resolveMessage (code message : string) : string :=
  let m := TrimSpace message in if m =s "" then DefaultMessage code else m.

Definition resolveStatus (code : string) (status : Z) : Z :=
  if (100 <=? status) && (status <=? 599) then status else StatusForCode code.

Definition New (code : string) (httpStatus : Z) (message : string) : error :=
  let c := normalizeCode code in
  App c (resolveStatus c httpStatus) (resolveMessage c message) [] None.

Definition WithCause (e : error) (cause : error) : error :=
  match e with App c st m d _ => App c st m d (Some cause) | _ => e end.

Definition Wrap (err : error) (code : string) (httpStatus : Z) (message : string) : error :=
  WithCause (New code httpStatus message) err.

(** Later keys win, as in the merged Go map. *)
Definition WithDetails (e : error) (d : list (string * Detail)) : error :=
  match e with App c st m d0 cause => App c st m (d ++ d0) cause | _ => e end.

(** [err.Error()]. *)
Fixpoint error_text (e : error) : string :=
  match e with
  | Plain m => m
  | ENoRows => "sql: no rows in result set"
  | EDeadline => "context deadline exceeded"
  | ECanceled => "context canceled"
  | ETimeout => "TIMEOUT: request timed out"
  | EMissing => "NOT_FOUND: resource not found"
  | EAborted => "CANCELED: request was canceled"
  | EConflict => "CONFLICT: resource was modified by another request"
  | EUnsupported => "provider: operation is not supported by this provider"
  | ENotRegistered => "provider: no such payment provider"
  | Join a b => error_text a +:+ String (ascii_of_nat 10) (error_text b)
  | App code _ msg _ cause =>
      code +:+ ": " +:+ msg +:+
      match cause with Some c => ": " +:+ error_text c | None => "" end
  end.

(** [errors.As] for the application error: the first one in the chain. *)
Fixpoint as_app (e : error) : option error :=
  match e with
  | App _ _ _ _ _ => Some e
  | Join a b => match as_app a with Some x => Some x | None => as_app b end
  | _ => None
  end.

(** The chain of [Is]: the first application error is matched by code, then its
    cause is tried. *)
Fixpoint is_code (e : error) (target : string) : bool :=
  match e with
  | App code _ _ _ cause =>
      (code =s target) || match cause with Some c => is_code c target | None => false end
  | Join a b => match as_app a with Some _ => is_code a target | None => is_code b target end
  | _ => false
  end.

(** The sentinels are distinct pointers, compared by identity. *)
Definition sentinel (e : error) : nat :=
  match e with
  | ENoRows => 1 | EDeadline => 2 | ECanceled => 3 | ETimeout => 4 | EMissing => 5
  | EAborted => 6 | EConflict => 7 | EUnsupported => 8 | ENotRegistered => 9
  | Plain _ | Join _ _ | App _ _ _ _ _ => 0
  end.

(** [errors.Is(err, target)] for a sentinel [target]. *)
Fixpoint errors_Is (e target : error) : bool :=
  (negb (sentinel e =? 0)%nat && (sentinel e =? sentinel target)%nat) ||
  match e with
  | App _ _ _ _ (Some c) => errors_Is c target
  | Join a b => errors_Is a target || errors_Is b target
  | _ => false
  end.

Definition Is (err : error) (code : string) : bool := is_code err (normalizeCode code).

Definition From (err : error) : error :=
  match as_app err with
  | Some e => e
  | None =>
      if errors_Is err EDeadline then Wrap err CodeTimeout 0 ""
      else if errors_Is err ECanceled then Wrap err CodeUnavailable 0 ""
      else Wrap err CodeInternal 0 ""
  end.

Definition CodeOf (err : option error) : string :=
  match err with
  | Some e => match From e with App c _ _ _ _ => c | _ => "" end
  | None => ""
  end.

Definition StatusOf (err : option error) : Z :=
  match err with
  | Some e => match From e with App _ st _ _ _ => st | _ => 0 end
  | None => 200
  end.

Record Payload := mkPayload
  { p_ok : bool; p_error : string; p_message : string; p_details : list (string * Detail) }.

(** The body a client sees: code, message and details, never the cause. *)
Definition payload (e : error) : Payload :=
  match e with
  | App c _ m d _ => mkPayload false c m d
  | _ => mkPayload false CodeInternal (DefaultMessage CodeInternal) []
  end.

(** * Package billing: errors.go *)

Definition ErrDisabled : error :=
  New CodeUnavailable 503 "Billing is not configured on this server.".

Definition ErrProviderDisabled (name : string) : error :=
  WithDetails (New CodeUnavailable 503 ("Payment provider " +:+ quote name +:+ " is not enabled."))
    [("provider", DStr name)].

Definition ErrNoProvider : error :=
  New CodeUnavailable 503
    "No payment provider is enabled; the invoice was issued for manual payment.".

Definition ErrNotFound (kind : string) : error :=
  New CodeNotFound 404 ("No such " +:+ kind +:+ ".").

Definition ErrValidation (message : string) : error := New CodeValidation 422 message.
Definition ErrConflict (message : string) : error := New CodeConflict 409 message.
Definition ErrForbidden (message : string) : error := New CodeForbidden 403 message.
Definition ErrUnauthorized (message : string) : error := New CodeUnauthorized 401 message.

Definition ErrImmutable (number : string) : error :=
  WithDetails
    (New CodeConflict 409 ("Invoice " +:+ number +:+
       " has been issued and cannot be changed; raise a credit note instead."))
    [("invoice_number", DStr number)].

Definition ErrQuota (resource : string) (limit used requested : Z) : error :=
  WithDetails
    (New CodeQuotaExceeded 429 ("Your plan allows " +:+ itoa limit +:+ " " +:+
       ResourceUnit resource +:+ " and " +:+ itoa used +:+ " " +:+ ResourceUnit resource +:+
       " are already in use."))
    [("resource", DStr resource); ("limit", DInt limit); ("used", DInt used);
     ("requested", DInt requested); ("unit", DStr (ResourceUnit resource))].

Definition ErrInternal (cause : error) (message : string) : error :=
  Wrap cause CodeInternal 500 message.

Definition isNotFound (err : error) : bool := Is err CodeNotFound.
Definition isConflictErr (err : error) : bool := Is err CodeConflict.

Definition ErrUpstream (provider : string) (cause : error) : error :=
  WithDetails
    (Wrap cause CodeUnavailable 503 ("Payment provider " +:+ quote provider +:+ " is not responding."))
    [("provider", DStr provider)].

(** * Package database: errors.go *)

Definition Classify (err : error) : error :=
  if errors_Is err EDeadline then Join ETimeout err
  else if errors_Is err ECanceled then Join EAborted err
  else if errors_Is err ENoRows then Join EMissing err
  else err.

Definition db_IsNotFound (err : error) : bool := errors_Is err EMissing || errors_Is err ENoRows.

Definition db_IsTimeout (err : error) : bool := errors_Is err ETimeout || errors_Is err EDeadline.

Definition db_IsConflict (err : error) : bool := errors_Is err EConflict.

(** [errors.Is(err, sql.ErrNoRows)], the test every single-row read makes. *)
Definition isNoRows (err : error) : bool := errors_Is err ENoRows.

Definition contains_any (msg : string) (needles : list string) : bool :=
  existsb (λ needle, Contains msg needle) needles.

Definition serialization_needles : list string :=
  ["40001"; "40p01"; "1213"; "1205"; "serialization failure"; "deadlock"; "database is locked";
   "database table is locked"; "sqlite_busy"; "could not serialize access"].

Definition IsSerializationError (err : error) : bool :=
  contains_any (ToLower (error_text err)) serialization_needles.

Definition exists_needles : list string :=
  ["duplicate column"; "already exists"; "duplicate column name"; "duplicate key name";
   "already exists;"; "already an object named"; "column names in each table must be unique";
   "the operation failed because an index or statistics with name"].

Definition IsAlreadyExistsError (err : error) : bool :=
  contains_any (ToLower (error_text err)) exists_needles.

(** * Properties *)

(** What caused an error never reaches the client.  The body rendered for
    an application error is the same whatever it wraps, and a driver, provider or
    context error that reached the handler unwrapped, however it was joined, is
    rendered with the stock message of its code and no details. *)
Theorem cause_not_leaked (err : error) :
  (∀ code status message details c1 c2,
     err = App code status message details c1 →
     payload (From err) = payload (From (App code status message details c2))) ∧
  (as_app err = None →
     ∃ code, code ∈ [CodeTimeout; CodeUnavailable; CodeInternal] ∧
       payload (From err) = mkPayload false code (DefaultMessage code) []).
Proof.
  split; [by intros ? ? ? ? ? ? ->|]. intros Hno. unfold From. rewrite Hno.
  destruct (errors_Is err EDeadline); [|destruct (errors_Is err ECanceled)].
  - exists CodeTimeout. split; [set_solver|reflexivity].
  - exists CodeUnavailable. split; [set_solver|reflexivity].
  - exists CodeInternal. split; [set_solver|reflexivity].
Qed.

Lemma cause_not_leaked_witness :
  payload (From (Join ETimeout EDeadline))
  = mkPayload false CodeTimeout (DefaultMessage CodeTimeout) [] ∧
  ∃ code, code ∈ [CodeTimeout; CodeUnavailable; CodeInternal] ∧
    payload (From (Plain "pq: relation billing_accounts does not exist"))
    = mkPayload false code (DefaultMessage code) [].
Proof.
  split; [reflexivity|].
  apply (cause_not_leaked (Plain "pq: relation billing_accounts does not exist")). reflexivity.
Defined.

(** The texts with which the supported drivers report a violated unique
    key are not recognised by [IsAlreadyExistsError], which only knows the
    texts of schema statements. *)
Theorem unique_violation_not_recognised :
  Forall (λ m, IsAlreadyExistsError (Plain m) = false)
    ["UNIQUE constraint failed: billing_payment_attempts.idempotency_key";
     "constraint failed: UNIQUE constraint failed: billing_accounts.tenant_id (2067)";
     "Error 1062 (23000): Duplicate entry 'k' for key 'idempotency_key'";
     "mssql: Violation of UNIQUE KEY constraint 'uq'. Cannot insert duplicate key in object 'dbo.billing_payment_attempts'."].
Proof. repeat (apply Forall_cons; split; [vm_compute; reflexivity|]). apply Forall_nil_2. Qed.
