(* ===== verification/Models.v ===== *)
(** The domain types of [src/src/billing/models.go], one record per struct with
    the fields in source order.  The rows of the billing tables are these records
    (the [Lines] and [Quotas] slices are empty in a row and filled by the loading
    operations; the integer form of boolean columns is read back as [bool]). *)
From stdpp Require Import prelude strings list.
From Stdlib Require Import ZArith Lia Ascii.
From S2P Require Import Prelude Money States.

Record Account := mkAccount {
  a_ID : string; a_TenantID : string; a_Currency : string; a_BillingEmail : string;
  a_LegalName : string; a_AddressLine1 : string; a_AddressLine2 : string; a_City : string;
  a_Region : string; a_PostalCode : string; a_Country : string; a_TaxID : string;
  a_TaxIDStatus : string; a_IsBusiness : bool; a_BalanceMinor : Z; a_AutoRecharge : bool;
  a_AutoRechargeThreshold : Z; a_AutoRechargeAmountMinor : Z; a_DefaultMethodID : string;
  a_CreatedAt : Z; a_UpdatedAt : Z; a_Version : Z }.

(** [Account{}]. *)
Definition zeroAccount : Account :=
  mkAccount "" "" "" "" "" "" "" "" "" "" "" "" "" false 0 false 0 0 "" 0 0 0.

Record PlanQuota := mkPlanQuota {
  q_ID : string; q_PlanID : string; q_Resource : string; q_LimitValue : Z;
  q_Enforcement : string; q_BurstValue : Z; q_OverageUnitPriceMinor : Z; q_UpdatedAt : Z }.

(** [PlanQuota{}]. *)
Definition zeroPlanQuota : PlanQuota :=
  mkPlanQuota "" "" "" 0 "" 0 0 0.

Record Plan := mkPlan {
  p_ID : string; p_Code : string; p_Name : string; p_Description : string;
  p_Currency : string; p_PriceMinor : Z; p_Cycle : string; p_TrialDays : Z; p_GraceDays : Z;
  p_Visibility : string; p_OveragePolicy : string; p_Active : bool; p_SortOrder : Z;
  p_Quotas : list PlanQuota; p_CreatedAt : Z; p_UpdatedAt : Z; p_Version : Z }.

(** [Plan{}]. *)
Definition zeroPlan : Plan :=
  mkPlan "" "" "" "" "" 0 "" 0 0 "" "" false 0 [] 0 0 0.

Record QuotaOverride := mkQuotaOverride {
  o_ID : string; o_TenantID : string; o_Resource : string; o_LimitValue : Z;
  o_Enforcement : string; o_Reason : string; o_CreatedBy : string; o_CreatedAt : Z;
  o_ExpiresAt : Z }.

(** [QuotaOverride{}]. *)
Definition zeroQuotaOverride : QuotaOverride :=
  mkQuotaOverride "" "" "" 0 "" "" "" 0 0.

Record Subscription := mkSubscription {
  s_ID : string; s_TenantID : string; s_AccountID : string; s_PlanID : string;
  s_State : string; s_Cycle : string; s_Currency : string; s_PriceMinor : Z; s_Quantity : Z;
  s_TrialEndsAt : Z; s_PeriodStart : Z; s_PeriodEnd : Z; s_GraceEndsAt : Z;
  s_CancelAtPeriodEnd : bool; s_CancelledAt : Z; s_EndedAt : Z; s_PendingPlanID : string;
  s_PendingEffectiveAt : Z; s_Provider : string; s_ProviderRef : string; s_CreatedAt : Z;
  s_UpdatedAt : Z; s_Version : Z }.

(** [Subscription{}]. *)
Definition zeroSubscription : Subscription :=
  mkSubscription "" "" "" "" "" "" "" 0 0 0 0 0 0 false 0 0 "" 0 "" "" 0 0 0.

Record SubscriptionEvent := mkSubscriptionEvent {
  ev_ID : string; ev_TenantID : string; ev_SubscriptionID : string; ev_Event : string;
  ev_FromState : string; ev_ToState : string; ev_Actor : string; ev_Detail : string;
  ev_OccurredAt : Z }.

(** [SubscriptionEvent{}]. *)
Definition zeroSubscriptionEvent : SubscriptionEvent :=
  mkSubscriptionEvent "" "" "" "" "" "" "" "" 0.

Record Meter := mkMeter {
  m_Code : string; m_Name : string; m_MeterType : string; m_Resource : string;
  m_Unit : string; m_ResetPolicy : string; m_CreatedAt : Z; m_UpdatedAt : Z }.

(** [Meter{}]. *)
Definition zeroMeter : Meter :=
  mkMeter "" "" "" "" "" "" 0 0.

Record UsageRecord := mkUsageRecord {
  u_ID : string; u_TenantID : string; u_MeterCode : string; u_PeriodStart : Z;
  u_PeriodEnd : Z; u_Value : Z; u_Samples : Z; u_State : string; u_Dimensions : string;
  u_RecordedAt : Z }.

(** [UsageRecord{}]. *)
Definition zeroUsageRecord : UsageRecord :=
  mkUsageRecord "" "" "" 0 0 0 0 "" "" 0.

Record UsageRollup := mkUsageRollup {
  r_ID : string; r_TenantID : string; r_MeterCode : string; r_PeriodStart : Z;
  r_PeriodEnd : Z; r_TotalValue : Z; r_IncludedValue : Z; r_OverageValue : Z;
  r_Invoiced : bool; r_RolledAt : Z }.

(** [UsageRollup{}]. *)
Definition zeroUsageRollup : UsageRollup :=
  mkUsageRollup "" "" "" 0 0 0 0 0 false 0.

Record InvoiceLine := mkInvoiceLine {
  l_ID : string; l_InvoiceID : string; l_TenantID : string; l_Position : Z; l_Kind : string;
  l_Description : string; l_QuantityMilli : Z; l_UnitPriceMinor : Z; l_AmountMinor : Z;
  l_TaxRateBPS : Z; l_TaxMinor : Z; l_MeterCode : string; l_LinePeriodStart : Z;
  l_LinePeriodEnd : Z }.

(** [InvoiceLine{}]. *)
Definition zeroInvoiceLine : InvoiceLine :=
  mkInvoiceLine "" "" "" 0 "" "" 0 0 0 0 0 "" 0 0.

Record Invoice := mkInvoice {
  i_ID : string; i_TenantID : string; i_AccountID : string; i_SubscriptionID : string;
  i_Number : string; i_State : string; i_Currency : string; i_SubtotalMinor : Z;
  i_DiscountMinor : Z; i_TaxMinor : Z; i_TotalMinor : Z; i_PaidMinor : Z;
  i_CreditedMinor : Z; i_TaxRateBPS : Z; i_TaxKind : string; i_TaxJurisdiction : string;
  i_ReverseCharge : bool; i_PeriodStart : Z; i_PeriodEnd : Z; i_IssuedAt : Z; i_DueAt : Z;
  i_PaidAt : Z; i_VoidedAt : Z; i_BuyerSnapshot : string; i_Notes : string;
  i_Lines : list InvoiceLine; i_CreatedAt : Z; i_UpdatedAt : Z; i_Version : Z }.

(** [Invoice{}]. *)
Definition zeroInvoice : Invoice :=
  mkInvoice "" "" "" "" "" "" "" 0 0 0 0 0 0 0 "" "" false 0 0 0 0 0 0 "" "" [] 0 0 0.

Record CreditNote := mkCreditNote {
  cn_ID : string; cn_TenantID : string; cn_InvoiceID : string; cn_Number : string;
  cn_Currency : string; cn_AmountMinor : Z; cn_TaxMinor : Z; cn_Reason : string;
  cn_Note : string; cn_IssuedAt : Z; cn_CreatedBy : string }.

(** [CreditNote{}]. *)
Definition zeroCreditNote : CreditNote :=
  mkCreditNote "" "" "" "" "" 0 0 "" "" 0 "".

Record PaymentMethod := mkPaymentMethod {
  pm_ID : string; pm_TenantID : string; pm_AccountID : string; pm_Provider : string;
  pm_ProviderToken : string; pm_ProviderCustomer : string; pm_Kind : string;
  pm_Brand : string; pm_Last4 : string; pm_ExpMonth : Z; pm_ExpYear : Z;
  pm_HolderName : string; pm_Country : string; pm_IsDefault : bool; pm_State : string;
  pm_CreatedAt : Z; pm_UpdatedAt : Z }.

(** [PaymentMethod{}]. *)
Definition zeroPaymentMethod : PaymentMethod :=
  mkPaymentMethod "" "" "" "" "" "" "" "" "" 0 0 "" "" false "" 0 0.

Record PaymentAttempt := mkPaymentAttempt {
  pa_ID : string; pa_TenantID : string; pa_AccountID : string; pa_InvoiceID : string;
  pa_MethodID : string; pa_Provider : string; pa_IdempotencyKey : string;
  pa_AmountMinor : Z; pa_Currency : string; pa_State : string; pa_ProviderRef : string;
  pa_FailureCode : string; pa_FailureMessage : string; pa_AttemptNumber : Z;
  pa_AttemptedAt : Z; pa_CompletedAt : Z }.

(** [PaymentAttempt{}]. *)
Definition zeroPaymentAttempt : PaymentAttempt :=
  mkPaymentAttempt "" "" "" "" "" "" "" 0 "" "" "" "" "" 0 0 0.

Record Refund := mkRefund {
  rf_ID : string; rf_TenantID : string; rf_InvoiceID : string; rf_AttemptID : string;
  rf_CreditNoteID : string; rf_Provider : string; rf_ProviderRef : string;
  rf_AmountMinor : Z; rf_Currency : string; rf_Kind : string; rf_State : string;
  rf_Reason : string; rf_CreatedAt : Z; rf_CompletedAt : Z }.

(** [Refund{}]. *)
Definition zeroRefund : Refund :=
  mkRefund "" "" "" "" "" "" "" 0 "" "" "" "" 0 0.

Record ProviderRecord := mkProviderRecord {
  pr_Name : string; pr_DisplayName : string; pr_Category : string; pr_Enabled : bool;
  pr_TestMode : bool; pr_State : string; pr_Priority : Z; pr_CredentialsEnc : string;
  pr_CredentialsTestEnc : string; pr_HealthState : string; pr_HealthDetail : string;
  pr_HealthCheckedAt : Z; pr_ConfiguredAt : Z; pr_ConfiguredBy : string; pr_CreatedAt : Z;
  pr_UpdatedAt : Z; pr_Version : Z }.

(** [ProviderRecord{}]. *)
Definition zeroProviderRecord : ProviderRecord :=
  mkProviderRecord "" "" "" false false "" 0 "" "" "" "" 0 0 "" 0 0 0.

Record WebhookEvent := mkWebhookEvent {
  wh_ID : string; wh_Provider : string; wh_EventID : string; wh_EventType : string;
  wh_State : string; wh_PayloadHash : string; wh_Detail : string; wh_ReceivedAt : Z;
  wh_ProcessedAt : Z }.

(** [WebhookEvent{}]. *)
Definition zeroWebhookEvent : WebhookEvent :=
  mkWebhookEvent "" "" "" "" "" "" "" 0 0.

Record DunningState := mkDunningState {
  dn_SubscriptionID : string; dn_TenantID : string; dn_InvoiceID : string;
  dn_State : string; dn_Attempt : Z; dn_NextAttemptAt : Z; dn_StartedAt : Z;
  dn_LastError : string; dn_UpdatedAt : Z }.

(** [DunningState{}]. *)
Definition zeroDunningState : DunningState :=
  mkDunningState "" "" "" "" 0 0 0 "" 0.

Record TaxRate := mkTaxRate {
  tr_ID : string; tr_Country : string; tr_Region : string; tr_Kind : string;
  tr_Name : string; tr_RateBPS : Z; tr_ReverseChargeB2B : bool; tr_Active : bool;
  tr_UpdatedAt : Z }.

(** [TaxRate{}]. *)
Definition zeroTaxRate : TaxRate :=
  mkTaxRate "" "" "" "" "" 0 false false 0.

Record AuditEntry := mkAuditEntry {
  au_ID : string; au_OccurredAt : Z; au_TenantID : string; au_Actor : string;
  au_Action : string; au_Target : string; au_Provider : string; au_Result : string;
  au_Code : string; au_IP : string; au_Detail : string }.

(** [AuditEntry{}]. *)
Definition zeroAuditEntry : AuditEntry :=
  mkAuditEntry "" 0 "" "" "" "" "" "" "" "" "".

Record QuotaStatus := mkQuotaStatus {
  qs_Resource : string; qs_LimitValue : Z; qs_Used : Z; qs_Remaining : Z;
  qs_Enforcement : string; qs_Unlimited : bool; qs_Source : string; qs_Unit : string }.

(** [QuotaStatus{}]. *)
Definition zeroQuotaStatus : QuotaStatus :=
  mkQuotaStatus "" 0 0 0 "" false "" "".

(** [Subscription.Active]. *)
Definition Active (s : Subscription) : bool :=
  if (s_State s =s StateTrialing) || (s_State s =s StateActive) || (s_State s =s StatePastDue)
  then true
  else if s_State s =s StateCancelled then s_EndedAt s =? 0
  else false.

(** [Invoice.BalanceDueMinor]. *)
Definition BalanceDueMinor (i : Invoice) : Z :=
  ClampNonNegative ((i_TotalMinor i -! i_PaidMinor i) -! i_CreditedMinor i).
