(* ===== verification/Store.v ===== *)
(** The billing store and the effects of the service.

    [DB] holds the billing tables of [src/src/billing/schema.go], each keyed by
    the key its schema declares (accounts by their unique tenant).  An operation
    of [Service] is a function in the monad [M]: it reads a [World] (the clock,
    the random identifiers, the database driver's failures, the writes of
    concurrent sessions, the registered counters and payment drivers) and
    threads the shared state.  Every SQL statement is atomic; between two
    statements any other session may write, and any statement may fail before or
    after taking effect. *)
From stdpp Require Import prelude strings list gmap relations.
From Stdlib Require Import ZArith Lia Ascii.
From coqutil Require Export Datatypes.RecordSetters.
From S2P Require Import Prelude GoTime Money States Errors Models.
Export DoubleBraceUpdate.

#[global] Arguments RecordSetters.constant {_} _ _ /.

(** * Payment providers: [src/src/billing/provider/provider.go] *)

Record Field := mkField {
  f_Name : string; f_Label : string; f_Required : bool; f_Secret : bool;
  f_Placeholder : string; f_Tooltip : string }.

Record Config := mkConfig {
  cf_Credentials : gmap string string; cf_TestMode : bool; cf_Timeout : Z;
  cf_WebhookURL : string }.

Record Capabilities := mkCapabilities {
  cp_Charge : bool; cp_Authorize : bool; cp_Refund : bool; cp_StoreMethod : bool;
  cp_ProviderSubscription : bool; cp_Webhooks : bool; cp_Currencies : list string }.

Definition Supports (c : Capabilities) (currency : string) : bool :=
  match cp_Currencies c with [] => true | cs => mem currency cs end.

Record MethodRequest := mkMethodRequest {
  mr_TenantID : string; mr_CustomerRef : string; mr_Token : string; mr_HolderName : string;
  mr_BillingEmail : string; mr_Country : string }.

Record Method := mkMethod {
  mt_Token : string; mt_CustomerRef : string; mt_Kind : string; mt_Brand : string;
  mt_Last4 : string; mt_ExpMonth : Z; mt_ExpYear : Z; mt_Country : string }.

Record ChargeRequest := mkChargeRequest {
  cr_IdempotencyKey : string; cr_AmountMinor : Z; cr_Currency : string;
  cr_MethodToken : string; cr_CustomerRef : string; cr_Description : string;
  cr_InvoiceNumber : string; cr_Capture : bool }.

Record ChargeResult := mkChargeResult {
  cs_Reference : string; cs_State : string; cs_AmountMinor : Z; cs_Currency : string;
  cs_FailureCode : string; cs_FailureMessage : string; cs_RequiresAction : bool;
  cs_ActionURL : string }.

Record RefundRequest := mkRefundRequest {
  rr_IdempotencyKey : string; rr_Reference : string; rr_AmountMinor : Z;
  rr_Currency : string; rr_Reason : string }.

Record RefundResult := mkRefundResult {
  rs_Reference : string; rs_State : string; rs_AmountMinor : Z }.

Record Event := mkEvent {
  e_ID : string; e_Kind : string; e_Reference : string; e_AmountMinor : Z;
  e_Currency : string; e_Detail : string; e_OccurredAt : Z }.

(** A provider is remote code: each method answers as it likes at each call
    (the [nat] is the moment of the call). *)
Record Provider := mkProvider {
  pv_Capabilities : Capabilities;
  pv_ValidateCredentials : nat → option error;
  pv_StoreMethod : nat → MethodRequest → Res Method;
  pv_DeleteMethod : nat → string → option error;
  pv_Charge : nat → ChargeRequest → Res ChargeResult;
  pv_Refund : nat → RefundRequest → Res RefundResult;
  pv_GetPayment : nat → string → Res ChargeResult;
  pv_ListPayments : nat → Z → Z → Res (list ChargeResult);
  pv_VerifyWebhook : nat → list (string * string) → string → string → Res Event }.

Record Driver := mkDriver {
  dr_Name : string; dr_DisplayName : string; dr_Category : string; dr_Fields : list Field;
  dr_SetupGuide : list string; dr_Troubleshooting : list (string * string);
  dr_New : option (Config → Res Provider) }.       (* [None]: a nil function *)

(** The driver registry and its operations. *)
Definition Register (d : Driver) (registry : gmap string Driver) : gmap string Driver :=
  match dr_New d with
  | None => registry
  | Some _ => if dr_Name d =s "" then registry else <[dr_Name d := d]> registry
  end.

Definition Lookup (name : string) (registry : gmap string Driver) : Res Driver :=
  match registry !! name with Some d => Ok d | None => Err ENotRegistered end.

Definition Drivers (registry : gmap string Driver) : list Driver :=
  omap (λ name, registry !! name) (sort_strings (map fst (map_to_list registry))).

Definition Names (registry : gmap string Driver) : list string :=
  map dr_Name (Drivers registry).

(** Indexing a Go map of strings. *)
Definition credential (credentials : gmap string string) (name : string) : string :=
  default "" (credentials !! name).

(** [Driver.Validate]: the first missing required credential. *)
Fixpoint validate_fields (fs : list Field) (credentials : gmap string string) : option error :=
  match fs with
  | [] => None
  | f :: fs' =>
      if f_Required f && (credential credentials (f_Name f) =s "")
      then Some (Plain ("provider: " +:+ f_Label f +:+ " is required"))
      else validate_fields fs' credentials
  end.

Definition Validate (d : Driver) (credentials : gmap string string) : option error :=
  validate_fields (dr_Fields d) credentials.

Definition RequiredFields (d : Driver) : list string :=
  map f_Name (List.filter f_Required (dr_Fields d)).

(** * The database *)

(** A row of [billing_document_sequences] and one of [billing_settings]. *)
Record SequenceRow := mkSequenceRow { sq_Scope : string; sq_Next : Z; sq_UpdatedAt : Z }.
Record SettingRow := mkSettingRow {
  sg_Key : string; sg_Value : string; sg_UpdatedAt : Z; sg_UpdatedBy : string }.

Record DB := mkDB {
  t_accounts : gmap string Account;          (* by tenant_id *)
  t_plans : gmap string Plan;
  t_quotas : gmap string PlanQuota;
  t_overrides : gmap string QuotaOverride;
  t_subs : gmap string Subscription;
  t_events : list SubscriptionEvent;
  t_meters : gmap string Meter;
  t_usage : gmap string UsageRecord;
  t_rollups : gmap string UsageRollup;
  t_invoices : gmap string Invoice;
  t_lines : gmap string InvoiceLine;
  t_credits : gmap string CreditNote;
  t_sequences : gmap string SequenceRow;
  t_providers : gmap string ProviderRecord;
  t_methods : gmap string PaymentMethod;
  t_attempts : gmap string PaymentAttempt;
  t_refunds : gmap string Refund;
  t_webhooks : gmap string WebhookEvent;
  t_dunning : gmap string DunningState;
  t_audit : list AuditEntry;
  t_taxrates : gmap string TaxRate;
  t_settings : gmap string SettingRow }.

Definition emptyDB : DB :=
  mkDB ∅ ∅ ∅ ∅ ∅ [] ∅ ∅ ∅ ∅ ∅ ∅ ∅ ∅ ∅ ∅ ∅ ∅ ∅ [] ∅ ∅.

(** What leaves the process: notifications, the audit log file, and requests
    to payment providers. *)
Inductive Effect :=
| FNotify (tenant event : string)
| FAuditLog (entry : AuditEntry)
| FCharge (provider : string) (req : ChargeRequest)
| FRefund (provider : string) (req : RefundRequest)
| FStoreMethod (provider : string) (req : MethodRequest)
| FDeleteMethod (provider token : string)
| FValidate (provider : string)
| FGetPayment (provider reference : string)
| FListPayments (provider : string) (since until : Z).

Record Shared := mkShared { sh_db : DB; sh_out : list Effect }.

(** How a driver fails: with a text of its own, or because the deadline of the
    statement passed or the request was cancelled. *)
Inductive Failure := Broken (msg : string) | Late | Gone.

Definition failure (f : Failure) : error :=
  match f with Broken m => Plain m | Late => EDeadline | Gone => ECanceled end.

(** A statement succeeds, fails without effect, or takes effect and still
    reports a failure. *)
Inductive Fault := NoFault | Lost (f : Failure) | Applied (f : Failure).

Record World := mkWorld {
  w_now : nat → Z;
  w_newid : nat → string;
  w_fault : nat → Fault;
  w_env : nat → Shared → Shared;
  w_dup : string → string;                          (* unique-violation text per table *)
  w_counters : string → option (nat → string → Res Z);
  w_notifier : bool;
  w_decode : string → Res string;                   (* base64 *)
  w_encode : string → string;
  w_decrypt : string → Res string;                  (* AES-GCM under the service key *)
  w_encrypt : nat → string → Res string;
  w_unmarshal : string → Res (gmap string string);  (* JSON object of strings *)
  w_marshal : gmap string string → Res string;
  w_drivers : gmap string Driver;                   (* the provider registry *)
  w_hash : string → string }.                       (* hex SHA-256 *)

(** The state of a run: the shared state, the number of steps taken, and the
    writes this session has made itself (each with the state before it). *)
Record St := mkSt { st_sh : Shared; st_tick : nat; st_own : list (Shared * Shared) }.

(** * The monad *)

Definition M (A : Type) : Type := World → St → A * St.

Definition ret {A} (a : A) : M A := λ _ st, (a, st).

Definition bind {A B} (m : M A) (k : A → M B) : M B :=
  λ w st, let '(a, st') := m w st in k a w st'.

Notation "'let*' x := m 'in' k" := (bind m (λ x, k))
  (at level 10, x pattern, m at level 100, k at level 200) : cashp_scope.


(** Propagation of an error: [x, err := m(); if err != nil { return err }]. *)
Definition bindR {A B} (m : M (Res A)) (k : A → M (Res B)) : M (Res B) :=
  bind m (λ r, match r with Ok a => k a | Err e => ret (Err e) end).

Notation "'let?' x := m 'in' k" := (bindR m (λ x, k))
  (at level 10, x pattern, m at level 100, k at level 200) : cashp_scope.

(** The same, with the error rendered by [f] first. *)
Definition mapErr {A} (f : error → error) (m : M (Res A)) : M (Res A) :=
  bind m (λ r, ret match r with Ok a => Ok a | Err e => Err (f e) end).

Definition fail {A} (e : error) : M (Res A) := ret (Err e).
Definition ok_ {A} (a : A) : M (Res A) := ret (Ok a).

Definition ask {A} (f : World → nat → A) : M A :=
  λ w st, (f w (st_tick st), mkSt (st_sh st) (S (st_tick st)) (st_own st)).

(** The service clock in seconds ([unix] and [Now]). *)
Definition unix : M Z := ask w_now.
Definition newID : M string := ask w_newid.

Definition set_db (s : Shared) (db : DB) : Shared := mkShared db (sh_out s).

(** One SQL statement that changes the table [tbl]: rows affected, or [None]
    when a unique key is violated. *)
Definition exec (tbl : string) (f : DB → option (Z * DB)) : M (Res Z) :=
  λ w st,
    let n := st_tick st in
    let s := w_env w n (st_sh st) in
    match f (sh_db s) with
    | None =>
        match w_fault w n with
        | Lost e => (Err (Classify (failure e)), mkSt s (S n) (st_own st))
        | _ => (Err (Plain (w_dup w tbl)), mkSt s (S n) (st_own st))
        end
    | Some (k, db') =>
        match w_fault w n with
        | NoFault => (Ok k, mkSt (set_db s db') (S n) ((s, set_db s db') :: st_own st))
        | Lost e => (Err (Classify (failure e)), mkSt s (S n) (st_own st))
        | Applied e => (Err (Classify (failure e)), mkSt (set_db s db') (S n) ((s, set_db s db') :: st_own st))
        end
    end.

(** One read; [report] is what the caller sees of a driver failure. *)
Definition read {A} (report : error → error) (f : DB → Res A) : M (Res A) :=
  λ w st,
    let n := st_tick st in
    let s := w_env w n (st_sh st) in
    match w_fault w n with
    | NoFault => (f (sh_db s), mkSt s (S n) (st_own st))
    | Lost e | Applied e => (Err (report (failure e)), mkSt s (S n) (st_own st))
    end.

(** [QueryContext] classifies the failure; a single row's is left to [Scan]. *)
Definition query {A} (f : DB → A) : M (Res A) := read Classify (λ db, Ok (f db)).

Definition query_row {A} (f : DB → option A) : M (Res A) :=
  read id (λ db, match f db with Some a => Ok a | None => Err ENoRows end).

(** [DB.UpdateVersioned]: no row affected means another writer won. *)
Definition UpdateVersioned (tbl : string) (f : DB → option (Z * DB)) : M (Res unit) :=
  let? n := exec tbl f in
  if n =? 0 then fail EConflict else ok_ tt.

(** An effect leaves the process; other sessions may interleave first. *)
Definition emit (e : Effect) : M unit :=
  λ w st,
    let s := w_env w (st_tick st) (st_sh st) in
    let s' := mkShared (sh_db s) (sh_out s ++ [e]) in
    (tt, mkSt s' (S (st_tick st)) ((s, s') :: st_own st)).

(** A loop over a list whose body may fail, in order. *)
Fixpoint forM {A} (l : list A) (body : A → M (Res unit)) : M (Res unit) :=
  match l with
  | [] => ok_ tt
  | x :: l' => let? _ := body x in forM l' body
  end.

(** A loop that builds a list and returns at the first error. *)
Fixpoint mapMR {A B} (f : A → M (Res B)) (l : list A) : M (Res (list B)) :=
  match l with
  | [] => ok_ []
  | x :: l' => let? y := f x in let? ys := mapMR f l' in ok_ (y :: ys)
  end.

(** A loop that accumulates and never returns early. *)
Fixpoint foldM {A B} (f : B → A → M B) (acc : B) (l : list A) : M B :=
  match l with
  | [] => ret acc
  | x :: l' => let* acc' := f acc x in foldM f acc' l'
  end.

(** ** Tables and statements *)

(** A table of the schema with its key column. *)
Record Table (V : Type) := mkTable {
  tb_name : string;
  tb_key : V → string;
  tb_get : DB → gmap string V;
  tb_put : gmap string V → DB → DB }.
Arguments mkTable {V} _ _ _ _.
Arguments tb_name {V} _.
Arguments tb_key {V} _ _.
Arguments tb_get {V} _ _.
Arguments tb_put {V} _ _ _.

Definition billing_accounts : Table Account :=
  mkTable "billing_accounts" a_TenantID t_accounts (λ m db, db {{ t_accounts := m }}).
Definition billing_plans : Table Plan :=
  mkTable "billing_plans" p_ID t_plans (λ m db, db {{ t_plans := m }}).
Definition billing_plan_quotas : Table PlanQuota :=
  mkTable "billing_plan_quotas" q_ID t_quotas (λ m db, db {{ t_quotas := m }}).
Definition billing_quota_overrides : Table QuotaOverride :=
  mkTable "billing_quota_overrides" o_ID t_overrides (λ m db, db {{ t_overrides := m }}).
Definition billing_subscriptions : Table Subscription :=
  mkTable "billing_subscriptions" s_ID t_subs (λ m db, db {{ t_subs := m }}).
Definition billing_usage_meters : Table Meter :=
  mkTable "billing_usage_meters" m_Code t_meters (λ m db, db {{ t_meters := m }}).
Definition billing_usage_records : Table UsageRecord :=
  mkTable "billing_usage_records" u_ID t_usage (λ m db, db {{ t_usage := m }}).
Definition billing_usage_rollups : Table UsageRollup :=
  mkTable "billing_usage_rollups" r_ID t_rollups (λ m db, db {{ t_rollups := m }}).
Definition billing_invoices : Table Invoice :=
  mkTable "billing_invoices" i_ID t_invoices (λ m db, db {{ t_invoices := m }}).
Definition billing_invoice_lines : Table InvoiceLine :=
  mkTable "billing_invoice_lines" l_ID t_lines (λ m db, db {{ t_lines := m }}).
Definition billing_credit_notes : Table CreditNote :=
  mkTable "billing_credit_notes" cn_ID t_credits (λ m db, db {{ t_credits := m }}).
Definition billing_document_sequences : Table SequenceRow :=
  mkTable "billing_document_sequences" sq_Scope t_sequences (λ m db, db {{ t_sequences := m }}).
Definition billing_providers : Table ProviderRecord :=
  mkTable "billing_providers" pr_Name t_providers (λ m db, db {{ t_providers := m }}).
Definition billing_payment_methods : Table PaymentMethod :=
  mkTable "billing_payment_methods" pm_ID t_methods (λ m db, db {{ t_methods := m }}).
Definition billing_payment_attempts : Table PaymentAttempt :=
  mkTable "billing_payment_attempts" pa_ID t_attempts (λ m db, db {{ t_attempts := m }}).
Definition billing_refunds : Table Refund :=
  mkTable "billing_refunds" rf_ID t_refunds (λ m db, db {{ t_refunds := m }}).
Definition billing_webhook_events : Table WebhookEvent :=
  mkTable "billing_webhook_events" wh_ID t_webhooks (λ m db, db {{ t_webhooks := m }}).
Definition billing_dunning : Table DunningState :=
  mkTable "billing_dunning" dn_SubscriptionID t_dunning (λ m db, db {{ t_dunning := m }}).
Definition billing_tax_rates : Table TaxRate :=
  mkTable "billing_tax_rates" tr_ID t_taxrates (λ m db, db {{ t_taxrates := m }}).
Definition billing_settings : Table SettingRow :=
  mkTable "billing_settings" sg_Key t_settings (λ m db, db {{ t_settings := m }}).

(** [INSERT]: refused when the key is taken, or when another row [clash]es on a
    further unique column. *)
Definition INSERT_UNIQUE {V} (t : Table V) (clash : V → bool) (v : V) : M (Res Z) :=
  exec (tb_name t) (λ db,
    match tb_get t db !! tb_key t v with
    | Some _ => None
    | None =>
        if existsb clash (map snd (map_to_list (tb_get t db))) then None
        else Some (1, tb_put t (<[tb_key t v := v]> (tb_get t db)) db)
    end).

Definition INSERT {V} (t : Table V) (v : V) : M (Res Z) := INSERT_UNIQUE t (λ _, false) v.

Definition update_row {V} (k : string) (p : V → bool) (g : V → V) (m : gmap string V)
  : Z * gmap string V :=
  match m !! k with
  | Some v => if p v then (1, <[k := g v]> m) else (0, m)
  | None => (0, m)
  end.

Definition update_stmt {V} (t : Table V) (k : string) (p : V → bool) (g : V → V) (db : DB)
  : option (Z * DB) :=
  let '(n, m) := update_row k p g (tb_get t db) in Some (n, tb_put t m db).

(** [UPDATE t SET g WHERE key = k AND p]. *)
Definition UPDATE {V} (t : Table V) (k : string) (p : V → bool) (g : V → V) : M (Res Z) :=
  exec (tb_name t) (update_stmt t k p g).

(** The same through [UpdateVersioned]. *)
Definition UPDATE_VERSIONED {V} (t : Table V) (k : string) (p : V → bool) (g : V → V)
  : M (Res unit) :=
  UpdateVersioned (tb_name t) (update_stmt t k p g).

(** [UPDATE t SET g WHERE p]. *)
Definition update_all {V} (p : V → bool) (g : V → V) (m : gmap string V) : Z * gmap string V :=
  (Z.of_nat (length (List.filter p (map snd (map_to_list m)))),
   (λ v, if p v then g v else v) <$> m).

Definition UPDATE_ALL {V} (t : Table V) (p : V → bool) (g : V → V) : M (Res Z) :=
  exec (tb_name t) (λ db,
    let '(n, m) := update_all p g (tb_get t db) in Some (n, tb_put t m db)).

(** The rows a [WHERE] clause keeps, in [ORDER BY] order; the order of rows that
    compare equal is not specified by SQL. *)
Definition select {V} (p : V → bool) (leb : V → V → bool) (m : gmap string V) : list V :=
  sort_by leb (List.filter p (map snd (map_to_list m))).

Definition SELECT {V} (t : Table V) (p : V → bool) (leb : V → V → bool) : M (Res (list V)) :=
  query (λ db, select p leb (tb_get t db)).

(** Lookup by key under a further predicate. *)
Definition find_row {V} (k : string) (p : V → bool) (m : gmap string V) : option V :=
  match m !! k with Some v => if p v then Some v else None | None => None end.

Definition SELECT_ROW {V} (t : Table V) (k : string) (p : V → bool) : M (Res V) :=
  query_row (λ db, find_row k p (tb_get t db)).

(** The first row of an ordered selection ([LIMIT 1], or a unique column). *)
Definition SELECT_FIRST {V} (t : Table V) (p : V → bool) (leb : V → V → bool) : M (Res V) :=
  query_row (λ db, head (select p leb (tb_get t db))).

(** [SELECT COUNT]. *)
Definition COUNT {V} (t : Table V) (p : V → bool) : M (Res Z) :=
  query (λ db, Z.of_nat (length (List.filter p (map snd (map_to_list (tb_get t db)))))).

Definition all_rows {V} : V → bool := λ _, true.
Definition any_order {V} : V → V → bool := λ _ _, true.
Definition asc {V} (f : V → Z) : V → V → bool := λ a b, f a <=? f b.
Definition desc {V} (f : V → Z) : V → V → bool := λ a b, f b <=? f a.

(** Comparison of strings in a [WHERE] or [ORDER BY] clause. *)
Definition asc_s {V} (f : V → string) : V → V → bool := λ a b, string_leb (f a) (f b).
