(* ===== verification/Logic.v ===== *)
(** Reasoning about operations that run against concurrent sessions.

    A [Protocol] is an invariant, a rely condition and a guarantee.  [ok P s m Q]:
    in every world whose environment keeps the invariant and makes only steps of
    the rely condition, the operation [m] started in the shared state [s] keeps
    the invariant, every statement it executes is a step of the guarantee, so is
    the whole run, and it ends in [Q].  The
    guarantee is a preorder containing the rely condition, so whatever was read
    at one moment is known up to it at every later one.  Composite operations
    inherit their guarantee from the operations they call through the hint
    database [okdb]. *)
From stdpp Require Import prelude strings list gmap relations.
From Stdlib Require Import ZArith Lia.
From S2P Require Import Prelude Errors Models Store.

Create HintDb okdb.
Create HintDb reldb.

Record Protocol := mkProtocol {
  worlds : World → Prop;                (* what is assumed of the world beside it *)
  inv : Shared → Prop;
  env_step : relation Shared;
  own_step : relation Shared }.

Class Sound (P : Protocol) := {
  sound_preorder :: PreOrder (own_step P);
  sound_sub : ∀ s s', env_step P s s' → own_step P s s' }.

Definition rely (P : Protocol) (w : World) : Prop :=
  worlds P w ∧ ∀ n s, inv P s → env_step P s (w_env w n s) ∧ inv P (w_env w n s).

(** Every write the session made between two moments was a step of the
    guarantee. *)
Definition own_between (P : Protocol) (st st' : St) : Prop :=
  ∃ new, st_own st' = new ++ st_own st ∧ Forall (λ p, own_step P p.1 p.2) new.

Lemma own_none P st st' : st_own st' = st_own st → own_between P st st'.
Proof. intros E. by exists []. Qed.

Lemma own_one P st st' s s' :
  st_own st' = (s, s') :: st_own st → own_step P s s' → own_between P st st'.
Proof. intros E H. exists [(s, s')]. split; [done|]. by constructor. Qed.

Lemma own_trans P a b c : own_between P a b → own_between P b c → own_between P a c.
Proof.
  intros (x & Ex & Hx) (y & Ey & Hy). exists (y ++ x). split; [by rewrite Ey, Ex, app_assoc|].
  by apply Forall_app.
Qed.

Definition ok (P : Protocol) {A} (s : Shared) (m : M A) (Q : A → Shared → Prop) : Prop :=
  ∀ w st, rely P w → st_sh st = s → inv P s →
    own_step P s (st_sh (m w st).2) ∧ inv P (st_sh (m w st).2) ∧
    own_between P st (m w st).2 ∧
    Q (m w st).1 (st_sh (m w st).2).

(** The guarantee alone. *)
Definition guar (P : Protocol) {A} (m : M A) : Prop := ∀ s, ok P s m (λ _ _, True).

Section rules.
Context (P : Protocol) {HP : Sound P}.

Notation T := (own_step P).
Notation I := (inv P).

Lemma ok_ret {A} s (a : A) (Q : A → Shared → Prop) : (I s → Q a s) → ok P s (ret a) Q.
Proof. intros H w st Hw <- Hi. simpl. split_and!; auto; [reflexivity|by apply own_none]. Qed.

Lemma ok_pre {A} s (m : M A) Q : (I s → ok P s m Q) → ok P s m Q.
Proof. intros H w st Hw Hs Hi. by apply H. Qed.

Lemma ok_conseq {A} s (m : M A) (Q Q' : A → Shared → Prop) :
  ok P s m Q' → (∀ a s1, T s s1 → I s1 → Q' a s1 → Q a s1) → ok P s m Q.
Proof.
  intros Hm HQ w st Hw Hs Hi. destruct (Hm w st Hw Hs Hi) as (Ht & Hi' & Ho' & Hq). auto.
Qed.

Lemma ok_bind {A B} s (m : M A) (k : A → M B) (Q' : A → Shared → Prop) (Q : B → Shared → Prop) :
  ok P s m Q' → (∀ a s1, T s s1 → Q' a s1 → ok P s1 (k a) Q) → ok P s (bind m k) Q.
Proof.
  intros Hm Hk w st Hw Hs Hi. unfold bind.
  destruct (Hm w st Hw Hs Hi) as (Ht & Hi' & Ho' & Hq).
  destruct (m w st) as [a st1]. cbn [fst snd] in *.
  destruct (Hk a (st_sh st1) Ht Hq w st1 Hw eq_refl Hi') as (Ht' & Hi'' & Ho'' & Hq').
  split_and!; [by etrans|done|by eapply own_trans|done].
Qed.

Lemma ok_bindR {A B} s (m : M (Res A)) (k : A → M (Res B))
    (Q' : Res A → Shared → Prop) (Q : Res B → Shared → Prop) :
  ok P s m Q' →
  (∀ a s1, T s s1 → Q' (Ok a) s1 → ok P s1 (k a) Q) →
  (∀ e s1, T s s1 → Q' (Err e) s1 → Q (Err e) s1) →
  ok P s (bindR m k) Q.
Proof.
  intros Hm Hk He. unfold bindR. eapply ok_bind; [exact Hm|].
  intros [a|e] s1 H01 Hq; [by apply Hk|]. apply ok_ret. auto.
Qed.

Lemma ok_mapErr {A} s f (m : M (Res A)) (Q' Q : Res A → Shared → Prop) :
  ok P s m Q' →
  (∀ a s1, T s s1 → Q' (Ok a) s1 → Q (Ok a) s1) →
  (∀ e s1, T s s1 → Q' (Err e) s1 → Q (Err (f e)) s1) → ok P s (mapErr f m) Q.
Proof.
  intros Hm Ha Hf. unfold mapErr. eapply ok_bind; [exact Hm|].
  intros [a|e] s1 H01 Hq; apply ok_ret; auto.
Qed.

(** The same postcondition on success, none on failure. *)
Lemma ok_mapErrQ {A} s f (m : M (Res A)) (Q : Res A → Shared → Prop) :
  ok P s m Q → (∀ e s1, Q (Err e) s1) → ok P s (mapErr f m) Q.
Proof. intros Hm He. eapply ok_mapErr; [exact Hm|auto..]. Qed.

Lemma ok_ask {A} s (f : World → nat → A) (Q : A → Shared → Prop) :
  (∀ w n, worlds P w → Q (f w n) s) → ok P s (ask f) Q.
Proof.
  intros H w st [Hw _] <- Hi. simpl. split_and!; auto; [reflexivity|by apply own_none].
Qed.

(** A read sees one later state, or fails. *)
Lemma ok_read {A} s report (f : DB → Res A) (Q : Res A → Shared → Prop) :
  (∀ s1, T s s1 → I s1 → Q (f (sh_db s1)) s1) →
  (∀ e s1, T s s1 → I s1 → Q (Err e) s1) →
  ok P s (read report f) Q.
Proof.
  intros Hok Herr w st [_ Hw] <- Hi. unfold read.
  destruct (Hw (st_tick st) (st_sh st) Hi) as [H1%sound_sub H2].
  destruct (w_fault w (st_tick st)); cbn [fst snd st_sh]; split_and!; auto; by apply own_none.
Qed.

Lemma ok_query {A} s (f : DB → A) (Q : Res A → Shared → Prop) :
  (∀ s1, T s s1 → I s1 → Q (Ok (f (sh_db s1))) s1) →
  (∀ e s1, T s s1 → I s1 → Q (Err e) s1) →
  ok P s (query f) Q.
Proof. apply (ok_read s Classify (λ db, Ok (f db))). Qed.

Lemma ok_query_row {A} s (f : DB → option A) (Q : Res A → Shared → Prop) :
  (∀ s1 a, T s s1 → I s1 → f (sh_db s1) = Some a → Q (Ok a) s1) →
  (∀ e s1, T s s1 → I s1 → Q (Err e) s1) →
  ok P s (query_row f) Q.
Proof.
  intros Hok Herr. unfold query_row. apply ok_read; [|done]. intros s1 H1 Hi.
  destruct (f (sh_db s1)) eqn:E; auto.
Qed.

(** A write must be a step of the guarantee wherever it is applied. *)
Lemma ok_exec s tbl (f : DB → option (Z * DB)) (Q : Res Z → Shared → Prop) :
  (∀ s1 k db', T s s1 → I s1 → f (sh_db s1) = Some (k, db') →
     T s1 (set_db s1 db') ∧ I (set_db s1 db') ∧
     Q (Ok k) (set_db s1 db') ∧ ∀ e, Q (Err e) (set_db s1 db')) →
  (∀ e s1, T s s1 → I s1 → Q (Err e) s1) →
  ok P s (exec tbl f) Q.
Proof.
  intros Hok Herr w st [_ Hw] <- Hi. unfold exec.
  destruct (Hw (st_tick st) (st_sh st) Hi) as [H1%sound_sub H2].
  destruct (f (sh_db (w_env w (st_tick st) (st_sh st)))) as [[k db']|] eqn:E.
  - destruct (Hok _ k db' H1 H2 E) as (Ht & Hi' & Hq & Hm).
    destruct (w_fault w (st_tick st)); cbn [fst snd st_sh]; split_and!; auto;
      first [by etrans|by eapply own_one|by apply own_none].
  - destruct (w_fault w (st_tick st)); cbn [fst snd st_sh]; split_and!; auto; by apply own_none.
Qed.

Lemma ok_UpdateVersioned s tbl (f : DB → option (Z * DB)) (Q : Res unit → Shared → Prop) :
  (∀ s1 k db', T s s1 → I s1 → f (sh_db s1) = Some (k, db') →
     T s1 (set_db s1 db') ∧ I (set_db s1 db') ∧ (k ≠ 0 → Q (Ok tt) (set_db s1 db'))) →
  (∀ e s1, T s s1 → Q (Err e) s1) →
  ok P s (UpdateVersioned tbl f) Q.
Proof.
  intros Hok Herr. unfold UpdateVersioned.
  eapply (ok_bindR _ _ _
    (λ r s1, match r with Ok n => n ≠ 0 → Q (Ok tt) s1 | Err e => True end)).
  - apply ok_exec; [|done]. intros s1 k db' H1 Hi E.
    destruct (Hok s1 k db' H1 Hi E) as (? & ? & ?). auto.
  - intros n s1 H1 Hq. destruct (Z.eqb_spec n 0); apply ok_ret; auto.
  - auto.
Qed.

Lemma ok_emit s e (Q : unit → Shared → Prop) :
  (∀ s1, T s s1 → I s1 → let s2 := mkShared (sh_db s1) (sh_out s1 ++ [e]) in
     T s1 s2 ∧ I s2 ∧ Q tt s2) →
  ok P s (emit e) Q.
Proof.
  intros H w st [_ Hw] <- Hi. unfold emit.
  destruct (Hw (st_tick st) (st_sh st) Hi) as [H1%sound_sub H2].
  destruct (H _ H1 H2) as (? & ? & ?). cbn [fst snd st_sh].
  split_and!; [by etrans|done|by eapply own_one|done].
Qed.

(** ** Guarantees compose *)

Lemma guar_ret {A} (a : A) : guar P (ret a).
Proof. intros s. by apply ok_ret. Qed.

Lemma guar_bind {A B} (m : M A) (k : A → M B) :
  guar P m → (∀ a, guar P (k a)) → guar P (bind m k).
Proof. intros Hm Hk s. eapply ok_bind; [apply Hm|]. intros a s1 _ _. apply Hk. Qed.

Lemma guar_bindR {A B} (m : M (Res A)) (k : A → M (Res B)) :
  guar P m → (∀ a, guar P (k a)) → guar P (bindR m k).
Proof. intros Hm Hk. apply guar_bind; [done|]. intros [a|e]; [done|apply guar_ret]. Qed.

Lemma guar_mapErr {A} f (m : M (Res A)) : guar P m → guar P (mapErr f m).
Proof. intros Hm. apply guar_bind; [done|]. intros. apply guar_ret. Qed.

Lemma guar_ask {A} (f : World → nat → A) : guar P (ask f).
Proof. intros s. by apply ok_ask. Qed.

Lemma guar_query {A} (f : DB → A) : guar P (query f).
Proof. intros s. by apply ok_query. Qed.

Lemma guar_query_row {A} (f : DB → option A) : guar P (query_row f).
Proof. intros s. by apply ok_query_row. Qed.

Definition step_ok (f : DB → option (Z * DB)) : Prop :=
  ∀ s k db', I s → f (sh_db s) = Some (k, db') → T s (set_db s db') ∧ I (set_db s db').

Lemma guar_exec tbl f : step_ok f → guar P (exec tbl f).
Proof.
  intros Hf s. apply ok_exec; [|done]. intros s1 k db' _ Hi E.
  destruct (Hf s1 k db' Hi E). auto.
Qed.

Lemma guar_emit e :
  (∀ s, I s → let s2 := mkShared (sh_db s) (sh_out s ++ [e]) in T s s2 ∧ I s2) → guar P (emit e).
Proof. intros H s. apply ok_emit. intros s1 _ Hi. destruct (H s1 Hi). auto. Qed.

Lemma guar_forM {A} (l : list A) body : (∀ x, guar P (body x)) → guar P (forM l body).
Proof.
  intros Hb. induction l as [|x l IH]; [apply guar_ret|]. by apply guar_bindR.
Qed.

Lemma guar_mapMR {A B} (f : A → M (Res B)) l : (∀ x, guar P (f x)) → guar P (mapMR f l).
Proof.
  intros Hf. induction l as [|x l IH]; [apply guar_ret|].
  apply guar_bindR; [done|]. intros y. apply guar_bindR; [done|]. intros. apply guar_ret.
Qed.

Lemma guar_foldM {A B} (f : B → A → M B) acc l :
  (∀ b x, guar P (f b x)) → guar P (foldM f acc l).
Proof.
  intros Hf. revert acc. induction l as [|x l IH]; intros acc; [apply guar_ret|].
  by apply guar_bind.
Qed.

End rules.

(** * Tables *)

(** Every row survives, up to [rel]. *)
Definition table_le {V} (rel : relation V) (m m' : gmap string V) : Prop :=
  ∀ k v, m !! k = Some v → ∃ v', m' !! k = Some v' ∧ rel v v'.

(** Every row is stored under its own key. *)
Definition keyed {V} (t : Table V) (m : gmap string V) : Prop :=
  ∀ k v, m !! k = Some v → tb_key t v = k.

(** The weakest relation between two versions of a row. *)
Definition same_key {V} (t : Table V) (a b : V) : Prop := tb_key t b = tb_key t a.

#[global] Instance same_key_preorder {V} (t : Table V) : PreOrder (same_key t).
Proof. split; unfold same_key; congruence. Qed.

#[global] Instance table_le_preorder {V} (rel : relation V) :
  PreOrder rel → PreOrder (table_le rel).
Proof.
  intros Hrel. split.
  - intros m k v Hv. by exists v.
  - intros m1 m2 m3 H12 H23 k v Hv. destruct (H12 k v Hv) as (v2 & H2 & R2).
    destruct (H23 k v2 H2) as (v3 & H3 & R3). exists v3. split; [done|]. by etrans.
Qed.

Lemma table_le_insert {V} (rel : relation V) `{!Reflexive rel} (m : gmap string V) k v :
  (∀ v0, m !! k = Some v0 → rel v0 v) → table_le rel m (<[k := v]> m).
Proof.
  intros Hv k' v' Hk'. destruct (decide (k = k')) as [->|Hne].
  - exists v. rewrite lookup_insert_eq. auto.
  - exists v'. rewrite lookup_insert_ne by done. auto.
Qed.

Lemma keyed_insert {V} (t : Table V) m k v : keyed t m → tb_key t v = k → keyed t (<[k := v]> m).
Proof.
  intros Hm Hk k' v'. destruct (decide (k = k')) as [->|Hne].
  - rewrite lookup_insert_eq. by intros [= <-].
  - rewrite lookup_insert_ne by done. apply Hm.
Qed.

Lemma table_le_update {V} (rel : relation V) `{!Reflexive rel} (m : gmap string V) k p g :
  (∀ v, m !! k = Some v → p v = true → rel v (g v)) →
  table_le rel m (update_row k p g m).2.
Proof.
  intros Hg. unfold update_row. destruct (m !! k) as [v|] eqn:Hk; [|intros ?; eauto].
  destruct (p v) eqn:Hp; [|intros ?; eauto]. apply table_le_insert; [done|].
  intros v0 H0. rewrite Hk in H0. injection H0 as ->. auto.
Qed.

Lemma keyed_update {V} (t : Table V) m k p g :
  (∀ v, m !! k = Some v → p v = true → tb_key t (g v) = tb_key t v) →
  keyed t m → keyed t (update_row k p g m).2.
Proof.
  intros Hg Hm. unfold update_row. destruct (m !! k) as [v|] eqn:Hk; [|done].
  destruct (p v) eqn:Hp; [|done]. apply keyed_insert; [done|]. rewrite Hg by done. by apply Hm.
Qed.

Lemma table_le_update_all {V} (rel : relation V) `{!Reflexive rel} (m : gmap string V) p g :
  (∀ v, p v = true → rel v (g v)) → table_le rel m (update_all p g m).2.
Proof.
  intros Hg k v Hv. simpl. rewrite lookup_fmap, Hv. eexists. split; [done|].
  destruct (p v) eqn:E; auto.
Qed.

Lemma keyed_update_all {V} (t : Table V) m p g :
  (∀ v, p v = true → tb_key t (g v) = tb_key t v) → keyed t m → keyed t (update_all p g m).2.
Proof.
  intros Hg Hm k v'. simpl. rewrite lookup_fmap. destruct (m !! k) as [v|] eqn:Hk; [|done].
  intros [= <-]. destruct (p v) eqn:E; [rewrite Hg by done|]; by apply Hm.
Qed.

(** ** Selections *)

Lemma elem_of_rows {V} (p : V → bool) (m : gmap string V) v :
  v ∈ List.filter p (map snd (map_to_list m)) ↔ p v = true ∧ ∃ k, m !! k = Some v.
Proof.
  rewrite list_elem_of_In, filter_In, in_map_iff. split.
  - intros [([k v'] & <- & Hin) Hp]. split; [done|]. exists k.
    by apply elem_of_map_to_list, list_elem_of_In.
  - intros [Hp [k Hk]]. split; [|done]. exists (k, v). split; [done|].
    by apply list_elem_of_In, elem_of_map_to_list.
Qed.

Lemma elem_of_select {V} (p : V → bool) leb (m : gmap string V) v :
  v ∈ select p leb m ↔ p v = true ∧ ∃ k, m !! k = Some v.
Proof. unfold select. by rewrite sort_by_perm, elem_of_rows. Qed.

Lemma select_head {V} (p : V → bool) leb (m : gmap string V) v :
  head (select p leb m) = Some v → p v = true ∧ ∃ k, m !! k = Some v.
Proof.
  intros H. apply (elem_of_select p leb). destruct (select p leb m); [done|].
  injection H as ->. left.
Qed.

(** Sorting leaves the rows in [ORDER BY] order. *)
Lemma sort_by_sorted {V} (f : V → Z) l :
  Sorted.StronglySorted (λ a b, f a ≤ f b) (sort_by (asc f) l).
Proof.
  induction l as [|x l IH]; simpl; [constructor|]. revert IH.
  generalize (sort_by (asc f) l). clear l. intros l Hl.
  induction Hl as [|y l Hl IH Hy]; simpl; [repeat constructor|].
  unfold asc at 1. destruct (Z.leb_spec (f x) (f y)) as [Hxy|Hxy].
  - constructor; [by constructor|]. constructor; [done|].
    eapply Forall_impl; [exact Hy|]. simpl. intros. lia.
  - constructor; [done|]. rewrite insert_by_perm. constructor; [lia|done].
Qed.

(** What a protocol demands of one table: replacing its contents is a step of
    the guarantee when every row moves by [rel] and stays under its key, and
    conversely every step of the guarantee moves the table by [rel]. *)
Class Tracks (P : Protocol) {V} (t : Table V) (rel : relation V) := {
  tracks_rel :: PreOrder rel;
  tracks_key : ∀ a b, rel a b → tb_key t b = tb_key t a;
  tracks_put : ∀ s m', inv P s → table_le rel (tb_get t (sh_db s)) m' → keyed t m' →
    own_step P s (set_db s (tb_put t m' (sh_db s))) ∧ inv P (set_db s (tb_put t m' (sh_db s)));
  tracks_get : ∀ s s', own_step P s s' → table_le rel (tb_get t (sh_db s)) (tb_get t (sh_db s'));
  tracks_keyed : ∀ s, inv P s → keyed t (tb_get t (sh_db s));
  tracks_get_put : ∀ m db, tb_get t (tb_put t m db) = m }.

Section tables.
Context {P : Protocol} {HP : Sound P}.
Context {V : Type} (t : Table V) (rel : relation V) {Ht : Tracks P t rel}.

Notation T := (own_step P).

Lemma guar_INSERT_UNIQUE clash v : guar P (INSERT_UNIQUE t clash v).
Proof.
  apply (guar_exec P). intros s n db' Hi.
  destruct (tb_get t (sh_db s) !! tb_key t v) eqn:Hk; [done|].
  destruct (existsb _ _); [done|]. intros [= <- <-]. apply tracks_put; [done| |].
  - apply table_le_insert; [typeclasses eauto|]. congruence.
  - apply keyed_insert; [by apply tracks_keyed|done].
Qed.

Lemma guar_INSERT v : guar P (INSERT t v).
Proof. apply guar_INSERT_UNIQUE. Qed.

Lemma update_stmt_step k p g s n db' :
  inv P s →
  (∀ v, tb_get t (sh_db s) !! k = Some v → p v = true → rel v (g v)) →
  update_stmt t k p g (sh_db s) = Some (n, db') →
  T s (set_db s db') ∧ inv P (set_db s db').
Proof.
  intros Hi Hg. unfold update_stmt.
  pose proof (table_le_update rel (tb_get t (sh_db s)) k p g Hg) as Hle.
  pose proof (keyed_update t (tb_get t (sh_db s)) k p g
    ltac:(intros; apply tracks_key; auto) (tracks_keyed s Hi)) as Hk.
  destruct (update_row k p g (tb_get t (sh_db s))) as [n' m]. intros [= <- <-].
  by apply tracks_put.
Qed.

Lemma guar_UPDATE k p g : (∀ v, p v = true → rel v (g v)) → guar P (UPDATE t k p g).
Proof. intros Hg. apply (guar_exec P). intros s n db' Hi. apply update_stmt_step; auto. Qed.

Lemma guar_UPDATE_VERSIONED k p g :
  (∀ v, p v = true → rel v (g v)) → guar P (UPDATE_VERSIONED t k p g).
Proof.
  intros Hg s. apply (ok_UpdateVersioned P); [|done]. intros s1 n db' _ Hi E.
  destruct (update_stmt_step k p g s1 n db' Hi ltac:(auto) E). auto.
Qed.

Lemma guar_UPDATE_ALL p g : (∀ v, p v = true → rel v (g v)) → guar P (UPDATE_ALL t p g).
Proof.
  intros Hg. apply (guar_exec P). intros s n db' Hi.
  pose proof (table_le_update_all rel (tb_get t (sh_db s)) p g Hg) as Hle.
  pose proof (keyed_update_all t (tb_get t (sh_db s)) p g
    ltac:(intros; apply tracks_key; auto) (tracks_keyed s Hi)) as Hk.
  destruct (update_all p g (tb_get t (sh_db s))) as [n' m]. intros [= <- <-].
  by apply tracks_put.
Qed.

(** A row that was read and is still there, [rel]-later. *)
Definition seen (v : V) (s : Shared) : Prop :=
  ∃ v', tb_get t (sh_db s) !! tb_key t v = Some v' ∧ rel v v'.

Lemma seen_now s k v : inv P s → tb_get t (sh_db s) !! k = Some v → k = tb_key t v ∧ seen v s.
Proof.
  intros Hi Hv. pose proof (tracks_keyed s Hi k v Hv) as Hk. split; [done|]. exists v.
  rewrite Hk. split; [done|reflexivity].
Qed.

Lemma seen_later v s s' : T s s' → seen v s → seen v s'.
Proof.
  intros Hs (v' & Hv & Hr). destruct (tracks_get s s' Hs _ v' Hv) as (v'' & Hv' & Hr').
  exists v''. split; [done|]. by etrans.
Qed.

Lemma ok_SELECT_ROW s k p (Q : Res V → Shared → Prop) :
  (∀ s1 v, T s s1 → inv P s1 → tb_get t (sh_db s1) !! k = Some v → p v = true → Q (Ok v) s1) →
  (∀ e s1, T s s1 → Q (Err e) s1) →
  ok P s (SELECT_ROW t k p) Q.
Proof.
  intros Hok Herr. apply (ok_query_row P); [|auto..].
  intros s1 v Hs Hi. unfold find_row. destruct (_ !! k) as [v'|] eqn:Hk; [|done].
  destruct (p v') eqn:Hp; [|done]. intros [= ->]. auto.
Qed.

Lemma ok_SELECT s p leb (Q : Res (list V) → Shared → Prop) :
  (∀ s1 l, T s s1 → inv P s1 → (∀ v, v ∈ l → seen v s1 ∧ p v = true) → Q (Ok l) s1) →
  (∀ e s1, T s s1 → Q (Err e) s1) →
  ok P s (SELECT t p leb) Q.
Proof.
  intros Hok Herr. apply (ok_query P); [|auto]. intros s1 Hs Hi. apply Hok; [done..|].
  intros v Hv. apply elem_of_select in Hv as [Hp [k Hk]]. split; [|done]. by eapply seen_now.
Qed.

(** An optimistic update: the row it overwrites still satisfies the guard. *)
Lemma ok_UPDATE_VERSIONED s k p g (Q : Res unit → Shared → Prop) :
  (∀ s1 v, T s s1 → inv P s1 → tb_get t (sh_db s1) !! k = Some v → p v = true →
     rel v (g v) ∧
     (∀ s2, tb_get t (sh_db s2) = <[k := g v]> (tb_get t (sh_db s1)) → T s1 s2 → inv P s2 →
        Q (Ok tt) s2)) →
  (∀ e s1, T s s1 → Q (Err e) s1) →
  ok P s (UPDATE_VERSIONED t k p g) Q.
Proof.
  intros Hok Herr. apply (ok_UpdateVersioned P); [|done]. intros s1 n db' Hs Hi E.
  destruct (update_stmt_step k p g s1 n db' Hi) as [Hstep Hi']; [|exact E|].
  { intros v Hv Hp. by apply (Hok s1 v). }
  split; [done|]. split; [done|]. intros Hn. unfold update_stmt, update_row in E.
  destruct (tb_get t (sh_db s1) !! k) as [v|] eqn:Hk; [|naive_solver].
  destruct (p v) eqn:Hp; [|naive_solver]. injection E as <- <-.
  apply (Hok s1 v Hs Hi Hk Hp); [|done..]. simpl. by rewrite tracks_get_put.
Qed.

Lemma ok_UPDATE s k p g :
  (∀ s1 v, T s s1 → inv P s1 → tb_get t (sh_db s1) !! k = Some v → p v = true → rel v (g v)) →
  ok P s (UPDATE t k p g) (λ _ _, True).
Proof.
  intros Hok. apply (ok_exec P); [|auto]. intros s1 n db' Hs Hi E.
  destruct (update_stmt_step k p g s1 n db' Hi) as [Hstep Hi']; [|exact E|auto].
  intros v Hv Hp. by apply (Hok s1 v).
Qed.

End tables.

Arguments seen {V} t rel v s.

(** * Any environment at all *)

Definition anyP : Protocol := mkProtocol (λ _, True) (λ _, True) (λ _ _, True) (λ _ _, True).

#[global] Instance anyP_sound : Sound anyP.
Proof. split; [split|]; done. Qed.

(** Evaluates one run in an arbitrary world. *)
Lemma ok_run {A} (m : M A) (Q : A → Shared → Prop) :
  (∀ s, ok anyP s m Q) → ∀ w st, Q (m w st).1 (st_sh (m w st).2).
Proof. intros H w st. by apply (H (st_sh st) w st). Qed.

(** Unfolds one layer of a composite operation and applies the composition
    lemmas; leaves the statements that need an argument of their own. *)
Ltac guar_step :=
  lazymatch goal with
  | |- guar ?P (ret _) => apply (guar_ret P)
  | |- guar ?P (fail _) => apply (guar_ret P)
  | |- guar ?P (ok_ _) => apply (guar_ret P)
  | |- guar ?P (ask _) => apply (guar_ask P)
  | |- guar ?P unix => apply (guar_ask P)
  | |- guar ?P newID => apply (guar_ask P)
  | |- guar ?P (query _) => apply (guar_query P)
  | |- guar ?P (query_row _) => apply (guar_query_row P)
  | |- guar ?P (SELECT _ _ _) => apply (guar_query P)
  | |- guar ?P (SELECT_ROW _ _ _) => apply (guar_query_row P)
  | |- guar ?P (SELECT_FIRST _ _ _) => apply (guar_query_row P)
  | |- guar ?P (COUNT _ _) => apply (guar_query P)
  | |- guar ?P (INSERT _ _) => eapply guar_INSERT; typeclasses eauto
  | |- guar ?P (INSERT_UNIQUE _ _ _) => eapply guar_INSERT_UNIQUE; typeclasses eauto
  | |- guar ?P (UPDATE _ _ _ _) => eapply (guar_UPDATE _ _); intros ? ?
  | |- guar ?P (UPDATE_VERSIONED _ _ _ _) => eapply (guar_UPDATE_VERSIONED _ _); intros ? ?
  | |- guar ?P (UPDATE_ALL _ _ _) => eapply (guar_UPDATE_ALL _ _); intros ? ?
  | |- guar ?P (bind _ _) => apply (guar_bind P); [|intros ?]
  | |- guar ?P (bindR _ _) => apply (guar_bindR P); [|intros ?]
  | |- guar ?P (mapErr _ _) => apply (guar_mapErr P)
  | |- guar ?P (forM _ _) => apply (guar_forM P); intros ?
  | |- guar ?P (mapMR _ _) => apply (guar_mapMR P); intros ?
  | |- guar ?P (foldM _ _ _) => apply (guar_foldM P); intros ? ?
  | |- guar _ (if ?b then _ else _) => destruct b
  | |- guar _ (match ?x with _ => _ end) => destruct x
  | |- guar _ (let '_ := ?x in _) => destruct x
  | |- same_key _ _ _ => unfold same_key; simpl; reflexivity
  | |- guar _ _ => solve [eauto with okdb nocore]
  | |- _ => solve [auto with reldb nocore]
  end.

(** The guarantee of an operation that writes no versioned row. *)
Ltac guar_all := cbv zeta; repeat guar_step.

(** Carries what has been seen past the last step. *)
Ltac ok_push :=
  repeat match goal with
  | Hs : own_step ?P ?s ?s1, Hv : seen ?t ?rel ?v ?s |- _ =>
      apply (seen_later (P := P) t rel v s s1 Hs) in Hv
  end.

Ltac ok_guar :=
  lazymatch goal with
  | |- ok ?P ?s ?m _ =>
      let H := fresh in assert (guar P m) as H by (solve [guar_all]); exact (H s)
  end.

(** One step of an operation whose own postcondition is not needed. *)
Ltac ok_skip :=
  cbv zeta;
  lazymatch goal with
  | |- ok ?P ?s (bind ?m ?k) _ =>
      apply (ok_bind P s m k (λ _ _, True)); [ok_guar|intros ? ? ? _; ok_push]
  | |- ok ?P ?s (bindR ?m ?k) _ =>
      apply (ok_bindR P s m k (λ _ _, True)); [ok_guar|intros ? ? ? _; ok_push|solve [intros; simpl; auto]]
  | |- ok ?P ?s (if ?b then _ else _) _ => destruct b eqn:?
  | |- ok ?P ?s (fail _) _ => apply (ok_ret P); solve [intros; simpl; auto]
  | |- ok ?P ?s (ret _) _ => apply (ok_ret P); solve [intros; simpl; auto]
  | |- ok ?P ?s (ok_ _) _ => apply (ok_ret P); solve [intros; simpl; auto]
  end.

(** The rest of an operation needs nothing more than its guarantee. *)
Ltac ok_rest :=
  cbv zeta;
  ok_guar.
