(* ===== verification/Guarantee.v ===== *)
(** What every billing operation guarantees to every other.

    [G s s'] relates two moments of the store: invoices move only along the
    invoice machine with a growing version, their paid and credited totals never
    fall, and once past draft their figures never change; subscriptions move only
    along the lifecycle (plus the withdrawal of a cancellation); the audit trail
    and the lifecycle log only grow; credit notes and refunds are never rewritten;
    document counters never go back; payment attempts keep their identity.  Each
    operation is shown to stay within [G] against any environment that does. *)
From stdpp Require Import prelude strings list gmap relations.
From Stdlib Require Import ZArith Lia.
From S2P Require Import Prelude Errors States Models Store Logic.

(** * Invoices *)

Definition inv_ident (i : Invoice) :=
  (i_ID i, i_TenantID i, i_AccountID i, i_SubscriptionID i, i_Currency i, i_PeriodStart i,
   i_PeriodEnd i, i_CreatedAt i).

(** The figures an issued invoice must keep. *)
Definition inv_figures (i : Invoice) :=
  (i_Number i, i_SubtotalMinor i, i_DiscountMinor i, i_TaxMinor i, i_TotalMinor i, i_TaxRateBPS i,
   i_TaxKind i, i_TaxJurisdiction i, i_ReverseCharge i, i_IssuedAt i, i_DueAt i,
   i_BuyerSnapshot i, i_Notes i).

(** The stored part of an invoice value. *)
Definition inv_row (i : Invoice) : Invoice := i {{ i_Lines := [] }}.

Definition inv_moved (a b : Invoice) : Prop :=
  i_Version a < i_Version b ∧ inv_ident b = inv_ident a ∧
  rtc inv_moves (i_State a) (i_State b) ∧
  i_PaidMinor a ≤ i_PaidMinor b ∧ i_CreditedMinor a ≤ i_CreditedMinor b ∧
  (InvoiceFrozen (i_State a) = true → inv_figures b = inv_figures a).

Definition inv_later (a b : Invoice) : Prop := inv_row b = inv_row a ∨ inv_moved a b.

Lemma inv_row_eq a b : inv_row a = inv_row b →
  i_Version a = i_Version b ∧ inv_ident a = inv_ident b ∧ inv_figures a = inv_figures b ∧
  i_State a = i_State b ∧ i_PaidMinor a = i_PaidMinor b ∧ i_CreditedMinor a = i_CreditedMinor b.
Proof. destruct a, b. unfold inv_row. simpl. intros [= ]. by subst. Qed.

Lemma frozen_rtc s s' : rtc inv_moves s s' → InvoiceFrozen s = true → InvoiceFrozen s' = true.
Proof.
  induction 1 as [|x y z Hxy _ IH]; [done|]. intros _. apply IH.
  by eapply CanTransitionInvoice_frozen.
Qed.

#[global] Instance inv_later_preorder : PreOrder inv_later.
Proof.
  split; [by left|]. intros a b c [Hab|Hab] [Hbc|Hbc].
  - left. congruence.
  - right. apply inv_row_eq in Hab as (E1 & E2 & E3 & E4 & E5 & E6). unfold inv_moved in *.
    by rewrite <-E1, <-E2, <-E3, <-E4, <-E5, <-E6.
  - right. apply inv_row_eq in Hbc as (E1 & E2 & E3 & E4 & E5 & E6). unfold inv_moved in *.
    by rewrite E1, E2, E3, E4, E5, E6.
  - right. destruct Hab as (? & ? & Hr & ? & ? & Hf), Hbc as (? & ? & Hr' & ? & ? & Hf').
    split; [lia|]. split; [congruence|]. split; [by etrans|]. split; [lia|]. split; [lia|].
    intros Hfr. rewrite Hf' by (by eapply frozen_rtc). auto.
Qed.

(** A row seen at some version and found again at that version is unchanged. *)
Lemma inv_same_version a b : inv_later a b → i_Version b = i_Version a → inv_row b = inv_row a.
Proof. intros [?|[? _]]; [done|lia]. Qed.

(** * Subscriptions *)

(** The edges the service takes: the lifecycle's own, and the withdrawal of a
    cancellation in [Resume]. *)
Inductive svc_move : relation string :=
| svc_event a b ev : NextSubscriptionState a ev = Ok b → svc_move a b
| svc_withdraw : svc_move StateCancelled StateActive.

Definition sub_ident (s : Subscription) :=
  (s_ID s, s_TenantID s, s_AccountID s, s_Currency s, s_Quantity s, s_CreatedAt s).

(** Everything a write without a version check leaves alone. *)
Definition sub_core (s : Subscription) : Subscription :=
  s {{ s_GraceEndsAt := 0; s_UpdatedAt := 0 }}.

Definition ended (s : Subscription) : Prop :=
  s_EndedAt s ≠ 0 ∧ (s_State s = StateCancelled ∨ s_State s = StateExpired).

Definition sub_later (a b : Subscription) : Prop :=
  sub_ident b = sub_ident a ∧ s_Version a ≤ s_Version b ∧
  (s_Version b = s_Version a → sub_core b = sub_core a) ∧
  rtc svc_move (s_State a) (s_State b) ∧ (ended a → ended b).

#[global] Instance sub_later_preorder : PreOrder sub_later.
Proof.
  split; [by intros a; split_and!|].
  intros a b c (I1 & V1 & C1 & M1 & E1) (I2 & V2 & C2 & M2 & E2).
  split; [congruence|]. split; [lia|]. split; [|split; [by etrans|auto]].
  intros E. rewrite C2, C1 by lia. done.
Qed.

Lemma sub_core_eq a b : sub_core a = sub_core b →
  s_State a = s_State b ∧ s_EndedAt a = s_EndedAt b ∧ s_PeriodEnd a = s_PeriodEnd b ∧
  s_Cycle a = s_Cycle b.
Proof. destruct a, b. unfold sub_core. simpl. intros [= ]. by subst. Qed.

(** * The other tables *)

Definition acc_later (a b : Account) : Prop := a_ID b = a_ID a ∧ a_TenantID b = a_TenantID a.

(** Only the tax rate of a line is ever rewritten. *)
Definition line_core (l : InvoiceLine) : InvoiceLine := l {{ l_TaxRateBPS := 0 }}.
Definition line_later (a b : InvoiceLine) : Prop := line_core b = line_core a.

Definition attempt_ident (a : PaymentAttempt) :=
  (pa_ID a, pa_TenantID a, pa_AccountID a, pa_InvoiceID a, pa_MethodID a, pa_Provider a,
   pa_IdempotencyKey a, pa_AmountMinor a, pa_Currency a, pa_AttemptNumber a, pa_AttemptedAt a).
Definition attempt_later (a b : PaymentAttempt) : Prop := attempt_ident b = attempt_ident a.

Definition method_later (a b : PaymentMethod) : Prop :=
  pm_ID b = pm_ID a ∧ pm_TenantID b = pm_TenantID a ∧ pm_Provider b = pm_Provider a.

Definition webhook_later (a b : WebhookEvent) : Prop :=
  wh_ID b = wh_ID a ∧ wh_Provider b = wh_Provider a ∧ wh_EventID b = wh_EventID a.

Definition provider_later (a b : ProviderRecord) : Prop :=
  pr_Name b = pr_Name a ∧ pr_Version a ≤ pr_Version b.

Definition plan_later (a b : Plan) : Prop := p_ID b = p_ID a ∧ p_Code b = p_Code a.


#[global] Instance acc_later_preorder : PreOrder acc_later.
Proof. split; [done|]. intros a b c [] []. split; congruence. Qed.
#[global] Instance line_later_preorder : PreOrder line_later.
Proof. split; [done|]. unfold line_later. intros a b c. congruence. Qed.
#[global] Instance attempt_later_preorder : PreOrder attempt_later.
Proof. split; [done|]. unfold attempt_later. intros a b c. congruence. Qed.
#[global] Instance method_later_preorder : PreOrder method_later.
Proof. split; [done|]. intros a b c (? & ? & ?) (? & ? & ?). repeat split; congruence. Qed.
#[global] Instance webhook_later_preorder : PreOrder webhook_later.
Proof. split; [done|]. intros a b c (? & ? & ?) (? & ? & ?). repeat split; congruence. Qed.
#[global] Instance provider_later_preorder : PreOrder provider_later.
Proof. split; [done|]. intros a b c [] []. split; [congruence|lia]. Qed.
#[global] Instance plan_later_preorder : PreOrder plan_later.
Proof. split; [done|]. intros a b c [] []. split; congruence. Qed.


(** * The guarantee *)

Record G (s s' : Shared) : Prop := mkG {
  g_accounts : table_le acc_later (t_accounts (sh_db s)) (t_accounts (sh_db s'));
  g_plans : table_le plan_later (t_plans (sh_db s)) (t_plans (sh_db s'));
  g_quotas : table_le (same_key billing_plan_quotas) (t_quotas (sh_db s)) (t_quotas (sh_db s'));
  g_overrides : table_le eq (t_overrides (sh_db s)) (t_overrides (sh_db s'));
  g_subs : table_le sub_later (t_subs (sh_db s)) (t_subs (sh_db s'));
  g_events : t_events (sh_db s) `prefix_of` t_events (sh_db s');
  g_meters : table_le (same_key billing_usage_meters) (t_meters (sh_db s)) (t_meters (sh_db s'));
  g_usage : table_le (same_key billing_usage_records) (t_usage (sh_db s)) (t_usage (sh_db s'));
  g_rollups : table_le (same_key billing_usage_rollups) (t_rollups (sh_db s)) (t_rollups (sh_db s'));
  g_invoices : table_le inv_later (t_invoices (sh_db s)) (t_invoices (sh_db s'));
  g_lines : table_le line_later (t_lines (sh_db s)) (t_lines (sh_db s'));
  g_credits : table_le eq (t_credits (sh_db s)) (t_credits (sh_db s'));
  g_sequences : table_le (same_key billing_document_sequences) (t_sequences (sh_db s)) (t_sequences (sh_db s'));
  g_providers : table_le provider_later (t_providers (sh_db s)) (t_providers (sh_db s'));
  g_methods : table_le method_later (t_methods (sh_db s)) (t_methods (sh_db s'));
  g_attempts : table_le attempt_later (t_attempts (sh_db s)) (t_attempts (sh_db s'));
  g_refunds : table_le eq (t_refunds (sh_db s)) (t_refunds (sh_db s'));
  g_webhooks : table_le webhook_later (t_webhooks (sh_db s)) (t_webhooks (sh_db s'));
  g_dunning : table_le (same_key billing_dunning) (t_dunning (sh_db s)) (t_dunning (sh_db s'));
  g_audit : t_audit (sh_db s) `prefix_of` t_audit (sh_db s');
  g_taxrates : table_le (same_key billing_tax_rates) (t_taxrates (sh_db s)) (t_taxrates (sh_db s'));
  g_settings : table_le (same_key billing_settings) (t_settings (sh_db s)) (t_settings (sh_db s'));
  g_out : sh_out s `prefix_of` sh_out s' }.

#[global] Instance G_preorder : PreOrder G.
Proof.
  split.
  - intros s. constructor; done.
  - intros a b c [] []. constructor; by etrans.
Qed.

(** Every table is keyed by its key column. *)
Record wf (s : Shared) : Prop := mkWf {
  wf_accounts : keyed billing_accounts (t_accounts (sh_db s));
  wf_plans : keyed billing_plans (t_plans (sh_db s));
  wf_quotas : keyed billing_plan_quotas (t_quotas (sh_db s));
  wf_overrides : keyed billing_quota_overrides (t_overrides (sh_db s));
  wf_subs : keyed billing_subscriptions (t_subs (sh_db s));
  wf_meters : keyed billing_usage_meters (t_meters (sh_db s));
  wf_usage : keyed billing_usage_records (t_usage (sh_db s));
  wf_rollups : keyed billing_usage_rollups (t_rollups (sh_db s));
  wf_invoices : keyed billing_invoices (t_invoices (sh_db s));
  wf_lines : keyed billing_invoice_lines (t_lines (sh_db s));
  wf_credits : keyed billing_credit_notes (t_credits (sh_db s));
  wf_sequences : keyed billing_document_sequences (t_sequences (sh_db s));
  wf_providers : keyed billing_providers (t_providers (sh_db s));
  wf_methods : keyed billing_payment_methods (t_methods (sh_db s));
  wf_attempts : keyed billing_payment_attempts (t_attempts (sh_db s));
  wf_refunds : keyed billing_refunds (t_refunds (sh_db s));
  wf_webhooks : keyed billing_webhook_events (t_webhooks (sh_db s));
  wf_dunning : keyed billing_dunning (t_dunning (sh_db s));
  wf_taxrates : keyed billing_tax_rates (t_taxrates (sh_db s));
  wf_settings : keyed billing_settings (t_settings (sh_db s)) }.

(** Every session promises [G] and relies on [G] of the others. *)
Definition billing : Protocol := mkProtocol (λ _, True) wf G G.

#[global] Instance billing_sound : Sound billing.
Proof. split; [typeclasses eauto|done]. Qed.

Lemma inv_later_key a b : inv_later a b → i_ID b = i_ID a.
Proof.
  intros [H|(_ & H & _)]; [apply inv_row_eq in H as (_ & H & _)|]; unfold inv_ident in H;
    by injection H.
Qed.

Lemma sub_later_key a b : sub_later a b → s_ID b = s_ID a.
Proof. intros (H & _). unfold sub_ident in H. by injection H. Qed.

Lemma line_later_key a b : line_later a b → l_ID b = l_ID a.
Proof. unfold line_later, line_core. destruct a, b. simpl. intros H. by injection H. Qed.

Lemma attempt_later_key a b : attempt_later a b → pa_ID b = pa_ID a.
Proof. unfold attempt_later, attempt_ident. intros H. by injection H. Qed.

Create HintDb keydb.
#[global] Hint Resolve inv_later_key sub_later_key line_later_key attempt_later_key : keydb.

Ltac tracks :=
  split;
  [ typeclasses eauto
  | unfold same_key; simpl; first [intros a b H; exact H | intros a b H; exact (proj1 H)
      | intros a b H; exact (proj2 H) | by intros a b -> | auto with keydb]
  | intros s m' Hw Hm Hk; split;
    [constructor; simpl; (exact Hm || reflexivity)
    |destruct Hw; constructor; simpl; (exact Hk || assumption)]
  | by intros s s' []
  | by intros s []
  | done ].

#[global] Instance tracks_accounts : Tracks billing billing_accounts acc_later.
Proof. tracks. Qed.
#[global] Instance tracks_plans : Tracks billing billing_plans plan_later.
Proof. tracks. Qed.
#[global] Instance tracks_quotas : Tracks billing billing_plan_quotas (same_key billing_plan_quotas).
Proof. tracks. Qed.
#[global] Instance tracks_overrides : Tracks billing billing_quota_overrides eq.
Proof. tracks. Qed.
#[global] Instance tracks_subs : Tracks billing billing_subscriptions sub_later.
Proof. tracks. Qed.
#[global] Instance tracks_meters : Tracks billing billing_usage_meters (same_key billing_usage_meters).
Proof. tracks. Qed.
#[global] Instance tracks_usage : Tracks billing billing_usage_records (same_key billing_usage_records).
Proof. tracks. Qed.
#[global] Instance tracks_rollups : Tracks billing billing_usage_rollups (same_key billing_usage_rollups).
Proof. tracks. Qed.
#[global] Instance tracks_invoices : Tracks billing billing_invoices inv_later.
Proof. tracks. Qed.
#[global] Instance tracks_lines : Tracks billing billing_invoice_lines line_later.
Proof. tracks. Qed.
#[global] Instance tracks_credits : Tracks billing billing_credit_notes eq.
Proof. tracks. Qed.
#[global] Instance tracks_sequences : Tracks billing billing_document_sequences (same_key billing_document_sequences).
Proof. tracks. Qed.
#[global] Instance tracks_providers : Tracks billing billing_providers provider_later.
Proof. tracks. Qed.
#[global] Instance tracks_methods : Tracks billing billing_payment_methods method_later.
Proof. tracks. Qed.
#[global] Instance tracks_attempts : Tracks billing billing_payment_attempts attempt_later.
Proof. tracks. Qed.
#[global] Instance tracks_refunds : Tracks billing billing_refunds eq.
Proof. tracks. Qed.
#[global] Instance tracks_webhooks : Tracks billing billing_webhook_events webhook_later.
Proof. tracks. Qed.
#[global] Instance tracks_dunning : Tracks billing billing_dunning (same_key billing_dunning).
Proof. tracks. Qed.
#[global] Instance tracks_taxrates : Tracks billing billing_tax_rates (same_key billing_tax_rates).
Proof. tracks. Qed.
#[global] Instance tracks_settings : Tracks billing billing_settings (same_key billing_settings).
Proof. tracks. Qed.

(** * The interface of the components

    What an operation that charges no card needs of a protocol: that it admits
    the moves of each table, the growth of the two logs, and every effect but a
    charge.  The guarantee of each operation is proved once, for every protocol
    that accepts it. *)

Definition is_charge (e : Effect) : bool := match e with FCharge _ _ => true | _ => false end.

Class Accepts (P : Protocol) := {
  acc_sound :: Sound P;
  acc_accounts :: Tracks P billing_accounts acc_later;
  acc_plans :: Tracks P billing_plans plan_later;
  acc_quotas :: Tracks P billing_plan_quotas (same_key billing_plan_quotas);
  acc_overrides :: Tracks P billing_quota_overrides eq;
  acc_subs :: Tracks P billing_subscriptions sub_later;
  acc_meters :: Tracks P billing_usage_meters (same_key billing_usage_meters);
  acc_usage :: Tracks P billing_usage_records (same_key billing_usage_records);
  acc_rollups :: Tracks P billing_usage_rollups (same_key billing_usage_rollups);
  acc_invoices :: Tracks P billing_invoices inv_later;
  acc_lines :: Tracks P billing_invoice_lines line_later;
  acc_credits :: Tracks P billing_credit_notes eq;
  acc_sequences :: Tracks P billing_document_sequences (same_key billing_document_sequences);
  acc_providers :: Tracks P billing_providers provider_later;
  acc_methods :: Tracks P billing_payment_methods method_later;
  acc_refunds :: Tracks P billing_refunds eq;
  acc_webhooks :: Tracks P billing_webhook_events webhook_later;
  acc_dunning :: Tracks P billing_dunning (same_key billing_dunning);
  acc_taxrates :: Tracks P billing_tax_rates (same_key billing_tax_rates);
  acc_settings :: Tracks P billing_settings (same_key billing_settings);
  acc_attempt : ∀ k p g, (∀ v, p v = true → attempt_later v (g v)) →
    guar P (UPDATE billing_payment_attempts k p g);
  acc_audit : ∀ s e, inv P s →
    let s' := set_db s ((sh_db s) {{ t_audit := t_audit (sh_db s) ++ [e] }}) in
    own_step P s s' ∧ inv P s';
  acc_events : ∀ s e, inv P s →
    let s' := set_db s ((sh_db s) {{ t_events := t_events (sh_db s) ++ [e] }}) in
    own_step P s s' ∧ inv P s';
  acc_emit : ∀ e, is_charge e = false → guar P (emit e) }.

Lemma guar_emit_billing e : guar billing (emit e).
Proof.
  apply (guar_emit billing). intros s [] s2. split; constructor; simpl; try done.
  by apply prefix_app_r.
Qed.

#[global] Instance accepts_billing : Accepts billing.
Proof.
  split; try typeclasses eauto.
  - intros k p g Hg. by apply (guar_UPDATE _ attempt_later).
  - intros s e [] s'. split; constructor; simpl; try done. by apply prefix_app_r.
  - intros s e [] s'. split; constructor; simpl; try done. by apply prefix_app_r.
  - intros e _. apply guar_emit_billing.
Qed.

#[global] Hint Extern 0 (Accepts _) => typeclasses eauto : okdb.
#[global] Hint Extern 1 (guar _ (emit _)) => apply acc_emit; reflexivity : okdb.

(** Updates that touch none of the columns a relation protects. *)
#[global] Hint Extern 1 (acc_later _ _) => split; reflexivity : reldb.
#[global] Hint Extern 1 (line_later _ _) => unfold line_later, line_core; reflexivity : reldb.
#[global] Hint Extern 1 (plan_later _ _) => split; reflexivity : reldb.
#[global] Hint Extern 1 (method_later _ _) => split_and!; reflexivity : reldb.
#[global] Hint Extern 1 (webhook_later _ _) => split_and!; reflexivity : reldb.
#[global] Hint Extern 1 (attempt_later _ _) =>
  unfold attempt_later, attempt_ident; reflexivity : reldb.
#[global] Hint Extern 1 (provider_later _ _) => split; [reflexivity|apply Z.le_refl] : reldb.
