(* ===== verification/Samples.v ===== *)
(** Concrete worlds and rows on which the theorems are instantiated. *)
From stdpp Require Import prelude strings list gmap relations.
From Stdlib Require Import ZArith Lia.
From S2P Require Import Prelude GoTime Money States Errors Models Store Logic Guarantee.

(** One session alone, a clock that ticks with every step, fresh identifiers,
    no failures, the driver's own duplicate-key text, no provider. *)
Definition sample_world : World := mkWorld
  (λ n, 1700000000 + Z.of_nat n) (λ n, "id-" +:+ itoa (Z.of_nat n)) (λ _, NoFault) (λ _ s, s)
  (λ t, "UNIQUE constraint failed: " +:+ t) (λ _, None) true
  (λ s, Ok s) (λ s, s) (λ s, Ok s) (λ _ s, Ok s) (λ _, Ok ∅) (λ _, Ok "{}") ∅ (λ s, s).

Definition start (db : DB) : St := mkSt (mkShared db []) 0 [].

(** An account, and an invoice it was issued. *)
Definition sample_account : Account :=
  zeroAccount {{ a_ID := "acc-1"; a_TenantID := "acme"; a_Currency := "USD"; a_Version := 1 }}.

Definition sample_invoice : Invoice :=
  zeroInvoice {{ i_ID := "inv-1"; i_TenantID := "acme"; i_AccountID := "acc-1";
    i_Number := "INV-000001"; i_State := InvoiceIssued; i_Currency := "USD";
    i_SubtotalMinor := 2000; i_TotalMinor := 2000; i_DueAt := 1699000000; i_Version := 2 }}.

Definition sample_sub : Subscription :=
  zeroSubscription {{ s_ID := "sub-1"; s_TenantID := "acme"; s_AccountID := "acc-1";
    s_PlanID := "plan-1"; s_State := StateActive; s_Cycle := CycleMonthly; s_Currency := "USD";
    s_PriceMinor := 2000; s_Quantity := 1; s_PeriodStart := 1699000000;
    s_PeriodEnd := 1701000000; s_Version := 1 }}.

Definition sample_db : DB :=
  emptyDB {{ t_accounts := {[ "acme" := sample_account ]};
             t_invoices := {[ "inv-1" := sample_invoice ]};
             t_subs := {[ "sub-1" := sample_sub ]} }}.

Lemma keyed_empty {V} (t : Table V) : keyed t ∅.
Proof. by intros k v. Qed.

Lemma keyed_singleton {V} (t : Table V) k v : tb_key t v = k → keyed t {[ k := v ]}.
Proof. intros H k' v' Hv. apply lookup_singleton_Some in Hv as [<- <-]. done. Qed.

Lemma sample_wf : wf (mkShared sample_db []).
Proof.
  constructor; simpl; first [apply keyed_empty|by apply keyed_singleton].
Qed.

Lemma sample_rely : rely billing sample_world.
Proof. split; [done|]. intros n s Hi. by split. Qed.

(** A card provider that accepts every charge, configured and enabled, and a
    stored card of the same tenant. *)
Definition sample_charge (req : ChargeRequest) : ChargeResult :=
  mkChargeResult ("ch-" +:+ cr_IdempotencyKey req) "succeeded" (cr_AmountMinor req)
    (cr_Currency req) "" "" false "".

Definition sample_provider : Provider := mkProvider
  (mkCapabilities true true true true false true []) (λ _, None)
  (λ _ req, Ok (mkMethod (mr_Token req) "cus-1" "card" "visa" "4242" 12 2030 "US"))
  (λ _ _, None) (λ _ req, Ok (sample_charge req))
  (λ _ req, Ok (mkRefundResult "re-1" "succeeded" (rr_AmountMinor req)))
  (λ _ _, Err (Plain "unknown payment")) (λ _ _ _, Ok [])
  (λ _ _ body _, Ok (mkEvent body "payment.succeeded" "ch-1" 2000 "USD" "" 0)).

Definition sample_driver : Driver := mkDriver "card" "Card" "cards"
  [mkField "api_key" "API key" true true "" ""] [] [] (Some (λ _, Ok sample_provider)).

Definition card_world : World := mkWorld
  (w_now sample_world) (w_newid sample_world) (w_fault sample_world) (w_env sample_world)
  (w_dup sample_world) (w_counters sample_world) true (w_decode sample_world)
  (w_encode sample_world) (w_decrypt sample_world) (w_encrypt sample_world)
  (λ _, Ok {[ "api_key" := "sk_1"; "webhook_secret" := "whsec" ]}) (w_marshal sample_world)
  (Register sample_driver ∅) (w_hash sample_world).

Definition sample_record : ProviderRecord :=
  zeroProviderRecord {{ pr_Name := "card"; pr_Enabled := true; pr_State := ProviderActive;
    pr_Priority := 100; pr_CredentialsEnc := "blob"; pr_HealthState := HealthHealthy;
    pr_Version := 3 }}.

Definition sample_method : PaymentMethod :=
  zeroPaymentMethod {{ pm_ID := "pm-1"; pm_TenantID := "acme"; pm_AccountID := "acc-1";
    pm_Provider := "card"; pm_ProviderToken := "tok_1"; pm_Kind := "card";
    pm_IsDefault := true; pm_State := "active" }}.

Definition card_db : DB :=
  sample_db {{ t_providers := {[ "card" := sample_record ]};
               t_methods := {[ "pm-1" := sample_method ]} }}.

Lemma card_wf : wf (mkShared card_db []).
Proof. constructor; simpl; first [apply keyed_empty|by apply keyed_singleton]. Qed.
