(* ===== verification/Service.v ===== *)
(** The service's shared operations: settings and notifications
    ([src/src/billing/service.go]) and the audit trail
    ([src/src/billing/audit.go], with [MaskSecret] of
    [src/src/security/input.go]). *)
From stdpp Require Import prelude strings list gmap relations.
From Stdlib Require Import ZArith Lia Ascii.
From S2P Require Import Prelude GoTime Money States Errors Models Store Logic Guarantee.

(** * Settings *)

Definition SettingBaseCurrency : string := "base_currency".
Definition SettingInvoicePrefix : string := "invoice_prefix".
Definition SettingCreditPrefix : string := "credit_prefix".
Definition SettingGraceDays : string := "grace_period_days".
Definition SettingRetrySchedule : string := "retry_schedule_days".
Definition SettingProviderTimeout : string := "provider_timeout_seconds".
Definition SettingFailoverMode : string := "failover_mode".
Definition SettingTaxEnabled : string := "tax_enabled".
Definition SettingDueDays : string := "invoice_due_days".
Definition SettingBillingEnabled : string := "billing_enabled".
Definition SettingDiscrepancyThreshold : string := "reconcile_discrepancy_threshold".

Definition DefaultInvoicePrefix : string := "INV-".
Definition DefaultCreditPrefix : string := "CN-".
Definition DefaultGraceDays : Z := 7.
Definition DefaultDueDays : Z := 14.
Definition DefaultProviderTimeoutSeconds : Z := 30.
Definition DefaultFailoverMode : string := "automatic".
Definition DefaultRetryScheduleRaw : string := "1,3,5,7".
Definition FailoverManual : string := "manual".

Definition Setting (key fallback : string) : M string :=
  let* r := SELECT_ROW billing_settings key all_rows in
  ret match r with
      | Ok row => if sg_Value row =s "" then fallback else sg_Value row
      | Err _ => fallback
      end.

Definition SettingInt (key : string) (fallback : Z) : M Z :=
  let* raw := Setting key "" in
  ret (if raw =s "" then fallback
       else match ParseInt (TrimSpace raw) with Some n => n | None => fallback end).

Definition SettingBool (key : string) (fallback : bool) : M bool :=
  let* raw := Setting key "" in
  let raw := ToLower (TrimSpace raw) in
  ret (if mem raw ["1"; "true"; "yes"; "on"] then true
       else if mem raw ["0"; "false"; "no"; "off"] then false
       else fallback).

Definition isSecretSettingKey (key : string) : bool :=
  contains_any (ToLower key) ["secret"; "password"; "token"; "api_key"; "apikey"; "private"].

Definition SetSetting (key value actor : string) : M (Res unit) :=
  let key := TrimSpace key in
  if key =s "" then fail (ErrValidation "billing: a setting key is required")
  else if isSecretSettingKey key then
    fail (ErrValidation
      "billing: secrets are not stored in settings; configure them on the provider")
  else
    let* now := unix in
    let? n := mapErr (λ e, ErrInternal e "Could not save the billing setting.")
                (UPDATE billing_settings key all_rows (λ r, mkSettingRow (sg_Key r) value now actor)) in
    if 0 <? n then ok_ tt
    else
      let? _ := mapErr (λ e, ErrInternal e "Could not save the billing setting.")
                  (INSERT billing_settings (mkSettingRow key value now actor)) in
      ok_ tt.

Definition BaseCurrency : M string :=
  let* raw := Setting SettingBaseCurrency DefaultCurrency in
  ret match NormalizeCurrency raw with Ok code => code | Err _ => DefaultCurrency end.

Definition Enabled : M bool := SettingBool SettingBillingEnabled false.

(** Notification events ([src/src/billing/notify.go]). *)
Definition NotifyPaymentFailed : string := "billing.payment.failed".
Definition NotifyPaymentSucceeded : string := "billing.payment.succeeded".
Definition NotifyTrialEnding : string := "billing.trial.ending".
Definition NotifyRenewalUpcoming : string := "billing.renewal.upcoming".
Definition NotifySuspended : string := "billing.subscription.suspended".
Definition NotifyCancelled : string := "billing.subscription.cancelled".
Definition NotifyInvoiceIssued : string := "billing.invoice.issued".
Definition NotifyGraceStarted : string := "billing.grace.period.started".
Definition NotifyCreditIssued : string := "billing.credit.issued".
Definition NotifyRefundIssued : string := "billing.refund.issued".
Definition NotifyReconcileAlert : string := "billing.reconciliation.alert".

(** Notifications are sent only when a notifier is wired; a failed delivery
    changes nothing.  The payload map is not modelled. *)
Definition notify (tenantID event : string) : M unit :=
  let* on := ask (λ w _, w_notifier w) in
  if on : bool then emit (FNotify tenantID event) else ret tt.

(** * The audit trail *)

Definition ResultSuccess : string := "success".
Definition ResultFailure : string := "failure".
Definition ResultDenied : string := "denied".

Definition ActionAccountUpdated : string := "billing.account.updated".
Definition ActionPlanCreated : string := "billing.plan.created".
Definition ActionPlanUpdated : string := "billing.plan.updated".
Definition ActionSubscriptionCreated : string := "billing.subscription.created".
Definition ActionSubscriptionChanged : string := "billing.subscription.changed".
Definition ActionSubscriptionCancel : string := "billing.subscription.cancelled".
Definition ActionSubscriptionResumed : string := "billing.subscription.resumed".
Definition ActionInvoiceIssued : string := "billing.invoice.issued".
Definition ActionInvoicePaid : string := "billing.invoice.paid".
Definition ActionCreditNoteIssued : string := "billing.credit_note.issued".
Definition ActionPaymentAttempted : string := "billing.payment.attempted".
Definition ActionPaymentSucceeded : string := "billing.payment.succeeded".
Definition ActionPaymentFailed : string := "billing.payment.failed".
Definition ActionRefundIssued : string := "billing.refund.issued".
Definition ActionMethodAdded : string := "billing.payment_method.added".
Definition ActionMethodRemoved : string := "billing.payment_method.removed".
Definition ActionProviderConfigured : string := "billing.provider.configured".
Definition ActionProviderEnabled : string := "billing.provider.enabled".
Definition ActionProviderDisabled : string := "billing.provider.disabled".
Definition ActionProviderTested : string := "billing.provider.tested".
Definition ActionWebhookReceived : string := "billing.webhook.received".
Definition ActionWebhookRejected : string := "billing.webhook.rejected".
Definition ActionQuotaDenied : string := "billing.quota.denied".
Definition ActionQuotaOverride : string := "billing.quota.override".
Definition ActionDunningStarted : string := "billing.dunning.started".
Definition ActionDunningExhausted : string := "billing.dunning.exhausted".
Definition ActionDataExported : string := "billing.data.exported".
Definition ActionSettingChanged : string := "billing.setting.changed".
Definition ActionSubscriptionSuspended : string := "billing.subscription.suspended".
Definition ActionRenewalRun : string := "billing.renewal.run".
Definition ActionDunningRun : string := "billing.dunning.run".
Definition ActionReconciled : string := "billing.reconciliation.run".
Definition ActionReconcileMismatch : string := "billing.reconciliation.discrepancy".
Definition ActionProviderHealth : string := "billing.provider.health".
Definition ActorSystem : string := "system".
Definition ActorReconciliation : string := "reconciliation-job".

Record AuditRecord := mkAuditRecord {
  ar_TenantID : string; ar_Actor : string; ar_Action : string; ar_Target : string;
  ar_Provider : string; ar_Result : string; ar_Code : string; ar_IP : string;
  ar_Detail : string }.

Definition zeroAudit : AuditRecord := mkAuditRecord "" "" "" "" "" "" "" "" "".

(** The value that replaces a secret in masked text. *)
Definition MaskedValue : string := "xxxxx".

Fixpoint take_string (n : nat) (s : string) : string :=
  match n, s with
  | S n', String c s' => String c (take_string n' s')
  | _, _ => EmptyString
  end.

Definition MaskSecret (s : string) : string :=
  if s =s "" then ""
  else
    let i := Index s "=" in
    if 0 <? i then take_string (Z.to_nat (i + 1)) s +:+ MaskedValue
    else
      let i := Index s ": " in
      if 0 <? i then take_string (Z.to_nat (i + 2)) s +:+ MaskedValue
      else
        let i := Index s ":" in
        if 0 <? i then take_string (Z.to_nat (i + 1)) s +:+ MaskedValue
        else MaskedValue.

(** [INSERT INTO billing_audit]: the only statement on that table. *)
Definition insert_audit (entry : AuditEntry) : M (Res Z) :=
  exec "billing_audit" (λ db,
    if existsb (λ e, au_ID e =s au_ID entry) (t_audit db) then None
    else Some (1, db {{ t_audit := t_audit db ++ [entry] }})).

Definition WriteAudit (rec : AuditRecord) : M unit :=
  let actor := if ar_Actor rec =s "" then "system" else ar_Actor rec in
  let result := if ar_Result rec =s "" then ResultSuccess else ar_Result rec in
  let* id := newID in
  let* now := unix in
  let entry := mkAuditEntry id now (ar_TenantID rec) actor (ar_Action rec) (ar_Target rec)
                 (ar_Provider rec) result (ar_Code rec) (ar_IP rec) (MaskSecret (ar_Detail rec)) in
  let* _ := insert_audit entry in
  emit (FAuditLog entry).

Definition ListAudit (tenantID : string) (limit : Z) : M (Res (list AuditEntry)) :=
  let limit := if (limit <=? 0) || (500 <? limit) then 100 else limit in
  mapErr (λ e, ErrInternal e "Could not read the billing audit trail.")
    (query (λ db,
      firstn (Z.to_nat limit)
        (sort_by (desc au_OccurredAt)
           (List.filter (λ e, (tenantID =s "") || (au_TenantID e =s tenantID)) (t_audit db))))).

(** * Guarantees *)

Lemma guar_insert_audit {P} {HA : Accepts P} e : guar P (insert_audit e).
Proof.
  apply (guar_exec _). intros s n db' Hi. destruct (existsb _ _); [done|]. intros [= <- <-].
  by apply acc_audit.
Qed.

#[global] Hint Resolve guar_insert_audit : okdb.

Lemma guar_WriteAudit {P} {HA : Accepts P} rec : guar P (WriteAudit rec).
Proof. unfold WriteAudit. guar_all. Qed.

Lemma guar_Setting {P} {HA : Accepts P} key fb : guar P (Setting key fb).
Proof. unfold Setting. guar_all. Qed.

Lemma guar_notify {P} {HA : Accepts P} tenant event : guar P (notify tenant event).
Proof. unfold notify. guar_all. Qed.

#[global] Hint Resolve guar_WriteAudit guar_Setting guar_notify : okdb.

Lemma guar_SettingInt {P} {HA : Accepts P} key fb : guar P (SettingInt key fb).
Proof. unfold SettingInt. guar_all. Qed.

Lemma guar_SettingBool {P} {HA : Accepts P} key fb : guar P (SettingBool key fb).
Proof. unfold SettingBool. guar_all. Qed.

Lemma guar_BaseCurrency {P} {HA : Accepts P} : guar P BaseCurrency.
Proof. unfold BaseCurrency. guar_all. Qed.

#[global] Hint Resolve guar_SettingInt guar_SettingBool guar_BaseCurrency : okdb.

Lemma guar_Enabled {P} {HA : Accepts P} : guar P Enabled.
Proof. unfold Enabled. guar_all. Qed.

Lemma guar_SetSetting {P} {HA : Accepts P} k v a : guar P (SetSetting k v a).
Proof. unfold SetSetting. guar_all. Qed.

#[global] Hint Resolve guar_Enabled guar_SetSetting : okdb.
