(* ===== verification/Quiet.v ===== *)
(** Exact execution: one session alone, no statement failing.

    The protocol [quietP] has no interference, so the rules below compute the
    state after each statement; they give functional specifications where the
    rely/guarantee rules give safety. *)
From stdpp Require Import prelude strings list gmap relations.
From Stdlib Require Import ZArith Lia.
From S2P Require Import Prelude Errors Models Store Logic Guarantee Samples Service.

Definition quietP : Protocol :=
  mkProtocol (λ w, ∀ n, w_fault w n = NoFault) (λ _, True) eq (λ _ _, True).

#[global] Instance quietP_sound : Sound quietP.
Proof. split; [by split|done]. Qed.

Lemma sample_quiet : rely quietP sample_world.
Proof. by split. Qed.

Lemma card_quiet : rely quietP card_world.
Proof. by split. Qed.

Lemma quiet_env w n s : rely quietP w → w_env w n s = s.
Proof. intros [_ H]. destruct (H n s I) as [E _]. symmetry. exact E. Qed.

Lemma quiet_fault w n : rely quietP w → w_fault w n = NoFault.
Proof. intros [H _]. apply H. Qed.

(** From a specification to a run. *)
Lemma quiet_run {A} (m : M A) (Q : A → Shared → Prop) w st :
  ok quietP (st_sh st) m Q → rely quietP w → Q (m w st).1 (st_sh (m w st).2).
Proof. intros H Hw. by apply (H w st Hw eq_refl I). Qed.

Lemma q_bind {A B} s (m : M A) (k : A → M B) Q Q' :
  ok quietP s m Q' → (∀ a s1, Q' a s1 → ok quietP s1 (k a) Q) → ok quietP s (bind m k) Q.
Proof. intros Hm Hk. eapply (ok_bind _); [exact Hm|auto]. Qed.

Lemma q_read {A} s report (f : DB → Res A) (Q : Res A → Shared → Prop) :
  Q (f (sh_db s)) s → ok quietP s (read report f) Q.
Proof.
  intros HQ w st Hw <- _. unfold read. cbv zeta.
  rewrite (quiet_env w) by done. rewrite (quiet_fault w) by done. cbn [fst snd st_sh].
  split; [done|]. split; [done|]. split; [by apply own_none|done].
Qed.

Lemma q_query {A} s (f : DB → A) (Q : Res A → Shared → Prop) :
  Q (Ok (f (sh_db s))) s → ok quietP s (query f) Q.
Proof. apply (q_read s Classify (λ db, Ok (f db))). Qed.

Lemma q_query_row {A} s (f : DB → option A) (Q : Res A → Shared → Prop) :
  Q (match f (sh_db s) with Some a => Ok a | None => Err ENoRows end) s →
  ok quietP s (query_row f) Q.
Proof. intros HQ. by apply q_read. Qed.

Lemma q_SELECT_ROW {V} (t : Table V) s k p (Q : Res V → Shared → Prop) :
  Q (match find_row k p (tb_get t (sh_db s)) with Some v => Ok v | None => Err ENoRows end) s →
  ok quietP s (SELECT_ROW t k p) Q.
Proof. intros HQ. by apply (q_query_row s (λ db, find_row k p (tb_get t db))). Qed.

Lemma q_exec s tbl (f : DB → option (Z * DB)) (Q : Res Z → Shared → Prop) :
  match f (sh_db s) with
  | Some (k, db') => Q (Ok k) (set_db s db')
  | None => ∀ m, Q (Err (Plain m)) s
  end → ok quietP s (exec tbl f) Q.
Proof.
  intros HQ w st Hw <- _. unfold exec. cbv zeta.
  rewrite (quiet_env w) by done. rewrite (quiet_fault w) by done. destruct (f _) as [[k db']|]; cbn [fst snd st_sh];
    (split; [done|]; split; [done|]; split; [|done]); [by eapply own_one|by apply own_none].
Qed.

Lemma q_emit s e (Q : unit → Shared → Prop) :
  Q tt (mkShared (sh_db s) (sh_out s ++ [e])) → ok quietP s (emit e) Q.
Proof.
  intros HQ w st Hw <- _. unfold emit. cbv zeta.
  rewrite (quiet_env w) by done. cbn [fst snd st_sh]. split; [done|]. split; [done|]. split; [by eapply own_one|done].
Qed.

(** A versioned update of the row that is there. *)
Lemma q_UPDATE_VERSIONED {V} (t : Table V) s k v p g (Q : Res unit → Shared → Prop) :
  tb_get t (sh_db s) !! k = Some v → p v = true →
  Q (Ok tt) (set_db s (tb_put t (<[k := g v]> (tb_get t (sh_db s))) (sh_db s))) →
  ok quietP s (UPDATE_VERSIONED t k p g) Q.
Proof.
  intros Hv Hp HQ. unfold UPDATE_VERSIONED, UpdateVersioned, bindR.
  eapply q_bind; [|intros r s1 H; pattern r, s1 in H; exact H].
  apply q_exec. unfold update_stmt, update_row. rewrite Hv, Hp. by apply (ok_ret _).
Qed.

Lemma q_UPDATE {V} (t : Table V) s k v p g (Q : Res Z → Shared → Prop) :
  tb_get t (sh_db s) !! k = Some v → p v = true →
  Q (Ok 1) (set_db s (tb_put t (<[k := g v]> (tb_get t (sh_db s))) (sh_db s))) →
  ok quietP s (UPDATE t k p g) Q.
Proof. intros Hv Hp HQ. apply q_exec. unfold update_stmt, update_row. by rewrite Hv, Hp. Qed.

Lemma q_mapErr {A} s f (m : M (Res A)) (Q : Res A → Shared → Prop) :
  ok quietP s m (λ r s', Q (match r with Ok a => Ok a | Err e => Err (f e) end) s') →
  ok quietP s (mapErr f m) Q.
Proof. intros Hm. eapply q_bind; [exact Hm|]. intros r s1 H. by apply (ok_ret _). Qed.

Lemma q_bindR {A B} s (m : M (Res A)) (k : A → M (Res B)) (Q : Res B → Shared → Prop) :
  ok quietP s m (λ r s', match r with Ok a => ok quietP s' (k a) Q | Err e => Q (Err e) s' end) →
  ok quietP s (bindR m k) Q.
Proof.
  intros Hm. eapply q_bind; [exact Hm|]. intros [a|e] s1 H; [done|by apply (ok_ret _)].
Qed.

Lemma q_step {A B} s (m : M A) (k : A → M B) (Q : B → Shared → Prop) :
  ok quietP s m (λ a s', ok quietP s' (k a) Q) → ok quietP s (bind m k) Q.
Proof. intros Hm. eapply q_bind; [exact Hm|auto]. Qed.

(** Everything but the audit trail is as it was. *)
Definition same_but_audit (s s' : Shared) : Prop :=
  sh_db s' = (sh_db s) {{ t_audit := t_audit (sh_db s') }}.

#[global] Instance same_but_audit_preorder : PreOrder same_but_audit.
Proof.
  split; unfold same_but_audit.
  - intros s. by destruct (sh_db s).
  - intros a b c -> ->. by destruct (sh_db a).
Qed.

(** ** Framing: the audit trail and the notifications *)

Definition auditP : Protocol :=
  mkProtocol (λ _, True) (λ _, True) eq same_but_audit.

#[global] Instance auditP_sound : Sound auditP.
Proof. split; [typeclasses eauto|]. by intros s s' <-. Qed.

Lemma audit_emit e : guar auditP (emit e).
Proof.
  apply (guar_emit _). intros s _. split; [|done].
  change (same_but_audit s (mkShared (sh_db s) (sh_out s ++ [e]))).
  unfold same_but_audit. by destruct s as [[] ].
Qed.

Lemma audit_insert_audit e : guar auditP (insert_audit e).
Proof.
  apply (guar_exec _). intros s n db' _. destruct (existsb _ _); [done|].
  intros [= <- <-]. split; [|done].
  change (same_but_audit s (set_db s ((sh_db s) {{ t_audit := t_audit (sh_db s) ++ [e] }}))).
  unfold same_but_audit. by destruct s as [[] ].
Qed.
#[global] Hint Resolve audit_emit audit_insert_audit : okdb.

Lemma audit_WriteAudit rec : guar auditP (WriteAudit rec).
Proof. unfold WriteAudit. guar_all. Qed.

Lemma audit_notify t e : guar auditP (notify t e).
Proof. unfold notify. guar_all. Qed.

Lemma audit_Setting k f : guar auditP (Setting k f).
Proof. unfold Setting. guar_all. Qed.
#[global] Hint Resolve audit_WriteAudit audit_notify audit_Setting : okdb.

Lemma audit_SettingInt k f : guar auditP (SettingInt k f).
Proof. unfold SettingInt. guar_all. Qed.

Lemma audit_SettingBool k f : guar auditP (SettingBool k f).
Proof. unfold SettingBool. guar_all. Qed.
#[global] Hint Resolve audit_SettingInt audit_SettingBool : okdb.

(** What the frame says of a run without interference, failures included. *)
Definition alone (w : World) : Prop := ∀ n s, w_env w n s = s.

Lemma alone_audit w : alone w → rely auditP w.
Proof. intros H. split; [done|]. intros n s _. split; [by rewrite H|done]. Qed.

Lemma audit_run {A} (m : M A) w st :
  guar auditP m → alone w → same_but_audit (st_sh st) (st_sh (m w st).2).
Proof. intros Hm Hw. by apply (Hm (st_sh st) w st (alone_audit w Hw)). Qed.

(** A framed operation at the end, or inside, of an exact execution. *)
Lemma q_framed {A} s (m : M A) : guar auditP m → ok quietP s m (λ _ s', same_but_audit s s').
Proof.
  intros Hm w st Hw Hs Hi.
  destruct (Hm s w st) as (Hsame & _ & (new & E & _) & _); [|done..|].
  { apply alone_audit. intros n s1. by apply quiet_env. }
  split; [done|]. split; [done|]. split; [|done]. exists new. split; [done|].
  by apply Forall_true.
Qed.

Lemma q_audit {A B} s (m : M A) (k : A → M B) (Q : B → Shared → Prop) :
  guar auditP m → (∀ a s', same_but_audit s s' → ok quietP s' (k a) Q) →
  ok quietP s (bind m k) Q.
Proof. intros Hm Hk. eapply q_bind; [by apply q_framed|exact Hk]. Qed.

(** The frame under a further assumption on the world and a fact about the
    tables that the frame preserves. *)
Definition auditWJ (W : World → Prop) (J : Shared → Prop) : Protocol :=
  mkProtocol (λ w, alone w ∧ W w) J eq same_but_audit.

#[global] Instance auditWJ_sound W J : Sound (auditWJ W J).
Proof. split; [typeclasses eauto|]. by intros s s' <-. Qed.

Lemma audit_under {A} (W : World → Prop) (J : Shared → Prop) s (m : M A) :
  (∀ s s', same_but_audit s s' → J s → J s') → guar auditP m →
  ok (auditWJ W J) s m (λ _ _, True).
Proof.
  intros HJ Hm w st [[Hw _] _] Hs Hi.
  destruct (Hm s w st (alone_audit w Hw)) as (Hsame & _ & Ho & _); [done..|].
  split; [done|]. split; [by eapply HJ|]. by split.
Qed.

Lemma auditWJ_run {A} (W : World → Prop) (J : Shared → Prop) (m : M A) w st :
  guar (auditWJ W J) m → alone w → W w → J (st_sh st) →
  same_but_audit (st_sh st) (st_sh (m w st).2).
Proof.
  intros Hm Hw HW Hi. apply (Hm (st_sh st) w st); [|done..].
  split; [done|]. intros n s Hs. rewrite Hw. by split.
Qed.
