(* ===== verification/Tax.v ===== *)
(** Tax: [src/src/billing/tax.go]. *)
From stdpp Require Import prelude strings list gmap relations.
From Stdlib Require Import ZArith Lia Ascii.
From S2P Require Import Prelude GoTime Money States Errors Models Store Logic Guarantee Samples Service.

Definition TaxIDNone : string := "none".
Definition TaxIDUnverified : string := "unverified".
Definition TaxIDValid : string := "valid".
Definition TaxIDInvalid : string := "invalid".
Definition TaxNone : string := "none".
Definition TaxVAT : string := "vat".
Definition TaxGST : string := "gst".
Definition TaxSales : string := "sales".

Definition is_upper (c : ascii) : bool :=
  let n := Ascii.N_of_ascii c in ((65 <=? n) && (n <=? 90))%N.

Fixpoint all_chars (p : ascii → bool) (s : string) : bool :=
  match s with EmptyString => true | String c s' => p c && all_chars p s' end.

Definition upper_alnum (c : ascii) : bool := is_digit c || is_upper c.

(** [^[A-Z]{2}[0-9A-Z]{8,12}$]. *)
Definition euVATPattern (s : string) : bool :=
  match s with
  | String a (String b rest) =>
      is_upper a && is_upper b && all_chars upper_alnum rest &&
      (8 <=? slen rest) && (slen rest <=? 12)
  | _ => false
  end.

(** [^[0-9A-Z][0-9A-Z\-]{3,19}$]. *)
Definition genericTaxIDPattern (s : string) : bool :=
  match s with
  | String a rest =>
      upper_alnum a && all_chars (λ c, upper_alnum c || Ascii.eqb c "-"%char) rest &&
      (3 <=? slen rest) && (slen rest <=? 19)
  | EmptyString => false
  end.

Definition euCountries : list string :=
  ["AT"; "BE"; "BG"; "CY"; "CZ"; "DE"; "DK"; "EE"; "ES"; "FI"; "FR"; "GR"; "HR"; "HU"; "IE"; "IT";
   "LT"; "LU"; "LV"; "MT"; "NL"; "PL"; "PT"; "RO"; "SE"; "SI"; "SK"].

Definition IsEUCountry (code : string) : bool := mem (ToUpper (TrimSpace code)) euCountries.

Definition ValidTaxIDFormat (country taxID : string) : bool :=
  let id := ToUpper (ReplaceChar (TrimSpace taxID) " "%char "") in
  if id =s "" then true
  else if IsEUCountry country then euVATPattern id
  else genericTaxIDPattern id.

Record TaxResult := mkTaxResult {
  tx_Kind : string; tx_Jurisdiction : string; tx_RateBPS : Z; tx_AmountMinor : Z;
  tx_ReverseCharge : bool; tx_Note : string }.

Definition zeroTaxResult : TaxResult := mkTaxResult "" "" 0 0 false "".

Definition jurisdictionOf (rate : TaxRate) : string :=
  if tr_Region rate =s "" then tr_Country rate
  else tr_Country rate +:+ "-" +:+ tr_Region rate.

Definition find_rate (country region : string) (activeOnly : bool) : M (Res TaxRate) :=
  SELECT_FIRST billing_tax_rates
    (λ r, (tr_Country r =s country) && (tr_Region r =s region) &&
          (if activeOnly then tr_Active r else true))
    any_order.

Definition LookupTaxRate (country region : string) : M (Res TaxRate) :=
  let country := ToUpper (TrimSpace country) in
  let region := ToUpper (TrimSpace region) in
  let countrywide :=
    mapErr (λ e, if isNoRows e then ErrNotFound "tax rate"
                 else ErrInternal e "Could not read the tax rate table.") (find_rate country "" true) in
  if region =s "" then countrywide
  else
    let* r := find_rate country region true in
    match r with
    | Ok rate => ok_ rate
    | Err e =>
        if isNoRows e then countrywide
        else fail (ErrInternal e "Could not read the tax rate table.")
    end.

(** The part of [CalculateTax] after its reads: a cross-border sale between EU
    members to an identified business is reverse-charged. *)
Definition assess (account : Account) (netMinor : Z) (rate : TaxRate) (seller : string)
  : TaxResult :=
  let country := ToUpper (TrimSpace (a_Country account)) in
  let sellerCountry := ToUpper (TrimSpace seller) in
  let businessBuyer := a_IsBusiness account && negb (a_TaxID account =s "") &&
                       negb (a_TaxIDStatus account =s TaxIDInvalid) in
  let crossBorderEU := tr_ReverseChargeB2B rate && businessBuyer && IsEUCountry country &&
                       IsEUCountry sellerCountry && negb (country =s sellerCountry) in
  if crossBorderEU then
    mkTaxResult (tr_Kind rate) (jurisdictionOf rate) 0 0 true
      "Reverse charge: VAT is accounted for by the recipient."
  else
    mkTaxResult (tr_Kind rate) (jurisdictionOf rate) (tr_RateBPS rate)
      (PercentBasisPoints netMinor (tr_RateBPS rate)) false (tr_Name rate).

Definition CalculateTax (account : Account) (netMinor : Z) : M TaxResult :=
  let* enabled := SettingBool SettingTaxEnabled false in
  if negb enabled || (netMinor <=? 0) then ret (zeroTaxResult {{ tx_Kind := TaxNone }})
  else
    let country := ToUpper (TrimSpace (a_Country account)) in
    if country =s "" then
      ret (zeroTaxResult {{ tx_Kind := TaxNone; tx_Note := "No customer country on file." }})
    else
      let* rate := LookupTaxRate country (a_Region account) in
      match rate with
      | Err _ => ret (zeroTaxResult {{ tx_Kind := TaxNone; tx_Jurisdiction := country }})
      | Ok rate =>
          let* seller := Setting "seller_country" "" in
          ret (assess account netMinor rate seller)
      end.

Definition ListTaxRates : M (Res (list TaxRate)) :=
  mapErr (λ e, ErrInternal e "Could not read the tax rate table.")
    (SELECT billing_tax_rates all_rows
       (λ a b, if tr_Country a =s tr_Country b then string_leb (tr_Region a) (tr_Region b)
               else string_leb (tr_Country a) (tr_Country b))).

Definition taxRateFor (country region : string) : M (Res TaxRate) :=
  mapErr (λ e, if isNoRows e then ErrNotFound "tax rate"
               else ErrInternal e "Could not read the tax rate table.") (find_rate country region false).

(** What [SaveTaxRate] refuses. *)
Definition validateTaxRate (rate : TaxRate) : option error :=
  if negb (slen (tr_Country rate) =? 2) then
    Some (ErrValidation "The country must be a two-letter ISO 3166-1 code.")
  else if (tr_RateBPS rate <? 0) || (10000 <? tr_RateBPS rate) then
    Some (ErrValidation "The rate must be between 0 and 10000 basis points.")
  else if negb (mem (tr_Kind rate) [TaxVAT; TaxGST; TaxSales]) then
    Some (ErrValidation "The tax kind must be vat, gst or sales.")
  else None.

Definition SaveTaxRate (rate : TaxRate) (actor ip : string) : M (Res TaxRate) :=
  let rate := rate {{ tr_Country := ToUpper (TrimSpace (tr_Country rate));
                      tr_Region := ToUpper (TrimSpace (tr_Region rate)) }} in
  match validateTaxRate rate with
  | Some e => fail e
  | None =>
      let* now := unix in
      let* existing := taxRateFor (tr_Country rate) (tr_Region rate) in
      let? saved :=
        match existing with
        | Ok ex =>
            let rate := rate {{ tr_ID := tr_ID ex }} in
            let? _ := mapErr (λ e, ErrInternal e "Could not save the tax rate.")
              (UPDATE billing_tax_rates (tr_ID rate) all_rows (λ r,
                 r {{ tr_Kind := tr_Kind rate; tr_Name := tr_Name rate;
                      tr_RateBPS := tr_RateBPS rate;
                      tr_ReverseChargeB2B := tr_ReverseChargeB2B rate;
                      tr_Active := tr_Active rate; tr_UpdatedAt := now }})) in
            ok_ rate
        | Err err =>
            if isNotFound err then
              let* id := newID in
              let rate := rate {{ tr_ID := id }} in
              let? _ := mapErr (λ e, ErrInternal e "Could not save the tax rate.")
                (INSERT billing_tax_rates (rate {{ tr_UpdatedAt := now }})) in
              ok_ rate
            else fail err
        end in
      let rate := saved {{ tr_UpdatedAt := now }} in
      let* _ := WriteAudit (zeroAudit {{ ar_Actor := actor; ar_Action := ActionSettingChanged;
                  ar_Target := "tax_rate:" +:+ jurisdictionOf rate; ar_IP := ip;
                  ar_Detail := "rate_bps=" +:+ itoa (tr_RateBPS rate) }}) in
      ok_ rate
  end.

(** * Guarantees *)

Lemma guar_LookupTaxRate {P} {HA : Accepts P} c r : guar P (LookupTaxRate c r).
Proof. unfold LookupTaxRate, find_rate. guar_all. Qed.

#[global] Hint Resolve guar_LookupTaxRate : okdb.

Lemma guar_CalculateTax {P} {HA : Accepts P} a n : guar P (CalculateTax a n).
Proof. unfold CalculateTax. guar_all. Qed.

Lemma guar_SaveTaxRate {P} {HA : Accepts P} r a ip : guar P (SaveTaxRate r a ip).
Proof. unfold SaveTaxRate, taxRateFor, find_rate. guar_all. Qed.

#[global] Hint Resolve guar_CalculateTax guar_SaveTaxRate : okdb.

(** * Properties *)

(** The conditions under which the recipient accounts for the tax. *)
Definition reverse_charged (account : Account) (rate : TaxRate) (seller : string) : Prop :=
  tr_ReverseChargeB2B rate = true ∧ a_IsBusiness account = true ∧ a_TaxID account ≠ "" ∧
  a_TaxIDStatus account ≠ TaxIDInvalid ∧
  IsEUCountry (ToUpper (TrimSpace (a_Country account))) = true ∧
  IsEUCountry (ToUpper (TrimSpace seller)) = true ∧
  ToUpper (TrimSpace (a_Country account)) ≠ ToUpper (TrimSpace seller).

Lemma assess_reverse account net rate seller :
  tx_ReverseCharge (assess account net rate seller) = true ↔ reverse_charged account rate seller.
Proof.
  unfold assess, reverse_charged. case_match eqn:E; simpl.
  - split; [intros _|done]. rewrite !andb_true_iff, !negb_true_iff, !seqb_neq in E. naive_solver.
  - split; [done|]. intros H. rewrite <-!seqb_neq, <-!negb_true_iff in H.
    rewrite <-E. rewrite !andb_true_iff. naive_solver.
Qed.

Lemma ok_LookupTaxRate s country region :
  ok anyP s (LookupTaxRate country region) (λ r _,
    match r with
    | Ok rate => tr_Active rate = true ∧ tr_Country rate = ToUpper (TrimSpace country) ∧
                 (tr_Region rate = ToUpper (TrimSpace region) ∨ tr_Region rate = "")
    | Err _ => True
    end).
Proof.
  assert (∀ s c r, ok anyP s (find_rate c r true) (λ res _,
    match res with
    | Ok rate => tr_Active rate = true ∧ tr_Country rate = c ∧ tr_Region rate = r
    | Err _ => True end)) as Hf.
  { intros s' c r. apply (ok_query_row _); [|done..]. intros s1 a _ _ Hh.
    apply select_head in Hh as [Hp _]. rewrite !andb_true_iff, !seqb_eq in Hp. naive_solver. }
  unfold LookupTaxRate. cbv zeta. case_match.
  - eapply (ok_mapErr _); [apply Hf|naive_solver|done].
  - eapply (ok_bind _); [apply Hf|]. intros [rate|e] s1 _ Hr.
    + apply (ok_ret _). naive_solver.
    + destruct (isNoRows e); [|by apply (ok_ret _)].
      eapply (ok_mapErr _); [apply Hf|naive_solver|done].
Qed.

(** Tax on a net amount, in any world: either no tax at all is due, or the
    figures are those of one active stored rate of the buyer's own country
    (its region's, or the country-wide one).  The sale is reverse-charged
    exactly when the seven conditions of the cross-border rule hold, and then
    nothing is charged; otherwise, with a rate of at most 100%, the tax lies
    between zero and the net amount. *)
Theorem CalculateTax_outcome (account : Account) (net : Z) (w : World) (st : St)
    (Hnet : 0 ≤ net) (Hfits : 2 * (net * 10000) + 10000 ≤ max_int64) :
  let r := (CalculateTax account net w st).1 in
  (tx_AmountMinor r = 0 ∧ tx_RateBPS r = 0 ∧ tx_ReverseCharge r = false) ∨
  ∃ rate seller, r = assess account net rate seller ∧ tr_Active rate = true ∧
    tr_Country rate = ToUpper (TrimSpace (ToUpper (TrimSpace (a_Country account)))) ∧
    (tx_ReverseCharge r = true ↔ reverse_charged account rate seller) ∧
    (tx_ReverseCharge r = true → tx_AmountMinor r = 0 ∧ tx_RateBPS r = 0) ∧
    (0 ≤ tr_RateBPS rate ≤ 10000 → 0 ≤ tx_AmountMinor r ≤ net).
Proof.
  apply (ok_run (CalculateTax account net) (λ r _,
    (tx_AmountMinor r = 0 ∧ tx_RateBPS r = 0 ∧ tx_ReverseCharge r = false) ∨
    ∃ rate seller, r = assess account net rate seller ∧ tr_Active rate = true ∧
    tr_Country rate = ToUpper (TrimSpace (ToUpper (TrimSpace (a_Country account)))) ∧
    (tx_ReverseCharge r = true ↔ reverse_charged account rate seller) ∧
    (tx_ReverseCharge r = true → tx_AmountMinor r = 0 ∧ tx_RateBPS r = 0) ∧
    (0 ≤ tr_RateBPS rate ≤ 10000 → 0 ≤ tx_AmountMinor r ≤ net))).
  intros s. unfold CalculateTax.
  eapply (ok_bind _ _ _ _ (λ _ _, True)); [unfold SettingBool, Setting; ok_guar|]. intros enabled s1 _ _.
  destruct (negb enabled || (net <=? 0)) eqn:E; [apply (ok_ret _); by left|].
  cbv zeta. destruct (_ =s ""); [apply (ok_ret _); by left|].
  eapply (ok_bind _); [apply ok_LookupTaxRate|]. intros [rate|e] s2 _ Hr;
    [|apply (ok_ret _); by left].
  eapply (ok_bind _ _ _ _ (λ _ _, True)); [unfold Setting; ok_guar|]. intros seller s3 _ _.
  apply (ok_ret _). right. exists rate, seller.
  destruct Hr as (Ha & Hc & _). split; [done|]. split; [done|]. split; [done|].
  split; [apply assess_reverse|]. unfold assess. case_match; simpl; [by auto with lia|].
  split; [done|]. intros Hb. rewrite PercentBasisPoints_round by lia.
  apply round_half_away_le; nia.
Qed.

Definition german_vat : TaxRate :=
  zeroTaxRate {{ tr_ID := "tr-1"; tr_Country := "DE"; tr_Kind := TaxVAT; tr_Name := "VAT";
    tr_RateBPS := 1900; tr_ReverseChargeB2B := true; tr_Active := true }}.

Definition taxed_db : DB :=
  sample_db {{ t_taxrates := {[ "tr-1" := german_vat ]};
               t_settings := {[ SettingTaxEnabled := mkSettingRow SettingTaxEnabled "true" 0 "" ]} }}.

Lemma CalculateTax_outcome_witness :
  let account := zeroAccount {{ a_TenantID := "acme"; a_Country := "de" }} in
  let r := (CalculateTax account 10000 sample_world (start taxed_db)).1 in
  tx_AmountMinor r = 1900 ∧
  ∃ rate seller, r = assess account 10000 rate seller ∧ tr_Country rate = "DE".
Proof.
  intros account r. split; [vm_compute; reflexivity|].
  destruct (CalculateTax_outcome account 10000 sample_world (start taxed_db))
    as [[H _]|(rate & seller & H & _ & Hc & _)]; [lia|unfold max_int64; lia| |].
  - vm_compute in H. discriminate.
  - exists rate, seller. split; [exact H|exact Hc].
Defined.
