(* ===== verification/Accounts.v ===== *)
(** Billing profiles: [src/src/billing/accounts.go], and the reader of a stored
    payment method ([src/src/billing/payments.go]) that [SetDefaultMethod] needs. *)
From stdpp Require Import prelude strings list gmap relations.
From Stdlib Require Import ZArith Lia Ascii.
From S2P Require Import Prelude GoTime Money States Errors Models Store Logic Guarantee Samples.
From S2P Require Import Service Quiet Tax.

(** [errors.Is(err, sql.ErrNoRows)] becomes "no such record", anything else an
    internal error. *)
Definition readError (kind message : string) (e : error) : error :=
  if isNoRows e then ErrNotFound kind else ErrInternal e message.

Definition GetAccount (tenantID : string) : M (Res Account) :=
  if TrimSpace tenantID =s "" then fail (ErrValidation "billing: a tenant is required")
  else mapErr (readError "billing account" "Could not read the billing account.")
         (SELECT_ROW billing_accounts tenantID all_rows).

(** A new row takes the schema's default tax status. *)
Definition EnsureAccount (tenantID : string) : M (Res Account) :=
  let* r := GetAccount tenantID in
  match r with
  | Ok a => ok_ a
  | Err err =>
      if negb (isNotFound err) then fail err
      else
        let* now := unix in
        let* id := newID in
        let* currency := BaseCurrency in
        let a := zeroAccount {{ a_ID := id; a_TenantID := tenantID; a_Currency := currency;
                                a_CreatedAt := now; a_UpdatedAt := now; a_Version := 1 }} in
        let* res := INSERT billing_accounts (a {{ a_TaxIDStatus := TaxIDNone }}) in
        match res with
        | Ok _ => ok_ a
        | Err e =>
            if db_IsConflict e || IsAlreadyExistsError e then GetAccount tenantID
            else fail (ErrInternal e "Could not create the billing account.")
        end
  end.

Record AccountUpdate := mkAccountUpdate {
  up_Currency : string; up_BillingEmail : string; up_LegalName : string;
  up_AddressLine1 : string; up_AddressLine2 : string; up_City : string; up_Region : string;
  up_PostalCode : string; up_Country : string; up_TaxID : string; up_IsBusiness : bool;
  up_AutoRecharge : bool; up_AutoRechargeThreshold : Z; up_AutoRechargeAmountMinor : Z }.

Definition countIssuedInvoices (tenantID : string) : M (Res Z) :=
  mapErr (λ e, ErrInternal e "Could not read the tenant's invoices.")
    (COUNT billing_invoices
       (λ i, (i_TenantID i =s tenantID) && negb (i_State i =s InvoiceDraft))).

(** The currency an update ends with: it may only change before the first
    invoice is issued. *)
Definition newCurrency (tenantID : string) (current : Account) (wanted : string)
  : M (Res string) :=
  if wanted =s "" then ok_ (a_Currency current)
  else
    match NormalizeCurrency wanted with
    | Err m => fail (ErrValidation m)
    | Ok next =>
        if next =s a_Currency current then ok_ (a_Currency current)
        else
          let? issued := countIssuedInvoices tenantID in
          if 0 <? issued then
            fail (ErrConflict "The billing currency cannot change once invoices have been issued.")
          else ok_ next
    end.

Definition UpdateAccount (tenantID : string) (inp : AccountUpdate) (actor ip : string)
  : M (Res Account) :=
  let? current := EnsureAccount tenantID in
  let? currency := newCurrency tenantID current (up_Currency inp) in
  let country := ToUpper (TrimSpace (up_Country inp)) in
  if negb (country =s "") && negb (slen country =? 2) then
    fail (ErrValidation "The country must be a two-letter ISO 3166-1 code.")
  else if up_AutoRecharge inp && (up_AutoRechargeAmountMinor inp <=? 0) then
    fail (ErrValidation "Automatic top-up needs an amount greater than zero.")
  else
    let taxID := ToUpper (TrimSpace (up_TaxID inp)) in
    let changed := negb (taxID =s a_TaxID current) in
    if changed && negb (taxID =s "") && negb (ValidTaxIDFormat country taxID) then
      fail (ErrValidation ("That tax identifier is not in the expected format for " +:+
                           country +:+ "."))
    else
      let taxStatus := if changed then (if taxID =s "" then TaxIDNone else TaxIDUnverified)
                       else a_TaxIDStatus current in
      let* now := unix in
      let? _ := mapErr (λ e,
          if db_IsConflict e then
            ErrConflict "The billing profile changed while you were editing it; reload and try again."
          else ErrInternal e "Could not save the billing profile.")
        (UPDATE_VERSIONED billing_accounts tenantID (λ r, a_Version r =? a_Version current) (λ r,
           r {{ a_Currency := currency; a_BillingEmail := TrimSpace (up_BillingEmail inp);
                a_LegalName := TrimSpace (up_LegalName inp);
                a_AddressLine1 := TrimSpace (up_AddressLine1 inp);
                a_AddressLine2 := TrimSpace (up_AddressLine2 inp);
                a_City := TrimSpace (up_City inp); a_Region := TrimSpace (up_Region inp);
                a_PostalCode := TrimSpace (up_PostalCode inp); a_Country := country;
                a_TaxID := taxID; a_TaxIDStatus := taxStatus;
                a_IsBusiness := up_IsBusiness inp; a_AutoRecharge := up_AutoRecharge inp;
                a_AutoRechargeThreshold := ClampNonNegative (up_AutoRechargeThreshold inp);
                a_AutoRechargeAmountMinor := ClampNonNegative (up_AutoRechargeAmountMinor inp);
                a_UpdatedAt := now; a_Version := a_Version r + 1 }})) in
      let* _ := WriteAudit (zeroAudit {{ ar_TenantID := tenantID; ar_Actor := actor;
                  ar_Action := ActionAccountUpdated; ar_Target := "account:" +:+ a_ID current;
                  ar_IP := ip; ar_Result := ResultSuccess }}) in
      GetAccount tenantID.

Definition GetPaymentMethod (tenantID methodID : string) : M (Res PaymentMethod) :=
  if TrimSpace tenantID =s "" then fail (ErrValidation "billing: a tenant is required")
  else mapErr (readError "payment method" "Could not read the payment method.")
         (SELECT_ROW billing_payment_methods methodID (λ m, pm_TenantID m =s tenantID)).

Definition SetDefaultMethod (tenantID methodID : string) : M (Res unit) :=
  let? method := GetPaymentMethod tenantID methodID in
  let* now := unix in
  let wrap := mapErr (λ e, ErrInternal e "Could not change the default payment method.") in
  let? _ := wrap (UPDATE_ALL billing_payment_methods (λ m, pm_TenantID m =s tenantID)
                    (λ m, m {{ pm_IsDefault := false; pm_UpdatedAt := now }})) in
  let? _ := wrap (UPDATE billing_payment_methods (pm_ID method) (λ m, pm_TenantID m =s tenantID)
                    (λ m, m {{ pm_IsDefault := true; pm_UpdatedAt := now }})) in
  let? _ := wrap (UPDATE billing_accounts tenantID all_rows
                    (λ a, a {{ a_DefaultMethodID := pm_ID method; a_UpdatedAt := now }})) in
  ok_ tt.

(** * Guarantees *)

Lemma guar_GetAccount {P} {HA : Accepts P} t : guar P (GetAccount t).
Proof. unfold GetAccount. guar_all. Qed.

Lemma guar_GetPaymentMethod {P} {HA : Accepts P} t m : guar P (GetPaymentMethod t m).
Proof. unfold GetPaymentMethod. guar_all. Qed.

#[global] Hint Resolve guar_GetAccount guar_GetPaymentMethod : okdb.

Lemma guar_EnsureAccount {P} {HA : Accepts P} t : guar P (EnsureAccount t).
Proof. unfold EnsureAccount. guar_all. Qed.

#[global] Hint Resolve guar_EnsureAccount : okdb.

Lemma guar_UpdateAccount {P} {HA : Accepts P} t i a ip : guar P (UpdateAccount t i a ip).
Proof. unfold UpdateAccount, newCurrency, countIssuedInvoices. guar_all. Qed.

Lemma guar_SetDefaultMethod {P} {HA : Accepts P} t m : guar P (SetDefaultMethod t m).
Proof. unfold SetDefaultMethod. guar_all. Qed.

#[global] Hint Resolve guar_UpdateAccount guar_SetDefaultMethod : okdb.

(** * Properties *)

(** Choosing a default payment method, run alone: it succeeds, and afterwards
    that method is the tenant's only default; the methods of other tenants are
    untouched. *)
Theorem SetDefaultMethod_only_default w st m
    (Hw : rely quietP w) (Hm : t_methods (sh_db (st_sh st)) !! pm_ID m = Some m)
    (Ht : (TrimSpace (pm_TenantID m) =s "") = false) :
  let run := SetDefaultMethod (pm_TenantID m) (pm_ID m) w st in
  run.1 = Ok tt ∧
  ∀ k x, t_methods (sh_db (st_sh run.2)) !! k = Some x →
    if pm_TenantID x =s pm_TenantID m then (pm_IsDefault x = true ↔ k = pm_ID m)
    else t_methods (sh_db (st_sh st)) !! k = Some x.
Proof.
  intros run.
  apply (quiet_run (SetDefaultMethod (pm_TenantID m) (pm_ID m)) (λ r s', r = Ok tt ∧
    ∀ k x, t_methods (sh_db s') !! k = Some x →
      if pm_TenantID x =s pm_TenantID m then (pm_IsDefault x = true ↔ k = pm_ID m)
      else t_methods (sh_db (st_sh st)) !! k = Some x)); [|done].
  unfold SetDefaultMethod, GetPaymentMethod. rewrite Ht.
  apply q_bindR, q_mapErr, q_SELECT_ROW. unfold find_row. simpl. rewrite Hm, seqb_refl.
  apply q_step, (ok_ask _). intros w' n _. cbv zeta.
  apply q_bindR, q_mapErr, q_exec. unfold update_all. simpl.
  set (f := λ x : PaymentMethod, if pm_TenantID x =s pm_TenantID m
    then x {{ pm_IsDefault := false; pm_UpdatedAt := w_now w' n }} else x).
  apply q_bindR, q_mapErr.
  apply (q_UPDATE billing_payment_methods _ _ (f m)); simpl.
  { by rewrite lookup_fmap, Hm. }
  { subst f. simpl. rewrite seqb_refl. apply seqb_refl. }
  apply q_bindR, q_mapErr, q_exec. unfold update_stmt. destruct (update_row _ _ _ _) as [k' a'].
  apply (ok_ret _). intros _. split; [done|]. intros k x. simpl.
  destruct (decide (k = pm_ID m)) as [->|Hne].
  - rewrite lookup_insert_eq. intros [= <-]. simpl. subst f. simpl. rewrite seqb_refl. simpl.
    by rewrite seqb_refl.
  - rewrite lookup_insert_ne, lookup_fmap by done.
    destruct (t_methods _ !! k) as [y|] eqn:Ey; simpl; [|done]. intros [= <-]. subst f. simpl.
    destruct (pm_TenantID y =s pm_TenantID m) eqn:Et; [|by rewrite Et].
    destruct y. simpl in *. rewrite Et. by split.
Qed.

Lemma SetDefaultMethod_only_default_witness :
  let run := SetDefaultMethod "acme" "pm-1" card_world (start card_db) in
  run.1 = Ok tt ∧
  ∀ k x, t_methods (sh_db (st_sh run.2)) !! k = Some x →
    if pm_TenantID x =s "acme" then (pm_IsDefault x = true ↔ k = "pm-1")
    else t_methods card_db !! k = Some x.
Proof.
  apply (SetDefaultMethod_only_default card_world (start card_db) sample_method);
    [apply card_quiet|reflexivity|reflexivity].
Defined.
