(* ===== verification/Plans.v ===== *)
(** The plan catalogue: [src/src/billing/plans.go]. *)
From stdpp Require Import prelude strings list gmap relations.
From Stdlib Require Import ZArith Lia Ascii.
From S2P Require Import Prelude GoTime Money States Errors Models Store Logic Guarantee Service.
From S2P Require Import Accounts.

Definition PlanQuotas (planID : string) : M (Res (list PlanQuota)) :=
  mapErr (λ e, ErrInternal e "Could not read the plan quotas.")
    (SELECT billing_plan_quotas (λ q, q_PlanID q =s planID) (asc_s q_Resource)).

Definition withQuotas (p : Plan) : M (Res Plan) :=
  let? quotas := PlanQuotas (p_ID p) in
  ok_ (p {{ p_Quotas := quotas }}).

Definition GetPlan (planID : string) : M (Res Plan) :=
  let? p := mapErr (readError "plan" "Could not read the plan.")
              (SELECT_ROW billing_plans planID all_rows) in
  withQuotas p.

Definition PlanByCode (code : string) : M (Res Plan) :=
  let? p := mapErr (readError "plan" "Could not read the plan.")
              (SELECT_FIRST billing_plans (λ p, p_Code p =s ToLower (TrimSpace code)) any_order) in
  withQuotas p.

(** [ORDER BY sort_order, price_minor, code]. *)
Definition plan_order (a b : Plan) : bool :=
  if p_SortOrder a =? p_SortOrder b then
    if p_PriceMinor a =? p_PriceMinor b then string_leb (p_Code a) (p_Code b)
    else p_PriceMinor a <=? p_PriceMinor b
  else p_SortOrder a <=? p_SortOrder b.

Definition ListPlans (onlyPublic : bool) : M (Res (list Plan)) :=
  let? plans := mapErr (λ e, ErrInternal e "Could not read the plan catalogue.")
    (SELECT billing_plans
       (λ p, if onlyPublic then p_Active p && (p_Visibility p =s VisibilityPublic) else true)
       plan_order) in
  mapMR withQuotas plans.

Fixpoint validateQuotas_loop (seen : list string) (quotas : list PlanQuota) : option error :=
  match quotas with
  | [] => None
  | q :: rest =>
      if negb (ValidResource (q_Resource q)) then
        Some (ErrValidation ("Unknown quota resource " +:+ q_Resource q +:+ "."))
      else if mem (q_Resource q) seen then
        Some (ErrValidation ("The quota for " +:+ q_Resource q +:+ " is listed twice."))
      else if q_LimitValue q <? Unlimited then
        Some (ErrValidation "A quota limit must be -1 for unlimited or zero or more.")
      else if negb (q_Enforcement q =s "") && negb (ValidEnforcement (q_Enforcement q)) then
        Some (ErrValidation "That quota enforcement mode is not recognised.")
      else if q_BurstValue q <? 0 then
        Some (ErrValidation "A burst allowance cannot be negative.")
      else if q_OverageUnitPriceMinor q <? 0 then
        Some (ErrValidation "An overage price cannot be negative.")
      else validateQuotas_loop (q_Resource q :: seen) rest
  end.

Definition validateQuotas (quotas : list PlanQuota) : option error := validateQuotas_loop [] quotas.

(** [validatePlan] normalises the plan it is given in place. *)
Definition validatePlan (p : Plan) : Res Plan :=
  let p := p {{ p_Code := ToLower (TrimSpace (p_Code p)); p_Name := TrimSpace (p_Name p) }} in
  if (p_Code p =s "") || (p_Name p =s "") then Err (ErrValidation "A plan needs a code and a name.")
  else
    match NormalizeCurrency (p_Currency p) with
    | Err m => Err (ErrValidation m)
    | Ok currency =>
        let p := p {{ p_Currency := currency }} in
        if p_PriceMinor p <? 0 then Err (ErrValidation "A plan price cannot be negative.")
        else if negb (ValidCycle (p_Cycle p)) then
          Err (ErrValidation "That billing cycle is not one this server bills.")
        else if (p_TrialDays p <? 0) || (365 <? p_TrialDays p) then
          Err (ErrValidation "The trial length must be between 0 and 365 days.")
        else if (p_GraceDays p <? 0) || (90 <? p_GraceDays p) then
          Err (ErrValidation "The grace period must be between 0 and 90 days.")
        else
          let p := if p_Visibility p =s "" then p {{ p_Visibility := VisibilityPublic }} else p in
          if negb (ValidVisibility (p_Visibility p)) then
            Err (ErrValidation "That plan visibility is not recognised.")
          else
            let p := if p_OveragePolicy p =s "" then p {{ p_OveragePolicy := OverageBlock }}
                     else p in
            if negb (mem (p_OveragePolicy p)
                       [OverageBlock; OverageAllowWithCharge; OverageAllowWithWarning;
                        OverageThrottle]) then
              Err (ErrValidation "That overage policy is not recognised.")
            else match validateQuotas (p_Quotas p) with Some e => Err e | None => Ok p end
    end.

(** A Go map filled from a slice: the last row of a resource wins. *)
Definition byResource (existing : list PlanQuota) (resource : string) : option PlanQuota :=
  find (λ q, q_Resource q =s resource) (rev existing).

Definition replaceQuotas (planID : string) (quotas : list PlanQuota) : M (Res unit) :=
  let wrap := mapErr (λ e, ErrInternal e "Could not save the plan quotas.") in
  let? existing := PlanQuotas planID in
  let* now := unix in
  let? _ := forM quotas (λ q,
    let q := if q_Enforcement q =s "" then q {{ q_Enforcement := EnforceHard }} else q in
    match byResource existing (q_Resource q) with
    | Some prior =>
        let? _ := wrap (UPDATE billing_plan_quotas (q_ID prior) all_rows (λ r,
          r {{ q_LimitValue := q_LimitValue q; q_Enforcement := q_Enforcement q;
               q_BurstValue := q_BurstValue q;
               q_OverageUnitPriceMinor := q_OverageUnitPriceMinor q; q_UpdatedAt := now }})) in
        ok_ tt
    | None =>
        let* id := newID in
        let? _ := wrap (INSERT billing_plan_quotas
          (mkPlanQuota id planID (q_Resource q) (q_LimitValue q) (q_Enforcement q)
             (q_BurstValue q) (q_OverageUnitPriceMinor q) now)) in
        ok_ tt
    end) in
  let wanted := map q_Resource quotas in
  forM existing (λ prior,
    if mem (q_Resource prior) wanted || (q_LimitValue prior =? Unlimited) then ok_ tt
    else
      let? _ := wrap (UPDATE billing_plan_quotas (q_ID prior) all_rows (λ r,
        r {{ q_LimitValue := Unlimited; q_UpdatedAt := now }})) in
      ok_ tt).

Definition CreatePlan (p : Plan) (actor ip : string) : M (Res Plan) :=
  match validatePlan p with
  | Err e => fail e
  | Ok p =>
      let* r := PlanByCode (p_Code p) in
      match r with
      | Ok _ => fail (ErrConflict "A plan with that code already exists.")
      | Err err =>
          if negb (isNotFound err) then fail err
          else
            let* now := unix in
            let* id := newID in
            let p := p {{ p_ID := id; p_CreatedAt := now; p_UpdatedAt := now; p_Version := 1 }} in
            let? _ := mapErr (λ e, ErrInternal e "Could not create the plan.")
              (INSERT_UNIQUE billing_plans (λ r, p_Code r =s p_Code p)
                 (p {{ p_Quotas := [] }})) in
            let? _ := replaceQuotas (p_ID p) (p_Quotas p) in
            let* _ := WriteAudit (zeroAudit {{ ar_Actor := actor; ar_Action := ActionPlanCreated;
                        ar_Target := "plan:" +:+ p_Code p; ar_IP := ip }}) in
            GetPlan (p_ID p)
      end
  end.

Definition UpdatePlan (planID : string) (p : Plan) (actor ip : string) : M (Res Plan) :=
  let? current := GetPlan planID in
  match validatePlan (p {{ p_Code := p_Code current }}) with
  | Err e => fail e
  | Ok p =>
      let* now := unix in
      let? _ := mapErr (λ e,
          if db_IsConflict e then
            ErrConflict "The plan changed while you were editing it; reload and try again."
          else ErrInternal e "Could not save the plan.")
        (UPDATE_VERSIONED billing_plans planID (λ r, p_Version r =? p_Version current) (λ r,
           r {{ p_Name := p_Name p; p_Description := p_Description p; p_Currency := p_Currency p;
                p_PriceMinor := p_PriceMinor p; p_Cycle := p_Cycle p; p_TrialDays := p_TrialDays p;
                p_GraceDays := p_GraceDays p; p_Visibility := p_Visibility p;
                p_OveragePolicy := p_OveragePolicy p; p_Active := p_Active p;
                p_SortOrder := p_SortOrder p; p_UpdatedAt := now;
                p_Version := p_Version r + 1 }})) in
      let? _ := replaceQuotas planID (p_Quotas p) in
      let* _ := WriteAudit (zeroAudit {{ ar_Actor := actor; ar_Action := ActionPlanUpdated;
                  ar_Target := "plan:" +:+ p_Code current; ar_IP := ip }}) in
      GetPlan planID
  end.

(** * Guarantees *)

Lemma guar_PlanQuotas {P} {HA : Accepts P} p : guar P (PlanQuotas p).
Proof. unfold PlanQuotas. guar_all. Qed.
#[global] Hint Resolve guar_PlanQuotas : okdb.

Lemma guar_withQuotas {P} {HA : Accepts P} p : guar P (withQuotas p).
Proof. unfold withQuotas. guar_all. Qed.
#[global] Hint Resolve guar_withQuotas : okdb.

Lemma guar_GetPlan {P} {HA : Accepts P} p : guar P (GetPlan p).
Proof. unfold GetPlan. guar_all. Qed.

Lemma guar_PlanByCode {P} {HA : Accepts P} c : guar P (PlanByCode c).
Proof. unfold PlanByCode. guar_all. Qed.

Lemma guar_ListPlans {P} {HA : Accepts P} b : guar P (ListPlans b).
Proof. unfold ListPlans. guar_all. Qed.

Lemma guar_replaceQuotas {P} {HA : Accepts P} p qs : guar P (replaceQuotas p qs).
Proof. unfold replaceQuotas. guar_all. Qed.
#[global] Hint Resolve guar_GetPlan guar_PlanByCode guar_ListPlans guar_replaceQuotas : okdb.

Lemma guar_CreatePlan {P} {HA : Accepts P} p a ip : guar P (CreatePlan p a ip).
Proof. unfold CreatePlan. guar_all. Qed.

Lemma guar_UpdatePlan {P} {HA : Accepts P} id p a ip : guar P (UpdatePlan id p a ip).
Proof. unfold UpdatePlan. guar_all. Qed.
#[global] Hint Resolve guar_CreatePlan guar_UpdatePlan : okdb.
