(* ===== verification/SubQuery.v ===== *)
(** Reading subscriptions and appending to their log
    ([src/src/billing/subscriptions.go], the part the quota engine also uses). *)
From stdpp Require Import prelude strings list gmap relations.
From Stdlib Require Import ZArith Lia Ascii.
From S2P Require Import Prelude GoTime Money States Errors Models Store Logic Guarantee Service.
From S2P Require Import Accounts.

Definition GetSubscription (tenantID subID : string) : M (Res Subscription) :=
  if TrimSpace tenantID =s "" then fail (ErrValidation "billing: a tenant is required")
  else mapErr (readError "subscription" "Could not read the subscription.")
         (SELECT_ROW billing_subscriptions subID (λ s, s_TenantID s =s tenantID)).

Definition ActiveSubscription (tenantID : string) : M (Res Subscription) :=
  if TrimSpace tenantID =s "" then fail (ErrValidation "billing: a tenant is required")
  else
    let? subs := mapErr (λ e, ErrInternal e "Could not read the subscription.")
      (SELECT billing_subscriptions
         (λ s, (s_TenantID s =s tenantID) &&
               mem (s_State s) [StateActive; StateTrialing; StatePastDue; StateCancelled])
         (desc s_CreatedAt)) in
    ret match find Active subs with
        | Some sub => Ok sub
        | None => Err (ErrNotFound "subscription")
        end.

Definition ListSubscriptions (tenantID : string) : M (Res (list Subscription)) :=
  mapErr (λ e, ErrInternal e "Could not read the subscriptions.")
    (SELECT billing_subscriptions (λ s, s_TenantID s =s tenantID) (desc s_CreatedAt)).

(** [INSERT INTO billing_subscription_events]: the only statement on that
    table. *)
Definition insert_event (e : SubscriptionEvent) : M (Res Z) :=
  exec "billing_subscription_events" (λ db,
    if existsb (λ x, ev_ID x =s ev_ID e) (t_events db) then None
    else Some (1, db {{ t_events := t_events db ++ [e] }})).

Definition recordSubscriptionEvent (sub : Subscription) (event from to actor detail : string)
  : M unit :=
  let actor := if actor =s "" then "system" else actor in
  let* id := newID in
  let* now := unix in
  let* r := insert_event (mkSubscriptionEvent id (s_TenantID sub) (s_ID sub) event from to actor
                            detail now) in
  match r with
  | Ok _ => ret tt
  | Err e =>
      WriteAudit (zeroAudit {{ ar_TenantID := s_TenantID sub;
        ar_Action := ActionSubscriptionChanged; ar_Target := "subscription:" +:+ s_ID sub;
        ar_Result := ResultFailure;
        ar_Detail := "event log write failed: " +:+ error_text e }})
  end.

Definition SubscriptionEvents (tenantID subID : string) : M (Res (list SubscriptionEvent)) :=
  mapErr (λ e, ErrInternal e "Could not read the subscription history.")
    (query (λ db, sort_by (desc ev_OccurredAt)
       (List.filter (λ e, (ev_TenantID e =s tenantID) && (ev_SubscriptionID e =s subID))
          (t_events db)))).

(** * Guarantees *)

Lemma guar_GetSubscription {P} {HA : Accepts P} t s : guar P (GetSubscription t s).
Proof. unfold GetSubscription. guar_all. Qed.

Lemma guar_ActiveSubscription {P} {HA : Accepts P} t : guar P (ActiveSubscription t).
Proof. unfold ActiveSubscription. guar_all. Qed.

Lemma guar_insert_event {P} {HA : Accepts P} e : guar P (insert_event e).
Proof.
  apply (guar_exec _). intros s n db' Hi. destruct (existsb _ _); [done|]. intros [= <- <-].
  by apply acc_events.
Qed.

#[global] Hint Resolve guar_GetSubscription guar_ActiveSubscription guar_insert_event : okdb.

Lemma guar_recordSubscriptionEvent {P} {HA : Accepts P} sub ev f t a d : guar P (recordSubscriptionEvent sub ev f t a d).
Proof. unfold recordSubscriptionEvent. guar_all. Qed.

#[global] Hint Resolve guar_recordSubscriptionEvent : okdb.

(** What a reader returns is a stored row of that tenant, known from then on. *)
Lemma ok_GetSubscription {P} {HA : Accepts P} s tenant id :
  ok P s (GetSubscription tenant id) (λ r s',
    match r with
    | Ok sub => s_TenantID sub = tenant ∧ s_ID sub = id ∧
                seen billing_subscriptions sub_later sub s'
    | Err _ => True
    end).
Proof.
  unfold GetSubscription. case_match; [by apply (ok_ret _)|].
  apply (ok_mapErrQ _); [|done]. apply (ok_SELECT_ROW _); [|done].
  intros s1 v _ Hi Hv Hp. apply seqb_eq in Hp. split; [done|].
  destruct (seen_now billing_subscriptions sub_later s1 id v Hi Hv) as [-> Hs]. by split.
Qed.

Lemma ok_ActiveSubscription {P} {HA : Accepts P} s tenant :
  ok P s (ActiveSubscription tenant) (λ r s',
    match r with
    | Ok sub => s_TenantID sub = tenant ∧ Active sub = true ∧
                seen billing_subscriptions sub_later sub s'
    | Err _ => True
    end).
Proof.
  unfold ActiveSubscription. case_match; [by apply (ok_ret _)|].
  eapply (ok_bindR _ _ _ _ (λ r s', match r with
    | Ok l => ∀ sub, sub ∈ l → s_TenantID sub = tenant ∧ seen billing_subscriptions sub_later sub s'
    | Err _ => True end)); [| |done].
  - apply (ok_mapErrQ _); [|done]. apply (ok_SELECT _ sub_later); [|done].
    intros s1 l _ _ Hl sub Hin. destruct (Hl sub Hin) as [Hs Hp].
    apply andb_true_iff in Hp as [Hp _]. apply seqb_eq in Hp. by split.
  - intros subs s1 _ Hs. apply (ok_ret _). intros _.
    destruct (find Active subs) as [sub|] eqn:E; [|done].
    apply find_some in E as [Hin Ha]. apply list_elem_of_In in Hin.
    destruct (Hs sub Hin). by split_and!.
Qed.
