(* ===== verification/Quota.v ===== *)
(** Quotas and metering: [src/src/billing/quota.go] and
    [src/src/billing/metering.go]. *)
From stdpp Require Import prelude strings list gmap relations.
From Stdlib Require Import ZArith Lia Ascii.
From S2P Require Import Prelude GoTime Money States Errors Models Store Logic Guarantee Service.
From S2P Require Import Accounts Plans SubQuery.

Definition SourcePlan : string := "plan".
Definition SourceOverride : string := "override".
Definition SourceUnlimited : string := "unlimited".

Record QuotaDecision := mkQuotaDecision {
  qd_Resource : string; qd_Allowed : bool; qd_LimitValue : Z; qd_Used : Z; qd_Requested : Z;
  qd_Remaining : Z; qd_Overage : Z; qd_Enforcement : string; qd_Source : string;
  qd_Unlimited : bool; qd_Reason : string }.

Record effectiveQuota := mkEffectiveQuota {
  eq_limit : Z; eq_burst : Z; eq_enforcement : string; eq_source : string;
  eq_overagePol : string; eq_unitPrice : Z }.

Definition unlimitedQuota : effectiveQuota :=
  mkEffectiveQuota Unlimited 0 EnforceSoft SourceUnlimited OverageAllowWithWarning 0.

Definition decide (resource : string) (quota : effectiveQuota) (used requested : Z)
  : QuotaDecision :=
  let d := mkQuotaDecision resource false (eq_limit quota) used requested 0 0
             (eq_enforcement quota) (eq_source quota) false "" in
  if eq_limit quota =? Unlimited then
    d {{ qd_Allowed := true; qd_Unlimited := true; qd_Remaining := Unlimited }}
  else
    let after := used +! requested in
    let d := d {{ qd_Remaining := ClampNonNegative (eq_limit quota -! used) }} in
    if after <=? eq_limit quota then d {{ qd_Allowed := true }}
    else
      let d := d {{ qd_Overage := after -! eq_limit quota }} in
      if eq_enforcement quota =s EnforceSoft then
        if negb (eq_overagePol quota =s OverageBlock) then d {{ qd_Allowed := true }}
        else d {{ qd_Reason := "The plan's overage policy blocks usage past the limit." }}
      else if eq_enforcement quota =s EnforceBurst then
        if after <=? eq_limit quota +! eq_burst quota then d {{ qd_Allowed := true }}
        else d {{ qd_Reason := "The burst allowance for this resource is exhausted." }}
      else d {{ qd_Reason := "The plan limit for this resource has been reached." }}.

Definition quotaOverride (tenantID resource : string) : M (Res QuotaOverride) :=
  let* now := unix in
  mapErr (readError "quota override" "Could not read the quota overrides.")
    (SELECT_FIRST billing_quota_overrides
       (λ o, (o_TenantID o =s tenantID) && (o_Resource o =s resource) &&
             ((o_ExpiresAt o =? 0) || (now <? o_ExpiresAt o)))
       (desc o_CreatedAt)).

Definition knownEnforcement (e : string) : string := if ValidEnforcement e then e else EnforceHard.

Definition effectiveQuotaFor (tenantID resource : string) : M (Res effectiveQuota) :=
  let* r := quotaOverride tenantID resource in
  match r with
  | Ok o =>
      ok_ (mkEffectiveQuota (o_LimitValue o) 0 (knownEnforcement (o_Enforcement o)) SourceOverride
             OverageAllowWithWarning 0)
  | Err err =>
      if negb (isNotFound err) then fail err
      else
        let* r := ActiveSubscription tenantID in
        match r with
        | Err err => if isNotFound err then ok_ unlimitedQuota else fail err
        | Ok sub =>
            let? quotas := PlanQuotas (s_PlanID sub) in
            let? plan := GetPlan (s_PlanID sub) in
            ret (Ok match find (λ q, q_Resource q =s resource) quotas with
                    | Some q =>
                        mkEffectiveQuota (q_LimitValue q) (q_BurstValue q)
                          (knownEnforcement (q_Enforcement q)) SourcePlan (p_OveragePolicy plan)
                          (q_OverageUnitPriceMinor q)
                    | None => unlimitedQuota
                    end)
        end
  end.

Definition SetQuotaOverride (o : QuotaOverride) (actor ip : string) : M (Res QuotaOverride) :=
  if TrimSpace (o_TenantID o) =s "" then fail (ErrValidation "An override needs a tenant.")
  else if negb (ValidResource (o_Resource o)) then
    fail (ErrValidation ("Unknown quota resource " +:+ o_Resource o +:+ "."))
  else if o_LimitValue o <? Unlimited then
    fail (ErrValidation "A quota limit must be -1 for unlimited or zero or more.")
  else if TrimSpace (o_Reason o) =s "" then
    fail (ErrValidation "An override needs a reason for the audit trail.")
  else
    let o := if o_Enforcement o =s "" then o {{ o_Enforcement := EnforceHard }} else o in
    if negb (ValidEnforcement (o_Enforcement o)) then
      fail (ErrValidation "That quota enforcement mode is not recognised.")
    else
      let* id := newID in
      let* now := unix in
      let o := o {{ o_ID := id; o_CreatedBy := actor; o_CreatedAt := now }} in
      let? _ := mapErr (λ e, ErrInternal e "Could not record the quota override.")
                  (INSERT billing_quota_overrides o) in
      let* _ := WriteAudit (zeroAudit {{ ar_TenantID := o_TenantID o; ar_Actor := actor;
        ar_Action := ActionQuotaOverride; ar_Target := "resource:" +:+ o_Resource o; ar_IP := ip;
        ar_Detail := "limit=" +:+ itoa (o_LimitValue o) +:+ " reason=" +:+ o_Reason o }}) in
      ok_ o.

Definition ListQuotaOverrides (tenantID : string) : M (Res (list QuotaOverride)) :=
  mapErr (λ e, ErrInternal e "Could not read the quota overrides.")
    (SELECT billing_quota_overrides (λ o, o_TenantID o =s tenantID) (desc o_CreatedAt)).

(** * Metering *)

Definition GetMeter (code : string) : M (Res Meter) :=
  mapErr (readError "meter" "Could not read the meter.")
    (SELECT_ROW billing_usage_meters (ToLower (TrimSpace code)) all_rows).

Definition ListMeters : M (Res (list Meter)) :=
  mapErr (λ e, ErrInternal e "Could not read the meters.")
    (SELECT billing_usage_meters all_rows (asc_s m_Code)).

Definition SaveMeter (m : Meter) : M (Res Meter) :=
  let m := m {{ m_Code := ToLower (TrimSpace (m_Code m)) }} in
  if m_Code m =s "" then fail (ErrValidation "A meter needs a code.")
  else if negb (mem (m_MeterType m) [MeterCounter; MeterGauge; MeterHistogram]) then
    fail (ErrValidation "A meter must be a counter, a gauge or a histogram.")
  else if negb (mem (m_ResetPolicy m) [ResetHard; ResetRolling; ResetCarry; ResetAccumulate]) then
    fail (ErrValidation "That meter reset policy is not recognised.")
  else if negb (m_Resource m =s "") && negb (ValidResource (m_Resource m)) then
    fail (ErrValidation ("Unknown quota resource " +:+ m_Resource m +:+ "."))
  else
    let m := if (m_Unit m =s "") && negb (m_Resource m =s "")
             then m {{ m_Unit := ResourceUnit (m_Resource m) }} else m in
    let* now := unix in
    let? n := mapErr (λ e, ErrInternal e "Could not save the meter.")
      (UPDATE billing_usage_meters (m_Code m) all_rows (λ r,
         r {{ m_Name := m_Name m; m_MeterType := m_MeterType m; m_Resource := m_Resource m;
              m_Unit := m_Unit m; m_ResetPolicy := m_ResetPolicy m; m_UpdatedAt := now }})) in
    if n =? 0 then
      let? _ := mapErr (λ e, ErrInternal e "Could not save the meter.")
        (INSERT billing_usage_meters
           (m {{ m_CreatedAt := now; m_UpdatedAt := now }})) in
      ok_ (m {{ m_CreatedAt := now; m_UpdatedAt := now }})
    else ok_ (m {{ m_UpdatedAt := now }}).

Definition EnsureDefaultMeters : M (Res unit) :=
  forM Resources (λ resource,
    let* r := GetMeter resource in
    match r with
    | Ok _ => ok_ tt
    | Err err =>
        if negb (isNotFound err) then fail err
        else
          let? _ := SaveMeter (zeroMeter {{ m_Code := resource;
                      m_Name := ReplaceChar resource "_"%char " "; m_MeterType := MeterGauge;
                      m_Resource := resource; m_Unit := ResourceUnit resource;
                      m_ResetPolicy := ResetHard }}) in
          ok_ tt
    end).

Definition CurrentPeriod (tenantID : string) : M (Z * Z) :=
  let* r := ActiveSubscription tenantID in
  let calendar_month :=
    let* now := unix in
    let start := TimeDate (TYear now) (TMonth now) 1 0 0 0 in
    ret (start, AddDate start 0 1 0) in
  match r with
  | Ok sub =>
      if (0 <? s_PeriodStart sub) && (s_PeriodStart sub <? s_PeriodEnd sub)
      then ret (s_PeriodStart sub, s_PeriodEnd sub)
      else calendar_month
  | Err _ => calendar_month
  end.

Definition usageRecord (tenantID meterCode : string) (start : Z) (dimensions : string)
  : M (Res UsageRecord) :=
  mapErr (readError "usage record" "Could not read the usage record.")
    (SELECT_FIRST billing_usage_records
       (λ u, (u_TenantID u =s tenantID) && (u_MeterCode u =s meterCode) &&
             (u_PeriodStart u =? start) && (u_Dimensions u =s dimensions)) any_order).

Definition RecordUsage (tenantID meterCode : string) (value : Z) (dimensions : string)
  : M (Res unit) :=
  if TrimSpace tenantID =s "" then fail (ErrValidation "billing: a tenant is required")
  else
    let? meter := GetMeter meterCode in
    let* period := CurrentPeriod tenantID in
    let '(start, stop) := period in
    let* now := unix in
    let* existing := usageRecord tenantID (m_Code meter) start dimensions in
    match existing with
    | Err err =>
        if isNotFound err then
          let* id := newID in
          let? _ := mapErr (λ e, ErrInternal e "Could not record the usage measurement.")
            (INSERT billing_usage_records
               (mkUsageRecord id tenantID (m_Code meter) start stop value 1 UsageIncluded
                  dimensions now)) in
          ok_ tt
        else fail err
    | Ok ex =>
        let next := if m_MeterType meter =s MeterGauge then value else u_Value ex +! value in
        let? _ := mapErr (λ e, ErrInternal e "Could not record the usage measurement.")
          (UPDATE billing_usage_records (u_ID ex) all_rows (λ r,
             r {{ u_Value := next; u_Samples := u_Samples r + 1; u_PeriodEnd := stop;
                  u_RecordedAt := now }})) in
        ok_ tt
    end.

(** The usage rows of a tenant joined with their meters. *)
Definition metered (db : DB) (p : UsageRecord → bool) : list (UsageRecord * Meter) :=
  omap (λ u, m ← t_meters db !! u_MeterCode u; Some (u, m))
    (List.filter p (map snd (map_to_list (t_usage db)))).

Definition sum_values (rows : list (UsageRecord * Meter)) : Z :=
  foldr (λ r acc, u_Value r.1 + acc) 0 rows.

Definition CurrentUsage (tenantID resource : string) : M (Res Z) :=
  let* fn := ask (λ w _, w_counters w resource) in
  match fn with
  | Some count =>
      let* used := ask (λ _ n, count n tenantID) in
      ret match used with
          | Ok used => Ok (ClampNonNegative used)
          | Err e => Err (ErrInternal e ("Could not count current usage for " +:+ resource +:+ "."))
          end
  | None =>
      let* period := CurrentPeriod tenantID in
      let? total :=
        mapErr (λ e, ErrInternal e ("Could not read current usage for " +:+ resource +:+ "."))
          (query (λ db, sum_values (List.filter (λ r, m_Resource r.2 =s resource)
             (metered db (λ u, (u_TenantID u =s tenantID) && (period.1 <=? u_PeriodStart u)))))) in
      ok_ (ClampNonNegative total)
  end.

Definition ListUsage (tenantID : string) : M (Res (list UsageRecord)) :=
  let* period := CurrentPeriod tenantID in
  mapErr (λ e, ErrInternal e "Could not read the usage records.")
    (SELECT billing_usage_records
       (λ u, (u_TenantID u =s tenantID) && (period.1 <=? u_PeriodStart u)) (asc_s u_MeterCode)).

Definition CheckQuota (tenantID resource : string) (requested : Z) : M (Res QuotaDecision) :=
  if TrimSpace tenantID =s "" then fail (ErrValidation "billing: a tenant is required")
  else if negb (ValidResource resource) then
    fail (ErrValidation ("billing: unknown quota resource " +:+ resource))
  else if requested <? 0 then
    fail (ErrValidation "billing: a quota request cannot be negative")
  else
    let? quota := effectiveQuotaFor tenantID resource in
    let? used := CurrentUsage tenantID resource in
    ok_ (decide resource quota used requested).

Definition EnsureQuota (tenantID resource : string) (requested : Z) : M (Res unit) :=
  let? d := CheckQuota tenantID resource requested in
  if qd_Allowed d then ok_ tt
  else
    let* _ := WriteAudit (zeroAudit {{ ar_TenantID := tenantID; ar_Action := ActionQuotaDenied;
      ar_Target := "resource:" +:+ resource; ar_Result := ResultDenied;
      ar_Detail := "limit=" +:+ itoa (qd_LimitValue d) +:+ " used=" +:+ itoa (qd_Used d) +:+
                   " requested=" +:+ itoa requested }}) in
    fail (ErrQuota resource (qd_LimitValue d) (qd_Used d) requested).

Definition QuotaStatuses (tenantID : string) : M (Res (list QuotaStatus)) :=
  mapMR (λ resource,
    let? quota := effectiveQuotaFor tenantID resource in
    let? used := CurrentUsage tenantID resource in
    let unlimited := eq_limit quota =? Unlimited in
    ok_ (mkQuotaStatus resource (eq_limit quota) used
           (if unlimited then Unlimited else ClampNonNegative (eq_limit quota -! used))
           (eq_enforcement quota) unlimited (eq_source quota) (ResourceUnit resource)))
    Resources.

(** [SELECT meter_code, SUM(value), resource ... GROUP BY meter_code, resource]. *)
Definition usage_totals (db : DB) (tenantID : string) (start stop : Z) : list (string * Z * string) :=
  let rows := metered db (λ u, (u_TenantID u =s tenantID) && (start <=? u_PeriodStart u) &&
                               (u_PeriodStart u <? stop)) in
  let keys := remove_dups (map (λ r, (u_MeterCode r.1, m_Resource r.2)) rows) in
  map (λ k, (k.1,
             sum_values (List.filter (λ r, (u_MeterCode r.1 =s k.1) && (m_Resource r.2 =s k.2)) rows),
             k.2)) keys.

Definition saveRollup (r : UsageRollup) : M (Res unit) :=
  let wrap := mapErr (λ e, ErrInternal e "Could not save the usage rollup.") in
  let? n := wrap (UPDATE_ALL billing_usage_rollups
    (λ x, (r_TenantID x =s r_TenantID r) && (r_MeterCode x =s r_MeterCode r) &&
          (r_PeriodStart x =? r_PeriodStart r) && negb (r_Invoiced x))
    (λ x, x {{ r_TotalValue := r_TotalValue r; r_IncludedValue := r_IncludedValue r;
               r_OverageValue := r_OverageValue r; r_PeriodEnd := r_PeriodEnd r;
               r_RolledAt := r_RolledAt r }})) in
  if 0 <? n then ok_ tt
  else let? _ := wrap (INSERT billing_usage_rollups (r {{ r_Invoiced := false }})) in
       ok_ tt.

(** The included part and the overage of a total under a ceiling. *)
Definition split_total (quota : effectiveQuota) (total : Z) : Z * Z :=
  if negb (eq_limit quota =? Unlimited) && (eq_limit quota <? total)
  then (eq_limit quota, total -! eq_limit quota) else (total, 0).

Definition RollUpUsage (tenantID : string) (start stop : Z) : M (Res (list UsageRollup)) :=
  let? totals := mapErr (λ e, ErrInternal e "Could not total the usage records.")
                   (query (λ db, usage_totals db tenantID start stop)) in
  let* now := unix in
  mapMR (λ t : string * Z * string,
    let '(meter, total, resource) := t in
    let? parts :=
      (if resource =s "" then ok_ (total, 0)
       else let? quota := effectiveQuotaFor tenantID resource in ok_ (split_total quota total)) in
    let* id := newID in
    let rollup := mkUsageRollup id tenantID meter start stop total parts.1 parts.2 false now in
    let? _ := saveRollup rollup in
    ok_ rollup) totals.

Definition PendingRollups (tenantID : string) (start stop : Z) : M (Res (list UsageRollup)) :=
  mapErr (λ e, ErrInternal e "Could not read the usage rollups.")
    (SELECT billing_usage_rollups
       (λ r, (r_TenantID r =s tenantID) && (start <=? r_PeriodStart r) &&
             (r_PeriodStart r <? stop) && negb (r_Invoiced r)) (asc_s r_MeterCode)).

Definition markRollupsInvoiced (ids : list string) : M (Res unit) :=
  forM ids (λ id,
    let? _ := mapErr (λ e, ErrInternal e "Could not mark the usage as invoiced.")
      (UPDATE billing_usage_rollups id all_rows (λ r, r {{ r_Invoiced := true }})) in
    ok_ tt).

(** * Guarantees *)

Lemma guar_effectiveQuotaFor {P} {HA : Accepts P} t r : guar P (effectiveQuotaFor t r).
Proof. unfold effectiveQuotaFor, quotaOverride. guar_all. Qed.

Lemma guar_CurrentPeriod {P} {HA : Accepts P} t : guar P (CurrentPeriod t).
Proof. unfold CurrentPeriod. guar_all. Qed.

#[global] Hint Resolve guar_effectiveQuotaFor guar_CurrentPeriod : okdb.

Lemma guar_CurrentUsage {P} {HA : Accepts P} t r : guar P (CurrentUsage t r).
Proof. unfold CurrentUsage. guar_all. Qed.

Lemma guar_GetMeter {P} {HA : Accepts P} c : guar P (GetMeter c).
Proof. unfold GetMeter. guar_all. Qed.

Lemma guar_SaveMeter {P} {HA : Accepts P} m : guar P (SaveMeter m).
Proof. unfold SaveMeter. guar_all. Qed.

#[global] Hint Resolve guar_CurrentUsage guar_GetMeter guar_SaveMeter : okdb.

Lemma guar_EnsureDefaultMeters {P} {HA : Accepts P} : guar P EnsureDefaultMeters.
Proof. unfold EnsureDefaultMeters. guar_all. Qed.

Lemma guar_RecordUsage {P} {HA : Accepts P} t m v d : guar P (RecordUsage t m v d).
Proof. unfold RecordUsage, usageRecord. guar_all. Qed.

Lemma guar_SetQuotaOverride {P} {HA : Accepts P} o a ip : guar P (SetQuotaOverride o a ip).
Proof. unfold SetQuotaOverride. guar_all. Qed.

Lemma guar_CheckQuota {P} {HA : Accepts P} t r n : guar P (CheckQuota t r n).
Proof. unfold CheckQuota. guar_all. Qed.

#[global] Hint Resolve guar_EnsureDefaultMeters guar_RecordUsage guar_SetQuotaOverride
  guar_CheckQuota : okdb.

Lemma guar_EnsureQuota {P} {HA : Accepts P} t r n : guar P (EnsureQuota t r n).
Proof. unfold EnsureQuota. guar_all. Qed.

Lemma guar_saveRollup {P} {HA : Accepts P} r : guar P (saveRollup r).
Proof. unfold saveRollup. guar_all. Qed.

#[global] Hint Resolve guar_EnsureQuota guar_saveRollup : okdb.

Lemma guar_RollUpUsage {P} {HA : Accepts P} t a b : guar P (RollUpUsage t a b).
Proof. unfold RollUpUsage. guar_all. Qed.

Lemma guar_PendingRollups {P} {HA : Accepts P} t a b : guar P (PendingRollups t a b).
Proof. unfold PendingRollups. guar_all. Qed.

Lemma guar_markRollupsInvoiced {P} {HA : Accepts P} ids : guar P (markRollupsInvoiced ids).
Proof. unfold markRollupsInvoiced. guar_all. Qed.

#[global] Hint Resolve guar_RollUpUsage guar_PendingRollups guar_markRollupsInvoiced : okdb.

(** * Properties *)

(** What a request is entitled to: an unlimited resource, room under the limit,
    a soft limit whose overage policy does not block, or room in the burst. *)
Definition entitled (quota : effectiveQuota) (used requested : Z) : Prop :=
  eq_limit quota = Unlimited ∨ used + requested ≤ eq_limit quota ∨
  (eq_enforcement quota = EnforceSoft ∧ eq_overagePol quota ≠ OverageBlock) ∨
  (eq_enforcement quota = EnforceBurst ∧ used + requested ≤ eq_limit quota + eq_burst quota).

(** As long as the sums fit in 64 bits, [decide] allows a request exactly
    when it is entitled, reports what is left and by how much the request
    overshoots, and gives a reason exactly when it refuses. *)
Theorem decide_spec resource quota used requested
    (Hused : 0 ≤ used) (Hreq : 0 ≤ requested) (Hsum : used + requested ≤ max_int64)
    (Hlim : -1 ≤ eq_limit quota ≤ max_int64) (Hburst : 0 ≤ eq_burst quota)
    (Hceil : eq_limit quota + eq_burst quota ≤ max_int64) :
  let d := decide resource quota used requested in
  (qd_Allowed d = true ↔ entitled quota used requested) ∧
  (eq_limit quota ≠ Unlimited → qd_Remaining d = Z.max 0 (eq_limit quota - used) ∧
     qd_Overage d = Z.max 0 (used + requested - eq_limit quota)) ∧
  (qd_Reason d = "" ↔ qd_Allowed d = true).
Proof.
  unfold decide, entitled, Unlimited in *.
  assert (used +! requested = used + requested) as -> by (apply wrap64_id; int64).
  assert (eq_limit quota +! eq_burst quota = eq_limit quota + eq_burst quota) as ->
    by (apply wrap64_id; int64).
  assert (eq_limit quota -! used = eq_limit quota - used) as -> by (apply wrap64_id; int64).
  rewrite ClampNonNegative_max.
  destruct (Z.eqb_spec (eq_limit quota) (-1)) as [El|El]; simpl; [naive_solver|].
  assert (used + requested -! eq_limit quota = used + requested - eq_limit quota) as ->
    by (apply wrap64_id; int64).
  destruct (Z.leb_spec (used + requested) (eq_limit quota)); simpl.
  { split_and!; [naive_solver|intros _; split; lia|done]. }
  destruct (eq_enforcement quota =s EnforceSoft) eqn:Es;
    [apply seqb_eq in Es|apply seqb_neq in Es].
  { rewrite Es. destruct (eq_overagePol quota =s OverageBlock) eqn:Eo;
      [apply seqb_eq in Eo|apply seqb_neq in Eo]; simpl; rewrite ?Eo;
      (split_and!; [|intros _; split; lia|naive_solver]); naive_solver lia. }
  destruct (eq_enforcement quota =s EnforceBurst) eqn:Eb;
    [apply seqb_eq in Eb|apply seqb_neq in Eb].
  - destruct (Z.leb_spec (used + requested) (eq_limit quota + eq_burst quota)); simpl;
      (split_and!; [|intros _; split; lia|naive_solver]); naive_solver lia.
  - simpl. split_and!; [|intros _; split; lia|naive_solver]. naive_solver lia.
Qed.

Lemma decide_spec_witness :
  let quota := mkEffectiveQuota 10 5 EnforceBurst SourcePlan OverageBlock 0 in
  qd_Allowed (decide "databases" quota 8 6) = true ∧ entitled quota 8 6.
Proof.
  intros quota. split; [reflexivity|].
  apply (decide_spec "databases" quota 8 6); [lia|lia|vm_compute; done|vm_compute; done|
    simpl; lia|vm_compute; done|reflexivity].
Defined.

(** Past 64 bits the sum wraps to a negative number, so a request for the
    largest integer is allowed against any hard limit once something is used. *)
Theorem decide_overflow_allows resource quota used
    (Hused : 1 ≤ used ≤ max_int64) (Hlim : 0 ≤ eq_limit quota ≤ max_int64)
    (Hhard : eq_enforcement quota = EnforceHard) :
  qd_Allowed (decide resource quota used max_int64) = true ∧ ¬ entitled quota used max_int64.
Proof.
  split.
  - unfold decide, Unlimited. destruct (Z.eqb_spec (eq_limit quota) (-1)); [lia|].
    replace (used +! max_int64) with (used + max_int64 - 2 ^ 64).
    + destruct (Z.leb_spec (used + max_int64 - 2 ^ 64) (eq_limit quota)); [done|].
      unfold max_int64 in *. lia.
    + unfold wrap64, max_int64 in *.
      replace (used + (2 ^ 63 - 1) + 2 ^ 63) with ((used - 1) + 1 * 2 ^ 64) by lia.
      rewrite Z.mod_add by lia. rewrite Z.mod_small by lia. lia.
  - unfold entitled, Unlimited. rewrite Hhard. intros [?|[?|[[? _]|[? _]]]]; [lia|lia|done|done].
Qed.

Lemma decide_overflow_allows_witness :
  let quota := mkEffectiveQuota 10 0 EnforceHard SourcePlan OverageBlock 0 in
  qd_Allowed (decide "databases" quota 1 max_int64) = true.
Proof.
  intros quota.
  apply (decide_overflow_allows "databases" quota 1);
    [vm_compute; split; discriminate|vm_compute; split; discriminate|reflexivity].
Defined.
