(* ===== verification/Invoices.v ===== *)
(** Invoices, document numbers and credit notes: [src/src/billing/invoices.go]. *)
From stdpp Require Import prelude strings list gmap relations.
From Stdlib Require Import ZArith Lia Ascii.
From S2P Require Import Prelude GoTime Money States Errors Models Store Logic Guarantee Service.
From S2P Require Import Tax Accounts Plans SubQuery Quota.

Definition LineSubscription : string := "subscription".
Definition LineProration : string := "proration".
Definition LineOverage : string := "overage".
Definition LineAdjustment : string := "adjustment".
Definition LineCredit : string := "credit".
Definition CreditAdjustment : string := "adjustment".
Definition CreditRefund : string := "refund".

(** * Reading *)

Definition InvoiceLines (tenantID invoiceID : string) : M (Res (list InvoiceLine)) :=
  mapErr (λ e, ErrInternal e "Could not read the invoice lines.")
    (SELECT billing_invoice_lines
       (λ l, (l_InvoiceID l =s invoiceID) && (l_TenantID l =s tenantID)) (asc l_Position)).

Definition GetInvoice (tenantID invoiceID : string) : M (Res Invoice) :=
  if TrimSpace tenantID =s "" then fail (ErrValidation "billing: a tenant is required")
  else
    let? inv := mapErr (readError "invoice" "Could not read the invoice.")
      (SELECT_ROW billing_invoices invoiceID (λ i, i_TenantID i =s tenantID)) in
    let? lines := InvoiceLines tenantID invoiceID in
    ok_ (inv {{ i_Lines := lines }}).

Definition ListInvoices (tenantID : string) (limit offset : Z) : M (Res (list Invoice)) :=
  let limit := if (limit <=? 0) || (200 <? limit) then 50 else limit in
  let offset := if offset <? 0 then 0 else offset in
  let? rows := mapErr (λ e, ErrInternal e "Could not read the invoices.")
    (SELECT billing_invoices (λ i, i_TenantID i =s tenantID) (desc i_CreatedAt)) in
  ok_ (firstn (Z.to_nat limit) (skipn (Z.to_nat offset) rows)).

Definition OpenInvoices (dueBefore : Z) : M (Res (list Invoice)) :=
  mapErr (λ e, ErrInternal e "Could not read the open invoices.")
    (SELECT billing_invoices
       (λ i, mem (i_State i) [InvoiceIssued; InvoiceDue; InvoiceOverdue; InvoicePartial] &&
             (0 <? i_DueAt i) && (i_DueAt i <=? dueBefore)) (asc i_DueAt)).

(** * Drafting *)

(** A new row takes the schema's default tax kind. *)
Definition CreateDraft (tenantID subscriptionID : string) (periodStart periodEnd : Z)
  : M (Res Invoice) :=
  let? account := EnsureAccount tenantID in
  let* now := unix in
  let* id := newID in
  let inv := zeroInvoice {{ i_ID := id; i_TenantID := tenantID; i_AccountID := a_ID account;
    i_SubscriptionID := subscriptionID; i_State := InvoiceDraft;
    i_Currency := a_Currency account; i_PeriodStart := periodStart; i_PeriodEnd := periodEnd;
    i_CreatedAt := now; i_UpdatedAt := now; i_Version := 1 }} in
  let* inv := (if i_Currency inv =s "" then
                 let* base := BaseCurrency in ret (inv {{ i_Currency := base }})
               else ret inv) in
  let? _ := mapErr (λ e, ErrInternal e "Could not create the invoice.")
    (INSERT billing_invoices (inv {{ i_TaxKind := TaxNone }})) in
  ok_ inv.

Definition invoiceWriteError (err : error) : error :=
  if db_IsConflict err then
    ErrConflict "The invoice changed while you were editing it; reload and try again."
  else ErrInternal err "Could not update the invoice.".

(** The guard of every optimistic update of an invoice. *)
Definition inv_guard (tenantID : string) (version : Z) (i : Invoice) : bool :=
  (i_TenantID i =s tenantID) && (i_Version i =? version).

Definition RecalculateInvoice (tenantID invoiceID : string) : M (Res Invoice) :=
  let? inv := GetInvoice tenantID invoiceID in
  if InvoiceFrozen (i_State inv) then ok_ inv
  else
    let? account := EnsureAccount tenantID in
    let subtotal := SumMinor (map l_AmountMinor (i_Lines inv)) in
    let net := ClampNonNegative (subtotal -! i_DiscountMinor inv) in
    let* tax := CalculateTax account net in
    let total := net +! tx_AmountMinor tax in
    let* now := unix in
    let? _ := mapErr invoiceWriteError
      (UPDATE_VERSIONED billing_invoices (i_ID inv) (inv_guard tenantID (i_Version inv)) (λ r,
         r {{ i_SubtotalMinor := subtotal; i_TaxMinor := tx_AmountMinor tax;
              i_TotalMinor := total; i_TaxRateBPS := tx_RateBPS tax; i_TaxKind := tx_Kind tax;
              i_TaxJurisdiction := tx_Jurisdiction tax; i_ReverseCharge := tx_ReverseCharge tax;
              i_UpdatedAt := now; i_Version := i_Version r + 1 }})) in
    let? _ := (if 0 <? tx_RateBPS tax then
                 mapErr (λ e, ErrInternal e "Could not apply tax to the invoice lines.")
                   (UPDATE_ALL billing_invoice_lines
                      (λ l, (l_InvoiceID l =s i_ID inv) && (l_TenantID l =s tenantID))
                      (λ l, l {{ l_TaxRateBPS := tx_RateBPS tax }}))
               else ok_ 0) in
    GetInvoice tenantID (i_ID inv).

(** The defaults [AddLine] fills in. *)
Definition completeLine (line : InvoiceLine) : InvoiceLine :=
  let line := if l_Kind line =s "" then line {{ l_Kind := LineAdjustment }} else line in
  let line := if l_QuantityMilli line =? 0 then line {{ l_QuantityMilli := 1000 }} else line in
  if l_AmountMinor line =? 0 then
    line {{ l_AmountMinor := Prorate (l_UnitPriceMinor line) (l_QuantityMilli line) 1000 }}
  else line.

Definition AddLine (tenantID invoiceID : string) (line : InvoiceLine) : M (Res Invoice) :=
  let? inv := GetInvoice tenantID invoiceID in
  if InvoiceFrozen (i_State inv) then fail (ErrImmutable (i_Number inv))
  else
    let line := completeLine line in
    let* id := newID in
    let line := line {{ l_ID := id; l_InvoiceID := i_ID inv; l_TenantID := tenantID;
                        l_Position := Z.of_nat (length (i_Lines inv)) + 1 }} in
    let? _ := mapErr (λ e, ErrInternal e "Could not add the invoice line.")
                (INSERT billing_invoice_lines line) in
    RecalculateInvoice tenantID (i_ID inv).

(** * Issuing *)

(** [json.Marshal] of a string: ASCII text, with HTML characters escaped. *)
Definition json_char (c : ascii) : string :=
  let n := Ascii.N_of_ascii c in
  let esc (k : string) := String "\"%char k in
  let u00 := esc ("u00" +:+ String (hex_digit (n / 16)) (String (hex_digit (n mod 16)) "")) in
  if ((n =? 34) || (n =? 92))%N then esc (String c "")
  else if (n =? 8)%N then esc "b" else if (n =? 12)%N then esc "f"
  else if (n =? 10)%N then esc "n" else if (n =? 13)%N then esc "r"
  else if (n =? 9)%N then esc "t"
  else if ((n <? 32) || (n =? 60) || (n =? 62) || (n =? 38))%N then u00
  else String c "".

Fixpoint json_body (s : string) : string :=
  match s with EmptyString => "" | String c s' => json_char c +:+ json_body s' end.

Definition dquote : string := String "034"%char "".
Definition json_string (s : string) : string := dquote +:+ json_body s +:+ dquote.

Definition json_object (fields : list (string * string)) : string :=
  "{" +:+ String.concat "," (map (λ f, json_string f.1 +:+ ":" +:+ f.2) fields) +:+ "}".

(** [json.Marshal] writes a map's keys in order. *)
Definition buyerSnapshot (a : Account) : string :=
  json_object
    [("address_line1", json_string (a_AddressLine1 a));
     ("address_line2", json_string (a_AddressLine2 a));
     ("billing_email", json_string (a_BillingEmail a)); ("city", json_string (a_City a));
     ("country", json_string (a_Country a));
     ("is_business", if a_IsBusiness a then "true" else "false");
     ("legal_name", json_string (a_LegalName a)); ("postal_code", json_string (a_PostalCode a));
     ("region", json_string (a_Region a)); ("tax_id", json_string (a_TaxID a))].

(** [fmt.Sprintf("%s%06d", prefix, next)]. *)
Definition docNumber (prefix : string) (next : Z) : string := prefix +:+ fmt_0d 6 next.

(** The compare-and-set loop; [attempts] counts down from 8. *)
Fixpoint nextDocumentNumber_loop (attempts : nat) (scope prefix : string) : M (Res string) :=
  match attempts with
  | O => fail (ErrConflict "Could not allocate a document number; try again.")
  | S attempts' =>
      let* r := SELECT_ROW billing_document_sequences scope all_rows in
      match r with
      | Err e =>
          if isNoRows e then
            let* now := unix in
            let* ins := INSERT billing_document_sequences (mkSequenceRow scope 1 now) in
            match ins with
            | Err e =>
                if negb (IsAlreadyExistsError e) then
                  fail (ErrInternal e "Could not allocate a document number.")
                else nextDocumentNumber_loop attempts' scope prefix
            | Ok _ => nextDocumentNumber_loop attempts' scope prefix
            end
          else fail (ErrInternal e "Could not allocate a document number.")
      | Ok row =>
          let next := sq_Next row in
          let* now := unix in
          let? affected := mapErr (λ e, ErrInternal e "Could not allocate a document number.")
            (UPDATE billing_document_sequences scope (λ r, sq_Next r =? next)
               (λ r, mkSequenceRow (sq_Scope r) (next +! 1) now)) in
          if affected =? 0 then nextDocumentNumber_loop attempts' scope prefix
          else ok_ (docNumber prefix next)
      end
  end.

Definition nextDocumentNumber (scope prefix : string) : M (Res string) :=
  nextDocumentNumber_loop 8 scope prefix.

Definition IssueInvoice (tenantID invoiceID actor ip : string) : M (Res Invoice) :=
  let? inv := GetInvoice tenantID invoiceID in
  if InvoiceFrozen (i_State inv) then fail (ErrImmutable (i_Number inv))
  else if negb (CanTransitionInvoice (i_State inv) InvoiceIssued) then
    fail (ErrConflict ("This invoice cannot be issued from state " +:+ i_State inv +:+ "."))
  else
    let? account := EnsureAccount tenantID in
    let* prefix := Setting SettingInvoicePrefix DefaultInvoicePrefix in
    let? number := nextDocumentNumber "invoice" prefix in
    let snapshot := buyerSnapshot account in
    let* now := unix in
    let* dueDays := SettingInt SettingDueDays DefaultDueDays in
    let* today := unix in
    let dueAt := AddDate today 0 0 dueDays in
    let? _ := mapErr invoiceWriteError
      (UPDATE_VERSIONED billing_invoices (i_ID inv) (inv_guard tenantID (i_Version inv)) (λ r,
         r {{ i_Number := number; i_State := InvoiceIssued; i_IssuedAt := now; i_DueAt := dueAt;
              i_BuyerSnapshot := snapshot; i_UpdatedAt := now;
              i_Version := i_Version r + 1 }})) in
    let* _ := WriteAudit (zeroAudit {{ ar_TenantID := tenantID; ar_Actor := actor;
      ar_Action := ActionInvoiceIssued; ar_Target := "invoice:" +:+ number; ar_IP := ip;
      ar_Detail := "total_minor=" +:+ itoa (i_TotalMinor inv) +:+ " currency=" +:+
                   i_Currency inv }}) in
    let* _ := notify tenantID NotifyInvoiceIssued in
    GetInvoice tenantID (i_ID inv).

(** * Payments and credit *)

(** The tail of [settleIfPaid]: the move to [target], if the machine has it. *)
Definition settleTo (tenantID : string) (inv : Invoice) (target : string) (paidAt : Z)
  : M (Res Invoice) :=
  if (i_State inv =s target) || negb (CanTransitionInvoice (i_State inv) target) then ok_ inv
  else
    let* now := unix in
    let? _ := mapErr invoiceWriteError
      (UPDATE_VERSIONED billing_invoices (i_ID inv) (inv_guard tenantID (i_Version inv)) (λ r,
         r {{ i_State := target; i_PaidAt := paidAt; i_UpdatedAt := now;
              i_Version := i_Version r + 1 }})) in
    let* _ := (if target =s InvoicePaid then notify tenantID NotifyPaymentSucceeded
               else ret tt) in
    GetInvoice tenantID (i_ID inv).

Definition settleIfPaid (tenantID invoiceID : string) : M (Res Invoice) :=
  let? inv := GetInvoice tenantID invoiceID in
  if BalanceDueMinor inv =? 0 then
    let* paidAt := unix in settleTo tenantID inv InvoicePaid paidAt
  else if (i_PaidMinor inv =? 0) && (i_CreditedMinor inv =? 0) then ok_ inv
  else settleTo tenantID inv InvoicePartial 0.

Definition RecordPayment (tenantID invoiceID : string) (amountMinor : Z) (actor ip : string)
  : M (Res Invoice) :=
  if amountMinor <=? 0 then fail (ErrValidation "A payment amount must be positive.")
  else
    let? inv := GetInvoice tenantID invoiceID in
    if i_State inv =s InvoiceDraft then
      fail (ErrValidation "A draft invoice cannot be paid; issue it first.")
    else
      let* now := unix in
      let? _ := mapErr invoiceWriteError
        (UPDATE_VERSIONED billing_invoices (i_ID inv) (inv_guard tenantID (i_Version inv)) (λ r,
           r {{ i_PaidMinor := i_PaidMinor r + amountMinor; i_UpdatedAt := now;
                i_Version := i_Version r + 1 }})) in
      let* _ := WriteAudit (zeroAudit {{ ar_TenantID := tenantID; ar_Actor := actor;
        ar_Action := ActionInvoicePaid; ar_Target := "invoice:" +:+ i_Number inv; ar_IP := ip;
        ar_Detail := "amount_minor=" +:+ itoa amountMinor }}) in
      settleIfPaid tenantID (i_ID inv).

Definition MarkInvoiceState (tenantID invoiceID target actor ip : string) : M (Res Invoice) :=
  let? inv := GetInvoice tenantID invoiceID in
  if target =s InvoiceDraft then fail (ErrImmutable (i_Number inv))
  else if negb (CanTransitionInvoice (i_State inv) target) then
    fail (ErrConflict ("An invoice cannot move from " +:+ i_State inv +:+ " to " +:+ target +:+ "."))
  else
    let* voidedAt := (if (target =s InvoiceCancelled) && (i_VoidedAt inv =? 0) then unix
                      else ret (i_VoidedAt inv)) in
    let* now := unix in
    let? _ := mapErr invoiceWriteError
      (UPDATE_VERSIONED billing_invoices (i_ID inv) (inv_guard tenantID (i_Version inv)) (λ r,
         r {{ i_State := target; i_VoidedAt := voidedAt; i_UpdatedAt := now;
              i_Version := i_Version r + 1 }})) in
    let* _ := WriteAudit (zeroAudit {{ ar_TenantID := tenantID; ar_Actor := actor;
      ar_Action := ActionInvoiceIssued; ar_Target := "invoice:" +:+ i_Number inv; ar_IP := ip;
      ar_Detail := "state=" +:+ target }}) in
    GetInvoice tenantID (i_ID inv).

(** [UPDATE billing_invoices SET credited_minor = credited_minor + ?], without
    a version check. *)
Definition addCredit (tenantID invoiceID : string) (amount now : Z) : M (Res Z) :=
  mapErr invoiceWriteError
    (UPDATE billing_invoices invoiceID (λ r, i_TenantID r =s tenantID) (λ r,
       r {{ i_CreditedMinor := i_CreditedMinor r + amount; i_UpdatedAt := now;
            i_Version := i_Version r + 1 }})).

Definition IssueCreditNote (tenantID invoiceID : string) (amountMinor : Z)
    (reason note actor ip : string) : M (Res CreditNote) :=
  let? inv := GetInvoice tenantID invoiceID in
  if i_State inv =s InvoiceDraft then
    fail (ErrValidation
      "A draft invoice is edited directly; a credit note applies only once it is issued.")
  else if amountMinor <=? 0 then fail (ErrValidation "A credit note amount must be positive.")
  else if i_TotalMinor inv -! i_CreditedMinor inv <? amountMinor then
    fail (ErrValidation "A credit note cannot exceed the uncredited amount of the invoice.")
  else
    let reason := if reason =s "" then CreditAdjustment else reason in
    let* prefix := Setting SettingCreditPrefix DefaultCreditPrefix in
    let? number := nextDocumentNumber "credit_note" prefix in
    let taxMinor := if 0 <? i_SubtotalMinor inv
                    then Prorate (i_TaxMinor inv) amountMinor (i_TotalMinor inv) else 0 in
    let* id := newID in
    let* now := unix in
    let cn := mkCreditNote id tenantID (i_ID inv) number (i_Currency inv) amountMinor taxMinor
                reason note now actor in
    let? _ := mapErr (λ e, ErrInternal e "Could not issue the credit note.")
                (INSERT billing_credit_notes cn) in
    let* now' := unix in
    let? _ := addCredit tenantID (i_ID inv) amountMinor now' in
    let* _ := WriteAudit (zeroAudit {{ ar_TenantID := tenantID; ar_Actor := actor;
      ar_Action := ActionCreditNoteIssued; ar_Target := "credit_note:" +:+ number; ar_IP := ip;
      ar_Detail := "invoice=" +:+ i_Number inv +:+ " amount_minor=" +:+ itoa amountMinor }}) in
    let* _ := notify tenantID NotifyCreditIssued in
    let? _ := settleIfPaid tenantID (i_ID inv) in
    ok_ cn.

Definition ListCreditNotes (tenantID : string) : M (Res (list CreditNote)) :=
  mapErr (λ e, ErrInternal e "Could not read the credit notes.")
    (SELECT billing_credit_notes (λ c, cn_TenantID c =s tenantID) (desc cn_IssuedAt)).

Definition applyAccountBalance (inv : Invoice) : M (Res Invoice) :=
  let? account := EnsureAccount (i_TenantID inv) in
  let credit := a_BalanceMinor account in
  if (credit <=? 0) || (BalanceDueMinor inv <=? 0) then ok_ inv
  else
    let credit := if BalanceDueMinor inv <? credit then BalanceDueMinor inv else credit in
    let* now := unix in
    let? _ := addCredit (i_TenantID inv) (i_ID inv) credit now in
    let? _ := mapErr (λ e, ErrInternal e "Could not apply the account balance.")
      (UPDATE billing_accounts (i_TenantID inv) all_rows (λ a,
         a {{ a_BalanceMinor := a_BalanceMinor a - credit; a_UpdatedAt := now }})) in
    settleIfPaid (i_TenantID inv) (i_ID inv).

(** * Generating *)

Record ProrationPreview := mkProrationPreview {
  pp_FromPlanID : string; pp_ToPlanID : string; pp_Currency : string; pp_CreditMinor : Z;
  pp_ChargeMinor : Z; pp_DueNowMinor : Z; pp_RefundMinor : Z; pp_Immediate : bool;
  pp_EffectiveAt : Z; pp_RemainingSec : Z; pp_PeriodSec : Z }.

Definition RaiseProrationInvoice (tenantID : string) (sub : Subscription) (target : Plan)
    (preview : ProrationPreview) : M (Res Invoice) :=
  let* now := unix in
  let? inv := CreateDraft tenantID (s_ID sub) now (s_PeriodEnd sub) in
  let description := "Prorated change to " +:+ p_Name target +:+ " for the remainder of the period" in
  let? _ := AddLine tenantID (i_ID inv) (zeroInvoiceLine {{ l_Kind := LineProration;
    l_Description := description; l_QuantityMilli := 1000;
    l_UnitPriceMinor := pp_DueNowMinor preview; l_AmountMinor := pp_DueNowMinor preview;
    l_LinePeriodStart := pp_EffectiveAt preview; l_LinePeriodEnd := s_PeriodEnd sub }}) in
  IssueInvoice tenantID (i_ID inv) "system" "".

Definition maxInt64 (a b : Z) : Z := if b <? a then a else b.

(** The rollup loop of [GenerateSubscriptionInvoice]: one line per priced
    overage; the rollups it returns are the ones to mark. *)
Fixpoint billRollups (sub : Subscription) (inv : Invoice) (rollups : list UsageRollup)
    (billed : list string) : M (Res (list string)) :=
  match rollups with
  | [] => ok_ billed
  | r :: rest =>
      if r_OverageValue r <=? 0 then billRollups sub inv rest (billed ++ [r_ID r])
      else
        let* m := GetMeter (r_MeterCode r) in
        match m with
        | Err _ => billRollups sub inv rest billed
        | Ok meter =>
            let* q := effectiveQuotaFor (s_TenantID sub) (m_Resource meter) in
            match q with
            | Err _ => billRollups sub inv rest (billed ++ [r_ID r])
            | Ok quota =>
                if eq_unitPrice quota <=? 0 then billRollups sub inv rest (billed ++ [r_ID r])
                else
                  let amount := eq_unitPrice quota *! r_OverageValue r in
                  let? _ := AddLine (s_TenantID sub) (i_ID inv) (zeroInvoiceLine {{
                    l_Kind := LineOverage;
                    l_Description := m_Name meter +:+ " overage: " +:+ itoa (r_OverageValue r) +:+
                                     " " +:+ m_Unit meter;
                    l_QuantityMilli := r_OverageValue r *! 1000;
                    l_UnitPriceMinor := eq_unitPrice quota; l_AmountMinor := amount;
                    l_MeterCode := r_MeterCode r; l_LinePeriodStart := r_PeriodStart r;
                    l_LinePeriodEnd := r_PeriodEnd r }}) in
                  billRollups sub inv rest (billed ++ [r_ID r])
            end
        end
  end.

Definition GenerateSubscriptionInvoice (sub : Subscription) : M (Res Invoice) :=
  let? plan := GetPlan (s_PlanID sub) in
  let? inv := CreateDraft (s_TenantID sub) (s_ID sub) (s_PeriodStart sub) (s_PeriodEnd sub) in
  let? _ :=
    (if 0 <? s_PriceMinor sub then
       let? _ := AddLine (s_TenantID sub) (i_ID inv) (zeroInvoiceLine {{
         l_Kind := LineSubscription; l_Description := p_Name plan +:+ " subscription";
         l_QuantityMilli := s_Quantity sub *! 1000; l_UnitPriceMinor := s_PriceMinor sub;
         l_AmountMinor := s_PriceMinor sub *! maxInt64 (s_Quantity sub) 1;
         l_LinePeriodStart := s_PeriodStart sub; l_LinePeriodEnd := s_PeriodEnd sub }}) in
       ok_ tt
     else ok_ tt) in
  let? rollups := PendingRollups (s_TenantID sub) (s_PeriodStart sub) (s_PeriodEnd sub) in
  let? billed := billRollups sub inv rollups [] in
  let? _ := markRollupsInvoiced billed in
  let? issued := IssueInvoice (s_TenantID sub) (i_ID inv) "system" "" in
  applyAccountBalance issued.

(** * Export *)

(** [time.RFC3339] in UTC. *)
Definition rfc3339 (t : Z) : string :=
  fmt_0d 4 (TYear t) +:+ "-" +:+ fmt_0d 2 (TMonth t) +:+ "-" +:+ fmt_0d 2 (TDay t) +:+ "T" +:+
  fmt_0d 2 (THour t) +:+ ":" +:+ fmt_0d 2 (TMinute t) +:+ ":" +:+ fmt_0d 2 (TSecond t) +:+ "Z".

Definition timeText (unix : Z) : string := if unix <=? 0 then "" else rfc3339 unix.

Definition InvoiceCSV (tenantID : string) : M (Res (list (list string))) :=
  let? invoices := ListInvoices tenantID 200 0 in
  ok_ (["number"; "state"; "currency"; "subtotal_minor"; "tax_minor"; "total_minor"; "paid_minor";
        "credited_minor"; "issued_at"; "due_at"; "paid_at"] ::
       map (λ inv,
         [i_Number inv; i_State inv; i_Currency inv; itoa (i_SubtotalMinor inv);
          itoa (i_TaxMinor inv); itoa (i_TotalMinor inv); itoa (i_PaidMinor inv);
          itoa (i_CreditedMinor inv); timeText (i_IssuedAt inv); timeText (i_DueAt inv);
          timeText (i_PaidAt inv)]) invoices).

(** * Guarantees *)

Notation seen_inv := (seen billing_invoices inv_later).

Lemma guar_InvoiceLines {P} {HA : Accepts P} t i : guar P (InvoiceLines t i).
Proof. unfold InvoiceLines. guar_all. Qed.
#[global] Hint Resolve guar_InvoiceLines : okdb.

Lemma seen_inv_lines inv lines s : seen_inv inv s → seen_inv (inv {{ i_Lines := lines }}) s.
Proof.
  intros (v & Hv & Hl). exists v. split; [done|].
  etrans; [|exact Hl]. left. by destruct inv.
Qed.

(** What [GetInvoice] returns is that tenant's invoice, known from then on. *)
Lemma ok_GetInvoice {P} {HA : Accepts P} s tenant id :
  ok P s (GetInvoice tenant id) (λ r s',
    match r with
    | Ok inv => i_TenantID inv = tenant ∧ i_ID inv = id ∧ seen_inv inv s'
    | Err _ => True
    end).
Proof.
  unfold GetInvoice. ok_skip; [ok_skip|].
  eapply (ok_bindR _ _ _ _ (λ r s', match r with
    | Ok inv => i_TenantID inv = tenant ∧ i_ID inv = id ∧ seen_inv inv s' | Err _ => True end));
    [| |done].
  - apply (ok_mapErrQ _); [|done]. apply (ok_SELECT_ROW _); [|done].
    intros s1 v _ Hi Hv Hp. apply seqb_eq in Hp. split; [done|].
    destruct (seen_now billing_invoices inv_later s1 id v Hi Hv) as [-> Hs]. by split.
  - intros inv s1 _ (<- & <- & Hseen). ok_skip. apply (ok_ret _). intros _.
    split_and!; [by destruct inv..|]. by apply seen_inv_lines.
Qed.

Lemma guar_GetInvoice {P} {HA : Accepts P} t i : guar P (GetInvoice t i).
Proof. intros s. eapply (ok_conseq _); [apply ok_GetInvoice|done]. Qed.
#[global] Hint Resolve guar_GetInvoice : okdb.

(** An optimistic update of an invoice that was read before: the row it
    overwrites is the one that was read. *)
Lemma ok_inv_update {P} {HA : Accepts P} s inv g :
  seen_inv inv s →
  (∀ r, inv_row r = inv_row inv → inv_later r (g r)) →
  ok P s (UPDATE_VERSIONED billing_invoices (i_ID inv)
                  (inv_guard (i_TenantID inv) (i_Version inv)) g) (λ _ _, True).
Proof.
  intros Hseen Hg. apply (ok_UPDATE_VERSIONED _ inv_later); [|done].
  intros s1 v Hs Hi Hv Hp. split; [|done]. apply Hg.
  unfold inv_guard in Hp. apply andb_true_iff in Hp as [_ Hp]. apply Z.eqb_eq in Hp.
  ok_push. destruct Hseen as (v' & Hv' & Hl). change (tb_key billing_invoices inv) with (i_ID inv) in Hv'.
  rewrite Hv in Hv'. injection Hv' as <-. by apply inv_same_version.
Qed.

(** Projections of rows that differ from a seen one in nothing stored. *)
Ltac inv_same H :=
  let E := fresh in
  pose proof (inv_row_eq _ _ H) as E; destruct E as (? & ? & ? & ? & ? & ?).

Lemma inv_later_refigured (r r' : Invoice) :
  InvoiceFrozen (i_State r) = false → i_Version r < i_Version r' → inv_ident r' = inv_ident r →
  i_PaidMinor r' = i_PaidMinor r → i_CreditedMinor r' = i_CreditedMinor r →
  (i_State r' = i_State r ∨ inv_moves (i_State r) (i_State r')) → inv_later r r'.
Proof.
  intros Hf Hv Hi Hp Hc Hm. right. split; [done|]. split; [done|]. split.
  { destruct Hm as [->|Hm]; [reflexivity|]. by apply rtc_once. }
  split; [lia|]. split; [lia|]. congruence.
Qed.

Lemma inv_later_moved (r r' : Invoice) :
  i_Version r < i_Version r' → inv_ident r' = inv_ident r → inv_figures r' = inv_figures r →
  i_PaidMinor r ≤ i_PaidMinor r' → i_CreditedMinor r ≤ i_CreditedMinor r' →
  (i_State r' = i_State r ∨ inv_moves (i_State r) (i_State r')) → inv_later r r'.
Proof.
  intros Hv Hi Hf Hp Hc Hm. right. split; [done|]. split; [done|]. split.
  { destruct Hm as [->|Hm]; [reflexivity|]. by apply rtc_once. }
  split; [done|]. split; [done|]. auto.
Qed.

Lemma guar_CreateDraft {P} {HA : Accepts P} t sub a b : guar P (CreateDraft t sub a b).
Proof. unfold CreateDraft. guar_all. Qed.
#[global] Hint Resolve guar_CreateDraft : okdb.

(** Reads an invoice and keeps what is then known of it. *)
Ltac ok_read_invoice :=
  eapply (ok_bindR _); [apply ok_GetInvoice| |done];
  intros inv s1 _ (<- & <- & Hseen).

Lemma guar_RecalculateInvoice {P} {HA : Accepts P} t i : guar P (RecalculateInvoice t i).
Proof.
  intros s. unfold RecalculateInvoice. ok_read_invoice.
  ok_skip; [ok_skip|]. do 3 ok_skip.
  apply (ok_bindR _ _ _ _ (λ _ _, True)); [|intros; ok_rest|done].
  apply (ok_mapErrQ _); [|done]. apply ok_inv_update; [done|]. intros r Hr. inv_same Hr.
  apply inv_later_refigured; simpl; [congruence|lia|done..|by left].
Qed.
#[global] Hint Resolve guar_RecalculateInvoice : okdb.

Lemma guar_AddLine {P} {HA : Accepts P} t i l : guar P (AddLine t i l).
Proof. unfold AddLine. guar_all. Qed.
#[global] Hint Resolve guar_AddLine : okdb.

Lemma guar_nextDocumentNumber_loop {P} {HA : Accepts P} n scope prefix :
  guar P (nextDocumentNumber_loop n scope prefix).
Proof. induction n as [|n IH]; simpl; guar_all; try exact IH. Qed.

Lemma guar_nextDocumentNumber {P} {HA : Accepts P} scope prefix : guar P (nextDocumentNumber scope prefix).
Proof. apply guar_nextDocumentNumber_loop. Qed.
#[global] Hint Resolve guar_nextDocumentNumber : okdb.

Lemma guar_IssueInvoice {P} {HA : Accepts P} t i a ip : guar P (IssueInvoice t i a ip).
Proof.
  intros s. unfold IssueInvoice. ok_read_invoice.
  ok_skip; [ok_skip|]. ok_skip; [ok_skip|]. do 6 ok_skip.
  apply (ok_bindR _ _ _ _ (λ _ _, True)); [|intros; ok_rest|done].
  apply (ok_mapErrQ _); [|done]. apply ok_inv_update; [done|]. intros r Hr. inv_same Hr.
  apply inv_later_refigured; simpl; [congruence|lia|done..|].
  right. unfold inv_moves. by replace (i_State r) with (i_State inv); apply negb_false_iff.
Qed.
#[global] Hint Resolve guar_IssueInvoice : okdb.

Lemma ok_settleTo {P} {HA : Accepts P} s inv target paidAt :
  seen_inv inv s → ok P s (settleTo (i_TenantID inv) inv target paidAt) (λ _ _, True).
Proof.
  intros Hseen. unfold settleTo. ok_skip; [ok_skip|]. ok_skip.
  apply (ok_bindR _ _ _ _ (λ _ _, True)); [|intros; ok_rest|done].
  apply (ok_mapErrQ _); [|done]. apply ok_inv_update; [done|]. intros r Hr. inv_same Hr.
  apply orb_false_iff in Heqb as [_ Ht]. apply negb_false_iff in Ht.
  apply inv_later_moved; simpl; [lia|done..|right; unfold inv_moves; congruence].
Qed.

Lemma guar_settleIfPaid {P} {HA : Accepts P} t i : guar P (settleIfPaid t i).
Proof.
  intros s. unfold settleIfPaid. ok_read_invoice.
  destruct (_ =? 0); [ok_skip; by apply ok_settleTo|].
  destruct (_ && _); [ok_skip|by apply ok_settleTo].
Qed.
#[global] Hint Resolve guar_settleIfPaid : okdb.

Lemma guar_RecordPayment {P} {HA : Accepts P} t i n a ip : guar P (RecordPayment t i n a ip).
Proof.
  intros s. unfold RecordPayment. ok_skip; [ok_skip|]. ok_read_invoice.
  ok_skip; [ok_skip|]. ok_skip.
  apply (ok_bindR _ _ _ _ (λ _ _, True)); [|intros; ok_rest|done].
  apply (ok_mapErrQ _); [|done]. apply ok_inv_update; [done|]. intros r Hr.
  apply inv_later_moved; simpl; [lia|done|done|lia|done|by left].
Qed.
#[global] Hint Resolve guar_RecordPayment : okdb.

Lemma guar_MarkInvoiceState {P} {HA : Accepts P} t i g a ip : guar P (MarkInvoiceState t i g a ip).
Proof.
  intros s. unfold MarkInvoiceState. ok_read_invoice.
  ok_skip; [ok_skip|]. ok_skip; [ok_skip|]. do 2 ok_skip.
  apply (ok_bindR _ _ _ _ (λ _ _, True)); [|intros; ok_rest|done].
  apply (ok_mapErrQ _); [|done]. apply ok_inv_update; [done|]. intros r Hr. inv_same Hr.
  apply negb_false_iff in Heqb0.
  apply inv_later_moved; simpl; [lia|done..|right; unfold inv_moves; congruence].
Qed.
#[global] Hint Resolve guar_MarkInvoiceState : okdb.

Lemma guar_addCredit {P} {HA : Accepts P} t i n now : 0 ≤ n → guar P (addCredit t i n now).
Proof.
  intros Hn. unfold addCredit. apply (guar_mapErr _). apply (guar_UPDATE _ inv_later).
  intros v _. apply inv_later_moved; simpl; [lia|done|done|done|lia|by left].
Qed.

Lemma guar_IssueCreditNote {P} {HA : Accepts P} t i n r note a ip : guar P (IssueCreditNote t i n r note a ip).
Proof.
  unfold IssueCreditNote. apply (guar_bindR _); [guar_all|]. intros inv.
  guar_step; [guar_all|]. destruct (Z.leb_spec n 0); [guar_all|].
  pose proof (λ i now, guar_addCredit t i n now ltac:(lia)). guar_all.
Qed.

Lemma guar_applyAccountBalance {P} {HA : Accepts P} inv : guar P (applyAccountBalance inv).
Proof.
  unfold applyAccountBalance. apply (guar_bindR _); [guar_all|]. intros account. cbv zeta.
  destruct (_ || _) eqn:E; [guar_all|]. set (n := if _ : bool then _ else _).
  assert (0 ≤ n) by (subst n; case_match; lia).
  pose proof (λ i now, guar_addCredit (i_TenantID inv) i n now ltac:(lia)). guar_all.
Qed.
#[global] Hint Resolve guar_IssueCreditNote guar_applyAccountBalance : okdb.

Lemma guar_RaiseProrationInvoice {P} {HA : Accepts P} t sub p pr : guar P (RaiseProrationInvoice t sub p pr).
Proof. unfold RaiseProrationInvoice. guar_all. Qed.

Lemma guar_billRollups {P} {HA : Accepts P} sub inv rs billed : guar P (billRollups sub inv rs billed).
Proof.
  revert billed. induction rs as [|r rs IH]; intros billed; simpl; guar_all; apply IH.
Qed.
#[global] Hint Resolve guar_RaiseProrationInvoice guar_billRollups : okdb.

Lemma guar_GenerateSubscriptionInvoice {P} {HA : Accepts P} sub : guar P (GenerateSubscriptionInvoice sub).
Proof. unfold GenerateSubscriptionInvoice. guar_all. Qed.
#[global] Hint Resolve guar_GenerateSubscriptionInvoice : okdb.

(** A line given as a unit price and a quantity of one or more is charged
    the price of a single unit: the amount is prorated, and proration never
    exceeds the whole. *)
Theorem line_quantity_ignored line
    (Hamount : l_AmountMinor line = 0) (Hquantity : 1000 ≤ l_QuantityMilli line) :
  l_AmountMinor (completeLine line) = l_UnitPriceMinor line.
Proof.
  unfold completeLine. set (l1 := if l_Kind line =s "" then _ else _).
  assert (l_QuantityMilli l1 = l_QuantityMilli line ∧ l_AmountMinor l1 = 0 ∧
          l_UnitPriceMinor l1 = l_UnitPriceMinor line) as (Eq & Ea & Eu)
    by (subst l1; by destruct (l_Kind line =s "")).
  rewrite Eq. destruct (Z.eqb_spec (l_QuantityMilli line) 0); [lia|]. rewrite Ea. simpl.
  rewrite Eq, Eu. unfold Prorate. simpl.
  destruct (Z.eqb_spec (l_UnitPriceMinor line) 0) as [->|]; [done|].
  destruct (Z.eqb_spec (l_QuantityMilli line) 0); [lia|]. simpl.
  by destruct (Z.leb_spec 1000 (l_QuantityMilli line)); [|lia].
Qed.

Lemma line_quantity_ignored_witness :
  l_AmountMinor (completeLine (zeroInvoiceLine {{ l_UnitPriceMinor := 1000;
                                                  l_QuantityMilli := 3000 }})) = 1000.
Proof. apply line_quantity_ignored; [reflexivity|simpl; lia]. Defined.
