(* ===== verification/Subscriptions.v ===== *)
(** Subscription operations: [src/src/billing/subscriptions.go]. *)
From stdpp Require Import prelude strings list gmap relations.
From Stdlib Require Import ZArith Lia Ascii.
From S2P Require Import Prelude GoTime Money States Errors Models Store Logic Guarantee Samples Service.
From S2P Require Import Accounts Plans SubQuery Quota Invoices.

(** The initial state, trial end and event of a new subscription. *)
Definition initialState (plan : Plan) (now : Z) : string * Z * string :=
  if 0 <? p_TrialDays plan then
    (StateTrialing, AddDate now 0 0 (p_TrialDays plan), EventTrialStarted)
  else if p_PriceMinor plan =? 0 then (StateActive, 0, EventPaymentAdded)
  else (StatePendingActivation, 0, EventSubscriptionCreated).

Definition Subscribe (tenantID planID actor ip : string) : M (Res Subscription) :=
  let* r := ActiveSubscription tenantID in
  match r with
  | Ok _ => fail (ErrConflict
      "This tenant already has an active subscription; change the plan instead.")
  | Err err =>
      if negb (isNotFound err) then fail err
      else
        let? plan := GetPlan planID in
        if negb (p_Active plan) then
          fail (ErrValidation "That plan is not open for new subscriptions.")
        else
          let? account := EnsureAccount tenantID in
          let* now := unix in
          let* id := newID in
          let stop := AdvancePeriod now (p_Cycle plan) in
          let periodEnd := if IsZero stop then 0 else stop in
          let '(state, trialEnds, event) := initialState plan now in
          let sub := zeroSubscription {{ s_ID := id; s_TenantID := tenantID;
            s_AccountID := a_ID account; s_PlanID := p_ID plan; s_State := state;
            s_Cycle := p_Cycle plan; s_Currency := p_Currency plan;
            s_PriceMinor := p_PriceMinor plan; s_Quantity := 1; s_TrialEndsAt := trialEnds;
            s_PeriodStart := now; s_PeriodEnd := periodEnd; s_CreatedAt := now;
            s_UpdatedAt := now; s_Version := 1 }} in
          let? _ := mapErr (λ e, ErrInternal e "Could not create the subscription.")
                      (INSERT billing_subscriptions sub) in
          let* _ := recordSubscriptionEvent sub event "" (s_State sub) actor
                      ("plan=" +:+ p_Code plan) in
          let* _ := WriteAudit (zeroAudit {{ ar_TenantID := tenantID; ar_Actor := actor;
            ar_Action := ActionSubscriptionCreated; ar_Target := "subscription:" +:+ s_ID sub;
            ar_IP := ip; ar_Detail := "plan=" +:+ p_Code plan }}) in
          let* _ := (if s_State sub =s StateTrialing then notify tenantID NotifyTrialEnding
                     else ret tt) in
          ok_ sub
  end.

(** The pure proration calculation. *)
Definition prorate (sub : Subscription) (target : Plan) (now : Z) : ProrationPreview :=
  let period := s_PeriodEnd sub -! s_PeriodStart sub in
  let remaining := ClampNonNegative (s_PeriodEnd sub -! now) in
  let preview := mkProrationPreview (s_PlanID sub) (p_ID target) (s_Currency sub) 0 0 0 0 false
                   now remaining period in
  if negb (s_PriceMinor sub <? p_PriceMinor target) then
    preview {{ pp_Immediate := false; pp_EffectiveAt := s_PeriodEnd sub }}
  else if (period <=? 0) || (remaining =? 0) then
    preview {{ pp_Immediate := true; pp_ChargeMinor := p_PriceMinor target;
               pp_DueNowMinor := p_PriceMinor target }}
  else
    let credit := Prorate (s_PriceMinor sub) remaining period in
    let charge := Prorate (p_PriceMinor target) remaining period in
    let delta := charge -! credit in
    let preview := preview {{ pp_Immediate := true; pp_CreditMinor := credit;
                              pp_ChargeMinor := charge }} in
    if 0 <=? delta then preview {{ pp_DueNowMinor := delta }}
    else preview {{ pp_RefundMinor := -! delta }}.

Definition PreviewPlanChange (tenantID toPlanID : string) : M (Res ProrationPreview) :=
  let? sub := ActiveSubscription tenantID in
  let? target := GetPlan toPlanID in
  if p_ID target =s s_PlanID sub then fail (ErrValidation "The tenant is already on that plan.")
  else if negb (p_Currency target =s s_Currency sub) then
    fail (ErrValidation "A plan change cannot cross currencies.")
  else if negb (p_Active target) then
    fail (ErrValidation "That plan is not open for new subscriptions.")
  else let* now := unix in ok_ (prorate sub target now).

Definition planChangeError (err : error) : error :=
  if db_IsConflict err then
    ErrConflict "The subscription changed while you were editing it; reload and try again."
  else ErrInternal err "Could not change the subscription.".

Definition sub_guard (tenantID : string) (version : Z) (s : Subscription) : bool :=
  (s_TenantID s =s tenantID) && (s_Version s =? version).

(** The optimistic update of a subscription that was read before. *)
Definition updateSub (tenantID : string) (sub : Subscription) (g : Subscription → Subscription)
  : M (Res unit) :=
  mapErr planChangeError
    (UPDATE_VERSIONED billing_subscriptions (s_ID sub) (sub_guard tenantID (s_Version sub)) g).

Definition creditAccountBalance (tenantID : string) (amountMinor : Z) : M (Res unit) :=
  if amountMinor <=? 0 then ok_ tt
  else
    let* now := unix in
    let? _ := mapErr (λ e, ErrInternal e "Could not credit the account balance.")
      (UPDATE billing_accounts tenantID all_rows (λ a,
         a {{ a_BalanceMinor := a_BalanceMinor a + amountMinor; a_UpdatedAt := now }})) in
    ok_ tt.

Definition ChangePlan (tenantID toPlanID actor ip : string) : M (Res Subscription) :=
  let? preview := PreviewPlanChange tenantID toPlanID in
  let? sub := ActiveSubscription tenantID in
  let? target := GetPlan toPlanID in
  let* now := unix in
  if negb (pp_Immediate preview) then
    let? _ := updateSub tenantID sub (λ r,
      r {{ s_PendingPlanID := p_ID target; s_PendingEffectiveAt := pp_EffectiveAt preview;
           s_UpdatedAt := now; s_Version := s_Version r + 1 }}) in
    let* _ := recordSubscriptionEvent sub EventPlanChanged (s_State sub) (s_State sub) actor
                ("scheduled plan=" +:+ p_Code target) in
    let* _ := WriteAudit (zeroAudit {{ ar_TenantID := tenantID; ar_Actor := actor;
      ar_Action := ActionSubscriptionChanged; ar_Target := "subscription:" +:+ s_ID sub;
      ar_IP := ip; ar_Detail := "scheduled to " +:+ p_Code target }}) in
    GetSubscription tenantID (s_ID sub)
  else
    match NextSubscriptionState (s_State sub) EventPlanChanged with
    | Err _ => fail (ErrConflict ("A plan change is not allowed while the subscription is " +:+
                                  s_State sub +:+ "."))
    | Ok nextState =>
        let? _ := updateSub tenantID sub (λ r,
          r {{ s_PlanID := p_ID target; s_PriceMinor := p_PriceMinor target;
               s_Cycle := p_Cycle target; s_State := nextState; s_PendingPlanID := "";
               s_PendingEffectiveAt := 0; s_UpdatedAt := now; s_Version := s_Version r + 1 }}) in
        let? _ := (if 0 <? pp_DueNowMinor preview then
                     let? _ := RaiseProrationInvoice tenantID sub target preview in ok_ tt
                   else ok_ tt) in
        let? _ := (if 0 <? pp_RefundMinor preview then
                     creditAccountBalance tenantID (pp_RefundMinor preview)
                   else ok_ tt) in
        let detail := "plan=" +:+ p_Code target +:+ " due_now_minor=" +:+
                      itoa (pp_DueNowMinor preview) in
        let* _ := recordSubscriptionEvent sub EventPlanChanged (s_State sub) nextState actor
                    detail in
        let* _ := WriteAudit (zeroAudit {{ ar_TenantID := tenantID; ar_Actor := actor;
          ar_Action := ActionSubscriptionChanged; ar_Target := "subscription:" +:+ s_ID sub;
          ar_IP := ip; ar_Detail := detail }}) in
        GetSubscription tenantID (s_ID sub)
    end.

Definition boolText (b : bool) : string := if b then "true" else "false".

Definition Cancel (tenantID subID : string) (immediate : bool) (reason actor ip : string)
  : M (Res Subscription) :=
  let? sub := GetSubscription tenantID subID in
  match NextSubscriptionState (s_State sub) EventCancelled with
  | Err _ => fail (ErrConflict ("This subscription is already " +:+ s_State sub +:+ "."))
  | Ok nextState =>
      let* now := unix in
      let endedAt := if immediate then now else 0 in
      let cancelAtEnd := negb immediate in
      let? _ := updateSub tenantID sub (λ r,
        r {{ s_State := nextState; s_CancelledAt := now; s_EndedAt := endedAt;
             s_CancelAtPeriodEnd := cancelAtEnd; s_PendingPlanID := "";
             s_PendingEffectiveAt := 0; s_UpdatedAt := now; s_Version := s_Version r + 1 }}) in
      let* _ := recordSubscriptionEvent sub EventCancelled (s_State sub) nextState actor reason in
      let* _ := WriteAudit (zeroAudit {{ ar_TenantID := tenantID; ar_Actor := actor;
        ar_Action := ActionSubscriptionCancel; ar_Target := "subscription:" +:+ s_ID sub;
        ar_IP := ip;
        ar_Detail := "immediate=" +:+ boolText immediate +:+ " reason=" +:+ reason }}) in
      let* _ := notify tenantID NotifyCancelled in
      GetSubscription tenantID (s_ID sub)
  end.

Definition Resume (tenantID subID actor ip : string) : M (Res Subscription) :=
  let? sub := GetSubscription tenantID subID in
  let finish (detail : string) (to : string) :=
    let* _ := recordSubscriptionEvent sub EventResumed (s_State sub) to actor detail in
    let* _ := WriteAudit (zeroAudit {{ ar_TenantID := tenantID; ar_Actor := actor;
      ar_Action := ActionSubscriptionResumed; ar_Target := "subscription:" +:+ s_ID sub;
      ar_IP := ip }}) in
    GetSubscription tenantID (s_ID sub) in
  if (s_State sub =s StateCancelled) && (s_EndedAt sub =? 0) then
    let* now := unix in
    let? _ := updateSub tenantID sub (λ r,
      r {{ s_State := StateActive; s_CancelledAt := 0; s_CancelAtPeriodEnd := false;
           s_UpdatedAt := now; s_Version := s_Version r + 1 }}) in
    finish "cancellation withdrawn" StateActive
  else
    match NextSubscriptionState (s_State sub) EventResumed with
    | Err _ => fail (ErrConflict ("A subscription that is " +:+ s_State sub +:+
                                  " cannot be resumed."))
    | Ok nextState =>
        let* now := unix in
        let? _ := updateSub tenantID sub (λ r,
          r {{ s_State := nextState; s_UpdatedAt := now; s_Version := s_Version r + 1 }}) in
        finish "" nextState
    end.

Definition Transition (sub : Subscription) (event actor detail : string) : M (Res Subscription) :=
  match NextSubscriptionState (s_State sub) event with
  | Err m => fail (ErrConflict m)
  | Ok nextState =>
      let* now := unix in
      let endedAt := if (nextState =s StateExpired) && (s_EndedAt sub =? 0) then now
                     else s_EndedAt sub in
      let? _ := updateSub (s_TenantID sub) sub (λ r,
        r {{ s_State := nextState; s_EndedAt := endedAt; s_UpdatedAt := now;
             s_Version := s_Version r + 1 }}) in
      let* _ := recordSubscriptionEvent sub event (s_State sub) nextState actor detail in
      GetSubscription (s_TenantID sub) (s_ID sub)
  end.

Definition StartGrace (sub : Subscription) (detail : string) : M (Res Subscription) :=
  let* plan := GetPlan (s_PlanID sub) in
  let graceDays := match plan with
                   | Ok p => if 0 <? p_GraceDays p then p_GraceDays p else DefaultGraceDays
                   | Err _ => DefaultGraceDays
                   end in
  let* today := unix in
  let graceEnds := AddDate today 0 0 graceDays in
  let? updated := Transition sub EventPaymentFailed "system" detail in
  let* now := unix in
  let? _ := mapErr (λ e, ErrInternal e "Could not start the grace period.")
    (UPDATE billing_subscriptions (s_ID updated) (λ r, s_TenantID r =s s_TenantID updated) (λ r,
       r {{ s_GraceEndsAt := graceEnds; s_UpdatedAt := now }})) in
  let* _ := notify (s_TenantID sub) NotifyGraceStarted in
  GetSubscription (s_TenantID updated) (s_ID updated).

Definition AdvanceRenewal (sub : Subscription) : M (Res Subscription) :=
  let* start := (if s_PeriodEnd sub =? 0 then unix else ret (s_PeriodEnd sub)) in
  let stop := AdvancePeriod start (s_Cycle sub) in
  if IsZero stop then ok_ sub
  else
    let* now := unix in
    let? _ := updateSub (s_TenantID sub) sub (λ r,
      r {{ s_PeriodStart := start; s_PeriodEnd := stop; s_GraceEndsAt := 0; s_UpdatedAt := now;
           s_Version := s_Version r + 1 }}) in
    let* _ := recordSubscriptionEvent sub EventRenewed (s_State sub) (s_State sub) "system"
                ("period_end=" +:+ itoa stop) in
    GetSubscription (s_TenantID sub) (s_ID sub).

Definition ApplyPendingPlan (sub : Subscription) : M (Res Subscription) :=
  if s_PendingPlanID sub =s "" then ok_ sub
  else
    let* t := unix in
    if t <? s_PendingEffectiveAt sub then ok_ sub
    else
      let? target := GetPlan (s_PendingPlanID sub) in
      let* now := unix in
      let? _ := updateSub (s_TenantID sub) sub (λ r,
        r {{ s_PlanID := p_ID target; s_PriceMinor := p_PriceMinor target;
             s_Cycle := p_Cycle target; s_PendingPlanID := ""; s_PendingEffectiveAt := 0;
             s_UpdatedAt := now; s_Version := s_Version r + 1 }}) in
      let* _ := recordSubscriptionEvent sub EventPlanChanged (s_State sub) (s_State sub) "system"
                  ("scheduled change applied plan=" +:+ p_Code target) in
      GetSubscription (s_TenantID sub) (s_ID sub).

Definition DueSubscriptions (cutoff : Z) : M (Res (list Subscription)) :=
  mapErr (λ e, ErrInternal e "Could not read the due subscriptions.")
    (SELECT billing_subscriptions
       (λ s, (0 <? s_PeriodEnd s) && (s_PeriodEnd s <=? cutoff) &&
             mem (s_State s) [StateActive; StateTrialing; StateCancelled]) (asc s_PeriodEnd)).

(** * Guarantees *)

Notation seen_sub := (seen billing_subscriptions sub_later).

(** The row an optimistic update overwrites is the one that was read. *)
Lemma ok_updateSub {P} {HA : Accepts P} s sub g :
  seen_sub sub s →
  (∀ r, sub_core r = sub_core sub → s_Version r = s_Version sub → sub_later r (g r)) →
  ok P s (updateSub (s_TenantID sub) sub g) (λ _ _, True).
Proof.
  intros Hseen Hg. unfold updateSub. apply (ok_mapErrQ _); [|done].
  apply (ok_UPDATE_VERSIONED _ sub_later); [|done].
  intros s1 v Hs Hi Hv Hp. split; [|done].
  unfold sub_guard in Hp. apply andb_true_iff in Hp as [_ Hp]. apply Z.eqb_eq in Hp.
  ok_push. destruct Hseen as (v' & Hv' & Hl).
  change (tb_key billing_subscriptions sub) with (s_ID sub) in Hv'.
  rewrite Hv in Hv'. injection Hv' as <-. destruct Hl as (_ & _ & Hcore & _). auto.
Qed.

Lemma sub_later_moved (r r' : Subscription) :
  sub_ident r' = sub_ident r → s_Version r < s_Version r' →
  (s_State r' = s_State r ∨ svc_move (s_State r) (s_State r')) →
  (ended r → ended r') → sub_later r r'.
Proof.
  intros Hi Hv Hm He. split; [done|]. split; [lia|]. split; [lia|]. split; [|done].
  destruct Hm as [->|Hm]; [reflexivity|by apply rtc_once].
Qed.

Lemma sub_later_kept (r r' : Subscription) :
  sub_ident r' = sub_ident r → s_Version r < s_Version r' → s_State r' = s_State r →
  s_EndedAt r' = s_EndedAt r → sub_later r r'.
Proof.
  intros Hi Hv Hs He. apply sub_later_moved; [done..|by left|].
  unfold ended. by rewrite Hs, He.
Qed.

(** Reads a subscription and keeps what is then known of it. *)
Ltac ok_read_sub :=
  eapply (ok_bindR _); [apply ok_GetSubscription| |done];
  intros sub ? _ (<- & <- & Hseen).

(** An optimistic update followed by the rest of the operation. *)
Ltac ok_update_sub :=
  lazymatch goal with
  | |- ok ?P ?s (bindR ?m ?k) _ =>
      apply (ok_bindR P s m k (λ _ _, True));
      [apply ok_updateSub; [assumption|]|intros ? ? ? _; ok_push|done];
      revgoals
  end.

Lemma guar_PreviewPlanChange {P} {HA : Accepts P} t p : guar P (PreviewPlanChange t p).
Proof. unfold PreviewPlanChange. guar_all. Qed.

Lemma guar_creditAccountBalance {P} {HA : Accepts P} t n : guar P (creditAccountBalance t n).
Proof. unfold creditAccountBalance. guar_all. Qed.

Lemma guar_Subscribe {P} {HA : Accepts P} t p a ip : guar P (Subscribe t p a ip).
Proof. unfold Subscribe. guar_all. Qed.
#[global] Hint Resolve guar_PreviewPlanChange guar_creditAccountBalance guar_Subscribe : okdb.

(** Only an active subscription accepts [EventPlanChanged], only a live one
    [EventCancelled] and only a paused one [EventResumed]; none is over. *)
Lemma plan_change_not_ended r st :
  NextSubscriptionState (s_State r) EventPlanChanged = Ok st → ¬ ended r.
Proof. intros H [_ [E|E]]; by rewrite E in H. Qed.

Lemma cancel_not_ended r st :
  NextSubscriptionState (s_State r) EventCancelled = Ok st → ¬ ended r.
Proof. intros H [_ [E|E]]; by rewrite E in H. Qed.

Lemma resume_not_ended r st :
  NextSubscriptionState (s_State r) EventResumed = Ok st → ¬ ended r.
Proof. intros H [_ [E|E]]; by rewrite E in H. Qed.

Lemma guar_ChangePlan {P} {HA : Accepts P} t p a ip : guar P (ChangePlan t p a ip).
Proof.
  intros s. unfold ChangePlan. ok_skip.
  eapply (ok_bindR _); [apply ok_ActiveSubscription| |done].
  intros sub s2 _ (<- & _ & Hseen). do 2 ok_skip. ok_skip.
  - apply (ok_bindR _ _ _ _ (λ _ _, True)); [|intros; ok_rest|done].
    apply ok_updateSub; [done|]. intros r _ _. apply sub_later_kept; simpl; [done|lia|done..].
  - destruct (NextSubscriptionState _ _) as [st|] eqn:E; [|ok_skip].
    ok_update_sub; [intros; ok_rest|]. intros r Hr _. apply sub_core_eq in Hr as (Es & _).
    rewrite <-Es in E. apply sub_later_moved; simpl; [done|lia|right; by eapply svc_event|].
    by intros ?%(plan_change_not_ended _ _ E).
Qed.

Lemma guar_Cancel {P} {HA : Accepts P} t i b r a ip : guar P (Cancel t i b r a ip).
Proof.
  intros s. unfold Cancel. ok_read_sub.
  destruct (NextSubscriptionState _ _) as [st|] eqn:E; [|ok_skip]. ok_skip. cbv zeta.
  ok_update_sub; [intros; ok_rest|]. intros x Hr _. apply sub_core_eq in Hr as (Es & _).
  rewrite <-Es in E. apply sub_later_moved; simpl; [done|lia|right; by eapply svc_event|].
  by intros ?%(cancel_not_ended _ _ E).
Qed.

Lemma guar_Resume {P} {HA : Accepts P} t i a ip : guar P (Resume t i a ip).
Proof.
  intros s. unfold Resume. ok_read_sub. cbv zeta. destruct (_ && _) eqn:Ew.
  - ok_skip. apply andb_true_iff in Ew as [Ew1%seqb_eq Ew2%Z.eqb_eq].
    ok_update_sub; [intros; ok_rest|]. intros x Hr _. apply sub_core_eq in Hr as (Es & Ee & _).
    apply sub_later_moved; simpl; [done|lia| |].
    + right. rewrite Es, Ew1. constructor.
    + intros [? _]. congruence.
  - destruct (NextSubscriptionState _ _) as [st|] eqn:E; [|ok_skip]. ok_skip.
    ok_update_sub; [intros; ok_rest|]. intros x Hr _. apply sub_core_eq in Hr as (Es & _).
    rewrite <-Es in E. apply sub_later_moved; simpl; [done|lia|right; by eapply svc_event|].
    by intros ?%(resume_not_ended _ _ E).
Qed.
#[global] Hint Resolve guar_ChangePlan guar_Cancel guar_Resume : okdb.

(** What the renewal and dunning tasks know of a subscription they moved. *)
Definition sub_result (sub : Subscription) (r : Res Subscription) (s : Shared) : Prop :=
  match r with
  | Ok u => s_TenantID u = s_TenantID sub ∧ s_ID u = s_ID sub ∧ seen_sub u s
  | Err _ => True
  end.

Lemma ok_reread {P} {HA : Accepts P} s sub :
  ok P s (GetSubscription (s_TenantID sub) (s_ID sub)) (sub_result sub).
Proof. apply ok_GetSubscription. Qed.

(** An event never moves a subscription that is over back to life. *)
Lemma event_keeps_ended r st ev e :
  NextSubscriptionState (s_State r) ev = Ok st → (ended r → e = s_EndedAt r) → ended r →
  e ≠ 0 ∧ (st = StateCancelled ∨ st = StateExpired).
Proof.
  intros H He Hr. rewrite (He Hr). destruct Hr as [? [E|E]]; rewrite E in H; split; [done| |done|].
  - right. revert H. unfold NextSubscriptionState. simpl. repeat case_match; naive_solver.
  - revert H. unfold NextSubscriptionState. simpl. repeat case_match; naive_solver.
Qed.

Lemma ok_Transition {P} {HA : Accepts P} s sub ev a d :
  seen_sub sub s → ok P s (Transition sub ev a d) (sub_result sub).
Proof.
  intros Hseen. unfold Transition.
  destruct (NextSubscriptionState _ _) as [st|] eqn:E; [|ok_skip]. ok_skip. cbv zeta.
  ok_update_sub; [ok_skip; apply ok_reread|]. intros x Hr _.
  apply sub_core_eq in Hr as (Es & Ee & _). rewrite <-Es in E.
  apply sub_later_moved; simpl; [done|lia|right; by eapply svc_event|].
  intros Hx. eapply event_keeps_ended; [exact E| |exact Hx].
  intros [Hne _]. rewrite <-Ee. destruct (Z.eqb_spec (s_EndedAt x) 0); [done|].
  by rewrite andb_false_r.
Qed.

Lemma ok_StartGrace {P} {HA : Accepts P} s sub d :
  seen_sub sub s → ok P s (StartGrace sub d) (sub_result sub).
Proof.
  intros Hseen. unfold StartGrace. do 2 ok_skip. cbv zeta.
  eapply (ok_bindR _); [by apply ok_Transition| |done]. intros u s9 _ (Et & Ei & Hu).
  ok_skip. apply (ok_bindR _ _ _ _ (λ _ _, True)); [| |done].
  - apply (ok_mapErrQ _); [|done]. apply (guar_UPDATE _ sub_later).
    intros v _. by split_and!.
  - intros _ s10 ? _. ok_push. ok_skip. unfold sub_result. rewrite <-Et, <-Ei. apply ok_reread.
Qed.

Lemma ok_AdvanceRenewal {P} {HA : Accepts P} s sub :
  seen_sub sub s → ok P s (AdvanceRenewal sub) (sub_result sub).
Proof.
  intros Hseen. unfold AdvanceRenewal. ok_skip. cbv zeta.
  destruct (IsZero _); [by apply (ok_ret _)|]. ok_skip.
  ok_update_sub; [ok_skip; apply ok_reread|]. intros x _ _.
  apply sub_later_kept; simpl; [done|lia|done..].
Qed.

Lemma ok_ApplyPendingPlan {P} {HA : Accepts P} s sub :
  seen_sub sub s → ok P s (ApplyPendingPlan sub) (sub_result sub).
Proof.
  intros Hseen. unfold ApplyPendingPlan.
  destruct (_ =s _); [by apply (ok_ret _)|]. ok_skip.
  destruct (_ <? _); [by apply (ok_ret _)|]. do 2 ok_skip.
  ok_update_sub; [ok_skip; apply ok_reread|]. intros x _ _.
  apply sub_later_kept; simpl; [done|lia|done..].
Qed.

Lemma ok_DueSubscriptions {P} {HA : Accepts P} s c :
  ok P s (DueSubscriptions c) (λ r s', match r with
    | Ok l => ∀ sub, sub ∈ l → seen_sub sub s'
    | Err _ => True end).
Proof.
  unfold DueSubscriptions. apply (ok_mapErrQ _); [|done].
  apply (ok_SELECT _ sub_later); [|done]. intros s1 l _ _ Hl sub Hin. by apply Hl.
Qed.

(** * Properties *)


