(* ===== verification/Settlement.v ===== *)
(** What recording a payment and issuing a credit note do to an invoice, exactly
    ([RecordPayment], [settleIfPaid], [IssueCreditNote] of
    [src/src/billing/invoices.go]), and that document numbers are never reused. *)
From stdpp Require Import prelude strings list gmap relations.
From Stdlib Require Import ZArith Lia.
From S2P Require Import Prelude GoTime Money States Errors Models Store Logic Guarantee Samples Service.
From S2P Require Import Quiet Tax Accounts Plans SubQuery Quota Invoices.

(** The state an invoice is in after [settleIfPaid] looked at its balance. *)
Definition settled (i : Invoice) : string :=
  let target := if BalanceDueMinor i =? 0 then InvoicePaid
                else if (i_PaidMinor i =? 0) && (i_CreditedMinor i =? 0) then i_State i
                else InvoicePartial in
  if CanTransitionInvoice (i_State i) target then target else i_State i.

(** The stored row of an invoice of a tenant. *)
Definition stored (s : Shared) (v : Invoice) : Prop :=
  t_invoices (sh_db s) !! i_ID v = Some v ∧ (TrimSpace (i_TenantID v) =s "") = false.

Lemma q_GetInvoice s v (Q : Res Invoice → Shared → Prop) :
  stored s v → (∀ lines, Q (Ok (v {{ i_Lines := lines }})) s) →
  ok quietP s (GetInvoice (i_TenantID v) (i_ID v)) Q.
Proof.
  intros [Hv Ht] HQ. unfold GetInvoice. rewrite Ht. apply q_bindR, q_mapErr, q_SELECT_ROW.
  unfold find_row. simpl. rewrite Hv, seqb_refl. unfold InvoiceLines.
  apply q_bindR, q_mapErr, q_query. apply (ok_ret _). intros _. apply HQ.
Qed.

(** The optimistic update of the row just read always wins when alone. *)
Lemma q_update_invoice s v lines g (Q : Res unit → Shared → Prop) :
  stored s v →
  Q (Ok tt) (set_db s ((sh_db s) {{ t_invoices := <[i_ID v := g v]> (t_invoices (sh_db s)) }})) →
  let inv := v {{ i_Lines := lines }} in
  ok quietP s (mapErr invoiceWriteError
    (UPDATE_VERSIONED billing_invoices (i_ID inv) (inv_guard (i_TenantID v) (i_Version inv)) g)) Q.
Proof.
  intros [Hv Ht] HQ inv. apply q_mapErr. apply (q_UPDATE_VERSIONED billing_invoices _ _ v); [done| |done].
  unfold inv_guard. simpl. by rewrite seqb_refl, Z.eqb_refl.
Qed.

Lemma same_but_audit_invoices s s' :
  same_but_audit s s' → t_invoices (sh_db s') = t_invoices (sh_db s).
Proof. intros ->. done. Qed.

Lemma stored_audit s s' v : same_but_audit s s' → stored s v → stored s' v.
Proof. intros H%same_but_audit_invoices [Hv Ht]. by split; [rewrite H|]. Qed.

Lemma stored_update s v v' :
  stored s v → i_ID v' = i_ID v → i_TenantID v' = i_TenantID v →
  stored (set_db s ((sh_db s) {{ t_invoices := <[i_ID v := v']> (t_invoices (sh_db s)) }})) v'.
Proof. intros [Hv Ht] Ei Et. split; [simpl; by rewrite Ei, lookup_insert_eq|by rewrite Et]. Qed.

(** What [settleIfPaid] leaves: the same invoice, in the state the balance asks
    for when the machine has an edge to it. *)
Definition settles (v : Invoice) (r : Res Invoice) (s : Shared) : Prop :=
  ∃ v', r = Ok v' ∧ stored s (inv_row v') ∧ i_ID v' = i_ID v ∧ i_TenantID v' = i_TenantID v ∧
    i_State v' = settled v ∧ i_PaidMinor v' = i_PaidMinor v ∧
    i_CreditedMinor v' = i_CreditedMinor v ∧ inv_figures v' = inv_figures v.

Lemma settles_kept v lines s : inv_row v = v → stored s v → settled v = i_State v →
  settles v (Ok (v {{ i_Lines := lines }})) s.
Proof.
  intros Hr Hs He. exists (v {{ i_Lines := lines }}). split; [done|].
  split; [|split_and!; try done; simpl; by rewrite He].
  replace (inv_row (v {{ i_Lines := lines }})) with (inv_row v) by done. by rewrite Hr.
Qed.

Lemma q_settleTo s v lines target paidAt :
  inv_row v = v → stored s v →
  settled v = (if CanTransitionInvoice (i_State v) target then target else i_State v) →
  ok quietP s (settleTo (i_TenantID v) (v {{ i_Lines := lines }}) target paidAt) (settles v).
Proof.
  intros Hr Hs He. unfold settleTo.
  change (i_State (v {{ i_Lines := lines }})) with (i_State v).
  destruct (i_State v =s target) eqn:Es.
  { apply seqb_eq in Es. apply (ok_ret _). intros _. apply settles_kept; [done..|].
    rewrite He, <-Es. destruct (CanTransitionInvoice (i_State v) (i_State v)); reflexivity. }
  destruct (CanTransitionInvoice _ target) eqn:Ec; simpl;
    [|apply (ok_ret _); intros _; by apply settles_kept].
  apply q_step, (ok_ask _). intros w n _.
  set (v' := v {{ i_State := target; i_PaidAt := paidAt; i_UpdatedAt := w_now w n;
                  i_Version := i_Version v + 1 }}).
  apply q_bindR. apply (q_update_invoice s v lines); [done|].
  pose proof (stored_update s v v' Hs eq_refl eq_refl) as Hs'.
  apply q_audit; [destruct (target =s InvoicePaid); guar_all|]. intros _ s2 Hsame.
  apply (stored_audit _ _ _ Hsame) in Hs'.
  apply (q_GetInvoice s2 v' _ Hs'). intros lines'. exists (v' {{ i_Lines := lines' }}).
  split; [done|]. split; [|split_and!; try done; simpl; by rewrite He].
  replace (inv_row (v' {{ i_Lines := lines' }})) with (inv_row v') by done.
  replace (inv_row v') with v'; [done|].
  subst v'. destruct v. unfold inv_row in Hr. simpl in *. by injection Hr as <-.
Qed.

Lemma q_settleIfPaid s v :
  inv_row v = v → stored s v → ok quietP s (settleIfPaid (i_TenantID v) (i_ID v)) (settles v).
Proof.
  intros Hr Hs. unfold settleIfPaid. apply q_bindR, (q_GetInvoice s v _ Hs). intros lines.
  change (BalanceDueMinor (v {{ i_Lines := lines }})) with (BalanceDueMinor v).
  change (i_PaidMinor (v {{ i_Lines := lines }})) with (i_PaidMinor v).
  change (i_CreditedMinor (v {{ i_Lines := lines }})) with (i_CreditedMinor v).
  destruct (BalanceDueMinor v =? 0) eqn:Eb.
  { apply q_step, (ok_ask _). intros w n _. apply q_settleTo; [done..|].
    unfold settled. by rewrite Eb. }
  destruct ((i_PaidMinor v =? 0) && (i_CreditedMinor v =? 0)) eqn:Ez.
  { apply (ok_ret _). intros _. apply settles_kept; [done..|]. unfold settled.
    rewrite Eb, Ez. by destruct (CanTransitionInvoice _ _). }
  apply q_settleTo; [done..|]. unfold settled. by rewrite Eb, Ez.
Qed.

Lemma q_RecordPayment s v amount actor ip :
  inv_row v = v → stored s v → 0 < amount → i_State v ≠ InvoiceDraft →
  ok quietP s (RecordPayment (i_TenantID v) (i_ID v) amount actor ip) (λ r s',
    ∃ v1, i_PaidMinor v1 = i_PaidMinor v + amount ∧ i_State v1 = i_State v ∧
      i_CreditedMinor v1 = i_CreditedMinor v ∧ inv_figures v1 = inv_figures v ∧ i_ID v1 = i_ID v ∧
      settles v1 r s').
Proof.
  intros Hr Hs Ha Hd. unfold RecordPayment. destruct (Z.leb_spec amount 0); [lia|].
  apply q_bindR, (q_GetInvoice s v _ Hs). intros lines.
  change (i_State (v {{ i_Lines := lines }})) with (i_State v).
  destruct (i_State v =s InvoiceDraft) eqn:Ed; [by apply seqb_eq in Ed|].
  apply q_step, (ok_ask _). intros w n _.
  set (v1 := v {{ i_PaidMinor := i_PaidMinor v + amount; i_UpdatedAt := w_now w n;
                  i_Version := i_Version v + 1 }}).
  apply q_bindR. apply (q_update_invoice s v lines); [done|].
  pose proof (stored_update s v v1 Hs eq_refl eq_refl) as Hs'.
  apply q_audit; [guar_all|]. intros _ s2 Hsame. apply (stored_audit _ _ _ Hsame) in Hs'.
  assert (inv_row v1 = v1) as Hr1.
  { subst v1. destruct v. unfold inv_row in *. simpl in *. by injection Hr as <-. }
  eapply (ok_conseq _); [apply (q_settleIfPaid s2 v1 Hr1 Hs')|].
  intros r s3 _ _ Hset. exists v1. by split_and!.
Qed.



(** Paying the balance leaves none, whatever wraps around. *)
Lemma full_payment_balance v v1 :
  i_TotalMinor v1 = i_TotalMinor v → i_CreditedMinor v1 = i_CreditedMinor v →
  i_PaidMinor v1 = i_PaidMinor v + BalanceDueMinor v → 0 < BalanceDueMinor v →
  BalanceDueMinor v1 = 0.
Proof.
  unfold BalanceDueMinor, ClampNonNegative. intros -> -> ->.
  set (x := i_TotalMinor v - i_PaidMinor v - i_CreditedMinor v).
  assert (∀ a b, wrap64 a -! b = wrap64 (a - b)) as Hw.
  { intros a b. replace (wrap64 a - b) with (wrap64 a + - b) by lia.
    rewrite wrap64_wrap64_add. done. }
  rewrite !Hw. fold x. destruct (Z.ltb_spec (wrap64 x) 0); [lia|]. intros _.
  replace (i_TotalMinor v - (i_PaidMinor v + wrap64 x) - i_CreditedMinor v) with (x - wrap64 x)
    by lia.
  replace (wrap64 (x - wrap64 x)) with 0; [done|].
  unfold wrap64. replace (x - ((x + 2 ^ 63) mod 2 ^ 64 - 2 ^ 63) + 2 ^ 63)
    with (2 ^ 63 + (x + 2 ^ 63) / 2 ^ 64 * 2 ^ 64)
    by (pose proof (Z.div_mod (x + 2 ^ 63) (2 ^ 64)); lia).
  rewrite Z.mod_add by lia. rewrite Z.mod_small; lia.
Qed.

(** The machine has no edge from issued, due or overdue to paid, so a
    payment of the whole balance leaves such an invoice in its state: nothing is
    left to pay and it is still listed as open. *)
Theorem full_payment_leaves_open w st v actor ip
    (Hw : rely quietP w) (Hrow : inv_row v = v) (Hv : stored (st_sh st) v)
    (Hstate : i_State v ∈ [InvoiceIssued; InvoiceDue; InvoiceOverdue])
    (Hdue : 0 < BalanceDueMinor v) :
  let run := RecordPayment (i_TenantID v) (i_ID v) (BalanceDueMinor v) actor ip w st in
  ∃ row, t_invoices (sh_db (st_sh run.2)) !! i_ID v = Some row ∧ i_State row = i_State v ∧
    mem (i_State row) [InvoiceIssued; InvoiceDue; InvoiceOverdue; InvoicePartial] = true.
Proof.
  intros run.
  assert (i_State v ≠ InvoiceDraft) as Hd.
  { intros E. rewrite E, !elem_of_cons, elem_of_nil in Hstate. naive_solver. }
  destruct (quiet_run _ _ w st (q_RecordPayment (st_sh st) v (BalanceDueMinor v) actor ip Hrow Hv
    Hdue Hd) Hw) as (v1 & Hp & Hs & Hc & Hf & Hi & v' & Er & [Hrow' _] & Ei & _ & Es & _).
  assert (BalanceDueMinor v1 = 0) as Hb.
  { apply (full_payment_balance v); [|done..]. unfold inv_figures in Hf. congruence. }
  assert (settled v1 = i_State v) as He.
  { unfold settled. rewrite Hb, Hs. rewrite !elem_of_cons in Hstate.
    destruct Hstate as [->|[->|[->|[]%elem_of_nil]]]; done. }
  exists (inv_row v'). split; [rewrite <-Hi, <-Ei; exact Hrow'|].
  assert (i_State (inv_row v') = i_State v) as -> by exact (eq_trans Es He).
  split; [done|]. rewrite !elem_of_cons in Hstate.
  destruct Hstate as [->|[->|[->|[]%elem_of_nil]]]; done.
Qed.

Lemma full_payment_leaves_open_witness :
  let run := RecordPayment "acme" "inv-1" 2000 "admin" "" sample_world (start sample_db) in
  ∃ row, t_invoices (sh_db (st_sh run.2)) !! "inv-1" = Some row ∧ i_State row = InvoiceIssued ∧
    mem (i_State row) [InvoiceIssued; InvoiceDue; InvoiceOverdue; InvoicePartial] = true.
Proof.
  apply (full_payment_leaves_open sample_world (start sample_db) sample_invoice "admin" "");
    [apply sample_quiet|reflexivity|by split|left|reflexivity].
Defined.

(** Document numbers are never reused: the compare-and-set loop of
    [nextDocumentNumber] ([src/src/billing/invoices.go]). *)

Section counter.
Context (scope : string).

(** The next number of the scope; zero before the first. *)
Definition counter (s : Shared) : Z :=
  default 0 (sq_Next <$> t_sequences (sh_db s) !! scope).

(** Other sessions only move the counter forward, as this one does. *)
Definition forward (w : World) : Prop := ∀ n s, counter s ≤ counter (w_env w n s).

Lemma read_counter w st :
  forward w →
  let run := SELECT_ROW billing_document_sequences scope all_rows w st in
  counter (st_sh st) ≤ counter (st_sh run.2) ∧
  match run.1 with
  | Ok row => counter (st_sh run.2) = sq_Next row ∧
              t_sequences (sh_db (st_sh run.2)) !! scope = Some row
  | Err e => isNoRows e = true → t_sequences (sh_db (st_sh run.2)) !! scope = None
  end.
Proof.
  intros Hw run. subst run. unfold SELECT_ROW, query_row, read.
  specialize (Hw (st_tick st) (st_sh st)).
  destruct (w_fault w (st_tick st)) as [|f|f]; [|by destruct f..]. simpl.
  unfold find_row, all_rows. simpl.
  destruct (t_sequences _ !! scope) as [row|] eqn:E; simpl; [|done].
  split; [done|]. split; [|done]. unfold counter. by rewrite E.
Qed.

(** A write to the scope's row sees the counter moved forward, and then moves it
    itself unless it is lost. *)
Lemma write_counter w st f :
  forward w →
  let run := exec "billing_document_sequences" f w st in
  let s1 := w_env w (st_tick st) (st_sh st) in
  counter (st_sh st) ≤ counter s1 ∧
  match run.1 with
  | Ok k => ∃ db', f (sh_db s1) = Some (k, db') ∧ st_sh run.2 = set_db s1 db'
  | Err _ => st_sh run.2 = s1 ∨ ∃ k db', f (sh_db s1) = Some (k, db') ∧ st_sh run.2 = set_db s1 db'
  end.
Proof.
  intros Hw run s1. subst run. split; [apply Hw|]. unfold exec. cbv zeta. fold s1.
  destruct (f (sh_db s1)) as [[k db']|]; destruct (w_fault w (st_tick st)); simpl; eauto.
Qed.

(** What a successful allocation did to the counter. *)
Definition allocates (prefix number : string) (before after : Z) : Prop :=
  ∃ n, before ≤ n ∧ number = docNumber prefix n ∧ after = n +! 1.

Lemma allocates_mono prefix number a b c : a ≤ b → allocates prefix number b c →
  allocates prefix number a c.
Proof. intros H (n & ? & ? & ?). exists n. split; [lia|done]. Qed.

(** The insertion of the scope's first row. *)
Lemma insert_counter w st now :
  forward w → counter (st_sh st) ≤ 1 →
  let run := INSERT billing_document_sequences (mkSequenceRow scope 1 now) w st in
  counter (st_sh st) ≤ counter (st_sh run.2).
Proof.
  intros Hw Hc run. subst run. unfold INSERT, INSERT_UNIQUE.
  set (f := λ db, match tb_get _ db !! _ with Some _ => None | None => _ end).
  assert (∀ s k db', f (sh_db s) = Some (k, db') → counter (set_db s db') = 1) as Hf.
  { intros s k db'. subst f. simpl. destruct (t_sequences _ !! scope); [done|].
    destruct (existsb _ _); [done|]. intros [= <- <-]. unfold counter. simpl.
    by rewrite lookup_insert_eq. }
  destruct (write_counter w st f Hw) as [H1 H2]. simpl in H2.
  destruct (exec _ f w st) as [[k|e] st1]; simpl in *.
  - destruct H2 as (db' & E & ->). rewrite (Hf _ _ _ E). done.
  - destruct H2 as [->|(k & db' & E & ->)]; [done|]. rewrite (Hf _ _ _ E). done.
Qed.

(** The compare-and-set. *)
Lemma cas_counter w st next now :
  forward w → counter (st_sh st) = next →
  let run := UPDATE billing_document_sequences scope (λ r, sq_Next r =? next)
               (λ r, mkSequenceRow (sq_Scope r) (next +! 1) now) w st in
  match run.1 with
  | Ok k => if k =? 0 then counter (st_sh st) ≤ counter (st_sh run.2)
            else counter (st_sh run.2) = next +! 1
  | Err _ => True
  end.
Proof.
  intros Hw Hc run. subst run. unfold UPDATE.
  destruct (write_counter w st (update_stmt billing_document_sequences scope
    (λ r, sq_Next r =? next) (λ r, mkSequenceRow (sq_Scope r) (next +! 1) now)) Hw) as [H1 H2].
  destruct (exec _ _ w st) as [[k|e] st1]; simpl in *; [|done].
  destruct H2 as (db' & E & ->). unfold update_stmt, update_row in E. simpl in E.
  set (s1 := w_env w (st_tick st) (st_sh st)) in *.
  destruct (t_sequences (sh_db s1) !! scope) as [row|] eqn:Er.
  - destruct (sq_Next row =? next); injection E as <- <-; simpl.
    + unfold counter. simpl. by rewrite lookup_insert_eq.
    + unfold counter in *. simpl. rewrite Er in *. done.
  - injection E as <- <-. simpl. unfold counter in *. simpl. rewrite Er in *. done.
Qed.

Lemma loop_allocates attempts prefix w st number st' :
  forward w →
  nextDocumentNumber_loop attempts scope prefix w st = (Ok number, st') →
  allocates prefix number (counter (st_sh st)) (counter (st_sh st')).
Proof.
  intros Hw. revert st. induction attempts as [|attempts IH]; intros st; simpl; [done|].
  unfold bind at 1. pose proof (read_counter w st Hw) as [Hr Hrow].
  destruct (SELECT_ROW _ _ _ w st) as [[row|e] st1]; simpl in *.
  - destruct Hrow as [Hc _]. unfold bind at 1, unix, ask, bindR, mapErr.
    unfold bind at 1. unfold bind at 1.
    pose proof (cas_counter w (mkSt (st_sh st1) (S (st_tick st1)) (st_own st1)) (sq_Next row)
      (w_now w (st_tick st1)) Hw Hc) as Hcas.
    destruct (UPDATE _ _ _ _ w _) as [[k|e] st2]; simpl in *; [|done].
    destruct (k =? 0).
    + intros H. eapply allocates_mono; [|by eapply IH]. lia.
    + unfold ok_, ret. intros [= <- <-]. exists (sq_Next row). split; [lia|done].
  - destruct (isNoRows e); [|done]. specialize (Hrow eq_refl). unfold bind at 1, unix, ask. unfold bind at 1.
    pose proof (insert_counter w (mkSt (st_sh st1) (S (st_tick st1)) (st_own st1))
      (w_now w (st_tick st1)) Hw) as Hins.
    assert (counter (st_sh st1) = 0) as H0 by (unfold counter; by rewrite Hrow).
    simpl in Hins. rewrite H0 in *. specialize (Hins ltac:(lia)).
    destruct (INSERT _ _ w _) as [[k|e'] st2]; simpl in *.
    + intros H. eapply allocates_mono; [|by eapply IH]. lia.
    + destruct (IsAlreadyExistsError e'); simpl; [|done].
      intros H. eapply allocates_mono; [|by eapply IH]. lia.
Qed.

End counter.

(** A printed number determines the number. *)
Lemma docNumber_inj prefix a b : 0 ≤ a → 0 ≤ b → docNumber prefix a = docNumber prefix b → a = b.
Proof.
  intros Ha Hb H. unfold docNumber in H. apply (inj (String.append prefix)) in H.
  unfold fmt_0d in H. destruct (Z.ltb_spec a 0), (Z.ltb_spec b 0); try lia.
  destruct (pad_left_spec 6 a Ha) as [_ <-]. destruct (pad_left_spec 6 b Hb) as [_ <-].
  by rewrite H.
Qed.


