(* ===== verification/Providers.v ===== *)
(** The payment provider registry: [src/src/billing/providers.go].

    Encryption, base64 and JSON are parameters of the [World]; a configured
    provider is remote code that answers as it likes. *)
From stdpp Require Import prelude strings list gmap relations.
From Stdlib Require Import ZArith Lia Ascii.
From S2P Require Import Prelude GoTime Money States Errors Models Store Logic Guarantee Service.
From S2P Require Import Tax Accounts Subscriptions.

Definition syncedProvider (d : Driver) (now : Z) : ProviderRecord :=
  zeroProviderRecord {{ pr_Name := dr_Name d; pr_DisplayName := dr_DisplayName d;
    pr_Category := dr_Category d; pr_Enabled := false; pr_TestMode := true;
    pr_State := ProviderUnconfigured; pr_Priority := 100; pr_HealthState := HealthUnknown;
    pr_CreatedAt := now; pr_UpdatedAt := now; pr_Version := 1 }}.

Definition SyncProviders : M (Res unit) :=
  let* now := unix in
  let* drivers := ask (λ w _, Drivers (w_drivers w)) in
  forM drivers (λ d,
    let* r := INSERT billing_providers (syncedProvider d now) in
    match r with
    | Err e => if IsAlreadyExistsError e then ok_ tt
               else fail (ErrInternal e "Could not register the payment providers.")
    | Ok _ => ok_ tt
    end).

Definition ProviderByName (name : string) : M (Res ProviderRecord) :=
  mapErr (readError "payment provider" "Could not read the payment provider.")
    (SELECT_ROW billing_providers name all_rows).

Definition ListProviderRecords : M (Res (list ProviderRecord)) :=
  mapErr (λ e, ErrInternal e "Could not read the payment providers.")
    (SELECT billing_providers all_rows (λ a b,
       if pr_Priority a =? pr_Priority b then string_leb (pr_Name a) (pr_Name b)
       else pr_Priority a <=? pr_Priority b)).

Definition EnabledProviderCount : M (Res (Z * Z)) :=
  let? records := ListProviderRecords in
  ok_ (Z.of_nat (length (List.filter pr_Enabled records)), Z.of_nat (length records)).

Record DriverInfo := mkDriverInfo {
  di_Name : string; di_DisplayName : string; di_Category : string;
  di_SetupGuide : list string; di_Troubleshooting : list (string * string);
  di_Fields : list Field }.

Definition DriverHelp (registry : gmap string Driver) (name : string) : Res DriverInfo :=
  match Lookup name registry with
  | Err _ => Err (ErrNotFound "payment provider")
  | Ok d => Ok (mkDriverInfo (dr_Name d) (dr_DisplayName d) (dr_Category d) (dr_SetupGuide d)
                  (dr_Troubleshooting d) (dr_Fields d))
  end.

(** [ProviderView]; a [CredentialField] has the columns of a [Field]. *)
Record ProviderView := mkProviderView {
  v_Name : string; v_DisplayName : string; v_Category : string; v_Enabled : bool;
  v_TestMode : bool; v_State : string; v_Priority : Z; v_HealthState : string;
  v_HealthDetail : string; v_HealthCheckedAt : Z; v_ConfiguredAt : Z; v_Configured : bool;
  v_Credentials : gmap string string; v_Fields : list Field }.

(** Decrypts one of the two credential sets of a provider. *)
Definition credentials (w : World) (rec : ProviderRecord) (testMode : bool)
  : Res (gmap string string) :=
  let blob := if testMode then pr_CredentialsTestEnc rec else pr_CredentialsEnc rec in
  if blob =s "" then Ok ∅
  else
    match w_decode w blob with
    | Err e => Err (ErrInternal e "The stored provider credentials could not be read.")
    | Ok raw =>
        match w_decrypt w raw with
        | Err e => Err (ErrInternal e "The stored provider credentials could not be decrypted.")
        | Ok plain =>
            match w_unmarshal w plain with
            | Err e => Err (ErrInternal e "The stored provider credentials could not be read.")
            | Ok out => Ok out
            end
        end
    end.

Definition no_credentials (creds : gmap string string) : bool := bool_decide (creds = ∅).

Definition sealCredentials (w : World) (n : nat) (creds : gmap string string) : Res string :=
  if no_credentials creds then Ok ""
  else
    match w_marshal w creds with
    | Err e => Err (ErrInternal e "Could not store the provider credentials.")
    | Ok plain =>
        match w_encrypt w n plain with
        | Err e => Err (ErrInternal e "Could not encrypt the provider credentials.")
        | Ok sealed => Ok (w_encode w sealed)
        end
    end.

(** The credentials a view shows: secrets masked, empty ones left out. *)
Fixpoint maskedCredentials (fields : list Field) (creds : gmap string string)
    (acc : gmap string string) : gmap string string :=
  match fields with
  | [] => acc
  | f :: fields' =>
      let value := credential creds (f_Name f) in
      maskedCredentials fields' creds
        (if value =s "" then acc
         else if f_Secret f then <[f_Name f := MaskSecret value]> acc
         else <[f_Name f := value]> acc)
  end.

Definition providerView (w : World) (rec : ProviderRecord) : ProviderView :=
  let fields := match Lookup (pr_Name rec) (w_drivers w) with
                | Ok d => dr_Fields d | Err _ => [] end in
  let view := mkProviderView (pr_Name rec) (pr_DisplayName rec) (pr_Category rec)
    (pr_Enabled rec) (pr_TestMode rec) (pr_State rec) (pr_Priority rec) (pr_HealthState rec)
    (pr_HealthDetail rec) (pr_HealthCheckedAt rec) (pr_ConfiguredAt rec) false ∅ fields in
  match credentials w rec (pr_TestMode rec) with
  | Err _ => view
  | Ok creds => view {{ v_Configured := negb (no_credentials creds);
                        v_Credentials := maskedCredentials fields creds ∅ }}
  end.

Definition ListProviders : M (Res (list ProviderView)) :=
  let? records := ListProviderRecords in
  let* views := ask (λ w _, map (providerView w) records) in
  ok_ views.

Definition GetProviderView (name : string) : M (Res ProviderView) :=
  let? rec := ProviderByName name in
  let* view := ask (λ w _, providerView w rec) in
  ok_ view.

Definition providerWriteError (err : error) : error :=
  if db_IsConflict err then
    ErrConflict
      "The provider configuration changed while you were editing it; reload and try again."
  else ErrInternal err "Could not update the payment provider.".

(** The optimistic update of a provider row that was read before. *)
Definition updateProvider (name : string) (rec : ProviderRecord)
    (g : ProviderRecord → ProviderRecord) : M (Res unit) :=
  mapErr providerWriteError
    (UPDATE_VERSIONED billing_providers name (λ r, pr_Version r =? pr_Version rec) (λ r,
       (g r) {{ pr_Version := pr_Version r + 1 }})).

(** The merge of the submitted credentials over the stored ones: an omitted
    field, or a blank secret, keeps what is stored. *)
Fixpoint mergeCredentials (fields : list Field) (creds merged : gmap string string)
  : gmap string string :=
  match fields with
  | [] => merged
  | f :: fields' =>
      mergeCredentials fields' creds
        match creds !! f_Name f with
        | None => merged
        | Some value =>
            let value := TrimSpace value in
            if (value =s "") && f_Secret f then merged else <[f_Name f := value]> merged
        end
  end.

Definition ConfigureProvider (name : string) (creds : gmap string string) (testMode : bool)
    (actor ip : string) : M (Res ProviderView) :=
  let? rec := ProviderByName name in
  let* driver := ask (λ w _, Lookup name (w_drivers w)) in
  match driver with
  | Err _ => fail (ErrNotFound "payment provider")
  | Ok driver =>
      let? existing := ask (λ w _, credentials w rec testMode) in
      let merged := mergeCredentials (dr_Fields driver) creds existing in
      match Validate driver merged with
      | Some e => fail (ErrValidation (error_text e))
      | None =>
          let? sealed := ask (λ w n, sealCredentials w n merged) in
          let* now := unix in
          let? _ := updateProvider name rec (λ r,
            (if testMode then r {{ pr_CredentialsTestEnc := sealed }}
             else r {{ pr_CredentialsEnc := sealed }})
            {{ pr_TestMode := testMode; pr_State := ProviderTesting; pr_ConfiguredAt := now;
               pr_ConfiguredBy := actor; pr_UpdatedAt := now }}) in
          let* _ := WriteAudit (zeroAudit {{ ar_Actor := actor;
            ar_Action := ActionProviderConfigured; ar_Target := "provider:" +:+ name;
            ar_Provider := name; ar_IP := ip;
            ar_Detail := "test_mode=" +:+ boolText testMode }}) in
          GetProviderView name
      end
  end.

(** [SettingProviderTimeout] as a [time.Duration] in nanoseconds. *)
Definition rawProviderTimeout : M Z :=
  let* seconds := SettingInt SettingProviderTimeout DefaultProviderTimeoutSeconds in
  ret (seconds *! 1000000000).

(** Builds a driver from a registry row.  [Register] refuses a driver without a
    constructor, so the nil call is never reached. *)
Definition instance (rec : ProviderRecord) : M (Res (Provider * gmap string string)) :=
  let* driver := ask (λ w _, Lookup (pr_Name rec) (w_drivers w)) in
  match driver with
  | Err _ => fail (ErrNotFound "payment provider")
  | Ok driver =>
      let? creds := ask (λ w _, credentials w rec (pr_TestMode rec)) in
      if no_credentials creds then fail (ErrProviderDisabled (pr_Name rec))
      else
        let* timeout := rawProviderTimeout in
        match dr_New driver with
        | None => fail (Plain "nil pointer dereference")
        | Some new =>
            match new (mkConfig creds (pr_TestMode rec) timeout "") with
            | Err e => fail (ErrValidation (error_text e))
            | Ok p => ok_ (p, creds)
            end
        end
  end.

Definition recordProviderHealth (rec : ProviderRecord) (state detail : string) : M unit :=
  let* checked := unix in
  let* updated := unix in
  let* r := UPDATE billing_providers (pr_Name rec) all_rows (λ p,
    p {{ pr_HealthState := state; pr_HealthDetail := MaskSecret detail;
         pr_HealthCheckedAt := checked; pr_UpdatedAt := updated }}) in
  match r with
  | Ok _ => ret tt
  | Err e => WriteAudit (zeroAudit {{ ar_Action := ActionProviderTested;
      ar_Target := "provider:" +:+ pr_Name rec; ar_Provider := pr_Name rec;
      ar_Result := ResultFailure; ar_Detail := "health write failed: " +:+ error_text e }})
  end.

(** [instance.ValidateCredentials]: one request to the provider. *)
Definition validateCredentials (name : string) (p : Provider) : M (option error) :=
  let* _ := emit (FValidate name) in
  ask (λ _ n, pv_ValidateCredentials p n).

Record ProviderTest := mkProviderTest {
  pt_Provider : string; pt_TestMode : bool; pt_Credentials : bool; pt_WebhookSecret : bool;
  pt_Reachable : bool; pt_Detail : string; pt_CheckedAt : Z;
  pt_Troubleshooting : list (string * string) }.

Definition zeroProviderTest : ProviderTest := mkProviderTest "" false false false false "" 0 [].

Definition TestProvider (name actor ip : string) : M (ProviderTest * option error) :=
  let* rec := ProviderByName name in
  match rec with
  | Err e => ret (zeroProviderTest, Some e)
  | Ok rec =>
      let* driver := ask (λ w _, Lookup name (w_drivers w)) in
      match driver with
      | Err _ => ret (zeroProviderTest, Some (ErrNotFound "payment provider"))
      | Ok driver =>
          let* now := unix in
          let result := mkProviderTest name (pr_TestMode rec) false false false "" now
                          (dr_Troubleshooting driver) in
          let* r := instance rec in
          match r with
          | Err e =>
              let* _ := recordProviderHealth rec HealthUnhealthy (error_text e) in
              ret (result {{ pt_Detail := error_text e }}, Some e)
          | Ok (p, creds) =>
              let result := result {{ pt_Credentials := true;
                pt_WebhookSecret := negb (credential creds "webhook_secret" =s "") }} in
              let* _ := rawProviderTimeout in
              let* v := validateCredentials name p in
              match v with
              | Some e =>
                  let* _ := recordProviderHealth rec HealthUnhealthy (error_text e) in
                  let* _ := WriteAudit (zeroAudit {{ ar_Actor := actor;
                    ar_Action := ActionProviderTested; ar_Target := "provider:" +:+ name;
                    ar_Provider := name; ar_IP := ip; ar_Result := ResultFailure;
                    ar_Detail := error_text e }}) in
                  ret (result {{ pt_Detail := error_text e }}, Some (ErrUpstream name e))
              | None =>
                  let detail := "The provider accepted the stored credentials." in
                  let* _ := recordProviderHealth rec HealthHealthy detail in
                  let* _ := WriteAudit (zeroAudit {{ ar_Actor := actor;
                    ar_Action := ActionProviderTested; ar_Target := "provider:" +:+ name;
                    ar_Provider := name; ar_IP := ip; ar_Result := ResultSuccess }}) in
                  ret (result {{ pt_Reachable := true; pt_Detail := detail }}, None)
              end
          end
      end
  end.

Definition SetProviderEnabled (name : string) (enabled : bool) (actor ip : string)
  : M (Res ProviderView) :=
  let? rec := ProviderByName name in
  let? rec := (if enabled then
                 let* test := TestProvider name actor ip in
                 match test.2 with
                 | Some e => fail e
                 | None => ProviderByName name
                 end
               else ok_ rec) in
  let state := if enabled then ProviderActive else ProviderDisabled in
  let action := if enabled then ActionProviderEnabled else ActionProviderDisabled in
  let* now := unix in
  let? _ := updateProvider name rec (λ r,
    r {{ pr_Enabled := enabled; pr_State := state; pr_UpdatedAt := now }}) in
  let* _ := WriteAudit (zeroAudit {{ ar_Actor := actor; ar_Action := action;
    ar_Target := "provider:" +:+ name; ar_Provider := name; ar_IP := ip }}) in
  GetProviderView name.

Definition SetProviderTestMode (name : string) (testMode : bool) (actor ip : string)
  : M (Res ProviderView) :=
  let? rec := ProviderByName name in
  let? creds := ask (λ w _, credentials w rec testMode) in
  if no_credentials creds then
    fail (ErrValidation ("No " +:+ (if testMode then "test" else "live") +:+
                         " credentials are stored for this provider yet."))
  else
    let* now := unix in
    let? _ := updateProvider name rec (λ r,
      r {{ pr_TestMode := testMode; pr_Enabled := false; pr_State := ProviderTesting;
           pr_HealthState := HealthUnknown; pr_UpdatedAt := now }}) in
    let* _ := WriteAudit (zeroAudit {{ ar_Actor := actor; ar_Action := ActionProviderConfigured;
      ar_Target := "provider:" +:+ name; ar_Provider := name; ar_IP := ip;
      ar_Detail := "test_mode=" +:+ boolText testMode +:+ " disabled pending retest" }}) in
    GetProviderView name.

Definition SetProviderPriority (name : string) (priority : Z) (actor ip : string)
  : M (Res unit) :=
  let? rec := ProviderByName name in
  if (priority <? 0) || (1000 <? priority) then
    fail (ErrValidation "A provider priority is between 0 and 1000.")
  else
    let* now := unix in
    let? _ := updateProvider name rec (λ r,
      r {{ pr_Priority := priority; pr_UpdatedAt := now }}) in
    let* _ := WriteAudit (zeroAudit {{ ar_Actor := actor; ar_Action := ActionProviderConfigured;
      ar_Target := "provider:" +:+ name; ar_Provider := name; ar_IP := ip;
      ar_Detail := "priority=" +:+ itoa priority }}) in
    ok_ tt.

Definition ProviderInstance (name : string) : M (Res Provider) :=
  let? rec := ProviderByName name in
  if negb (pr_Enabled rec) then fail (ErrProviderDisabled name)
  else let? r := instance rec in ok_ r.1.

Definition WebhookSecret (name : string) : M (Res string) :=
  let? rec := ProviderByName name in
  let? creds := ask (λ w _, credentials w rec (pr_TestMode rec)) in
  let secret := credential creds "webhook_secret" in
  if secret =s "" then fail (ErrProviderDisabled name) else ok_ secret.

Definition healthRank (state : string) : Z :=
  if state =s HealthHealthy then 0
  else if state =s HealthUnknown then 1
  else if state =s HealthDegraded then 2
  else 3.

(** The order of the failover chain; [sort_by] is stable, as
    [sort.SliceStable] is. *)
Definition failover_leb (a b : ProviderRecord) : bool :=
  if healthRank (pr_HealthState a) =? healthRank (pr_HealthState b)
  then pr_Priority a <=? pr_Priority b
  else healthRank (pr_HealthState a) <=? healthRank (pr_HealthState b).

Definition EnabledProviders : M (Res (list ProviderRecord)) :=
  let? records := ListProviderRecords in
  ok_ (sort_by failover_leb (List.filter pr_Enabled records)).

Definition checkHealth (rec : ProviderRecord) : M (Res unit) :=
  let* r := instance rec in
  let* _ := match r with
            | Err e => recordProviderHealth rec HealthUnhealthy (error_text e)
            | Ok (p, _) =>
                let* _ := rawProviderTimeout in
                let* v := validateCredentials (pr_Name rec) p in
                match v with
                | Some e => recordProviderHealth rec HealthDegraded (error_text e)
                | None => recordProviderHealth rec HealthHealthy ""
                end
            end in
  ok_ tt.

Definition CheckProviderHealth : M (Res unit) :=
  let? enabled := EnabledProviders in
  forM enabled checkHealth.

(** * Guarantees *)

Lemma guar_SyncProviders {P} {HA : Accepts P} : guar P SyncProviders.
Proof. unfold SyncProviders. guar_all. Qed.

Lemma guar_ProviderByName {P} {HA : Accepts P} n : guar P (ProviderByName n).
Proof. unfold ProviderByName. guar_all. Qed.

Lemma guar_ListProviderRecords {P} {HA : Accepts P} : guar P ListProviderRecords.
Proof. unfold ListProviderRecords. guar_all. Qed.

Lemma guar_updateProvider {P} {HA : Accepts P} n rec g :
  (∀ r, pr_Name (g r) = pr_Name r) → guar P (updateProvider n rec g).
Proof.
  intros Hg. unfold updateProvider. guar_step.
  eapply (guar_UPDATE_VERSIONED _ provider_later). intros v _. split; simpl; [apply Hg|lia].
Qed.

Lemma guar_rawProviderTimeout {P} {HA : Accepts P} : guar P rawProviderTimeout.
Proof. unfold rawProviderTimeout. guar_all. Qed.

#[global] Hint Resolve guar_SyncProviders guar_ProviderByName guar_ListProviderRecords
  guar_rawProviderTimeout : okdb.
#[global] Hint Extern 1 (guar _ (updateProvider _ _ _)) =>
  apply guar_updateProvider; intros; repeat case_match; reflexivity : okdb.

Lemma guar_GetProviderView {P} {HA : Accepts P} n : guar P (GetProviderView n).
Proof. unfold GetProviderView. guar_all. Qed.

Lemma guar_instance {P} {HA : Accepts P} rec : guar P (instance rec).
Proof. unfold instance. guar_all. Qed.

Lemma guar_recordProviderHealth {P} {HA : Accepts P} rec s d : guar P (recordProviderHealth rec s d).
Proof. unfold recordProviderHealth. guar_all. Qed.

Lemma guar_validateCredentials {P} {HA : Accepts P} n p : guar P (validateCredentials n p).
Proof. unfold validateCredentials. guar_all. Qed.

Lemma guar_EnabledProviders {P} {HA : Accepts P} : guar P EnabledProviders.
Proof. unfold EnabledProviders. guar_all. Qed.

#[global] Hint Resolve guar_GetProviderView guar_instance guar_recordProviderHealth
  guar_validateCredentials guar_EnabledProviders : okdb.

Lemma guar_TestProvider {P} {HA : Accepts P} n a ip : guar P (TestProvider n a ip).
Proof. unfold TestProvider. guar_all. Qed.
#[global] Hint Resolve guar_TestProvider : okdb.

Lemma guar_ConfigureProvider {P} {HA : Accepts P} n c t a ip : guar P (ConfigureProvider n c t a ip).
Proof. unfold ConfigureProvider. guar_all. Qed.

Lemma guar_SetProviderEnabled {P} {HA : Accepts P} n e a ip : guar P (SetProviderEnabled n e a ip).
Proof. unfold SetProviderEnabled. guar_all. Qed.

Lemma guar_SetProviderTestMode {P} {HA : Accepts P} n t a ip : guar P (SetProviderTestMode n t a ip).
Proof. unfold SetProviderTestMode. guar_all. Qed.

Lemma guar_SetProviderPriority {P} {HA : Accepts P} n p a ip : guar P (SetProviderPriority n p a ip).
Proof. unfold SetProviderPriority. guar_all. Qed.

Lemma guar_ProviderInstance {P} {HA : Accepts P} n : guar P (ProviderInstance n).
Proof. unfold ProviderInstance. guar_all. Qed.

Lemma guar_WebhookSecret {P} {HA : Accepts P} n : guar P (WebhookSecret n).
Proof. unfold WebhookSecret. guar_all. Qed.

Lemma guar_checkHealth {P} {HA : Accepts P} rec : guar P (checkHealth rec).
Proof. unfold checkHealth. guar_all. Qed.

#[global] Hint Resolve guar_ConfigureProvider guar_SetProviderEnabled guar_SetProviderTestMode
  guar_SetProviderPriority guar_ProviderInstance guar_WebhookSecret guar_checkHealth : okdb.

Lemma guar_CheckProviderHealth {P} {HA : Accepts P} : guar P CheckProviderHealth.
Proof. unfold CheckProviderHealth. guar_all. Qed.
#[global] Hint Resolve guar_CheckProviderHealth : okdb.

(** * Properties *)

Lemma failover_leb_spec a b :
  failover_leb a b = true ↔
  healthRank (pr_HealthState a) < healthRank (pr_HealthState b) ∨
  (healthRank (pr_HealthState a) = healthRank (pr_HealthState b) ∧ pr_Priority a ≤ pr_Priority b).
Proof.
  unfold failover_leb. destruct (Z.eqb_spec (healthRank (pr_HealthState a)) (healthRank (pr_HealthState b)));
    rewrite Z.leb_le; lia.
Qed.

Lemma failover_sorted l :
  Sorted.StronglySorted (λ a b,
    healthRank (pr_HealthState a) < healthRank (pr_HealthState b) ∨
    (healthRank (pr_HealthState a) = healthRank (pr_HealthState b) ∧
     pr_Priority a ≤ pr_Priority b)) (sort_by failover_leb l).
Proof.
  assert (Sorted.StronglySorted (λ a b, failover_leb a b = true) (sort_by failover_leb l)) as Hs.
  - apply sort_by_ordered.
    + intros a b H. rewrite <-not_true_iff_false in H.
      rewrite failover_leb_spec in H. apply failover_leb_spec. lia.
    + intros a b c. rewrite !failover_leb_spec. lia.
  - induction Hs as [|a l' Hs IH Ha]; constructor; [done|].
    eapply Forall_impl; [exact Ha|]. intros b. by rewrite failover_leb_spec.
Qed.

(** The failover chain holds exactly the enabled providers of the table it
    was read from, the healthier first and the lower priority first among the
    equally healthy, whatever the table holds and whoever writes to it.  The
    source's comment promises priority first. *)
Theorem EnabledProviders_order w st :
  let run := EnabledProviders w st in
  match run.1 with
  | Ok chain =>
      (∀ r, r ∈ chain ↔
         pr_Enabled r = true ∧ ∃ k, t_providers (sh_db (st_sh run.2)) !! k = Some r) ∧
      Sorted.StronglySorted (λ a b,
        healthRank (pr_HealthState a) < healthRank (pr_HealthState b) ∨
        (healthRank (pr_HealthState a) = healthRank (pr_HealthState b) ∧
         pr_Priority a ≤ pr_Priority b)) chain
  | Err e => w_fault w (st_tick st) ≠ NoFault
  end.
Proof.
  cbv zeta. unfold EnabledProviders, ListProviderRecords, SELECT, query, read, bindR, mapErr, bind, ret.
  destruct (w_fault w (st_tick st)); [|done..]. simpl. split; [|apply failover_sorted].
  intros r. rewrite sort_by_perm, list_elem_of_In, filter_In, <-list_elem_of_In, elem_of_select.
  naive_solver.
Qed.

(** The text before the first equals sign. *)
Fixpoint no_equals (s : string) : bool :=
  match s with
  | EmptyString => true
  | String c s' => negb (Ascii.eqb c "=") && no_equals s'
  end.

Lemma Index_equals key rest :
  no_equals key = true → Index (key +:+ "=" +:+ rest) "=" = slen key.
Proof.
  induction key as [|c key IH]; intros Hk; [by destruct rest|]. simpl in Hk.
  apply andb_true_iff in Hk as [Hc Hk]. apply negb_true_iff, Ascii.eqb_neq in Hc.
  rewrite string_app_cons. cbn [Index]. unfold HasPrefix. cbn [String.prefix].
  destruct (ascii_dec "=" c) as [<-|]; [done|]. rewrite IH by done. rewrite slen_cons.
  pose proof (slen_nonneg key). destruct (Z.ltb_spec (slen key) 0); lia.
Qed.

Lemma take_string_app a b : take_string (Z.to_nat (slen a)) (a +:+ b) = a.
Proof.
  induction a as [|c a IH]; [by destruct b|]. rewrite slen_cons, string_app_cons.
  pose proof (slen_nonneg a). rewrite Z2Nat.inj_add by lia. rewrite Nat.add_1_r. simpl. by rewrite IH.
Qed.

Lemma MaskSecret_equals key rest :
  key ≠ "" → no_equals key = true →
  MaskSecret (key +:+ "=" +:+ rest) = key +:+ "=" +:+ MaskedValue.
Proof.
  intros Hne Hk. unfold MaskSecret. cbv zeta. rewrite Index_equals by done.
  assert (0 < slen key).
  { destruct key; [done|]. rewrite slen_cons. pose proof (slen_nonneg key). lia. }
  destruct (_ =s "") eqn:E.
  { apply seqb_eq in E. by destruct key. }
  destruct (Z.ltb_spec 0 (slen key)); [|lia].
  replace (slen key + 1) with (slen (key +:+ String "=" "")) by (rewrite slen_app; done).
  rewrite <-(string_app_assoc key (String "=" "") rest), take_string_app.
  apply string_app_assoc.
Qed.

(** What [MaskSecret] makes of a text with an equals sign in it is the whole
    text before the sign.  So a stored secret that contains one (a key with
    base64 padding, say) is shown up to it in the provider view, although a
    stored secret is never to be returned. *)
Theorem secret_shown_up_to_equals f creds key rest
    (Hsecret : f_Secret f = true) (Hkey : key ≠ "") (Hno : no_equals key = true)
    (Hcred : creds !! f_Name f = Some (key +:+ "=" +:+ rest)) :
  maskedCredentials [f] creds ∅ !! f_Name f = Some (key +:+ "=" +:+ MaskedValue).
Proof.
  simpl. unfold credential. rewrite Hcred. simpl. destruct (_ =s "") eqn:E.
  { apply seqb_eq in E. by destruct key. }
  rewrite Hsecret, lookup_insert_eq. by rewrite MaskSecret_equals.
Qed.

Lemma secret_shown_up_to_equals_witness :
  let f := mkField "api_key" "API key" true true "" "" in
  maskedCredentials [f] {[ "api_key" := "c2VjcmV0LWtleQ==" ]} ∅ !! "api_key"
  = Some "c2VjcmV0LWtleQ=xxxxx".
Proof.
  intros f.
  apply (secret_shown_up_to_equals f {[ "api_key" := "c2VjcmV0LWtleQ==" ]} "c2VjcmV0LWtleQ" "=");
    [reflexivity|discriminate|reflexivity|reflexivity].
Defined.
