(* ===== verification/Payments.v ===== *)
(** Payment methods, charges and refunds: [src/src/billing/payments.go]. *)
From stdpp Require Import prelude strings list gmap relations.
From Stdlib Require Import ZArith Lia Ascii.
From S2P Require Import Prelude GoTime Money States Errors Models Store Logic Guarantee Service.
From S2P Require Import Tax Accounts Invoices Providers.

Definition MethodActive : string := "active".
Definition MethodExpired : string := "expired".
Definition MethodRemoved : string := "removed".

Definition ListPaymentMethods (tenantID : string) : M (Res (list PaymentMethod)) :=
  mapErr (λ e, ErrInternal e "Could not read the payment methods.")
    (SELECT billing_payment_methods
       (λ m, (pm_TenantID m =s tenantID) && negb (pm_State m =s MethodRemoved))
       (λ a b, if Bool.eqb (pm_IsDefault a) (pm_IsDefault b) then pm_CreatedAt a <=? pm_CreatedAt b
               else pm_IsDefault a)).

(** How long a provider call may take, in nanoseconds. *)
Definition providerTimeout : M Z :=
  let* seconds := SettingInt SettingProviderTimeout DefaultProviderTimeoutSeconds in
  ret (if seconds <=? 0 then DefaultProviderTimeoutSeconds * 1000000000
       else seconds *! 1000000000).

(** The customer reference of an earlier method at the same provider. *)
Definition customerRefOf (existing : list PaymentMethod) (providerName : string) : string :=
  match find (λ m, (pm_Provider m =s providerName) && negb (pm_ProviderCustomer m =s "")) existing
  with Some m => pm_ProviderCustomer m | None => "" end.

Definition AddPaymentMethod (tenantID providerName token holderName actor ip : string)
  : M (Res PaymentMethod) :=
  if TrimSpace token =s "" then fail (ErrValidation "A payment method token is required.")
  else
    let? p := ProviderInstance providerName in
    let? account := EnsureAccount tenantID in
    let? existing := ListPaymentMethods tenantID in
    let* _ := providerTimeout in
    let req := mkMethodRequest tenantID (customerRefOf existing providerName) token holderName
                 (a_BillingEmail account) (a_Country account) in
    let* _ := emit (FStoreMethod providerName req) in
    let* stored := ask (λ _ n, pv_StoreMethod p n req) in
    match stored with
    | Err e => fail (ErrUpstream providerName e)
    | Ok stored =>
        let* now := unix in
        let* id := newID in
        let method := mkPaymentMethod id tenantID (a_ID account) providerName (mt_Token stored)
          (mt_CustomerRef stored) (if mt_Kind stored =s "" then "card" else mt_Kind stored)
          (mt_Brand stored) (mt_Last4 stored) (mt_ExpMonth stored) (mt_ExpYear stored) holderName
          (mt_Country stored) (match existing with [] => true | _ => false end) MethodActive
          now now in
        let? _ := mapErr (λ e, ErrInternal e "Could not store the payment method.")
                    (INSERT billing_payment_methods method) in
        let? _ := (if pm_IsDefault method then SetDefaultMethod tenantID (pm_ID method)
                   else ok_ tt) in
        let* _ := WriteAudit (zeroAudit {{ ar_TenantID := tenantID; ar_Actor := actor;
          ar_Action := ActionMethodAdded; ar_Target := "method:" +:+ pm_ID method;
          ar_Provider := providerName; ar_IP := ip;
          ar_Detail := pm_Brand method +:+ " ending " +:+ pm_Last4 method }}) in
        ok_ method
    end.

Definition RemovePaymentMethod (tenantID methodID actor ip : string) : M (Res unit) :=
  let? method := GetPaymentMethod tenantID methodID in
  let record := zeroAudit {{ ar_TenantID := tenantID; ar_Actor := actor;
    ar_Action := ActionMethodRemoved; ar_Target := "method:" +:+ methodID;
    ar_Provider := pm_Provider method; ar_IP := ip }} in
  let* r := ProviderInstance (pm_Provider method) in
  let* _ :=
    match r with
    | Err _ => ret tt
    | Ok p =>
        let* _ := providerTimeout in
        let* _ := emit (FDeleteMethod (pm_Provider method) (pm_ProviderToken method)) in
        let* d := ask (λ _ n, pv_DeleteMethod p n (pm_ProviderToken method)) in
        match d with
        | Some e => WriteAudit (record {{ ar_Result := ResultFailure; ar_Detail := error_text e }})
        | None => ret tt
        end
    end in
  let* now := unix in
  let? _ := mapErr (λ e, ErrInternal e "Could not remove the payment method.")
    (UPDATE billing_payment_methods methodID (λ m, pm_TenantID m =s tenantID) (λ m,
       m {{ pm_State := MethodRemoved; pm_ProviderToken := ""; pm_IsDefault := false;
            pm_UpdatedAt := now }})) in
  let* now := unix in
  let? _ := mapErr (λ e, ErrInternal e "Could not clear the default payment method.")
    (UPDATE billing_accounts tenantID (λ a, a_DefaultMethodID a =s methodID) (λ a,
       a {{ a_DefaultMethodID := ""; a_UpdatedAt := now }})) in
  let* _ := WriteAudit record in
  ok_ tt.

(** * Attempts *)

Definition AttemptByKey (key : string) : M (Res PaymentAttempt) :=
  mapErr (readError "payment attempt" "Could not read the payment attempt.")
    (SELECT_FIRST billing_payment_attempts (λ a, pa_IdempotencyKey a =s key) any_order).

Definition ListAttempts (tenantID : string) (limit : Z) : M (Res (list PaymentAttempt)) :=
  let limit := if (limit <=? 0) || (200 <? limit) then 50 else limit in
  let? rows := mapErr (λ e, ErrInternal e "Could not read the payment history.")
    (SELECT billing_payment_attempts (λ a, pa_TenantID a =s tenantID) (desc pa_AttemptedAt)) in
  ok_ (firstn (Z.to_nat limit) rows).

Definition AttemptsForInvoice (tenantID invoiceID : string) : M (Res (list PaymentAttempt)) :=
  mapErr (λ e, ErrInternal e "Could not read the payment attempts.")
    (SELECT billing_payment_attempts
       (λ a, (pa_TenantID a =s tenantID) && (pa_InvoiceID a =s invoiceID)) (asc pa_AttemptedAt)).

Definition settledAttempt (tenantID invoiceID : string) : M (Res PaymentAttempt) :=
  mapErr (λ e, if isNoRows e
               then ErrValidation "That invoice has no settled payment to refund."
               else ErrInternal e "Could not read the payment attempt.")
    (SELECT_FIRST billing_payment_attempts
       (λ a, (pa_TenantID a =s tenantID) && (pa_InvoiceID a =s invoiceID) &&
             (pa_State a =s PaymentSucceeded)) (desc pa_CompletedAt)).

(** The preferred instrument for a provider; the zero method when none. *)
Definition pickMethod (methods : list PaymentMethod) (providerName : string) : PaymentMethod :=
  let usable m := (pm_Provider m =s providerName) && (pm_State m =s MethodActive) in
  match find (λ m, usable m && pm_IsDefault m) methods with
  | Some m => m
  | None => match find usable methods with Some m => m | None => zeroPaymentMethod end
  end.

Definition nextAttemptNumber (invoiceID : string) : M Z :=
  let* r := COUNT billing_payment_attempts (λ a, pa_InvoiceID a =s invoiceID) in
  ret match r with Ok count => count +! 1 | Err _ => 1 end.

Definition mapChargeState (state : string) : string :=
  if state =s "succeeded" then PaymentSucceeded
  else if state =s "authorized" then PaymentAuthorized
  else if state =s "pending" then PaymentPending
  else PaymentFailed.

(** The row is refused when its identifier or its idempotency key is taken. *)
Definition insertAttempt (a : PaymentAttempt) : M (Res unit) :=
  let? _ := mapErr (λ e, if IsAlreadyExistsError e then
                           ErrConflict "That payment is already in progress."
                         else ErrInternal e "Could not record the payment attempt.")
    (INSERT_UNIQUE billing_payment_attempts
       (λ r, pa_IdempotencyKey r =s pa_IdempotencyKey a) a) in
  ok_ tt.

Definition completeAttempt (a : PaymentAttempt) (state reference code message : string) : M unit :=
  let* now := unix in
  let* r := UPDATE billing_payment_attempts (pa_ID a) all_rows (λ r,
    r {{ pa_State := state; pa_ProviderRef := reference; pa_FailureCode := code;
         pa_FailureMessage := message; pa_CompletedAt := now }}) in
  match r with
  | Ok _ => ret tt
  | Err e => WriteAudit (zeroAudit {{ ar_TenantID := pa_TenantID a;
      ar_Action := ActionPaymentAttempted; ar_Target := "attempt:" +:+ pa_ID a;
      ar_Result := ResultFailure; ar_Detail := "attempt write failed: " +:+ error_text e }})
  end.

(** * Charging *)

Definition chargeRequest (inv : Invoice) (method : PaymentMethod) (key : string) (amount : Z)
  : ChargeRequest :=
  mkChargeRequest key amount (i_Currency inv) (pm_ProviderToken method)
    (pm_ProviderCustomer method) ("cashp invoice " +:+ i_Number inv) (i_Number inv) true.

(** One request to the provider; the money may move whatever it answers. *)
Definition callCharge (name : string) (p : Provider) (req : ChargeRequest)
  : M (Res ChargeResult) :=
  let* _ := emit (FCharge name req) in
  ask (λ _ n, pv_Charge p n req).

Definition chargeThrough (rec : ProviderRecord) (inv : Invoice) (method : PaymentMethod)
    (key : string) (amount attemptNumber : Z) (actor ip : string)
  : M (PaymentAttempt * option error) :=
  let* id := newID in
  let* at_ := unix in
  let attempt := mkPaymentAttempt id (i_TenantID inv) (i_AccountID inv) (i_ID inv) (pm_ID method)
    (pr_Name rec) key amount (i_Currency inv) PaymentPending "" "" "" attemptNumber at_ 0 in
  let audit := zeroAudit {{ ar_TenantID := i_TenantID inv; ar_Actor := actor;
    ar_Target := "invoice:" +:+ i_Number inv; ar_Provider := pr_Name rec; ar_IP := ip }} in
  let* inserted := insertAttempt attempt in
  match inserted with
  | Err e => ret (zeroPaymentAttempt, Some e)
  | Ok _ =>
      let* _ := WriteAudit (audit {{ ar_Action := ActionPaymentAttempted;
        ar_Detail := "amount_minor=" +:+ itoa amount +:+ " attempt=" +:+ itoa attemptNumber }}) in
      let* r := instance rec in
      match r with
      | Err e =>
          let* _ := completeAttempt attempt PaymentFailed "" "provider_unavailable" (error_text e) in
          ret (attempt, Some e)
      | Ok (p, _) =>
          if negb (Supports (pv_Capabilities p) (i_Currency inv)) then
            let detail := "This provider does not accept " +:+ i_Currency inv +:+ "." in
            let* _ := completeAttempt attempt PaymentFailed "" "currency_unsupported" detail in
            ret (attempt, Some (ErrValidation detail))
          else
            let* _ := providerTimeout in
            let* result := callCharge (pr_Name rec) p (chargeRequest inv method key amount) in
            match result with
            | Err e =>
                let* _ := completeAttempt attempt PaymentFailed "" "provider_error" (error_text e) in
                let* _ := recordProviderHealth rec HealthDegraded (error_text e) in
                let* _ := WriteAudit (audit {{ ar_Action := ActionPaymentFailed;
                  ar_Result := ResultFailure; ar_Detail := error_text e }}) in
                ret (attempt, Some (ErrUpstream (pr_Name rec) e))
            | Ok result =>
                let state := mapChargeState (cs_State result) in
                let attempt := attempt {{ pa_State := state; pa_ProviderRef := cs_Reference result;
                  pa_FailureCode := cs_FailureCode result;
                  pa_FailureMessage := cs_FailureMessage result }} in
                let* _ := completeAttempt attempt state (cs_Reference result)
                            (cs_FailureCode result) (cs_FailureMessage result) in
                let succeeded := state =s PaymentSucceeded in
                let* _ := WriteAudit (audit {{
                  ar_Action := (if succeeded then ActionPaymentSucceeded else ActionPaymentFailed);
                  ar_Result := (if succeeded then ResultSuccess else ResultFailure);
                  ar_Code := cs_FailureCode result;
                  ar_Detail := "amount_minor=" +:+ itoa amount }}) in
                let* _ := (if succeeded then recordProviderHealth rec HealthHealthy ""
                           else ret tt) in
                ret (attempt, None)
            end
      end
  end.

(** The walk over the enabled providers: [inl] when the function returns from
    inside the loop, [inr] with the last attempt and error after it. *)
Fixpoint chargeLoop (enabled : list ProviderRecord) (index : nat) (tenantID : string)
    (inv : Invoice) (methods : list PaymentMethod) (idempotencyKey : string)
    (amount attemptNumber : Z) (failoverAllowed : bool) (actor ip : string)
    (last : PaymentAttempt) (lastErr : option error)
  : M ((PaymentAttempt * option error) + (PaymentAttempt * option error)) :=
  match enabled with
  | [] => ret (inr (last, lastErr))
  | rec :: rest =>
      let method := pickMethod methods (pr_Name rec) in
      if pm_ID method =s "" then
        chargeLoop rest (S index) tenantID inv methods idempotencyKey amount attemptNumber
          failoverAllowed actor ip last lastErr
      else
        let key := match index with
                   | O => idempotencyKey
                   | S _ => idempotencyKey +:+ ":" +:+ pr_Name rec
                   end in
        let* r := chargeThrough rec inv method key amount attemptNumber actor ip in
        let '(attempt, err) := r in
        if match err with None => pa_State attempt =s PaymentSucceeded | Some _ => false end then
          let* paid := RecordPayment tenantID (i_ID inv) amount actor ip in
          ret (inl (attempt, match paid with Ok _ => None | Err e => Some e end))
        else if negb failoverAllowed then ret (inr (attempt, err))
        else
          chargeLoop rest (S index) tenantID inv methods idempotencyKey amount
            (attemptNumber +! 1) failoverAllowed actor ip attempt err
  end.

(** The walk and the notification that follows it when nothing settled. *)
Definition chargeAll (enabled : list ProviderRecord) (tenantID : string) (inv : Invoice)
    (methods : list PaymentMethod) (idempotencyKey : string) (amount : Z) (actor ip : string)
  : M (PaymentAttempt * option error) :=
  let* attemptNumber := nextAttemptNumber (i_ID inv) in
  let* mode := Setting SettingFailoverMode DefaultFailoverMode in
  let* r := chargeLoop enabled 0 tenantID inv methods idempotencyKey amount attemptNumber
              (negb (mode =s FailoverManual)) actor ip zeroPaymentAttempt None in
  match r with
  | inl out => ret out
  | inr out => let* _ := notify tenantID NotifyPaymentFailed in ret out
  end.

Definition failed (e : error) : M (PaymentAttempt * option error) :=
  ret (zeroPaymentAttempt, Some e).

Definition ChargeInvoice (tenantID invoiceID idempotencyKey actor ip : string)
  : M (PaymentAttempt * option error) :=
  if TrimSpace idempotencyKey =s "" then
    failed (ErrValidation "An idempotency key is required for a charge.")
  else
    let* prior := AttemptByKey idempotencyKey in
    match prior with
    | Ok prior =>
        if negb (pa_TenantID prior =s tenantID) then
          failed (ErrForbidden "That idempotency key belongs to another account.")
        else ret (prior, None)
    | Err e =>
        if negb (isNotFound e) then failed e
        else
          let* inv := GetInvoice tenantID invoiceID in
          match inv with
          | Err e => failed e
          | Ok inv =>
              let amount := BalanceDueMinor inv in
              if amount <=? 0 then failed (ErrValidation "That invoice has nothing left to pay.")
              else if i_State inv =s InvoiceDraft then
                failed (ErrValidation "A draft invoice cannot be charged; issue it first.")
              else
                let* methods := ListPaymentMethods tenantID in
                match methods with
                | Err e => failed e
                | Ok [] => failed (ErrValidation "No payment method is stored for this account.")
                | Ok methods =>
                    let* enabled := EnabledProviders in
                    match enabled with
                    | Err e => failed e
                    | Ok [] => failed ErrNoProvider
                    | Ok enabled =>
                        chargeAll enabled tenantID inv methods idempotencyKey amount actor ip
                    end
                end
          end
    end.

(** * Refunds *)

Definition RefundPayment (tenantID invoiceID : string) (amountMinor : Z)
    (reason actor ip : string) : M (Res Refund) :=
  let? inv := GetInvoice tenantID invoiceID in
  if (amountMinor <=? 0) || (i_PaidMinor inv <? amountMinor) then
    fail (ErrValidation "A refund cannot exceed what was actually paid.")
  else
    let? attempt := settledAttempt tenantID (i_ID inv) in
    let? p := ProviderInstance (pa_Provider attempt) in
    let* _ := providerTimeout in
    let req := mkRefundRequest ("refund:" +:+ pa_ID attempt +:+ ":" +:+ itoa amountMinor)
                 (pa_ProviderRef attempt) amountMinor (i_Currency inv) reason in
    let* _ := emit (FRefund (pa_Provider attempt) req) in
    let* result := ask (λ _ n, pv_Refund p n req) in
    match result with
    | Err e => fail (ErrUpstream (pa_Provider attempt) e)
    | Ok result =>
        let? note := IssueCreditNote tenantID (i_ID inv) amountMinor CreditRefund reason actor ip in
        let kind := if amountMinor =? i_TotalMinor inv then RefundFull else RefundPartial in
        let* id := newID in
        let* created := unix in
        let refund := mkRefund id tenantID (i_ID inv) (pa_ID attempt) (cn_ID note)
          (pa_Provider attempt) (rs_Reference result) amountMinor (i_Currency inv) kind
          (rs_State result) reason created 0 in
        let* refund := (if rs_State result =s "succeeded" then
                          let* done := unix in
                          ret (refund {{ rf_State := PaymentSucceeded; rf_CompletedAt := done }})
                        else ret refund) in
        let? _ := mapErr (λ e, ErrInternal e "Could not record the refund.")
                    (INSERT billing_refunds refund) in
        let* _ := WriteAudit (zeroAudit {{ ar_TenantID := tenantID; ar_Actor := actor;
          ar_Action := ActionRefundIssued; ar_Target := "invoice:" +:+ i_Number inv;
          ar_Provider := pa_Provider attempt; ar_IP := ip;
          ar_Detail := "amount_minor=" +:+ itoa amountMinor }}) in
        let* _ := notify tenantID NotifyRefundIssued in
        ok_ refund
    end.

Definition PaymentCSV (tenantID : string) : M (Res (list (list string))) :=
  let? attempts := ListAttempts tenantID 200 in
  ok_ (["attempted_at"; "provider"; "amount_minor"; "currency"; "state"; "failure_code";
        "invoice_id"] ::
       map (λ a, [timeText (pa_AttemptedAt a); pa_Provider a; itoa (pa_AmountMinor a);
                  pa_Currency a; pa_State a; pa_FailureCode a; pa_InvoiceID a]) attempts).

(** * Guarantees *)

Lemma guar_ListPaymentMethods {P} {HA : Accepts P} t : guar P (ListPaymentMethods t).
Proof. unfold ListPaymentMethods. guar_all. Qed.

Lemma guar_providerTimeout {P} {HA : Accepts P} : guar P providerTimeout.
Proof. unfold providerTimeout. guar_all. Qed.

Lemma guar_AttemptByKey {P} {HA : Accepts P} k : guar P (AttemptByKey k).
Proof. unfold AttemptByKey. guar_all. Qed.

Lemma guar_AttemptsForInvoice {P} {HA : Accepts P} t i : guar P (AttemptsForInvoice t i).
Proof. unfold AttemptsForInvoice. guar_all. Qed.

Lemma guar_settledAttempt {P} {HA : Accepts P} t i : guar P (settledAttempt t i).
Proof. unfold settledAttempt. guar_all. Qed.

Lemma guar_nextAttemptNumber {P} {HA : Accepts P} i : guar P (nextAttemptNumber i).
Proof. unfold nextAttemptNumber. guar_all. Qed.

Lemma guar_completeAttempt {P} {HA : Accepts P} a s r c m : guar P (completeAttempt a s r c m).
Proof.
  unfold completeAttempt. apply (guar_bind _); [guar_all|]. intros now.
  apply (guar_bind _); [|intros; guar_all]. apply acc_attempt. intros v _. reflexivity.
Qed.

#[global] Hint Resolve guar_ListPaymentMethods guar_providerTimeout guar_AttemptByKey
  guar_AttemptsForInvoice guar_settledAttempt guar_nextAttemptNumber
  guar_completeAttempt : okdb.

Lemma guar_AddPaymentMethod {P} {HA : Accepts P} t p k h a ip : guar P (AddPaymentMethod t p k h a ip).
Proof. unfold AddPaymentMethod. guar_all. Qed.

Lemma guar_RemovePaymentMethod {P} {HA : Accepts P} t m a ip : guar P (RemovePaymentMethod t m a ip).
Proof. unfold RemovePaymentMethod. guar_all. Qed.

#[global] Hint Resolve guar_AddPaymentMethod guar_RemovePaymentMethod : okdb.

(** What an operation that may charge a card needs of a protocol: that it admits
    one charge through one provider. *)
Class Charging (P : Protocol) := {
  charging_accepts :: Accepts P;
  charging_through : ∀ r i m k x n a ip, guar P (chargeThrough r i m k x n a ip) }.

#[global] Hint Extern 0 (Charging _) => typeclasses eauto : okdb.
#[global] Hint Resolve charging_through : okdb.

#[global] Instance charging_billing : Charging billing.
Proof.
  split; [typeclasses eauto|]. intros.
  unfold chargeThrough, insertAttempt, callCharge. guar_all; apply guar_emit_billing.
Qed.

Lemma guar_chargeLoop {P} {HA : Charging P} l j t i m k x n f a ip la le :
  guar P (chargeLoop l j t i m k x n f a ip la le).
Proof. revert j n la le. induction l as [|r l IH]; intros j n la le; simpl; guar_all; apply IH. Qed.
#[global] Hint Resolve guar_chargeLoop : okdb.

Lemma guar_chargeAll {P} {HA : Charging P} l t i m k x a ip : guar P (chargeAll l t i m k x a ip).
Proof. unfold chargeAll. guar_all. Qed.
#[global] Hint Resolve guar_chargeAll : okdb.

Lemma guar_ChargeInvoice {P} {HA : Charging P} t i k a ip : guar P (ChargeInvoice t i k a ip).
Proof. unfold ChargeInvoice, failed. guar_all. Qed.

Lemma guar_RefundPayment {P} {HA : Accepts P} t i x r a ip : guar P (RefundPayment t i x r a ip).
Proof. unfold RefundPayment. guar_all. Qed.
#[global] Hint Resolve guar_ChargeInvoice guar_RefundPayment : okdb.
