(* ===== verification/Dunning.v ===== *)
(** Dunning and renewals: [src/src/billing/dunning.go], and the scheduled task
    list of [src/src/billing/tasks.go]. *)
From stdpp Require Import prelude strings list gmap relations.
From Stdlib Require Import ZArith Lia Ascii.
From S2P Require Import Prelude GoTime Money States Errors Models Store Logic Guarantee Service.
From S2P Require Import Tax Accounts Plans SubQuery Quota Invoices Subscriptions Providers Payments.

Definition secondsPerDay : Z := 86400.

(** [n] before the first larger element. *)
Fixpoint insert_day (n : Z) (out : list Z) : list Z :=
  match out with
  | [] => [n]
  | x :: out' => if n <? x then n :: out else x :: insert_day n out'
  end.

(** One part of the day list; [seen] holds exactly the days of [out]. *)
Definition add_day (out : list Z) (part : string) : list Z :=
  match ParseInt (TrimSpace part) with
  | None => out
  | Some n => if (n <=? 0) || existsb (Z.eqb n) out then out else insert_day n out
  end.

Definition parseDayList (raw : string) : list Z := fold_left add_day (Split raw ",") [].

Definition RetrySchedule : M (list Z) :=
  let* raw := Setting SettingRetrySchedule DefaultRetryScheduleRaw in
  ret match parseDayList raw with
      | [] => parseDayList DefaultRetryScheduleRaw
      | days => days
      end.

Definition GraceDays : M Z :=
  let* days := SettingInt SettingGraceDays DefaultGraceDays in
  ret (if days <? 0 then DefaultGraceDays else days).

(** The loop of [dueRetryOffset] from position [index] on. *)
Fixpoint retry_from (schedule : list Z) (index elapsedDays attemptsMade : Z) : Z * bool :=
  match schedule with
  | [] => (0, false)
  | offset :: rest =>
      if index <? attemptsMade then retry_from rest (index + 1) elapsedDays attemptsMade
      else if offset <=? elapsedDays then (offset, true)
      else (0, false)
  end.

Definition dueRetryOffset (schedule : list Z) (dueAt now attemptsMade : Z) : Z * bool :=
  if (dueAt <=? 0) || (now <? dueAt) then (0, false)
  else retry_from schedule 0 ((now -! dueAt) /! secondsPerDay) attemptsMade.

Definition logDunning (inv : Invoice) (detail : string) : M unit :=
  WriteAudit (zeroAudit {{ ar_TenantID := i_TenantID inv; ar_Actor := ActorSystem;
    ar_Action := ActionDunningRun; ar_Target := "invoice:" +:+ i_Number inv;
    ar_Result := ResultFailure; ar_Detail := detail }}).

(** The step of [escalate] for a subscription that has not failed before. *)
Definition enterPastDue (inv : Invoice) (sub : Subscription) : M (Res unit) :=
  let? moved := Transition sub EventPaymentFailed ActorSystem
                  ("invoice " +:+ i_Number inv +:+ " unpaid") in
  let? graced := StartGrace moved ("invoice " +:+ i_Number inv) in
  let* _ := notify (s_TenantID graced) NotifyGraceStarted in
  ok_ tt.

(** The step for a subscription that is past due already. *)
Definition pastDueStep (inv : Invoice) (sub : Subscription) (graceSeconds now : Z)
  : M (Res unit) :=
  let graceEnd := if s_GraceEndsAt sub <=? 0 then i_DueAt inv +! graceSeconds
                  else s_GraceEndsAt sub in
  if now <? graceEnd then
    let* _ := notify (s_TenantID sub) NotifyPaymentFailed in ok_ tt
  else
    let? suspended := Transition sub EventGraceExpired ActorSystem
      ("grace expired with invoice " +:+ i_Number inv +:+ " unpaid") in
    let* _ := WriteAudit (zeroAudit {{ ar_TenantID := s_TenantID sub; ar_Actor := ActorSystem;
      ar_Action := ActionSubscriptionSuspended; ar_Target := "subscription:" +:+ s_ID suspended;
      ar_Result := ResultSuccess;
      ar_Detail := "invoice " +:+ i_Number inv +:+ " unpaid past grace" }}) in
    let* _ := notify (s_TenantID sub) NotifySuspended in
    if negb (i_State inv =s InvoiceOverdue) then
      let? _ := MarkInvoiceState (i_TenantID inv) (i_ID inv) InvoiceOverdue ActorSystem "" in
      ok_ tt
    else ok_ tt.

Definition escalate (inv : Invoice) (graceSeconds now : Z) : M (Res unit) :=
  if i_SubscriptionID inv =s "" then
    if (i_State inv =s InvoiceDue) && (i_DueAt inv <? now) then
      let? _ := MarkInvoiceState (i_TenantID inv) (i_ID inv) InvoiceOverdue ActorSystem "" in
      ok_ tt
    else ok_ tt
  else
    let* r := GetSubscription (i_TenantID inv) (i_SubscriptionID inv) in
    match r with
    | Err e => if isNotFound e then ok_ tt else fail e
    | Ok sub =>
        if (s_State sub =s StateActive) || (s_State sub =s StateTrialing) then
          enterPastDue inv sub
        else if negb (s_State sub =s StatePastDue) then ok_ tt
        else pastDueStep inv sub graceSeconds now
    end.

(** The retry owed on one invoice, and the invoice as it stands afterwards. *)
Definition retryCharge (inv : Invoice) (schedule : list Z) (now made : Z) : M Invoice :=
  let '(offset, due) := dueRetryOffset schedule (i_DueAt inv) now made in
  if due : bool then
    let key := "dunning:" +:+ i_ID inv +:+ ":" +:+ itoa offset in
    let* r := ChargeInvoice (i_TenantID inv) (i_ID inv) key ActorSystem "" in
    let* _ := match r.2 with
              | Some e => logDunning inv ("retry failed: " +:+ error_text e)
              | None => ret tt
              end in
    let* fresh := GetInvoice (i_TenantID inv) (i_ID inv) in
    ret match fresh with Ok f => f | Err _ => inv end
  else ret inv.

(** The body of the loop of [RunDunning]. *)
Definition dunOne (schedule : list Z) (graceSeconds now : Z) (inv : Invoice) : M (Res unit) :=
  if BalanceDueMinor inv <=? 0 then ok_ tt
  else
    let* attempts := AttemptsForInvoice (i_TenantID inv) (i_ID inv) in
    match attempts with
    | Err e =>
        let* _ := logDunning inv ("could not read attempts: " +:+ error_text e) in ok_ tt
    | Ok attempts =>
        let* inv := retryCharge inv schedule now (Z.of_nat (length attempts)) in
        if BalanceDueMinor inv <=? 0 then ok_ tt
        else
          let* r := escalate inv graceSeconds now in
          let* _ := match r with
                    | Err e => logDunning inv ("escalation failed: " +:+ error_text e)
                    | Ok _ => ret tt
                    end in
          ok_ tt
    end.

Definition RunDunning : M (Res unit) :=
  let* on := Enabled in
  if negb on then ok_ tt
  else
    let* now := unix in
    let? invoices := OpenInvoices now in
    let* schedule := RetrySchedule in
    let* graceDays := GraceDays in
    forM invoices (dunOne schedule (graceDays *! secondsPerDay) now).

Definition SendRenewalReminders : M (Res unit) :=
  let* on := Enabled in
  if negb on then ok_ tt
  else
    let* now := unix in
    let? subs := DueSubscriptions (now +! 7 * secondsPerDay) in
    forM subs (λ sub,
      let* _ :=
        (if (s_State sub =s StateTrialing) && (now <? s_TrialEndsAt sub) then
           notify (s_TenantID sub) NotifyTrialEnding
         else if (s_State sub =s StateActive) && negb (s_CancelAtPeriodEnd sub) &&
                 (now <? s_PeriodEnd sub) then
           notify (s_TenantID sub) NotifyRenewalUpcoming
         else ret tt) in
      ok_ tt).

(** * Renewals *)

Definition renewalAudit (sub : Subscription) (target : string) (e : error) : AuditRecord :=
  zeroAudit {{ ar_TenantID := s_TenantID sub; ar_Actor := ActorSystem;
    ar_Action := ActionRenewalRun; ar_Target := target; ar_Result := ResultFailure;
    ar_Detail := error_text e }}.

(** Invoices the period, advances it and attempts the charge. *)
Definition bill (sub : Subscription) : M (Res unit) :=
  let? inv := GenerateSubscriptionInvoice sub in
  let? sub := AdvanceRenewal sub in
  if 0 <? BalanceDueMinor inv then
    let key := "renewal:" +:+ s_ID sub +:+ ":" +:+ itoa (i_PeriodStart inv) in
    let* r := ChargeInvoice (s_TenantID sub) (i_ID inv) key ActorSystem "" in
    let* _ := match r.2 with
              | Some e => WriteAudit (renewalAudit sub ("invoice:" +:+ i_Number inv) e)
              | None => ret tt
              end in
    ok_ tt
  else ok_ tt.

Definition renewOne (now : Z) (sub : Subscription) : M (Res unit) :=
  let? sub := (if (s_State sub =s StateTrialing) && (0 <? s_TrialEndsAt sub) &&
                  (s_TrialEndsAt sub <=? now) then
                 Transition sub EventTrialConverted ActorSystem "trial ended"
               else ok_ sub) in
  if now <? s_PeriodEnd sub then ok_ tt
  else if s_CancelAtPeriodEnd sub then
    let? ended := Transition sub EventPeriodEnded ActorSystem "cancellation took effect" in
    let* _ := notify (s_TenantID ended) NotifyCancelled in
    ok_ tt
  else
    let? sub := (if negb (s_PendingPlanID sub =s "") && (0 <? s_PendingEffectiveAt sub) &&
                    (s_PendingEffectiveAt sub <=? now) then ApplyPendingPlan sub
                 else ok_ sub) in
    bill sub.

Definition RunRenewals : M (Res unit) :=
  let* on := Enabled in
  if negb on then ok_ tt
  else
    let* now := unix in
    let? subs := DueSubscriptions now in
    forM subs (λ sub,
      let* r := renewOne now sub in
      let* _ := match r with
                | Err e => WriteAudit (renewalAudit sub ("subscription:" +:+ s_ID sub) e)
                | Ok _ => ret tt
                end in
      ok_ tt).

(** [Bootstrap] seeds the meters and nothing else. *)
Definition Bootstrap : M (Res unit) := EnsureDefaultMeters.

(** * Guarantees *)

Lemma guar_RetrySchedule {P} {HA : Accepts P} : guar P RetrySchedule.
Proof. unfold RetrySchedule. guar_all. Qed.

Lemma guar_GraceDays {P} {HA : Accepts P} : guar P GraceDays.
Proof. unfold GraceDays. guar_all. Qed.

Lemma guar_logDunning {P} {HA : Accepts P} i d : guar P (logDunning i d).
Proof. unfold logDunning. guar_all. Qed.

Lemma guar_SendRenewalReminders {P} {HA : Accepts P} : guar P SendRenewalReminders.
Proof.
  intros s. unfold SendRenewalReminders. ok_skip. ok_skip; [ok_skip|]. ok_skip.
  eapply (ok_bindR _); [apply ok_DueSubscriptions| |done].
  intros subs s2 _ _. ok_rest.
Qed.
#[global] Hint Resolve guar_RetrySchedule guar_GraceDays guar_logDunning : okdb.

Lemma guar_retryCharge {P} {HA : Charging P} i s n m : guar P (retryCharge i s n m).
Proof. unfold retryCharge. guar_all. Qed.
#[global] Hint Resolve guar_retryCharge : okdb.

(** A step on a subscription that was read needs the [seen] it was read with. *)
Lemma ok_enterPastDue {P} {HA : Accepts P} s inv sub :
  seen_sub sub s → ok P s (enterPastDue inv sub) (λ _ _, True).
Proof.
  intros Hseen. unfold enterPastDue.
  eapply (ok_bindR _); [by apply ok_Transition| |done]. intros u s1 _ (_ & _ & Hu).
  eapply (ok_bindR _); [by apply ok_StartGrace| |done]. intros v s2 _ _. ok_rest.
Qed.

Lemma ok_pastDueStep {P} {HA : Accepts P} s inv sub g n :
  seen_sub sub s → ok P s (pastDueStep inv sub g n) (λ _ _, True).
Proof.
  intros Hseen. unfold pastDueStep. cbv zeta. destruct (n <? _); [ok_rest|].
  eapply (ok_bindR _); [by apply ok_Transition| |done]. intros u s1 _ _. ok_rest.
Qed.

Lemma guar_escalate {P} {HA : Accepts P} i g n : guar P (escalate i g n).
Proof.
  intros s. unfold escalate. destruct (_ =s ""); [ok_rest|].
  eapply (ok_bind _); [apply ok_GetSubscription|]. intros [sub|e] s1 _ H; [|ok_rest].
  destruct H as (_ & _ & Hseen).
  destruct (_ || _); [by apply ok_enterPastDue|].
  destruct (negb _); [ok_rest|by apply ok_pastDueStep].
Qed.
#[global] Hint Resolve guar_escalate : okdb.

Lemma guar_dunOne {P} {HA : Charging P} s g n i : guar P (dunOne s g n i).
Proof. unfold dunOne. guar_all. Qed.
#[global] Hint Resolve guar_dunOne : okdb.

Lemma guar_RunDunning {P} {HA : Charging P} : guar P RunDunning.
Proof. unfold RunDunning, OpenInvoices. guar_all. Qed.

Lemma ok_bill {P} {HA : Charging P} s sub : seen_sub sub s → ok P s (bill sub) (λ _ _, True).
Proof.
  intros Hseen. unfold bill. ok_skip.
  eapply (ok_bindR _); [by apply ok_AdvanceRenewal| |done]. intros u s2 _ _. ok_rest.
Qed.

Lemma ok_renewOne {P} {HA : Charging P} s n sub : seen_sub sub s → ok P s (renewOne n sub) (λ _ _, True).
Proof.
  intros Hseen. unfold renewOne.
  apply (ok_bindR _ _ _ _ (sub_result sub)); [| |done].
  { destruct (_ && _); [by apply ok_Transition|by apply (ok_ret _)]. }
  intros u s1 _ (_ & _ & Hu). destruct (n <? _); [ok_rest|].
  destruct (s_CancelAtPeriodEnd u).
  { eapply (ok_bindR _); [by apply ok_Transition| |done]. intros v s2 _ _. ok_rest. }
  apply (ok_bindR _ _ _ _ (sub_result u)); [| |done].
  { destruct (_ && _); [by apply ok_ApplyPendingPlan|by apply (ok_ret _)]. }
  intros v s2 _ (_ & _ & Hv). by apply ok_bill.
Qed.

(** A loop over rows read together: each is still known when its turn comes. *)
Lemma ok_forM_seen {P} {HA : Accepts P} s (l : list Subscription) (body : Subscription → M (Res unit)) :
  (∀ sub s1, seen_sub sub s1 → ok P s1 (body sub) (λ _ _, True)) →
  (∀ sub, sub ∈ l → seen_sub sub s) → ok P s (forM l body) (λ _ _, True).
Proof.
  intros Hb. revert s. induction l as [|x l IH]; intros s Hl; [by apply (ok_ret _)|].
  simpl. apply (ok_bindR _ _ _ _ (λ _ _, True)); [apply Hb, Hl; left| |done].
  intros _ s1 Hs _. apply IH. intros sub Hin.
  apply (seen_later (P := P) _ _ _ s); [done|]. apply Hl. by right.
Qed.

Lemma guar_RunRenewals {P} {HA : Charging P} : guar P RunRenewals.
Proof.
  intros s. unfold RunRenewals. ok_skip. ok_skip; [ok_skip|]. ok_skip.
  eapply (ok_bindR _); [apply ok_DueSubscriptions| |done].
  intros subs s2 _ Hsubs. apply ok_forM_seen; [|done].
  intros sub s3 Hseen. eapply (ok_bind _); [by apply ok_renewOne|]. intros r s4 _ _. ok_rest.
Qed.

Lemma guar_Bootstrap {P} {HA : Accepts P} : guar P Bootstrap.
Proof. unfold Bootstrap. guar_all. Qed.
#[global] Hint Resolve guar_RunDunning guar_RunRenewals guar_SendRenewalReminders guar_Bootstrap
  : okdb.

(** * Properties *)

Lemma elem_of_insert_day n x out : x ∈ insert_day n out ↔ x = n ∨ x ∈ out.
Proof.
  induction out as [|y out IH]; simpl; [set_solver|]. case_match; set_solver.
Qed.

Lemma insert_day_sorted n out :
  Sorted.StronglySorted Z.lt out → n ∉ out → Sorted.StronglySorted Z.lt (insert_day n out).
Proof.
  induction 1 as [|y out Hs IH Hy]; intros Hn; simpl; [repeat constructor|].
  destruct (Z.ltb_spec n y).
  - constructor; [by constructor|]. constructor; [done|].
    eapply Forall_impl; [exact Hy|]. simpl. lia.
  - constructor; [set_solver|]. apply Forall_forall. intros x [->|Hx]%elem_of_insert_day;
      [set_solver by lia|]. rewrite Forall_forall in Hy. auto.
Qed.

(** The day a part of the list names. *)
Definition names_day (part : string) (n : Z) : Prop :=
  0 < n ∧ ParseInt (TrimSpace part) = Some n.

Lemma add_day_spec out part :
  Sorted.StronglySorted Z.lt out →
  Sorted.StronglySorted Z.lt (add_day out part) ∧
  ∀ x, x ∈ add_day out part ↔ x ∈ out ∨ names_day part x.
Proof.
  intros Hs. unfold add_day, names_day. destruct (ParseInt _) as [n|]; [|naive_solver].
  destruct (Z.leb_spec n 0); simpl.
  { split; [done|]. intros x. split; [by left|]. intros [?|[? [= ->]]]; [done|lia]. }
  destruct (existsb (Z.eqb n) out) eqn:E.
  - apply existsb_exists in E as (y & Hy & <-%Z.eqb_eq). apply list_elem_of_In in Hy.
    split; [done|]. naive_solver.
  - assert (n ∉ out) as Hn.
    { intros Hn. apply not_true_iff_false in E. apply E, existsb_exists. exists n.
      split; [by apply list_elem_of_In|apply Z.eqb_refl]. }
    split; [by apply insert_day_sorted|]. intros x. rewrite elem_of_insert_day. naive_solver.
Qed.

(** A retry schedule typed as a comma-separated list is read as the strictly
    ascending list of exactly the positive day numbers in it; anything else in
    the text is ignored. *)
Theorem parseDayList_spec raw :
  Sorted.StronglySorted Z.lt (parseDayList raw) ∧
  ∀ n, n ∈ parseDayList raw ↔ ∃ part, part ∈ Split raw "," ∧ names_day part n.
Proof.
  unfold parseDayList.
  assert (∀ parts out, Sorted.StronglySorted Z.lt out →
    Sorted.StronglySorted Z.lt (fold_left add_day parts out) ∧
    ∀ n, n ∈ fold_left add_day parts out ↔ n ∈ out ∨ ∃ part, part ∈ parts ∧ names_day part n)
    as H.
  { induction parts as [|part parts IH]; intros out Hs; simpl; [set_solver|].
    destruct (add_day_spec out part Hs) as [Hs' Hin]. destruct (IH _ Hs') as [Hs'' Hin'].
    split; [done|]. intros n. rewrite Hin', Hin. set_solver. }
  destruct (H (Split raw ",") [] ltac:(constructor)) as [Hs Hin]. split; [done|].
  intros n. rewrite Hin. set_solver.
Qed.

Lemma retry_from_spec schedule index days made :
  0 ≤ index → ∀ off,
  retry_from schedule index days made = (off, true) ↔
  ∃ i, schedule !! i = Some off ∧ index + Z.of_nat i = Z.max index made ∧ off ≤ days.
Proof.
  revert index. induction schedule as [|o schedule IH]; intros index Hi off; simpl.
  { split; [done|]. by intros (i & Hi' & _). }
  destruct (Z.ltb_spec index made).
  - rewrite IH by lia. split.
    + intros (i & ? & ? & ?). exists (S i). split_and!; [done|lia|done].
    + intros ([|i] & ? & ? & ?); [lia|]. exists i. split_and!; [done|lia|done].
  - destruct (Z.leb_spec o days); split.
    + intros [= ->]. exists 0%nat. split_and!; [done|lia|done].
    + intros ([|i] & Hl & ? & ?); [by injection Hl as ->|lia].
    + done.
    + intros ([|i] & Hl & ? & ?); [injection Hl as ->|]; lia.
Qed.

(** A retry is owed exactly when the invoice has fallen due, the schedule
    has an entry at the number of attempts already made, and that many whole
    days have passed since the due date; the offset is that entry, so each entry
    fires at most once. *)
Theorem dueRetryOffset_spec schedule dueAt now made off
    (Hnow : now ≤ max_int64) (Hmade : 0 ≤ made) :
  dueRetryOffset schedule dueAt now made = (off, true) ↔
  0 < dueAt ≤ now ∧ schedule !! Z.to_nat made = Some off ∧ off * secondsPerDay ≤ now - dueAt.
Proof.
  unfold dueRetryOffset, secondsPerDay.
  destruct (Z.leb_spec dueAt 0); simpl; [split; [done|lia]|].
  destruct (Z.ltb_spec now dueAt); [split; [done|lia]|].
  assert (now -! dueAt = now - dueAt) as -> by (apply wrap64_id; int64).
  rewrite Z.quot_div_nonneg by lia.
  rewrite wrap64_id by (split; [|apply Z.div_le_upper_bound]; unfold min_int64, max_int64 in *;
    [pose proof (Z.div_pos (now - dueAt) 86400); lia|lia|lia]).
  rewrite retry_from_spec by lia.
  assert (∀ o, o ≤ (now - dueAt) / 86400 ↔ o * 86400 ≤ now - dueAt) as Hq.
  { intros o. split; intros H'; divlia. }
  split.
  - intros (i & Hi & Hm & Ho). replace (Z.to_nat made) with i by lia.
    split_and!; [lia|lia|done|by apply Hq].
  - intros (_ & Hi & Ho). exists (Z.to_nat made). split_and!; [done|lia|by apply Hq].
Qed.

Lemma dueRetryOffset_spec_witness :
  dueRetryOffset [1; 3; 5; 7] 1699000000 1700000000 2 = (5, true) ∧
  [1; 3; 5; 7] !! Z.to_nat 2 = Some 5.
Proof.
  split; [reflexivity|].
  apply (dueRetryOffset_spec [1; 3; 5; 7] 1699000000 1700000000 2 5);
    [unfold max_int64; lia|lia|reflexivity].
Defined.
