(* ===== verification/Lifecycle.v ===== *)
(** What lifecycle steps do to a stored subscription, exactly: [Transition], the
    escalation of an unpaid invoice, and renewals
    ([src/src/billing/subscriptions.go], [src/src/billing/dunning.go]). *)
From stdpp Require Import prelude strings list gmap relations.
From Stdlib Require Import ZArith Lia.
From S2P Require Import Prelude GoTime Money States Errors Models Store Logic Guarantee Samples.
From S2P Require Import Service Quiet Tax Accounts Plans SubQuery Quota Invoices Subscriptions.
From S2P Require Import Providers Payments Dunning.

(** A stored subscription of a named tenant. *)
Definition held (s : Shared) (v : Subscription) : Prop :=
  t_subs (sh_db s) !! s_ID v = Some v ∧ (TrimSpace (s_TenantID v) =s "") = false.

Lemma held_subs s s' v : t_subs (sh_db s') = t_subs (sh_db s) → held s v → held s' v.
Proof. intros E [Hv Ht]. split; [by rewrite E|done]. Qed.

Lemma audit_subs s s' : same_but_audit s s' → t_subs (sh_db s') = t_subs (sh_db s).
Proof. intros ->. done. Qed.

Lemma held_update s v v' :
  held s v → s_ID v' = s_ID v → s_TenantID v' = s_TenantID v →
  held (set_db s ((sh_db s) {{ t_subs := <[s_ID v := v']> (t_subs (sh_db s)) }})) v'.
Proof. intros [Hv Ht] Ei Et. split; [simpl; by rewrite Ei, lookup_insert_eq|by rewrite Et]. Qed.

Lemma q_GetSubscription s v (Q : Res Subscription → Shared → Prop) :
  held s v → Q (Ok v) s → ok quietP s (GetSubscription (s_TenantID v) (s_ID v)) Q.
Proof.
  intros [Hv Ht] HQ. unfold GetSubscription. rewrite Ht. apply q_mapErr, q_SELECT_ROW.
  unfold find_row. simpl. by rewrite Hv, seqb_refl.
Qed.

Lemma q_updateSub s v g (Q : Res unit → Shared → Prop) :
  held s v →
  Q (Ok tt) (set_db s ((sh_db s) {{ t_subs := <[s_ID v := g v]> (t_subs (sh_db s)) }})) →
  ok quietP s (updateSub (s_TenantID v) v g) Q.
Proof.
  intros [Hv _] HQ. apply q_mapErr. apply (q_UPDATE_VERSIONED billing_subscriptions _ _ v);
    [done| |done]. unfold sub_guard. by rewrite seqb_refl, Z.eqb_refl.
Qed.

(** Logging an event touches no subscription. *)
Lemma q_recordEvent {B} s sub ev f t a d (k : unit → M B) (Q : B → Shared → Prop) :
  (∀ s', t_subs (sh_db s') = t_subs (sh_db s) → ok quietP s' (k tt) Q) →
  ok quietP s (bind (recordSubscriptionEvent sub ev f t a d) k) Q.
Proof.
  intros Hk. apply (q_bind _ _ _ _ (λ _ s', t_subs (sh_db s') = t_subs (sh_db s)));
    [|by intros [] s1 H; apply Hk].
  unfold recordSubscriptionEvent. cbv zeta. apply q_step, (ok_ask _). intros w n _.
  apply q_step, (ok_ask _). intros w' n' _. apply q_step, q_exec.
  destruct (existsb _ _); [|by apply (ok_ret _)]. intros m.
  eapply (ok_conseq _); [apply q_framed; guar_all|]. by intros _ s1 _ _ ?%audit_subs.
Qed.

(** A legal event moves the stored row to the next state and returns it. *)
Lemma q_Transition s v ev a d st' (Q : Res Subscription → Shared → Prop) :
  held s v → NextSubscriptionState (s_State v) ev = Ok st' →
  (∀ v' s', held s' v' → s_State v' = st' → s_GraceEndsAt v' = s_GraceEndsAt v →
     s_ID v' = s_ID v → s_TenantID v' = s_TenantID v → Q (Ok v') s') →
  ok quietP s (Transition v ev a d) Q.
Proof.
  intros Hs Hn HQ. unfold Transition. rewrite Hn. apply q_step, (ok_ask _). intros w n _.
  cbv zeta. set (e := if _ && _ then _ else _).
  set (v' := v {{ s_State := st'; s_EndedAt := e; s_UpdatedAt := w_now w n;
                  s_Version := s_Version v + 1 }}).
  apply q_bindR, q_updateSub; [done|].
  pose proof (held_update s v v' Hs eq_refl eq_refl) as Hs'.
  apply q_recordEvent. intros s2 E. apply (held_subs _ s2 _ E) in Hs'.
  apply (q_GetSubscription s2 v' _ Hs'). by apply (HQ v' s2).
Qed.

(** The same event a second time: a subscription that is past due refuses it. *)
Lemma past_due_refuses v : s_State v = StatePastDue →
  ∃ m, NextSubscriptionState (s_State v) EventPaymentFailed = Err m.
Proof. intros ->. eexists. reflexivity. Qed.

Lemma q_StartGrace_past_due s v d :
  held s v → s_State v = StatePastDue →
  ok quietP s (StartGrace v d) (λ r s', (∃ e, r = Err e) ∧ held s' v).
Proof.
  intros Hs Hp. unfold StartGrace. apply q_audit.
  { unfold GetPlan, withQuotas, PlanQuotas. guar_all. }
  intros plan s1 E%audit_subs. apply (held_subs _ s1 _ E) in Hs. cbv zeta.
  apply q_step, (ok_ask _). intros w n _. unfold Transition.
  destruct (past_due_refuses v Hp) as [m ->]. apply q_bindR, (ok_ret _). intros _. eauto.
Qed.

(** An active subscription behind an unpaid invoice is moved to past due, but the grace period that should start with it never does: the
    same event is sent again by [StartGrace], which a past due subscription
    refuses, so the escalation always reports failure and [grace_ends_at] keeps
    its old value. *)
Theorem escalation_skips_grace w st inv v
    (Hw : rely quietP w) (Hv : held (st_sh st) v)
    (Hstate : s_State v = StateActive) :
  let run := enterPastDue inv v w st in
  (∃ e, run.1 = Err e) ∧
  ∃ v', t_subs (sh_db (st_sh run.2)) !! s_ID v = Some v' ∧ s_State v' = StatePastDue ∧
    s_GraceEndsAt v' = s_GraceEndsAt v.
Proof.
  intros run.
  apply (quiet_run (enterPastDue inv v) (λ r s', (∃ e, r = Err e) ∧
    ∃ v', t_subs (sh_db s') !! s_ID v = Some v' ∧ s_State v' = StatePastDue ∧
      s_GraceEndsAt v' = s_GraceEndsAt v)); [|done].
  unfold enterPastDue. apply q_bindR, (q_Transition _ _ _ _ _ StatePastDue); [done| |].
  { by rewrite Hstate. }
  intros v' s1 Hs1 Hst Hg Hi Ht. apply q_bindR.
  eapply (ok_conseq _); [by apply q_StartGrace_past_due|].
  intros r s2 _ _ [[e ->] [Hv' _]]. split; [eauto|]. exists v'. by rewrite <-Hi.
Qed.

Lemma escalation_skips_grace_witness :
  let run := enterPastDue sample_invoice sample_sub sample_world (start sample_db) in
  ∃ v', t_subs (sh_db (st_sh run.2)) !! "sub-1" = Some v' ∧ s_State v' = StatePastDue ∧
    s_GraceEndsAt v' = 0.
Proof.
  apply (escalation_skips_grace sample_world (start sample_db) sample_invoice sample_sub);
    [apply sample_quiet|by split|reflexivity].
Defined.

(** A scheduled cancellation can be withdrawn: run alone, [Resume] brings a
    cancelled subscription that has not ended back to active, by an edge that no
    event of [NextSubscriptionState] has, although its comment calls that edge
    set complete and authoritative. *)
Theorem Resume_withdraws_cancellation w st v actor ip
    (Hw : rely quietP w) (Hv : held (st_sh st) v)
    (Hstate : s_State v = StateCancelled) (Hend : s_EndedAt v = 0) :
  let run := Resume (s_TenantID v) (s_ID v) actor ip w st in
  (∀ ev, NextSubscriptionState (s_State v) ev ≠ Ok StateActive) ∧
  ∃ v', run.1 = Ok v' ∧ t_subs (sh_db (st_sh run.2)) !! s_ID v = Some v' ∧
    s_State v' = StateActive ∧ s_CancelledAt v' = 0 ∧ s_CancelAtPeriodEnd v' = false.
Proof.
  intros run. split.
  { intros ev. rewrite Hstate. unfold NextSubscriptionState. simpl. repeat case_match; done. }
  apply (quiet_run (Resume (s_TenantID v) (s_ID v) actor ip) (λ r s', ∃ v', r = Ok v' ∧
    t_subs (sh_db s') !! s_ID v = Some v' ∧ s_State v' = StateActive ∧ s_CancelledAt v' = 0 ∧
    s_CancelAtPeriodEnd v' = false)); [|done].
  unfold Resume. apply q_bindR, q_GetSubscription; [done|]. cbv zeta. rewrite Hstate, Hend. simpl.
  apply q_step, (ok_ask _). intros w' n _.
  set (v' := v {{ s_State := StateActive; s_CancelledAt := 0; s_CancelAtPeriodEnd := false;
                  s_UpdatedAt := w_now w' n; s_Version := s_Version v + 1 }}).
  apply q_bindR, q_updateSub; [done|].
  pose proof (held_update _ v v' Hv eq_refl eq_refl) as Hv'.
  apply q_recordEvent. intros s2 E. apply (held_subs _ s2 _ E) in Hv'.
  apply q_audit; [guar_all|]. intros _ s3 E3%audit_subs. apply (held_subs _ s3 _ E3) in Hv'.
  apply (q_GetSubscription s3 v' _ Hv'). exists v'. split; [done|]. split; [apply Hv'|done].
Qed.

Definition leaving_sub : Subscription :=
  sample_sub {{ s_State := StateCancelled; s_CancelledAt := 1699900000;
                s_CancelAtPeriodEnd := true }}.

Lemma Resume_withdraws_cancellation_witness :
  let st := start (sample_db {{ t_subs := {[ "sub-1" := leaving_sub ]} }}) in
  ∃ v', (Resume "acme" "sub-1" "admin" "" sample_world st).1 = Ok v' ∧ s_State v' = StateActive.
Proof.
  intros st.
  destruct (Resume_withdraws_cancellation sample_world st leaving_sub "admin" "")
    as [_ (v' & H & _ & Hs & _)]; [apply sample_quiet|by split|reflexivity|reflexivity|].
  exists v'. split; [exact H|exact Hs].
Defined.

(** * Renewals *)

Definition monthly_plan : Plan :=
  zeroPlan {{ p_ID := "plan-1"; p_Code := "basic"; p_Name := "Basic"; p_Currency := "USD";
    p_PriceMinor := 2000; p_Cycle := CycleMonthly; p_Active := true; p_Version := 1 }}.

(** A subscription that was cancelled at once and is over. *)
Definition ended_sub : Subscription :=
  sample_sub {{ s_State := StateCancelled; s_CancelledAt := 1699500000;
    s_EndedAt := 1699500000; s_PeriodEnd := 1700000000 }}.

Definition ended_db : DB :=
  emptyDB {{ t_accounts := {[ "acme" := sample_account ]};
             t_plans := {[ "plan-1" := monthly_plan ]};
             t_subs := {[ "sub-1" := ended_sub ]};
             t_settings := {[ "billing_enabled" :=
               mkSettingRow "billing_enabled" "true" 0 "admin" ]} }}.

(** The renewal pass selects cancelled subscriptions by their period end and
    never looks at [ended_at]: a subscription that was cancelled immediately is
    invoiced for the next period and its period is advanced. *)
Theorem ended_subscription_renewed :
  let after := sh_db (st_sh (RunRenewals sample_world (start ended_db)).2) in
  Active ended_sub = false ∧
  map (λ i, (i_SubscriptionID i, i_State i, i_TotalMinor i))
    (map snd (map_to_list (t_invoices after))) = [("sub-1", InvoiceIssued, 2000)] ∧
  (s_PeriodEnd <$> t_subs after !! "sub-1") = Some 1702592000.
Proof. vm_compute. repeat split; reflexivity. Qed.
