(* ===== verification/Webhook.v ===== *)
(** Inbound provider events: [src/src/billing/webhook.go]. *)
From stdpp Require Import prelude strings list gmap relations.
From Stdlib Require Import ZArith Lia Ascii.
From S2P Require Import Prelude GoTime Money States Errors Models Store Logic Guarantee Samples.
From S2P Require Import Service Quiet.
From S2P Require Import Tax Accounts Plans SubQuery Quota Invoices Subscriptions Providers Payments.
From S2P Require Import Dunning.

Definition maxWebhookBody : Z := 1048576.

(** Normalised event kinds of [src/src/billing/provider/provider.go]. *)
Definition KindPaymentSucceeded : string := "payment.succeeded".
Definition KindPaymentFailed : string := "payment.failed".
Definition KindRefunded : string := "payment.refunded".
Definition KindDisputed : string := "payment.disputed".
Definition KindMethodExpiring : string := "method.expiring".

Record WebhookResult := mkWebhookResult {
  wr_Provider : string; wr_EventID : string; wr_EventType : string; wr_State : string;
  wr_Duplicate : bool; wr_Detail : string }.

Definition attemptByReference (providerName reference : string) : M (Res PaymentAttempt) :=
  if TrimSpace reference =s "" then fail (ErrNotFound "payment attempt")
  else
    mapErr (readError "payment attempt" "Could not read the payment attempt.")
      (SELECT_FIRST billing_payment_attempts
         (λ a, (pa_Provider a =s providerName) && (pa_ProviderRef a =s reference))
         (desc pa_AttemptedAt)).

Definition refundAlreadyBooked (attemptID : string) (amountMinor : Z) : M bool :=
  let* r := COUNT billing_refunds
    (λ f, (rf_AttemptID f =s attemptID) && (rf_AmountMinor f =? amountMinor)) in
  ret match r with Ok count => 0 <? count | Err _ => false end.

Definition webhookEvent (id : string) : M (Res WebhookEvent) :=
  mapErr (readError "webhook event" "Could not read the webhook ledger.")
    (SELECT_ROW billing_webhook_events id all_rows).

Definition recordWebhook (e : WebhookEvent) : M (Res unit) :=
  let? _ := mapErr (λ err, if IsAlreadyExistsError err then
                             ErrConflict "That webhook event was already received."
                           else ErrInternal err "Could not record the webhook event.")
              (INSERT billing_webhook_events e) in
  ok_ tt.

Definition finishWebhook (id state detail : string) : M unit :=
  let* now := unix in
  let* r := UPDATE billing_webhook_events id all_rows (λ e,
    e {{ wh_State := state; wh_Detail := detail; wh_ProcessedAt := now }}) in
  match r with
  | Ok _ => ret tt
  | Err e => WriteAudit (zeroAudit {{ ar_Actor := ActorSystem;
      ar_Action := ActionWebhookReceived; ar_Target := "event:" +:+ id;
      ar_Result := ResultFailure; ar_Detail := "ledger update failed: " +:+ error_text e }})
  end.

Definition rejectWebhook (providerName eventID ip detail : string) : M unit :=
  WriteAudit (zeroAudit {{ ar_Actor := ActorSystem; ar_Action := ActionWebhookRejected;
    ar_Provider := providerName; ar_Target := "event:" +:+ eventID; ar_Result := ResultDenied;
    ar_IP := ip; ar_Detail := detail }}).

(** * Applying an event: the ledger state and its detail, or the error.  The
    state the source returns beside an error is not used by its callers. *)

Definition NoAttempt : string := "no matching payment attempt".

Definition recoverSubscription (tenantID : string) : M (Res unit) :=
  let* sub := ActiveSubscription tenantID in
  match sub with
  | Err _ => ok_ tt
  | Ok sub =>
      if s_State sub =s StatePastDue then
        let? _ := Transition sub EventPaymentRecovered ActorSystem "webhook payment recovered" in
        ok_ tt
      else ok_ tt
  end.

Definition applyPaymentEvent (providerName : string) (event : Event) (state : string)
  : M (Res (string * string)) :=
  let* r := attemptByReference providerName (e_Reference event) in
  match r with
  | Err e => if isNotFound e then ok_ (WebhookIgnored, NoAttempt) else fail e
  | Ok attempt =>
      if pa_State attempt =s state then ok_ (WebhookProcessed, "attempt already in " +:+ state)
      else
        let* _ := completeAttempt attempt state (e_Reference event) "" (e_Detail event) in
        if negb (state =s PaymentSucceeded) then
          let* _ := notify (pa_TenantID attempt) NotifyPaymentFailed in
          ok_ (WebhookProcessed, "attempt marked failed")
        else
          let amount := if 0 <? e_AmountMinor event then e_AmountMinor event
                        else pa_AmountMinor attempt in
          let? _ := RecordPayment (pa_TenantID attempt) (pa_InvoiceID attempt) amount
                      ActorSystem "" in
          let? _ := recoverSubscription (pa_TenantID attempt) in
          ok_ (WebhookProcessed, "payment recorded")
  end.

Definition applyRefundEvent (providerName : string) (event : Event)
  : M (Res (string * string)) :=
  let* r := attemptByReference providerName (e_Reference event) in
  match r with
  | Err e => if isNotFound e then ok_ (WebhookIgnored, NoAttempt) else fail e
  | Ok attempt =>
      let amount := if e_AmountMinor event <=? 0 then pa_AmountMinor attempt
                    else e_AmountMinor event in
      let* booked := refundAlreadyBooked (pa_ID attempt) amount in
      if booked : bool then ok_ (WebhookProcessed, "refund already booked")
      else
        let? note := IssueCreditNote (pa_TenantID attempt) (pa_InvoiceID attempt) amount
                       CreditRefund "refunded at the provider" ActorSystem "" in
        let kind := if pa_AmountMinor attempt <=? amount then RefundFull else RefundPartial in
        let* id := newID in
        let* created := unix in
        let* completed := unix in
        let? _ := mapErr (λ e, ErrInternal e "Could not record the refund.")
          (INSERT billing_refunds (mkRefund id (pa_TenantID attempt) (pa_InvoiceID attempt)
             (pa_ID attempt) (cn_ID note) providerName (e_Reference event) amount
             (pa_Currency attempt) kind PaymentSucceeded "provider refund" created completed)) in
        let* _ := notify (pa_TenantID attempt) NotifyRefundIssued in
        ok_ (WebhookProcessed, "credit note " +:+ cn_Number note +:+ " issued")
  end.

Definition applyDisputeEvent (providerName : string) (event : Event)
  : M (Res (string * string)) :=
  let* r := attemptByReference providerName (e_Reference event) in
  match r with
  | Err e => if isNotFound e then ok_ (WebhookIgnored, NoAttempt) else fail e
  | Ok attempt =>
      let? _ := MarkInvoiceState (pa_TenantID attempt) (pa_InvoiceID attempt) InvoiceDisputed
                  ActorSystem "" in
      let* _ := WriteAudit (zeroAudit {{ ar_TenantID := pa_TenantID attempt;
        ar_Actor := ActorSystem; ar_Action := ActionWebhookReceived;
        ar_Target := "invoice:" +:+ pa_InvoiceID attempt; ar_Provider := providerName;
        ar_Result := ResultFailure; ar_Detail := "dispute opened: " +:+ e_Detail event }}) in
      ok_ (WebhookProcessed, "invoice marked disputed")
  end.

Definition applyMethodExpiring (providerName : string) (event : Event)
  : M (Res (string * string)) :=
  let* r := SELECT_FIRST billing_payment_methods
    (λ m, (pm_Provider m =s providerName) && (pm_ProviderToken m =s e_Reference event)) any_order in
  match r with
  | Err e =>
      if isNoRows e then ok_ (WebhookIgnored, "no matching payment method")
      else fail (ErrInternal e "Could not read the payment method.")
  | Ok method =>
      let* now := unix in
      let? _ := mapErr (λ e, ErrInternal e "Could not flag the payment method.")
        (UPDATE billing_payment_methods (pm_ID method) all_rows (λ m,
           m {{ pm_State := MethodExpired; pm_UpdatedAt := now }})) in
      let* _ := notify (pm_TenantID method) NotifyPaymentFailed in
      ok_ (WebhookProcessed, "payment method flagged expiring")
  end.

Definition applyWebhook (providerName : string) (event : Event) : M (Res (string * string)) :=
  if e_Kind event =s KindPaymentSucceeded then applyPaymentEvent providerName event PaymentSucceeded
  else if e_Kind event =s KindPaymentFailed then applyPaymentEvent providerName event PaymentFailed
  else if e_Kind event =s KindRefunded then applyRefundEvent providerName event
  else if e_Kind event =s KindDisputed then applyDisputeEvent providerName event
  else if e_Kind event =s KindMethodExpiring then applyMethodExpiring providerName event
  else ok_ (WebhookIgnored, "no action for " +:+ e_Kind event).

(** * Deliveries *)

(** A verified event: claimed in the ledger, applied, and its outcome kept. *)
Definition processEvent (providerName raw ip : string) (event : Event)
  : M (WebhookResult * option error) :=
  let result := mkWebhookResult providerName (e_ID event) (e_Kind event) WebhookRejected false "" in
  let ledgerID := providerName +:+ ":" +:+ e_ID event in
  let* existing := webhookEvent ledgerID in
  match existing with
  | Ok existing =>
      ret (result {{ wr_Duplicate := true; wr_State := wh_State existing;
                     wr_Detail := "already processed" }}, None)
  | Err e =>
      if negb (isNotFound e) then ret (result, Some e)
      else
        let* hash := ask (λ w _, w_hash w raw) in
        let* now := unix in
        let* claimed := recordWebhook (mkWebhookEvent ledgerID providerName (e_ID event)
          (e_Kind event) WebhookReceived hash "" now 0) in
        match claimed with
        | Err e =>
            if isConflictErr e then
              ret (result {{ wr_Duplicate := true; wr_State := WebhookProcessed }}, None)
            else ret (result, Some e)
        | Ok _ =>
            let* _ := WriteAudit (zeroAudit {{ ar_Actor := ActorSystem;
              ar_Action := ActionWebhookReceived; ar_Provider := providerName;
              ar_Target := "event:" +:+ e_ID event; ar_Result := ResultSuccess; ar_IP := ip;
              ar_Detail := e_Kind event }}) in
            let* applied := applyWebhook providerName event in
            match applied with
            | Err e =>
                let* _ := finishWebhook ledgerID WebhookFailed (error_text e) in
                ret (result {{ wr_State := WebhookFailed; wr_Detail := error_text e }}, Some e)
            | Ok (state, detail) =>
                let* _ := finishWebhook ledgerID state detail in
                ret (result {{ wr_State := state; wr_Detail := detail }}, None)
            end
        end
  end.

(** [body]: the bytes of the request, or a failure to read them.  The reader is
    limited to one byte more than [maxWebhookBody], so a longer body is refused
    whatever follows. *)
Definition HandleWebhook (providerName : string) (header : list (string * string))
    (body : Res string) (ip : string) : M (WebhookResult * option error) :=
  let result := mkWebhookResult providerName "" "" WebhookRejected false "" in
  let stop e : M (WebhookResult * option error) := ret (result, Some e) in
  let* rec := ProviderByName providerName in
  match rec with
  | Err e => stop e
  | Ok rec =>
      if negb (pr_Enabled rec) then
        let* _ := WriteAudit (zeroAudit {{ ar_Actor := ActorSystem;
          ar_Action := ActionWebhookRejected; ar_Provider := providerName;
          ar_Result := ResultDenied; ar_IP := ip; ar_Detail := "provider is not enabled" }}) in
        stop (ErrProviderDisabled providerName)
      else
        match body with
        | Err _ => stop (ErrValidation "The webhook body could not be read.")
        | Ok raw =>
            if maxWebhookBody <? slen raw then
              let* _ := rejectWebhook providerName "" ip "body exceeds the size limit" in
              stop (ErrValidation "The webhook body is too large.")
            else
              let* secret := WebhookSecret providerName in
              match secret with
              | Err e => stop e
              | Ok secret =>
                  if secret =s "" then
                    let* _ := rejectWebhook providerName "" ip "no webhook secret is configured" in
                    stop (ErrValidation "No webhook secret is configured for this provider.")
                  else
                    let* r := instance rec in
                    match r with
                    | Err e => stop e
                    | Ok (p, _) =>
                        let* verified := ask (λ _ n, pv_VerifyWebhook p n header raw secret) in
                        match verified with
                        | Err _ =>
                            let* _ := rejectWebhook providerName "" ip
                                        "signature verification failed" in
                            stop (ErrForbidden "The webhook signature could not be verified.")
                        | Ok event => processEvent providerName raw ip event
                        end
                    end
              end
        end
  end.

Definition ListWebhookEvents (limit : Z) : M (Res (list WebhookEvent)) :=
  let limit := if (limit <=? 0) || (200 <? limit) then 50 else limit in
  let? rows := mapErr (λ e, ErrInternal e "Could not read the webhook ledger.")
    (SELECT billing_webhook_events all_rows (desc wh_ReceivedAt)) in
  ok_ (firstn (Z.to_nat limit) rows).

(** * Retries *)

Definition attemptByEventProvider (e : WebhookEvent) : M (Res PaymentAttempt) :=
  mapErr (readError "payment attempt" "Could not read the payment attempt.")
    (SELECT_FIRST billing_payment_attempts
       (λ a, (pa_Provider a =s wh_Provider e) && negb (pa_ProviderRef a =s "") &&
             (wh_ReceivedAt e -! secondsPerDay <=? pa_AttemptedAt a)) (desc pa_AttemptedAt)).

Definition replayFromProvider (e : WebhookEvent) : M (Res (string * string)) :=
  let? p := ProviderInstance (wh_Provider e) in
  let* attempt := attemptByEventProvider e in
  match attempt with
  | Err _ => ok_ (WebhookIgnored, NoAttempt)
  | Ok attempt =>
      let* _ := providerTimeout in
      let* _ := emit (FGetPayment (wh_Provider e) (pa_ProviderRef attempt)) in
      let* live := ask (λ _ n, pv_GetPayment p n (pa_ProviderRef attempt)) in
      match live with
      | Err err => fail (ErrUpstream (wh_Provider e) err)
      | Ok live =>
          applyPaymentEvent (wh_Provider e)
            (mkEvent (wh_EventID e) (wh_EventType e) (pa_ProviderRef attempt)
               (cs_AmountMinor live) (cs_Currency live) (cs_FailureMessage live) 0)
            (mapChargeState (cs_State live))
      end
  end.

Definition retryOne (e : WebhookEvent) : M (Res unit) :=
  let* r := replayFromProvider e in
  let* _ := match r with
            | Err err => finishWebhook (wh_ID e) WebhookDeadLetter (error_text err)
            | Ok (state, detail) => finishWebhook (wh_ID e) state detail
            end in
  ok_ tt.

Definition RetryFailedWebhooks : M (Res unit) :=
  let? rows := mapErr (λ e, ErrInternal e "Could not read the webhook ledger.")
    (SELECT billing_webhook_events (λ e, wh_State e =s WebhookFailed) (asc wh_ReceivedAt)) in
  forM (firstn 50 rows) retryOne.

Definition WebhookPath (providerName : string) : string := "/webhooks/billing/" +:+ providerName.

(** * Guarantees *)

Lemma guar_attemptByReference {P} {HA : Accepts P} p r : guar P (attemptByReference p r).
Proof. unfold attemptByReference. guar_all. Qed.

Lemma guar_refundAlreadyBooked {P} {HA : Accepts P} a x : guar P (refundAlreadyBooked a x).
Proof. unfold refundAlreadyBooked. guar_all. Qed.

Lemma guar_webhookEvent {P} {HA : Accepts P} i : guar P (webhookEvent i).
Proof. unfold webhookEvent. guar_all. Qed.

Lemma guar_recordWebhook {P} {HA : Accepts P} e : guar P (recordWebhook e).
Proof. unfold recordWebhook. guar_all. Qed.

Lemma guar_finishWebhook {P} {HA : Accepts P} i s d : guar P (finishWebhook i s d).
Proof. unfold finishWebhook. guar_all. Qed.

Lemma guar_rejectWebhook {P} {HA : Accepts P} p e ip d : guar P (rejectWebhook p e ip d).
Proof. unfold rejectWebhook. guar_all. Qed.

Lemma guar_recoverSubscription {P} {HA : Accepts P} t : guar P (recoverSubscription t).
Proof.
  intros s. unfold recoverSubscription. eapply (ok_bind _); [apply ok_ActiveSubscription|].
  intros [sub|e] s1 _ H; [|ok_rest]. destruct H as (_ & _ & Hseen).
  destruct (_ =s _); [|ok_rest].
  eapply (ok_bindR _); [by apply ok_Transition|intros; ok_rest|done].
Qed.

#[global] Hint Resolve guar_attemptByReference guar_refundAlreadyBooked guar_webhookEvent
  guar_recordWebhook guar_finishWebhook guar_rejectWebhook guar_recoverSubscription : okdb.

Lemma guar_applyPaymentEvent {P} {HA : Accepts P} p e s : guar P (applyPaymentEvent p e s).
Proof. unfold applyPaymentEvent. guar_all. Qed.

Lemma guar_applyRefundEvent {P} {HA : Accepts P} p e : guar P (applyRefundEvent p e).
Proof. unfold applyRefundEvent. guar_all. Qed.

Lemma guar_applyDisputeEvent {P} {HA : Accepts P} p e : guar P (applyDisputeEvent p e).
Proof. unfold applyDisputeEvent. guar_all. Qed.

Lemma guar_applyMethodExpiring {P} {HA : Accepts P} p e : guar P (applyMethodExpiring p e).
Proof. unfold applyMethodExpiring. guar_all. Qed.

#[global] Hint Resolve guar_applyPaymentEvent guar_applyRefundEvent guar_applyDisputeEvent
  guar_applyMethodExpiring : okdb.

Lemma guar_applyWebhook {P} {HA : Accepts P} p e : guar P (applyWebhook p e).
Proof. unfold applyWebhook. guar_all. Qed.
#[global] Hint Resolve guar_applyWebhook : okdb.

Lemma guar_processEvent {P} {HA : Accepts P} p r ip e : guar P (processEvent p r ip e).
Proof. unfold processEvent. guar_all. Qed.
#[global] Hint Resolve guar_processEvent : okdb.

Lemma guar_HandleWebhook {P} {HA : Accepts P} p h b ip : guar P (HandleWebhook p h b ip).
Proof. unfold HandleWebhook. guar_all. Qed.

Lemma guar_attemptByEventProvider {P} {HA : Accepts P} e : guar P (attemptByEventProvider e).
Proof. unfold attemptByEventProvider. guar_all. Qed.
#[global] Hint Resolve guar_HandleWebhook guar_attemptByEventProvider : okdb.

Lemma guar_replayFromProvider {P} {HA : Accepts P} e : guar P (replayFromProvider e).
Proof. unfold replayFromProvider. guar_all. Qed.
#[global] Hint Resolve guar_replayFromProvider : okdb.

Lemma guar_RetryFailedWebhooks {P} {HA : Accepts P} : guar P RetryFailedWebhooks.
Proof. unfold RetryFailedWebhooks, retryOne. guar_all. Qed.
#[global] Hint Resolve guar_RetryFailedWebhooks : okdb.

(** * Properties *)

(** No provider the registry can build accepts the delivery. *)
Definition unverified (header : list (string * string)) (body : Res string) (w : World) : Prop :=
  ∀ name d new cfg p n secret raw,
    w_drivers w !! name = Some d → dr_New d = Some new → new cfg = Ok p → body = Ok raw →
    ∃ e, pv_VerifyWebhook p n header raw secret = Err e.

(** The provider is absent or switched off. *)
Definition switched_off (name : string) (s : Shared) : Prop :=
  ∀ rec, t_providers (sh_db s) !! name = Some rec → pr_Enabled rec = false.

Section rejected.
Context (header : list (string * string)) (body : Res string) (name : string).

(** Either reason for a rejection. *)
Context (off : bool).

Definition rejecting (w : World) : Prop := if off then True else unverified header body w.
Definition rejected (s : Shared) : Prop := if off then switched_off name s else True.

Notation P := (auditWJ rejecting rejected).

Lemma rejected_frame s s' : same_but_audit s s' → rejected s → rejected s'.
Proof. unfold rejected, switched_off. intros ->. by destruct off. Qed.

Lemma under {A} s (m : M A) : guar auditP m → ok P s m (λ _ _, True).
Proof. apply audit_under, rejected_frame. Qed.

Lemma ok_ProviderByName_off s :
  ok P s (ProviderByName name) (λ r _,
    match r with Ok rec => off = true → pr_Enabled rec = false | Err _ => True end).
Proof.
  unfold ProviderByName. apply (ok_mapErrQ _); [|done]. apply (ok_SELECT_ROW _); [|done].
  intros s1 v _ Hi Hv _ Hoff. simpl in Hi. unfold rejected in Hi. rewrite Hoff in Hi. by apply Hi.
Qed.

Lemma ok_instance_rejects s rec :
  ok P s (instance rec) (λ r _, match r with
    | Ok (p, _) => off = false → ∀ n secret raw, body = Ok raw →
        ∃ e, pv_VerifyWebhook p n header raw secret = Err e
    | Err _ => True end).
Proof.
  unfold instance.
  apply (ok_bind _ _ _ _ (λ d _, ∃ w, rejecting w ∧ d = Lookup (pr_Name rec) (w_drivers w))).
  { apply (ok_ask _). intros w n [_ HW]. by exists w. }
  intros d s1 _ (w & HW & ->). unfold Lookup.
  destruct (w_drivers w !! _) as [d|] eqn:Ed; [|by apply (ok_ret _)].
  apply (ok_bindR _ _ _ _ (λ _ _, True)); [by apply (ok_ask _)| |done]. intros creds s2 _ _.
  destruct (no_credentials creds); [by apply (ok_ret _)|].
  apply (ok_bind _ _ _ _ (λ _ _, True)); [apply under; unfold rawProviderTimeout; guar_all|].
  intros timeout s3 _ _. destruct (dr_New d) as [new|] eqn:En; [|by apply (ok_ret _)].
  destruct (new _) as [p|e] eqn:Ep; [|by apply (ok_ret _)].
  apply (ok_ret _). intros _ Hoff n secret raw Hb. unfold rejecting in HW. rewrite Hoff in HW.
  by eapply HW.
Qed.

Lemma audit_rejectWebhook e ip d : guar auditP (rejectWebhook name e ip d).
Proof. unfold rejectWebhook. guar_all. Qed.

Lemma audit_WebhookSecret : guar auditP (WebhookSecret name).
Proof. unfold WebhookSecret, ProviderByName. guar_all. Qed.

Lemma guar_rejected ip : guar P (HandleWebhook name header body ip).
Proof.
  intros s. unfold HandleWebhook. cbv zeta.
  eapply (ok_bind _); [apply ok_ProviderByName_off|]. intros [rec|e] s1 _ Hrec;
    [|by apply (ok_ret _)].
  destruct (pr_Enabled rec) eqn:Een; simpl.
  2: { apply (ok_bind _ _ _ _ (λ _ _, True)); [apply under; guar_all|].
       intros; by apply (ok_ret _). }
  assert (off = false) as Hoff by (destruct off; naive_solver).
  destruct body as [raw|e] eqn:Eb; [|by apply (ok_ret _)].
  destruct (maxWebhookBody <? slen raw).
  { apply (ok_bind _ _ _ _ (λ _ _, True)); [apply under, audit_rejectWebhook|].
    intros; by apply (ok_ret _). }
  apply (ok_bind _ _ _ _ (λ _ _, True)); [apply under, audit_WebhookSecret|].
  intros [secret|e] s2 _ _; [|by apply (ok_ret _)]. destruct (secret =s "").
  { apply (ok_bind _ _ _ _ (λ _ _, True)); [apply under, audit_rejectWebhook|].
    intros; by apply (ok_ret _). }
  eapply (ok_bind _); [apply ok_instance_rejects|].
  intros [[p creds]|e] s3 _ Hp; [|by apply (ok_ret _)].
  apply (ok_bind _ _ _ _ (λ r _, ∃ e, r = Err e)).
  { apply (ok_ask _). intros w n _. by apply Hp. }
  intros r s4 _ [e ->].
  apply (ok_bind _ _ _ _ (λ _ _, True)); [apply under, audit_rejectWebhook|].
  intros; by apply (ok_ret _).
Qed.

End rejected.

(** A delivery whose signature no configured provider accepts, and a
    delivery for a provider that is not enabled, reach no billing logic: run
    alone, whatever fails, nothing changes but the audit trail. *)
Theorem rejected_delivery_changes_nothing w st name header body ip :
  alone w → unverified header body w ∨ switched_off name (st_sh st) →
  same_but_audit (st_sh st) (st_sh (HandleWebhook name header body ip w st).2).
Proof.
  intros Hw [Hu|Ho].
  - by eapply (auditWJ_run _ _ _ _ _ (guar_rejected header body name false ip)).
  - by eapply (auditWJ_run _ _ _ _ _ (guar_rejected header body name true ip)).
Qed.

Lemma rejected_delivery_changes_nothing_witness :
  same_but_audit (mkShared sample_db [])
    (st_sh (HandleWebhook "card" [] (Ok "{}") "10.0.0.1" card_world (start sample_db)).2).
Proof.
  apply (rejected_delivery_changes_nothing card_world (start sample_db)); [by intros n s|].
  right. by intros rec.
Defined.
