(* ===== verification/Reconcile.v ===== *)
(** Reconciliation against the providers' own records:
    [src/src/billing/reconcile.go]. *)
From stdpp Require Import prelude strings list gmap relations.
From Stdlib Require Import ZArith Lia Ascii.
From S2P Require Import Prelude GoTime Money States Errors Models Store Logic Guarantee Samples.
From S2P Require Import Service Quiet.
From S2P Require Import Tax Accounts Invoices Providers Payments Dunning.

Definition ReconcileClean : string := "clean".
Definition ReconcileDiscrepancy : string := "discrepancies".
Definition ReconcileFailed : string := "failed".
Definition DefaultDiscrepancyThreshold : Z := 1.
Definition DiscrepancyAmount : string := "amount_mismatch".
Definition DiscrepancyState : string := "state_mismatch".
Definition DiscrepancyMissingHere : string := "missing_locally".
Definition DiscrepancyMissingAway : string := "missing_at_provider".

Record Discrepancy := mkDiscrepancy {
  d_Kind : string; d_Reference : string; d_LocalMinor : Z; d_RemoteMinor : Z;
  d_Currency : string; d_Detail : string }.

Record ReconciliationReport := mkReport {
  rp_Provider : string; rp_Day : string; rp_Since : Z; rp_Until : Z; rp_Checked : Z;
  rp_Matched : Z; rp_ReconciledMinor : Z; rp_DiscrepancyMinor : Z; rp_Currency : string;
  rp_Status : string; rp_Detail : string; rp_CompletedAt : Z;
  rp_Discrepancies : list Discrepancy }.

Definition absInt64 (n : Z) : Z := if n <? 0 then -! n else n.

Definition attemptsInWindow (providerName : string) (since until : Z)
  : M (Res (list PaymentAttempt)) :=
  mapErr (λ e, ErrInternal e "Could not read the payment attempts.")
    (SELECT billing_payment_attempts
       (λ a, (pa_Provider a =s providerName) && (since <=? pa_AttemptedAt a) &&
             (pa_AttemptedAt a <? until)) (asc pa_AttemptedAt)).

(** The local attempts by their provider reference, a later one winning. *)
Definition byReference (local : list PaymentAttempt) : gmap string PaymentAttempt :=
  fold_left (λ m a, if pa_ProviderRef a =s "" then m else <[pa_ProviderRef a := a]> m) local ∅.

Definition addDiscrepancy (report : ReconciliationReport) (d : Discrepancy) (amount : Z)
  : ReconciliationReport :=
  report {{ rp_Discrepancies := rp_Discrepancies report ++ [d];
            rp_DiscrepancyMinor := rp_DiscrepancyMinor report +! amount }}.

(** One charge of the provider's record. *)
Definition checkRemote (index : gmap string PaymentAttempt) (report : ReconciliationReport)
    (r : ChargeResult) : ReconciliationReport :=
  let report := report {{ rp_Checked := rp_Checked report +! 1;
    rp_Currency := (if rp_Currency report =s "" then cs_Currency r else rp_Currency report) }} in
  match index !! cs_Reference r with
  | None =>
      addDiscrepancy report (mkDiscrepancy DiscrepancyMissingHere (cs_Reference r) 0
        (cs_AmountMinor r) (cs_Currency r) "the provider has a charge cashp has no attempt for")
        (cs_AmountMinor r)
  | Some attempt =>
      let remoteState := mapChargeState (cs_State r) in
      if negb (pa_AmountMinor attempt =? cs_AmountMinor r) then
        addDiscrepancy report (mkDiscrepancy DiscrepancyAmount (cs_Reference r)
          (pa_AmountMinor attempt) (cs_AmountMinor r) (cs_Currency r) "the amounts disagree")
          (absInt64 (pa_AmountMinor attempt -! cs_AmountMinor r))
      else if negb (pa_State attempt =s remoteState) then
        addDiscrepancy report (mkDiscrepancy DiscrepancyState (cs_Reference r)
          (pa_AmountMinor attempt) (cs_AmountMinor r) (cs_Currency r)
          ("cashp says " +:+ pa_State attempt +:+ ", the provider says " +:+ remoteState)) 0
      else
        report {{ rp_Matched := rp_Matched report +! 1;
                  rp_ReconciledMinor := rp_ReconciledMinor report +! cs_AmountMinor r }}
  end.

(** The references of the remote record that a local attempt carries. *)
Definition seenReferences (index : gmap string PaymentAttempt) (remote : list ChargeResult)
  : list string :=
  List.filter (λ ref, bool_decide (is_Some (index !! ref))) (map cs_Reference remote).

(** One local attempt: a settled charge the provider does not list. *)
Definition checkLocal (seen : list string) (report : ReconciliationReport) (a : PaymentAttempt)
  : ReconciliationReport :=
  if negb (pa_State a =s PaymentSucceeded) || (pa_ProviderRef a =s "") || mem (pa_ProviderRef a) seen
  then report
  else
    addDiscrepancy (report {{ rp_Checked := rp_Checked report +! 1 }})
      (mkDiscrepancy DiscrepancyMissingAway (pa_ProviderRef a) (pa_AmountMinor a) 0
         (pa_Currency a) "cashp recorded a settled charge the provider does not list")
      (pa_AmountMinor a).

(** The comparison of the two records. *)
Definition compareRecords (report : ReconciliationReport) (remote : list ChargeResult)
    (local : list PaymentAttempt) : ReconciliationReport :=
  let index := byReference local in
  let report := fold_left (checkRemote index) remote report in
  let report := fold_left (checkLocal (seenReferences index remote)) local report in
  match rp_Discrepancies report with
  | [] => report
  | _ => report {{ rp_Status := ReconcileDiscrepancy }}
  end.

Definition reconcileProvider (rec : ProviderRecord) (since until : Z) : M ReconciliationReport :=
  let* now := unix in
  let report := mkReport (pr_Name rec) (timeText since) since until 0 0 0 0 "" ReconcileClean ""
                  now [] in
  let failed e := report {{ rp_Status := ReconcileFailed; rp_Detail := error_text e }} in
  let* r := instance rec in
  match r with
  | Err e => ret (failed e)
  | Ok (p, _) =>
      let* _ := providerTimeout in
      let* _ := emit (FListPayments (pr_Name rec) since until) in
      let* remote := ask (λ _ n, pv_ListPayments p n since until) in
      match remote with
      | Err e => ret (failed e)
      | Ok remote =>
          let* local := attemptsInWindow (pr_Name rec) since until in
          match local with
          | Err e => ret (failed e)
          | Ok local => ret (compareRecords report remote local)
          end
      end
  end.

Definition reconcileSummary (report : ReconciliationReport) : string :=
  "day=" +:+ rp_Day report +:+ " checked=" +:+ itoa (rp_Checked report) +:+ " matched=" +:+
  itoa (rp_Matched report) +:+ " reconciled_minor=" +:+ itoa (rp_ReconciledMinor report) +:+
  " discrepancy_minor=" +:+ itoa (rp_DiscrepancyMinor report) +:+ " status=" +:+
  rp_Status report +:+
  (if rp_Detail report =s "" then "" else " detail=" +:+ rp_Detail report).

Definition recordReconciliation (report : ReconciliationReport) : M unit :=
  let* _ := WriteAudit (zeroAudit {{ ar_Actor := ActorReconciliation;
    ar_Action := ActionReconciled; ar_Provider := rp_Provider report;
    ar_Target := "day:" +:+ rp_Day report;
    ar_Result := (if rp_Status report =s ReconcileClean then ResultSuccess else ResultFailure);
    ar_Code := rp_Status report; ar_Detail := reconcileSummary report }}) in
  let* _ := foldM (λ _ d, WriteAudit (zeroAudit {{ ar_Actor := ActorReconciliation;
      ar_Action := ActionReconcileMismatch; ar_Provider := rp_Provider report;
      ar_Target := "reference:" +:+ d_Reference d; ar_Result := ResultFailure;
      ar_Code := d_Kind d;
      ar_Detail := d_Detail d +:+ " local_minor=" +:+ itoa (d_LocalMinor d) +:+
                   " remote_minor=" +:+ itoa (d_RemoteMinor d) }})) tt
    (rp_Discrepancies report) in
  let* threshold := SettingInt SettingDiscrepancyThreshold DefaultDiscrepancyThreshold in
  if (0 <? threshold) && (threshold <=? Z.of_nat (length (rp_Discrepancies report))) then
    notify "" NotifyReconcileAlert
  else ret tt.

Definition RunReconciliation : M (Res unit) :=
  let* on := Enabled in
  if negb on then ok_ tt
  else
    let? providers := EnabledProviders in
    let* now := unix in
    let until := now -! (now %! secondsPerDay) in
    let since := until -! secondsPerDay in
    forM providers (λ rec,
      let* report := reconcileProvider rec since until in
      let* _ := recordReconciliation report in
      ok_ tt).

Definition ReconcileNow (providerName : string) (since until : Z) (actor ip : string)
  : M (Res ReconciliationReport) :=
  let? rec := ProviderByName providerName in
  if negb (pr_Enabled rec) then fail (ErrProviderDisabled providerName)
  else
    let* window := (if until <=? since then
                      let* now := unix in
                      let until := now -! (now %! secondsPerDay) in
                      ret (until -! secondsPerDay, until)
                    else ret (since, until)) in
    let '(since, until) := window in
    let* report := reconcileProvider rec since until in
    let* _ := recordReconciliation report in
    let* _ := WriteAudit (zeroAudit {{ ar_Actor := actor; ar_Action := ActionReconciled;
      ar_Provider := providerName; ar_Target := "day:" +:+ rp_Day report;
      ar_Result := ResultSuccess; ar_IP := ip;
      ar_Detail := "operator requested reconciliation" }}) in
    ok_ report.

Record ReconcileSummary := mkReconcileSummary {
  rc_Provider : string; rc_LastRun : Z; rc_LastRunText : string; rc_Status : string;
  rc_Detail : string; rc_Unresolved : Z; rc_NeverRun : bool; rc_AlertOperator : bool }.

Definition providerSummary (rec : ProviderRecord) : M (Res ReconcileSummary) :=
  let* last := query_row (λ db, head (sort_by (desc au_OccurredAt)
    (List.filter (λ e, (au_Action e =s ActionReconciled) && (au_Provider e =s pr_Name rec))
       (t_audit db)))) in
  let summary := mkReconcileSummary (pr_Name rec) 0 "" "never run" "" 0 true false in
  let summary := match last with
    | Ok e => summary {{ rc_NeverRun := false; rc_LastRun := au_OccurredAt e;
        rc_LastRunText := timeText (au_OccurredAt e); rc_Status := au_Code e;
        rc_Detail := au_Detail e }}
    | Err _ => summary
    end in
  let* now := unix in
  let* count := query (λ db, Z.of_nat (length (List.filter (λ e,
    (au_Action e =s ActionReconcileMismatch) && (au_Provider e =s pr_Name rec) &&
    (now -! 30 * secondsPerDay <=? au_OccurredAt e)) (t_audit db)))) in
  let summary := match count with
    | Ok n => summary {{ rc_Unresolved := n }} | Err _ => summary end in
  ok_ (summary {{ rc_AlertOperator := (0 <? rc_Unresolved summary) ||
                                      (rc_Status summary =s ReconcileFailed) }}).

Definition ReconciliationStatus : M (Res (list ReconcileSummary)) :=
  let? providers := EnabledProviders in
  let? out := mapMR providerSummary providers in
  ok_ (sort_by (asc_s rc_Provider) out).

(** * Guarantees *)

Lemma guar_attemptsInWindow {P} {HA : Accepts P} p s u : guar P (attemptsInWindow p s u).
Proof. unfold attemptsInWindow. guar_all. Qed.
#[global] Hint Resolve guar_attemptsInWindow : okdb.

Lemma guar_reconcileProvider {P} {HA : Accepts P} r s u : guar P (reconcileProvider r s u).
Proof. unfold reconcileProvider. guar_all. Qed.

Lemma guar_recordReconciliation {P} {HA : Accepts P} r : guar P (recordReconciliation r).
Proof. unfold recordReconciliation. guar_all. Qed.
#[global] Hint Resolve guar_reconcileProvider guar_recordReconciliation : okdb.

Lemma guar_RunReconciliation {P} {HA : Accepts P} : guar P RunReconciliation.
Proof. unfold RunReconciliation. guar_all. Qed.

Lemma guar_ReconcileNow {P} {HA : Accepts P} p s u a ip : guar P (ReconcileNow p s u a ip).
Proof. unfold ReconcileNow. guar_all. Qed.
#[global] Hint Resolve guar_RunReconciliation guar_ReconcileNow : okdb.

(** * Properties *)

Lemma audit_EnabledProviders : guar auditP EnabledProviders.
Proof. unfold EnabledProviders, ListProviderRecords. guar_all. Qed.

Lemma audit_ProviderByName n : guar auditP (ProviderByName n).
Proof. unfold ProviderByName. guar_all. Qed.

Lemma audit_instance rec : guar auditP (instance rec).
Proof. unfold instance, rawProviderTimeout. guar_all. Qed.

Lemma audit_providerTimeout : guar auditP providerTimeout.
Proof. unfold providerTimeout. guar_all. Qed.
#[global] Hint Resolve audit_EnabledProviders audit_ProviderByName audit_instance
  audit_providerTimeout : okdb.

Lemma audit_reconcileProvider r s u : guar auditP (reconcileProvider r s u).
Proof. unfold reconcileProvider, attemptsInWindow. guar_all. Qed.

Lemma audit_recordReconciliation r : guar auditP (recordReconciliation r).
Proof. unfold recordReconciliation. guar_all. Qed.
#[global] Hint Resolve audit_reconcileProvider audit_recordReconciliation : okdb.

(** Reconciliation never changes a financial record: run alone, whatever
    statements fail and whatever the providers answer, the scheduled pass and the
    on-demand one leave every table as it was but the audit trail. *)
Theorem reconciliation_changes_nothing w st providerName since until actor ip :
  alone w →
  same_but_audit (st_sh st) (st_sh (RunReconciliation w st).2) ∧
  same_but_audit (st_sh st) (st_sh (ReconcileNow providerName since until actor ip w st).2).
Proof.
  intros Hw. split; (apply audit_run; [|done]).
  - unfold RunReconciliation, Enabled. guar_all.
  - unfold ReconcileNow. guar_all.
Qed.

Lemma reconciliation_changes_nothing_witness :
  same_but_audit (mkShared card_db [])
    (st_sh (ReconcileNow "card" 0 0 "admin" "" card_world (start card_db)).2).
Proof.
  apply (reconciliation_changes_nothing card_world (start card_db) "card" 0 0 "admin" "").
  by intros n s.
Defined.

(** A charge of the provider's record that cashp's ledger agrees with. *)
Definition agrees (index : gmap string PaymentAttempt) (c : ChargeResult) : bool :=
  match index !! cs_Reference c with
  | Some a => (pa_AmountMinor a =? cs_AmountMinor c) && (pa_State a =s mapChargeState (cs_State c))
  | None => false
  end.

(** A settled charge of cashp's ledger, and that it is listed at the provider. *)
Definition settled_charge (a : PaymentAttempt) : bool :=
  (pa_State a =s PaymentSucceeded) && negb (pa_ProviderRef a =s "").

(** One step of either pass: a match or exactly one discrepancy. *)
Definition counted (good : bool) (r r' : ReconciliationReport) : Prop :=
  rp_Status r' = rp_Status r ∧ rp_Checked r' = rp_Checked r +! 1 ∧
  if good then rp_Discrepancies r' = rp_Discrepancies r ∧ rp_Matched r' = rp_Matched r +! 1
  else (∃ d, rp_Discrepancies r' = rp_Discrepancies r ++ [d]) ∧ rp_Matched r' = rp_Matched r.

Lemma checkRemote_counted index r c : counted (agrees index c) r (checkRemote index r c).
Proof.
  unfold counted, agrees, checkRemote. cbv zeta.
  destruct (index !! _) as [a|]; [|split_and!; simpl; eauto].
  destruct (pa_AmountMinor a =? cs_AmountMinor c); [|split_and!; simpl; eauto].
  destruct (pa_State a =s _); split_and!; simpl; eauto.
Qed.

Lemma checkLocal_counted seen r a :
  if settled_charge a && negb (mem (pa_ProviderRef a) seen)
  then counted false r (checkLocal seen r a) else checkLocal seen r a = r.
Proof.
  unfold counted, settled_charge, checkLocal.
  destruct (pa_State a =s PaymentSucceeded); [|done]. destruct (pa_ProviderRef a =s ""); [done|].
  destruct (mem _ _); simpl; [done|]. split_and!; eauto.
Qed.

(** The discrepancies so far are empty exactly when everything was good. *)
Lemma remote_clean index remote r :
  rp_Status (fold_left (checkRemote index) remote r) = rp_Status r ∧
  (rp_Discrepancies (fold_left (checkRemote index) remote r) = [] ↔
   rp_Discrepancies r = [] ∧ Forall (λ c, agrees index c = true) remote).
Proof.
  revert r. induction remote as [|c remote IH]; intros r; simpl; [by naive_solver|].
  destruct (checkRemote_counted index r c) as (Hst & _ & H).
  destruct (IH (checkRemote index r c)) as [IH1 IH2]. split; [congruence|].
  rewrite IH2, Forall_cons. destruct (agrees index c).
  - destruct H as [-> _]. naive_solver.
  - destruct H as [[d ->] _]. split; [by intros [[_ [=]]%app_nil _]|naive_solver].
Qed.

Lemma local_clean seen local r :
  rp_Status (fold_left (checkLocal seen) local r) = rp_Status r ∧
  (rp_Discrepancies (fold_left (checkLocal seen) local r) = [] ↔
   rp_Discrepancies r = [] ∧
   Forall (λ a, settled_charge a = true → mem (pa_ProviderRef a) seen = true) local).
Proof.
  revert r. induction local as [|a local IH]; intros r; simpl; [by naive_solver|].
  pose proof (checkLocal_counted seen r a) as H.
  destruct (IH (checkLocal seen r a)) as [IH1 IH2]. rewrite IH1, IH2, Forall_cons.
  destruct (settled_charge a), (mem _ seen); simpl in H; try (rewrite H; naive_solver).
  destruct H as (-> & _ & [d ->] & _). split; [done|].
  split; [by intros [[_ [=]]%app_nil _]|naive_solver].
Qed.

Lemma byReference_has local a :
  a ∈ local → pa_ProviderRef a ≠ "" → is_Some (byReference local !! pa_ProviderRef a).
Proof.
  intros Ha Hr. unfold byReference.
  assert (∀ l (m : gmap string PaymentAttempt),
    is_Some (m !! pa_ProviderRef a) ∨ a ∈ l →
    is_Some (fold_left (λ m a, if pa_ProviderRef a =s "" then m else <[pa_ProviderRef a := a]> m)
               l m !! pa_ProviderRef a)) as H; [|apply H; auto].
  induction l as [|b l IH]; intros m Hm; simpl; [set_solver|]. apply IH.
  destruct (pa_ProviderRef b =s "") eqn:Eb; [apply seqb_eq in Eb|].
  { destruct Hm as [?|[->|?]%elem_of_cons]; [by left|done|by right]. }
  destruct (decide (pa_ProviderRef b = pa_ProviderRef a)) as [E|E].
  { left. rewrite E, lookup_insert_eq. eauto. }
  rewrite lookup_insert_ne by done. destruct Hm as [?|[->|?]%elem_of_cons]; [by left|done|by right].
Qed.

(** The comparison is complete: a report comes out clean exactly when every
    charge the provider lists is an attempt of the ledger with the same amount
    and state, and every settled attempt of the ledger is listed by the provider. *)
Theorem compareRecords_clean report remote local
    (Hnew : rp_Discrepancies report = []) (Hclean : rp_Status report = ReconcileClean) :
  rp_Status (compareRecords report remote local) = ReconcileClean ↔
  (∀ c, c ∈ remote → agrees (byReference local) c = true) ∧
  (∀ a, a ∈ local → settled_charge a = true → pa_ProviderRef a ∈ map cs_Reference remote).
Proof.
  unfold compareRecords. cbv zeta. set (index := byReference local).
  destruct (remote_clean index remote report) as [Hs1 Hd1].
  set (r1 := fold_left (checkRemote index) remote report) in *.
  destruct (local_clean (seenReferences index remote) local r1) as [Hs2 Hd2].
  set (r2 := fold_left _ local r1) in *.
  assert (rp_Discrepancies r2 = [] ↔
    (∀ c, c ∈ remote → agrees index c = true) ∧
    (∀ a, a ∈ local → settled_charge a = true → pa_ProviderRef a ∈ map cs_Reference remote)) as Hd.
  { rewrite Hd2, Hd1, Hnew, !Forall_forall.
    assert (∀ a, a ∈ local → settled_charge a = true →
      mem (pa_ProviderRef a) (seenReferences index remote) = true ↔
      pa_ProviderRef a ∈ map cs_Reference remote) as Hm; [|naive_solver].
    intros a Ha Hsc. rewrite mem_spec. unfold seenReferences.
    rewrite list_elem_of_In, filter_In, <-list_elem_of_In, bool_decide_eq_true.
    unfold settled_charge in Hsc. apply andb_true_iff in Hsc as [_ Hr%negb_true_iff%seqb_neq].
    pose proof (byReference_has local a Ha Hr). naive_solver. }
  rewrite <-Hd. destruct (rp_Discrepancies r2) as [|d l]; simpl; [naive_solver congruence|].
  split; done.
Qed.

Lemma compareRecords_clean_witness :
  let a := zeroPaymentAttempt {{ pa_ID := "a-1"; pa_State := PaymentSucceeded;
             pa_ProviderRef := "ch-1"; pa_AmountMinor := 2000 }} in
  let c := mkChargeResult "ch-1" "succeeded" 2000 "USD" "" "" false "" in
  let report := mkReport "card" "" 0 86400 0 0 0 0 "" ReconcileClean "" 0 [] in
  rp_Status (compareRecords report [c] [a]) = ReconcileClean ∧
  ∀ x, x ∈ [a] → settled_charge x = true → pa_ProviderRef x ∈ map cs_Reference [c].
Proof.
  intros a c report. split; [reflexivity|].
  apply (compareRecords_clean report [c] [a] eq_refl eq_refl). reflexivity.
Defined.
