(* ===== verification/Sessions.v ===== *)
(** Whole sessions: every state-changing operation of the billing service as a
    request, sequences of requests, and what they preserve together. *)
From stdpp Require Import prelude strings list gmap relations.
From Stdlib Require Import ZArith Lia.
From S2P Require Import Prelude GoTime Money States Errors Models Store Logic Guarantee Samples.
From S2P Require Import Service Tax Accounts Plans SubQuery Quota Invoices Subscriptions Providers.
From S2P Require Import Payments Dunning Webhook Reconcile.

(** The operations a handler or a scheduled task calls. *)
Inductive Op :=
| OSetSetting (key value actor : string)
| OSaveTaxRate (rate : TaxRate) (actor ip : string)
| OUpdateAccount (tenant : string) (inp : AccountUpdate) (actor ip : string)
| OSetDefaultMethod (tenant method : string)
| OCreatePlan (p : Plan) (actor ip : string)
| OUpdatePlan (id : string) (p : Plan) (actor ip : string)
| OSetQuotaOverride (o : QuotaOverride) (actor ip : string)
| OEnsureQuota (tenant resource : string) (requested : Z)
| OSaveMeter (m : Meter)
| ORecordUsage (tenant meter : string) (value : Z) (dimensions : string)
| ORollUpUsage (tenant : string) (start stop : Z)
| OCreateDraft (tenant sub : string) (start stop : Z)
| OAddLine (tenant invoice : string) (line : InvoiceLine)
| ORecalculate (tenant invoice : string)
| OIssueInvoice (tenant invoice actor ip : string)
| ORecordPayment (tenant invoice : string) (amount : Z) (actor ip : string)
| OMarkInvoiceState (tenant invoice target actor ip : string)
| OIssueCreditNote (tenant invoice : string) (amount : Z) (reason note actor ip : string)
| OGenerateInvoice (sub : Subscription)
| OSubscribe (tenant plan actor ip : string)
| OChangePlan (tenant plan actor ip : string)
| OCancel (tenant sub : string) (immediate : bool) (reason actor ip : string)
| OResume (tenant sub actor ip : string)
| OSyncProviders
| OConfigureProvider (name : string) (creds : gmap string string) (test : bool) (actor ip : string)
| OSetProviderEnabled (name : string) (enabled : bool) (actor ip : string)
| OSetProviderTestMode (name : string) (test : bool) (actor ip : string)
| OSetProviderPriority (name : string) (priority : Z) (actor ip : string)
| OTestProvider (name actor ip : string)
| OAddPaymentMethod (tenant provider token holder actor ip : string)
| ORemovePaymentMethod (tenant method actor ip : string)
| OChargeInvoice (tenant invoice key actor ip : string)
| ORefundPayment (tenant invoice : string) (amount : Z) (reason actor ip : string)
| OHandleWebhook (provider : string) (header : list (string * string)) (body : Res string)
    (ip : string)
| ORunRenewals | ORunDunning | OSendReminders | OCheckHealth | ORunReconciliation
| OReconcileNow (provider : string) (since until : Z) (actor ip : string)
| ORetryWebhooks | OBootstrap.

(** The reply of an operation is not kept. *)
Definition discard {A} (m : M A) : M unit := let* _ := m in ret tt.

Definition run_op (o : Op) : M unit :=
  match o with
  | OSetSetting k v a => discard (SetSetting k v a)
  | OSaveTaxRate r a ip => discard (SaveTaxRate r a ip)
  | OUpdateAccount t i a ip => discard (UpdateAccount t i a ip)
  | OSetDefaultMethod t m => discard (SetDefaultMethod t m)
  | OCreatePlan p a ip => discard (CreatePlan p a ip)
  | OUpdatePlan i p a ip => discard (UpdatePlan i p a ip)
  | OSetQuotaOverride o a ip => discard (SetQuotaOverride o a ip)
  | OEnsureQuota t r n => discard (EnsureQuota t r n)
  | OSaveMeter m => discard (SaveMeter m)
  | ORecordUsage t m v d => discard (RecordUsage t m v d)
  | ORollUpUsage t a b => discard (RollUpUsage t a b)
  | OCreateDraft t s a b => discard (CreateDraft t s a b)
  | OAddLine t i l => discard (AddLine t i l)
  | ORecalculate t i => discard (RecalculateInvoice t i)
  | OIssueInvoice t i a ip => discard (IssueInvoice t i a ip)
  | ORecordPayment t i n a ip => discard (RecordPayment t i n a ip)
  | OMarkInvoiceState t i g a ip => discard (MarkInvoiceState t i g a ip)
  | OIssueCreditNote t i n r c a ip => discard (IssueCreditNote t i n r c a ip)
  | OGenerateInvoice s => discard (GenerateSubscriptionInvoice s)
  | OSubscribe t p a ip => discard (Subscribe t p a ip)
  | OChangePlan t p a ip => discard (ChangePlan t p a ip)
  | OCancel t s b r a ip => discard (Cancel t s b r a ip)
  | OResume t s a ip => discard (Resume t s a ip)
  | OSyncProviders => discard SyncProviders
  | OConfigureProvider n c t a ip => discard (ConfigureProvider n c t a ip)
  | OSetProviderEnabled n e a ip => discard (SetProviderEnabled n e a ip)
  | OSetProviderTestMode n t a ip => discard (SetProviderTestMode n t a ip)
  | OSetProviderPriority n p a ip => discard (SetProviderPriority n p a ip)
  | OTestProvider n a ip => discard (TestProvider n a ip)
  | OAddPaymentMethod t p k h a ip => discard (AddPaymentMethod t p k h a ip)
  | ORemovePaymentMethod t m a ip => discard (RemovePaymentMethod t m a ip)
  | OChargeInvoice t i k a ip => discard (ChargeInvoice t i k a ip)
  | ORefundPayment t i n r a ip => discard (RefundPayment t i n r a ip)
  | OHandleWebhook p h b ip => discard (HandleWebhook p h b ip)
  | ORunRenewals => discard RunRenewals
  | ORunDunning => discard RunDunning
  | OSendReminders => discard SendRenewalReminders
  | OCheckHealth => discard CheckProviderHealth
  | ORunReconciliation => discard RunReconciliation
  | OReconcileNow p s u a ip => discard (ReconcileNow p s u a ip)
  | ORetryWebhooks => discard RetryFailedWebhooks
  | OBootstrap => discard Bootstrap
  end.

Definition session (ops : list Op) : M unit := foldM (λ _ o, run_op o) tt ops.

Lemma guar_run_op {P} {HC : Charging P} o : guar P (run_op o).
Proof. destruct o; unfold run_op, discard; guar_all. Qed.

Lemma guar_session {P} {HC : Charging P} ops : guar P (session ops).
Proof. apply (guar_foldM P). intros _ o. apply guar_run_op. Qed.

(** The state a session leaves, and what relates it to the one it found. *)
Definition after (ops : list Op) (w : World) (st : St) : Shared := st_sh (session ops w st).2.

Lemma session_step ops w st :
  rely billing w → wf (st_sh st) →
  G (st_sh st) (after ops w st) ∧ wf (after ops w st) ∧
  own_between billing st (session ops w st).2.
Proof.
  intros Hw Hi.
  destruct (guar_session ops (st_sh st) w st Hw eq_refl Hi) as (Hs & Hi' & Ho' & _). auto.
Qed.

(** C5: every single statement of every operation is a step of the guarantee
    [G] that the session relies on from the others, in whatever order requests
    are served, whichever statements fail and whatever the others write. *)
Theorem every_write_guaranteed ops w db :
  rely billing w → wf (mkShared db []) →
  Forall (λ p, G p.1 p.2) (st_own (session ops w (start db)).2).
Proof.
  intros Hw Hi. destruct (session_step ops w (start db) Hw Hi) as (_ & _ & new & -> & Hnew).
  by rewrite app_nil_r.
Qed.

Lemma every_write_guaranteed_witness :
  Forall (λ p, G p.1 p.2)
    (st_own (session [ORecordPayment "acme" "inv-1" 500 "admin" ""] sample_world
               (start sample_db)).2).
Proof. apply every_write_guaranteed; [apply sample_rely|apply sample_wf]. Defined.

(** C2: an invoice past draft is immutable: through any sequence of operations,
    with any interleaving and any failures, its number, subtotal, tax, total,
    dates and buyer snapshot never change, it never returns to draft, and its
    paid and credited amounts never fall. *)
Theorem issued_invoice_immutable ops w st k v :
  rely billing w → wf (st_sh st) →
  t_invoices (sh_db (st_sh st)) !! k = Some v → InvoiceFrozen (i_State v) = true →
  ∃ v', t_invoices (sh_db (after ops w st)) !! k = Some v' ∧
    inv_figures v' = inv_figures v ∧ inv_ident v' = inv_ident v ∧
    InvoiceFrozen (i_State v') = true ∧
    i_PaidMinor v ≤ i_PaidMinor v' ∧ i_CreditedMinor v ≤ i_CreditedMinor v'.
Proof.
  intros Hw Hi Hk Hf. destruct (session_step ops w st Hw Hi) as (HG & _ & _).
  destruct (g_invoices _ _ HG k v Hk) as (v' & Hk' & Hl). exists v'. split; [done|].
  destruct Hl as [H|(_ & Hid & Hr & Hp & Hc & Hfig)].
  - apply inv_row_eq in H as (_ & E2 & E3 & E4 & E5 & E6).
    rewrite E2, E3, E4, E5, E6. by split_and!.
  - split_and!; auto. by eapply frozen_rtc.
Qed.

Lemma issued_invoice_immutable_witness :
  ∃ v', t_invoices (sh_db (after [ORecordPayment "acme" "inv-1" 500 "admin" ""; ORunDunning]
                             sample_world (start sample_db))) !! "inv-1" = Some v' ∧
    inv_figures v' = inv_figures sample_invoice ∧ i_PaidMinor sample_invoice ≤ i_PaidMinor v'.
Proof.
  destruct (issued_invoice_immutable
    [ORecordPayment "acme" "inv-1" 500 "admin" ""; ORunDunning] sample_world (start sample_db)
    "inv-1" sample_invoice sample_rely sample_wf eq_refl eq_refl)
    as (v' & H & Hf & _ & _ & Hp & _).
  exists v'. auto.
Defined.

(** The audit trail and the lifecycle log are append-only, and so is the
    stream of effects: what was there is still there, first and unchanged. *)
Theorem logs_append_only ops w st :
  rely billing w → wf (st_sh st) →
  t_audit (sh_db (st_sh st)) `prefix_of` t_audit (sh_db (after ops w st)) ∧
  t_events (sh_db (st_sh st)) `prefix_of` t_events (sh_db (after ops w st)) ∧
  sh_out (st_sh st) `prefix_of` sh_out (after ops w st).
Proof.
  intros Hw Hi. destruct (session_step ops w st Hw Hi) as ([] & _ & _). auto.
Qed.

Lemma logs_append_only_witness :
  t_audit sample_db `prefix_of`
  t_audit (sh_db (after [OCancel "acme" "sub-1" true "x" "admin" ""] sample_world
                    (start sample_db))).
Proof.
  apply (logs_append_only [OCancel "acme" "sub-1" true "x" "admin" ""] sample_world
           (start sample_db) sample_rely sample_wf).
Defined.

(** C28: a stored subscription keeps its owner, currency and quantity, moves only
    along lifecycle edges and the withdrawal of a cancellation, and once it is
    cancelled or expired with an end date it stays over. *)
Theorem subscription_moves ops w st k v :
  rely billing w → wf (st_sh st) →
  t_subs (sh_db (st_sh st)) !! k = Some v →
  ∃ v', t_subs (sh_db (after ops w st)) !! k = Some v' ∧
    sub_ident v' = sub_ident v ∧ s_Version v ≤ s_Version v' ∧
    rtc svc_move (s_State v) (s_State v') ∧ (ended v → ended v').
Proof.
  intros Hw Hi Hk. destruct (session_step ops w st Hw Hi) as (HG & _ & _).
  destruct (g_subs _ _ HG k v Hk) as (v' & Hk' & Hid & Hv & _ & Hm & He). eauto 10.
Qed.

Lemma subscription_moves_witness :
  ∃ v', t_subs (sh_db (after [OCancel "acme" "sub-1" true "x" "admin" ""; ORunRenewals]
                         sample_world (start sample_db))) !! "sub-1" = Some v' ∧
    rtc svc_move StateActive (s_State v').
Proof.
  destruct (subscription_moves
    [OCancel "acme" "sub-1" true "x" "admin" ""; ORunRenewals] sample_world (start sample_db)
    "sub-1" sample_sub sample_rely sample_wf eq_refl)
    as (v' & H & _ & _ & Hm & _).
  exists v'. auto.
Defined.

(** C29: money records are never rewritten: credit notes and refunds stay as
    they were written, and a payment attempt keeps its invoice, provider, key,
    amount and currency. *)
Theorem money_records_kept ops w st :
  rely billing w → wf (st_sh st) →
  let db := sh_db (st_sh st) in let db' := sh_db (after ops w st) in
  (∀ k c, t_credits db !! k = Some c → t_credits db' !! k = Some c) ∧
  (∀ k r, t_refunds db !! k = Some r → t_refunds db' !! k = Some r) ∧
  (∀ k a, t_attempts db !! k = Some a →
     ∃ a', t_attempts db' !! k = Some a' ∧ attempt_ident a' = attempt_ident a).
Proof.
  intros Hw Hi db db'. destruct (session_step ops w st Hw Hi) as ([] & _ & _).
  split_and!.
  - intros k c Hc. destruct (g_credits k c Hc) as (c' & ? & <-). done.
  - intros k r Hr. destruct (g_refunds k r Hr) as (r' & ? & <-). done.
  - exact g_attempts.
Qed.

Definition sample_credit : CreditNote :=
  zeroCreditNote {{ cn_ID := "cn-1"; cn_TenantID := "acme"; cn_InvoiceID := "inv-1";
    cn_AmountMinor := 100 }}.

Definition credited_db : DB := sample_db {{ t_credits := {[ "cn-1" := sample_credit ]} }}.

Lemma money_records_kept_witness :
  t_credits (sh_db (after [OIssueCreditNote "acme" "inv-1" 200 "refund" "" "admin" ""]
                      sample_world (start credited_db))) !! "cn-1" = Some sample_credit.
Proof.
  assert (wf (mkShared credited_db [])) as Hwf.
  { constructor; simpl; first [apply keyed_empty|by apply keyed_singleton]. }
  destruct (money_records_kept [OIssueCreditNote "acme" "inv-1" 200 "refund" "" "admin" ""]
    sample_world (start credited_db) sample_rely Hwf) as [H _].
  apply H. reflexivity.
Defined.
