(* ===== verification/ChargeOnce.v ===== *)
(** At most one charge request per idempotency key.

    A second protocol, under which every operation is run again: the rows of
    [billing_payment_attempts] have unique idempotency keys, every charge that
    has left the process has its row, and no key was charged twice.  Another
    session may charge a key only through a row of its own, so the row a session
    inserts before it calls the provider protects that key from then on. *)
From stdpp Require Import prelude strings list gmap relations.
From Stdlib Require Import ZArith Lia.
From S2P Require Import Prelude Money States Errors Models Store Logic Guarantee Samples.
From S2P Require Import Service Accounts Invoices Providers Payments Sessions.

(** The keys of the charge requests sent so far, in order. *)
Fixpoint charged_keys (out : list Effect) : list string :=
  match out with
  | [] => []
  | FCharge _ req :: out' => cr_IdempotencyKey req :: charged_keys out'
  | _ :: out' => charged_keys out'
  end.

Definition charged (key : string) (s : Shared) : Prop := key ∈ charged_keys (sh_out s).

(** The row that claims a key. *)
Definition claims (s : Shared) (id key : string) : Prop :=
  ∃ a, t_attempts (sh_db s) !! id = Some a ∧ pa_IdempotencyKey a = key.

Record charge_inv (s : Shared) : Prop := mkChargeInv {
  ci_wf : wf s;
  ci_unique : ∀ i j key, claims s i key → claims s j key → i = j;
  ci_claimed : ∀ key, charged key s → ∃ id, claims s id key;
  ci_once : NoDup (charged_keys (sh_out s)) }.

Section protocol.
(** The identifiers this session mints. *)
Context (mine : string → Prop).

(** Steps that charge no key claimed by this session. *)
Definition calm (s s' : Shared) : Prop :=
  G s s' ∧ ∀ id key, mine id → claims s id key → charged key s' → charged key s.

Definition mints (w : World) : Prop := ∀ n, mine (w_newid w n).

Definition onceP : Protocol := mkProtocol mints charge_inv calm G.
Definition calmP : Protocol := mkProtocol mints charge_inv calm calm.

Lemma claims_later s s' id key : G s s' → claims s id key → claims s' id key.
Proof.
  intros HG (a & Ha & Hk). destruct (g_attempts _ _ HG id a Ha) as (a' & Ha' & Hi).
  exists a'. split; [done|]. unfold attempt_later, attempt_ident in Hi. congruence.
Qed.

#[local] Instance calm_preorder : PreOrder calm.
Proof.
  split.
  - intros s. split; [reflexivity|auto].
  - intros a b c [H1 C1] [H2 C2]. split; [by etrans|]. intros id key Hm Hc Hch.
    apply (C1 id key Hm Hc). apply (C2 id key Hm); [by eapply claims_later|done].
Qed.

#[local] Instance onceP_sound : Sound onceP.
Proof. split; [typeclasses eauto|]. by intros s s' []. Qed.
#[local] Instance calmP_sound : Sound calmP.
Proof. split; [typeclasses eauto|done]. Qed.

(** A write that leaves the attempts and the effects alone. *)
Lemma calm_put s db' :
  charge_inv s → G s (set_db s db') → wf (set_db s db') →
  t_attempts db' = t_attempts (sh_db s) →
  calm s (set_db s db') ∧ charge_inv (set_db s db').
Proof.
  intros [] HG Hw Ha. split; [by split|].
  split; [done| | |done]; unfold claims; simpl; by rewrite Ha.
Qed.

Lemma tracks_calm {V} (t : Table V) rel :
  Tracks billing t rel → (∀ m db, t_attempts (tb_put t m db) = t_attempts db) →
  Tracks calmP t rel ∧ Tracks onceP t rel.
Proof.
  intros [Hrel Hkey Hput Hget Hkd Hgp] Ha. split; (split; [done..| | | |done]).
  - intros s m' Hi Hle Hk. destruct (Hput s m' (ci_wf _ Hi) Hle Hk).
    apply calm_put; auto.
  - intros s s' []. by apply Hget.
  - intros s []. by apply Hkd.
  - intros s m' Hi Hle Hk. destruct (Hput s m' (ci_wf _ Hi) Hle Hk) as [HG Hw].
    split; [done|]. apply calm_put; auto.
  - intros s s' HG. by apply Hget.
  - intros s []. by apply Hkd.
Qed.

(** An update of an attempt that keeps its identity moves no key. *)
Lemma calm_attempt k p g s n db' :
  (∀ v, p v = true → attempt_later v (g v)) → charge_inv s →
  update_stmt billing_payment_attempts k p g (sh_db s) = Some (n, db') →
  calm s (set_db s db') ∧ charge_inv (set_db s db').
Proof.
  intros Hg Hi E.
  destruct (update_stmt_step (P := billing) billing_payment_attempts attempt_later k p g s n db')
    as [HG Hw]; [apply Hi|auto|done|].
  assert (∀ id key, claims (set_db s db') id key → claims s id key) as Hc.
  { intros id key (a & Ha & Hk). unfold update_stmt, update_row in E.
    destruct (tb_get _ _ !! k) as [v|] eqn:Ek; [|injection E as <- <-; by exists a].
    destruct (p v) eqn:Ep; injection E as <- <-; [|by exists a].
    simpl in Ha, Ek. destruct (decide (id = k)) as [->|].
    - rewrite lookup_insert_eq in Ha. injection Ha as <-. exists v. split; [done|].
      pose proof (Hg v Ep) as Hl. unfold attempt_later, attempt_ident in Hl. congruence.
    - rewrite lookup_insert_ne in Ha by done. by exists a. }
  split; [by split|]. destruct Hi as [Hwf Hu Hcl Ho]. split; [done| | |done].
  - intros i j key H1 H2. by eapply Hu; apply Hc.
  - intros key Hch. destruct (Hcl key Hch) as [id Hid]. exists id. by eapply claims_later.
Qed.

Lemma charged_keys_app a b : charged_keys (a ++ b) = charged_keys a ++ charged_keys b.
Proof. induction a as [|[]]; simpl; congruence. Qed.

Lemma calm_emit s e :
  is_charge e = false → charge_inv s →
  let s2 := mkShared (sh_db s) (sh_out s ++ [e]) in calm s s2 ∧ charge_inv s2.
Proof.
  intros He [Hwf Hu Hc Ho] s2.
  assert (charged_keys (sh_out s2) = charged_keys (sh_out s)) as E.
  { simpl. rewrite charged_keys_app. destruct e; try done; apply app_nil_r. }
  assert (G s s2 ∧ wf s2) as [HG Hw].
  { destruct Hwf. split; constructor; simpl; try done. by apply prefix_app_r. }
  split; [split; [done|]|split; [done|done| |]]; unfold charged; rewrite E; auto.
Qed.

Lemma calm_log s db' :
  charge_inv s → G s (set_db s db') → wf (set_db s db') →
  t_attempts db' = t_attempts (sh_db s) →
  (calm s (set_db s db') ∧ charge_inv (set_db s db')) ∧
  (G s (set_db s db') ∧ charge_inv (set_db s db')).
Proof. intros Hi HG Hw Ha. destruct (calm_put s db') as [H1 H2]; auto. Qed.

#[local] Instance accepts_calmP : Accepts calmP.
Proof.
  split; try (apply tracks_calm; [typeclasses eauto|done]); try typeclasses eauto.
  - intros k p g Hg. apply (guar_exec _). intros s n db' Hi E. by eapply calm_attempt.
  - intros s e Hi s'. destruct (acc_audit (P := billing) s e (ci_wf _ Hi)).
    by apply calm_log.
  - intros s e Hi s'. destruct (acc_events (P := billing) s e (ci_wf _ Hi)).
    by apply calm_log.
  - intros e He. apply (guar_emit _). intros s Hi. by apply calm_emit.
Qed.

#[local] Instance accepts_onceP : Accepts onceP.
Proof.
  split; try (apply tracks_calm; [typeclasses eauto|done]); try typeclasses eauto.
  - intros k p g Hg. apply (guar_exec _). intros s n db' Hi E.
    destruct (calm_attempt k p g s n db') as [[] ?]; auto.
  - intros s e Hi s'. destruct (acc_audit (P := billing) s e (ci_wf _ Hi)).
    by apply calm_log.
  - intros s e Hi s'. destruct (acc_events (P := billing) s e (ci_wf _ Hi)).
    by apply calm_log.
  - intros e He. apply (guar_emit _). intros s Hi s2.
    destruct (calm_emit s e He Hi) as [[] ?]. auto.
Qed.

(** An operation that charges nothing, run between the claim and the charge. *)
Lemma ok_calm {A} s (m : M A) : guar calmP m → ok onceP s m (λ _ s', calm s s').
Proof.
  intros Hm w st Hw Hs Hi. destruct (Hm s w st Hw Hs Hi) as (Hc & Hi' & (new & E & Hn) & _).
  split; [by destruct Hc|]. split; [done|]. split; [|done]. exists new. split; [done|].
  eapply Forall_impl; [exact Hn|]. by intros p [].
Qed.

(** A key this session has claimed and nobody has charged. *)
Definition fresh_key (key : string) (s : Shared) : Prop :=
  (∃ id, mine id ∧ claims s id key) ∧ ¬ charged key s.

Lemma fresh_calm key s s' : calm s s' → fresh_key key s → fresh_key key s'.
Proof.
  intros [HG Hc] [(id & Hm & Hcl) Hn]. split.
  - exists id. split; [done|]. by eapply claims_later.
  - intros Hch. apply Hn. by eapply Hc.
Qed.

Lemma insert_claims s a :
  charge_inv s → t_attempts (sh_db s) !! pa_ID a = None →
  (∀ id, ¬ claims s id (pa_IdempotencyKey a)) →
  let s' := set_db s (tb_put billing_payment_attempts
                        (<[pa_ID a := a]> (t_attempts (sh_db s))) (sh_db s)) in
  G s s' ∧ charge_inv s' ∧ claims s' (pa_ID a) (pa_IdempotencyKey a).
Proof.
  intros [Hwf Hu Hc Ho] Hnone Hfree s'.
  assert (G s s' ∧ wf s') as [HG Hw].
  { apply (tracks_put (P := billing) (t := billing_payment_attempts) (rel := attempt_later));
      [done| |].
    - apply table_le_insert; [typeclasses eauto|]. simpl. congruence.
    - apply keyed_insert; [|done]. by destruct Hwf. }
  assert (∀ id key, claims s' id key →
    (id = pa_ID a ∧ key = pa_IdempotencyKey a) ∨ claims s id key) as Hcl.
  { intros id key (b & Hb & Hk). simpl in Hb. destruct (decide (id = pa_ID a)) as [->|].
    - rewrite lookup_insert_eq in Hb. injection Hb as <-. by left.
    - rewrite lookup_insert_ne in Hb by done. right. by exists b. }
  split; [done|]. split; [split; [done| | |done]|].
  - intros i j key [[-> ->]|H1]%Hcl [[-> E]|H2]%Hcl; [done| | |by eapply Hu].
    + by destruct (Hfree j).
    + subst key. by destruct (Hfree i).
  - intros key Hch. destruct (Hc key Hch) as [id Hid]. exists id. by eapply claims_later.
  - exists a. simpl. by rewrite lookup_insert_eq.
Qed.

(** A successful [insertAttempt] is the claim. *)
Lemma ok_insertAttempt s a :
  mine (pa_ID a) →
  ok onceP s (insertAttempt a) (λ r s',
    match r with Ok _ => fresh_key (pa_IdempotencyKey a) s' | Err _ => True end).
Proof.
  intros Hm. unfold insertAttempt.
  eapply (ok_bindR _ _ _ _ (λ r s',
    match r with Ok _ => fresh_key (pa_IdempotencyKey a) s' | Err _ => True end));
    [|by intros; apply (ok_ret _)|done].
  apply (ok_mapErrQ _); [|done]. apply (ok_exec _); [|done].
  intros s1 n db' _ Hi. destruct (tb_get _ _ !! _) eqn:Hk; [done|].
  destruct (existsb _ _) eqn:He; [done|]. intros [= <- <-].
  assert (∀ id, ¬ claims s1 id (pa_IdempotencyKey a)) as Hfree.
  { intros id (b & Hb & Hkey). apply not_true_iff_false in He. apply He, existsb_exists.
    exists b. split; [|by apply seqb_eq].
    apply in_map_iff. exists (id, b). split; [done|].
    by apply list_elem_of_In, elem_of_map_to_list. }
  destruct (insert_claims s1 a Hi Hk Hfree) as (HG & Hi' & Hc). split_and!; [done..| |done].
  split; [by exists (pa_ID a)|]. intros Hch.
  destruct (ci_claimed _ Hi _ Hch) as [id Hid]. by apply (Hfree id).
Qed.

Lemma ok_callCharge s name p req :
  fresh_key (cr_IdempotencyKey req) s → ok onceP s (callCharge name p req) (λ _ _, True).
Proof.
  intros Hf. unfold callCharge. eapply (ok_bind _ _ _ _ (λ _ _, True)); [|by intros; ok_rest].
  intros w st [Hw He] <- Hi. unfold emit.
  destruct (He (st_tick st) (st_sh st) Hi) as [Hcalm Hi1].
  pose proof (fresh_calm _ _ _ Hcalm Hf) as [(id & Hm & Hcl) Hn].
  set (s1 := w_env w (st_tick st) (st_sh st)) in *. destruct Hi1 as [Hwf Hu Hc Ho].
  assert (G s1 (mkShared (sh_db s1) (sh_out s1 ++ [FCharge name req])) ∧
          wf (mkShared (sh_db s1) (sh_out s1 ++ [FCharge name req]))) as [HG Hw'].
  { destruct Hwf. split; constructor; simpl; try done. by apply prefix_app_r. }
  cbn [fst snd st_sh]. split_and!; [|split; [done|done| |]|by eapply own_one|done].
  - destruct Hcalm as [HG1 _]. by apply (transitivity HG1).
  - intros key. unfold charged. simpl. rewrite charged_keys_app, elem_of_app.
    intros [H|H%list_elem_of_singleton]; [by apply Hc|]. subst key. by exists id.
  - simpl. rewrite charged_keys_app. apply NoDup_app. split; [done|]. split.
    + intros key Hk H%list_elem_of_singleton. subst key. by apply Hn.
    + apply NoDup_singleton.
Qed.

(** Steps between the claim and the charge that keep the key fresh. *)
Ltac ok_calm_step :=
  lazymatch goal with
  | |- ok ?P ?s (bind ?m ?k) _ =>
      apply (ok_bind P s m k (λ _ s', calm s s'));
      [apply ok_calm; solve [guar_all]|intros ? ? _ ?];
      lazymatch goal with
      | Hc : calm _ _, Hf : fresh_key _ _ |- _ => apply (fresh_calm _ _ _ Hc) in Hf; clear Hc
      end
  end.

Lemma onceP_charges r i m k x n a ip : guar onceP (chargeThrough r i m k x n a ip).
Proof.
  intros s. unfold chargeThrough.
  eapply (ok_bind _ _ _ _ (λ id _, mine id)); [by apply (ok_ask _)|]. intros id s1 _ Hm.
  eapply (ok_bind _ _ _ _ (λ _ _, True)); [ok_rest|]. intros now s2 _ _. cbv zeta.
  eapply (ok_bind _); [by apply ok_insertAttempt|]. intros [u|e] s3 _ Hf; [|by apply (ok_ret _)].
  simpl in Hf. ok_calm_step. ok_calm_step. destruct a1 as [[p creds]|e]; [|ok_rest].
  destruct (negb _); [ok_rest|]. ok_calm_step.
  eapply (ok_bind _); [by apply ok_callCharge|]. intros res s7 _ _. ok_rest.
Qed.

#[local] Instance charging_onceP : Charging onceP.
Proof. split; [typeclasses eauto|]. apply onceP_charges. Qed.

Lemma once_session ops w st :
  rely onceP w → charge_inv (st_sh st) → charge_inv (after ops w st).
Proof.
  intros Hw Hi. by destruct (guar_session ops (st_sh st) w st Hw eq_refl Hi) as (_ & ? & _).
Qed.

End protocol.

(** C3: an idempotency key is charged at most once: whatever requests a session
    serves, whatever fails, and however other sessions interleave (each charging
    only keys claimed by rows of its own), no key is ever sent to a provider
    twice, and every charge that was sent has its attempt row. *)
Theorem charged_at_most_once mine ops w st :
  rely (onceP mine) w → charge_inv (st_sh st) →
  NoDup (charged_keys (sh_out (after ops w st))) ∧
  ∀ key, charged key (after ops w st) → ∃ id, claims (after ops w st) id key.
Proof. intros Hw Hi. by destruct (once_session mine ops w st Hw Hi). Qed.

Lemma card_rely : rely (onceP (λ _, True)) card_world.
Proof. split; [by intros n|]. intros n s Hi. split; [|done]. split; [reflexivity|auto]. Qed.

Lemma card_charge_inv : charge_inv (mkShared card_db []).
Proof.
  split; [apply card_wf| | |constructor]; [by intros i j key (a & Ha & _)|].
  intros key H. by apply not_elem_of_nil in H.
Qed.

(** The same key twice: one charge. *)
Lemma charged_at_most_once_witness :
  let ops := [OChargeInvoice "acme" "inv-1" "key-1" "admin" "";
              OChargeInvoice "acme" "inv-1" "key-1" "admin" ""] in
  charged_keys (sh_out (after ops card_world (start card_db))) = ["key-1"] ∧
  NoDup (charged_keys (sh_out (after ops card_world (start card_db)))).
Proof.
  intros ops. split; [vm_compute; reflexivity|].
  apply (charged_at_most_once (λ _, True) ops card_world (start card_db)).
  - apply card_rely.
  - apply card_charge_inv.
Defined.
