(* ===== verification/Threads.v ===== *)
(** Goroutines over shared state.

    A Go function that takes a mutex several times is a sequence of atomic
    sections with thread-local data in between.  [prog] is that sequence: each
    [Atom] reads and writes the shared state [S] under the lock, together with
    what the world answers at that moment (the clock, a peer, a user function)
    as an [E]; [Fork] is a [go] statement.  A handler is written once, as a
    [prog]; [run] executes it alone, [step] interleaves any number of started
    handlers.

    [good] is the proof rule for interleavings: an invariant of histories that
    every section keeps, whatever the other goroutines did since the previous
    one.  A goroutine may own tokens (names of what it alone may do); the
    invariant sees the tokens of all goroutines together, and a section may
    change its own and no others. *)
From stdpp Require Import prelude list gmultiset.
From S2P Require Import Prelude.

Section prog.
Context {S E : Type}.

Inductive prog (R : Type) : Type :=
| Ret (r : R)
| Atom (A : Type) (f : E → S → A * S) (k : A → prog R)
| Fork (q : prog unit) (k : prog R).
Arguments Ret {R} r.
Arguments Atom {R A} f k.
Arguments Fork {R} q k.

Fixpoint pbind {A B : Type} (m : prog A) (k : A → prog B) : prog B :=
  match m with
  | Ret a => k a
  | Atom f k' => Atom f (λ a, pbind (k' a) k)
  | Fork q m' => Fork q (pbind m' k)
  end.

(** One section and nothing else. *)
Definition atomic {A} (f : E → S → A * S) : prog A := Atom f Ret.

(** A section that only reads. *)
Definition peek {A} (f : E → S → A) : prog A := atomic (λ e s, (f e s, s)).

(** The handler alone: the [n]-th section meets the answer [env n]; a forked
    goroutine runs at once. *)
Fixpoint run {R : Type} (env : nat → E) (p : prog R) (n : nat) (s : S) : R * S * nat :=
  match p with
  | Ret r => (r, s, n)
  | Atom f k => let '(a, s') := f (env n) s in run env (k a) (Datatypes.S n) s'
  | Fork q k => let '(_, s', n') := run env q n s in run env k n' s'
  end.

Lemma run_bind {A B} env (m : prog A) (k : A → prog B) n s :
  run env (pbind m k) n s =
  let '(a, s', n') := run env m n s in run env (k a) n' s'.
Proof.
  revert n s. induction m as [R a | R X f k' IH | R q _ m' IH]; intros n s; cbn; [done | |].
  - destruct (f (env n) s) as [x s']. apply IH.
  - destruct (run env q n s) as [[u s'] n']. apply IH.
Qed.

(** * Interleavings *)

(** Newest state first; the last element is the initial one. *)
Definition history : Type := list S.

Record sys := Sys { now_at : S; past : history; threads : list (prog unit) }.

Definition seen (c : sys) : history := now_at c :: past c.

(** A handler of [handlers] starts, or a started goroutine runs its next
    section or starts another. *)
Inductive step (handlers : prog unit → Prop) : sys → sys → Prop :=
| step_start s h ts p :
    handlers p →
    step handlers (Sys s h ts) (Sys s h (p :: ts))
| step_section s h ts1 ts2 A (f : E → S → A * S) k e a s' :
    f e s = (a, s') →
    step handlers (Sys s h (ts1 ++ Atom f k :: ts2))
                  (Sys s' (s :: h) (ts1 ++ k a :: ts2))
| step_fork s h ts1 ts2 q k :
    step handlers (Sys s h (ts1 ++ Fork q k :: ts2))
                  (Sys s h (ts1 ++ q :: k :: ts2)).

Definition reachable (handlers : prog unit → Prop) (s0 : S) : sys → Prop :=
  rtc (step handlers) (Sys s0 [] []).

(** ** Chosen interleavings *)

Inductive Move := Begin (p : prog unit) | Go (i : nat) (e : E).

Definition play (c : sys) (m : Move) : sys :=
  match m with
  | Begin p => Sys (now_at c) (past c) (p :: threads c)
  | Go i e =>
      match threads c !! i with
      | Some (Atom f k) =>
          let '(a, s') := f e (now_at c) in
          Sys s' (now_at c :: past c) (take i (threads c) ++ k a :: list.drop (Datatypes.S i) (threads c))
      | Some (Fork q k) =>
          Sys (now_at c) (past c) (take i (threads c) ++ q :: k :: list.drop (Datatypes.S i) (threads c))
      | _ => c
      end
  end.

Lemma play_reachable (handlers : prog unit → Prop) s0 moves c :
  (∀ p, Begin p ∈ moves → handlers p) →
  reachable handlers s0 c → reachable handlers s0 (foldl play c moves).
Proof.
  revert c. induction moves as [| m moves IH]; intros c Hm Hr; cbn; [done |].
  apply IH; [set_solver |]. unfold reachable in *. destruct c as [s h ts], m as [p | i e]; cbn.
  - eapply rtc_r; [exact Hr |]. apply step_start, Hm. left.
  - destruct (ts !! i) as [[r | A f k | q k] |] eqn:Hi; [done | | | done].
    all: rewrite <-(take_drop_middle ts i _ Hi) in Hr.
    + destruct (f e s) as [a s'] eqn:Hf. eapply rtc_r; [exact Hr |]. by eapply step_section.
    + eapply rtc_r; [exact Hr |]. apply step_fork.
Qed.

(** The programs a goroutine goes through while one of its parts runs. *)
Definition around {R : Type} (C : prog R → prog unit) : Prop :=
  (∀ A (f : E → S → A * S) k, C (Atom f k) = Atom f (λ a, C (k a))) ∧
  (∀ q k, C (Fork q k) = Fork q (C k)).

Lemma around_id : around (λ p : prog unit, p).
Proof. done. Qed.

(** A part that runs with no interference is one of the interleavings. *)
Lemma run_steps (handlers : prog unit → Prop) env {R : Type} (p : prog R) (C : prog R → prog unit) :
  around C → ∀ n s h ts1 ts2 r s' n', run env p n s = (r, s', n') →
  ∃ h' mid, rtc (step handlers) (Sys s h (ts1 ++ C p :: ts2))
                (Sys s' h' (ts1 ++ mid ++ C (Ret r) :: ts2)).
Proof.
  induction p as [R x | R A f k IH | R q IHq k IH];
    intros HC n s h ts1 ts2 r s' n' Hr; cbn in Hr.
  - simplify_eq. by exists h, [].
  - destruct (f (env n) s) as [a s1] eqn:Hf.
    destruct (IH a C HC _ _ (s :: h) ts1 ts2 _ _ _ Hr) as (h' & mid & Hh). exists h', mid.
    eapply rtc_l; [| exact Hh]. rewrite (proj1 HC). by eapply (step_section _ _ _ _ _ _ _ (λ a, C (k a))).
  - destruct (run env q n s) as [[u s1] n1] eqn:Hq.
    destruct (IHq (λ p, p) around_id _ _ h ts1 (C k :: ts2) _ _ _ Hq) as (h1 & mid1 & H1).
    destruct (IH C HC _ _ h1 (ts1 ++ mid1 ++ [Ret u]) ts2 _ _ _ Hr) as (h2 & mid2 & H2).
    exists h2, (mid1 ++ Ret u :: mid2). rewrite (proj2 HC).
    eapply rtc_l; [apply step_fork |]. etrans; [exact H1 |].
    replace (ts1 ++ mid1 ++ Ret u :: C k :: ts2) with ((ts1 ++ mid1 ++ [Ret u]) ++ C k :: ts2)
      by (by rewrite <-!app_assoc).
    replace (ts1 ++ (mid1 ++ Ret u :: mid2) ++ C (Ret r) :: ts2)
      with ((ts1 ++ mid1 ++ [Ret u]) ++ mid2 ++ C (Ret r) :: ts2) by (by rewrite <-!app_assoc).
    exact H2.
Qed.

Lemma reachable_run (handlers : prog unit → Prop) s0 env (p : prog unit) n s h ts r s' n' :
  handlers p → reachable handlers s0 (Sys s h ts) → run env p n s = (r, s', n') →
  ∃ h' ts', reachable handlers s0 (Sys s' h' ts').
Proof.
  intros Hp Hr Hrun.
  destruct (run_steps handlers env p (λ p, p) around_id _ _ h [] ts _ _ _ Hrun)
    as (h' & mid & Hh).
  exists h', (mid ++ Ret r :: ts). unfold reachable in *. etrans; [exact Hr |].
  eapply rtc_l; [by apply step_start | exact Hh].
Qed.

(** * The proof rule *)

Section rule.
Context {T : Type} `{Countable T} (I : history → gmultiset T → Prop).

(** From history [h] on, a goroutine with the tokens [own] keeps [I] in every
    section, and [Q] holds of the result when it returns. *)
Fixpoint good {R : Type} (p : prog R) (h : history) (own : gmultiset T)
    (Q : R → history → gmultiset T → Prop) : Prop :=
  match p with
  | Ret r => Q r h own
  | Atom f k =>
      ∀ s h' e others, h `suffix_of` (s :: h') → I (s :: h') (own ⊎ others) →
      ∃ own', I ((f e s).2 :: s :: h') (own' ⊎ others) ∧
        good (k (f e s).1) ((f e s).2 :: s :: h') own' Q
  | Fork q k =>
      ∃ own1 own2, own = own1 ⊎ own2 ∧ good q h own1 (λ _ _ _, True) ∧ good k h own2 Q
  end.

Lemma good_mono {R : Type} (p : prog R) h own (Q Q' : R → history → gmultiset T → Prop) :
  good p h own Q →
  (∀ r h' own', h `suffix_of` h' → Q r h' own' → Q' r h' own') → good p h own Q'.
Proof.
  revert h own Q Q'. induction p as [R r | R A f k IH | R q _ k IH];
    intros h own Q Q' Hp HQ; cbn in *; [by apply HQ | |].
  - intros s h' e others Hs HI. destruct (Hp s h' e others Hs HI) as (own' & H1 & H2).
    exists own'. split; [done |]. apply (IH _ _ _ _ _ H2).
    intros r h'' own'' Hs'. apply HQ. trans (s :: h'); [done |].
    trans ((f e s).2 :: s :: h'); [by apply suffix_cons_r | done].
  - destruct Hp as (o1 & o2 & -> & H1 & H2). exists o1, o2. split; [done |]. split; [done |].
    by apply (IH _ _ _ _ H2).
Qed.

Lemma good_later {R : Type} (p : prog R) h1 h2 own (Q : R → history → gmultiset T → Prop) :
  (∀ r h h' own, h `suffix_of` h' → Q r h own → Q r h' own) →
  h1 `suffix_of` h2 → good p h1 own Q → good p h2 own Q.
Proof.
  revert own Q. induction p as [R r | R A f k IH | R q IHq k IH]; intros own Q HQ H12; cbn.
  - by apply HQ.
  - intros H' s h' e others Hs. apply H'. by trans h2.
  - intros (o1 & o2 & -> & H1 & H2). exists o1, o2. split; [done |].
    split; [by apply IHq | by apply IH].
Qed.

Lemma good_bind {A B : Type} (m : prog A) (k : A → prog B) h own Q :
  good m h own (λ a h' own', good (k a) h' own' Q) → good (pbind m k) h own Q.
Proof.
  revert h own. induction m as [R a | R X f k' IH | R q _ m' IH]; intros h own Hm; cbn in *;
    [done | |].
  - intros s h' e others Hs HI. destruct (Hm s h' e others Hs HI) as (own' & H1 & H2).
    exists own'. split; [done |]. by apply IH.
  - destruct Hm as (o1 & o2 & -> & H1 & H2). exists o1, o2. auto.
Qed.

(** A sub-program that leaves the tokens alone and about whose result nothing
    need be known. *)
Lemma good_seq {A B : Type} (m : prog A) (k : A → prog B) h own Q :
  good m h own (λ _ _ own', own' = own) →
  (∀ a h', h `suffix_of` h' → good (k a) h' own Q) → good (pbind m k) h own Q.
Proof.
  intros Hm Hk. apply good_bind, (good_mono _ _ _ _ _ Hm). intros r h' own' Hs ->. auto.
Qed.

Lemma good_peek {A : Type} (f : E → S → A) h own :
  (∀ s h tk, I (s :: h) tk → I (s :: s :: h) tk) →
  good (peek f) h own (λ _ _ own', own' = own).
Proof. intros HI s h' e others _ Hs. exists own. split; [by apply HI | done]. Qed.

Definition kept (c : sys) : Prop :=
  ∃ owns, I (seen c) (foldr disj_union ∅ owns) ∧
    Forall2 (λ p own, good p (seen c) own (λ _ _ _, True)) (threads c) owns.

Lemma all_tokens (l1 l2 : list (gmultiset T)) :
  foldr disj_union ∅ (l1 ++ l2) = foldr disj_union ∅ l1 ⊎ foldr disj_union ∅ l2.
Proof. induction l1 as [| o l1 IH]; cbn [foldr app]; [by rewrite (left_id_L ∅ (⊎)) |].
  by rewrite IH, (assoc_L (⊎)). Qed.

Lemma goods_later (ts : list (prog unit)) owns h s :
  Forall2 (λ p own, good p h own (λ _ _ _, True)) ts owns →
  Forall2 (λ p own, good p (s :: h) own (λ _ _ _, True)) ts owns.
Proof.
  intros HF. eapply Forall2_impl; [| exact HF]. cbn. intros p own Hp.
  eapply good_later; [done | | done]. by apply suffix_cons_r.
Qed.

Lemma step_kept handlers c c' :
  (∀ p, handlers p → good p [] ∅ (λ _ _ _, True)) → step handlers c c' → kept c → kept c'.
Proof.
  intros Hh Hs (owns & HI & HF).
  destruct Hs as [s h ts p Hp | s h ts1 ts2 A f k e a s' Hf | s h ts1 ts2 q k];
    unfold kept, seen in *; cbn [now_at past threads] in *.
  - exists (∅ :: owns). split; [cbn [foldr]; by rewrite (left_id_L ∅ (⊎)) |]. constructor; [| done].
    apply (good_later _ []); [done | apply suffix_nil | by apply Hh].
  - apply Forall2_app_inv_l in HF as (o1 & o' & HF1 & HF2 & ->).
    apply Forall2_cons_inv_l in HF2 as (own & o2 & Hg & HF2 & ->).
    rewrite all_tokens in HI. cbn [foldr] in HI.
    destruct (Hg s h e (foldr disj_union ∅ o1 ⊎ foldr disj_union ∅ o2) (reflexivity _))
      as (own' & HI' & Hg').
    { by replace (own ⊎ _) with (foldr disj_union ∅ o1 ⊎ (own ⊎ foldr disj_union ∅ o2))
        by multiset_solver. }
    rewrite Hf in HI', Hg'. cbn in HI', Hg'. exists (o1 ++ own' :: o2). split.
    + rewrite all_tokens. cbn [foldr].
      by replace (_ ⊎ _) with (own' ⊎ (foldr disj_union ∅ o1 ⊎ foldr disj_union ∅ o2))
        by multiset_solver.
    + apply Forall2_app; [by apply goods_later | constructor; [done | by apply goods_later]].
  - apply Forall2_app_inv_l in HF as (o1 & o' & HF1 & HF2 & ->).
    apply Forall2_cons_inv_l in HF2 as (own & o2 & (a & b & -> & Ha & Hb) & HF2 & ->).
    exists (o1 ++ a :: b :: o2). split; [| by apply Forall2_app; [| by repeat constructor]].
    rewrite all_tokens in HI |- *. cbn [foldr] in *.
    by replace (_ ⊎ _) with (foldr disj_union ∅ o1 ⊎ (a ⊎ b ⊎ foldr disj_union ∅ o2))
      by multiset_solver.
Qed.

Theorem reachable_good handlers s0 c :
  I [s0] ∅ → (∀ p, handlers p → good p [] ∅ (λ _ _ _, True)) →
  reachable handlers s0 c → kept c.
Proof.
  intros H0 Hh Hr. unfold reachable in Hr. remember (Sys s0 [] []) as c0 eqn:Ec.
  assert (kept c0) as Hk by (subst; by exists []). clear Ec.
  induction Hr as [c | c1 c2 c3 Hs Hr IH]; [done |].
  apply IH. by apply (step_kept handlers c1).
Qed.
End rule.
End prog.

Arguments prog S E R : clear implicits.
Arguments Ret {S E R} r.
Arguments Atom {S E R A} f k.
Arguments Fork {S E R} q k.
Arguments sys S E : clear implicits.
Arguments Sys {S E} _ _ _.
Arguments now_at {S E} _.
Arguments past {S E} _.
Arguments threads {S E} _.

Arguments Begin {S E} _.
Arguments Go {S E} _ _.

Declare Scope prog_scope.
Delimit Scope prog_scope with prog.
Notation "'let*' x := m 'in' k" := (pbind m (λ x, k))
  (at level 200, x pattern, m at level 100, k at level 200) : prog_scope.
