(* ===== verification/Channels.v ===== *)
(** Notification channels: the lifecycle machine of [src/src/notify/state.go] and
    the registry of [src/src/notify/channel.go].

    Every method of the machine runs under its own mutex; the methods of the
    registry call several of them in turn, and other goroutines may run in
    between.  So a registry method is a [prog] over the registry, one section
    per lock.  A channel plugin is a record of functions of the moment of the
    call: the theorems hold for every plugin.  Registered channels are never
    removed, so a pointer to an entry is its name. *)
From stdpp Require Import prelude strings list gmap.
From Stdlib Require Import ZArith Lia.
From S2P Require Import Prelude GoTime Errors Threads.

#[local] Open Scope prog_scope.

Create HintDb channels.

(** * States *)

Definition StateDisabled : string := "DISABLED".
Definition StateConfiguring : string := "CONFIGURING".
Definition StateTesting : string := "TESTING".
Definition StateActive : string := "ACTIVE".
Definition StateDegraded : string := "DEGRADED".
Definition StateFailed : string := "FAILED".
Definition StateMaintenance : string := "MAINTENANCE".

Definition DegradeThreshold : Z := 3.
Definition FailThreshold : Z := 10.

Definition transitions : list (string * list string) :=
  [(StateDisabled, [StateConfiguring; StateMaintenance]);
   (StateConfiguring, [StateTesting; StateDisabled; StateMaintenance]);
   (StateTesting, [StateActive; StateDisabled; StateConfiguring; StateMaintenance]);
   (StateActive, [StateDegraded; StateFailed; StateConfiguring; StateDisabled; StateMaintenance]);
   (StateDegraded, [StateActive; StateFailed; StateConfiguring; StateDisabled; StateMaintenance]);
   (StateFailed, [StateConfiguring; StateDisabled; StateMaintenance]);
   (StateMaintenance, [StateActive; StateDisabled; StateConfiguring])].

Definition CanTransition (from to : string) : bool :=
  (from =s to) || existsb (λ allowed, allowed =s to) (default [] (assoc from transitions)).

(** * The machine of one channel *)

Record TestResult := mkTest {
  Connected : bool; Authenticated : bool; Delivered : bool;
  Latency : Z; TestDetail : string; TestErr : option error }.

Definition no_test : TestResult := mkTest false false false 0 "" None.

Definition OK (r : TestResult) : bool :=
  match TestErr r with None => true | Some _ => false end && Connected r && Delivered r.

Record stateMachine := mkMachine {
  m_state : string; m_failures : Z; m_successes : Z; m_sends : Z; m_latencyTotal : Z;
  m_changedAt : Z; m_lastTest : TestResult; m_lastTestAt : Z; m_lastError : string }.

(** The zero [time.Time]; other times are nanoseconds of the clock. *)
Definition never : Z := - 62135596800 * 1000000000.

Definition newStateMachine (now : Z) : stateMachine :=
  mkMachine StateDisabled 0 0 0 0 now no_test never "".

Definition set_state (st : string) (at_ : Z) (m : stateMachine) : stateMachine :=
  mkMachine st (m_failures m) (m_successes m) (m_sends m) (m_latencyTotal m) at_
    (m_lastTest m) (m_lastTestAt m) (m_lastError m).

Definition set_failures (n : Z) (m : stateMachine) : stateMachine :=
  mkMachine (m_state m) n (m_successes m) (m_sends m) (m_latencyTotal m) (m_changedAt m)
    (m_lastTest m) (m_lastTestAt m) (m_lastError m).

Definition set_lastError (e : string) (m : stateMachine) : stateMachine :=
  mkMachine (m_state m) (m_failures m) (m_successes m) (m_sends m) (m_latencyTotal m)
    (m_changedAt m) (m_lastTest m) (m_lastTestAt m) e.

Definition set_test (res : TestResult) (at_ : Z) (m : stateMachine) : stateMachine :=
  mkMachine (m_state m) (m_failures m) (m_successes m) (m_sends m) (m_latencyTotal m)
    (m_changedAt m) res at_ (m_lastError m).

Definition count_send (latency : Z) (m : stateMachine) : stateMachine :=
  mkMachine (m_state m) (m_failures m) (m_successes m) (m_sends m +! 1)
    (m_latencyTotal m +! latency) (m_changedAt m) (m_lastTest m) (m_lastTestAt m) (m_lastError m).

Definition count_success (m : stateMachine) : stateMachine :=
  mkMachine (m_state m) (m_failures m) (m_successes m +! 1) (m_sends m) (m_latencyTotal m)
    (m_changedAt m) (m_lastTest m) (m_lastTestAt m) (m_lastError m).

Definition toLocked (now : Z) (next : string) (m : stateMachine) : bool * stateMachine :=
  if negb (CanTransition (m_state m) next) then (false, m) else
  let m := if negb (m_state m =s next) then set_state next now m else m in
  let m := if next =s StateActive then set_failures 0 m else m in
  (true, m).

Definition recordTest (now : Z) (res : TestResult) (autoEnable : bool) (m : stateMachine) :
    stateMachine :=
  let m := set_test res now m in
  let m := set_lastError (match TestErr res with Some e => error_text e | None => "" end) m in
  if negb (OK res) then (toLocked now StateDisabled m).2
  else if autoEnable then (toLocked now StateActive m).2 else m.

Definition recordSend (now latency : Z) (err : option error) (m : stateMachine) : stateMachine :=
  let m := count_send latency m in
  match err with
  | None =>
      let m := set_lastError "" (set_failures 0 (count_success m)) in
      if m_state m =s StateDegraded then (toLocked now StateActive m).2 else m
  | Some e =>
      let m := set_lastError (error_text e) (set_failures (m_failures m +! 1) m) in
      if FailThreshold <=? m_failures m then (toLocked now StateFailed m).2
      else if DegradeThreshold <=? m_failures m then (toLocked now StateDegraded m).2
      else m
  end.

(** [SuccessRate] is a [float64]: its two operands, when it is computed. *)
Record ChannelStatus := mkStatus {
  cs_Name : string; cs_Category : string; cs_State : string; cs_ChangedAt : Z;
  cs_ConsecutiveFails : Z; cs_Sends : Z; cs_Successes : Z; cs_SuccessRate : option (Z * Z);
  cs_AverageLatency : Z; cs_LastError : string; cs_LastTestAt : Z; cs_LastTest : TestResult }.

Definition snapshot (m : stateMachine) : ChannelStatus :=
  let sent := 0 <? m_sends m in
  mkStatus "" "" (m_state m) (m_changedAt m) (m_failures m) (m_sends m) (m_successes m)
    (if sent then Some (m_successes m, m_sends m) else None)
    (if sent then m_latencyTotal m /! m_sends m else 0)
    (m_lastError m) (m_lastTestAt m) (m_lastTest m).

(** * The registry *)

Definition ErrChannelNotFound : error := New CodeNotFound 404 "notification channel not found".
Definition ErrChannelExists : error :=
  New CodeConflict 409 "notification channel already registered".
Definition ErrBadTransition : error :=
  New CodeConflict 409 "notification channel state transition not allowed".
Definition ErrChannelNotActive : error :=
  New CodeUnavailable 503 "notification channel is not active".
Definition ErrNotTested : error :=
  New CodeValidation 400 "notification channel must pass a test before activation".

Section registry.
(** A moment, with the clock at it; the rendered message a plugin delivers. *)
Context {W Rendered : Type} (clock : W → Z).

Record Channel := mkChannel {
  Name : string; Category : string;
  Validate : W → option error; Test : W → TestResult;
  Send : W → Rendered → option error; AutoEnable : W → bool }.

Record registryEntry := mkEntry { channel : Channel; machine : stateMachine }.
Record Registry := mkRegistry { order : list string; items : gmap string registryEntry }.

Definition NewRegistry : Registry := mkRegistry [] ∅.

Notation P := (prog Registry W).

Definition Register (ch : option Channel) : P (option error) :=
  match ch with
  | None => Ret (Some (New CodeInternal 500 "notification channel must not be nil"))
  | Some ch => atomic (λ w r,
      match items r !! Name ch with
      | Some _ => (Some (WithDetails ErrChannelExists [("channel", DStr (Name ch))]), r)
      | None =>
          (None, mkRegistry (sort_strings (order r ++ [Name ch]))
                   (<[Name ch := mkEntry ch (newStateMachine (clock w))]> (items r)))
      end)
  end.

Definition Names : P (list string) := peek (λ _ r, order r).

Definition entry (name : string) : P (Res Channel) :=
  peek (λ _ r,
    match items r !! name with
    | Some e => Ok (channel e)
    | None => Err (WithDetails ErrChannelNotFound [("channel", DStr name)])
    end).

(** A locked method of the machine of an entry the caller holds. *)
Definition update {A} (name : string) (f : W → stateMachine → A * stateMachine) (w : W)
    (r : Registry) : option A * Registry :=
  match items r !! name with
  | Some e =>
      let '(a, m) := f w (machine e) in
      (Some a, mkRegistry (order r) (<[name := mkEntry (channel e) m]> (items r)))
  | None => (None, r)
  end.

Definition State (name : string) : P string :=
  let* st := atomic (update name (λ _ m, (m_state m, m))) in Ret (default "" st).

Definition To (name next : string) : P bool :=
  let* ok := atomic (update name (λ w, toLocked (clock w) next)) in Ret (default false ok).

Definition statusOf (name : string) : P ChannelStatus :=
  let* st := atomic (update name (λ _ m, (snapshot m, m))) in
  Ret (default (snapshot (newStateMachine never)) st).

Definition recordTestOf (name : string) (res : TestResult) (auto : bool) : P unit :=
  let* _ := atomic (update name (λ w m, (tt, recordTest (clock w) res auto m))) in Ret tt.

Definition recordSendOf (name : string) (latency : Z) (err : option error) : P unit :=
  let* _ := atomic (update name (λ w m, (tt, recordSend (clock w) latency err m))) in Ret tt.

Definition RegistryState (name : string) : P (Res string) :=
  let* e := entry name in
  match e with
  | Err err => Ret (Err err)
  | Ok _ => let* st := State name in Ret (Ok st)
  end.

Definition Status (name : string) : P (Res ChannelStatus) :=
  let* e := entry name in
  match e with
  | Err err => Ret (Err err)
  | Ok ch =>
      let* s := statusOf name in
      Ret (Ok (mkStatus (Name ch) (Category ch) (cs_State s) (cs_ChangedAt s)
                 (cs_ConsecutiveFails s) (cs_Sends s) (cs_Successes s) (cs_SuccessRate s)
                 (cs_AverageLatency s) (cs_LastError s) (cs_LastTestAt s) (cs_LastTest s)))
  end.

Fixpoint statusLoop (names : list string) : P (list ChannelStatus) :=
  match names with
  | [] => Ret []
  | n :: rest =>
      let* s := Status n in
      let* more := statusLoop rest in
      Ret (match s with Ok st => st :: more | Err _ => more end)
  end.

Definition Statuses : P (list ChannelStatus) :=
  let* names := Names in statusLoop names.

Definition transition (name next : string) : P (option error) :=
  let* e := entry name in
  match e with
  | Err err => Ret (Some err)
  | Ok _ =>
      let* ok := To name next in
      if negb ok then
        let* st := State name in
        Ret (Some (WithDetails ErrBadTransition
               [("channel", DStr name); ("from", DStr st); ("to", DStr next)]))
      else Ret None
  end.

Definition Configure (name : string) : P (option error) := transition name StateConfiguring.
Definition Disable (name : string) : P (option error) := transition name StateDisabled.
Definition Maintenance (name : string) : P (option error) := transition name StateMaintenance.

Definition bad_state (err : error) (name : string) : P error :=
  let* st := State name in
  Ret (WithDetails err [("channel", DStr name); ("state", DStr st)]).

Definition Activate (name : string) : P (option error) :=
  let* e := entry name in
  match e with
  | Err err => Ret (Some err)
  | Ok _ =>
      let* s := statusOf name in
      if negb (OK (cs_LastTest s)) then
        Ret (Some (WithDetails ErrNotTested [("channel", DStr name)]))
      else
        let* ok := To name StateActive in
        if negb ok then let* err := bad_state ErrBadTransition name in Ret (Some err)
        else Ret None
  end.

Definition RegistryTest (name : string) : P (TestResult * option error) :=
  let* e := entry name in
  match e with
  | Err err => Ret (no_test, Some err)
  | Ok ch =>
      let* v := peek (λ w _, Validate ch w) in
      match v with
      | Some err =>
          let res := mkTest false false false 0 "configuration incomplete" (Some err) in
          let* auto := peek (λ w _, AutoEnable ch w) in
          let* _ := recordTestOf name res auto in
          Ret (res, Some err)
      | None =>
          let* st := State name in
          let* _ := (if st =s StateDisabled then To name StateConfiguring else Ret true) in
          let* ok := To name StateTesting in
          if negb ok then
            let* err := bad_state ErrBadTransition name in Ret (no_test, Some err)
          else
            let* res := peek (λ w _, Test ch w) in
            let* auto := peek (λ w _, AutoEnable ch w) in
            let* _ := recordTestOf name res auto in
            Ret (res, TestErr res)
      end
  end.

Definition Deliver (name : string) (rendered : Rendered) : P (option error) :=
  let* e := entry name in
  match e with
  | Err err => Ret (Some err)
  | Ok ch =>
      let* st := State name in
      if (st =s StateActive) || (st =s StateDegraded) then
        let* start := peek (λ w _, clock w) in
        let* sendErr := peek (λ w _, Send ch w rendered) in
        let* stop := peek (λ w _, clock w) in
        let* _ := recordSendOf name (time_Sub stop start) sendErr in
        Ret sendErr
      else let* err := bad_state ErrChannelNotActive name in Ret (Some err)
  end.

Fixpoint activeLoop (names : list string) : P (list string) :=
  match names with
  | [] => Ret []
  | n :: rest =>
      let* s := RegistryState n in
      let* more := activeLoop rest in
      Ret (match s with
           | Ok st => if (st =s StateActive) || (st =s StateDegraded) then n :: more else more
           | Err _ => more
           end)
  end.

Definition Active : P (list string) := let* names := Names in activeLoop names.

(** * What goroutines may start *)

Inductive Op :=
| OpRegister (ch : option Channel) | OpConfigure (name : string) | OpDisable (name : string)
| OpMaintenance (name : string) | OpActivate (name : string) | OpTest (name : string)
| OpDeliver (name : string) (rendered : Rendered) | OpStatuses | OpActive.

Definition drop {A} (p : P A) : P unit := let* _ := p in Ret tt.

Definition handler (op : Op) : P unit :=
  match op with
  | OpRegister ch => drop (Register ch)
  | OpConfigure n => drop (Configure n)
  | OpDisable n => drop (Disable n)
  | OpMaintenance n => drop (Maintenance n)
  | OpActivate n => drop (Activate n)
  | OpTest n => drop (RegistryTest n)
  | OpDeliver n msg => drop (Deliver n msg)
  | OpStatuses => drop Statuses
  | OpActive => drop Active
  end.

Definition handlers (p : P unit) : Prop := ∃ op, p = handler op.

(** * The invariant *)

(** The states in which [Deliver] calls the plugin. *)
Definition delivers (m : stateMachine) : Prop :=
  m_state m = StateActive ∨ m_state m = StateDegraded.

Definition ladder_ok (m : stateMachine) : Prop :=
  (m_state m = StateActive → 0 ≤ m_failures m < DegradeThreshold) ∧
  (m_state m = StateDegraded → DegradeThreshold ≤ m_failures m < FailThreshold).

Definition passed (h : list Registry) (name : string) : Prop :=
  ∃ r e, r ∈ h ∧ items r !! name = Some e ∧ OK (m_lastTest (machine e)) = true.

Definition sound (h : list Registry) : Prop :=
  match h with
  | [] => True
  | r :: _ => ∀ name e, items r !! name = Some e →
      ladder_ok (machine e) ∧ (delivers (machine e) → passed h name)
  end.

(** What a locked method may do to a machine, knowing whether the channel has
    passed a test. *)
Definition keeps (tested : Prop) (m m' : stateMachine) : Prop :=
  ladder_ok m → (delivers m → tested) →
  ladder_ok m' ∧ (delivers m' → tested ∨ OK (m_lastTest m') = true).

Lemma passed_later h h' name : h `suffix_of` h' → passed h name → passed h' name.
Proof.
  intros [k ->] (r & e & Hr & Hl & Ho). exists r, e. split; [set_solver | done].
Qed.

Lemma sound_same s h : sound (s :: h) → sound (s :: s :: h).
Proof.
  intros H name e He. destruct (H name e He) as [H1 H2]. split; [done |].
  intros Hd. eapply passed_later; [| by apply H2]. by apply suffix_cons_r.
Qed.

Lemma sound_update {A} name (f : W → stateMachine → A * stateMachine) w s h :
  (∀ m, keeps (passed (s :: h) name) m (f w m).2) →
  sound (s :: h) → sound ((update name f w s).2 :: s :: h).
Proof.
  intros Hf H. unfold update. destruct (items s !! name) as [e |] eqn:He;
    [| by apply sound_same].
  destruct (f w (machine e)) as [a m] eqn:Hfe. cbn. intros n e' He'.
  destruct (decide (n = name)) as [-> | Hn].
  - rewrite lookup_insert_eq in He'. simplify_eq. cbn.
    destruct (H name e He) as [H1 H2].
    specialize (Hf (machine e) H1 H2). rewrite Hfe in Hf. cbn in Hf. destruct Hf as [Hl Hd].
    split; [done |]. intros [Hp | Ho]%Hd.
    + eapply passed_later; [| exact Hp]. by apply suffix_cons_r.
    + eexists _, _. split; [left |]. cbn. by rewrite lookup_insert_eq.
  - rewrite lookup_insert_ne in He' by done. destruct (H n e' He') as [H1 H2].
    split; [done |]. intros Hd. eapply passed_later; [| by apply H2]. by apply suffix_cons_r.
Qed.

Lemma toLocked_cases now next m :
  toLocked now next m = (false, m) ∨
  ∃ m', toLocked now next m = (true, m') ∧ CanTransition (m_state m) next = true
    ∧ m_state m' = next ∧ m_lastTest m' = m_lastTest m
    ∧ m_failures m' = if next =s StateActive then 0 else m_failures m.
Proof.
  unfold toLocked. destruct (CanTransition (m_state m) next) eqn:Hc; cbn; [right | by left].
  eexists. split; [done |]. split; [done |].
  destruct (m_state m =s next) eqn:He; [apply seqb_eq in He |]; cbn;
    by destruct (next =s StateActive).
Qed.

Lemma degraded_from st : CanTransition st StateDegraded = true →
  st = StateActive ∨ st = StateDegraded.
Proof.
  unfold CanTransition. intros [H | H]%orb_prop; [right; by apply seqb_eq |].
  unfold transitions in H. cbn [assoc] in H.
  repeat match type of H with
  | context [if ?a =s ?b then _ else _] =>
      destruct (a =s b) eqn:E; cbn in H;
      [apply seqb_eq in E; first [discriminate | by left | by right] | clear E]
  end. discriminate.
Qed.

(** Leaving, or not moving: no test is needed. *)
Lemma keeps_to T now next m :
  next ≠ StateActive → next ≠ StateDegraded → keeps T m (toLocked now next m).2.
Proof.
  intros Ha Hd Hl Ht. destruct (toLocked_cases now next m) as [-> | (m' & -> & _ & Hs & _)];
    cbn; [by split; [| left; auto] |].
  unfold ladder_ok, delivers. rewrite Hs. intuition congruence.
Qed.

Lemma keeps_activate (T : Prop) now m :
  T ∨ OK (m_lastTest m) = true → keeps T m (toLocked now StateActive m).2.
Proof.
  intros HT Hl Ht.
  destruct (toLocked_cases now StateActive m) as [-> | (m' & -> & _ & Hs & Ho & Hf)]; cbn.
  { by split; [| left; auto]. }
  rewrite seqb_refl in Hf. unfold ladder_ok, delivers. rewrite Hs, Hf, Ho.
  split; [by split |]. intros _. exact HT.
Qed.

Lemma keeps_recordTest T now res auto m : keeps T m (recordTest now res auto m).
Proof.
  intros Hl Ht. unfold recordTest.
  set (m1 := set_lastError _ _). assert (ladder_ok m1) as Hl1 by exact Hl.
  assert (delivers m1 → T) as Ht1 by exact Ht.
  assert (m_lastTest m1 = res) as Hr by done. clearbody m1.
  destruct (OK res) eqn:Ho; cbn.
  - destruct auto; [| by split; [| left; auto]].
    apply keeps_activate; [right; by rewrite Hr | done..].
  - by apply keeps_to.
Qed.

(** A delivering machine is never refused the way down. *)
Lemma refused_not_delivering now next m :
  next = StateFailed ∨ next = StateDegraded → toLocked now next m = (false, m) → ¬ delivers m.
Proof.
  unfold toLocked. by intros [-> | ->] E [Hs | Hs]; rewrite Hs in E.
Qed.

Lemma idle_ok (T : Prop) m : ¬ delivers m →
  ladder_ok m ∧ (delivers m → T ∨ OK (m_lastTest m) = true).
Proof. unfold ladder_ok, delivers. tauto. Qed.

(** The streak of a delivering machine is short, so counting does not wrap. *)
Lemma streak_exact m : ladder_ok m → delivers m → m_failures m +! 1 = m_failures m + 1.
Proof.
  intros [Ha Hd] [E | E]; [specialize (Ha E) | specialize (Hd E)];
    unfold DegradeThreshold, FailThreshold in *; apply wrap64_id; int64.
Qed.

Lemma keeps_failure T now e latency m : keeps T m (recordSend now latency (Some e) m).
Proof.
  intros Hl Ht. unfold recordSend. set (m1 := set_lastError _ _).
  assert (delivers m1 → T ∧ m_failures m1 = m_failures m + 1) as Ht1
    by (intros Hd; split; [by apply Ht | by apply (streak_exact m)]).
  assert (m_state m1 = m_state m) as Hs by done. clearbody m1.
  destruct (FailThreshold <=? m_failures m1) eqn:E1.
  { destruct (toLocked_cases now StateFailed m1) as [E | (m' & -> & _ & Hs' & _)].
    - rewrite E. apply idle_ok, (refused_not_delivering now StateFailed); auto.
    - apply idle_ok. unfold delivers. cbn. rewrite Hs'. by intros [? | ?]. }
  destruct (DegradeThreshold <=? m_failures m1) eqn:E2.
  { destruct (toLocked_cases now StateDegraded m1) as [E | (m' & -> & Hc & Hs' & _ & Hf')].
    - rewrite E. apply idle_ok, (refused_not_delivering now StateDegraded); auto.
    - apply degraded_from in Hc. cbn in *. unfold ladder_ok. rewrite Hs', Hf'.
      split; [split; [done | lia] |]. intros _. left. by apply Ht1. }
  split; [| intros Hd; left; by apply Ht1].
  destruct Hl as [Ha Hd]. unfold ladder_ok. rewrite Hs.
  split; intros E; [specialize (Ha E) | specialize (Hd E)];
    destruct Ht1 as [_ Hx]; unfold delivers, DegradeThreshold in *; rewrite ?Hs; auto; lia.
Qed.

Lemma keeps_recordSend T now latency err m : keeps T m (recordSend now latency err m).
Proof.
  destruct err as [e |]; [apply keeps_failure |].
  intros Hl Ht. unfold recordSend. set (m1 := set_lastError _ _).
  assert (m_state m1 = m_state m) as Hs by done.
  assert (m_failures m1 = 0) as Hf by done.
  assert (delivers m1 → T) as Ht1 by exact Ht. clearbody m1.
  destruct (m_state m1 =s StateDegraded) eqn:Hd.
  - apply seqb_eq in Hd.
    destruct (toLocked_cases now StateActive m1) as [E | (m' & -> & _ & Hs' & _ & Hf')]; cbn.
    { unfold toLocked in E. rewrite Hd in E. discriminate. }
    cbn in Hf'. unfold ladder_ok, delivers in *. rewrite Hs', Hf'. split; [| auto].
    by split.
  - apply seqb_neq in Hd. unfold ladder_ok, delivers. rewrite Hf. split; [| auto].
    split; [done |]. intros E. congruence.
Qed.

(** * Every handler keeps the invariant *)

(** No tokens are needed. *)
Notation keeping p h Q := (good (E := W) (T := unit) (λ h _, sound h) p h ∅ Q).
Notation ok_prog p h := (keeping p h (λ _ _ own, own = ∅)).

Lemma chan_peek {A} (f : W → Registry → A) h : ok_prog (peek f) h.
Proof. apply good_peek. intros s h' _. apply sound_same. Qed.

Lemma ok_update {A B} name (f : W → stateMachine → A * stateMachine) (g : option A → B) h :
  (∀ h' w m, h `suffix_of` h' → keeps (passed h' name) m (f w m).2) →
  ok_prog (let* a := atomic (update name f) in Ret (g a)) h.
Proof.
  intros H s h' e others Hs HI. exists ∅.
  split; [apply sound_update; [intros m; by apply H | done] | done].
Qed.

Lemma chan_read {A} name (f : W → stateMachine → A * stateMachine) h :
  (∀ w m, (f w m).2 = m) → ok_prog (atomic (update name f)) h.
Proof.
  intros Hf s h' e others Hs HI. exists ∅. split; [| done]. apply sound_update; [| done].
  intros m Hl Ht. rewrite Hf. auto.
Qed.

Lemma ok_entry name h : ok_prog (entry name) h.
Proof. apply chan_peek. Qed.

Lemma ok_State name h : ok_prog (State name) h.
Proof. apply good_seq; [by apply chan_read | done]. Qed.

Lemma ok_statusOf name h : ok_prog (statusOf name) h.
Proof. apply good_seq; [by apply chan_read | done]. Qed.

Lemma ok_To name next h :
  next ≠ StateActive → next ≠ StateDegraded → ok_prog (To name next) h.
Proof. intros. apply ok_update. intros. by apply keeps_to. Qed.

Lemma ok_To_active name h : passed h name → ok_prog (To name StateActive) h.
Proof.
  intros Hp. apply ok_update. intros h' w m Hs. apply keeps_activate.
  left. by apply (passed_later h).
Qed.

Lemma ok_recordTestOf name res auto h : ok_prog (recordTestOf name res auto) h.
Proof. apply ok_update. intros. apply keeps_recordTest. Qed.

Lemma ok_recordSendOf name latency err h : ok_prog (recordSendOf name latency err) h.
Proof. apply ok_update. intros. apply keeps_recordSend. Qed.

Lemma chan_ret {A} (a : A) h : ok_prog (Ret a) h.
Proof. done. Qed.

Hint Resolve chan_peek ok_entry ok_State ok_statusOf ok_recordTestOf ok_recordSendOf chan_ret : channels.
Hint Extern 1 (ok_prog (To _ _) _) => apply ok_To; discriminate : channels.

Ltac handlers_ok :=
  repeat (auto with channels;
    match goal with
    | |- good _ (pbind _ _) _ _ _ => apply good_seq; [| intros ? ? ?]
    | |- good _ (match ?x with _ => _ end) _ _ _ => destruct x
    | |- good _ (if ?x then _ else _) _ _ _ => destruct x
    end); auto with channels.

Lemma ok_RegistryState name h : ok_prog (RegistryState name) h.
Proof. unfold RegistryState. handlers_ok. Qed.

Lemma ok_Status name h : ok_prog (Status name) h.
Proof. unfold Status. handlers_ok. Qed.

Lemma ok_statusLoop names h : ok_prog (statusLoop names) h.
Proof.
  revert h. induction names as [| n names IH]; intros h; cbn [statusLoop]; [done |].
  apply good_seq; [apply ok_Status | intros ? ? ?]. by apply good_seq.
Qed.

Lemma ok_activeLoop names h : ok_prog (activeLoop names) h.
Proof.
  revert h. induction names as [| n names IH]; intros h; cbn [activeLoop]; [done |].
  apply good_seq; [apply ok_RegistryState | intros ? ? ?]. by apply good_seq.
Qed.

Lemma ok_bad_state err name h : ok_prog (bad_state err name) h.
Proof. unfold bad_state. handlers_ok. Qed.

Hint Resolve ok_bad_state ok_statusLoop ok_activeLoop : channels.

Lemma ok_transition name next h :
  next ≠ StateActive → next ≠ StateDegraded → ok_prog (transition name next) h.
Proof.
  intros. unfold transition. apply good_seq; [auto with channels | intros e h' _].
  destruct e; [| done]. apply good_seq; [by apply ok_To | intros ? ? ?]. handlers_ok.
Qed.

(** A snapshot that shows a passed test is evidence of one. *)
Lemma statusOf_evidence name h :
  keeping (statusOf name) h
    (λ st h' own, own = ∅ ∧ (OK (cs_LastTest st) = true → passed h' name)).
Proof.
  intros s h' w others Hs HI. exists ∅. split; [by apply sound_update; [intros m Hl Ht; auto |] |].
  unfold update. split; [done |]. destruct (items s !! name) as [e |] eqn:He; cbn; [| done].
  intros Ho. exists s, e. split; [set_solver | done].
Qed.

Lemma ok_Activate name h : ok_prog (Activate name) h.
Proof.
  unfold Activate. apply good_seq; [auto with channels | intros e h1 _]. destruct e; [| done].
  apply good_bind. eapply good_mono; [apply statusOf_evidence |].
  intros st h2 own _ [-> Hp]. destruct (OK (cs_LastTest st)) eqn:Ho; [| done].
  apply good_seq; [by apply ok_To_active, Hp | intros ? ? ?; handlers_ok].
Qed.

Lemma chan_Register ch h : ok_prog (Register ch) h.
Proof.
  destruct ch as [ch |]; [| done]. intros s h' w others Hs HI. exists ∅. split; [| done].
  destruct (items s !! Name ch) as [e |] eqn:He; cbn; [by apply sound_same |].
  intros n e' He'. cbn in He'. destruct (decide (n = Name ch)) as [-> | Hn].
  - rewrite lookup_insert_eq in He'. simplify_eq. cbn.
    unfold ladder_ok, delivers. cbn. by repeat split; intros; try intuition discriminate.
  - rewrite lookup_insert_ne in He' by done. destruct (HI n e' He') as [H1 H2].
    split; [done |]. intros Hd. eapply passed_later; [| by apply H2]. by apply suffix_cons_r.
Qed.

Lemma chan_handler op h : ok_prog (handler op) h.
Proof.
  destruct op; cbn [handler]; unfold drop; apply good_seq; try (by intros).
  - apply chan_Register.
  - by apply ok_transition.
  - by apply ok_transition.
  - by apply ok_transition.
  - apply ok_Activate.
  - unfold RegistryTest. handlers_ok.
  - unfold Deliver. handlers_ok.
  - unfold Statuses, Names. handlers_ok.
  - unfold Active, Names. handlers_ok.
Qed.

(** C19: However the methods of the registry interleave, and whatever the
    plugins answer, a channel that delivers (it is ACTIVE or DEGRADED) has
    passed a live test at some earlier moment, and its streak of failures fits
    its state: fewer than three while ACTIVE, three to nine while DEGRADED. *)
Theorem delivering_channel_was_tested (c : sys Registry W) name e :
  reachable handlers NewRegistry c →
  items (now_at c) !! name = Some e →
  delivers (machine e) →
  passed (seen c) name ∧ ladder_ok (machine e).
Proof.
  intros Hr He Hd.
  destruct (reachable_good (T := unit) (λ h _, sound h) handlers NewRegistry c)
    as (owns & HI & _); [done | | done |].
  { intros p [op ->]. by eapply good_mono; [apply chan_handler |]. }
  destruct (HI name e He) as [Hl Hp]. auto.
Qed.

(** * A test that runs alone *)

(** Where a test takes a channel that may be tested. *)
Definition test_state (res : TestResult) (auto : bool) : string :=
  if OK res then if auto then StateActive else StateTesting else StateDisabled.

Definition testable (st : string) : bool :=
  (st =s StateDisabled) || (st =s StateConfiguring) || (st =s StateTesting).

Lemma recordTest_state now res auto m :
  m_state m = StateTesting →
  m_state (recordTest now res auto m) = test_state res auto
  ∧ m_lastTest (recordTest now res auto m) = res.
Proof.
  intros Hs. unfold recordTest, test_state.
  destruct (OK res) eqn:Ho; cbn; [destruct auto |]; unfold toLocked; cbn; rewrite Hs; by cbn.
Qed.

(** The registry with another machine for one channel. *)
Definition with_machine (r : Registry) (name : string) (e : registryEntry) (m : stateMachine) :
    Registry :=
  mkRegistry (order r) (<[name := mkEntry (channel e) m]> (items r)).

Lemma run_locked {A B} env n r name e (f : W → stateMachine → A * stateMachine)
    (g : option A → B) m :
  items r !! name = Some e →
  run env (let* a := atomic (update name f) in Ret (g a)) n (with_machine r name e m) =
  (g (Some (f (env n) m).1), with_machine r name e (f (env n) m).2, S n).
Proof.
  intros He. cbn. unfold update, with_machine. cbn. rewrite lookup_insert_eq. cbn.
  destruct (f (env n) m). cbn. by rewrite insert_insert_eq.
Qed.

Lemma with_machine_id r name e :
  items r !! name = Some e → with_machine r name e (machine e) = r.
Proof. intros He. destruct r, e. unfold with_machine. cbn in *. by rewrite insert_id. Qed.

Lemma run_peek {A} env n (f : W → Registry → A) s :
  run env (peek f) n s = (f (env n) s, s, S n).
Proof. done. Qed.

(** What a test that runs alone leaves: the answer of the plugin stored and
    returned, or a refusal that changed nothing. *)
Definition test_outcome (env : nat → W) (r : Registry) (name : string) (e : registryEntry)
    (end_ : TestResult * option error * Registry * nat) : Prop :=
  let '(res, err, r', _) := end_ in
  ∃ m, r' = with_machine r name e m ∧
  if testable (m_state (machine e)) then
    ∃ i j, res = Test (channel e) (env i) ∧ err = TestErr res ∧ m_lastTest m = res
      ∧ m_state m = test_state res (AutoEnable (channel e) (env j))
  else
    m = machine e ∧
    err = Some (WithDetails ErrBadTransition
                  [("channel", DStr name); ("state", DStr (m_state (machine e)))]).

Lemma run_prepare env n r name e :
  items r !! name = Some e →
  ∃ b m k,
    run env (if m_state (machine e) =s StateDisabled then To name StateConfiguring else Ret true)
      n (with_machine r name e (machine e)) = (b, with_machine r name e m, k)
    ∧ if m_state (machine e) =s StateDisabled then m_state m = StateConfiguring
      else m = machine e.
Proof.
  intros He. destruct (m_state (machine e) =s StateDisabled) eqn:Hs.
  - unfold To. rewrite (run_locked env _ r name e) by done. cbn [from_option id fst snd].
    apply seqb_eq in Hs. do 3 eexists. split; [done |]. unfold toLocked. rewrite Hs. by cbn.
  - by exists true, (machine e), n.
Qed.

Lemma to_testing now m :
  if (m_state m =s StateConfiguring) || (m_state m =s StateTesting)
  then ∃ m', toLocked now StateTesting m = (true, m') ∧ m_state m' = StateTesting
  else toLocked now StateTesting m = (false, m).
Proof.
  destruct (toLocked_cases now StateTesting m) as [E | (m' & E & Hc & Hs & _)]; rewrite E.
  - destruct (_ || _) eqn:Ho; [| done]. unfold toLocked in E.
    apply orb_prop in Ho as [Ho | Ho]; apply seqb_eq in Ho; by rewrite Ho in E.
  - destruct (_ || _) eqn:Ho; [by exists m' |]. apply orb_false_elim in Ho as [H1 H2].
    unfold CanTransition in Hc. rewrite H2 in Hc. cbn [orb] in Hc.
    unfold transitions in Hc. cbn [assoc] in Hc. rewrite H1 in Hc.
    repeat match type of Hc with
    | context [if ?a =s ?b then _ else _] => destruct (a =s b); [done |]
    end. done.
Qed.

(** A test that nothing interferes with: from DISABLED, CONFIGURING or
    TESTING the channel's plugin is asked, its answer is stored and returned,
    and the channel ends ACTIVE when it passed and activates itself, TESTING
    when it passed and does not, DISABLED when it failed.  From every other
    state the test is refused and the channel's machine stays as it was.  No
    other channel changes. *)
Theorem RegistryTest_alone env n r name e :
  items r !! name = Some e →
  Validate (channel e) (env (S n)) = None →
  test_outcome env r name e (run env (RegistryTest name) n r).
Proof.
  intros He Hv. rewrite <-(with_machine_id r name e He) at 2.
  unfold RegistryTest. rewrite run_bind. unfold entry. rewrite run_peek.
  unfold with_machine at 1. cbn [items]. rewrite lookup_insert_eq. cbn [channel].
  rewrite run_bind, run_peek, Hv, run_bind. unfold State at 1.
  rewrite (run_locked env _ r name e) by done. cbn [from_option id fst snd].
  rewrite run_bind.
  destruct (run_prepare env (S (S (S n))) r name e He) as (b & m1 & k1 & -> & Hs1).
  rewrite run_bind. unfold To at 1. rewrite (run_locked env _ r name e) by done.
  cbn [from_option id fst snd]. pose proof (to_testing (clock (env k1)) m1) as Ht.
  assert ((m_state m1 =s StateConfiguring) || (m_state m1 =s StateTesting)
          = testable (m_state (machine e))) as Htest.
  { unfold testable. destruct (m_state (machine e) =s StateDisabled); [by rewrite Hs1 |].
    by subst m1. }
  rewrite Htest in Ht. unfold test_outcome.
  destruct (testable (m_state (machine e))) eqn:Hte.
  - destruct Ht as (m2 & -> & Hs2). cbn [fst snd negb].
    rewrite run_bind, run_peek, run_bind, run_peek, run_bind. unfold recordTestOf.
    rewrite (run_locked env _ r name e) by done. cbn [run fst snd].
    destruct (recordTest_state (clock (env (S (S (S k1))))) (Test (channel e) (env (S k1)))
                (AutoEnable (channel e) (env (S (S k1)))) m2 Hs2) as [H1 H2].
    eexists. split; [done |]. by exists (S k1), (S (S k1)).
  - rewrite Ht. cbn [fst snd negb]. rewrite run_bind. unfold bad_state. rewrite run_bind.
    unfold State. rewrite (run_locked env _ r name e) by done. cbn [run from_option id fst snd].
    unfold testable in Hte. destruct (m_state (machine e) =s StateDisabled); [done |]. subst m1.
    by eexists.
Qed.
End registry.

Arguments mkChannel {W Rendered} _ _ _ _ _ _.

(** * Consecutive failures *)

Definition failing (m : stateMachine) (sends : list (Z * Z * error)) : stateMachine :=
  foldl (λ m '(now, latency, e), recordSend now latency (Some e) m) m sends.

(** The state of an active channel after that many failures in a row. *)
Definition rung (n : nat) : string :=
  if (n <? 3)%nat then StateActive else if (n <? 10)%nat then StateDegraded else StateFailed.

Lemma recordSend_failed now latency e m :
  m_state m = StateFailed → m_state (recordSend now latency (Some e) m) = StateFailed.
Proof.
  intros Hs. unfold recordSend. set (m1 := set_lastError _ _).
  assert (m_state m1 = StateFailed) as Hs1 by exact Hs. clearbody m1. unfold toLocked. rewrite Hs1.
  by destruct (FailThreshold <=? m_failures m1), (DegradeThreshold <=? m_failures m1).
Qed.

Lemma recordSend_count now latency e m :
  m_failures (recordSend now latency (Some e) m) = m_failures m +! 1.
Proof.
  unfold recordSend. set (m1 := set_lastError _ _).
  assert (m_failures m1 = m_failures m +! 1) as <- by done. clearbody m1.
  destruct (FailThreshold <=? m_failures m1); [| destruct (DegradeThreshold <=? m_failures m1)];
    [.. | done].
  - by destruct (toLocked_cases now StateFailed m1) as [-> | (m' & -> & _ & _ & _ & Hf)].
  - by destruct (toLocked_cases now StateDegraded m1) as [-> | (m' & -> & _ & _ & _ & Hf)].
Qed.

(** One more failure on each rung. *)
Lemma rung_down now latency e m n :
  m_state m = rung n → m_failures m = wrap64 (Z.of_nat n) →
  m_state (recordSend now latency (Some e) m) = rung (S n).
Proof.
  intros Hs Hf. destruct (decide (10 ≤ n)%nat) as [Hn | Hn].
  - assert (rung n = StateFailed ∧ rung (S n) = StateFailed) as [E ->].
    { unfold rung. destruct (Nat.ltb_spec n 3), (Nat.ltb_spec n 10),
        (Nat.ltb_spec (S n) 3), (Nat.ltb_spec (S n) 10); by try lia. }
    apply recordSend_failed. congruence.
  - destruct m. cbn in Hs, Hf. subst.
    do 10 (destruct n as [| n]; [reflexivity |]). lia.
Qed.

(** Failures in a row take an ACTIVE channel down the ladder and no other
    way: ACTIVE for the first two, DEGRADED from the third to the ninth, FAILED
    from the tenth on, whatever the errors, the latencies and their number; one
    success in between brings a DEGRADED channel back to ACTIVE with a fresh
    count. *)
Theorem failure_ladder m sends :
  m_state m = StateActive → m_failures m = 0 →
  m_state (failing m sends) = rung (length sends) ∧
  m_failures (failing m sends) = wrap64 (Z.of_nat (length sends)) ∧
  ∀ now latency, m_state (failing m sends) = StateDegraded →
    m_state (recordSend now latency None (failing m sends)) = StateActive ∧
    m_failures (recordSend now latency None (failing m sends)) = 0.
Proof.
  intros Hs Hf. assert (m_state (failing m sends) = rung (length sends) ∧
    m_failures (failing m sends) = wrap64 (Z.of_nat (length sends))) as [H1 H2].
  { induction sends as [| [[now latency] e] sends [IH1 IH2]] using rev_ind; [done |].
    unfold failing in *. rewrite foldl_app, length_app, Nat.add_comm. cbn [foldl length Nat.add].
    split; [by apply rung_down |].
    rewrite recordSend_count, IH2, wrap64_wrap64_add. f_equal. lia. }
  split; [done |]. split; [done |]. intros now latency Hd. unfold recordSend, toLocked. cbn.
  by rewrite Hd.
Qed.

Lemma failure_ladder_witness :
  let m := (toLocked 5 StateActive (set_state StateTesting 4 (newStateMachine 3))).2 in
  m_state (failing m (repeat (6, 1, Plain "refused") 4)) = StateDegraded.
Proof.
  intros m.
  destruct (failure_ladder m (repeat (6, 1, Plain "refused") 4) eq_refl eq_refl) as [H _].
  rewrite H. reflexivity.
Defined.

(** * Samples *)

Definition smtp : Channel (W := Z) (Rendered := unit) :=
  mkChannel "smtp" "email" (λ _, None) (λ _, mkTest true true true 1 "accepted" None)
    (λ _ _, None) (λ _, true).

Definition alone (ops : list (Op (W := Z) (Rendered := unit))) : Registry :=
  foldl (λ r op, (run Z.of_nat (handler (λ w, w) op) 0 r).1.2) NewRegistry ops.

Definition state_of (r : Registry (W := Z) (Rendered := unit)) (name : string) : option string :=
  (λ e, m_state (machine e)) <$> items r !! name.

Lemma delivering_channel_was_tested_witness :
  ∃ c (e : registryEntry (W := Z) (Rendered := unit)),
    reachable (handlers (λ w : Z, w)) NewRegistry c
    ∧ items (now_at c) !! "smtp" = Some e ∧ delivers (machine e)
    ∧ passed (seen c) "smtp".
Proof.
  destruct (reachable_run (handlers (λ w : Z, w)) NewRegistry Z.of_nat
              (handler (λ w, w) (OpRegister (Some smtp))) 0 NewRegistry [] []
              _ _ _ (ex_intro _ _ eq_refl) (rtc_refl _ _) eq_refl) as (h1 & ts1 & H1).
  destruct (reachable_run (handlers (λ w : Z, w)) NewRegistry Z.of_nat
              (handler (λ w, w) (OpTest "smtp")) 0 _ h1 ts1
              _ _ _ (ex_intro _ _ eq_refl) H1 eq_refl) as (h2 & ts2 & H2).
  eexists _, _. split; [exact H2 |]. split; [vm_compute; reflexivity |].
  assert (delivers (machine (mkEntry smtp
    (mkMachine StateActive 0 0 0 0 7 (mkTest true true true 1 "accepted" None) 7 "")))) as Hd
    by (left; reflexivity).
  split; [exact Hd |].
  apply (delivering_channel_was_tested (λ w : Z, w) _ "smtp" _ H2 ltac:(vm_compute; reflexivity) Hd).
Defined.

Lemma RegistryTest_alone_witness :
  ∃ r (e : registryEntry (W := Z) (Rendered := unit)), items r !! "smtp" = Some e ∧
    test_outcome Z.of_nat r "smtp" e (run Z.of_nat (RegistryTest (λ w, w) "smtp") 0 r).
Proof.
  eexists (alone [OpRegister (Some smtp)]), _. split; [vm_compute; reflexivity |].
  apply (RegistryTest_alone (λ w : Z, w) Z.of_nat 0 (alone [OpRegister (Some smtp)]) "smtp");
    vm_compute; reflexivity.
Defined.

(** New credentials saved ([Configure]) and never tried: parking the channel and
    activating it again relies on the test of the old ones. *)
Example untested_configuration_delivers :
  state_of (alone [OpRegister (Some smtp); OpTest "smtp"; OpConfigure "smtp";
                   OpMaintenance "smtp"; OpActivate "smtp"]) "smtp" = Some StateActive.
Proof. vm_compute. reflexivity. Qed.
