(* ===== verification/Schedule.v ===== *)
(** Schedule expressions: [src/src/scheduler/schedule.go].

    A five-field cron expression is parsed into five bit masks and searched
    minute by minute, a day at a time where the day does not match.  Instants
    are nanoseconds; the search works on whole seconds.  A location is its fixed
    offset from UTC in seconds (a zone whose offset changes is not modelled).
    [time.ParseDuration] is a parameter of the parser. *)
From stdpp Require Import prelude strings list.
From Stdlib Require Import ZArith Lia Ascii.
From S2P Require Import Prelude GoTime.

(** * Parsing *)

(** [strings.Fields] on ASCII text. *)
Fixpoint fields_go (cur s : string) : list string :=
  let flush := if cur =s "" then [] else [cur] in
  match s with
  | EmptyString => flush
  | String c s' =>
      if is_space c then flush ++ fields_go EmptyString s'
      else fields_go (cur +:+ String c EmptyString) s'
  end.

Definition Fields (s : string) : list string := fields_go EmptyString s.

Record cronField := mkCronField { bits : Z; star : bool }.

(** [uint64(1) << uint(v)]: a negative [v] is a huge shift count. *)
Definition bit64 (v : Z) : Z := if (0 <=? v) && (v <? 64) then Z.shiftl 1 v else 0.

Definition has (f : cronField) (v : Z) : bool :=
  if (v <? 0) || (63 <? v) then false
  else negb (Z.land (bits f) (bit64 v) =? 0).

Definition monthNames : list (string * Z) :=
  [("jan", 1); ("feb", 2); ("mar", 3); ("apr", 4); ("may", 5); ("jun", 6);
   ("jul", 7); ("aug", 8); ("sep", 9); ("oct", 10); ("nov", 11); ("dec", 12)].

Definition dowNames : list (string * Z) :=
  [("sun", 0); ("mon", 1); ("tue", 2); ("wed", 3); ("thu", 4); ("fri", 5); ("sat", 6)].

Definition normalizeDOW (field : string) : string :=
  String.concat "," (map (λ p, if TrimSpace p =s "7" then "0" else p) (Split field ",")).

(** A nil map of names is the empty list. *)
Definition cronValue (token : string) (min max : Z) (names : list (string * Z))
  : Result string Z :=
  let token := ToLower (TrimSpace token) in
  if token =s "" then Err "empty value"
  else
    match assoc token names with
    | Some v => Ok v
    | None =>
        match ParseInt token with
        | None => Err ("invalid value " +:+ quote token)
        | Some v =>
            if (v <? min) || (max <? v) then
              Err ("value " +:+ itoa v +:+ " out of range " +:+ itoa min +:+ "-" +:+ itoa max)
            else Ok v
        end
    end.

(** [for v := low; v <= high; v += step]; the addition may wrap around, and the
    loop ends all the same.  [range_fuel] is more than it ever needs. *)
Fixpoint setRange (fuel : nat) (v high step acc : Z) : Z :=
  match fuel with
  | O => acc
  | S fuel' => if high <? v then acc
               else setRange fuel' (v +! step) high step (Z.lor acc (bit64 v))
  end.

Definition range_fuel : nat := 200.

(** One element of the comma-separated list: its range and step. *)
Record cronItem := mkCronItem { it_low : Z; it_high : Z; it_step : Z; it_star : bool }.

Definition parseStep (item : string) : Result string (string * Z) :=
  let '(before, after, found) := Cut item "/" in
  if negb found then Ok (item, 1)
  else
    let stepStr := TrimSpace after in
    match ParseInt stepStr with
    | Some n => if n <? 1 then Err ("invalid step " +:+ quote stepStr)
                else Ok (TrimSpace before, n)
    | None => Err ("invalid step " +:+ quote stepStr)
    end.

Definition parseItem (field item : string) (min max : Z) (names : list (string * Z))
  : Result string cronItem :=
  let item := TrimSpace item in
  if item =s "" then Err ("empty list element in " +:+ quote field)
  else
    try (item, step) := parseStep item in
    if item =s "*" then Ok (mkCronItem min max step (step =? 1))
    else if Contains item "-" then
      let '(a, b, _) := Cut item "-" in
      try low := cronValue a min max names in
      try high := cronValue b min max names in
      if high <? low then Err ("range " +:+ quote item +:+ " is inverted")
      else Ok (mkCronItem low high step false)
    else
      try v := cronValue item min max names in
      Ok (mkCronItem v (if 1 <? step then max else v) step false).

Fixpoint parseItems (field : string) (items : list string) (min max : Z)
    (names : list (string * Z)) (out : cronField) : Result string cronField :=
  match items with
  | [] => Ok out
  | item :: rest =>
      try it := parseItem field item min max names in
      parseItems field rest min max names
        (mkCronField (setRange range_fuel (it_low it) (it_high it) (it_step it) (bits out))
                     (star out || it_star it))
  end.

Definition parseCronField (field : string) (min max : Z) (names : list (string * Z))
  : Result string cronField :=
  let field := TrimSpace field in
  if field =s "" then Err "empty field"
  else
    try out := parseItems field (Split field ",") min max names (mkCronField 0 false) in
    if bits out =? 0 then Err ("field " +:+ quote field +:+ " matches no values") else Ok out.

Record cronSchedule := mkCronSchedule {
  minute : cronField; hour : cronField; dom : cronField; month : cronField; dow : cronField;
  loc : Z; expr : string }.

(** The two implementations of the [Schedule] interface. *)
Inductive Schedule :=
| SInterval (every : Z) (expr : string)
| SCron (s : cronSchedule).

Definition fieldErr {A} (display what : string) (r : Result string A) : Result string A :=
  match r with
  | Ok a => Ok a
  | Err e => Err ("scheduler: " +:+ quote display +:+ " " +:+ what +:+ " field: " +:+ e)
  end.

Definition parseCron (spec display : string) (loc : Z) : Result string Schedule :=
  match Fields spec with
  | [p0; p1; p2; p3; p4] =>
      try minute := fieldErr display "minute" (parseCronField p0 0 59 []) in
      try hour := fieldErr display "hour" (parseCronField p1 0 23 []) in
      try dom := fieldErr display "day-of-month" (parseCronField p2 1 31 []) in
      try month := fieldErr display "month" (parseCronField p3 1 12 monthNames) in
      try dow := fieldErr display "day-of-week" (parseCronField (normalizeDOW p4) 0 6 dowNames) in
      Ok (SCron (mkCronSchedule minute hour dom month dow loc display))
  | parts =>
      Err ("scheduler: cron expression " +:+ quote display +:+ " must have 5 fields, got " +:+
           itoa (Z.of_nat (length parts)))
  end.

Definition second : Z := 1000000000.

(** [strings.TrimPrefix]. *)
Definition TrimPrefix (s p : string) : string :=
  if HasPrefix s p then String.substring (String.length p) (String.length s - String.length p) s
  else s.

Section parser.
Context (ParseDuration : string → Result string Z).

Definition parseDescriptor (raw : string) (loc : Z) : Result string Schedule :=
  let lower := ToLower raw in
  if HasPrefix lower "@every" then
    let arg := TrimSpace (TrimPrefix lower "@every") in
    if arg =s "" then Err ("scheduler: @every requires a duration: " +:+ quote raw)
    else
      match ParseDuration arg with
      | Err e => Err ("scheduler: invalid @every duration " +:+ quote arg +:+ ": " +:+ e)
      | Ok d =>
          if d <? second then
            Err ("scheduler: @every duration must be at least 1s: " +:+ quote raw)
          else Ok (SInterval d raw)
      end
  else if lower =s "@hourly" then parseCron "0 * * * *" raw loc
  else if (lower =s "@daily") || (lower =s "@midnight") then parseCron "0 0 * * *" raw loc
  else if lower =s "@weekly" then parseCron "0 0 * * 0" raw loc
  else if lower =s "@monthly" then parseCron "0 0 1 * *" raw loc
  else if (lower =s "@yearly") || (lower =s "@annually") then parseCron "0 0 1 1 *" raw loc
  else Err ("scheduler: unknown schedule descriptor " +:+ quote raw).

Definition ParseSchedule (e : string) (loc : Z) : Result string Schedule :=
  let raw := TrimSpace e in
  if raw =s "" then Err "scheduler: empty schedule expression"
  else if HasPrefix raw "@" then parseDescriptor raw loc
  else parseCron raw raw loc.

End parser.

(** * The next execution time *)

Definition maxCronSearchDays : Z := 1500.

(** The wall clock of a location. *)
Definition matchDay (s : cronSchedule) (t : Z) : bool :=
  let t := t + loc s in
  if negb (has (month s) (TMonth t)) then false
  else
    let domMatch := has (dom s) (TDay t) in
    let dowMatch := has (dow s) (TWeekday t) in
    if negb (star (dom s)) && negb (star (dow s)) then domMatch || dowMatch
    else domMatch && dowMatch.

(** Midnight of the day of [t], one day on. *)
Definition nextDay (loc t : Z) : Z :=
  let l := t + loc in
  AddDate (TimeDate (TYear l) (TMonth l) (TDay l) 0 0 0) 0 0 1 - loc.

Fixpoint search (fuel : nat) (s : cronSchedule) (t limit : Z) : Z :=
  match fuel with
  | O => zero_time
  | S fuel' =>
      if negb (t <? limit) then zero_time
      else if negb (matchDay s t) then search fuel' s (nextDay (loc s) t) limit
      else if has (hour s) (THour (t + loc s)) && has (minute s) (TMinute (t + loc s)) then t
      else search fuel' s (t + 60) limit
  end.

(** One iteration per minute of the window, and one to leave it. *)
Definition search_fuel : nat := Z.to_nat (maxCronSearchDays * 1440 + 1).

(** The first minute boundary after an instant, and the end of the window. *)
Definition firstMinute (loc after : Z) : Z :=
  let a := after + loc in
  TimeDate (TYear a) (TMonth a) (TDay a) (THour a) (TMinute a) 0 - loc + 60.

Definition searchLimit (loc t : Z) : Z := AddDate (t + loc) 0 0 maxCronSearchDays - loc.

Definition cronNext (s : cronSchedule) (after : Z) : Z :=
  let t := firstMinute (loc s) after in
  search search_fuel s t (searchLimit (loc s) t).

(** [Schedule.Next], on nanoseconds. *)
Definition Next (s : Schedule) (after : Z) : Z :=
  match s with
  | SInterval every _ => after + every
  | SCron c => cronNext c (after / second) * second
  end.

Definition ScheduleString (s : Schedule) : string :=
  match s with SInterval _ e => e | SCron c => expr c end.

(** * Bit masks *)

Lemma bit64_testbit v b : 0 ≤ v < 64 → 0 ≤ b → Z.testbit (bit64 v) b = (b =? v).
Proof.
  intros Hv Hb. unfold bit64.
  destruct (Z.leb_spec 0 v), (Z.ltb_spec v 64); try lia. simpl.
  rewrite Z.shiftl_1_l, Z.pow2_bits_eqb by lia. apply Z.eqb_sym.
Qed.

Lemma has_testbit f v : 0 ≤ v < 64 → has f v = Z.testbit (bits f) v.
Proof.
  intros Hv. unfold has.
  destruct (Z.ltb_spec v 0), (Z.ltb_spec 63 v); try lia. simpl.
  destruct (Z.testbit (bits f) v) eqn:E.
  - apply negb_true_iff, Z.eqb_neq. intros Hz.
    assert (Z.testbit (Z.land (bits f) (bit64 v)) v = false) as Hf by (rewrite Hz; apply Z.bits_0).
    by rewrite Z.land_spec, E, bit64_testbit, Z.eqb_refl in Hf by lia.
  - apply negb_false_iff, Z.eqb_eq. apply Z.bits_inj'. intros b Hb.
    rewrite Z.land_spec, Z.bits_0, bit64_testbit by lia.
    destruct (Z.eqb_spec b v) as [->|]; [by rewrite E|apply andb_false_r].
Qed.

Lemma has_range f v : has f v = true → 0 ≤ v < 64.
Proof. unfold has. destruct (Z.ltb_spec v 0), (Z.ltb_spec 63 v); try done; lia. Qed.

(** What a range with a step covers. *)
Definition covers (low high step b : Z) : Prop := low ≤ b ≤ high ∧ (b - low) mod step = 0.

#[global] Instance covers_dec low high step b : Decision (covers low high step b).
Proof. unfold covers. apply _. Defined.

Lemma covers_step v high step b : 0 < step → v ≤ high →
  covers v high step b ↔ b = v ∨ covers (v + step) high step b.
Proof.
  intros Hs Hv. unfold covers. split.
  - intros [Hb Hm]. destruct (Z.eq_dec b v) as [->|Hn]; [by left|right].
    apply Z.mod_divide in Hm as [q Hq]; [|lia].
    assert (1 ≤ q) by nia. split; [nia|].
    replace (b - (v + step)) with ((q - 1) * step) by lia. apply Z.mod_mul. lia.
  - intros [->|[Hb Hm]]; [rewrite Z.sub_diag; split; [lia|done]|].
    apply Z.mod_divide in Hm as [q Hq]; [|lia]. split; [lia|].
    replace (b - v) with ((q + 1) * step) by lia. apply Z.mod_mul. lia.
Qed.

(** Away from overflow the loop sets exactly the bits its range covers. *)
Lemma setRange_testbit fuel v high step acc b :
  0 ≤ v < 128 → high < 64 → 0 < step ≤ max_int64 - 128 → 0 ≤ b →
  high - v < Z.of_nat fuel →
  Z.testbit (setRange fuel v high step acc) b =
  Z.testbit acc b || bool_decide (covers v high step b).
Proof.
  revert v acc. induction fuel as [|fuel IH]; intros v acc Hv Hh Hs Hb Hf; simpl.
  - rewrite bool_decide_eq_false_2, orb_false_r; [done|]. unfold covers. lia.
  - destruct (Z.ltb_spec high v) as [Hlt|Hle].
    + rewrite bool_decide_eq_false_2, orb_false_r; [done|]. unfold covers. lia.
    + rewrite (wrap64_id (v + step)) by (unfold max_int64 in *; int64).
      rewrite <-(bool_decide_ext _ _ (iff_sym (covers_step v high step b ltac:(lia) Hle))).
      destruct (Z.le_gt_cases (v + step) high) as [Hin|Hout].
      * rewrite IH by lia. rewrite Z.lor_spec, bit64_testbit by lia. rewrite <-orb_assoc. f_equal.
        destruct (Z.eqb_spec b v) as [->|]; simpl.
        -- symmetry. apply bool_decide_eq_true_2. by left.
        -- apply bool_decide_ext. naive_solver.
      * assert (setRange fuel (v + step) high step (Z.lor acc (bit64 v)) = Z.lor acc (bit64 v)) as ->.
        { destruct fuel; simpl; [done|]. by destruct (Z.ltb_spec high (v + step)); [|lia]. }
        rewrite Z.lor_spec, bit64_testbit by lia. f_equal.
        destruct (Z.eqb_spec b v) as [->|]; symmetry.
        -- apply bool_decide_eq_true_2. by left.
        -- apply bool_decide_eq_false_2. unfold covers. lia.
Qed.

(** * Parsed fields *)

Section field.
Context (field : string) (min max : Z) (names : list (string * Z)).
Context (Hbounds : 0 ≤ min ≤ max ∧ max < 64) (Hnames : Forall (λ p, min ≤ p.2 ≤ max) names).

Lemma cronValue_range token v : cronValue token min max names = Ok v → min ≤ v ≤ max.
Proof using Hbounds Hnames.
  unfold cronValue. cbv zeta. case_match; [done|].
  destruct (assoc _ names) as [n|] eqn:E.
  - intros [= <-]. apply assoc_Some_in in E. rewrite Forall_forall in Hnames.
    exact (Hnames _ E).
  - destruct (ParseInt _) as [n|]; [|done].
    destruct (Z.ltb_spec n min), (Z.ltb_spec max n); simpl; try done. intros [= <-]. lia.
Qed.

Lemma parseStep_pos item rest n : parseStep item = Ok (rest, n) → 1 ≤ n.
Proof.
  unfold parseStep. destruct (Cut item "/") as [[a b] found]. destruct found; simpl.
  - destruct (ParseInt _) as [k|]; [|done]. destruct (Z.ltb_spec k 1); [done|].
    intros [= _ <-]. lia.
  - intros [= _ <-]. lia.
Qed.

Lemma parseItem_range item it : parseItem field item min max names = Ok it →
  min ≤ it_low it ≤ it_high it ∧ it_high it ≤ max ∧ 1 ≤ it_step it.
Proof using Hbounds Hnames.
  unfold parseItem. cbv zeta. case_match; [done|].
  destruct (parseStep _) as [[rest step]|] eqn:Es; [|done]. apply parseStep_pos in Es.
  destruct (rest =s "*"); [intros [= <-]; simpl; lia|].
  destruct (Contains rest "-").
  - destruct (Cut rest "-") as [[a b] _].
    destruct (cronValue a min max names) as [low|] eqn:Ea; [|done].
    destruct (cronValue b min max names) as [high|] eqn:Eb; [|done].
    apply cronValue_range in Ea, Eb. destruct (Z.ltb_spec high low); [done|].
    intros [= <-]. simpl. lia.
  - destruct (cronValue rest min max names) as [v|] eqn:Ev; [|done].
    apply cronValue_range in Ev. intros [= <-]. simpl. destruct (1 <? step); lia.
Qed.

(** A value is allowed by an element of the list. *)
Definition allowed (items : list string) (b : Z) : Prop :=
  ∃ item it, item ∈ items ∧ parseItem field item min max names = Ok it ∧
    covers (it_low it) (it_high it) (it_step it) b.

(** No step is so large that stepping past the end wraps around. *)
Definition modest (items : list string) : Prop :=
  ∀ item it, item ∈ items → parseItem field item min max names = Ok it →
    it_step it ≤ max_int64 - 128.

Lemma parseItems_testbit items out f b :
  parseItems field items min max names out = Ok f → modest items → 0 ≤ b →
  Z.testbit (bits f) b = true ↔ Z.testbit (bits out) b = true ∨ allowed items b.
Proof using Hbounds Hnames.
  intros Hp Hm Hb. revert out Hp. induction items as [|item items IH]; intros out; cbn [parseItems].
  - intros [= <-]. split; [by left|]. intros [H|(? & ? & Hin & _)]; [done|]. by apply elem_of_nil in Hin.
  - destruct (parseItem field item min max names) as [it|] eqn:Ei; [|done]. intros Hp.
    assert (modest items) as Hm' by (intros i j Hin; apply Hm; by right).
    rewrite (IH Hm' _ Hp). cbn [bits]. pose proof (parseItem_range item it Ei) as Hr.
    pose proof (Hm item it ltac:(left) Ei) as Hstep.
    rewrite setRange_testbit by (unfold range_fuel; lia).
    rewrite orb_true_iff, bool_decide_eq_true. unfold allowed. split.
    + intros [[H|H]|(i & j & Hin & H)]; [by left|right|right].
      * exists item, it. split; [left|done].
      * exists i, j. split; [by right|done].
    + intros [H|(i & j & Hin & Hj & H)]; [by left; left|].
      apply elem_of_cons in Hin as [->|Hin]; [|right; by exists i, j].
      rewrite Ei in Hj. injection Hj as <-. by left; right.
Qed.

End field.

Lemma Split_cons s sep : Split s sep ≠ [].
Proof.
  unfold Split. generalize "". induction s as [|c s IH]; intros cur; simpl; [done|].
  by destruct (Ascii.eqb c sep).
Qed.

(** A field that parses allows exactly the values its comma-separated
    elements cover (a star, a value, a range, each with an optional step), all of
    them within the field's bounds and at least one. *)
Theorem parseCronField_spec field min max names f
    (Hbounds : 0 ≤ min ≤ max ∧ max < 64) (Hnames : Forall (λ p, min ≤ p.2 ≤ max) names)
    (Hok : parseCronField field min max names = Ok f)
    (Hstep : modest (TrimSpace field) min max names (Split (TrimSpace field) ",")) :
  (∀ v, has f v = true ↔
        allowed (TrimSpace field) min max names (Split (TrimSpace field) ",") v) ∧
  (∀ v, has f v = true → min ≤ v ≤ max) ∧
  (∃ v, has f v = true).
Proof.
  unfold parseCronField in Hok. cbv zeta in Hok. case_match; [done|].
  set (items := Split (TrimSpace field) ",") in *.
  destruct (parseItems _ items _ _ _ _) as [out|] eqn:Ep; [|done].
  destruct (bits out =? 0); [done|]. injection Hok as ->.
  assert (∀ v, allowed (TrimSpace field) min max names items v → min ≤ v ≤ max) as Hr.
  { intros v (item & it & _ & Hi & [Hv _]).
    pose proof (parseItem_range _ min max names Hbounds Hnames item it Hi). lia. }
  assert (∀ v, has f v = true ↔ allowed (TrimSpace field) min max names items v) as Hiff.
  { intros v. pose proof (parseItems_testbit _ min max names Hbounds Hnames items _ f v Ep Hstep) as Ht.
    split.
    - intros Hv. pose proof (has_range f v Hv). rewrite has_testbit in Hv by lia.
      apply Ht in Hv as [Hz|]; [|done|lia]. simpl in Hz. by rewrite Z.bits_0 in Hz.
    - intros Hv. pose proof (Hr v Hv). rewrite has_testbit by lia. apply Ht; [lia|by right]. }
  split; [done|]. split; [intros v Hv; by apply Hr, Hiff|].
  destruct items as [|item rest] eqn:Es; [by apply Split_cons in Es|]. simpl in Ep.
  destruct (parseItem _ item _ _ _) as [it|] eqn:Ei; [|done].
  exists (it_low it). apply Hiff. exists item, it. split; [left|]. split; [done|].
  pose proof (parseItem_range _ min max names Hbounds Hnames item it Ei).
  unfold covers. rewrite Z.sub_diag. split; [lia|done].
Qed.

Lemma parseCronField_spec_witness :
  ∃ f, parseCronField "1-9/4,30" 0 59 [] = Ok f ∧ has f 9 = true ∧
       ∀ v, has f v = true → 0 ≤ v ≤ 59.
Proof.
  eexists. split; [vm_compute; reflexivity|]. split; [reflexivity|].
  refine (proj1 (proj2 (parseCronField_spec "1-9/4,30" 0 59 [] _ _ _ _ _))).
  - lia.
  - constructor.
  - vm_compute. reflexivity.
  - intros item it Hin. vm_compute in Hin.
    apply elem_of_cons in Hin as [->|Hin].
    { intros Hi. vm_compute in Hi. injection Hi as <-. vm_compute. discriminate. }
    apply elem_of_cons in Hin as [->|Hin%elem_of_nil]; [|done].
    intros Hi. vm_compute in Hi. injection Hi as <-. vm_compute. discriminate.
Defined.

(** * The search *)

Lemma AddDate_days t n : AddDate t 0 0 n = t + n * day_seconds.
Proof.
  unfold AddDate. rewrite !Z.add_0_r. rewrite TimeDate_valid by apply TDate_valid.
  pose proof (TimeDate_TDate t) as Ht. rewrite TimeDate_valid in Ht by apply TDate_valid.
  pose proof (days_from_civil_day (TYear t) (TMonth t) (TDay t + n)).
  pose proof (days_from_civil_day (TYear t) (TMonth t) (TDay t)). unfold day_seconds in *. lia.
Qed.

Lemma nextDay_midnight loc t : nextDay loc t + loc = ((t + loc) / day_seconds + 1) * day_seconds.
Proof.
  unfold nextDay. rewrite AddDate_days, TimeDate_valid by apply TDate_valid.
  rewrite TDate_days. lia.
Qed.

Lemma firstMinute_next loc after : firstMinute loc after + loc = ((after + loc) / 60 + 1) * 60.
Proof.
  unfold firstMinute. rewrite TimeDate_valid by apply TDate_valid. rewrite TDate_days.
  unfold THour, TMinute, day_seconds. divlia.
Qed.

(** The rule of a day only looks at the day. *)
Lemma matchDay_day s t u :
  (t + loc s) / day_seconds = (u + loc s) / day_seconds → matchDay s t = matchDay s u.
Proof. intros H. unfold matchDay, TMonth, TDay, TWeekday, TDate. by rewrite H. Qed.

(** When a cron schedule fires: at the start of a minute whose day, hour and
    minute are allowed. *)
Definition fires (s : cronSchedule) (u : Z) : bool :=
  ((u + loc s) mod 60 =? 0) && matchDay s u && has (hour s) (THour (u + loc s)) &&
  has (minute s) (TMinute (u + loc s)).

Definition silent (s : cronSchedule) (a b : Z) : Prop := ∀ u, a ≤ u < b → fires s u = false.

Lemma silent_app s a b c : silent s a b → silent s b c → silent s a c.
Proof. intros H1 H2 u Hu. destruct (Z.lt_ge_cases u b); [apply H1|apply H2]; lia. Qed.

(** Between two minute boundaries nothing fires. *)
Lemma silent_minute s t : (t + loc s) mod 60 = 0 → silent s (t + 1) (t + 60).
Proof.
  intros Ht u Hu. unfold fires.
  destruct (Z.eqb_spec ((u + loc s) mod 60) 0) as [Hm|]; [|done]. divlia.
Qed.

Lemma silent_day s t : matchDay s t = false → silent s t (nextDay (loc s) t).
Proof.
  intros Hd u Hu. unfold fires. rewrite (matchDay_day s u t), Hd; [by rewrite andb_false_r|].
  pose proof (nextDay_midnight (loc s) t). unfold day_seconds in *. divlia.
Qed.

Lemma search_spec fuel s t limit :
  (t + loc s) mod 60 = 0 → limit - t ≤ 60 * Z.of_nat fuel →
  let r := search fuel s t limit in
  (t ≤ r < limit ∧ fires s r = true ∧ silent s t r) ∨ (r = zero_time ∧ silent s t limit).
Proof.
  revert t. induction fuel as [|fuel IH]; intros t Ht Hf; simpl.
  - right. split; [done|]. intros u Hu. lia.
  - destruct (Z.ltb_spec t limit) as [Hl|Hl]; simpl; [|right; split; [done|intros u Hu; lia]].
    destruct (matchDay s t) eqn:Hd; simpl.
    + destruct (has (hour s) _ && has (minute s) _) eqn:Hm.
      * left. split; [lia|]. split; [|intros u Hu; lia]. unfold fires.
        rewrite Ht, Hd. by rewrite <-andb_assoc, Hm.
      * assert (silent s t (t + 60)) as H1.
        { apply (silent_app s t (t + 1)); [|by apply silent_minute].
          intros u Hu. replace u with t by lia. unfold fires.
          by rewrite <-andb_assoc, Hm, andb_false_r. }
        destruct (IH (t + 60)) as [(Hr & Hfi & Hs)|[Hr Hs]]; [divlia|lia|left|right].
        -- split; [lia|]. split; [done|]. by eapply silent_app.
        -- split; [done|]. by eapply silent_app.
    + pose proof (nextDay_midnight (loc s) t) as Hn. pose proof (silent_day s t Hd) as H1.
      unfold day_seconds in Hn.
      destruct (IH (nextDay (loc s) t)) as [(Hr & Hfi & Hs)|[Hr Hs]]; [divlia|divlia|left|right].
      * split; [divlia|]. split; [done|]. by eapply silent_app.
      * split; [done|]. by eapply silent_app.
Qed.


(** A parser of durations for the examples: none is ever read. *)
Definition no_duration (s : string) : Result string Z := Err "time: invalid duration".

(** The bound on the search is shorter than the longest gap between leap
    days: scheduled on the 29th of February, a task that last ran in 2096 is told
    that it never runs again, although its expression matches in 2104. *)
Theorem leap_day_given_up :
  ∃ c, ParseSchedule no_duration "0 0 29 2 *" 0 = Ok (SCron c) ∧
    Next (SCron c) (TimeDate 2096 3 1 0 0 0 * second) = zero_time * second ∧
    fires c (TimeDate 2104 2 29 0 0 0) = true.
Proof.
  eexists. split; [vm_compute; reflexivity|]. split; vm_compute; reflexivity.
Qed.

(** A step near the largest integer wraps around past the end of the range:
    an expression for minute 59 alone also fires at minute 57. *)
Theorem giant_step_wraps :
  ∃ f, parseCronField "59/9223372036854775807" 0 59 [] = Ok f ∧ has f 59 = true ∧ has f 57 = true.
Proof. eexists. split; [vm_compute; reflexivity|]. split; reflexivity. Qed.
