(* ===== verification/Scheduler.v ===== *)
(** The task scheduler: [src/src/scheduler/scheduler.go], [builtin.go] and the
    records of [state.go].

    Each lock of the scheduler's mutex is one section of a [prog]; the calls in
    between (the cluster lock, the task's own function) are sections of their
    own, so any goroutine may run between them.  A task function takes time: it
    enters and leaves, and [inside] holds the calls in progress.  The world
    answers the clock, the outcomes of the functions and of saving and loading
    the state document.  The ticker of [loop] is the environment: [dispatchDue]
    may start at any moment.  Entries are never removed from the registry, so a
    pointer to one is its name.  Log lines and the notification of a failed run
    change none of this state and are left out. *)
From stdpp Require Import prelude strings list gmap gmultiset sorting.
From Stdlib Require Import ZArith Lia.
From S2P Require Import Prelude GoTime Schedule Threads.

#[local] Open Scope prog_scope.

(** * Constants (nanoseconds) *)

Definition Minute : Z := 60 * second.
Definition Hour : Z := 60 * Minute.
Definition DefaultCatchUpWindow : Z := Hour.
Definition DefaultMaxRetries : Z := 3.
Definition DefaultRetryDelay : Z := 5 * Minute.
Definition DefaultLockTTL : Z := 5 * Minute.

Definition StatusPending : string := "pending".
Definition StatusSuccess : string := "success".
Definition StatusFailed : string := "failed".
Definition StatusSkipped : string := "skipped".

(** The zero [time.Time]. *)
Definition never : Z := zero_time * second.

Definition ErrNotFound : string := "scheduler: task not found".

(** * Built-in tasks *)

Definition TaskSSLRenewal : string := "ssl_renewal".
Definition TaskGeoIPUpdate : string := "geoip_update".
Definition TaskBlocklistUpdate : string := "blocklist_update".
Definition TaskCVEUpdate : string := "cve_update".
Definition TaskUpdateCheck : string := "update_check".
Definition TaskSessionCleanup : string := "session_cleanup".
Definition TaskTokenCleanup : string := "token_cleanup".
Definition TaskLogRotation : string := "log_rotation".
Definition TaskBackupDaily : string := "backup_daily".
Definition TaskBackupHourly : string := "backup_hourly".
Definition TaskHealthcheckSelf : string := "healthcheck_self".
Definition TaskTorHealth : string := "tor_health".
Definition TaskI2PHealth : string := "i2p_health".
Definition TaskClusterHeartbeat : string := "cluster_heartbeat".

Record BuiltinSpec := mkSpec {
  b_Name : string; b_Title : string; b_Schedule : string; b_Description : string;
  b_ClusterWide : bool; b_CatchUp : bool; b_DefaultEnabled : bool; b_Required : bool;
  b_Conditional : string; b_RetryOnFail : bool; b_RetryDelay : Z }.

Definition builtinSpecs : list BuiltinSpec :=
  [mkSpec TaskSSLRenewal "SSL Renewal" "0 3 * * *"
     "Renew Let's Encrypt certificates 7 days before expiry"
     true true true true "" false 0;
   mkSpec TaskGeoIPUpdate "GeoIP Update" "0 3 * * 0"
     "Download and update the ip-location-db GeoIP databases"
     true true true false "" false 0;
   mkSpec TaskBlocklistUpdate "Blocklist Update" "0 4 * * *"
     "Download and update IP and domain blocklists"
     true true true false "" true Hour;
   mkSpec TaskCVEUpdate "CVE Update" "0 5 * * *"
     "Download and update CVE and security databases"
     true true true false "" true Hour;
   mkSpec TaskUpdateCheck "Update Check" "0 6 * * *"
     "Check the release channel for a newer version; notify only unless update.auto_install is true"
     true true true false "" false 0;
   mkSpec TaskSessionCleanup "Session Cleanup" "@every 15m"
     "Remove expired sessions"
     false true true true "" false 0;
   mkSpec TaskTokenCleanup "Token Cleanup" "@every 15m"
     "Remove expired tokens"
     false true true true "" false 0;
   mkSpec TaskLogRotation "Log Rotation" "0 0 * * *"
     "Rotate and compress old logs using each log's server.logs policy"
     false true true true "" false 0;
   mkSpec TaskBackupDaily "Backup Daily" "0 2 * * *"
     "Full backup plus daily incremental, verified after creation"
     true true true false "" false 0;
   mkSpec TaskBackupHourly "Backup Hourly" "@hourly"
     "Hourly incremental backup since the daily full backup"
     true false false false "" false 0;
   mkSpec TaskHealthcheckSelf "Health Check" "@every 5m"
     "Self-health verification"
     false false true true "" false 0;
   mkSpec TaskTorHealth "Tor Health" "@every 10m"
     "Check Tor connectivity and restart the service if unhealthy"
     false false true false "Tor is installed" false 0;
   mkSpec TaskI2PHealth "I2P Health" "@every 10m"
     "Check the I2P provider and restart it if unhealthy"
     false false true false "I2P opt-in is enabled" false 0;
   mkSpec TaskClusterHeartbeat "Cluster Heartbeat" "@every 30s"
     "Publish this node's cluster heartbeat"
     false false true false "cluster mode is enabled" false 0].

Definition Builtin (name : string) : option BuiltinSpec :=
  find (λ spec, b_Name spec =s name) builtinSpecs.

(** * The interface to the cluster lock *)

(** What package scheduler asks of a [Locker], on its state [L]; the error comes
    with the answer, as in Go. *)
Record Locker (W L : Type) := mkLocker {
  Acquire : W → string → string → Z → L → bool * option string * L;
  Release : W → string → string → L → option string * L }.
Arguments mkLocker {W L} _ _.
Arguments Acquire {W L} _ _ _ _ _ _.
Arguments Release {W L} _ _ _ _ _.

(** [noopLocker]: the error is that of the context. *)
Definition noopLocker {W L} (ctxErr : W → option string) : Locker W L :=
  mkLocker (λ w _ _ _ l, (true, ctxErr w, l)) (λ w _ _ l, (ctxErr w, l)).

(** * Records *)

Record TaskState := mkState {
  TaskID : string; TaskName : string; st_Schedule : string; LastRun : Z; LastStatus : string;
  LastError : string; NextRun : Z; RunCount : Z; FailCount : Z; st_Enabled : bool;
  LockedBy : string; LockedAt : Z }.

Record Options := mkOptions {
  StateDir : string; NodeID : string; CatchUpWindow : Z; Location : Z; LockTTL : Z }.

Section scheduler.
Context {W L : Type}.

(** A moment: the clock, whether the context is cancelled and the shutdown
    timer has fired, and the outcomes of creating the state directory, loading
    and saving the state document. *)
Context (clock : W → Z) (canceled timed_out : W → bool)
        (mkdir_err load_err save_err : W → option string)
        (parse_duration : string → Result string Z) (locker : Locker W L).

Record Task := mkTask {
  Name : string; t_Schedule : string; CatchUp : bool; ClusterWide : bool;
  Run : option (W → option string); Title : string; Description : string; Disabled : bool;
  MaxRetries : Z; RetryDelay : Z }.

Record taskEntry := mkEntry {
  def : Task; schedule : option Schedule; builtin : bool; required : bool;
  running : bool; attempts : Z }.

(** [state] is the document in memory, [saved] the one on disk; [inside] are
    the task functions in progress. *)
Record Scheduler := mkScheduler {
  opts : Options; tasks : gmap string taskEntry; order : list string;
  state : gmap string TaskState; started : bool; stopped : bool;
  saved : option (gmap string TaskState); locks : L; inside : gmultiset string }.

Notation P := (prog Scheduler W).

(** ** Field updates *)

Definition set_tasks (t : gmap string taskEntry) (s : Scheduler) : Scheduler :=
  mkScheduler (opts s) t (order s) (state s) (started s) (stopped s) (saved s) (locks s) (inside s).
Definition set_order (o : list string) (s : Scheduler) : Scheduler :=
  mkScheduler (opts s) (tasks s) o (state s) (started s) (stopped s) (saved s) (locks s) (inside s).
Definition set_states (m : gmap string TaskState) (s : Scheduler) : Scheduler :=
  mkScheduler (opts s) (tasks s) (order s) m (started s) (stopped s) (saved s) (locks s) (inside s).
Definition set_flags (started stopped : bool) (s : Scheduler) : Scheduler :=
  mkScheduler (opts s) (tasks s) (order s) (state s) started stopped (saved s) (locks s) (inside s).
Definition set_saved (d : option (gmap string TaskState)) (s : Scheduler) : Scheduler :=
  mkScheduler (opts s) (tasks s) (order s) (state s) (started s) (stopped s) d (locks s) (inside s).
Definition set_locks (l : L) (s : Scheduler) : Scheduler :=
  mkScheduler (opts s) (tasks s) (order s) (state s) (started s) (stopped s) (saved s) l (inside s).
Definition set_inside (i : gmultiset string) (s : Scheduler) : Scheduler :=
  mkScheduler (opts s) (tasks s) (order s) (state s) (started s) (stopped s) (saved s) (locks s) i.

Definition set_entry (name : string) (e : taskEntry) (s : Scheduler) : Scheduler :=
  set_tasks (<[name := e]> (tasks s)) s.
Definition set_state (id : string) (st : TaskState) (s : Scheduler) : Scheduler :=
  set_states (<[id := st]> (state s)) s.

Definition with_running (b : bool) (e : taskEntry) : taskEntry :=
  mkEntry (def e) (schedule e) (builtin e) (required e) b (attempts e).
Definition with_attempts (n : Z) (e : taskEntry) : taskEntry :=
  mkEntry (def e) (schedule e) (builtin e) (required e) (running e) n.
Definition with_def (d : Task) (sched : option Schedule) (e : taskEntry) : taskEntry :=
  mkEntry d sched (builtin e) (required e) (running e) (attempts e).
Definition with_Run (run : W → option string) (t : Task) : Task :=
  mkTask (Name t) (t_Schedule t) (CatchUp t) (ClusterWide t) (Some run) (Title t)
    (Description t) (Disabled t) (MaxRetries t) (RetryDelay t).
Definition with_Schedule (expr : string) (t : Task) : Task :=
  mkTask (Name t) expr (CatchUp t) (ClusterWide t) (Run t) (Title t)
    (Description t) (Disabled t) (MaxRetries t) (RetryDelay t).
Definition with_names (name title : string) (t : Task) : Task :=
  mkTask name (t_Schedule t) (CatchUp t) (ClusterWide t) (Run t) title
    (Description t) (Disabled t) (MaxRetries t) (RetryDelay t).

Definition with_next (next : Z) (st : TaskState) : TaskState :=
  mkState (TaskID st) (TaskName st) (st_Schedule st) (LastRun st) (LastStatus st) (LastError st)
    next (RunCount st) (FailCount st) (st_Enabled st) (LockedBy st) (LockedAt st).
Definition with_enabled (b : bool) (st : TaskState) : TaskState :=
  mkState (TaskID st) (TaskName st) (st_Schedule st) (LastRun st) (LastStatus st) (LastError st)
    (NextRun st) (RunCount st) (FailCount st) b (LockedBy st) (LockedAt st).
Definition with_lock (by_ : string) (at_ : Z) (st : TaskState) : TaskState :=
  mkState (TaskID st) (TaskName st) (st_Schedule st) (LastRun st) (LastStatus st) (LastError st)
    (NextRun st) (RunCount st) (FailCount st) (st_Enabled st) by_ at_.
Definition with_expr (expr : string) (st : TaskState) : TaskState :=
  mkState (TaskID st) (TaskName st) expr (LastRun st) (LastStatus st) (LastError st)
    (NextRun st) (RunCount st) (FailCount st) (st_Enabled st) (LockedBy st) (LockedAt st).
Definition with_identity (id title expr status : string) (st : TaskState) : TaskState :=
  mkState id title expr (LastRun st) status (LastError st)
    (NextRun st) (RunCount st) (FailCount st) (st_Enabled st) (LockedBy st) (LockedAt st).
Definition with_status (status : string) (st : TaskState) : TaskState :=
  mkState (TaskID st) (TaskName st) (st_Schedule st) (LastRun st) status (LastError st)
    (NextRun st) (RunCount st) (FailCount st) (st_Enabled st) (LockedBy st) (LockedAt st).
Definition with_success (now : Z) (st : TaskState) : TaskState :=
  mkState (TaskID st) (TaskName st) (st_Schedule st) now (LastStatus st) ""
    (NextRun st) (RunCount st +! 1) (FailCount st) (st_Enabled st) (LockedBy st) (LockedAt st).
Definition with_failure (now : Z) (err : string) (st : TaskState) : TaskState :=
  mkState (TaskID st) (TaskName st) (st_Schedule st) now (LastStatus st) err
    (NextRun st) (RunCount st) (FailCount st +! 1) (st_Enabled st) (LockedBy st) (LockedAt st).

(** * Creation and registration *)

Definition spec_task (b : BuiltinSpec) : Task :=
  mkTask (b_Name b) (b_Schedule b) (b_CatchUp b) (b_ClusterWide b) None (b_Title b)
    (b_Description b) (negb (b_DefaultEnabled b)) DefaultMaxRetries (b_RetryDelay b).

(** The defaults of [New]: [zone] is the location given or, without one, what
    loading the default time zone gives; [host] is the host name. *)
Definition default_options (o : Options) (zone : option Z) (host : option string) : Options :=
  mkOptions (StateDir o)
    (if TrimSpace (NodeID o) =s "" then
       match host with Some h => if h =s "" then "node" else h | None => "node" end
     else NodeID o)
    (if CatchUpWindow o <=? 0 then DefaultCatchUpWindow else CatchUpWindow o)
    (default 0 zone)
    (if LockTTL o <=? 0 then DefaultLockTTL else LockTTL o).

Definition add_builtin (s : Scheduler) (spec : BuiltinSpec) : Scheduler :=
  let d := spec_task spec in
  let sched :=
    match ParseSchedule parse_duration (t_Schedule d) (Location (opts s)) with
    | Ok sc => Some sc
    | Err _ => None
    end in
  set_order (order s ++ [Name d])
    (set_entry (Name d) (mkEntry d sched true (b_Required spec) false 0) s).

Definition New (o : Options) (zone : option Z) (host : option string) (l : L)
    (disk : option (gmap string TaskState)) : Scheduler :=
  foldl add_builtin
    (mkScheduler (default_options o zone host) ∅ [] ∅ false false disk l ∅) builtinSpecs.

Definition Register (t : Task) : P (option string) :=
  let name := TrimSpace (Name t) in
  if name =s "" then Ret (Some "scheduler: task name is required") else
  match Run t with
  | None => Ret (Some ("scheduler: task " +:+ quote name +:+ " has no Run function"))
  | Some _ => atomic (λ _ s,
      match ParseSchedule parse_duration (t_Schedule t) (Location (opts s)) with
      | Err e => (Some e, s)
      | Ok sched =>
          let t := with_names name (if Title t =s "" then name else Title t) t in
          if started s then
            (Some ("scheduler: cannot register " +:+ quote name +:+ " after Start"), s)
          else
            match tasks s !! name with
            | Some existing =>
                if negb (builtin existing) then
                  (Some ("scheduler: task " +:+ quote name +:+ " is already registered"), s)
                else (None, set_entry name (with_def t (Some sched) existing) s)
            | None =>
                (None, set_order (order s ++ [name])
                         (set_entry name (mkEntry t (Some sched) false false false 0) s))
            end
      end)
  end.

Definition not_found (what name : string) : string :=
  "scheduler: " +:+ what +:+ " " +:+ quote name +:+ ": " +:+ ErrNotFound.

Definition Bind (name : string) (run : option (W → option string)) : P (option string) :=
  match run with
  | None => Ret (Some ("scheduler: bind " +:+ quote name +:+ ": run function is nil"))
  | Some f => atomic (λ _ s,
      match tasks s !! name with
      | None => (Some (not_found "bind" name), s)
      | Some e => (None, set_entry name (with_def (with_Run f (def e)) (schedule e) e) s)
      end)
  end.

(** * State records *)

Definition title_of (t : Task) : string := if Title t =s "" then Name t else Title t.

(** [stateForLocked]: the record, created on first sight. *)
Definition stateForLocked (e : taskEntry) (s : Scheduler) : TaskState * Scheduler :=
  match state s !! Name (def e) with
  | Some st => (st, s)
  | None =>
      let st := mkState (Name (def e)) (title_of (def e)) (t_Schedule (def e)) never
                  StatusPending "" never 0 0 (negb (Disabled (def e))) "" never in
      (st, set_state (Name (def e)) st s)
  end.

(** The document replaces the one on disk whole, or saving fails. *)
Definition persistLocked (w : W) (s : Scheduler) : option string * Scheduler :=
  if StateDir (opts s) =s "" then (None, s) else
  match save_err w with
  | Some e => (Some e, s)
  | None => (None, set_saved (Some (state s)) s)
  end.

Definition SetSchedule (name expr : string) : P (option string) :=
  atomic (λ w s,
    match ParseSchedule parse_duration expr (Location (opts s)) with
    | Err e => (Some e, s)
    | Ok sched =>
        match tasks s !! name with
        | None => (Some (not_found "set schedule" name), s)
        | Some e =>
            let s := set_entry name (with_def (with_Schedule expr (def e)) (Some sched) e) s in
            let s :=
              match state s !! name with
              | Some st => set_state name (with_next (Next sched (clock w)) (with_expr expr st)) s
              | None => s
              end in
            persistLocked w s
        end
    end).

Definition SetEnabled (name : string) (enabled : bool) : P (option string) :=
  atomic (λ w s,
    match tasks s !! name with
    | None => (Some (not_found "set enabled" name), s)
    | Some e =>
        let '(st, s) := stateForLocked e s in
        let st := with_enabled enabled st in
        let st :=
          match schedule e with
          | Some sched => if enabled then with_next (Next sched (clock w)) st else st
          | None => st
          end in
        persistLocked w (set_state (Name (def e)) st s)
    end).

(** * Outcomes and retries *)

(** The time of the next attempt, if one is left, and the entry afterwards. *)
Definition retryTimeLocked (e : taskEntry) (now : Z) : option Z * taskEntry :=
  let limit := if MaxRetries (def e) =? 0 then DefaultMaxRetries else MaxRetries (def e) in
  if limit <? 0 then (None, with_attempts 0 e)
  else if limit <=? attempts e then (None, with_attempts 0 e)
  else
    let delay := if RetryDelay (def e) <=? 0 then DefaultRetryDelay else RetryDelay (def e) in
    let backoff := wrap64 (Z.shiftl delay (attempts e)) in
    (Some (now + backoff), with_attempts (attempts e +! 1) e).

Definition finish (name status : string) (runErr : option string) (w : W) (s : Scheduler)
    : Z * Scheduler :=
  match tasks s !! name with
  | None => (never, s)
  | Some e =>
      let now := clock w in
      let '(st, s) := stateForLocked e s in
      let e := with_running false e in
      let st := with_status status st in
      let '(e, st) :=
        if status =s StatusSuccess then (with_attempts 0 e, with_success now st)
        else if status =s StatusFailed then
          (e, with_failure now (match runErr with Some m => m | None => LastError st end) st)
        else (e, st) in
      match schedule e with
      | None => (never, (persistLocked w (set_entry name e (set_state (Name (def e)) st s))).2)
      | Some sched =>
          let next := Next sched now in
          let '(next, e) :=
            if status =s StatusFailed then
              let '(retryAt, e) := retryTimeLocked e now in
              (match retryAt with Some r => if r <? next then r else next | None => next end, e)
            else (next, e) in
          let st := with_next next st in
          (next, (persistLocked w (set_entry name e (set_state (Name (def e)) st s))).2)
      end
  end.

(** * Running a task *)

Definition entry (name : string) : P (option taskEntry) := peek (λ _ s, tasks s !! name).

Definition acquire (task : string) : P (bool * option string) :=
  atomic (λ w s,
    let '(ok, err, l) := Acquire locker w task (NodeID (opts s)) (LockTTL (opts s)) (locks s) in
    ((ok, err), set_locks l s)).

Definition release (task : string) : P (option string) :=
  atomic (λ w s,
    let '(err, l) := Release locker w task (NodeID (opts s)) (locks s) in (err, set_locks l s)).

(** The call of the task's function: it enters, works, and leaves. *)
Definition call (name : string) (f : W → option string) : P (option string) :=
  let* _ := atomic (λ _ s, (tt, set_inside (inside s ⊎ {[+ name +]}) s)) in
  atomic (λ w s, (f w, set_inside (inside s ∖ {[+ name +]}) s)).

Definition mark_locked (name : string) : P unit :=
  atomic (λ w s,
    match tasks s !! name with
    | None => (tt, s)
    | Some e =>
        let '(st, s) := stateForLocked e s in
        (tt, set_state (Name (def e)) (with_lock (NodeID (opts s)) (clock w) st) s)
    end).

Definition unlock (task : string) : P unit :=
  let* _ := release task in
  atomic (λ w s,
    let s := match state s !! task with
             | Some st => set_state task (with_lock "" never st) s
             | None => s
             end in
    (tt, (persistLocked w s).2)).

(** The body of [execute] once the lock is held or not needed. *)
Definition runTask (name task : string) (run : option (W → option string)) : P (option string) :=
  match run with
  | None => Ret (Some "panic: nil function")
  | Some f =>
      let* err := call name f in
      match err with
      | Some m =>
          let* _ := atomic (finish name StatusFailed (Some m)) in
          Ret (Some ("scheduler: task " +:+ task +:+ ": " +:+ m))
      | None =>
          let* _ := atomic (finish name StatusSuccess None) in
          Ret None
      end
  end.

Definition execute (name : string) : P (option string) :=
  let* e := entry name in
  match e with
  | None => Ret None
  | Some e =>
      let task := Name (def e) in
      if ClusterWide (def e) then
        let* answer := acquire task in
        match answer.2 with
        | Some m =>
            let* _ := atomic (finish name StatusFailed (Some m)) in
            Ret (Some ("scheduler: task " +:+ task +:+ " lock: " +:+ m))
        | None =>
            if negb answer.1 then
              let* _ := atomic (finish name StatusSkipped None) in Ret None
            else
              let* _ := mark_locked name in
              let* e := entry name in
              let* r := runTask name task (e ≫= λ e, Run (def e)) in
              let* _ := unlock task in
              Ret r
        end
      else
        let* e := entry name in
        runTask name task (e ≫= λ e, Run (def e))
  end.

(** A free entry with a function is claimed. *)
Definition claim (name : string) (s : Scheduler) : bool * Scheduler :=
  match tasks s !! name with
  | Some e =>
      match Run (def e) with
      | Some _ =>
          if running e then (false, s) else (true, set_entry name (with_running true e) s)
      | None => (false, s)
      end
  | None => (false, s)
  end.

Definition RunNow (name : string) : P (option string) :=
  let* claimed := atomic (λ _ s,
    match tasks s !! name with
    | None => (Some (not_found "run" name), s)
    | Some e =>
        match Run (def e) with
        | None => (Some ("scheduler: run " +:+ quote name +:+ ": no implementation bound"), s)
        | Some _ =>
            if running e then (Some ("scheduler: run " +:+ quote name +:+ ": already running"), s)
            else (None, (claim name s).2)
        end
    end) in
  match claimed with
  | Some err => Ret (Some err)
  | None => execute name
  end.

(** * Dispatching *)

(** The entries due at [now] are claimed, in registration order. *)
Fixpoint dispatchLoop (now : Z) (names : list string) (s : Scheduler) : list string * Scheduler :=
  match names with
  | [] => ([], s)
  | name :: rest =>
      match tasks s !! name with
      | None => dispatchLoop now rest s
      | Some e =>
          match Run (def e), schedule e with
          | Some _, Some _ =>
              if running e then dispatchLoop now rest s else
              let '(st, s) := stateForLocked e s in
              if negb (st_Enabled st) || (NextRun st =? never) || (now <? NextRun st)
              then dispatchLoop now rest s
              else
                let '(due, s) := dispatchLoop now rest (claim name s).2 in (name :: due, s)
          | _, _ => dispatchLoop now rest s
          end
      end
  end.

Definition drop {A} (p : P A) : P unit := let* _ := p in Ret tt.

Fixpoint goAll (names : list string) : P unit :=
  match names with
  | [] => Ret tt
  | name :: rest => Fork (drop (execute name)) (goAll rest)
  end.

Definition dispatchDue : P unit :=
  let* now := peek (λ w _, clock w) in
  let* due := atomic (λ _ s, dispatchLoop now (order s) s) in
  goAll due.

(** * Starting *)

Definition missingRequiredLocked (s : Scheduler) : list string :=
  sort_strings (List.filter (λ name,
    match tasks s !! name with
    | Some e => required e && match Run (def e) with Some _ => false | None => true end
    | None => false
    end) (order s)).

Definition refresh (node : string) (e : taskEntry) (st : TaskState) : TaskState :=
  let st := with_identity (Name (def e)) (title_of (def e)) (t_Schedule (def e))
              (if LastStatus st =s "" then StatusPending else LastStatus st) st in
  if LockedBy st =s node then with_lock "" never st else st.

(** Whether the run [st] was waiting for is replayed at [now]. *)
Definition is_missed (window now : Z) (e : taskEntry) (st : TaskState) : bool :=
  CatchUp (def e) && st_Enabled st
  && match Run (def e), schedule e with Some _, Some _ => true | _, _ => false end
  && negb (NextRun st =? never) && negb (now <? NextRun st) && negb (window <? time_Sub now (NextRun st)).

Fixpoint syncLoop (now : Z) (names : list string) (s : Scheduler)
    : list (string * Z) * Scheduler :=
  match names with
  | [] => ([], s)
  | name :: rest =>
      match tasks s !! name with
      | None => syncLoop now rest s
      | Some e =>
          let '(st, s) := stateForLocked e s in
          let st := refresh (NodeID (opts s)) e st in
          let s := set_state (Name (def e)) st s in
          let '(missed, s) := syncLoop now rest s in
          (if is_missed (CatchUpWindow (opts s)) now e st then (name, NextRun st) :: missed
           else missed, s)
      end
  end.

(** Go's sort is not stable: tasks due at the same instant are replayed in some
    order, here that of registration. *)
Definition syncStateLocked (now : Z) (s : Scheduler) : list string * Scheduler :=
  let '(missed, s) := syncLoop now (order s) s in
  (map fst (sort_by (λ a b, a.2 <=? b.2) missed), s).

Definition scheduleOne (now : Z) (s : Scheduler) (name : string) : Scheduler :=
  match tasks s !! name with
  | None => s
  | Some e =>
      match schedule e, Run (def e) with
      | Some sched, Some _ =>
          let '(st, s) := stateForLocked e s in
          if st_Enabled st then set_state (Name (def e)) (with_next (Next sched now) st) s else s
      | _, _ => s
      end
  end.

(** An unreadable document is replaced by an empty one. *)
Definition loaded (w : W) (s : Scheduler) : gmap string TaskState :=
  match load_err w with Some _ => ∅ | None => default ∅ (saved s) end.

Fixpoint replayMissed (names : list string) : P unit :=
  match names with
  | [] => Ret tt
  | name :: rest =>
      let* stop := peek (λ w _, canceled w) in
      if stop then Ret tt else
      let* claimed := atomic (λ _ s, claim name s) in
      if claimed then
        let* _ := execute name in replayMissed rest
      else replayMissed rest
  end.

Definition restore (w : W) (s : Scheduler) : Scheduler :=
  if StateDir (opts s) =s "" then s else set_states (loaded w s) s.

Definition startSection (w : W) (s : Scheduler) : (option string * list string) * Scheduler :=
  let s := restore w s in
  let now := clock w in
  let '(missed, s) := syncStateLocked now s in
  let s := foldl (scheduleOne now) s (order s) in
  let '(err, s) := persistLocked w s in
  match err with
  | Some e => ((Some e, []), s)
  | None => ((None, missed), set_flags true false s)
  end.

Definition Start : P (option string) :=
  let* refused := peek (λ _ s,
    if started s then Some "scheduler: already started"
    else match missingRequiredLocked s with
         | [] => None
         | missing => Some ("scheduler: required built-in task(s) without a bound implementation: "
                            +:+ String.concat ", " missing)
         end) in
  match refused with
  | Some e => Ret (Some e)
  | None =>
      let* bad := peek (λ w s,
        if StateDir (opts s) =s "" then None
        else match mkdir_err w with
             | Some m => Some ("scheduler: create state dir " +:+ StateDir (opts s) +:+ ": " +:+ m)
             | None => None
             end) in
      match bad with
      | Some e => Ret (Some e)
      | None =>
          let* answer := atomic startSection in
          match answer with
          | (Some e, _) => Ret (Some e)
          | (None, []) => Ret None
          | (None, missed) => Fork (replayMissed missed) (Ret None)
          end
      end
  end.

(** * Stopping *)

Definition interrupted (now : Z) (st : TaskState) : TaskState :=
  mkState (TaskID st) (TaskName st) (st_Schedule st) (LastRun st) StatusFailed
    "interrupted by shutdown" now (RunCount st) (FailCount st +! 1) (st_Enabled st)
    (LockedBy st) (LockedAt st).

Definition stopOne (w : W) (timedOut : bool) (s : Scheduler) (name : string) : Scheduler :=
  match tasks s !! name, state s !! name with
  | Some e, Some st =>
      let '(s, st) :=
        if timedOut && running e then
          (set_entry name (with_running false e) s, interrupted (clock w) st)
        else (s, st) in
      if LockedBy st =s NodeID (opts s) then
        let '(_, l) := Release locker w name (NodeID (opts s)) (locks s) in
        set_state name (with_lock "" never st) (set_locks l s)
      else set_state name st s
  | _, _ => s
  end.

Definition Stop : P (option string) :=
  let* stopping := atomic (λ _ s,
    if negb (started s) || stopped s then (false, s)
    else (true, set_flags (started s) true s)) in
  if negb stopping then Ret None else
  let* timedOut := peek (λ w _, timed_out w) in
  atomic (λ w s,
    let s := foldl (stopOne w timedOut) s (order s) in
    let '(err, s) := persistLocked w s in
    (err, set_flags false (stopped s) s)).

Record TaskStatus := mkTaskStatus {
  ts_Name : string; ts_Title : string; ts_Schedule : string; ts_Description : string;
  ts_Enabled : bool; ts_Running : bool; ts_Bound : bool; ts_Builtin : bool;
  ts_ClusterWide : bool; ts_LastRun : Z; ts_LastStatus : string; ts_LastError : string;
  ts_NextRun : Z; ts_RunCount : Z; ts_FailCount : Z; ts_LockedBy : string }.

Fixpoint statusLoop (names : list string) (s : Scheduler) : list TaskStatus * Scheduler :=
  match names with
  | [] => ([], s)
  | name :: rest =>
      match tasks s !! name with
      | None => statusLoop rest s
      | Some e =>
          let '(st, s) := stateForLocked e s in
          let '(more, s) := statusLoop rest s in
          (mkTaskStatus (Name (def e)) (title_of (def e)) (t_Schedule (def e))
             (Description (def e)) (st_Enabled st) (running e)
             (match Run (def e) with Some _ => true | None => false end) (builtin e)
             (ClusterWide (def e)) (LastRun st) (LastStatus st) (LastError st) (NextRun st)
             (RunCount st) (FailCount st) (LockedBy st) :: more, s)
      end
  end.

Definition Status : P (list TaskStatus) := atomic (λ _ s, statusLoop (order s) s).

(** * What goroutines may start *)

Inductive Op :=
| OpRegister (t : Task) | OpBind (name : string) (run : option (W → option string))
| OpSetSchedule (name expr : string) | OpSetEnabled (name : string) (enabled : bool)
| OpStart | OpTick | OpRunNow (name : string) | OpStop | OpStatus.

Definition handler (op : Op) : P unit :=
  match op with
  | OpRegister t => drop (Register t)
  | OpBind n f => drop (Bind n f)
  | OpSetSchedule n e => drop (SetSchedule n e)
  | OpSetEnabled n b => drop (SetEnabled n b)
  | OpStart => drop Start
  | OpTick => dispatchDue
  | OpRunNow n => drop (RunNow n)
  | OpStop => drop Stop
  | OpStatus => drop Status
  end.

Definition handlers (p : P unit) : Prop := ∃ op, p = handler op.

(** * Tokens *)

(** [(name, false)]: the goroutine claimed the task; [(name, true)]: it is
    inside the task's function. *)
Definition token : Type := string * bool.
Definition claimed (name : string) : gmultiset token := {[+ (name, false) +]}.
Definition entered (name : string) : gmultiset token := {[+ (name, true) +]}.

Definition flag (s : Scheduler) (name : string) : nat :=
  match tasks s !! name with Some e => if running e then 1 else 0 | None => 0 end.

(** Every claim is covered by a raised flag, every call in progress by a
    goroutine that entered. *)
Definition covered (h : list Scheduler) (tk : gmultiset token) : Prop :=
  match h with
  | [] => True
  | s :: _ => ∀ name,
      (multiplicity (name, false) tk + multiplicity (name, true) tk ≤ flag s name)%nat ∧
      (multiplicity name (inside s) ≤ multiplicity (name, true) tk)%nat
  end.

Notation ok p h own Q := (good (E := W) covered p h own Q).
Notation unmoved own := (λ _ _ own', own' = own).

(** Sections that touch neither flags nor calls. *)
Definition same (s s' : Scheduler) : Prop :=
  (∀ name, flag s' name = flag s name) ∧ inside s' = inside s.

Lemma same_trans s1 s2 s3 : same s1 s2 → same s2 s3 → same s1 s3.
Proof. intros [H1 E1] [H2 E2]. split; [intros n; by rewrite H2, H1 | congruence]. Qed.

Lemma same_tasks s s' : tasks s' = tasks s → inside s' = inside s → same s s'.
Proof. intros Ht Hi. split; [| done]. intros n. unfold flag. by rewrite Ht. Qed.

Lemma same_entry name e e' s :
  tasks s !! name = Some e → running e' = running e → same s (set_entry name e' s).
Proof.
  intros He Hr. split; [| done]. intros n. unfold flag. cbn.
  destruct (decide (n = name)) as [-> | Hn]; [by rewrite lookup_insert_eq, He, Hr |].
  by rewrite lookup_insert_ne.
Qed.

Lemma same_stateFor e s : same s (stateForLocked e s).2.
Proof. unfold stateForLocked. by destruct (state s !! Name (def e)). Qed.

Lemma same_persist w s : same s (persistLocked w s).2.
Proof. unfold persistLocked. by destruct (_ =s ""), (save_err w). Qed.

Lemma covered_same s s' h tk : same s s' → covered (s :: h) tk → covered (s' :: s :: h) tk.
Proof. intros [Hf Hi] H n. cbn. rewrite Hf, Hi. apply H. Qed.

Lemma ok_same {A} (f : W → Scheduler → A * Scheduler) h own :
  (∀ w s, same s (f w s).2) → ok (atomic f) h own (unmoved own).
Proof. intros Hf s h' w others _ H. exists own. split; [by apply covered_same | done]. Qed.

Lemma sched_peek {A} (f : W → Scheduler → A) h own : ok (peek f) h own (unmoved own).
Proof. by apply ok_same. Qed.

(** * Claims, calls and outcomes *)

Lemma flag_entry name e s n :
  flag (set_entry name e s) n =
  if decide (n = name) then (if running e then 1 else 0)%nat else flag s n.
Proof.
  unfold flag. cbn. destruct (decide (n = name)) as [-> | Hn];
    [by rewrite lookup_insert_eq | by rewrite lookup_insert_ne].
Qed.

Ltac mult :=
  unfold claimed, entered in *;
  rewrite ?multiplicity_disj_union, ?multiplicity_empty, ?multiplicity_singleton in *;
  repeat case_decide; simplify_eq; try lia.

Lemma claim_cases name s :
  claim name s = (false, s) ∨
  ∃ e, tasks s !! name = Some e ∧ running e = false ∧
    claim name s = (true, set_entry name (with_running true e) s).
Proof.
  unfold claim. destruct (tasks s !! name) as [e |] eqn:He; [| by left].
  destruct (Run (def e)); [| by left].
  destruct (running e) eqn:Hr; [by left | right; eauto].
Qed.

Fixpoint claims (names : list string) : gmultiset token :=
  match names with [] => ∅ | n :: rest => claimed n ⊎ claims rest end.

(** Claiming raises flags that were down, once for each name. *)
Definition raised (s s' : Scheduler) (names : list string) : Prop :=
  (∀ n, flag s' n = multiplicity (n, false) (claims names) + flag s n)%nat ∧
  inside s' = inside s.

Lemma claims_not_entered n names : multiplicity (n, true) (claims names) = 0%nat.
Proof.
  induction names as [| m names IH]; cbn [claims]; [by rewrite multiplicity_empty |].
  rewrite multiplicity_disj_union, IH. by mult.
Qed.

Lemma raised_claim name s : raised s (claim name s).2 (if (claim name s).1 then [name] else []).
Proof.
  destruct (claim_cases name s) as [-> | (e & He & Hr & ->)]; cbn [fst snd]; split; [| done | | done].
  - intros n. cbn [claims]. by rewrite multiplicity_empty.
  - intros n. rewrite flag_entry. cbn [claims running with_running].
    destruct (decide (n = name)) as [-> | Hn]; [| by mult].
    unfold flag. rewrite He, Hr. by mult.
Qed.

Lemma covered_raised s s' names h own others :
  raised s s' names → covered (s :: h) (own ⊎ others) →
  covered (s' :: s :: h) ((own ⊎ claims names) ⊎ others).
Proof.
  intros [Hf Hi] H n. cbn. rewrite Hf, Hi. specialize (H n). cbn in H.
  rewrite !multiplicity_disj_union in *. rewrite claims_not_entered. lia.
Qed.

Lemma ok_claim name h own :
  ok (atomic (λ _ s, claim name s)) h own
    (λ b _ own', own' = own ⊎ claims (if b : bool then [name] else [])).
Proof.
  intros s h' w others _ H. eexists. split; [| reflexivity].
  apply covered_raised; [apply raised_claim | done].
Qed.

(** The call: the claim is turned into an entry and back. *)
Lemma ok_call name f h own :
  ok (call name f) h (own ⊎ claimed name) (unmoved (own ⊎ claimed name)).
Proof.
  apply good_bind. intros s h' w others _ H. exists (own ⊎ entered name). split.
  { intros n. specialize (H n). cbn [covered inside set_inside snd] in *.
    change (flag (set_inside (inside s ⊎ {[+ name +]}) s)) with (flag s). by mult. }
  intros s2 h2 w2 others2 _ H2. exists (own ⊎ claimed name). split; [| done].
  intros n. specialize (H2 n). cbn [covered inside set_inside snd] in *.
  change (flag (set_inside (inside s2 ∖ {[+ name +]}) s2)) with (flag s2).
  rewrite multiplicity_difference. by mult.
Qed.

Lemma persist_frame w s :
  tasks (persistLocked w s).2 = tasks s ∧ inside (persistLocked w s).2 = inside s.
Proof. unfold persistLocked. by destruct (_ =s ""), (save_err w). Qed.

Lemma stateFor_frame e s :
  tasks (stateForLocked e s).2 = tasks s ∧ inside (stateForLocked e s).2 = inside s.
Proof. unfold stateForLocked. by destruct (state s !! Name (def e)). Qed.

Lemma retry_running e now : running (retryTimeLocked e now).2 = running e.
Proof.
  unfold retryTimeLocked. set (limit := if _ =? 0 then _ else _).
  by destruct (limit <? 0), (limit <=? attempts e).
Qed.

(** The flag goes down with the outcome. *)
Lemma finish_shape name status err w s e :
  tasks s !! name = Some e →
  ∃ e', running e' = false
    ∧ tasks (finish name status err w s).2 = <[name := e']> (tasks s)
    ∧ inside (finish name status err w s).2 = inside s.
Proof.
  intros He. unfold finish. rewrite He.
  pose proof (stateFor_frame e s) as [Ht Hi].
  destruct (stateForLocked e s) as [st s1]. cbn [snd] in Ht, Hi.
  set (pair := if status =s StatusSuccess then _ else _).
  assert (running pair.1 = false) as Hr.
  { subst pair. by destruct (status =s StatusSuccess), (status =s StatusFailed). }
  destruct pair as [e1 st1]. cbn [fst] in Hr.
  destruct (schedule e1) as [sched |].
  - set (pair2 := if status =s StatusFailed then _ else _).
    assert (running pair2.2 = false) as Hr2.
    { subst pair2. destruct (status =s StatusFailed); [| done].
      pose proof (retry_running e1 (clock w)) as Hq.
      destruct (retryTimeLocked e1 (clock w)) as [at_ e2]. cbn in *. congruence. }
    destruct pair2 as [next e2]. cbn [snd] in Hr2 |- *. exists e2.
    split; [done |]. destruct (persist_frame w (set_entry name e2
      (set_state (Name (def e2)) (with_next next st1) s1))) as [-> ->].
    cbn. by rewrite Ht.
  - cbn [snd]. exists e1. split; [done |].
    destruct (persist_frame w (set_entry name e1 (set_state (Name (def e1)) st1 s1))) as [-> ->].
    cbn. by rewrite Ht.
Qed.

Lemma ok_finish name status err h own :
  ok (atomic (finish name status err)) h (own ⊎ claimed name) (unmoved own).
Proof.
  intros s h' w others _ H. exists own. split; [| done]. intros n. specialize (H n).
  cbn [covered] in *.
  destruct (tasks s !! name) as [e |] eqn:He.
  - destruct (finish_shape name status err w s e He) as (e' & Hr & Ht & Hi).
    unfold flag. rewrite Ht, Hi. destruct (decide (n = name)) as [-> | Hn].
    + rewrite lookup_insert_eq, Hr. unfold flag in H. rewrite He in H.
      destruct (running e); by mult.
    + rewrite lookup_insert_ne by done. fold (flag s n). by mult.
  - assert ((finish name status err w s).2 = s) as -> by (unfold finish; by rewrite He). by mult.
Qed.

(** * Running and dispatching *)

Lemma ok_runTask name task run h own :
  ok (runTask name task run) h (own ⊎ claimed name) (λ _ _ _, True).
Proof.
  unfold runTask. destruct run as [f |]; [| done].
  apply good_seq; [apply ok_call |]. intros [m |] h' _.
  all: apply good_bind; eapply good_mono; [apply ok_finish | done].
Qed.

Lemma ok_acquire task h own : ok (acquire task) h own (unmoved own).
Proof. apply ok_same. intros w s. by destruct (Acquire locker w task _ _ _) as [[? ?] ?]. Qed.

Lemma ok_mark_locked name h own : ok (mark_locked name) h own (unmoved own).
Proof.
  apply ok_same. intros w s. destruct (tasks s !! name) as [e |]; [| done].
  pose proof (same_stateFor e s). by destruct (stateForLocked e s).
Qed.

Lemma ok_unlock task h own : ok (unlock task) h own (unmoved own).
Proof.
  apply good_seq; [apply ok_same; intros w s; by destruct (Release locker w task _ _) |].
  intros _ h' _. apply ok_same. intros w s. cbn [snd].
  eapply same_trans; [| apply same_persist]. by destruct (state s !! task).
Qed.

Lemma ok_execute name h own : ok (execute name) h (own ⊎ claimed name) (λ _ _ _, True).
Proof.
  unfold execute. apply good_seq; [apply sched_peek |]. intros [e |] h1 _; [| done].
  destruct (ClusterWide (def e)).
  - apply good_seq; [apply ok_acquire |]. intros [won [m |]] h2 _; cbn [fst snd].
    { apply good_bind. eapply good_mono; [apply ok_finish | done]. }
    destruct won; cbn [negb].
    + apply good_seq; [apply ok_mark_locked |]. intros _ h3 _.
      apply good_seq; [apply sched_peek |]. intros e' h4 _.
      apply good_bind. eapply good_mono; [apply ok_runTask |]. intros r h5 own' _ _.
      apply good_bind. eapply good_mono; [apply ok_unlock | done].
    + apply good_bind. eapply good_mono; [apply ok_finish | done].
  - apply good_seq; [apply sched_peek |]. intros e' h2 _. apply ok_runTask.
Qed.

Lemma ok_drop {A} (p : P A) h own : ok p h own (λ _ _ _, True) → ok (drop p) h own (λ _ _ _, True).
Proof. intros Hp. apply good_bind. by eapply good_mono. Qed.

Lemma ok_RunNow name h own : ok (RunNow name) h own (λ _ _ _, True).
Proof.
  unfold RunNow. apply good_bind. intros s h' w others _ H.
  destruct (tasks s !! name) as [e |] eqn:He; cbn [fst snd].
  2: { exists own. split; [by apply covered_same | done]. }
  destruct (Run (def e)) as [f |] eqn:Hf; cbn [fst snd].
  2: { exists own. split; [by apply covered_same | done]. }
  destruct (running e) eqn:Hr; cbn [fst snd].
  { exists own. split; [by apply covered_same | done]. }
  exists (own ⊎ claimed name). split.
  - replace (claimed name) with (claims [name]) by (cbn [claims]; multiset_solver).
    apply covered_raised; [| done]. pose proof (raised_claim name s) as Hc.
    assert ((claim name s).1 = true) as E by (unfold claim; by rewrite He, Hf, Hr).
    by rewrite E in Hc.
  - apply ok_execute.
Qed.

Lemma ok_replay names h own : ok (replayMissed names) h own (λ _ _ _, True).
Proof.
  revert h own. induction names as [| name names IH]; intros h own; cbn [replayMissed]; [done |].
  apply good_seq; [apply sched_peek |]. intros [] h1 _; [done |].
  apply good_bind. eapply good_mono; [apply ok_claim |].
  intros [] h2 own' _ ->; [| apply IH]. cbn [claims].
  replace (claimed name ⊎ ∅) with (claimed name) by multiset_solver.
  apply good_bind. eapply good_mono; [apply ok_execute |]. intros. apply IH.
Qed.

Lemma ok_goAll names h own : ok (goAll names) h (own ⊎ claims names) (λ _ _ _, True).
Proof.
  revert own. induction names as [| name names IH]; intros own; cbn [goAll claims]; [done |].
  exists (∅ ⊎ claimed name), (own ⊎ claims names). split; [multiset_solver |].
  split; [apply ok_drop, ok_execute | apply IH].
Qed.

Lemma raised_same s1 s2 s3 names : same s1 s2 → raised s2 s3 names → raised s1 s3 names.
Proof. intros [Hf Hi] [Hg Hj]. split; [intros n; by rewrite Hg, Hf | congruence]. Qed.

Lemma raised_more s1 s2 s3 a b : raised s1 s2 a → raised s2 s3 b → raised s1 s3 (a ++ b).
Proof.
  intros [Hf Hi] [Hg Hj]. split; [intros n; rewrite Hg, Hf | congruence].
  clear. induction a as [| x a IH]; cbn [claims app]; [by mult |].
  rewrite !multiplicity_disj_union in *. lia.
Qed.

Lemma dispatchLoop_raised now names s :
  raised s (dispatchLoop now names s).2 (dispatchLoop now names s).1.
Proof.
  assert (∀ s, raised s s []) as Hnil by (split; [intros n; cbn [claims]; by mult | done]).
  revert s. induction names as [| name names IH]; intros s; cbn [dispatchLoop]; [apply Hnil |].
  destruct (tasks s !! name) as [e |] eqn:He; [| apply IH].
  destruct (Run (def e)) as [f |] eqn:Hf; [| apply IH].
  destruct (schedule e); [| apply IH]. destruct (running e) eqn:Hr; [apply IH |].
  pose proof (same_stateFor e s) as Hs. pose proof (stateFor_frame e s) as [Ht _].
  destruct (stateForLocked e s) as [st s1]. cbn [snd] in Hs, Ht.
  apply (raised_same _ _ _ _ Hs).
  destruct (_ || _); [apply IH |].
  pose proof (raised_claim name s1) as Hc.
  assert ((claim name s1).1 = true) as E by (unfold claim; by rewrite Ht, He, Hf, Hr).
  rewrite E in Hc. specialize (IH (claim name s1).2).
  destruct (dispatchLoop now names (claim name s1).2) as [due s2]. cbn [fst snd] in *.
  by apply (raised_more _ _ _ [name] due Hc).
Qed.

Lemma ok_dispatchDue h own : ok dispatchDue h own (λ _ _ _, True).
Proof.
  unfold dispatchDue. apply good_seq; [apply sched_peek |]. intros now h1 _.
  apply good_bind. intros s h' w others _ H.
  exists (own ⊎ claims (dispatchLoop now (order s) s).1). split.
  - by apply covered_raised; [apply dispatchLoop_raised |].
  - apply ok_goAll.
Qed.

(** * The other operations *)

Lemma same_syncLoop now names s : same s (syncLoop now names s).2.
Proof.
  revert s. induction names as [| name names IH]; intros s; cbn [syncLoop]; [done |].
  destruct (tasks s !! name) as [e |]; [| apply IH].
  pose proof (same_stateFor e s) as Hs. destruct (stateForLocked e s) as [st s1]. cbn [snd] in Hs.
  specialize (IH (set_state (Name (def e)) (refresh (NodeID (opts s1)) e st) s1)).
  destruct (syncLoop now names _) as [missed s2]. cbn [snd] in *.
  eapply same_trans; [exact Hs |]. exact IH.
Qed.

Lemma same_foldl (f : Scheduler → string → Scheduler) names s :
  (∀ s n, same s (f s n)) → same s (foldl f s names).
Proof.
  intros Hf. revert s. induction names as [| n names IH]; intros s; cbn; [done |].
  eapply same_trans; [apply Hf | apply IH].
Qed.

Lemma same_scheduleOne now s name : same s (scheduleOne now s name).
Proof.
  unfold scheduleOne. destruct (tasks s !! name) as [e |]; [| done].
  destruct (schedule e), (Run (def e)); [| done..].
  pose proof (same_stateFor e s) as Hs. destruct (stateForLocked e s) as [st s1]. cbn [snd] in Hs.
  by destruct (st_Enabled st).
Qed.

Lemma same_startSection w s : same s (startSection w s).2.
Proof.
  unfold startSection, syncStateLocked. set (s0 := restore w s).
  assert (same s s0) as H0 by (subst s0; unfold restore; by destruct (_ =s "")). clearbody s0.
  pose proof (same_syncLoop (clock w) (order s0) s0) as H1.
  destruct (syncLoop (clock w) (order s0) s0) as [missed s1]. cbn [snd] in H1.
  pose proof (same_foldl (scheduleOne (clock w)) (order s1) s1 (same_scheduleOne _)) as H2.
  pose proof (same_persist w (foldl (scheduleOne (clock w)) s1 (order s1))) as H3.
  destruct (persistLocked w _) as [err s3]. cbn [snd] in H3.
  assert (same s s3) as H by (do 3 (eapply same_trans; [done |]); done).
  by destruct err.
Qed.

Lemma ok_Start h own : ok Start h own (λ _ _ _, True).
Proof.
  unfold Start. apply good_seq; [apply sched_peek |]. intros [e |] h1 _; [done |].
  apply good_seq; [apply sched_peek |]. intros [e |] h2 _; [done |].
  apply good_seq; [apply ok_same, same_startSection |]. intros [[e |] [| name missed]] h3 _; try done.
  exists own, ∅. split; [multiset_solver |]. by split; [apply ok_replay |].
Qed.

Lemma same_stopOne w s name : same s (stopOne w false s name).
Proof.
  unfold stopOne. destruct (tasks s !! name), (state s !! name) as [st |]; try done.
  cbn [andb]. destruct (LockedBy st =s _); [| done]. by destruct (Release locker w name _ _).
Qed.

Lemma ok_Stop h own : (∀ w, timed_out w = false) → ok Stop h own (λ _ _ _, True).
Proof.
  intros Hg. unfold Stop. apply good_seq.
  { apply ok_same. intros w s. by destruct (_ || _). }
  intros [] h1 _; cbn [negb]; [| done].
  apply good_bind.
  assert (ok (peek (λ w (_ : Scheduler), timed_out w)) h1 own
            (λ b _ own', b = false ∧ own' = own)) as Htimer.
  { intros s h2 w others _ H. exists own. split; [by apply covered_same | split; [apply Hg | done]]. }
  eapply good_mono; [exact Htimer |]. intros b h2 own' _ [-> ->].
  eapply good_mono; [apply ok_same | done].
  intros w' s'. pose proof (same_foldl (stopOne w' false) (order s') s' (same_stopOne w')) as H1.
  pose proof (same_persist w' (foldl (stopOne w' false) s' (order s'))) as H2.
  destruct (persistLocked w' _) as [err s2]. exact (same_trans _ _ _ H1 H2).
Qed.

Lemma same_fresh name e s :
  tasks s !! name = None → running e = false → same s (set_entry name e s).
Proof.
  intros He Hr. split; [| done]. intros n. rewrite flag_entry, Hr. unfold flag.
  destruct (decide (n = name)) as [-> | Hn]; [by rewrite He | done].
Qed.

Lemma sched_Register t h own : ok (Register t) h own (unmoved own).
Proof.
  unfold Register. destruct (_ =s ""); [done |]. destruct (Run t); [| done].
  apply ok_same. intros w s. destruct (ParseSchedule _ _ _) as [sched |]; [| done].
  destruct (started s); [done |].
  destruct (tasks s !! TrimSpace (Name t)) as [e |] eqn:He.
  - destruct (builtin e); cbn [negb]; [| done]. by apply (same_entry _ e).
  - by apply same_fresh.
Qed.

Lemma ok_Bind name run h own : ok (Bind name run) h own (unmoved own).
Proof.
  unfold Bind. destruct run; [| done]. apply ok_same. intros w s.
  destruct (tasks s !! name) as [e |] eqn:He; [| done]. by apply (same_entry _ e).
Qed.

Lemma ok_SetSchedule name expr h own : ok (SetSchedule name expr) h own (unmoved own).
Proof.
  apply ok_same. intros w s. destruct (ParseSchedule _ _ _) as [sched |]; [| done].
  destruct (tasks s !! name) as [e |] eqn:He; [| done].
  eapply same_trans; [| apply same_persist].
  eapply same_trans.
  { by apply (same_entry name e (with_def (with_Schedule expr (def e)) (Some sched) e) s He). }
  cbn [state set_entry set_tasks]. by destruct (state s !! name).
Qed.

Lemma ok_SetEnabled name b h own : ok (SetEnabled name b) h own (unmoved own).
Proof.
  apply ok_same. intros w s. destruct (tasks s !! name) as [e |] eqn:He; [| done].
  pose proof (same_stateFor e s) as Hs. destruct (stateForLocked e s) as [st s1].
  eapply same_trans; [| apply same_persist]. exact Hs.
Qed.

Lemma same_statusLoop names s : same s (statusLoop names s).2.
Proof.
  revert s. induction names as [| name names IH]; intros s; cbn [statusLoop]; [done |].
  destruct (tasks s !! name) as [e |]; [| apply IH].
  pose proof (same_stateFor e s) as Hs. destruct (stateForLocked e s) as [st s1]. cbn [snd] in Hs.
  specialize (IH s1). destruct (statusLoop names s1) as [more s2].
  exact (same_trans _ _ _ Hs IH).
Qed.

Lemma sched_handler op h : (∀ w, timed_out w = false) → ok (handler op) h ∅ (λ _ _ _, True).
Proof.
  intros Hg. destruct op; cbn [handler]; try apply ok_drop.
  - by eapply good_mono; [apply sched_Register |].
  - by eapply good_mono; [apply ok_Bind |].
  - by eapply good_mono; [apply ok_SetSchedule |].
  - by eapply good_mono; [apply ok_SetEnabled |].
  - apply ok_Start.
  - apply ok_dispatchDue.
  - apply ok_RunNow.
  - by apply ok_Stop.
  - eapply good_mono; [apply ok_same | done]. intros w s. apply same_statusLoop.
Qed.

Lemma New_idle o zone host l disk : inside (New o zone host l disk) = ∅.
Proof.
  unfold New. assert (∀ s, inside s = ∅ → inside (foldl add_builtin s builtinSpecs) = ∅) as H.
  { induction builtinSpecs as [| b bs IH]; intros s Hs; cbn; [done |]. by apply IH. }
  by apply H.
Qed.

(** C4: A task never overlaps itself.  Through every interleaving of the
    ticker, manual runs, replays of missed runs, registration, changes of
    schedule, start and shutdown, whatever the lock, the task functions and
    the disk answer, at most one call of a task's function is in progress, and
    while it is the task's running flag is up.  (A shutdown that gives up
    waiting is the exception.) *)
Theorem task_never_overlaps o zone host l disk c name :
  (∀ w, timed_out w = false) →
  reachable handlers (New o zone host l disk) c →
  (multiplicity name (inside (now_at c)) ≤ flag (now_at c) name ≤ 1)%nat.
Proof.
  intros Hg Hr.
  destruct (reachable_good covered handlers (New o zone host l disk) c) as (owns & HI & _);
    [| | done |].
  - intros n. cbn [covered]. rewrite New_idle. by mult.
  - intros p [op ->]. by apply sched_handler.
  - specialize (HI name). cbn in HI. split; [lia |]. unfold flag.
    destruct (tasks (now_at c) !! name) as [e |]; [destruct (running e) |]; lia.
Qed.

(** * Retries *)

Definition limit_of (t : Task) : Z := if MaxRetries t =? 0 then DefaultMaxRetries else MaxRetries t.
Definition delay_of (t : Task) : Z := if RetryDelay t <=? 0 then DefaultRetryDelay else RetryDelay t.

(** The next run after failure number [i] (from 0) in a row: attempts [0] to
    [limit - 1] of a round are retried after the doubling delay unless the
    schedule comes first; the last failure of a round waits for the schedule,
    and a new round begins. *)
Definition next_after (t : Task) (sched : Schedule) (i now : Z) : Z :=
  let k := i mod (limit_of t + 1) in
  if k <? limit_of t then Z.min (now + delay_of t * 2 ^ k) (Next sched now) else Next sched now.

Definition fails (name : string) (s : Scheduler) (ws : list (W * string)) : Scheduler :=
  foldl (λ s '(w, err), (finish name StatusFailed (Some err) w s).2) s ws.

Lemma persist_state w s : state (persistLocked w s).2 = state s.
Proof. unfold persistLocked. by destruct (_ =s ""), (save_err w). Qed.

(** One failure, in terms of [retryTimeLocked]. *)
Lemma finish_failed name err w s e sched :
  tasks s !! name = Some e → schedule e = Some sched →
  let s' := (finish name StatusFailed (Some err) w s).2 in
  let r := retryTimeLocked (with_running false e) (clock w) in
  tasks s' !! name = Some r.2 ∧
  ∃ st, state s' !! Name (def r.2) = Some st ∧ LastStatus st = StatusFailed ∧ LastError st = err ∧
    NextRun st = match r.1 with
                 | Some t => if t <? Next sched (clock w) then t else Next sched (clock w)
                 | None => Next sched (clock w)
                 end.
Proof.
  intros He Hs. cbv zeta. unfold finish. rewrite He.
  pose proof (stateFor_frame e s) as [Ht _].
  destruct (stateForLocked e s) as [st s1]. cbn [snd] in Ht.
  change (StatusFailed =s StatusSuccess) with false. change (StatusFailed =s StatusFailed) with true.
  cbn [schedule with_running]. rewrite Hs.
  destruct (retryTimeLocked (with_running false e) (clock w)) as [at_ e'].
  cbn [fst snd]. rewrite persist_state, (proj1 (persist_frame w _)). cbn.
  split; [by rewrite Ht, lookup_insert_eq |].
  eexists. split; [by rewrite lookup_insert_eq |]. by destruct at_.
Qed.

Lemma retry_step e now :
  0 ≤ limit_of (def e) < 2 ^ 62 → 0 ≤ attempts e ≤ limit_of (def e) →
  delay_of (def e) * 2 ^ limit_of (def e) ≤ max_int64 →
  def (retryTimeLocked e now).2 = def e ∧ schedule (retryTimeLocked e now).2 = schedule e ∧
  if attempts e <? limit_of (def e) then
    (retryTimeLocked e now).1 = Some (now + delay_of (def e) * 2 ^ attempts e)
    ∧ attempts (retryTimeLocked e now).2 = attempts e + 1
  else (retryTimeLocked e now).1 = None ∧ attempts (retryTimeLocked e now).2 = 0.
Proof.
  intros Hl Ha Hd. unfold retryTimeLocked. fold (limit_of (def e)). fold (delay_of (def e)).
  destruct (Z.ltb_spec (limit_of (def e)) 0); [lia |].
  destruct (Z.leb_spec (limit_of (def e)) (attempts e)) as [Hge | Hlt].
  - destruct (Z.ltb_spec (attempts e) (limit_of (def e))); [lia |]. done.
  - destruct (Z.ltb_spec (attempts e) (limit_of (def e))); [| lia]. cbn.
    split; [done |]. split; [done |]. rewrite Z.shiftl_mul_pow2 by lia.
    assert (0 < delay_of (def e)) as Hpos
      by (unfold delay_of; destruct (Z.leb_spec (RetryDelay (def e)) 0); [done | lia]).
    assert (2 ^ attempts e ≤ 2 ^ limit_of (def e)) by (apply Z.pow_le_mono_r; lia).
    assert (0 < 2 ^ attempts e) by (apply Z.pow_pos_nonneg; lia).
    assert (0 < delay_of (def e) * 2 ^ attempts e ≤ max_int64) as Hp by nia.
    rewrite !wrap64_id by int64. done.
Qed.

Lemma mod_next i m : 0 ≤ m → i mod (m + 1) < m → (i + 1) mod (m + 1) = i mod (m + 1) + 1.
Proof.
  intros Hm Hlt. pose proof (Z.mod_pos_bound i (m + 1) ltac:(lia)). rewrite <-Z.add_mod_idemp_l by lia.
  apply Z.mod_small. lia.
Qed.

Lemma mod_wraps i m : 0 ≤ m → i mod (m + 1) = m → (i + 1) mod (m + 1) = 0.
Proof. intros Hm He. rewrite <-Z.add_mod_idemp_l, He by lia. apply Z.mod_same. lia. Qed.

(** The round counter after [n] failures. *)
Lemma fails_attempts name s e sched ws :
  tasks s !! name = Some e → schedule e = Some sched → attempts e = 0 →
  0 ≤ limit_of (def e) < 2 ^ 62 → delay_of (def e) * 2 ^ limit_of (def e) ≤ max_int64 →
  ∃ e', tasks (fails name s ws) !! name = Some e' ∧ def e' = def e ∧ schedule e' = Some sched ∧
    attempts e' = Z.of_nat (length ws) mod (limit_of (def e) + 1).
Proof.
  intros He Hs H0 Hl Hd. induction ws as [| [w err] ws IH] using rev_ind.
  { exists e. by rewrite H0. }
  destruct IH as (e' & He' & Hdef & Hs' & Ha). unfold fails in *.
  rewrite foldl_app. cbn [foldl]. set (s1 := foldl _ s ws) in *.
  destruct (finish_failed name err w s1 e' sched He' Hs') as [Ht _].
  pose proof (Z.mod_pos_bound (Z.of_nat (length ws)) (limit_of (def e) + 1) ltac:(lia)).
  destruct (retry_step (with_running false e') (clock w)) as (H1 & H2 & H3); cbn;
    rewrite ?Hdef; try done; [lia |].
  exists (retryTimeLocked (with_running false e') (clock w)).2. cbn in H1, H2, H3.
  rewrite H1, H2, Hdef, Hs'. split; [done |]. split; [done |]. split; [done |].
  rewrite Hdef, Ha in H3. rewrite length_app, Nat2Z.inj_add. cbn [length].
  destruct (Z.ltb_spec (Z.of_nat (length ws) mod (limit_of (def e) + 1)) (limit_of (def e))) as [Hk | Hk].
  all: destruct H3 as [_ ->]; symmetry.
  - apply mod_next; lia.
  - apply mod_wraps; lia.
Qed.

(** Retries follow the documented policy.  A task that fails run after run
    is retried after its base delay, then twice that, doubling until its
    attempts are used up, never later than its schedule asks; the next failure
    waits for the schedule and starts a new round.  The count is kept exactly
    for any number of failures in a row, each recorded with its error. *)
Theorem retry_rounds name s e sched ws w err :
  tasks s !! name = Some e → schedule e = Some sched → attempts e = 0 →
  0 ≤ limit_of (def e) < 2 ^ 62 → delay_of (def e) * 2 ^ limit_of (def e) ≤ max_int64 →
  ∃ st, state (fails name s (ws ++ [(w, err)])) !! Name (def e) = Some st ∧
    LastStatus st = StatusFailed ∧ LastError st = err ∧
    NextRun st = next_after (def e) sched (Z.of_nat (length ws)) (clock w).
Proof.
  intros He Hs H0 Hl Hd.
  destruct (fails_attempts name s e sched ws He Hs H0 Hl Hd) as (e' & He' & Hdef & Hs' & Ha).
  unfold fails in *. rewrite foldl_app. cbn [foldl]. set (s1 := foldl _ s ws) in *.
  destruct (finish_failed name err w s1 e' sched He' Hs') as [_ (st & Hst & H1 & H2 & H3)].
  pose proof (Z.mod_pos_bound (Z.of_nat (length ws)) (limit_of (def e) + 1) ltac:(lia)).
  destruct (retry_step (with_running false e') (clock w)) as (Hd1 & _ & Hr); cbn;
    rewrite ?Hdef; try done; [lia |].
  exists st. rewrite Hd1 in Hst. cbn in Hst, Hr. rewrite Hdef in Hst, Hr. rewrite Ha in Hr.
  split; [done |]. split; [done |]. split; [done |]. rewrite H3. unfold next_after.
  destruct (_ <? limit_of (def e)); destruct Hr as [-> _]; [| done].
  set (t := clock w + _). destruct (Z.ltb_spec t (Next sched (clock w))); lia.
Qed.

(** * Replays *)

Definition well_named (s : Scheduler) : Prop :=
  ∀ name e, tasks s !! name = Some e → Name (def e) = name.

(** The record of a task on file, if its run was missed. *)
Definition missed_of (now : Z) (s : Scheduler) (name : string) : option (string * Z) :=
  match tasks s !! name, state s !! name with
  | Some e, Some st =>
      if is_missed (CatchUpWindow (opts s)) now e st then Some (name, NextRun st) else None
  | _, _ => None
  end.

Lemma missed_of_name now s n p : missed_of now s n = Some p → p.1 = n.
Proof.
  unfold missed_of. destruct (tasks s !! n), (state s !! n); try done.
  destruct (is_missed _ _ _ _); [by intros [= <-] | done].
Qed.

Lemma is_missed_refresh window now node e st :
  is_missed window now e (refresh node e st) = is_missed window now e st
  ∧ NextRun (refresh node e st) = NextRun st.
Proof. unfold refresh, is_missed. by destruct (LockedBy _ =s node). Qed.

Lemma syncLoop_opts now names s : opts (syncLoop now names s).2 = opts s.
Proof.
  revert s. induction names as [| name names IH]; intros s; cbn [syncLoop]; [done |].
  destruct (tasks s !! name) as [e |]; [| apply IH].
  assert (opts (stateForLocked e s).2 = opts s) as Ho
    by (unfold stateForLocked; by destruct (state s !! Name (def e))).
  destruct (stateForLocked e s) as [st s1]. cbn [snd] in Ho.
  specialize (IH (set_state (Name (def e)) (refresh (NodeID (opts s1)) e st) s1)).
  destruct (syncLoop now names _) as [missed s2]. cbn in *. congruence.
Qed.

(** What one task's turn leaves for the others. *)
Lemma missed_of_frame now s name e st n :
  well_named s → tasks s !! name = Some e → n ≠ name →
  missed_of now (set_state (Name (def e)) st (stateForLocked e s).2) n = missed_of now s n.
Proof.
  intros Hw He Hn. assert (Name (def e) = name) as E by by apply Hw.
  unfold missed_of, stateForLocked.
  destruct (state s !! Name (def e)); cbn; rewrite E; by rewrite !lookup_insert_ne by done.
Qed.

Lemma syncLoop_exact now names s :
  well_named s → NoDup names → (syncLoop now names s).1 = omap (missed_of now s) names.
Proof.
  revert s. induction names as [| name names IH]; intros s Hw Hnd; cbn [syncLoop]; [done |].
  apply NoDup_cons in Hnd as [Hni Hnd]. cbn [omap list_omap].
  destruct (tasks s !! name) as [e |] eqn:He.
  2: { unfold missed_of at 1. rewrite He. by apply IH. }
  assert (Name (def e) = name) as E by by apply Hw.
  pose proof (stateFor_frame e s) as [Ht _].
  pose proof (λ st n, missed_of_frame now s name e st n Hw He) as Hframe.
  assert (opts (stateForLocked e s).2 = opts s
          ∧ is_missed (CatchUpWindow (opts s)) now e (stateForLocked e s).1
            = match missed_of now s name with Some _ => true | None => false end
          ∧ ∀ p, missed_of now s name = Some p → p = (name, NextRun (stateForLocked e s).1))
    as (Ho & Hm & Hp).
  { unfold missed_of, stateForLocked. rewrite E, He.
    destruct (state s !! name) as [st |]; cbn.
    - split; [done |]. destruct (is_missed _ now e st); [| done]. split; [done |]. by intros p [= <-].
    - split; [done |]. split; [| done]. unfold is_missed. cbn. rewrite Z.eqb_refl. cbn.
      by rewrite andb_false_r. }
  destruct (stateForLocked e s) as [st s1]. cbn [fst snd] in *.
  set (s2 := set_state (Name (def e)) (refresh (NodeID (opts s1)) e st) s1).
  pose proof (syncLoop_opts now names s2) as Ho2.
  assert ((syncLoop now names s2).1 = omap (missed_of now s) names) as Hrest.
  { rewrite IH; [| | done].
    - assert (∀ n, n ∈ names → missed_of now s2 n = missed_of now s n) as Hs
        by (intros n Hn; apply Hframe; by intros ->).
      clear -Hs. induction names as [| n names IHn]; cbn; [done |].
      rewrite Hs by left. rewrite IHn; [done |]. intros m Hm. apply Hs. by right.
    - intros n e' Hn. apply Hw. by rewrite <-Ht. }
  destruct (syncLoop now names s2) as [missed s3]. cbn [fst snd] in *.
  rewrite Hrest, Ho2. change (opts s2) with (opts s1). rewrite Ho.
  destruct (is_missed_refresh (CatchUpWindow (opts s)) now (NodeID (opts s)) e st) as [-> ->].
  rewrite Hm. destruct (missed_of now s name) as [p |] eqn:Hq; [| done].
  by rewrite (Hp p eq_refl).
Qed.

Definition due_of (s : Scheduler) (name : string) : Z :=
  match state s !! name with Some st => NextRun st | None => never end.

End scheduler.

Arguments mkTask {W} _ _ _ _ _ _ _ _ _ _.

(** * Samples *)

Definition lease : Locker Z (gmap string string) :=
  mkLocker
    (λ _ task node _ l,
      match l !! task with
      | Some n => (n =s node, None, l)
      | None => (true, None, <[task := node]> l)
      end)
    (λ _ task node l,
      (None, match l !! task with Some n => if n =s node then delete task l else l | None => l end)).

Definition durations (s : string) : Result string Z :=
  if s =s "5m" then Ok (5 * Minute) else if s =s "15m" then Ok (15 * Minute) else Err "no duration".

Definition no_error (_ : Z) : option string := None.
Definition never_so (_ : Z) : bool := false.

#[local] Notation sample_new :=
  (New (W := Z) durations (mkOptions "" "node-1" 0 0 0) (Some 0) None (∅ : gmap string string) None).

Definition sample_op : Op (W := Z) → prog Scheduler Z unit :=
  handler (λ w, w) never_so never_so no_error no_error no_error durations lease.

#[local] Notation sample_handlers :=
  (handlers (λ w, w) never_so never_so no_error no_error no_error durations lease).

Definition play_ops (moves : list (Op (W := Z) + nat)) : sys (Scheduler (W := Z)) Z :=
  foldl play (Sys sample_new [] [])
    (map (λ m, match m with inl op => Begin (sample_op op) | inr i => Go i 7 end) moves).

Lemma play_ops_reachable moves : reachable sample_handlers sample_new (play_ops moves).
Proof.
  apply play_reachable; [| constructor].
  intros p Hp. apply list_elem_of_fmap in Hp as ([op | i] & E & _); [| done].
  exists op. by injection E.
Qed.

(** A bound cluster task, started by hand and stopped inside its function. *)
Definition first_run : list (Op (W := Z) + nat) :=
  [inl (OpBind TaskBackupDaily (Some no_error)); inr 0%nat; inl (OpRunNow TaskBackupDaily)]
  ++ repeat (inr 0%nat) 6.

Lemma task_never_overlaps_witness :
  multiplicity TaskBackupDaily (inside (now_at (play_ops first_run))) = 1%nat ∧
  (multiplicity TaskBackupDaily (inside (now_at (play_ops first_run)))
   ≤ flag (now_at (play_ops first_run)) TaskBackupDaily ≤ 1)%nat.
Proof.
  split; [vm_compute; reflexivity |].
  apply (task_never_overlaps (λ w : Z, w) never_so never_so no_error no_error no_error durations lease
           (mkOptions "" "node-1" 0 0 0) (Some 0) None ∅ None _ TaskBackupDaily (λ _, eq_refl)
           (play_ops_reachable first_run)).
Defined.

(** The outcome of a run is recorded, and the task may be claimed again, before
    its lock is given back: the second run takes the lock it already holds, the
    first one then releases it under the second. *)
Definition second_run : list (Op (W := Z) + nat) :=
  first_run ++ repeat (inr 0%nat) 2 ++ [inl (OpRunNow TaskBackupDaily)] ++ repeat (inr 0%nat) 6
  ++ [inr 1%nat].

Example lock_released_under_a_run :
  let c := play_ops second_run in
  reachable sample_handlers sample_new c ∧
  multiplicity TaskBackupDaily (inside (now_at c)) = 1%nat ∧
  locks (now_at c) !! TaskBackupDaily = None.
Proof.
  cbv zeta. split; [apply play_ops_reachable |].
  split; vm_compute; reflexivity.
Qed.

Definition job : Task (W := Z) :=
  mkTask "job" "@every 4h" true false (Some no_error) "Job" "" false 0 0.
Definition job_schedule : Schedule := SInterval (4 * Hour) "@every 4h".
Definition job_entry : taskEntry := mkEntry job (Some job_schedule) false false false 0.
Definition job_scheduler : Scheduler :=
  mkScheduler (mkOptions "" "node-1" Hour 0 0) {[ "job" := job_entry ]} ["job"] ∅ true false None tt ∅.

Lemma retry_rounds_witness :
  ∃ st, state (fails (λ w, w) no_error "job" job_scheduler [(10, "refused"); (20, "refused")])
      !! "job" = Some st ∧ LastError st = "refused" ∧ NextRun st = 20 + 10 * Minute.
Proof.
  destruct (retry_rounds (λ w : Z, w) no_error "job" job_scheduler job_entry job_schedule
              [(10, "refused")] 20 "refused" eq_refl eq_refl eq_refl
              ltac:(vm_compute; split; congruence) ltac:(vm_compute; congruence))
    as (st & Hst & _ & He & Hnext).
  exists st. split; [exact Hst |]. split; [exact He |]. rewrite Hnext. reflexivity.
Defined.

(** Doubling is a shift of a 64-bit number: with enough attempts the delay turns
    negative and the retry is due at once. *)
Example backoff_overflows :
  let t := mkTask "busy" "@hourly" false false (Some no_error) "busy" "" false 30 0 in
  let r := retryTimeLocked (mkEntry t None false false false 25) 0 in
  match r.1 with Some at_ => at_ < 0 | None => False end.
Proof. vm_compute. reflexivity. Qed.

(** A document on file with one run due at 100 s. *)
Definition due_record (name : string) : TaskState :=
  mkState name name "" never StatusFailed "interrupted by shutdown" (100 * second) 0 1 true "" never.

Definition restarted (name : string) : Scheduler (W := Z) :=
  let s := run (λ _, 0) (Bind name (Some no_error)) 0
             (New durations (mkOptions "/var/lib" "node-1" 0 0 0) (Some 0) None (∅ : gmap string string) None) in
  set_states {[ name := due_record name ]} s.1.2.


(** A run that the shutdown interrupted is on file as due at once, but a task
    that does not ask for replays is given its next regular time instead. *)
Example interrupted_not_retried :
  let answer := startSection (λ w : Z, w) no_error no_error (200 * second)
                  (set_saved (Some {[ TaskHealthcheckSelf := due_record TaskHealthcheckSelf ]})
                     (restarted TaskHealthcheckSelf)) in
  answer.1 = (None, []) ∧
  NextRun <$> (state answer.2 !! TaskHealthcheckSelf) = Some (500 * second).
Proof. split; vm_compute; reflexivity. Qed.
