(* ===== verification/Chunk.v ===== *)
(** Content-defined chunking of backups: [src/src/backup/chunk.go].

    Bytes are integers below 256 and hashes are 64-bit words.  The rolling hash
    of the loop is proved equal to hashing the last 48 bytes afresh at every
    position, which is what makes a boundary depend on its neighbourhood only. *)
From stdpp Require Import prelude list.
From Stdlib Require Import ZArith Lia.
From S2P Require Import Prelude.

(** * 64-bit words *)

Definition u64 (z : Z) : Z := z mod 2 ^ 64.

(** [bits.RotateLeft64]. *)
Definition RotateLeft64 (x k : Z) : Z :=
  let s := k mod 64 in Z.lor (u64 (Z.shiftl x s)) (Z.shiftr x (64 - s)).

(** * Chunking *)

Definition chunkWindow : Z := 48.
Definition chunkMin : Z := Z.shiftl 2 10.
Definition chunkMask : Z := Z.shiftl 1 13 - 1.
Definition chunkMax : Z := Z.shiftl 64 10.

Definition splitmix_gamma : Z := 0x9E3779B97F4A7C15.

(** One value of the splitmix64 sequence. *)
Definition splitmix (state : Z) : Z :=
  let z := u64 (Z.lxor state (Z.shiftr state 30) * 0xBF58476D1CE4E5B9) in
  let z := u64 (Z.lxor z (Z.shiftr z 27) * 0x94D049BB133111EB) in
  Z.lxor z (Z.shiftr z 31).

Fixpoint buz_values (n : nat) (state : Z) : list Z :=
  match n with
  | O => []
  | S n' => let state := u64 (state + splitmix_gamma) in splitmix state :: buz_values n' state
  end.

Definition newBuzTables : list Z * list Z :=
  let table := buz_values 256 splitmix_gamma in
  (table, map (λ z, RotateLeft64 z (chunkWindow mod 64)) table).

Definition buzTable : list Z := Eval vm_compute in newBuzTables.1.
Definition buzOut : list Z := Eval vm_compute in newBuzTables.2.

(** Indexing a table or the data; the code never leaves the range. *)
Definition at_ (l : list Z) (i : Z) : Z := nth (Z.to_nat i) l 0.

Definition slice (data : list Z) (a b : Z) : list Z :=
  take (Z.to_nat (b - a)) (drop (Z.to_nat a) data).

(** The loop at index [i], with [rest] what is left of the data from there. *)
Fixpoint splitLoop (data rest : list Z) (i start h : Z) : list (list Z) :=
  match rest with
  | [] => if start <? Z.of_nat (length data) then [drop (Z.to_nat start) data] else []
  | b :: rest' =>
      let h := Z.lxor (RotateLeft64 h 1) (at_ buzTable b) in
      let h := if chunkWindow <=? i - start
               then Z.lxor h (at_ buzOut (at_ data (i - chunkWindow))) else h in
      let size := i - start + 1 in
      if size <? chunkMin then splitLoop data rest' (i + 1) start h
      else if (chunkMax <=? size) || (Z.land h chunkMask =? 0)
      then slice data start (i + 1) :: splitLoop data rest' (i + 1) (i + 1) 0
      else splitLoop data rest' (i + 1) start h
  end.

Definition splitBlocks (data : list Z) : list (list Z) := splitLoop data data 0 0 0.

(** * The reference *)

(** The hash of a window, from scratch. *)
Definition windowHash (w : list Z) : Z :=
  fold_left (λ h b, Z.lxor (RotateLeft64 h 1) (at_ buzTable b)) w 0.

Definition lastn (n : Z) (l : list Z) : list Z := drop (length l - Z.to_nat n) l.

(** Whether a chunk ends here. *)
Definition boundary (chunk : list Z) : bool :=
  let size := Z.of_nat (length chunk) in
  (chunkMin <=? size) &&
  ((chunkMax <=? size) || (Z.land (windowHash (lastn chunkWindow chunk)) chunkMask =? 0)).

Fixpoint refSplit (cur rest : list Z) : list (list Z) :=
  match rest with
  | [] => match cur with [] => [] | _ => [cur] end
  | b :: rest' =>
      let cur := cur ++ [b] in
      if boundary cur then cur :: refSplit [] rest' else refSplit cur rest'
  end.

(** * Rotations *)

Definition is_u64 (z : Z) : Prop := 0 ≤ z < 2 ^ 64.

Lemma u64_high z i : is_u64 z → 64 ≤ i → Z.testbit z i = false.
Proof.
  intros [H1 H2] Hi. destruct (Z.eq_dec z 0) as [->|]; [apply Z.bits_0|].
  apply Z.bits_above_log2; [lia|]. apply Z.log2_lt_pow2; [lia|].
  eapply Z.lt_le_trans; [exact H2|]. apply Z.pow_le_mono_r; lia.
Qed.

(** A word is determined by its 64 bits. *)
Lemma u64_ext a b : is_u64 a → is_u64 b →
  (∀ i, 0 ≤ i < 64 → Z.testbit a i = Z.testbit b i) → a = b.
Proof.
  intros Ha Hb H. apply Z.bits_inj'. intros i Hi.
  destruct (Z.lt_ge_cases i 64); [by apply H|]. by rewrite !u64_high.
Qed.

Lemma is_u64_bits z : 0 ≤ z → (∀ i, 64 ≤ i → Z.testbit z i = false) → is_u64 z.
Proof.
  intros Hz H. split; [done|]. destruct (Z.eq_dec z 0) as [->|]; [lia|].
  apply Z.log2_lt_pow2; [lia|]. apply Z.nle_gt. intros Hl.
  specialize (H (Z.log2 z) Hl). rewrite Z.bit_log2 in H by lia. done.
Qed.

Lemma u64_lxor a b : is_u64 a → is_u64 b → is_u64 (Z.lxor a b).
Proof.
  intros Ha Hb. apply is_u64_bits; [apply Z.lxor_nonneg; unfold is_u64 in *; lia|].
  intros i Hi. by rewrite Z.lxor_spec, !u64_high.
Qed.

Lemma rotl_u64 x k : is_u64 x → is_u64 (RotateLeft64 x k).
Proof.
  intros Hx. unfold RotateLeft64. set (s := k mod 64).
  assert (0 ≤ s < 64) by (apply Z.mod_pos_bound; lia).
  apply is_u64_bits.
  - apply Z.lor_nonneg. split; [apply Z.mod_pos_bound; lia|]. apply Z.shiftr_nonneg, Hx.
  - intros i Hi. unfold u64. rewrite Z.lor_spec, Z.mod_pow2_bits_high, Z.shiftr_spec by lia.
    simpl. apply u64_high; [done|lia].
Qed.

Lemma rotl_testbit x k i : is_u64 x → 0 ≤ i < 64 →
  Z.testbit (RotateLeft64 x k) i = Z.testbit x ((i - k) mod 64).
Proof.
  intros Hx Hi. unfold RotateLeft64, u64. set (s := k mod 64).
  assert (0 ≤ s < 64) as Hs by (apply Z.mod_pos_bound; lia).
  rewrite Z.lor_spec, Z.mod_pow2_bits_low, Z.shiftl_spec, Z.shiftr_spec by lia.
  assert ((i - k) mod 64 = (i - s) mod 64) as ->.
  { subst s. rewrite Zminus_mod_idemp_r. done. }
  destruct (Z.le_gt_cases s i) as [Hle|Hlt].
  - rewrite (Z.mod_small (i - s)) by lia. rewrite (u64_high x (i + (64 - s))) by (done || lia).
    apply orb_false_r.
  - rewrite (Z.testbit_neg_r x (i - s)) by lia. simpl. f_equal.
    rewrite <-(Z.mod_add (i - s) 1 64) by lia. rewrite Z.mod_small; lia.
Qed.

Lemma rotl_lxor a b k : is_u64 a → is_u64 b →
  RotateLeft64 (Z.lxor a b) k = Z.lxor (RotateLeft64 a k) (RotateLeft64 b k).
Proof.
  intros Ha Hb. apply u64_ext.
  - by apply rotl_u64, u64_lxor.
  - by apply u64_lxor; apply rotl_u64.
  - intros i Hi. rewrite Z.lxor_spec, !rotl_testbit, Z.lxor_spec; auto using u64_lxor.
Qed.

Lemma rotl_rotl x a b : is_u64 x → RotateLeft64 (RotateLeft64 x a) b = RotateLeft64 x (a + b).
Proof.
  intros Hx. apply u64_ext; [by apply rotl_u64, rotl_u64|by apply rotl_u64|].
  intros i Hi. rewrite !rotl_testbit; auto using rotl_u64; [|apply Z.mod_pos_bound; lia].
  rewrite Zminus_mod_idemp_l. do 2 f_equal. lia.
Qed.

Lemma rotl_0 x : is_u64 x → RotateLeft64 x 0 = x.
Proof.
  intros Hx. apply u64_ext; [by apply rotl_u64|done|]. intros i Hi.
  rewrite rotl_testbit by done. by rewrite Z.sub_0_r, Z.mod_small.
Qed.

Lemma rotl_zero k : RotateLeft64 0 k = 0.
Proof.
  apply u64_ext; [by apply rotl_u64|done|]. intros i Hi. by rewrite rotl_testbit, !Z.bits_0.
Qed.

(** * The rolling hash *)

Lemma table_u64 b : is_u64 (at_ buzTable b).
Proof.
  assert (Forall is_u64 buzTable) as H.
  { assert (forallb (λ z, (0 <=? z) && (z <? 2 ^ 64)) buzTable = true) as Hc
      by (vm_compute; reflexivity).
    rewrite forallb_forall in Hc. apply Forall_forall. intros z Hz%list_elem_of_In.
    specialize (Hc z Hz). apply andb_true_iff in Hc as [?%Z.leb_le ?%Z.ltb_lt]. done. }
  unfold at_. destruct (nth_in_or_default (Z.to_nat b) buzTable 0) as [Hin| ->]; [|done].
  rewrite Forall_forall in H. by apply H, list_elem_of_In.
Qed.

Lemma table_out b : at_ buzOut b = RotateLeft64 (at_ buzTable b) chunkWindow.
Proof.
  assert (buzOut = map (λ z, RotateLeft64 z chunkWindow) buzTable) as -> by (vm_compute; reflexivity).
  exact (map_nth (λ z, RotateLeft64 z chunkWindow) buzTable 0 (Z.to_nat b)).
Qed.

Notation step := (λ h b, Z.lxor (RotateLeft64 h 1) (at_ buzTable b)).

Lemma step_u64 h b : is_u64 h → is_u64 (step h b).
Proof. intros Hh. apply u64_lxor; [by apply rotl_u64|apply table_u64]. Qed.

Lemma fold_u64 w h : is_u64 h → is_u64 (fold_left step w h).
Proof. revert h. induction w as [|b w IH]; intros h Hh; [done|]. apply IH. by apply step_u64. Qed.

(** What the hash held before the window is only rotated by it. *)
Lemma fold_shift w h : is_u64 h →
  fold_left step w h = Z.lxor (RotateLeft64 h (Z.of_nat (length w))) (fold_left step w 0).
Proof.
  revert h. induction w as [|b w IH]; intros h Hh; simpl fold_left.
  - by rewrite Z.lxor_0_r, rotl_0.
  - rewrite (IH (step h b)) by by apply step_u64. rewrite (IH (step 0 b)) by by apply step_u64.
    assert (is_u64 0) by done.
    rewrite !rotl_lxor by auto using rotl_u64, table_u64. rewrite !rotl_zero.
    rewrite rotl_rotl by done.
    rewrite Z.lxor_0_l, !Z.lxor_assoc. do 2 f_equal. simpl. lia.
Qed.

(** Moving the window by one byte. *)
Lemma windowHash_slide x w b : Z.of_nat (length w) + 1 = chunkWindow →
  Z.lxor (step (windowHash (x :: w)) b) (at_ buzOut x) = windowHash (w ++ [b]).
Proof.
  intros Hw. rewrite table_out.
  assert (step (windowHash (x :: w)) b = windowHash ((x :: w) ++ [b])) as ->
    by (unfold windowHash; by rewrite fold_left_app).
  unfold windowHash. simpl. change (RotateLeft64 0 1) with 0. rewrite Z.lxor_0_l.
  rewrite (fold_shift (w ++ [b]) (at_ buzTable x)) by apply table_u64.
  rewrite length_app. simpl. replace (Z.of_nat (length w + 1)) with chunkWindow by lia.
  rewrite (Z.lxor_comm (RotateLeft64 _ _)), Z.lxor_assoc, Z.lxor_nilpotent. apply Z.lxor_0_r.
Qed.

Lemma windowHash_snoc w b : windowHash (w ++ [b]) = step (windowHash w) b.
Proof. unfold windowHash. by rewrite fold_left_app. Qed.

Lemma lastn_all n l : Z.of_nat (length l) ≤ n → lastn n l = l.
Proof. intros H. unfold lastn. by replace (length l - Z.to_nat n)%nat with 0%nat by lia. Qed.

(** The last bytes of a chunk that is longer than the window. *)
Lemma lastn_long cur : chunkWindow ≤ Z.of_nat (length cur) →
  ∃ front x w, cur = front ++ x :: w ∧ Z.of_nat (length w) + 1 = chunkWindow ∧
    lastn chunkWindow cur = x :: w ∧ ∀ b, lastn chunkWindow (cur ++ [b]) = w ++ [b].
Proof.
  unfold chunkWindow. intros H. set (k := (length cur - 48)%nat).
  destruct (drop k cur) as [|x w] eqn:E.
  { apply (f_equal length) in E. rewrite length_drop in E. simpl in E. lia. }
  assert (length (x :: w) = 48%nat) as Hl by (rewrite <-E, length_drop; lia). simpl in Hl.
  exists (take k cur), x, w. split; [by rewrite <-E, take_drop|]. split; [lia|].
  split; [unfold lastn; by rewrite <-E|]. intros b. unfold lastn.
  rewrite length_app. simpl. replace (length cur + 1 - Z.to_nat 48)%nat with (S k) by lia.
  assert (drop (S k) cur = w) as Ew.
  { replace (S k) with (k + 1)%nat by lia. rewrite <-drop_drop, E. done. }
  rewrite drop_app_le by lia. by rewrite Ew.
Qed.

(** * Correctness *)

(** The loop, with [cur] the chunk being built and the hash that of its window. *)
Lemma splitLoop_ref pre cur rest i start h :
  start = Z.of_nat (length pre) → i = start + Z.of_nat (length cur) →
  h = windowHash (lastn chunkWindow cur) →
  splitLoop (pre ++ cur ++ rest) rest i start h = refSplit cur rest.
Proof.
  revert pre cur i start h. induction rest as [|b rest IH]; intros pre cur i start h Hs Hi Hh.
  - cbn [splitLoop refSplit]. rewrite !length_app, app_nil_r, Hs, Nat2Z.id, drop_app_length.
    destruct (Z.ltb_spec (Z.of_nat (length pre))
      (Z.of_nat (length pre + (length cur + length (@nil Z))))), cur; simpl in *; try done; lia.
  - cbn [splitLoop refSplit]. cbv zeta.
    assert ((if chunkWindow <=? i - start
             then Z.lxor (step h b) (at_ buzOut (at_ (pre ++ cur ++ b :: rest) (i - chunkWindow)))
             else step h b) = windowHash (lastn chunkWindow (cur ++ [b]))) as ->.
    { subst h. destruct (Z.leb_spec chunkWindow (i - start)) as [Hw|Hw].
      - destruct (lastn_long cur ltac:(lia)) as (front & x & w & Ec & Hlen & El & Eb).
        rewrite El, Eb. rewrite <-(windowHash_slide x w b Hlen). do 2 f_equal.
        unfold at_. rewrite Ec, <-(app_assoc front), app_nth2, app_nth2;
          [|rewrite Ec in Hi; rewrite length_app in Hi; simpl in Hi; lia..].
        replace (Z.to_nat (i - chunkWindow) - length pre - length front)%nat with 0%nat; [done|].
        rewrite Ec in Hi. rewrite length_app in Hi. simpl in Hi. lia.
      - rewrite !lastn_all by (rewrite ?length_app; simpl; lia). by rewrite windowHash_snoc. }
    set (h' := windowHash _).
    assert (length (cur ++ [b]) = S (length cur)) as Hlen by (rewrite length_app; simpl; lia).
    assert (splitLoop (pre ++ cur ++ b :: rest) rest (i + 1) start h' = refSplit (cur ++ [b]) rest) as Hgo.
    { replace (pre ++ cur ++ b :: rest) with (pre ++ (cur ++ [b]) ++ rest)
        by (by rewrite <-!app_assoc). apply IH; [done|lia|done]. }
    unfold boundary. rewrite Hlen. replace (i - start + 1) with (Z.of_nat (S (length cur))) by lia.
    destruct (Z.ltb_spec (Z.of_nat (S (length cur))) chunkMin),
      (Z.leb_spec chunkMin (Z.of_nat (S (length cur)))); try lia; [done|].
    fold h'. simpl (true && _). destruct (_ || _); [|done]. f_equal.
    + unfold slice. rewrite Hs, Nat2Z.id, drop_app_length.
      replace (Z.to_nat (i + 1 - Z.of_nat (length pre))) with (length (cur ++ [b])) by lia.
      replace (cur ++ b :: rest) with ((cur ++ [b]) ++ rest) by (by rewrite <-app_assoc).
      apply take_app_length.
    + replace (pre ++ cur ++ b :: rest) with ((pre ++ cur ++ [b]) ++ [] ++ rest)
        by (by rewrite <-!app_assoc). apply IH; [rewrite !length_app; simpl; lia|simpl; lia|done].
Qed.

Lemma splitBlocks_refSplit data : splitBlocks data = refSplit [] data.
Proof. exact (splitLoop_ref [] [] data 0 0 0 eq_refl eq_refl eq_refl). Qed.

Lemma refSplit_concat cur rest : concat (refSplit cur rest) = cur ++ rest.
Proof.
  revert cur. induction rest as [|b rest IH]; intros cur; simpl.
  - destruct cur; simpl; by rewrite ?app_nil_r.
  - destruct (boundary _); simpl; rewrite IH; by rewrite <-?app_assoc.
Qed.

(** Every block but the last ends at a boundary, and at no earlier one. *)
Definition whole (chunk : list Z) : Prop :=
  boundary chunk = true ∧ ∀ p, p `prefix_of` chunk → p ≠ chunk → p = [] ∨ boundary p = false.

Definition open_ (chunk : list Z) : Prop := ∀ p, p `prefix_of` chunk → p = [] ∨ boundary p = false.

Lemma open_snoc cur b : open_ cur → boundary (cur ++ [b]) = false → open_ (cur ++ [b]).
Proof.
  intros H Hb p [k Hk]. destruct k as [|x k _] using rev_ind.
  - rewrite app_nil_r in Hk. subst p. by right.
  - rewrite app_assoc in Hk. apply app_inj_tail in Hk as [Hk _]. apply H. by exists k.
Qed.

Lemma refSplit_blocks cur rest : open_ cur →
  ∃ full tail, refSplit cur rest = full ++ tail ∧ Forall whole full ∧
    (tail = [] ∨ ∃ c, tail = [c] ∧ c ≠ [] ∧ open_ c).
Proof.
  revert cur. induction rest as [|b rest IH]; intros cur Ho; simpl.
  - exists [], (match cur with [] => [] | _ => [cur] end). split; [done|]. split; [constructor|].
    destruct cur as [|x cur]; [by left|right]. by exists (x :: cur).
  - destruct (boundary (cur ++ [b])) eqn:Hb.
    + destruct (IH []) as (full & tail & E & Hf & Ht); [intros p Hp%prefix_nil_inv; by left|].
      exists ((cur ++ [b]) :: full), tail. rewrite E. split; [done|]. split; [|done].
      constructor; [|done]. split; [done|]. intros p [k Hk] Hne.
      destruct k as [|x k _] using rev_ind; [by rewrite app_nil_r in Hk|].
      rewrite app_assoc in Hk. apply app_inj_tail in Hk as [Hk _]. apply Ho. by exists k.
    + apply IH. by apply open_snoc.
Qed.

Lemma boundary_min c : boundary c = true → chunkMin ≤ Z.of_nat (length c).
Proof. unfold boundary. intros H. apply andb_true_iff in H as [H%Z.leb_le _]. done. Qed.

Lemma not_boundary_max c : boundary c = false → Z.of_nat (length c) < chunkMax.
Proof.
  unfold boundary. intros H. destruct (Z.leb_spec chunkMax (Z.of_nat (length c))); [|done].
  assert (chunkMin ≤ Z.of_nat (length c)) as Hm by (change chunkMax with 65536 in *; change chunkMin with 2048; lia).
  apply Z.leb_le in Hm. by rewrite Hm in H.
Qed.

Lemma open_max c : open_ c → Z.of_nat (length c) < chunkMax.
Proof. intros H. destruct (H c) as [->|Hb]; [done|done|]. by apply not_boundary_max. Qed.

Lemma whole_bounds c : whole c → chunkMin ≤ Z.of_nat (length c) ≤ chunkMax.
Proof.
  intros [Hb Hp]. split; [by apply boundary_min|].
  destruct c as [|x c _] using rev_ind; [done|]. rewrite length_app. simpl.
  assert (Z.of_nat (length c) < chunkMax); [|lia].
  destruct (Hp c) as [->|Hc]; [by exists [x]| |done|by apply not_boundary_max].
  intros E. apply (f_equal length) in E. rewrite length_app in E. simpl in E. lia.
Qed.

Lemma refSplit_tail cur rest c bs : refSplit cur rest = c :: bs → refSplit [] (concat bs) = bs.
Proof.
  revert cur. induction rest as [|b rest IH]; intros cur; simpl.
  - destruct cur; [done|]. by intros [= _ <-].
  - destruct (boundary _); [|apply IH]. intros [= _ <-]. by rewrite refSplit_concat.
Qed.

Lemma refSplit_resume a b data : refSplit [] data = a ++ b → refSplit [] (concat b) = b.
Proof.
  revert data. induction a as [|c a IH]; intros data H.
  - simpl in H. rewrite <-H. by rewrite refSplit_concat.
  - simpl in H. apply (IH (concat (a ++ b))). by eapply refSplit_tail.
Qed.

(** C34: the incremental loop is the plain specification: a chunk ends where it
    has reached the minimum and either the maximum or a zero in the masked hash of
    its last 48 bytes, hashed from scratch; the rolling update never drifts. *)
Theorem splitBlocks_reference data : splitBlocks data = refSplit [] data.
Proof. apply splitBlocks_refSplit. Qed.

(** Chunking loses nothing: the blocks put together are the data, each is
    between the minimum and the maximum size, the last one excepted, which is not
    empty and below the maximum; and from any boundary on the data is split as if
    it stood alone, so blocks after a change are found again. *)
Theorem splitBlocks_blocks data :
  concat (splitBlocks data) = data ∧
  (∃ full tail, splitBlocks data = full ++ tail ∧
     Forall (λ c, chunkMin ≤ Z.of_nat (length c) ≤ chunkMax) full ∧
     (tail = [] ∨ ∃ c, tail = [c] ∧ 0 < Z.of_nat (length c) < chunkMax)) ∧
  (∀ a b, splitBlocks data = a ++ b → splitBlocks (concat b) = b).
Proof.
  rewrite splitBlocks_refSplit. split; [apply refSplit_concat|]. split.
  - destruct (refSplit_blocks [] data) as (full & tail & E & Hf & Ht);
      [intros p Hp%prefix_nil_inv; by left|].
    exists full, tail. split; [done|]. split.
    + eapply Forall_impl; [exact Hf|]. apply whole_bounds.
    + destruct Ht as [->|(c & -> & Hne & Ho)]; [by left|right]. exists c. split; [done|].
      split; [destruct c; simpl in *; [done|lia]|by apply open_max].
  - intros a b H. rewrite splitBlocks_refSplit. by eapply refSplit_resume.
Qed.

(** 3000 equal bytes hold no boundary but the end. *)
Example splitBlocks_flat : map length (splitBlocks (repeat 7 3000)) = [3000%nat].
Proof. vm_compute. reflexivity. Qed.
