(* ===== verification/Files.v ===== *)
(** Paths and files: what package backup uses of Go's [path/filepath] and [os].

    A path names a node by its components ([key]); the disk is a finite map from
    such keys to nodes.  Package backup is given absolute directories, so
    relative paths are not resolved against a working directory.  Every system
    call counts: the environment may make any of them fail, cancel the context at
    any moment, and chooses the random part of temporary names.  A failing write
    leaves any part of its data behind. *)
From stdpp Require Import prelude strings list gmap.
From Stdlib Require Import ZArith Lia Ascii.
From S2P Require Import Prelude.

(** * Paths *)

Definition slash : ascii := "/"%char.

(** The elements of a path that name something. *)
Definition names_something (c : string) : bool := negb ((c =s "") || (c =s ".")).
Definition comps (s : string) : list string := List.filter names_something (Split s slash).

(** The lexical elimination of [..]; [up] is the result so far, last element
    first.  A rooted path has nothing above its root. *)
Fixpoint resolve (rooted : bool) (up cs : list string) : list string :=
  match cs with
  | [] => rev up
  | c :: cs' =>
      if c =s ".." then
        match up with
        | [] => resolve rooted (if rooted then [] else [c]) cs'
        | u :: up' => if u =s ".." then resolve rooted (c :: up) cs' else resolve rooted up' cs'
        end
      else resolve rooted (c :: up) cs'
  end.

Definition IsAbs (s : string) : bool := HasPrefix s "/".

Definition join_comps (cs : list string) : string := String.concat "/" cs.

(** [filepath.Clean] (and [path.Clean]). *)
Definition Clean (s : string) : string :=
  if IsAbs s then "/" +:+ join_comps (resolve true [] (comps s))
  else match resolve false [] (comps s) with [] => "." | cs => join_comps cs end.

(** [filepath.Join] (and [path.Join]): empty elements are ignored. *)
Definition Join (es : list string) : string :=
  match List.filter (λ e, negb (e =s "")) es with
  | [] => ""
  | es' => Clean (join_comps es')
  end.

(** [filepath.Base] and [filepath.Dir]. *)
Definition Base (s : string) : string :=
  if s =s "" then "." else
  match rev (List.filter (λ c, negb (c =s "")) (Split s slash)) with [] => "/" | c :: _ => c end.

Definition Dir (s : string) : string :=
  match removelast (Split s slash) with
  | [] => Clean ""
  | es => Clean (join_comps es +:+ "/")
  end.

Fixpoint strip_common (b t : list string) : list string * list string :=
  match b, t with
  | x :: b', y :: t' => if x =s y then strip_common b' t' else (b, t)
  | _, _ => (b, t)
  end.

(** [filepath.Rel]: [None] is its error. *)
Definition Rel (base targ : string) : option string :=
  if negb (Bool.eqb (IsAbs base) (IsAbs targ)) then None else
  let '(b, t) := strip_common (resolve (IsAbs base) [] (comps base))
                              (resolve (IsAbs targ) [] (comps targ)) in
  match b with
  | [] => Some (match t with [] => "." | _ => join_comps t end)
  | c :: _ =>
      if c =s ".." then None else Some (join_comps (map (λ _, "..") b ++ t))
  end.

(** The node an absolute path names. *)
Definition key (s : string) : list string := resolve true [] (comps s).

Definition HasSuffix (s p : string) : bool :=
  let k := (String.length s - String.length p)%nat in
  (String.length p <=? String.length s)%nat && (String.substring k (String.length p) s =s p).

(** [strings.TrimPrefix]. *)
Definition TrimPrefix (s p : string) : string :=
  if HasPrefix s p
  then String.substring (String.length p) (String.length s - String.length p) s else s.

(** * The disk *)

(** A regular file, a directory, or anything else (a symbolic link, a device):
    [lsize] is that entry's own size, [data] what reading through it gives. *)
Inductive node :=
| Reg (mode mtime : Z) (data : list Z)
| DirNode
| Other (mode mtime lsize : Z) (data : list Z).

Record Disk := mkDisk { nodes : gmap (list string) node; calls : nat }.

(** Package backup's sentinels, and the errors the system returns. *)
Inductive Sentinel :=
| ErrEncryptionRequired | ErrPasswordRequired | ErrInvalidPassword | ErrInvalidFormat
| ErrManifestMissing | ErrChecksumMismatch | ErrIncompatibleVersion | ErrMissingRequiredFile
| ErrDatabaseIntegrity | ErrEmptyBackup | ErrUnsafePath.

Inductive Error :=
| Sentinel_ (s : Sentinel) (detail : string)
| ErrNotExist (p : string)
| ErrSystem (text : string)
| ErrContext (text : string)
| VerificationFailed (cause : Error)
| Panicked (text : string).  (* a run-time panic, not an error value *)

Definition IsNotExist (e : Error) : bool :=
  match e with ErrNotExist _ => true | _ => false end.

(** What the outside decides, by the number of the call: a failure (with how much
    of the call was done), the cancellation of the context, the clock in
    nanoseconds, random bytes, the random part of a temporary name. *)
Record Env := mkEnv {
  env_fault : nat → option (string * nat);
  env_ctx : nat → option string;
  env_now : nat → Z;
  env_rand : nat → list Z;
  env_tmp : nat → N;
}.

Definition quiet (env : Env) : Prop := ∀ n, env_fault env n = None ∧ env_ctx env n = None.

(** * Programs over the disk *)

Definition FM (A : Type) : Type := Env → Disk → Result Error A * Disk.

Definition fret {A} (a : A) : FM A := λ _ d, (Ok a, d).
Definition fail {A} (e : Error) : FM A := λ _ d, (Err e, d).

Definition fbind {A B} (m : FM A) (k : A → FM B) : FM B := λ env d,
  match m env d with
  | (Ok a, d') => k a env d'
  | (Err e, d') => (Err e, d')
  end.

Notation "'do' x <- m ; k" := (fbind m (λ x, k))
  (at level 200, x pattern, m at level 100, k at level 200, right associativity) : cashp_scope.

(** The error as a value: [x, err := m]. *)
Definition attempt {A} (m : FM A) : FM (Result Error A) := λ env d,
  let '(r, d') := m env d in (Ok r, d').

(** [if err := m; err != nil { h; return err }]. *)
Definition on_error {A} (m : FM A) (h : FM ()) : FM A :=
  do r <- attempt m;
  match r with
  | Ok a => fret a
  | Err e => do _ <- attempt h; fail e
  end.

Definition lift {A} (r : Result Error A) : FM A :=
  match r with Ok a => fret a | Err e => fail e end.

Fixpoint each {A B} (f : A → FM B) (l : list A) : FM (list B) :=
  match l with
  | [] => fret []
  | x :: l' => do y <- f x; do ys <- each f l'; fret (y :: ys)
  end.

(** One system call: it may fail outright. *)
Definition call {A} (f : Env → nat → gmap (list string) node → Result Error A * gmap (list string) node)
    (partial : nat → gmap (list string) node → gmap (list string) node) : FM A := λ env d,
  let n := calls d in
  match env_fault env n with
  | Some (text, k) => (Err (ErrSystem text), mkDisk (partial k (nodes d)) (S n))
  | None => let '(r, m) := f env n (nodes d) in (r, mkDisk m (S n))
  end.

Definition nothing (_ : nat) (m : gmap (list string) node) : gmap (list string) node := m.

Definition ctxErr : FM () := λ env d,
  let n := calls d in
  (match env_ctx env n with Some t => Err (ErrContext t) | None => Ok () end, mkDisk (nodes d) (S n)).

Definition now : FM Z := λ env d, (Ok (env_now env (calls d)), mkDisk (nodes d) (S (calls d))).

(** [rand.Read] into a slice of [n] bytes. *)
Definition randRead (n : Z) : FM (list Z) :=
  call (λ env i m,
    (Ok (take (Z.to_nat n) (env_rand env i ++ repeat 0 (Z.to_nat n))), m)) nothing.

Record FileInfo := mkFileInfo
  { fi_mode : Z; fi_size : Z; fi_mtime : Z; fi_dir : bool; fi_regular : bool }.

Definition blen (data : list Z) : Z := Z.of_nat (length data).

Definition info_of (n : node) : FileInfo :=
  match n with
  | Reg mode mtime data => mkFileInfo mode (blen data) mtime false true
  | DirNode => mkFileInfo 448 4096 0 true false
  | Other mode mtime _ data => mkFileInfo mode (blen data) mtime false false
  end.

(** The entry's own metadata, as a directory listing gives it. *)
Definition linfo_of (n : node) : FileInfo :=
  match n with
  | Other mode mtime lsize _ => mkFileInfo mode lsize mtime false false
  | _ => info_of n
  end.

(** [os.Stat]. *)
Definition Stat (p : string) : FM FileInfo :=
  call (λ _ _ m, (match m !! key p with
                  | Some n => Ok (info_of n)
                  | None => Err (ErrNotExist p)
                  end, m)) nothing.

(** [os.ReadFile]. *)
Definition ReadFile (p : string) : FM (list Z) :=
  call (λ _ _ m, (match m !! key p with
                  | Some (Reg _ _ data) | Some (Other _ _ _ data) => Ok data
                  | Some DirNode => Err (ErrSystem ("read " +:+ p +:+ ": is a directory"))
                  | None => Err (ErrNotExist p)
                  end, m)) nothing.

(** The last component of a node directly inside the directory [dir]. *)
Definition child_of (dir k : list string) : option string :=
  match rev k with
  | c :: up => if decide (rev up = dir) then Some c else None
  | [] => None
  end.

Definition children (m : gmap (list string) node) (dir : list string) : list (string * node) :=
  sort_by (λ a b, string_leb a.1 b.1)
    (omap (λ kn, (λ c, (c, kn.2)) <$> child_of dir kn.1) (map_to_list m)).

(** [os.ReadDir]: the entries of a directory in the order of their names. *)
Definition ReadDir (p : string) : FM (list (string * node)) :=
  call (λ _ _ m, (match m !! key p with
                  | Some DirNode => Ok (children m (key p))
                  | Some _ => Err (ErrSystem ("readdirent " +:+ p +:+ ": not a directory"))
                  | None => Err (ErrNotExist p)
                  end, m)) nothing.

(** [entry.Info()] of an entry that is still there. *)
Definition Info (n : node) : FM FileInfo := call (λ _ _ m, (Ok (linfo_of n), m)) nothing.

(** [os.Remove]. *)
Definition Remove (p : string) : FM () :=
  call (λ _ _ m, match m !! key p with
                 | Some DirNode =>
                     if decide (children m (key p) = []) then (Ok (), delete (key p) m)
                     else (Err (ErrSystem ("remove " +:+ p +:+ ": directory not empty")), m)
                 | Some _ => (Ok (), delete (key p) m)
                 | None => (Err (ErrNotExist p), m)
                 end) nothing.

(** The directory and those above it, the root excepted, from the top. *)
Definition ancestors (k : list string) : list (list string) :=
  map (λ i, take i k) (seq 1 (length k)).

Definition make_dirs (ks : list (list string)) (m : gmap (list string) node)
    : gmap (list string) node :=
  fold_left (λ m k, match m !! k with None => <[k := DirNode]> m | Some _ => m end) ks m.

(** [os.MkdirAll]. *)
Definition MkdirAll (p : string) : FM () :=
  call (λ _ _ m,
    if forallb (λ k, match m !! k with None | Some DirNode => true | _ => false end)
         (ancestors (key p))
    then (Ok (), make_dirs (ancestors (key p)) m)
    else (Err (ErrSystem ("mkdir " +:+ p +:+ ": not a directory")), m))
  (λ k m,
    if forallb (λ k, match m !! k with None | Some DirNode => true | _ => false end)
         (ancestors (key p))
    then make_dirs (take k (ancestors (key p))) m else m).

(** [os.CreateTemp]: a name that is not taken, tried at most [fuel] times. *)
Fixpoint fresh_name (fuel : nat) (env : Env) (i : nat) (dir : list string) (prefix : string)
    (m : gmap (list string) node) : option string :=
  match fuel with
  | O => None
  | S f =>
      let name := prefix +:+ digits (Z.of_N (env_tmp env (i + fuel))) in
      match m !! (dir ++ [name]) with
      | None => Some name
      | Some _ => fresh_name f env i dir prefix m
      end
  end.

Definition temp_attempts : nat := Z.to_nat 10000.
#[global] Opaque temp_attempts.

Definition CreateTemp (dir prefix : string) : FM string :=
  call (λ env i m,
    match m !! key dir with
    | Some DirNode =>
        match fresh_name temp_attempts env i (key dir) prefix m with
        | Some name => (Ok (dir +:+ "/" +:+ name),
                        <[key dir ++ [name] := Reg 384 (env_now env i) []]> m)
        | None => (Err (ErrSystem ("createtemp " +:+ dir +:+ ": file exists")), m)
        end
    | _ => (Err (ErrNotExist dir), m)
    end) nothing.

(** Writing to the open temporary file; a failing write leaves some of it. *)
Definition put_data (p : string) (env : Env) (i : nat) (data : list Z)
    (m : gmap (list string) node) : gmap (list string) node :=
  match m !! key p with
  | Some (Reg mode _ _) => <[key p := Reg mode (env_now env i) data]> m
  | _ => m
  end.

Definition WriteTo (p : string) (data : list Z) : FM () := λ env d,
  call (λ env i m, (Ok (), put_data p env i data m))
       (λ k m, put_data p env (calls d) (take k data) m) env d.

(** [Sync] and [Close] of the temporary file. *)
Definition Sync : FM () := call (λ _ _ m, (Ok (), m)) nothing.
Definition Close : FM () := call (λ _ _ m, (Ok (), m)) nothing.

(** [os.Chmod]. *)
Definition Chmod (p : string) (mode : Z) : FM () :=
  call (λ _ _ m, match m !! key p with
                 | Some (Reg _ t data) => (Ok (), <[key p := Reg mode t data]> m)
                 | Some _ => (Ok (), m)
                 | None => (Err (ErrNotExist p), m)
                 end) nothing.

(** [os.Rename] of a file: it replaces a file, never a directory. *)
Definition Rename (old new : string) : FM () :=
  call (λ _ _ m, match m !! key old, m !! key new with
                 | None, _ => (Err (ErrNotExist old), m)
                 | Some _, Some DirNode =>
                     (Err (ErrSystem ("rename " +:+ old +:+ " " +:+ new +:+ ": file exists")), m)
                 | Some n, _ => (Ok (), <[key new := n]> (delete (key old) m))
                 end) nothing.

(** * Lemmas on paths *)

Fixpoint has_char (c : ascii) (s : string) : bool :=
  match s with String x s' => Ascii.eqb x c || has_char c s' | EmptyString => false end.

Lemma split_go_app sep cur a b :
  split_go sep cur (a +:+ String sep b) = split_go sep cur a ++ split_go sep "" b.
Proof.
  revert cur. induction a as [|x a IH]; intros cur.
  - simpl. by rewrite Ascii.eqb_refl.
  - rewrite string_app_cons. simpl. destruct (Ascii.eqb x sep); [|apply IH].
    simpl. f_equal. apply IH.
Qed.

Lemma split_go_plain sep cur s : has_char sep s = false → split_go sep cur s = [cur +:+ s].
Proof.
  revert cur. induction s as [|x s IH]; intros cur; simpl.
  - intros _. by rewrite string_app_empty_r.
  - intros [Hx Hs]%orb_false_iff. rewrite Hx, IH by done. by rewrite string_app_assoc.
Qed.

Lemma comps_app a b : comps (a +:+ String slash b) = comps a ++ comps b.
Proof. unfold comps, Split. by rewrite split_go_app, List.filter_app. Qed.

(** A name of a directory entry. *)
Definition plain (c : string) : Prop :=
  c ≠ "" ∧ c ≠ "." ∧ has_char slash c = false.

Lemma comps_plain c : plain c → comps c = [c].
Proof.
  intros (H1 & H2 & H3). unfold comps, Split. rewrite split_go_plain by done.
  rewrite string_app_nil. simpl. unfold names_something.
  apply seqb_neq in H1, H2. by rewrite H1, H2.
Qed.

Lemma comps_join cs : Forall plain cs → comps (join_comps cs) = cs.
Proof.
  unfold join_comps. induction 1 as [|c cs Hc Hcs IH]; [done|].
  destruct cs as [|c' cs']; [by apply comps_plain|].
  change (String.concat "/" (c :: c' :: cs')) with (c +:+ String slash (String.concat "/" (c' :: cs'))).
  by rewrite comps_app, comps_plain, IH.
Qed.

Lemma split_go_no_sep sep cur s : has_char sep cur = false →
  Forall (λ c, has_char sep c = false) (split_go sep cur s).
Proof.
  revert cur. induction s as [|x s IH]; intros cur Hcur; simpl; [by constructor|].
  destruct (Ascii.eqb x sep) eqn:E.
  - constructor; [done|]. by apply IH.
  - apply IH. clear IH. induction cur as [|y cur IHc]; [simpl; by rewrite E|].
    simpl in *. apply orb_false_iff in Hcur as [-> Hc]. by apply IHc.
Qed.

Lemma comps_are_plain s : Forall plain (comps s).
Proof.
  unfold comps. apply List.Forall_forall. intros c [Hin Hn]%filter_In.
  unfold names_something in Hn. apply negb_true_iff, orb_false_iff in Hn as [H1 H2].
  apply seqb_neq in H1, H2. repeat split; try done.
  pose proof (split_go_no_sep slash "" s eq_refl) as Hf.
  rewrite List.Forall_forall in Hf. by apply Hf.
Qed.

(** ** Resolution of rooted paths *)

Lemma resolve_plain rooted up cs :
  Forall (λ c, c ≠ "..") cs → resolve rooted up cs = rev up ++ cs.
Proof.
  revert up. induction cs as [|c cs IH]; intros up H; simpl; [by rewrite app_nil_r|].
  inversion H as [|?? Hc Hcs]; subst. apply seqb_neq in Hc. rewrite Hc, IH by done.
  simpl. by rewrite <-app_assoc.
Qed.

Lemma resolve_true_forall (P : string → Prop) up cs :
  Forall P up → Forall P cs → Forall P (resolve true up cs).
Proof.
  revert up. induction cs as [|c cs IH]; intros up Hup Hcs; simpl.
  - by apply Forall_rev.
  - inversion Hcs as [|?? Hc Hcs']; subst.
    destruct (c =s ".."); [|by apply IH; [constructor|]].
    destruct up as [|u up']; [by apply IH|]. inversion Hup; subst.
    destruct (u =s ".."); apply IH; try done; by repeat constructor.
Qed.

Lemma resolve_true_no_dots up cs :
  Forall (λ c, c ≠ "..") up → Forall (λ c, c ≠ "..") (resolve true up cs).
Proof.
  revert up. induction cs as [|c cs IH]; intros up Hup; simpl; [by apply Forall_rev|].
  destruct (c =s "..") eqn:E.
  - destruct up as [|u up']; [by apply IH|]. inversion Hup as [|?? Hu Hup']; subst.
    apply seqb_neq in Hu. rewrite Hu. by apply IH.
  - apply IH. constructor; [by apply seqb_neq|done].
Qed.

Lemma resolve_app rooted up a b :
  resolve rooted up (a ++ b) = resolve rooted (rev (resolve rooted up a)) b.
Proof.
  revert up. induction a as [|c a IH]; intros up; simpl; [by rewrite rev_involutive|].
  destruct (c =s ".."); [|apply IH].
  destruct up as [|u up']; [apply IH|]. destruct (u =s ".."); apply IH.
Qed.

(** A component of a key: the name of an entry, never [..]. *)
Definition name_ok (c : string) : Prop := plain c ∧ c ≠ "..".

Lemma key_names s : Forall name_ok (key s).
Proof.
  unfold key, name_ok. apply Forall_and. split.
  - apply resolve_true_forall; [constructor|apply comps_are_plain].
  - by apply resolve_true_no_dots.
Qed.

Lemma names_plain cs : Forall name_ok cs → Forall plain cs.
Proof. intros H. eapply Forall_impl; [exact H|]. by intros ? []. Qed.
Lemma names_no_dots cs : Forall name_ok cs → Forall (λ c, c ≠ "..") cs.
Proof. intros H. eapply Forall_impl; [exact H|]. by intros ? []. Qed.

(** The path [a/b] names what [b] names below [a]. *)
Lemma key_below a b : Forall (λ c, c ≠ "..") (comps b) →
  key (a +:+ String slash b) = key a ++ comps b.
Proof.
  intros H. unfold key. rewrite comps_app, resolve_app, resolve_plain by done.
  by rewrite rev_involutive.
Qed.

Lemma comps_rooted s : comps (String slash s) = comps s.
Proof. apply (comps_app "" s). Qed.

Lemma key_join_comps cs : Forall name_ok cs → key ("/" +:+ join_comps cs) = cs.
Proof.
  intros H. unfold key. change ("/" +:+ join_comps cs) with (String slash (join_comps cs)).
  rewrite comps_rooted, comps_join by by apply names_plain.
  rewrite resolve_plain by by apply names_no_dots. done.
Qed.

Lemma key_Clean s : IsAbs s = true → key (Clean s) = key s.
Proof.
  intros H. unfold Clean. rewrite H. apply key_join_comps, key_names.
Qed.

Lemma IsAbs_app a b : IsAbs a = true → IsAbs (a +:+ b) = true.
Proof. unfold IsAbs, HasPrefix. destruct a as [|x a]; [done|]. simpl. by destruct (Ascii.ascii_dec "/" x); destruct a, b. Qed.

(** Joining a name below an absolute directory. *)
Lemma Join_two root r : IsAbs root = true → r ≠ "" →
  Join [root; r] = Clean (root +:+ String slash r).
Proof.
  intros Hr Hne. unfold Join. simpl.
  destruct (root =s "") eqn:E; [apply seqb_eq in E; by subst|].
  apply seqb_neq in Hne. rewrite Hne. done.
Qed.

Lemma key_Join root cs : IsAbs root = true → Forall name_ok cs → cs ≠ [] →
  key (Join [root; join_comps cs]) = key root ++ cs.
Proof.
  intros Hr Hcs Hne.
  assert (comps (join_comps cs) = cs) as Hc by (apply comps_join, names_plain, Hcs).
  rewrite Join_two; [|done|].
  - rewrite key_Clean by by apply IsAbs_app. rewrite key_below, Hc; [done|].
    rewrite Hc. by apply names_no_dots.
  - intros E. rewrite E in Hc. by destruct cs.
Qed.

(** ** Paths in their shortest form *)

Definition clean_path (t : string) : Prop := IsAbs t = true ∧ Clean t = t.

Lemma clean_path_shape t : clean_path t → t = "/" +:+ join_comps (key t).
Proof. intros [Ha Hc]. rewrite <-Hc at 1. unfold Clean. by rewrite Ha. Qed.

Lemma IsAbs_slash s : IsAbs (String slash s) = true.
Proof. unfold IsAbs, HasPrefix. simpl. by destruct s. Qed.

Lemma clean_Clean s : IsAbs s = true → clean_path (Clean s).
Proof.
  intros H. assert (IsAbs (Clean s) = true) as Ha.
  { unfold Clean. rewrite H. apply IsAbs_slash. }
  split; [done|]. unfold Clean at 1. rewrite Ha.
  change (resolve true [] (comps (Clean s))) with (key (Clean s)). rewrite key_Clean by done.
  unfold Clean. by rewrite H.
Qed.

Lemma clean_Join root r : IsAbs root = true → r ≠ "" → clean_path (Join [root; r]).
Proof. intros. rewrite Join_two by done. by apply clean_Clean, IsAbs_app. Qed.

Lemma Split_join cs : cs ≠ [] → Forall plain cs → Split (join_comps cs) slash = cs.
Proof.
  intros Hne. unfold join_comps, Split. induction 1 as [|c cs (_ & _ & Hc) Hcs IH]; [done|].
  destruct cs as [|c' cs'].
  - simpl. by rewrite split_go_plain.
  - change (String.concat "/" (c :: c' :: cs')) with (c +:+ String slash (String.concat "/" (c' :: cs'))).
    rewrite split_go_app, split_go_plain by done. by rewrite IH.
Qed.

Lemma Split_clean t : clean_path t → key t ≠ [] → Split t slash = "" :: key t.
Proof.
  intros Ht Hk. rewrite (clean_path_shape t Ht) at 1.
  change ("/" +:+ join_comps (key t)) with ("" +:+ String slash (join_comps (key t))).
  unfold Split. rewrite split_go_app. f_equal. apply Split_join; [done|apply names_plain, key_names].
Qed.

Lemma Base_clean t cs c : clean_path t → key t = cs ++ [c] → Base t = c.
Proof.
  intros Ht Hk. pose proof (key_names t) as Hn. rewrite Hk in Hn.
  apply Forall_app in Hn as [_ [[Hp _] _]%Forall_cons].
  assert (t ≠ "") as Hne by (destruct Ht as [Ha _]; by intros ->).
  unfold Base. apply seqb_neq in Hne. rewrite Hne, Split_clean, Hk by (done || by rewrite Hk; destruct cs).
  simpl. rewrite List.filter_app. simpl. destruct Hp as [Hc _]. apply seqb_neq in Hc. rewrite Hc.
  simpl. by rewrite rev_app_distr.
Qed.

Lemma join_comps_snoc cs c : cs ≠ [] → join_comps (cs ++ [c]) = join_comps cs +:+ String slash c.
Proof.
  unfold join_comps. induction cs as [|x cs IH]; [done|]. intros _.
  destruct cs as [|y cs]; [done|].
  change ((x :: y :: cs) ++ [c]) with (x :: y :: (cs ++ [c])).
  change (String.concat "/" (x :: y :: cs ++ [c]))
    with (x +:+ String slash (String.concat "/" ((y :: cs) ++ [c]))).
  rewrite IH by done.
  change (String.concat "/" (x :: y :: cs)) with (x +:+ String slash (String.concat "/" (y :: cs))).
  by rewrite !string_app_assoc, string_app_cons.
Qed.

Lemma key_Dir_clean t cs c : clean_path t → key t = cs ++ [c] → key (Dir t) = cs.
Proof.
  intros Ht Hk. pose proof (key_names t) as Hn. rewrite Hk in Hn.
  apply Forall_app in Hn as [Hcs _]. unfold Dir.
  rewrite Split_clean, Hk by (done || by rewrite Hk; destruct cs).
  change ("" :: cs ++ [c]) with (("" :: cs) ++ [c]). rewrite removelast_last.
  destruct cs as [|x cs]; [done|].
  assert (join_comps ("" :: x :: cs) +:+ "/" = ("/" +:+ join_comps (x :: cs)) +:+ String slash "") as ->.
  { done. }
  rewrite key_Clean by apply IsAbs_slash. rewrite key_below; [|constructor].
  rewrite key_join_comps by done. by rewrite app_nil_r.
Qed.

Lemma key_snoc a c : name_ok c → key (a +:+ String slash c) = key a ++ [c].
Proof.
  intros [Hp Hd]. rewrite key_below; rewrite (comps_plain c Hp); [done|by repeat constructor].
Qed.

(** * Reasoning about programs *)

(** Every run, whatever fails, moves the nodes by [R]. *)
Definition steps (R : relation (gmap (list string) node)) {A} (m : FM A) : Prop :=
  ∀ env d, R (nodes d) (nodes (m env d).2).

Section steps.
Context (R : relation (gmap (list string) node)) {HR : PreOrder R}.

Lemma steps_ret {A} (a : A) : steps R (fret a).
Proof. intros env d. reflexivity. Qed.

Lemma steps_fail {A} e : steps R (A:=A) (fail e).
Proof. intros env d. reflexivity. Qed.

Lemma steps_bind {A B} (m : FM A) (k : A → FM B) :
  steps R m → (∀ a, steps R (k a)) → steps R (fbind m k).
Proof.
  intros Hm Hk env d. unfold fbind. specialize (Hm env d).
  destruct (m env d) as [[a|e] d']; simpl in *; [|done].
  etrans; [exact Hm|]. apply Hk.
Qed.

Lemma steps_attempt {A} (m : FM A) : steps R m → steps R (attempt m).
Proof. intros Hm env d. unfold attempt. specialize (Hm env d). by destruct (m env d). Qed.

Lemma steps_on_error {A} (m : FM A) h : steps R m → steps R h → steps R (on_error m h).
Proof.
  intros Hm Hh. apply steps_bind; [by apply steps_attempt|]. intros [a|e]; [apply steps_ret|].
  apply steps_bind; [by apply steps_attempt|]. intros _. apply steps_fail.
Qed.

Lemma steps_lift {A} (r : Result Error A) : steps R (lift r).
Proof. destruct r; [apply steps_ret|apply steps_fail]. Qed.

Lemma steps_call {A} f partial :
  (∀ env n m, R m (f env n m).2) → (∀ k m, R m (partial k m)) → steps R (call (A:=A) f partial).
Proof.
  intros Hf Hp env d. unfold call. destruct (env_fault env (calls d)) as [[text k]|]; [apply Hp|].
  specialize (Hf env (calls d) (nodes d)). by destruct (f env (calls d) (nodes d)).
Qed.

Lemma steps_read {A} (f : Env → nat → gmap (list string) node → Result Error A) :
  steps R (call (λ env n m, (f env n m, m)) nothing).
Proof. apply steps_call; intros; reflexivity. Qed.

Lemma steps_Stat p : steps R (Stat p).
Proof. apply steps_read. Qed.
Lemma steps_ReadFile p : steps R (ReadFile p).
Proof. apply steps_read. Qed.
Lemma steps_ReadDir p : steps R (ReadDir p).
Proof. apply steps_read. Qed.
Lemma steps_Info n : steps R (Info n).
Proof. apply steps_read. Qed.
Lemma steps_ctxErr : steps R ctxErr.
Proof. intros env d. reflexivity. Qed.
Lemma steps_now : steps R now.
Proof. intros env d. reflexivity. Qed.
Lemma steps_randRead n : steps R (randRead n).
Proof. apply steps_read. Qed.
Lemma steps_Sync : steps R Sync.
Proof. apply (steps_read (λ _ _ _, Ok ())). Qed.
Lemma steps_Close : steps R Close.
Proof. apply (steps_read (λ _ _ _, Ok ())). Qed.

Lemma steps_each {A B} (f : A → FM B) l : (∀ x, steps R (f x)) → steps R (each f l).
Proof.
  intros Hf. induction l as [|x l IH]; simpl; [apply steps_ret|].
  apply steps_bind; [done|]. intros y. apply steps_bind; [done|]. intros ys. apply steps_ret.
Qed.
End steps.

Create HintDb steps.
#[export] Hint Resolve steps_ret steps_fail steps_lift steps_Stat steps_ReadFile steps_ReadDir
  steps_Info steps_ctxErr steps_now steps_randRead steps_Sync steps_Close
  steps_each steps_attempt : steps.

#[export] Hint Extern 0 (PreOrder _) => typeclasses eauto : steps.

(** Walks through a program, splitting on what it branches on. *)
Ltac steps_all :=
  repeat first
    [ progress intros
    | solve [eauto with steps]
    | apply steps_bind
    | apply steps_attempt
    | apply steps_on_error
    | match goal with |- steps _ (match ?x with _ => _ end) => destruct x end ].

(** Reading programs leave the disk as it is. *)
Notation readonly := (steps eq).

(** ** Undisturbed runs *)

Lemma call_quiet {A} env d f partial : quiet env →
  call (A:=A) f partial env d =
  ((f env (calls d) (nodes d)).1, mkDisk (f env (calls d) (nodes d)).2 (S (calls d))).
Proof.
  intros Hq. unfold call. destruct (Hq (calls d)) as [-> _].
  by destruct (f env (calls d) (nodes d)).
Qed.

Lemma ctxErr_quiet env d : quiet env → ctxErr env d = (Ok (), mkDisk (nodes d) (S (calls d))).
Proof. intros Hq. unfold ctxErr. by destruct (Hq (calls d)) as [_ ->]. Qed.

Lemma Remove_quiet env d p n : quiet env → nodes d !! key p = Some n → n ≠ DirNode →
  Remove p env d = (Ok (), mkDisk (delete (key p) (nodes d)) (S (calls d))).
Proof.
  intros Hq Hn Hd. unfold Remove. rewrite call_quiet by done. rewrite Hn. by destruct n.
Qed.

Lemma fbind_ok {A B} (m : FM A) (k : A → FM B) env d a d' :
  m env d = (Ok a, d') → fbind m k env d = k a env d'.
Proof. intros E. unfold fbind. by rewrite E. Qed.

Lemma fbind_inv {A B} (m : FM A) (k : A → FM B) env d b d' :
  fbind m k env d = (Ok b, d') → ∃ a d1, m env d = (Ok a, d1) ∧ k a env d1 = (Ok b, d').
Proof. unfold fbind. destruct (m env d) as [[a|e] d1]; [|done]. eauto. Qed.

(** ** Directory listings *)

Lemma child_of_Some dir k c : child_of dir k = Some c ↔ k = dir ++ [c].
Proof.
  unfold child_of. destruct k as [|x k _] using rev_ind; simpl.
  - split; [done|]. intros E. by destruct dir.
  - rewrite rev_app_distr. simpl. rewrite rev_involutive. case_decide as Hd.
    + subst. split; [by intros [= ->]|]. intros [_ [= ->]]%app_inj_2; done.
    + split; [done|]. intros [? [= ->]]%app_inj_2; done.
Qed.

Lemma elem_of_children m dir c n : (c, n) ∈ children m dir ↔ m !! (dir ++ [c]) = Some n.
Proof.
  unfold children. rewrite sort_by_perm, list_elem_of_omap. split.
  - intros ([k n'] & Hin%elem_of_map_to_list & Hc). simpl in Hc.
    destruct (child_of dir k) as [c'|] eqn:E; [|done]. injection Hc as -> ->.
    by apply child_of_Some in E as ->.
  - intros Hm. exists (dir ++ [c], n). split; [by apply elem_of_map_to_list|].
    simpl. assert (child_of dir (dir ++ [c]) = Some c) as -> by by apply child_of_Some. done.
Qed.

Lemma children_names_NoDup m dir : NoDup (map fst (children m dir)).
Proof.
  unfold children. rewrite (Permutation_map fst (sort_by_perm _ _)).
  assert (∀ l : list (list string * node), NoDup l.*1 →
    NoDup (map fst (omap (λ kn, (λ c, (c, kn.2)) <$> child_of dir kn.1) l))) as H.
  { induction l as [|[k n] l IH]; simpl; [constructor|]. intros [Hk Hl]%NoDup_cons.
    destruct (child_of dir k) as [c|] eqn:E; simpl; [|by apply IH].
    apply NoDup_cons. split; [|by apply IH]. apply child_of_Some in E as ->.
    rewrite list_elem_of_fmap. intros ([c' n'] & -> & Hin).
    apply list_elem_of_omap in Hin as ([k' n''] & Hin & Hc). simpl in *.
    destruct (child_of dir k') as [c''|] eqn:E'; [|done]. injection Hc as -> ->.
    apply child_of_Some in E' as ->. apply Hk. apply list_elem_of_fmap. by exists (dir ++ [c'], n'). }
  apply H, NoDup_fst_map_to_list.
Qed.

(** ** What a successful call tells *)

Lemma call_inv {A} f partial env d (a : A) d' :
  call f partial env d = (Ok a, d') → f env (calls d) (nodes d) = (Ok a, nodes d').
Proof.
  unfold call. destruct (env_fault env (calls d)) as [[]|]; [done|].
  destruct (f env (calls d) (nodes d)). by intros [= -> <-].
Qed.

Lemma on_error_inv {A} (m : FM A) h env d a d' :
  on_error m h env d = (Ok a, d') → m env d = (Ok a, d').
Proof.
  unfold on_error, attempt, fbind. destruct (m env d) as [[x|e] d1]; [done|].
  by destruct (h env d1).
Qed.

Lemma lift_inv {A} (r : Result Error A) env d a d' : lift r env d = (Ok a, d') → r = Ok a ∧ d' = d.
Proof. destruct r; [|done]. by intros [= -> ->]. Qed.

(** Errors that come from outside: the system or the context. *)
Definition environmental (e : Error) : bool :=
  match e with ErrNotExist _ | ErrSystem _ | ErrContext _ => true | _ => false end.

(** A program that fails in no other way. *)
Definition system_only {A} (m : FM A) : Prop :=
  ∀ env d e, (m env d).1 = Err e → environmental e = true.

Lemma system_only_bind {A B} (m : FM A) (k : A → FM B) :
  system_only m → (∀ a, system_only (k a)) → system_only (fbind m k).
Proof.
  intros Hm Hk env d e. unfold fbind. specialize (Hm env d e).
  destruct (m env d) as [[a|e'] d']; [apply Hk|].
  simpl in *. intros [= ->]. by apply Hm.
Qed.

Lemma system_only_ret {A} (a : A) : system_only (fret a).
Proof. by intros env d e. Qed.

Lemma system_only_call {A} f partial :
  (∀ env n m e, (f env n m).1 = Err e → environmental e = true) → system_only (call (A:=A) f partial).
Proof.
  intros Hf env d e. unfold call. destruct (env_fault env (calls d)) as [[]|]; [by intros [= <-]|].
  specialize (Hf env (calls d) (nodes d) e). by destruct (f env (calls d) (nodes d)).
Qed.

Lemma system_only_on_error {A} (m : FM A) h : system_only m → system_only (on_error m h).
Proof.
  intros Hm env d e. specialize (Hm env d e). unfold on_error, attempt, fbind.
  destruct (m env d) as [[x|e'] d1]; [done|]. destruct (h env d1). simpl in *. done.
Qed.

Lemma system_only_ctxErr : system_only ctxErr.
Proof. intros env d e. unfold ctxErr. simpl. destruct (env_ctx env (calls d)); by intros [= <-]. Qed.

(** Solves [system_only] of a system call by looking at its outcomes. *)
Ltac call_cases :=
  apply system_only_call; intros ? ? ? ?;
  repeat (match goal with |- context [match ?x with _ => _ end] => destruct x end);
  simpl; first [by intros [= <-] | done].

Lemma system_only_Stat p : system_only (Stat p).
Proof. unfold Stat. call_cases. Qed.

Lemma system_only_ReadFile p : system_only (ReadFile p).
Proof. unfold ReadFile. call_cases. Qed.

Lemma system_only_randRead n : system_only (randRead n).
Proof. unfold randRead. call_cases. Qed.
