(* ===== verification/Lock.v ===== *)
(** The cluster task lock in files: [src/src/scheduler/lock.go].

    Nodes share a directory.  Every system call is one section of a [prog], so
    calls of different nodes interleave as they may on a shared file system.  An
    open file is its inode: writing to it reaches the file even when the name
    has been taken away meanwhile.  The JSON codec of the record is a parameter
    with its round trip as hypothesis.

    Operations that do not overlap implement a lease table, for every sequence
    of them; overlapping ones do not, as two examples show. *)
From stdpp Require Import prelude strings list gmap.
From Stdlib Require Import ZArith Lia Ascii.
From S2P Require Import Prelude GoTime Schedule Threads Files Scheduler.

#[local] Open Scope prog_scope.

(** * Records and names *)

Record lockRecord := mkLock { lk_Task : string; lk_NodeID : string; lk_LockedAt : Z }.

(** What a missing field decodes to. *)
Definition zero_record : lockRecord := mkLock "" "" never.

Definition safe_char (c : ascii) : ascii :=
  let n := Ascii.N_of_ascii c in
  if ((97 <=? n) && (n <=? 122) || (65 <=? n) && (n <=? 90) || (48 <=? n) && (n <=? 57)
      || (n =? 95) || (n =? 45))%N then c else "_"%char.

Definition lockPath (dir task : string) : string :=
  Join [dir; string_map safe_char task +:+ ".lock"].

Section locker.
Context {W bytes : Type}.

(** A moment: the clock, the context, and whether a system call fails. *)
Context (clock : W → Z) (ctxErr io_err : W → option string).
Context (marshal : lockRecord → bytes) (unmarshal : bytes → option lockRecord) (empty : bytes).

Record FS := mkFS { names : gmap string nat; inodes : gmap nat bytes; next_inode : nat }.

Notation P := (prog FS W).

Inductive Answer A := Got (a : A) | Exist | NotExist | Fault (m : string).
Arguments Got {A} a.
Arguments Exist {A}.
Arguments NotExist {A}.
Arguments Fault {A} m.

Definition create (path : string) (fs : FS) : nat * FS :=
  (next_inode fs, mkFS (<[path := next_inode fs]> (names fs))
                    (<[next_inode fs := empty]> (inodes fs)) (S (next_inode fs))).

Definition put (ino : nat) (data : bytes) (fs : FS) : FS :=
  mkFS (names fs) (<[ino := data]> (inodes fs)) (next_inode fs).

(** [O_CREATE|O_EXCL] *)
Definition openExcl (path : string) : P (Answer nat) :=
  atomic (λ w fs,
    match io_err w with
    | Some m => (Fault m, fs)
    | None =>
        match names fs !! path with
        | Some _ => (Exist, fs)
        | None => let '(ino, fs) := create path fs in (Got ino, fs)
        end
    end).

Definition write (ino : nat) (data : bytes) : P (option string) :=
  atomic (λ w fs,
    match io_err w with Some m => (Some m, fs) | None => (None, put ino data fs) end).

(** [O_CREATE|O_TRUNC] *)
Definition openTrunc (path : string) : P (Answer nat) :=
  atomic (λ w fs,
    match io_err w with
    | Some m => (Fault m, fs)
    | None =>
        match names fs !! path with
        | Some ino => (Got ino, put ino empty fs)
        | None => let '(ino, fs) := create path fs in (Got ino, fs)
        end
    end).

Definition open (path : string) : P (Answer nat) :=
  peek (λ w fs,
    match io_err w with
    | Some m => Fault m
    | None => match names fs !! path with Some ino => Got ino | None => NotExist end
    end).

Definition readAll (ino : nat) : P (Answer bytes) :=
  peek (λ w fs,
    match io_err w with
    | Some m => Fault m
    | None => Got (default empty (inodes fs !! ino))
    end).

Definition remove (path : string) : P (Answer unit) :=
  atomic (λ w fs,
    match io_err w with
    | Some m => (Fault m, fs)
    | None =>
        match names fs !! path with
        | Some _ => (Got tt, mkFS (delete path (names fs)) (inodes fs) (next_inode fs))
        | None => (NotExist, fs)
        end
    end).

Definition WriteFile (path : string) (data : bytes) : P (option string) :=
  let* o := openTrunc path in
  match o with
  | Got ino => write ino data
  | Exist | NotExist => Ret None
  | Fault m => Ret (Some m)
  end.

(** * The locker *)

Definition read (path : string) : P (Answer lockRecord) :=
  let* o := open path in
  match o with
  | Got ino =>
      let* d := readAll ino in
      match d with
      | Got data => Ret (Got (default zero_record (unmarshal data)))
      | Exist => Ret Exist
      | NotExist => Ret NotExist
      | Fault m => Ret (Fault m)
      end
  | Exist => Ret Exist
  | NotExist => Ret NotExist
  | Fault m => Ret (Fault m)
  end.

Definition not_exist : string := "file does not exist".

Definition Acquire (dir task nodeID : string) (ttl : Z) : P (bool * option string) :=
  let* c := peek (λ w _, ctxErr w) in
  match c with
  | Some m => Ret (false, Some m)
  | None =>
      let ttl := if ttl <=? 0 then DefaultLockTTL else ttl in
      let* mk := peek (λ w _, io_err w) in
      match mk with
      | Some m => Ret (false, Some ("scheduler: create lock dir " +:+ dir +:+ ": " +:+ m))
      | None =>
          let path := lockPath dir task in
          let* now := peek (λ w _, clock w) in
          let data := marshal (mkLock task nodeID now) in
          let* f := openExcl path in
          match f with
          | Got ino =>
              let* err := write ino data in
              match err with
              | Some m => Ret (false, Some ("scheduler: write lock " +:+ path +:+ ": " +:+ m))
              | None => Ret (true, None)
              end
          | Fault m => Ret (false, Some ("scheduler: create lock " +:+ path +:+ ": " +:+ m))
          | NotExist => Ret (false, Some ("scheduler: create lock " +:+ path +:+ ": " +:+ not_exist))
          | Exist =>
              let* existing := read path in
              match existing with
              | Got rec =>
                  let* later := peek (λ w _, clock w) in
                  if negb (lk_NodeID rec =s nodeID) && (time_Sub later (lk_LockedAt rec) <? ttl)
                  then Ret (false, None)
                  else
                    let* err := WriteFile path data in
                    match err with
                    | Some m => Ret (false, Some ("scheduler: refresh lock " +:+ path +:+ ": " +:+ m))
                    | None => Ret (true, None)
                    end
              | Fault m => Ret (false, Some m)
              | Exist | NotExist => Ret (false, Some not_exist)
              end
          end
      end
  end.

Definition Release (dir task nodeID : string) : P (option string) :=
  let* c := peek (λ w _, ctxErr w) in
  match c with
  | Some m => Ret (Some m)
  | None =>
      let path := lockPath dir task in
      let* existing := read path in
      match existing with
      | Got rec =>
          if negb (lk_NodeID rec =s nodeID) then Ret None
          else
            let* r := remove path in
            match r with
            | Fault m => Ret (Some ("scheduler: remove lock " +:+ path +:+ ": " +:+ m))
            | _ => Ret None
            end
      | NotExist => Ret None
      | Exist => Ret (Some "file exists")
      | Fault m => Ret (Some m)
      end
  end.

(** * Operations that do not overlap *)

Inductive LockOp := Take (dir task node : string) (ttl : Z) | Give (dir task node : string).

Definition calm (env : nat → W) : Prop := ∀ n, ctxErr (env n) = None ∧ io_err (env n) = None.

(** Each operation alone, with its own moments. *)
Definition runOp (op : LockOp) (env : nat → W) (fs : FS) : bool * option string * FS :=
  match op with
  | Take dir task node ttl =>
      let '(ok, err, fs, _) := run env (Acquire dir task node ttl) 0 fs in (ok, err, fs)
  | Give dir task node =>
      let '(err, fs, _) := run env (Release dir task node) 0 fs in (true, err, fs)
  end.

Fixpoint runOps (ops : list (LockOp * (nat → W))) (fs : FS) : list (bool * option string) * FS :=
  match ops with
  | [] => ([], fs)
  | (op, env) :: rest =>
      let '(ok, err, fs) := runOp op env fs in
      let '(answers, fs) := runOps rest fs in ((ok, err) :: answers, fs)
  end.

(** ** The lease table *)

#[local] Notation Lease := (gmap string (string * Z)).

Definition effective (ttl : Z) : Z := if ttl <=? 0 then DefaultLockTTL else ttl.

(** A foreign lease younger than the time allowed stands; any other is free.
    The holder's time is read before the age is judged. *)
Definition leaseOp (op : LockOp) (env : nat → W) (l : Lease) : bool * Lease :=
  match op with
  | Take dir task node ttl =>
      let granted := (true, <[lockPath dir task := (node, clock (env 2%nat))]> l) in
      match l !! lockPath dir task with
      | Some (holder, at_) =>
          if negb (holder =s node) && (time_Sub (clock (env 6%nat)) at_ <? effective ttl)
          then (false, l) else granted
      | None => granted
      end
  | Give dir task node =>
      match l !! lockPath dir task with
      | Some (holder, _) => (true, if holder =s node then delete (lockPath dir task) l else l)
      | None => (true, l)
      end
  end.

Fixpoint leaseOps (ops : list (LockOp * (nat → W))) (l : Lease) : list bool * Lease :=
  match ops with
  | [] => ([], l)
  | (op, env) :: rest =>
      let '(ok, l) := leaseOp op env l in
      let '(answers, l) := leaseOps rest l in (ok :: answers, l)
  end.

(** The files hold the table: one record per name, no inode under two names. *)
Record holds (fs : FS) (l : Lease) : Prop := {
  holds_file path ino : names fs !! path = Some ino →
    (ino < next_inode fs)%nat ∧
    ∃ r, inodes fs !! ino = Some (marshal r) ∧ l !! path = Some (lk_NodeID r, lk_LockedAt r);
  holds_none path : names fs !! path = None → l !! path = None;
  holds_inj p q ino : names fs !! p = Some ino → names fs !! q = Some ino → p = q }.

Context (roundtrip : ∀ r, unmarshal (marshal r) = Some r).

Lemma holds_record fs l path ino task node t :
  holds fs l → names fs !! path = Some ino →
  holds (put ino (marshal (mkLock task node t)) fs) (<[path := (node, t)]> l).
Proof.
  intros [Hf Hn Hi] Hp. split; cbn [names inodes next_inode put].
  - intros p i Hpi. destruct (Hf p i Hpi) as [Hlt (r & Hr & Hl)]. split; [done |].
    destruct (decide (p = path)) as [-> | Hne].
    + assert (i = ino) as -> by congruence. exists (mkLock task node t).
      split; by rewrite lookup_insert_eq.
    + exists r. split; (rewrite lookup_insert_ne; [done |]); [| congruence].
      intros ->. by apply Hne, (Hi p path i).
  - intros p Hnone. rewrite lookup_insert_ne; [by apply Hn | congruence].
  - exact Hi.
Qed.

Lemma holds_create fs l path task node t :
  holds fs l → names fs !! path = None →
  holds (put (next_inode fs) (marshal (mkLock task node t)) (create path fs).2)
        (<[path := (node, t)]> l).
Proof.
  intros [Hf Hn Hi] Hp. split; cbn [names inodes next_inode put create snd].
  - intros p i Hpi. destruct (decide (p = path)) as [-> | Hne].
    + rewrite lookup_insert_eq in Hpi. simplify_eq. split; [lia |].
      exists (mkLock task node t). split; by rewrite lookup_insert_eq.
    + rewrite lookup_insert_ne in Hpi by done. destruct (Hf p i Hpi) as [Hlt (r & Hr & Hl)].
      split; [lia |]. exists r. split; [| by rewrite lookup_insert_ne].
      by rewrite !lookup_insert_ne by lia.
  - intros p Hnone. destruct (decide (p = path)) as [-> | Hne]; [by rewrite lookup_insert_eq in Hnone |].
    rewrite lookup_insert_ne in Hnone by done. rewrite lookup_insert_ne by done. by apply Hn.
  - intros p q i Hpi Hqi. apply lookup_insert_Some in Hpi, Hqi.
    destruct Hpi as [[<- <-] | [? Hpi]], Hqi as [[<- E] | [? Hqi]]; [done | | |].
    + destruct (Hf q _ Hqi). lia.
    + destruct (Hf p _ Hpi). lia.
    + by apply (Hi p q i).
Qed.

Lemma lease_remove fs l path :
  holds fs l → holds (mkFS (delete path (names fs)) (inodes fs) (next_inode fs)) (delete path l).
Proof.
  intros [Hf Hn Hi]. split; cbn [names inodes next_inode].
  - intros p i [Hne Hpi]%lookup_delete_Some. rewrite lookup_delete_ne by done. by apply Hf.
  - intros p. destruct (decide (p = path)) as [-> | Hne]; intros Hp; [by apply lookup_delete_eq |].
    rewrite lookup_delete_ne in Hp by done. rewrite lookup_delete_ne by done. by apply Hn.
  - intros p q i [_ Hp]%lookup_delete_Some [_ Hq]%lookup_delete_Some. by apply (Hi p q i).
Qed.

Lemma put_put ino a b fs : put ino a (put ino b fs) = put ino a fs.
Proof. unfold put. cbn. by rewrite insert_insert_eq. Qed.

(** Runs the system calls whose answers are known. *)
Ltac calls :=
  repeat first [progress cbn | match goal with
  | H : ∀ n, _ (_ n) = None |- _ => rewrite H
  | H : names _ !! _ = _ |- _ => rewrite H
  | H : inodes _ !! _ = _ |- _ => rewrite H
  | H : _ !! lockPath _ _ = _ |- _ => rewrite H
  end | rewrite roundtrip].

Lemma Acquire_lease dir task node ttl env fs l :
  calm env → holds fs l →
  let '(ok, err, fs') := runOp (Take dir task node ttl) env fs in
  err = None ∧ ok = (leaseOp (Take dir task node ttl) env l).1 ∧
  holds fs' (leaseOp (Take dir task node ttl) env l).2.
Proof.
  intros Hc Hh. assert (∀ n, ctxErr (env n) = None) as H1 by apply Hc.
  assert (∀ n, io_err (env n) = None) as H2 by apply Hc. clear Hc.
  unfold runOp, Acquire, read, WriteFile. fold (effective ttl).
  destruct (names fs !! lockPath dir task) as [ino |] eqn:Hp.
  - destruct (holds_file _ _ Hh _ _ Hp) as [_ (r & Hr & Hl)]. calls.
    destruct (negb (lk_NodeID r =s node) && _); calls; [done |].
    split; [done |]. split; [done |]. rewrite put_put. by apply holds_record.
  - pose proof (holds_none _ _ Hh _ Hp) as Hl. calls.
    split; [done |]. split; [done |]. by apply holds_create.
Qed.

Lemma Release_lease dir task node env fs l :
  calm env → holds fs l →
  let '(ok, err, fs') := runOp (Give dir task node) env fs in
  err = None ∧ ok = (leaseOp (Give dir task node) env l).1 ∧
  holds fs' (leaseOp (Give dir task node) env l).2.
Proof.
  intros Hc Hh. assert (∀ n, ctxErr (env n) = None) as H1 by apply Hc.
  assert (∀ n, io_err (env n) = None) as H2 by apply Hc. clear Hc.
  unfold runOp, Release, read.
  destruct (names fs !! lockPath dir task) as [ino |] eqn:Hp.
  - destruct (holds_file _ _ Hh _ _ Hp) as [_ (r & Hr & Hl)]. calls.
    destruct (lk_NodeID r =s node); calls; [| done].
    split; [done |]. split; [done |]. by apply lease_remove.
  - pose proof (holds_none _ _ Hh _ Hp) as Hl. by calls.
Qed.

Lemma locks_refine_leases_aux ops fs l :
  holds fs l → Forall (λ p, calm p.2) ops →
  let '(answers, fs') := runOps ops fs in
  answers = map (λ ok, (ok, None)) (leaseOps ops l).1 ∧ holds fs' (leaseOps ops l).2.
Proof.
  revert fs l. induction ops as [| [op env] ops IH]; intros fs l Hh Hc; cbn [runOps leaseOps]; [done |].
  apply Forall_cons in Hc as [Hc1 Hc]. cbn [snd] in Hc1.
  assert (let '(ok, err, fs') := runOp op env fs in
          err = None ∧ ok = (leaseOp op env l).1 ∧ holds fs' (leaseOp op env l).2) as Hop.
  { destruct op; [by apply Acquire_lease | by apply Release_lease]. }
  destruct (runOp op env fs) as [[ok err] fs1]. destruct (leaseOp op env l) as [ok' l1].
  destruct Hop as (-> & -> & Hh1). cbn [fst snd] in *. specialize (IH fs1 l1 Hh1 Hc).
  destruct (runOps ops fs1) as [answers fs2], (leaseOps ops l1) as [oks l2]. cbn [fst snd] in *.
  destruct IH as [-> Hh2]. done.
Qed.


(** An operation of another node while the lease of [a] from [t0] is young. *)
Definition by_other (a : string) (t0 : Z) (path : string) (p : LockOp * (nat → W)) : Prop :=
  calm p.2 ∧
  match p.1 with
  | Take dir task node ttl =>
      lockPath dir task = path → node ≠ a ∧ time_Sub (clock (p.2 6%nat)) t0 < effective ttl
  | Give dir task node => lockPath dir task = path → node ≠ a
  end.

Lemma lease_stands a t0 path p l :
  by_other a t0 path p → l !! path = Some (a, t0) →
  (leaseOp p.1 p.2 l).2 !! path = Some (a, t0) ∧
  match p.1 with
  | Take dir task _ _ => lockPath dir task = path → (leaseOp p.1 p.2 l).1 = false
  | Give _ _ _ => True
  end.
Proof.
  destruct p as [[dir task node ttl | dir task node] env]; intros [_ Ho] Hl; cbn in *.
  - destruct (decide (lockPath dir task = path)) as [E | Hne].
    + destruct (Ho E) as [Hn Ht]. rewrite E, Hl.
      assert ((a =s node) = false) as -> by (apply seqb_neq; congruence).
      destruct (Z.ltb_spec (time_Sub (clock (env 6%nat)) t0) (effective ttl)); [done | lia].
    + split; [| done].
      destruct (l !! lockPath dir task) as [[h t] |]; [destruct (_ && _) |]; cbn; [done | |];
        by rewrite lookup_insert_ne.
  - split; [| done]. destruct (decide (lockPath dir task = path)) as [E | Hne].
    + rewrite E, Hl. specialize (Ho E).
      by assert ((a =s node) = false) as -> by (apply seqb_neq; congruence).
    + destruct (l !! lockPath dir task) as [[h t] |]; cbn; [| done].
      destruct (h =s node); [by rewrite lookup_delete_ne | done].
Qed.

Lemma leases_stand a t0 path ops l :
  Forall (by_other a t0 path) ops → l !! path = Some (a, t0) →
  (leaseOps ops l).2 !! path = Some (a, t0).
Proof.
  revert l. induction ops as [| [op env] ops IH]; intros l HF Hl; cbn [leaseOps]; [done |].
  apply Forall_cons in HF as [Ho HF]. destruct (lease_stands _ _ _ _ _ Ho Hl) as [H _].
  cbn [fst snd] in H. destruct (leaseOp op env l) as [ok l1]. cbn [snd] in H.
  specialize (IH l1 HF H). by destruct (leaseOps ops l1).
Qed.

Lemma others_calm a t0 path ops : Forall (by_other a t0 path) ops → Forall (λ p, calm p.2) ops.
Proof. intros HF. eapply Forall_impl; [exact HF |]. by intros p [H _]. Qed.

(** A task lock excludes: once a node has been granted the lock of a task,
    every acquisition of that lock by another node is refused, without an
    error, until the node releases it or its lease has grown as old as the
    time the other allows, whatever operations on this and other locks other
    nodes complete in between. *)
Theorem lock_excludes fs l dir task a ttl env0 between node ttl' env1 :
  holds fs l → calm env0 →
  let path := lockPath dir task in
  let t0 := clock (env0 2%nat) in
  (runOp (Take dir task a ttl) env0 fs).1 = (true, None) →
  Forall (by_other a t0 path) between →
  by_other a t0 path (Take dir task node ttl', env1) →
  let fs1 := (runOp (Take dir task a ttl) env0 fs).2 in
  (runOp (Take dir task node ttl') env1 (runOps between fs1).2).1 = (false, None).
Proof.
  intros Hh Hc path t0 Hok HF Hlast fs1.
  pose proof (Acquire_lease dir task a ttl env0 fs l Hc Hh) as H1. subst fs1.
  destruct (runOp (Take dir task a ttl) env0 fs) as [[ok err] fs1]. cbn [fst snd] in *.
  injection Hok as -> ->. destruct H1 as (_ & Hg & Hh1).
  assert ((leaseOp (Take dir task a ttl) env0 l).2 !! path = Some (a, t0)) as Hl1.
  { subst path t0. cbn in *. destruct (l !! lockPath dir task) as [[h t] |]; [destruct (_ && _) |]; cbn in *;
      [done | |]; by rewrite lookup_insert_eq. }
  pose proof (locks_refine_leases_aux between fs1 _ Hh1 (others_calm _ _ _ _ HF)) as H2.
  pose proof (leases_stand _ _ _ _ _ HF Hl1) as Hl2.
  destruct (runOps between fs1) as [answers fs2]. destruct H2 as [_ Hh2]. cbn [snd].
  pose proof (Acquire_lease dir task node ttl' env1 fs2 _ (proj1 Hlast) Hh2) as H3.
  destruct (lease_stands _ _ _ _ _ Hlast Hl2) as [_ Hno]. cbn [fst snd] in Hno.
  destruct (runOp (Take dir task node ttl') env1 fs2) as [[ok' err'] fs3].
  destruct H3 as (-> & -> & _). by rewrite (Hno eq_refl).
Qed.
End locker.

(** * Samples *)

(** Records stored as they are; [None] is a file that does not parse. *)
#[local] Notation acquire := (Acquire (W := Z) (λ w, w) (λ _, None) (λ _, None) Some (λ d, d) None).
#[local] Notation one := (runOp (W := Z) (λ w, w) (λ _, None) (λ _, None) Some (λ d, d) None).

Definition no_files : FS (bytes := option lockRecord) := mkFS ∅ ∅ 0.

Lemma no_files_hold : holds Some no_files ∅.
Proof. split; cbn; intros *; [| done |]; by rewrite lookup_empty. Qed.

Definition at_time (t : Z) (_ : nat) : Z := t.


Lemma lock_excludes_witness :
  (one (Take "/locks" "backup" "b" 0) (at_time 9)
     (one (Take "/locks" "backup" "a" 0) (at_time 1) no_files).2).1 = (false, None).
Proof.
  apply (lock_excludes (W := Z) (λ w, w) (λ _, None) (λ _, None) Some (λ d, d) None (λ _, eq_refl)
           no_files ∅ "/locks" "backup" "a" 0 (at_time 1) [] "b" 0 (at_time 9) no_files_hold).
  - done.
  - vm_compute. reflexivity.
  - constructor.
  - split; [done |]. intros _. split; [done | vm_compute; reflexivity].
Defined.

(** ** Overlapping acquisitions *)

(** The answers of two acquisitions whose sections run in the order given
    (false: the first one). *)
Fixpoint interleave (turns : list bool) (w : Z) (p q : prog (FS (bytes := option lockRecord)) Z (bool * option string))
    (fs : FS) : option bool * option bool :=
  match turns with
  | [] => (match p with Ret r => Some r.1 | _ => None end, match q with Ret r => Some r.1 | _ => None end)
  | false :: rest =>
      match p with
      | Atom f k => let '(a, fs') := f w fs in interleave rest w (k a) q fs'
      | _ => interleave rest w p q fs
      end
  | true :: rest =>
      match q with
      | Atom f k => let '(a, fs') := f w fs in interleave rest w p (k a) fs'
      | _ => interleave rest w p q fs
      end
  end.

(** The file exists before its record is written: a node that reads it in between
    finds nothing that parses, takes that for an abandoned lock and overwrites
    it.  Both hold the lock. *)
Example unwritten_lock_taken_over :
  interleave (repeat false 4 ++ repeat true 9 ++ [false]) 5
    (acquire "/locks" "backup" "a" 0) (acquire "/locks" "backup" "b" 0) no_files
  = (Some true, Some true).
Proof. vm_compute. reflexivity. Qed.

(** A lock of a dead node is judged and overwritten in separate steps: two nodes
    that both find it expired both take it over. *)
Example expired_lock_taken_twice :
  interleave (repeat false 7 ++ repeat true 9 ++ repeat false 2) (1000 * Minute)
    (acquire "/locks" "backup" "a" 0) (acquire "/locks" "backup" "b" 0)
    (one (Take "/locks" "backup" "dead" 0) (at_time 1) no_files).2
  = (Some true, Some true).
Proof. vm_compute. reflexivity. Qed.
