(* ===== verification/Retention.v ===== *)
(** Backup names and retention: [src/src/backup/retention.go] and the settings,
    names and versions of [src/src/backup/backup.go].

    Instants are nanoseconds.  The two regular expressions are matched by hand,
    group by group; [time.Parse] is written out for the two layouts used.  The
    theorems say that pruning touches nothing but full backups whatever fails, and
    that an undisturbed run leaves exactly what the grandfather-father-son policy
    and the size cap allow. *)
From stdpp Require Import prelude strings list gmap sorting.
From Stdlib Require Import ZArith Lia Ascii.
From S2P Require Import Prelude GoTime Files.

(** * Constants and settings *)

Definition AppName : string := "cashp".
Definition FormatVersion : string := "1.0.0".
Definition EncryptionMethod : string := "AES-256-GCM".
Definition KeyDerivation : string := "argon2id".
Definition ManifestName : string := "manifest.json".
Definition PlainExt : string := ".tar.gz".
Definition EncryptedExt : string := ".tar.gz.enc".
Definition blockPrefix : string := "blocks/".
Definition configRoot : string := "config".
Definition dataRoot : string := "data".

Definition requiredFiles : list string :=
  [configRoot +:+ "/server.yml"; dataRoot +:+ "/server.db"; dataRoot +:+ "/users.db"].

Record RetentionPolicy := mkRetentionPolicy
  { Daily : Z; Weekly : Z; Monthly : Z; Yearly : Z; MaxTotalSize : Z }.

Record Options := mkOptions
  { ConfigDir : string; DataDir : string; BackupDir : string; Compliance : bool;
    Retention : RetentionPolicy; IncludeSSL : bool; IncludeData : bool;
    AppVersion : string; CreatedBy : string }.

Definition thresholdWarnings (p : RetentionPolicy) : list string :=
  (if 7 <? Daily p then ["max_backups: " +:+ itoa (Daily p) +:+ " exceeds recommended 7 (" +:+
     itoa (Daily p) +:+ " days of daily backups)"] else []) ++
  (if 8 <? Weekly p then ["keep_weekly: " +:+ itoa (Weekly p) +:+
     " exceeds recommended 8 (more than 2 months of weekly backups)"] else []) ++
  (if 12 <? Monthly p then ["keep_monthly: " +:+ itoa (Monthly p) +:+
     " exceeds recommended 12 (more than a year of monthly backups)"] else []) ++
  (if 2 <? Yearly p then ["keep_yearly: " +:+ itoa (Yearly p) +:+
     " exceeds recommended 2 (more than 2 years of yearly backups)"] else []).

Definition NormalizeRetention (p : RetentionPolicy) : RetentionPolicy * list string :=
  let w1 := if Daily p <? 1
    then ["max_backups: " +:+ itoa (Daily p) +:+ " invalid, using default 1"] else [] in
  let w2 := if Weekly p <? 0
    then ["keep_weekly: " +:+ itoa (Weekly p) +:+ " invalid, using default 0"] else [] in
  let w3 := if Monthly p <? 0
    then ["keep_monthly: " +:+ itoa (Monthly p) +:+ " invalid, using default 0"] else [] in
  let w4 := if Yearly p <? 0
    then ["keep_yearly: " +:+ itoa (Yearly p) +:+ " invalid, using default 0"] else [] in
  let w5 := if MaxTotalSize p <? 0
    then ["max_total_size: negative value invalid, disabling size cap"] else [] in
  let p := mkRetentionPolicy
    (if Daily p <? 1 then 1 else Daily p) (if Weekly p <? 0 then 0 else Weekly p)
    (if Monthly p <? 0 then 0 else Monthly p) (if Yearly p <? 0 then 0 else Yearly p)
    (if MaxTotalSize p <? 0 then 0 else MaxTotalSize p) in
  (p, w1 ++ w2 ++ w3 ++ w4 ++ w5 ++ thresholdWarnings p).

(** * Versions *)

Fixpoint parseParts (parts : list string) : option (list Z) :=
  match parts with
  | [] => Some []
  | p :: rest =>
      match ParseInt p with
      | Some n => if n <? 0 then None
                  else match parseParts rest with Some ns => Some (n :: ns) | None => None end
      | None => None
      end
  end.

Definition malformed (v : string) : string := "malformed version " +:+ quote v.

Definition parseVersion (v : string) : Result string (Z * Z * Z) :=
  match parseParts (Split v "."%char) with
  | Some [a; b; c] => Ok (a, b, c)
  | _ => Err (malformed v)
  end.

Definition checkVersion (version : string) : Result Error string :=
  if version =s "" then Err (Sentinel_ ErrManifestMissing "manifest has no version") else
  match parseVersion version, parseVersion FormatVersion with
  | Err e, _ => Err (Sentinel_ ErrInvalidFormat e)
  | _, Err e => Err (Sentinel_ ErrInvalidFormat e)
  | Ok (g0, g1, _), Ok (w0, w1, _) =>
      if w0 <? g0
      then Err (Sentinel_ ErrIncompatibleVersion
             ("backup format " +:+ version +:+ ", this build supports " +:+ FormatVersion))
      else if (g0 <? w0) || (g1 <? w1)
      then Ok ("backup format " +:+ version +:+ " is older than " +:+ FormatVersion +:+
               "; schema updates will be applied if needed")
      else Ok ""
  end.

(** * Names *)

Definition nanos : Z := 1000000000.
Definition sec (t : Z) : Z := t / nanos.

(** [time.AppendFormat]'s integers. *)
Definition appendInt (n w : Z) : string :=
  if n <? 0 then String "-"%char (pad_left w (digits (- n))) else pad_left w (digits n).

(** [t.Format(stampLayout)] of a UTC time. *)
Definition formatStamp (t : Z) : string :=
  let t := sec t in
  appendInt (TYear t) 4 +:+ "-" +:+ appendInt (TMonth t) 2 +:+ "-" +:+ appendInt (TDay t) 2 +:+
  "_" +:+ appendInt (THour t) 2 +:+ appendInt (TMinute t) 2 +:+ appendInt (TSecond t) 2.

Definition archiveName (t : Z) (encrypted : bool) : string :=
  AppName +:+ "_backup_" +:+ formatStamp t +:+ (if encrypted then EncryptedExt else PlainExt).

(** What follows a literal prefix, and a run of exactly [n] digits. *)
Definition lit (p s : string) : option string :=
  if HasPrefix s p then Some (TrimPrefix s p) else None.

Fixpoint take_digits (n : nat) (s : string) : option (string * string) :=
  match n, s with
  | O, _ => Some ("", s)
  | S n', String c s' =>
      if is_digit c then '(d, r) ← take_digits n' s'; Some (String c d, r) else None
  | S _, EmptyString => None
  end.

Definition archive_end (s : string) : bool := (s =s PlainExt) || (s =s EncryptedExt).

(** The two groups of [fullPattern]; the second is empty when it is absent. *)
Definition fullPattern (name : string) : option (string * string) :=
  s ← lit (AppName +:+ "_backup_") name;
  '(y, s) ← take_digits 4 s; s ← lit "-" s;
  '(m, s) ← take_digits 2 s; s ← lit "-" s;
  '(d, s) ← take_digits 2 s;
  let date := y +:+ "-" +:+ m +:+ "-" +:+ d in
  match lit "_" s with
  | Some s => '(hms, s) ← take_digits 6 s; if archive_end s then Some (date, hms) else None
  | None => if archive_end s then Some (date, "") else None
  end.

Definition incrementalPattern (name : string) : bool :=
  match lit (AppName +:+ "-") name with
  | Some s =>
      match lit "daily" s with
      | Some r => archive_end r
      | None => match lit "hourly" s with Some r => archive_end r | None => false end
      end
  | None => false
  end.

Definition in_range (a n b : Z) : bool := (a <=? n) && (n <=? b).

(** [time.Parse] with [dateLayout] or [stampLayout], in Unix seconds. *)
Definition parseDate (s : string) : option (Z * Z * Z * string) :=
  '(y, s) ← take_digits 4 s; s ← lit "-" s;
  '(m, s) ← take_digits 2 s; s ← lit "-" s;
  '(d, s) ← take_digits 2 s;
  let '(y, m, d) := (dec_value 0 y, dec_value 0 m, dec_value 0 d) in
  if in_range 1 m 12 && in_range 1 d (month_length y m) then Some (y, m, d, s) else None.

Definition time_Parse (stamp : bool) (value : string) : option Z :=
  '(y, m, d, s) ← parseDate value;
  if stamp then
    s ← lit "_" s;
    '(h, s) ← take_digits 2 s; '(mi, s) ← take_digits 2 s; '(se, s) ← take_digits 2 s;
    let '(h, mi, se) := (dec_value 0 h, dec_value 0 mi, dec_value 0 se) in
    if in_range 0 h 23 && in_range 0 mi 59 && in_range 0 se 59 && (s =s "")
    then Some (TimeDate y m d h mi se) else None
  else if s =s "" then Some (TimeDate y m d 0 0 0) else None.

Definition isBackupName (name : string) : bool :=
  if negb (Contains name PlainExt) then false
  else HasPrefix name (AppName +:+ "_backup_") || HasPrefix name (AppName +:+ "-").

(** * The backup directory *)

Record backupFile := mkBackupFile
  { bf_path : string; bf_name : string; bf_when : Z; bf_size : Z; bf_incremental : bool }.

(** The moment a name tells, or else the modification time. *)
Definition name_when (name : string) (mtime : Z) : Z :=
  match fullPattern name with
  | Some (date, hms) =>
      match (if hms =s "" then time_Parse false date
             else time_Parse true (date +:+ "_" +:+ hms)) with
      | Some t => t * nanos
      | None => mtime
      end
  | None => mtime
  end.

Definition backupFile_of (dir name : string) (info : FileInfo) : backupFile :=
  mkBackupFile (Join [dir; name]) name (name_when name (fi_mtime info)) (fi_size info)
    (incrementalPattern name).

Fixpoint scanEntries (dir : string) (entries : list (string * node)) : FM (list backupFile) :=
  match entries with
  | [] => fret []
  | (name, n) :: rest =>
      if fi_dir (linfo_of n) then scanEntries dir rest
      else if negb (isBackupName name) then scanEntries dir rest
      else do info <- Info n;
           do out <- scanEntries dir rest;
           fret (backupFile_of dir name info :: out)
  end.

(** Newest first, then by name. *)
Definition newer (a b : backupFile) : bool :=
  if bf_when a =? bf_when b then string_leb (bf_name a) (bf_name b)
  else bf_when b <? bf_when a.

Definition scan (o : Options) : FM (list backupFile) :=
  do r <- attempt (ReadDir (BackupDir o));
  match r with
  | Err e => if IsNotExist e then fret [] else fail e
  | Ok entries =>
      do out <- scanEntries (BackupDir o) entries;
      fret (sort_by newer out)
  end.

Definition isYearly (t : Z) : bool := (TMonth (sec t) =? 1) && (TDay (sec t) =? 1).
Definition isMonthly (t : Z) : bool := TDay (sec t) =? 1.
Definition isWeekly (t : Z) : bool := TWeekday (sec t) =? 0.

(** The counters of the pass. *)
Record Counts := mkCounts { c_yearly : Z; c_monthly : Z; c_weekly : Z; c_daily : Z }.

(** The slot a backup takes, if one is free: the [switch]. *)
Definition takeSlot (p : RetentionPolicy) (c : Counts) (when : Z) : option Counts :=
  let '(mkCounts y m w d) := c in
  if isYearly when && (y <? Yearly p) then Some (mkCounts (y + 1) m w d)
  else if isMonthly when && (m <? Monthly p) then Some (mkCounts y (m + 1) w d)
  else if isWeekly when && (w <? Weekly p) then Some (mkCounts y m (w + 1) d)
  else if d <? Daily p then Some (mkCounts y m w (d + 1))
  else None.

(** The first loop: what is kept (newest first), what is removed, the total. *)
Fixpoint pruneCounts (p : RetentionPolicy) (c : Counts) (kept : list backupFile)
    (removed : list string) (total : Z) (files : list backupFile)
    : FM (list backupFile * list string * Z) :=
  match files with
  | [] => fret (kept, removed, total)
  | f :: rest =>
      if bf_incremental f then pruneCounts p c kept removed (total +! bf_size f) rest
      else match takeSlot p c (bf_when f) with
           | Some c' => pruneCounts p c' (kept ++ [f]) removed (total +! bf_size f) rest
           | None => do _ <- Remove (bf_path f);
                     pruneCounts p c kept (removed ++ [bf_path f]) total rest
           end
  end.

(** The second loop, from the oldest kept backup. *)
Fixpoint pruneSize (cap : Z) (oldest : list backupFile) (removed : list string) (total : Z)
    : FM (list string) :=
  match oldest with
  | [] => fret removed
  | f :: rest =>
      if cap <? total
      then do _ <- Remove (bf_path f);
           pruneSize cap rest (removed ++ [bf_path f]) (total -! bf_size f)
      else fret removed
  end.

Definition Prune (o : Options) : FM (list string) :=
  do _ <- ctxErr;
  do files <- scan o;
  let policy := (NormalizeRetention (Retention o)).1 in
  do (kept, removed, total) <- pruneCounts policy (mkCounts 0 0 0 0) [] [] 0 files;
  do removed <- (if 0 <? MaxTotalSize policy
                 then pruneSize (MaxTotalSize policy) (rev kept) removed total
                 else fret removed);
  fret (sort_strings removed).

Example prune_names :
  (fullPattern "cashp_backup_2026-02-01.tar.gz", fullPattern "cashp_backup_2026-02-01_031500.tar.gz.enc",
   time_Parse true "2026-02-01_031500", time_Parse false "2026-02-30",
   incrementalPattern "cashp-hourly.tar.gz", archiveName 1769915700000000000 true) =
  (Some ("2026-02-01", ""), Some ("2026-02-01", "031500"), Some 1769915700, None, true,
   "cashp_backup_2026-02-01_031500.tar.gz.enc").
Proof. vm_compute. reflexivity. Qed.

(** * What the policy says *)

Inductive Slot := SYear | SMonth | SWeek | SDay.

#[global] Instance Slot_eq_dec : EqDecision Slot.
Proof. solve_decision. Defined.

Definition eligible (s : Slot) (when : Z) : bool :=
  match s with
  | SYear => isYearly when
  | SMonth => isMonthly when
  | SWeek => isWeekly when
  | SDay => true
  end.

Definition limit (p : RetentionPolicy) (s : Slot) : Z :=
  match s with SYear => Yearly p | SMonth => Monthly p | SWeek => Weekly p | SDay => Daily p end.

Definition taken (asg : list (backupFile * option Slot)) (s : Slot) : Z :=
  Z.of_nat (length (List.filter (λ fs, bool_decide (fs.2 = Some s)) asg)).

Definition has_slot (fs : backupFile * option Slot) : bool := bool_decide (is_Some fs.2).
Definition slotless (fs : backupFile * option Slot) : bool := negb (has_slot fs).

(** The archives of the directory, newest first, and the full ones. *)
Definition listed (dir : string) (m : gmap (list string) node) : list backupFile :=
  sort_by newer (omap (λ cn : string * node,
    if fi_dir (linfo_of cn.2) || negb (isBackupName cn.1) then None
    else Some (backupFile_of dir cn.1 (linfo_of cn.2))) (children m (key dir))).

Definition fulls (l : list backupFile) : list backupFile :=
  List.filter (λ f, negb (bf_incremental f)) l.
Definition incrementals (l : list backupFile) : list backupFile := List.filter bf_incremental l.

Definition total_size (l : list backupFile) : Z := foldr (λ f n, bf_size f + n) 0 l.

Definition delete_all (ps : list string) (m : gmap (list string) node) : gmap (list string) node :=
  foldr (λ p m, delete (key p) m) m ps.

(** Every node of the disk has a proper name. *)
Definition disk_ok (m : gmap (list string) node) : Prop :=
  ∀ k n, m !! k = Some n → Forall name_ok k.

(** * Listing *)

Lemma newer_total a b : newer a b = false → newer b a = true.
Proof.
  unfold newer. rewrite (Z.eqb_sym (bf_when b)).
  destruct (Z.eqb_spec (bf_when a) (bf_when b)); [apply string_leb_total|].
  rewrite Z.ltb_ge, Z.ltb_lt. lia.
Qed.

Lemma newer_trans a b c : newer a b = true → newer b c = true → newer a c = true.
Proof.
  unfold newer. destruct (Z.eqb_spec (bf_when a) (bf_when b)) as [E1|E1],
    (Z.eqb_spec (bf_when b) (bf_when c)) as [E2|E2],
    (Z.eqb_spec (bf_when a) (bf_when c)) as [E3|E3]; rewrite ?Z.ltb_lt; intros H1 H2;
    rewrite ?Z.ltb_lt in *; try lia. by eapply string_leb_trans.
Qed.

Lemma listed_newest_first dir m :
  Sorted.StronglySorted (λ a b, newer a b = true) (listed dir m).
Proof. apply sort_by_ordered; [apply newer_total|apply newer_trans]. Qed.

Lemma elem_of_listed dir m f :
  f ∈ listed dir m ↔
  ∃ name n, m !! (key dir ++ [name]) = Some n ∧ fi_dir (linfo_of n) = false ∧
            isBackupName name = true ∧ f = backupFile_of dir name (linfo_of n).
Proof.
  unfold listed. rewrite sort_by_perm, list_elem_of_omap. split.
  - intros ([name n] & Hin%elem_of_children & Hf). simpl in Hf.
    destruct (fi_dir (linfo_of n)) eqn:Hd; [done|]. destruct (isBackupName name) eqn:Hn; [|done].
    injection Hf as <-. by exists name, n.
  - intros (name & n & Hm & Hd & Hn & ->). exists (name, n).
    split; [by apply elem_of_children|]. simpl. by rewrite Hd, Hn.
Qed.

(** What may be removed is never a directory, and stands where its path says. *)
Lemma listed_node dir m f : IsAbs dir = true → disk_ok m → f ∈ listed dir m →
  key (bf_path f) = key dir ++ [bf_name f] ∧ ∃ n, m !! key (bf_path f) = Some n ∧ n ≠ DirNode.
Proof.
  intros Hd Hok (name & n & Hm & Hdir & _ & ->)%elem_of_listed. simpl.
  assert (key (Join [dir; name]) = key dir ++ [name]) as ->.
  { apply (key_Join dir [name]); [done| |done]. specialize (Hok _ _ Hm).
    by apply Forall_app in Hok as [_ Hok]. }
  split; [done|]. exists n. split; [done|]. by intros ->.
Qed.

Lemma scanEntries_quiet dir entries env d : quiet env →
  ∃ d', scanEntries dir entries env d =
    (Ok (omap (λ cn : string * node,
       if fi_dir (linfo_of cn.2) || negb (isBackupName cn.1) then None
       else Some (backupFile_of dir cn.1 (linfo_of cn.2))) entries), d') ∧ nodes d' = nodes d.
Proof.
  intros Hq. revert d. induction entries as [|[name n] rest IH]; intros d; simpl; [by exists d|].
  destruct (fi_dir (linfo_of n)); [apply IH|]. destruct (isBackupName name); [|apply IH]. simpl.
  unfold Info. erewrite fbind_ok by (rewrite call_quiet by done; reflexivity). simpl.
  destruct (IH (mkDisk (nodes d) (S (calls d)))) as (d' & E & En). simpl in *.
  erewrite fbind_ok by exact E. by exists d'.
Qed.

Lemma scan_quiet o env d : quiet env → nodes d !! key (BackupDir o) = Some DirNode →
  ∃ d', scan o env d = (Ok (listed (BackupDir o) (nodes d)), d') ∧ nodes d' = nodes d.
Proof.
  intros Hq Hdir. unfold scan, attempt, ReadDir. unfold fbind at 1. rewrite call_quiet by done.
  rewrite Hdir. simpl.
  destruct (scanEntries_quiet (BackupDir o) (children (nodes d) (key (BackupDir o))) env
    (mkDisk (nodes d) (S (calls d))) Hq) as (d' & E & En).
  erewrite fbind_ok by exact E. by exists d'.
Qed.

(** What [scan] returns, in any run. *)
Lemma scanEntries_any dir entries env d files d' :
  scanEntries dir entries env d = (Ok files, d') →
  nodes d' = nodes d ∧
  files = omap (λ cn : string * node,
       if fi_dir (linfo_of cn.2) || negb (isBackupName cn.1) then None
       else Some (backupFile_of dir cn.1 (linfo_of cn.2))) entries.
Proof.
  revert files d. induction entries as [|[name n] rest IH]; intros files d; simpl.
  - by intros [= <- <-].
  - destruct (fi_dir (linfo_of n)); [apply IH|]. destruct (isBackupName name); [|apply IH]. simpl.
    intros (info & d1 & Hi & (out & d2 & Ho & [= <- <-])%fbind_inv)%fbind_inv.
    apply IH in Ho as [En ->]. unfold Info, call in Hi.
    destruct (env_fault env (calls d)) as [[]|]; [done|]. injection Hi as <- <-. simpl in En.
    done.
Qed.

Lemma steps_scanEntries R `{!PreOrder R} dir entries : steps R (scanEntries dir entries).
Proof. induction entries as [|[name n] rest IH]; simpl; steps_all; done. Qed.

Lemma steps_scan R `{!PreOrder R} o : steps R (scan o).
Proof. unfold scan. steps_all. apply steps_scanEntries; done. Qed.

Lemma scan_any o env d files d' : scan o env d = (Ok files, d') →
  nodes d' = nodes d ∧ (files = [] ∨ files = listed (BackupDir o) (nodes d)).
Proof.
  intros H. split.
  { pose proof (steps_scan eq o env d) as Hs. by rewrite H in Hs. }
  revert H. unfold scan, attempt, ReadDir, call. unfold fbind at 1.
  destruct (env_fault env (calls d)) as [[]|]; simpl; [done|].
  destruct (nodes d !! key (BackupDir o)) as [[]|]; simpl; try done.
  - intros (out & d1 & [_ ->]%scanEntries_any & [= <- <-])%fbind_inv. by right.
  - intros [= <- <-]. by left.
Qed.

(** * Whatever fails *)

(** Nodes only disappear, and only those in [D]. *)
Definition removes_only (D : list string → Prop) : relation (gmap (list string) node) :=
  λ m m', ∀ k, m' !! k = m !! k ∨ (m' !! k = None ∧ D k).

#[global] Instance removes_only_preorder D : PreOrder (removes_only D).
Proof.
  split; [by left|]. intros a b c Hab Hbc k.
  destruct (Hbc k) as [->|?]; [apply Hab|by right].
Qed.

Lemma steps_Remove (D : list string → Prop) p : D (key p) → steps (removes_only D) (Remove p).
Proof.
  intros HD. apply steps_call; [|intros; reflexivity]. intros env n m k.
  assert (delete (key p) m !! k = m !! k ∨ delete (key p) m !! k = None ∧ D k).
  { destruct (decide (k = key p)) as [->|]; [right; by rewrite lookup_delete_eq|].
    left. by apply lookup_delete_ne. }
  destruct (m !! key p) as [[]|]; try case_decide; simpl; auto.
Qed.

Lemma steps_pruneCounts D p c kept removed total files :
  (∀ f, f ∈ files → bf_incremental f = false → D (key (bf_path f))) →
  steps (removes_only D) (pruneCounts p c kept removed total files).
Proof.
  revert c kept removed total.
  induction files as [|f rest IH]; intros c kept removed total HD; simpl.
  { apply steps_ret, _. }
  assert (∀ c kept removed total, steps (removes_only D) (pruneCounts p c kept removed total rest)) as Hr.
  { intros. apply IH. intros g Hg. apply HD. by right. }
  destruct (bf_incremental f) eqn:Hi; [done|]. destruct (takeSlot p c (bf_when f)); [done|].
  apply steps_bind; [apply _| |done]. apply steps_Remove, HD; [left|done].
Qed.

Lemma steps_pruneSize D cap oldest removed total :
  (∀ f, f ∈ oldest → D (key (bf_path f))) →
  steps (removes_only D) (pruneSize cap oldest removed total).
Proof.
  revert removed total. induction oldest as [|f rest IH]; intros removed total HD; simpl.
  { apply steps_ret, _. }
  destruct (cap <? total); [|apply steps_ret, _].
  apply steps_bind; [apply _|apply steps_Remove, HD; left|]. intros _. apply IH.
  intros g Hg. apply HD. by right.
Qed.

(** What the first loop keeps comes from its input. *)
Lemma pruneCounts_kept p c kept removed total files env d K R T d' :
  pruneCounts p c kept removed total files env d = (Ok (K, R, T), d') →
  ∀ f, f ∈ K → f ∈ kept ∨ (f ∈ files ∧ bf_incremental f = false).
Proof.
  revert c kept removed total d.
  induction files as [|g rest IH]; intros c kept removed total d; simpl.
  { intros [= <- _ _ _] f Hf. by left. }
  destruct (bf_incremental g) eqn:Hg.
  { intros H f Hf. destruct (IH _ _ _ _ _ H f Hf) as [?|[? ?]]; [by left|].
    right. split; [by right|done]. }
  destruct (takeSlot p c (bf_when g)).
  - intros H f Hf. destruct (IH _ _ _ _ _ H f Hf) as [Hk|[? ?]]; [|right; split; [by right|done]].
    apply elem_of_app in Hk as [?|<-%list_elem_of_singleton]; [by left|].
    right. split; [left|done].
  - intros ([] & d1 & _ & H)%fbind_inv f Hf.
    destruct (IH _ _ _ _ _ H f Hf) as [?|[? ?]]; [by left|right]. split; [by right|done].
Qed.

(** A full backup of the directory. *)
Definition full_backup (dir : string) (m : gmap (list string) node) (k : list string) : Prop :=
  ∃ f, f ∈ listed dir m ∧ bf_incremental f = false ∧ k = key (bf_path f).

Lemma steps_after_scan (o : Options) (m0 : gmap (list string) node) (files : list backupFile) :
  files = [] ∨ files = listed (BackupDir o) m0 →
  steps (removes_only (full_backup (BackupDir o) m0))
    (let policy := (NormalizeRetention (Retention o)).1 in
     do (kept, removed, total) <- pruneCounts policy (mkCounts 0 0 0 0) [] [] 0 files;
     do removed <- (if 0 <? MaxTotalSize policy
                    then pruneSize (MaxTotalSize policy) (rev kept) removed total
                    else fret removed);
     fret (sort_strings removed)).
Proof.
  intros Hf. cbv zeta. set (policy := (NormalizeRetention (Retention o)).1).
  assert (∀ f, f ∈ files → bf_incremental f = false →
    full_backup (BackupDir o) m0 (key (bf_path f))) as HD.
  { intros f Hin Hi. exists f. destruct Hf as [->| ->]; [by apply not_elem_of_nil in Hin|done]. }
  intros env d. pose proof (steps_pruneCounts _ policy (mkCounts 0 0 0 0) [] [] 0 files HD env d) as H1.
  unfold fbind at 1.
  destruct (pruneCounts _ _ _ _ _ _ env d) as [[[[kept removed] total]|e] d1] eqn:E; [|done].
  etrans; [exact H1|].
  assert (steps (removes_only (full_backup (BackupDir o) m0))
    (do removed <- (if 0 <? MaxTotalSize policy
                    then pruneSize (MaxTotalSize policy) (rev kept) removed total
                    else fret removed); fret (sort_strings removed))) as Hs; [|apply Hs].
  apply steps_bind; [apply _| |intros; apply steps_ret, _].
  destruct (0 <? MaxTotalSize policy); [|apply steps_ret, _].
  apply steps_pruneSize. intros f Hin.
  rewrite <-Permutation_rev in Hin.
  destruct (pruneCounts_kept _ _ _ _ _ _ _ _ _ _ _ _ E f Hin) as [?%not_elem_of_nil|[? ?]]; [done|].
  by apply HD.
Qed.

(** Pruning is safe in every run: whatever fails and whenever the context is
    cancelled, the disk is what it was, full backups of the backup directory
    aside; those are files under a name the application gives its archives,
    never an incremental one and never a directory, and pruning creates nothing. *)
Theorem Prune_only_full_backups o env d (m := nodes d) (m' := nodes (Prune o env d).2)
  (Habs : IsAbs (BackupDir o) = true) (Hok : disk_ok m) k :
  m' !! k = m !! k ∨
  (m' !! k = None ∧
   ∃ name n, k = key (BackupDir o) ++ [name] ∧ m !! k = Some n ∧ n ≠ DirNode ∧
             isBackupName name = true ∧ incrementalPattern name = false).
Proof.
  assert (removes_only (full_backup (BackupDir o) m) m m') as H.
  { subst m m'. unfold Prune. unfold fbind at 1.
    destruct (ctxErr env d) as [[[]|e] d1] eqn:E1;
      pose proof (steps_ctxErr eq env d) as H1; rewrite E1 in H1; simpl in H1; rewrite H1; [|reflexivity].
    unfold fbind at 1. destruct (scan o env d1) as [[files|e] d2] eqn:E2;
      pose proof (steps_scan eq o env d1) as H2; rewrite E2 in H2; simpl in H2; rewrite H2; [|reflexivity].
    apply scan_any in E2 as [_ Hf]. rewrite H2 in Hf. by apply (steps_after_scan o (nodes d2)). }
  destruct (H k) as [?|(Hn & f & Hf & Hi & ->)]; [by left|right]. split; [done|].
  destruct (listed_node _ _ _ Habs Hok Hf) as (Hk & n & Hm & Hd).
  apply elem_of_listed in Hf as (name & n' & _ & _ & Hname & ->). by exists name, n.
Qed.

(** * Undisturbed runs *)

Definition count_of (c : Counts) (s : Slot) : Z :=
  match s with
  | SYear => c_yearly c | SMonth => c_monthly c | SWeek => c_weekly c | SDay => c_daily c
  end.

Definition bump (c : Counts) (s : Slot) : Counts :=
  let '(mkCounts y m w d) := c in
  match s with
  | SYear => mkCounts (y + 1) m w d | SMonth => mkCounts y (m + 1) w d
  | SWeek => mkCounts y m (w + 1) d | SDay => mkCounts y m w (d + 1)
  end.

(** The order in which slots are tried. *)
Definition rank (s : Slot) : Z :=
  match s with SYear => 0 | SMonth => 1 | SWeek => 2 | SDay => 3 end.

Definition higher (s : Slot) (os : option Slot) : Prop :=
  match os with Some s' => rank s < rank s' | None => True end.

Lemma takeSlot_cases p c when :
  (∃ s, takeSlot p c when = Some (bump c s) ∧ eligible s when = true ∧ count_of c s < limit p s ∧
        ∀ s', rank s' < rank s → eligible s' when = true → limit p s' ≤ count_of c s') ∨
  (takeSlot p c when = None ∧ ∀ s, eligible s when = true → limit p s ≤ count_of c s).
Proof.
  destruct c as [y m w d]. unfold takeSlot.
  destruct (isYearly when && (y <? Yearly p)) eqn:E1.
  { left. exists SYear. apply andb_true_iff in E1 as [? ?%Z.ltb_lt]. repeat split; try done.
    intros [] ?; simpl in *; lia. }
  destruct (isMonthly when && (m <? Monthly p)) eqn:E2.
  { left. exists SMonth. apply andb_true_iff in E2 as [? ?%Z.ltb_lt]. repeat split; try done.
    intros [] ? He; simpl in *; try lia. rewrite He in E1. simpl in E1. by apply Z.ltb_ge. }
  destruct (isWeekly when && (w <? Weekly p)) eqn:E3.
  { left. exists SWeek. apply andb_true_iff in E3 as [? ?%Z.ltb_lt]. repeat split; try done.
    intros [] ? He; simpl in *; try lia; rewrite He in *; simpl in *; by apply Z.ltb_ge. }
  destruct (Z.ltb_spec d (Daily p)); [left; exists SDay|right]; repeat split; try done;
    [intros [] ? He|intros [] He]; simpl in *; try lia; rewrite He in *; simpl in *; by apply Z.ltb_ge.
Qed.

Lemma count_bump c s s' :
  count_of (bump c s) s' = count_of c s' + (if decide (s = s') then 1 else 0).
Proof. destruct c, s, s'; simpl; lia. Qed.

(** [asg] is what the policy gives, from the counters [c] on. *)
Inductive assigns (p : RetentionPolicy) : Counts → list (backupFile * option Slot) → Prop :=
| assigns_nil c : assigns p c []
| assigns_keep c f s asg :
    eligible s (bf_when f) = true → count_of c s < limit p s →
    (∀ s', rank s' < rank s → eligible s' (bf_when f) = true → limit p s' ≤ count_of c s') →
    assigns p (bump c s) asg → assigns p c ((f, Some s) :: asg)
| assigns_drop c f asg :
    (∀ s, eligible s (bf_when f) = true → limit p s ≤ count_of c s) →
    assigns p c asg → assigns p c ((f, None) :: asg).

Lemma taken_cons f os asg s :
  taken ((f, os) :: asg) s = (if decide (os = Some s) then 1 else 0) + taken asg s.
Proof.
  unfold taken. simpl. unfold bool_decide. destruct (decide_rel eq os (Some s)), (decide (os = Some s));
    simpl; try done; lia.
Qed.

Lemma assigns_limits p c asg : assigns p c asg → (∀ s, count_of c s ≤ limit p s) →
  (∀ s, count_of c s + taken asg s ≤ limit p s) ∧
  (∀ f s, (f, Some s) ∈ asg → eligible s (bf_when f) = true) ∧
  (∀ pre f os post s, asg = pre ++ (f, os) :: post → higher s os →
     eligible s (bf_when f) = true → count_of c s + taken pre s = limit p s).
Proof.
  induction 1 as [c|c f s asg He Hlt Hhi Ha IH|c f asg Hfull Ha IH]; intros Hc.
  - split; [|split]; [intros s; specialize (Hc s); unfold taken; simpl; lia
      |intros f s Hin; by apply not_elem_of_nil in Hin|].
    intros pre f os post s E. by destruct pre.
  - destruct IH as (H1 & H2 & H3).
    { intros s'. rewrite count_bump. specialize (Hc s'). case_decide; subst; lia. }
    split; [|split].
    + intros s'. specialize (H1 s'). rewrite count_bump in H1. rewrite taken_cons.
      repeat case_decide; simplify_eq; try lia; congruence.
    + intros g s' [[= -> ->]|Hin]%elem_of_cons; [done|by eapply H2].
    + intros [|[g og] pre] g' os post s' [= E1 E2 E3] Hh Heg; subst.
      * specialize (Hc s'). specialize (Hhi s' Hh Heg). unfold taken. simpl. lia.
      * specialize (H3 pre g' os post s' eq_refl Hh Heg). rewrite count_bump in H3.
        rewrite taken_cons. repeat case_decide; simplify_eq; try lia; congruence.
  - destruct (IH Hc) as (H1 & H2 & H3). split; [|split].
    + intros s'. rewrite taken_cons. case_decide; [congruence|]. apply H1.
    + intros g s' [[=]|Hin]%elem_of_cons. by eapply H2.
    + intros [|[g og] pre] g' os post s' [= E1 E2 E3] Hh Heg; subst.
      * specialize (Hc s'). specialize (Hfull s' Heg). unfold taken. simpl. lia.
      * rewrite taken_cons. case_decide; [congruence|]. by eapply H3.
Qed.

Lemma delete_all_cons p ps m : delete_all ps (delete (key p) m) = delete_all (p :: ps) m.
Proof.
  induction ps as [|q ps IH]; [done|]. simpl in *. rewrite IH. apply delete_delete.
Qed.

Lemma delete_all_app ps qs m : delete_all qs (delete_all ps m) = delete_all (ps ++ qs) m.
Proof.
  revert m. induction ps as [|p ps IH]; intros m; [done|].
  simpl app. rewrite <-!delete_all_cons. apply IH.
Qed.

Lemma total_size_app a b : total_size (a ++ b) = total_size a + total_size b.
Proof. induction a as [|f a IH]; simpl; [done|]. rewrite IH. lia. Qed.

Lemma total_size_nonneg l : (∀ f, f ∈ l → 0 ≤ bf_size f) → 0 ≤ total_size l.
Proof.
  induction l as [|f l IH]; intros H; simpl; [lia|].
  pose proof (H f ltac:(left)). pose proof (IH (λ g Hg, H g ltac:(by right))). lia.
Qed.

(** The removable files: distinct, present, no directories, of a size. *)
Definition removable (m : gmap (list string) node) (l : list backupFile) : Prop :=
  NoDup (map (λ f, key (bf_path f)) l) ∧
  ∀ f, f ∈ l → 0 ≤ bf_size f ∧ ∃ n, m !! key (bf_path f) = Some n ∧ n ≠ DirNode.

Lemma removable_rest m f l : removable m (f :: l) → removable m l ∧ removable (delete (key (bf_path f)) m) l.
Proof.
  intros [[Hf Hl]%NoDup_cons Hn]. split; split; try done.
  - intros g Hg. apply Hn. by right.
  - intros g Hg. destruct (Hn g ltac:(by right)) as (Hs & n & ? & ?). split; [done|]. exists n. split; [|done].
    rewrite lookup_delete_ne; [done|]. intros E. apply Hf. rewrite E.
    apply list_elem_of_fmap. by exists g.
Qed.

Lemma Remove_listed env d f l : quiet env → removable (nodes d) (f :: l) →
  Remove (bf_path f) env d = (Ok (), mkDisk (delete (key (bf_path f)) (nodes d)) (S (calls d))).
Proof.
  intros Hq [_ Hn]. destruct (Hn f ltac:(left)) as (_ & n & ? & ?). by eapply Remove_quiet.
Qed.

Lemma pruneCounts_quiet p env files c kept removed total d :
  quiet env → removable (nodes d) files → 0 ≤ total → total + total_size files ≤ max_int64 →
  ∃ asg d', assigns p c asg ∧ map fst asg = fulls files ∧
    pruneCounts p c kept removed total files env d =
      (Ok (kept ++ map fst (List.filter has_slot asg),
           removed ++ map bf_path (map fst (List.filter slotless asg)),
           total + total_size (incrementals files) + total_size (map fst (List.filter has_slot asg))), d') ∧
    nodes d' = delete_all (map bf_path (map fst (List.filter slotless asg))) (nodes d).
Proof.
  intros Hq. revert c kept removed total d.
  induction files as [|f rest IH]; intros c kept removed total d Hr H0 Hmax; simpl.
  { exists [], d. split; [constructor|]. split; [done|]. split; [|done].
    simpl. rewrite !app_nil_r. unfold fret. do 3 f_equal. lia. }
  pose proof (removable_rest _ _ _ Hr) as [Hr1 Hr2].
  pose proof (total_size_nonneg rest (λ g Hg, proj1 (proj2 Hr1 g Hg))) as Hrest.
  destruct (proj2 Hr f ltac:(left)) as [Hf _]. simpl in Hmax.
  assert (total +! bf_size f = total + bf_size f) as Hw by (apply wrap64_id; int64).
  unfold fulls, incrementals. simpl. destruct (bf_incremental f) eqn:Hi; simpl.
  { rewrite Hw. destruct (IH c kept removed (total + bf_size f) d Hr1) as (asg & d' & ? & ? & E & ?); [lia..|].
    exists asg, d'. split; [done|]. split; [done|]. split; [|done]. rewrite E. do 3 f_equal.
    unfold incrementals. simpl. lia. }
  destruct (takeSlot_cases p c (bf_when f)) as [(s & -> & ? & ? & ?)|[-> ?]].
  - rewrite Hw. destruct (IH (bump c s) (kept ++ [f]) removed (total + bf_size f) d Hr1)
      as (asg & d' & ? & Hfst & E & ?); [lia..|].
    exists ((f, Some s) :: asg), d'. split; [by constructor|]. split; [simpl; by rewrite Hfst|].
    split; [|done]. rewrite E. simpl. rewrite <-app_assoc. do 3 f_equal. unfold incrementals. lia.
  - erewrite fbind_ok by by eapply Remove_listed.
    destruct (IH c kept (removed ++ [bf_path f]) total
      (mkDisk (delete (key (bf_path f)) (nodes d)) (S (calls d))) Hr2) as (asg & d' & ? & Hfst & E & En); [lia..|].
    exists ((f, None) :: asg), d'. split; [by constructor|]. split; [simpl; by rewrite Hfst|].
    split; [rewrite E; simpl; by rewrite <-app_assoc|]. simpl in *. rewrite En. apply delete_all_cons.
Qed.

Lemma pruneSize_quiet cap env oldest removed total d :
  quiet env → removable (nodes d) oldest → total_size oldest ≤ total ≤ max_int64 →
  ∃ cut rest d', oldest = cut ++ rest ∧
    pruneSize cap oldest removed total env d = (Ok (removed ++ map bf_path cut), d') ∧
    nodes d' = delete_all (map bf_path cut) (nodes d) ∧
    (total - total_size cut ≤ cap ∨ rest = []) ∧
    (∀ pre f, cut = pre ++ [f] → cap < total - total_size pre).
Proof.
  intros Hq. revert removed total d.
  induction oldest as [|f oldest IH]; intros removed total d Hr Ht; simpl.
  { exists [], [], d. simpl. rewrite app_nil_r. do 3 (split; [done|]). split; [by right|]. by intros [] ?. }
  pose proof (removable_rest _ _ _ Hr) as [Hr1 Hr2].
  pose proof (total_size_nonneg oldest (λ g Hg, proj1 (proj2 Hr1 g Hg))) as Hn.
  destruct (proj2 Hr f ltac:(left)) as [Hf _]. simpl in Ht.
  destruct (Z.ltb_spec cap total) as [Hlt|Hge].
  - erewrite fbind_ok by by eapply Remove_listed.
    assert (total -! bf_size f = total - bf_size f) as -> by (apply wrap64_id; int64).
    destruct (IH (removed ++ [bf_path f]) (total - bf_size f)
      (mkDisk (delete (key (bf_path f)) (nodes d)) (S (calls d))) Hr2 ltac:(lia))
      as (cut & rest & d' & -> & E & En & Hc & Hm).
    exists (f :: cut), rest, d'. split; [done|]. split; [rewrite E; simpl; by rewrite <-app_assoc|].
    split; [simpl in En; rewrite En; apply delete_all_cons|]. simpl. split; [destruct Hc; [left; lia|by right]|].
    intros [|f' pre] g [= <- E']; [simpl; lia|]. specialize (Hm _ _ E'). simpl. lia.
  - exists [], (f :: oldest), d. simpl. rewrite app_nil_r. do 3 (split; [done|]). split; [left; lia|]. by intros [] ?.
Qed.

Lemma listed_removable o d : IsAbs (BackupDir o) = true → disk_ok (nodes d) →
  (∀ f, f ∈ listed (BackupDir o) (nodes d) → 0 ≤ bf_size f) →
  removable (nodes d) (listed (BackupDir o) (nodes d)).
Proof.
  intros Habs Hok Hs. split.
  - assert (NoDup (map bf_name (listed (BackupDir o) (nodes d)))) as Hnd.
    { unfold listed. rewrite (Permutation_map bf_name (sort_by_perm _ _)).
      pose proof (children_names_NoDup (nodes d) (key (BackupDir o))) as Hc.
      induction (children (nodes d) (key (BackupDir o))) as [|[c n] l IH]; simpl; [constructor|].
      apply NoDup_cons in Hc as [Hc Hl]. destruct (_ || _); simpl; [by apply IH|].
      apply NoDup_cons. split; [|by apply IH]. intros (f & -> & Hin)%list_elem_of_fmap.
      apply list_elem_of_omap in Hin as ([c' n'] & Hin & Hf). simpl in Hf.
      destruct (_ || _); [done|]. injection Hf as <-. apply Hc. apply list_elem_of_fmap.
      by exists (c', n'). }
    assert (∀ f, f ∈ listed (BackupDir o) (nodes d) →
      key (bf_path f) = key (BackupDir o) ++ [bf_name f]) as Hk.
    { intros f Hf. by apply (listed_node _ _ _ Habs Hok). }
    induction (listed (BackupDir o) (nodes d)) as [|f l IH]; simpl; [constructor|].
    simpl in Hnd. apply NoDup_cons in Hnd as [Hf Hl]. apply NoDup_cons. split.
    + intros (g & E & Hg)%list_elem_of_fmap. rewrite !Hk in E by (done || by constructor).
      apply app_inj_2 in E as [_ [= E]]; [|done]. apply Hf. rewrite E. apply list_elem_of_fmap. by exists g.
    + apply IH; [by intros; apply Hs; right|done|by intros; apply Hk; right].
  - intros f Hf. split; [by apply Hs|]. by apply (listed_node _ _ _ Habs Hok).
Qed.

(** Filtering keeps a list removable after the others are gone. *)
Lemma removable_sub m l sub gone : removable m l → l ≡ₚ sub ++ gone →
  removable (delete_all (map bf_path gone) m) sub.
Proof.
  intros [Hnd Hn] Hp. rewrite Hp, map_app in Hnd. apply NoDup_app in Hnd as (Hsub & Hd & _).
  split; [done|]. intros f Hf. destruct (Hn f) as (Hs & n & Hm & Hnn).
  { rewrite Hp, elem_of_app. by left. }
  split; [done|]. exists n. split; [|done].
  assert (∀ g, g ∈ gone → key (bf_path g) ≠ key (bf_path f)) as Hg.
  { intros g Hg E. apply (Hd (key (bf_path f))); apply list_elem_of_fmap; eauto. }
  clear -Hm Hg. induction gone as [|g gone IH]; simpl; [done|].
  rewrite lookup_delete_ne by (apply Hg; left). apply IH. intros h Hh. apply Hg. by right.
Qed.

Lemma filter_negb_perm {A} (P : A → bool) l :
  l ≡ₚ List.filter P l ++ List.filter (λ x, negb (P x)) l.
Proof.
  induction l as [|x l IH]; simpl; [done|]. destruct (P x); simpl; [by f_equiv|].
  rewrite <-Permutation_middle. by f_equiv.
Qed.

Lemma total_size_perm a b : a ≡ₚ b → total_size a = total_size b.
Proof. induction 1; simpl; lia. Qed.

Lemma NormalizeRetention_limits p s :
  0 ≤ limit (NormalizeRetention p).1 s ∧ 1 ≤ Daily (NormalizeRetention p).1.
Proof.
  unfold NormalizeRetention. simpl. split; [|destruct (Z.ltb_spec (Daily p) 1); lia].
  destruct s; simpl; repeat match goal with |- context [Z.ltb ?a ?b] => destruct (Z.ltb_spec a b) end; lia.
Qed.

(** The passes over a listing of [m], in an undisturbed run. *)
Lemma prune_passes policy env files d :
  quiet env → removable (nodes d) files → total_size files ≤ max_int64 →
  ∃ asg kept cut d',
    (do (kept, removed, total) <- pruneCounts policy (mkCounts 0 0 0 0) [] [] 0 files;
     do removed <- (if 0 <? MaxTotalSize policy
                    then pruneSize (MaxTotalSize policy) (rev kept) removed total
                    else fret removed);
     fret (sort_strings removed)) env d =
    (Ok (sort_strings (map bf_path (map fst (List.filter slotless asg) ++ rev cut))), d') ∧
    nodes d' = delete_all (map bf_path (map fst (List.filter slotless asg) ++ rev cut)) (nodes d) ∧
    assigns policy (mkCounts 0 0 0 0) asg ∧ map fst asg = fulls files ∧
    map fst (List.filter has_slot asg) = kept ++ cut ∧
    (MaxTotalSize policy ≤ 0 → cut = []) ∧
    (0 < MaxTotalSize policy →
     (total_size (incrementals files) + total_size kept ≤ MaxTotalSize policy ∨ kept = []) ∧
     ∀ g cut', cut = g :: cut' →
       MaxTotalSize policy < total_size (incrementals files) + total_size kept + bf_size g).
Proof.
  intros Hq Hr Hmax.
  destruct (pruneCounts_quiet policy env files (mkCounts 0 0 0 0) [] [] 0 d Hq Hr ltac:(lia) ltac:(lia))
    as (asg & d1 & Ha & Hfst & E & En). simpl in E.
  erewrite fbind_ok by exact E. cbv beta iota.
  set (K := map fst (List.filter has_slot asg)) in *.
  set (R := map fst (List.filter slotless asg)) in *.
  assert (files ≡ₚ (incrementals files ++ K) ++ R) as Hp.
  { rewrite (filter_negb_perm bf_incremental files) at 1. rewrite <-app_assoc.
    apply Permutation_app_head. fold (fulls files). rewrite <-Hfst. subst K R. rewrite <-map_app. apply Permutation_map, filter_negb_perm. }
  destruct (Z.ltb_spec 0 (MaxTotalSize policy)) as [Hcap|Hcap].
  - assert (removable (nodes d1) (rev K)) as HrK.
    { rewrite En. apply (removable_sub _ (rev K ++ R)); [|done].
      assert (removable (nodes d) ((incrementals files) ++ (rev K ++ R))) as H'.
      { destruct Hr as [Hnd Hn]. rewrite <-app_assoc, (Permutation_rev K) in Hp.
        split; [by rewrite <-Hp|]. intros f Hf. apply Hn. by rewrite Hp. }
      destruct H' as [Hnd Hn]. rewrite map_app in Hnd. apply NoDup_app in Hnd as (_ & _ & Hnd).
      split; [done|]. intros f Hf. apply Hn. apply elem_of_app. by right. }
    assert (total_size files = total_size (incrementals files) + total_size K + total_size R) as Ht.
    { by rewrite (total_size_perm _ _ Hp), !total_size_app. }
    assert (∀ sub, (∀ f, f ∈ sub → f ∈ files) → 0 ≤ total_size sub) as Hpos.
    { intros sub Hsub. apply total_size_nonneg. intros f Hf. by apply Hr, Hsub. }
    pose proof (Hpos R ltac:(intros f ?; rewrite Hp, elem_of_app; by right)).
    pose proof (Hpos (incrementals files) ltac:(intros f ?; rewrite Hp, !elem_of_app; by left; left)).
    destruct (pruneSize_quiet (MaxTotalSize policy) env (rev K)
      (map bf_path R) (total_size (incrementals files) + total_size K) d1 Hq HrK)
      as (cut & rest & d2 & Hsplit & E2 & En2 & Hc & Hm).
    { rewrite <-(total_size_perm _ _ (Permutation_rev K)). lia. }
    assert (K = rev rest ++ rev cut) as HK by (by rewrite <-rev_app_distr, <-Hsplit, rev_involutive).
    exists asg, (rev rest), (rev cut), d2.
    erewrite fbind_ok by exact E2. rewrite rev_involutive, map_app.
    split; [done|]. split; [by rewrite En2, En, delete_all_app|]. do 3 (split; [done|]).
    split; [lia|]. intros _.
    assert (total_size K = total_size (rev rest) + total_size cut) as HtK.
    { rewrite HK, total_size_app. by rewrite <-(total_size_perm _ _ (Permutation_rev cut)). }
    split.
    + destruct Hc as [Hc| ->]; [left; lia|by right].
    + intros g cut' Hcut. specialize (Hm (rev cut') g).
      assert (cut = rev cut' ++ [g]) as Hcut'.
      { rewrite <-(rev_involutive cut), Hcut. done. }
      specialize (Hm Hcut'). rewrite HtK in Hm. rewrite Hcut' in Hm at 1.
      rewrite total_size_app in Hm. simpl in Hm. lia.
  - exists asg, K, [], d1. simpl. rewrite !app_nil_r. by repeat split; try lia.
Qed.


(** ** Witnesses *)

Definition calm : Env := mkEnv (λ _, None) (λ _, None) (λ _, 0) (λ _, []) (λ _, 1%N).

Definition sample_options : Options :=
  mkOptions "/etc/cashp" "/var/lib/cashp" "/backup" false (mkRetentionPolicy 1 1 0 0 30)
    false false "1.2.3" "root".

Definition sample_dir : gmap (list string) node :=
  list_to_map
    [(["backup"], DirNode);
     (["backup"; "cashp_backup_2026-03-03.tar.gz"], Reg 384 0 (repeat 0 10));
     (["backup"; "cashp_backup_2026-03-02.tar.gz"], Reg 384 0 (repeat 0 10));
     (["backup"; "cashp_backup_2026-03-01.tar.gz"], Reg 384 0 (repeat 0 10));
     (["backup"; "cashp-daily.tar.gz"], Reg 384 0 (repeat 0 15));
     (["backup"; "notes.txt"], Reg 384 0 [])].

(** The dailies of 2 and 1 March go: the first for want of a slot, the second,
    a Sunday, for the cap. *)
Example prune_sample :
  (Prune sample_options calm (mkDisk sample_dir 0)).1 =
  Ok ["/backup/cashp_backup_2026-03-01.tar.gz"; "/backup/cashp_backup_2026-03-02.tar.gz"].
Proof. vm_compute. reflexivity. Qed.

Definition name_okb (c : string) : bool :=
  negb (c =s "") && negb (c =s ".") && negb (c =s "..") && negb (has_char slash c).

Lemma name_okb_ok c : name_okb c = true → name_ok c.
Proof.
  unfold name_okb; rewrite !andb_true_iff, !negb_true_iff, !seqb_neq;
    intros [[[? ?] ?] ?]; by repeat split.
Qed.

Lemma disk_okb (m : gmap (list string) node) :
  forallb (λ kn, forallb name_okb kn.1) (map_to_list m) = true → disk_ok m.
Proof.
  intros H k n Hk. apply elem_of_map_to_list, list_elem_of_In in Hk.
  rewrite forallb_forall in H. specialize (H _ Hk). simpl in H. rewrite forallb_forall in H.
  apply List.Forall_forall. intros c Hc. by apply name_okb_ok, H.
Qed.

Lemma Prune_only_full_backups_witness :
  let run := Prune sample_options calm (mkDisk sample_dir 0) in
  let k := ["backup"; "cashp_backup_2026-03-02.tar.gz"] in
  nodes run.2 !! k = None ∧ sample_dir !! k ≠ None ∧
  (nodes run.2 !! k = sample_dir !! k ∨
   (nodes run.2 !! k = None ∧
    ∃ name n, k = key "/backup" ++ [name] ∧ sample_dir !! k = Some n ∧ n ≠ DirNode ∧
              isBackupName name = true ∧ incrementalPattern name = false)).
Proof.
  cbv zeta. split; [vm_compute; reflexivity|]. split; [vm_compute; discriminate|].
  apply (Prune_only_full_backups sample_options calm (mkDisk sample_dir 0)); [reflexivity|].
  apply disk_okb. vm_compute. reflexivity.
Defined.


(** * The name of a backup tells its moment *)

Lemma prefix_app a b : String.prefix a (a +:+ b) = true.
Proof.
  induction a as [|c a IH]; [by destruct b|]. rewrite string_app_cons. simpl.
  by destruct (ascii_dec c c).
Qed.

Lemma substring_0_all s : String.substring 0 (String.length s) s = s.
Proof. induction s as [|c s IH]; simpl; [done|]. by rewrite IH. Qed.

Lemma substring_app a b : String.substring (String.length a) (String.length b) (a +:+ b) = b.
Proof.
  induction a as [|c a IH]; simpl; [apply substring_0_all|]. apply IH.
Qed.

Lemma TrimPrefix_app a b : TrimPrefix (a +:+ b) a = b.
Proof.
  unfold TrimPrefix, HasPrefix. rewrite prefix_app.
  assert (String.length (a +:+ b) = (String.length a + String.length b)%nat) as ->.
  { pose proof (slen_app a b). unfold slen in *. lia. }
  replace (String.length a + String.length b - String.length a)%nat with (String.length b) by lia.
  apply substring_app.
Qed.

Lemma lit_app p s : lit p (p +:+ s) = Some s.
Proof. unfold lit, HasPrefix. by rewrite prefix_app, TrimPrefix_app. Qed.

Lemma take_digits_app (n : nat) d s :
  slen d = Z.of_nat n → all_digits d = true → take_digits n (d +:+ s) = Some (d, s).
Proof.
  revert d. induction n as [|n IH]; intros d Hl Hd.
  - destruct d; [done|]. rewrite slen_cons in Hl. pose proof (slen_nonneg d). lia.
  - destruct d as [|c d]; [done|]. rewrite slen_cons in Hl. simpl in Hd.
    apply andb_true_iff in Hd as [Hc Hd]. rewrite string_app_cons. simpl. rewrite Hc, IH by (done || lia).
    done.
Qed.

#[local] Arguments take_digits n s : simpl never.
#[local] Arguments lit p s : simpl never.
#[local] Arguments appendInt n w : simpl never.
#[local] Arguments in_range a n b : simpl never.

(** A number printed to a fixed width. *)
Lemma appendInt_spec n w : 1 ≤ w → 0 ≤ n < 10 ^ w →
  slen (appendInt n w) = w ∧ all_digits (appendInt n w) = true ∧ dec_value 0 (appendInt n w) = n.
Proof.
  intros Hw Hn. unfold appendInt. destruct (Z.ltb_spec n 0); [lia|].
  split; [by apply pad_left_length|]. apply pad_left_spec. lia.
Qed.

(** The fields of a printed moment are read back. *)
Lemma parseDate_fields y m d s :
  0 ≤ y < 10 ^ 4 → valid_date y m d →
  parseDate (appendInt y 4 +:+ "-" +:+ appendInt m 2 +:+ "-" +:+ appendInt d 2 +:+ s) =
  Some (y, m, d, s).
Proof.
  intros Hy [Hm Hd]. pose proof (month_length_bounds y m).
  destruct (appendInt_spec y 4 ltac:(lia) Hy) as (Hy1 & Hy2 & Hy3).
  destruct (appendInt_spec m 2 ltac:(lia) ltac:(lia)) as (Hm1 & Hm2 & Hm3).
  destruct (appendInt_spec d 2 ltac:(lia) ltac:(lia)) as (Hd1 & Hd2 & Hd3).
  unfold parseDate. rewrite take_digits_app by done. simpl mbind.
  rewrite lit_app. simpl mbind. rewrite take_digits_app by done. simpl mbind.
  rewrite lit_app. simpl mbind. rewrite take_digits_app by done. simpl mbind.
  rewrite Hy3, Hm3, Hd3. unfold in_range.
  destruct (Z.leb_spec 1 m), (Z.leb_spec m 12), (Z.leb_spec 1 d), (Z.leb_spec d (month_length y m));
    simpl; try lia. done.
Qed.

Lemma Contains_app a b : Contains (a +:+ b) b = true.
Proof.
  induction a as [|c a IH].
  - rewrite string_app_nil. pose proof (prefix_app b "") as Hp. rewrite string_app_empty_r in Hp.
    destruct b; [done|]. unfold Contains, HasPrefix. by rewrite Hp.
  - rewrite string_app_cons. simpl. rewrite IH. apply orb_true_r.
Qed.

(** The six digits of the clock. *)
Definition formatClock (t : Z) : string :=
  appendInt (THour t) 2 +:+ appendInt (TMinute t) 2 +:+ appendInt (TSecond t) 2.

Lemma clock_fields t : 0 ≤ THour t < 24 ∧ 0 ≤ TMinute t < 60 ∧ 0 ≤ TSecond t < 60.
Proof. unfold THour, TMinute, TSecond, day_seconds. divlia. Qed.

Lemma time_Parse_stamp t : 0 ≤ TYear t < 10 ^ 4 →
  time_Parse true ((appendInt (TYear t) 4 +:+ "-" +:+ appendInt (TMonth t) 2 +:+ "-" +:+
    appendInt (TDay t) 2) +:+ "_" +:+ formatClock t) = Some t.
Proof.
  intros Hy. unfold time_Parse, formatClock. rewrite !string_app_assoc.
  rewrite parseDate_fields by (done || apply TDate_valid). simpl.
  pose proof (clock_fields t) as (Hh & Hm & Hs).
  destruct (appendInt_spec (THour t) 2 ltac:(lia) ltac:(lia)) as (Hh1 & Hh2 & Hh3).
  destruct (appendInt_spec (TMinute t) 2 ltac:(lia) ltac:(lia)) as (Hm1 & Hm2 & Hm3).
  destruct (appendInt_spec (TSecond t) 2 ltac:(lia) ltac:(lia)) as (Hs1 & Hs2 & Hs3).
  rewrite (lit_app "_"). simpl.
  rewrite take_digits_app by done. simpl.
  rewrite take_digits_app by done. simpl.
  rewrite <-(string_app_empty_r (appendInt (TSecond t) 2)).
  rewrite take_digits_app by done. simpl.
  rewrite Hh3, Hm3, Hs3. unfold in_range.
  repeat match goal with |- context [Z.leb ?a ?b] => destruct (Z.leb_spec a b); [|lia] end.
  simpl. by rewrite TimeDate_TDate.
Qed.

Lemma fullPattern_stamp y m d c e :
  slen y = 4 → all_digits y = true → slen m = 2 → all_digits m = true →
  slen d = 2 → all_digits d = true → slen c = 6 → all_digits c = true → archive_end e = true →
  fullPattern (AppName +:+ "_backup_" +:+ ((y +:+ "-" +:+ m +:+ "-" +:+ d) +:+ "_" +:+ c) +:+ e) =
  Some (y +:+ "-" +:+ m +:+ "-" +:+ d, c).
Proof.
  intros Hy1 Hy2 Hm1 Hm2 Hd1 Hd2 Hc1 Hc2 He. unfold fullPattern.
  rewrite <-(string_app_assoc AppName "_backup_"). rewrite lit_app. simpl mbind.
  rewrite !string_app_assoc.
  rewrite take_digits_app by done. simpl mbind. rewrite lit_app. simpl mbind.
  rewrite take_digits_app by done. simpl mbind. rewrite lit_app. simpl mbind.
  rewrite take_digits_app by done. simpl mbind. rewrite (lit_app "_").
  rewrite take_digits_app by done. simpl mbind. by rewrite He.
Qed.

Lemma slen_clock t : slen (formatClock t) = 6 ∧ all_digits (formatClock t) = true.
Proof.
  pose proof (clock_fields t) as (Hh & Hm & Hs). unfold formatClock.
  destruct (appendInt_spec (THour t) 2 ltac:(lia) ltac:(lia)) as (Hh1 & Hh2 & _).
  destruct (appendInt_spec (TMinute t) 2 ltac:(lia) ltac:(lia)) as (Hm1 & Hm2 & _).
  destruct (appendInt_spec (TSecond t) 2 ltac:(lia) ltac:(lia)) as (Hs1 & Hs2 & _).
  rewrite !slen_app, !all_digits_app, Hh1, Hm1, Hs1, Hh2, Hm2, Hs2. done.
Qed.

(** Retention reads a backup's moment back from the name it was created
    under: for every year of four digits, the name of an archive is recognised as
    a full backup, never as an incremental one, and dated to the second it was
    made, whatever the modification time of the file says. *)
Theorem archiveName_roundtrip t encrypted mtime (Hy : 0 ≤ TYear (sec t) < 10000) :
  let name := archiveName t encrypted in
  isBackupName name = true ∧ incrementalPattern name = false ∧
  name_when name mtime = sec t * nanos.
Proof.
  cbv zeta. set (e := if encrypted then EncryptedExt else PlainExt).
  set (u := sec t) in *. pose proof (TDate_valid u) as Hv. destruct Hv as [Hm Hd].
  pose proof (month_length_bounds (TYear u) (TMonth u)).
  assert (archiveName t encrypted = AppName +:+ "_backup_" +:+
    ((appendInt (TYear u) 4 +:+ "-" +:+ appendInt (TMonth u) 2 +:+ "-" +:+ appendInt (TDay u) 2)
     +:+ "_" +:+ formatClock u) +:+ e) as ->.
  { unfold archiveName, formatStamp, formatClock. fold u e. by rewrite !string_app_assoc. }
  split; [|split].
  - assert (∃ a b, e = a +:+ PlainExt +:+ b) as (a & b & ->).
    { destruct encrypted; [by exists "", ".enc"|by exists "", ""]. }
    unfold isBackupName.
    assert (∀ x y, Contains (x +:+ PlainExt +:+ y) PlainExt = true) as Hc.
    { intros x y. induction x as [|c x IH].
      - rewrite string_app_nil. unfold Contains. pose proof (prefix_app PlainExt y) as Hp.
        destruct (PlainExt +:+ y); [done|]. unfold HasPrefix. by rewrite Hp.
      - rewrite string_app_cons. simpl. rewrite IH. apply orb_true_r. }
    match goal with |- context [Contains ?s PlainExt] => assert (Contains s PlainExt = true) as -> end.
    { rewrite <-!string_app_assoc, (string_app_assoc _ PlainExt b). apply Hc. }
    simpl negb. cbv iota. rewrite <-(string_app_assoc AppName "_backup_"). unfold HasPrefix.
    by rewrite prefix_app.
  - reflexivity.
  - destruct (appendInt_spec (TYear u) 4 ltac:(lia) Hy) as (? & ? & _).
    destruct (appendInt_spec (TMonth u) 2 ltac:(lia) ltac:(lia)) as (? & ? & _).
    destruct (appendInt_spec (TDay u) 2 ltac:(lia) ltac:(lia)) as (? & ? & _).
    destruct (slen_clock u) as [Hc1 Hc2].
    unfold name_when. rewrite fullPattern_stamp; [|done..|].
    + destruct (formatClock u =s "") eqn:E; [apply seqb_eq in E; by rewrite E in Hc1|].
      by rewrite time_Parse_stamp.
    + by destruct encrypted.
Qed.

Lemma archiveName_roundtrip_witness :
  let t := 1769915700123456789 in
  0 ≤ TYear (sec t) < 10000 ∧ name_when (archiveName t false) 5 = 1769915700000000000.
Proof.
  cbv zeta. assert (0 ≤ TYear (sec 1769915700123456789) < 10000) as H
    by (vm_compute; split; [discriminate|reflexivity]).
  split; [exact H|].
  destruct (archiveName_roundtrip 1769915700123456789 false 5 H) as (_ & _ & E). rewrite E.
  reflexivity.
Defined.
