(* ===== verification/Archive.v ===== *)
(** Backup archives: [src/src/backup/manifest.go], [src/src/backup/archive.go] and
    the AES-GCM helpers of [src/src/security/crypto.go].

    What the code takes from libraries is the record [Lib]: SHA-256, Argon2id, the
    AES-GCM primitive, the JSON of a manifest and gzipped tar streams.  [LibLaws]
    is what is relied on: AES-GCM opens what it sealed under the same key and
    nonce, JSON gives an ASCII manifest of a printable date back, a tar stream
    gives its files back and starts with gzip's magic number.  Everything else,
    the digest, the block index, the envelope and the reader's loop, is written
    out here.  At the end is a concrete instance of the
    libraries. *)
From stdpp Require Import prelude strings list gmap.
From Stdlib Require Import ZArith Lia Ascii.
From S2P Require Import Prelude GoTime Files Retention.

(** * Manifests *)

Record Entry := mkEntry
  { e_Path : string; e_Mode : Z; e_Size : Z; e_ModTime : Z; e_Checksum : string;
    e_Blocks : list string }.

Record Block := mkBlock { b_Hash : string; b_Size : Z }.

Record Manifest := mkManifest
  { m_Version : string; m_CreatedAt : Z; m_CreatedBy : string; m_AppVersion : string;
    m_Contents : list Entry; m_BlockIndex : list Block; m_Checksum : string;
    m_Encrypted : bool; m_EncryptionMethod : string; m_KeyDerivation : string;
    m_OriginalSize : Z; m_StoredSize : Z;
    m_Path : string; m_FileSize : Z; m_VersionWarning : string; m_Readable : bool }.

Definition PathList (m : Manifest) : list string := map e_Path (m_Contents m).

Fixpoint find_entry (path : string) (es : list Entry) : option Entry :=
  match es with
  | [] => None
  | e :: es' => if e_Path e =s path then Some e else find_entry path es'
  end.

(** The method [Entry]. *)
Definition EntryOf (m : Manifest) (path : string) : option Entry := find_entry path (m_Contents m).

(** What of a manifest is stored: the other fields have the tag [json:"-"]. *)
Definition stored (m : Manifest) : Manifest :=
  mkManifest (m_Version m) (m_CreatedAt m) (m_CreatedBy m) (m_AppVersion m) (m_Contents m)
    (m_BlockIndex m) (m_Checksum m) (m_Encrypted m) (m_EncryptionMethod m) (m_KeyDerivation m)
    (m_OriginalSize m) (m_StoredSize m) "" 0 "" false.

(** * Libraries *)

(** A file of a tar stream; [te_reg] says it is a regular one. *)
Record TarEntry := mkTarEntry { te_name : string; te_reg : bool; te_mtime : Z; te_data : list Z }.

Record Lib := mkLib
  { sha256 : list Z → list Z;
    argon2_IDKey : string → list Z → Z → Z → Z → Z → list Z;
    gcm_Seal : list Z → list Z → list Z → list Z;
    gcm_Open : list Z → list Z → list Z → option (list Z);
    json_Marshal : Manifest → Result string (list Z);
    json_Unmarshal : list Z → Result string Manifest;
    targz_Write : list TarEntry → Result string (list Z);
    targz_Read : list Z → Result string (list TarEntry) }.

Fixpoint ascii_text (s : string) : bool :=
  match s with
  | EmptyString => true
  | String c s' => (Ascii.N_of_ascii c <? 128)%N && ascii_text s'
  end.

(** JSON writes a time only if its year has four digits. *)
Definition json_year (t : Z) : Prop := 0 ≤ TYear (sec t) < 10000.

Definition json_entry (e : Entry) : Prop :=
  ascii_text (e_Path e) = true ∧ json_year (e_ModTime e) ∧ ascii_text (e_Checksum e) = true ∧
  Forall (λ b, ascii_text b = true) (e_Blocks e).

Definition json_manifest (m : Manifest) : Prop :=
  json_year (m_CreatedAt m) ∧ Forall (λ s, ascii_text s = true)
    [m_Version m; m_CreatedBy m; m_AppVersion m; m_Checksum m; m_EncryptionMethod m; m_KeyDerivation m] ∧
  Forall json_entry (m_Contents m) ∧ Forall (λ b, ascii_text (b_Hash b) = true) (m_BlockIndex m).

(** A name tar stores as it is. *)
Definition tar_name (s : string) : Prop :=
  s ≠ "" ∧ ascii_text s = true ∧ has_char "000"%char s = false.

Definition is_byte (z : Z) : Prop := 0 ≤ z < 256.

Class LibLaws (L : Lib) := {
  law_sha : ∀ data, Forall is_byte (sha256 L data);
  law_gcm : ∀ k nonce p, gcm_Open L k nonce (gcm_Seal L k nonce p) = Some p;
  law_json : ∀ m, json_manifest m →
    ∃ b, json_Marshal L m = Ok b ∧ json_Unmarshal L b = Ok (stored m);
  law_tar : ∀ es, Forall (λ e, tar_name (te_name e) ∧ te_reg e = true) es →
    ∃ b, targz_Write L es = Ok (31 :: 139 :: b) ∧ targz_Read L (31 :: 139 :: b) = Ok es;
}.

(** * Text and hashes *)

Fixpoint bytes_of (s : string) : list Z :=
  match s with
  | EmptyString => []
  | String c s' => Z.of_N (Ascii.N_of_ascii c) :: bytes_of s'
  end.

(** [hex.EncodeToString]. *)
Definition hexString (data : list Z) : string :=
  foldr (λ b s, String (hex_digit (Z.to_N (b / 16))) (String (hex_digit (Z.to_N (b mod 16))) s)) "" data.

Definition hashBytes (L : Lib) (data : list Z) : string := hexString (sha256 L data).

Definition nul : string := String "000"%char "".
Definition newline : string := String "010"%char "".

(** The names of a block map in order. *)
Definition sorted_names (blocks : gmap string (list Z)) : list string :=
  sort_strings (map fst (map_to_list blocks)).

Definition block_data (blocks : gmap string (list Z)) (name : string) : list Z :=
  match blocks !! name with Some data => data | None => [] end.

(** What is hashed of an entry, and of a block. *)
Definition digestEntry (e : Entry) : list Z :=
  bytes_of ("F" +:+ nul +:+ e_Path e +:+ nul +:+ itoa (e_Mode e) +:+ nul +:+ itoa (e_Size e) +:+
            nul +:+ e_Checksum e +:+ newline) ++
  concat (map (λ b, bytes_of ("B" +:+ nul +:+ b +:+ newline)) (e_Blocks e)).

Definition digestBlock (blocks : gmap string (list Z)) (name : string) : list Z :=
  let data := block_data blocks name in
  bytes_of ("D" +:+ nul +:+ name +:+ nul +:+ itoa (blen data) +:+ newline) ++ data.

Definition digest (L : Lib) (entries : list Entry) (blocks : gmap string (list Z)) : string :=
  "sha256:" +:+ hashBytes L (concat (map digestEntry entries) ++
                             concat (map (digestBlock blocks) (sorted_names blocks))).

Definition blockIndex (blocks : gmap string (list Z)) : list Block :=
  map (λ name, mkBlock name (blen (block_data blocks name))) (sorted_names blocks).

Definition marshalManifest (L : Lib) (m : Manifest) : Result Error (list Z) :=
  match json_Marshal L m with Ok b => Ok b | Err e => Err (ErrSystem e) end.

Definition unmarshalManifest (L : Lib) (data : list Z) : Result Error Manifest :=
  match json_Unmarshal L data with
  | Ok m => Ok m
  | Err e => Err (Sentinel_ ErrManifestMissing e)
  end.

(** * The archive *)

(** The file [writeTarFile] appends. *)
Definition writeTarFile (name : string) (data : list Z) (modTime : Z) : TarEntry :=
  mkTarEntry name true modTime data.

Definition archiveEntries (m : Manifest) (manifestJSON : list Z) (blocks : gmap string (list Z))
    : list TarEntry :=
  writeTarFile ManifestName manifestJSON (m_CreatedAt m) ::
  map (λ name, writeTarFile (blockPrefix +:+ name) (block_data blocks name) (m_CreatedAt m))
    (sorted_names blocks).

Definition buildArchive (L : Lib) (m : Manifest) (blocks : gmap string (list Z))
    : Result Error (list Z) :=
  try manifestJSON := marshalManifest L m in
  match targz_Write L (archiveEntries m manifestJSON blocks) with
  | Ok b => Ok b
  | Err e => Err (ErrSystem e)
  end.

Definition maxEntrySize : Z := Z.shiftl 2 30.

(** [io.LimitReader]. *)
Definition limit_bytes (n : Z) (data : list Z) : list Z :=
  if blen data <=? n then data else take (Z.to_nat n) data.

(** The loop over the entries: the manifest and the blocks seen so far. *)
Fixpoint readEntries (es : list TarEntry) (manifestJSON : option (list Z))
    (blocks : gmap string (list Z)) : option (list Z) * gmap string (list Z) :=
  match es with
  | [] => (manifestJSON, blocks)
  | e :: es' =>
      if negb (te_reg e) then readEntries es' manifestJSON blocks else
      let body := limit_bytes maxEntrySize (te_data e) in
      if te_name e =s ManifestName then readEntries es' (Some body) blocks
      else if HasPrefix (te_name e) blockPrefix
      then readEntries es' manifestJSON (<[TrimPrefix (te_name e) blockPrefix := body]> blocks)
      else readEntries es' manifestJSON blocks
  end.

Definition readArchive (L : Lib) (data : list Z)
    : Result Error (Manifest * gmap string (list Z)) :=
  match targz_Read L data with
  | Err e => Err (Sentinel_ ErrInvalidFormat e)
  | Ok es =>
      match readEntries es None ∅ with
      | (None, _) => Err (Sentinel_ ErrManifestMissing "")
      | (Some manifestJSON, blocks) =>
          try m := unmarshalManifest L manifestJSON in Ok (m, blocks)
      end
  end.

(** * Encryption *)

Definition SecretLen : Z := 32.
Definition nonceSize : Z := 12.

(** [newGCM] checks the key's length; the cipher itself takes any 32 bytes. *)
Definition newGCM (key : list Z) : Result Error () :=
  if blen key =? SecretLen then Ok ()
  else Err (ErrSystem "security: encryption key must be 32 bytes").

Definition Encrypt (L : Lib) (key plaintext : list Z) : FM (list Z) :=
  do _ <- lift (newGCM key);
  do nonce <- randRead nonceSize;
  fret (nonce ++ gcm_Seal L key nonce plaintext).

Definition Decrypt (L : Lib) (key ciphertext : list Z) : Result Error (list Z) :=
  try _ := newGCM key in
  if blen ciphertext <? nonceSize then Err (ErrSystem "security: ciphertext too short") else
  match gcm_Open L key (take (Z.to_nat nonceSize) ciphertext)
          (drop (Z.to_nat nonceSize) ciphertext) with
  | Some plaintext => Ok plaintext
  | None => Err (ErrSystem "security: decrypt: cipher: message authentication failed")
  end.

Definition envelopeMagic : string := "CASHPBK1".
Definition envelopeVersion : Z := 1.
Definition saltLen : Z := 16.
Definition keyLen : Z := 32.
Definition kdfTime : Z := 3.
Definition kdfMemory : Z := 64 * 1024.
Definition kdfThreads : Z := 4.

Definition deriveKey (L : Lib) (password : string) (salt : list Z) : list Z :=
  argon2_IDKey L password salt kdfTime kdfMemory kdfThreads keyLen.

Definition seal (L : Lib) (plaintext : list Z) (password : string) : FM (list Z) :=
  if password =s "" then fail (Sentinel_ ErrPasswordRequired "") else
  do salt <- randRead saltLen;
  do ciphertext <- Encrypt L (deriveKey L password salt) plaintext;
  fret (bytes_of envelopeMagic ++ [envelopeVersion] ++ salt ++ ciphertext).

Definition IsEncrypted (data : list Z) : bool :=
  (slen envelopeMagic + 1 <? blen data) &&
  bool_decide (take (String.length envelopeMagic) data = bytes_of envelopeMagic).

Definition open (L : Lib) (data : list Z) (password : string) : Result Error (list Z) :=
  if negb (IsEncrypted data) then Err (Sentinel_ ErrInvalidFormat "")
  else if password =s "" then Err (Sentinel_ ErrPasswordRequired "")
  else
    let header := S (String.length envelopeMagic) in
    let version := nth (String.length envelopeMagic) data 0 in
    if negb (version =? envelopeVersion)
    then Err (Sentinel_ ErrInvalidFormat ("unsupported envelope version " +:+ itoa version))
    else if blen data <? Z.of_nat header + saltLen then Err (Sentinel_ ErrInvalidFormat "")
    else
      let salt := take (Z.to_nat saltLen) (drop header data) in
      match Decrypt L (deriveKey L password salt) (drop (header + Z.to_nat saltLen) data) with
      | Ok plaintext => Ok plaintext
      | Err _ => Err (Sentinel_ ErrInvalidPassword "")
      end.

(** * Round trips *)

Lemma blen_nonneg data : 0 ≤ blen data.
Proof. unfold blen. lia. Qed.

Lemma limit_bytes_small n data : blen data ≤ n → limit_bytes n data = data.
Proof. intros H. unfold limit_bytes. by destruct (Z.leb_spec (blen data) n); [|lia]. Qed.

Lemma elem_of_sorted_names blocks name : name ∈ sorted_names blocks ↔ is_Some (blocks !! name).
Proof.
  unfold sorted_names. rewrite sort_strings_perm, list_elem_of_fmap. split.
  - intros ([k v] & -> & Hin%elem_of_map_to_list). simpl. by rewrite Hin.
  - intros [v Hv]. exists (name, v). split; [done|]. by apply elem_of_map_to_list.
Qed.

(** Reading block entries fills the map. *)
Lemma readEntries_blocks blocks t names mj acc :
  (∀ name, name ∈ names → blen (block_data blocks name) ≤ maxEntrySize) →
  readEntries (map (λ name, writeTarFile (blockPrefix +:+ name) (block_data blocks name) t) names) mj acc =
  (mj, fold_left (λ m name, <[name := block_data blocks name]> m) names acc).
Proof.
  revert acc. induction names as [|name names IH]; intros acc Hs; [done|].
  cbn [map readEntries writeTarFile te_reg te_name te_data negb fold_left].
  change (blockPrefix +:+ name =s ManifestName) with false. cbv iota. unfold HasPrefix at 1.
  rewrite prefix_app. rewrite TrimPrefix_app, limit_bytes_small by (apply Hs; left).
  apply IH. intros n Hn. apply Hs. by right.
Qed.

Lemma fold_insert_lookup blocks names (acc : gmap string (list Z)) k :
  fold_left (λ m name, <[name := block_data blocks name]> m) names acc !! k =
  if decide (k ∈ names) then Some (block_data blocks k) else acc !! k.
Proof.
  revert acc. induction names as [|name names IH]; intros acc.
  { case_decide as Hk; [by apply not_elem_of_nil in Hk|done]. }
  cbn [fold_left]. rewrite IH. destruct (decide (k ∈ names)) as [Hk|Hk].
  - rewrite decide_True by (by right). done.
  - destruct (decide (k = name)) as [->|Hne].
    + rewrite decide_True by left. by rewrite lookup_insert_eq.
    + rewrite decide_False by (rewrite elem_of_cons; intros [?|?]; done). by rewrite lookup_insert_ne.
Qed.

Lemma fold_insert_blocks blocks :
  fold_left (λ m name, <[name := block_data blocks name]> m) (sorted_names blocks) ∅ = blocks.
Proof.
  apply map_eq. intros k. rewrite fold_insert_lookup. case_decide as Hk.
  - apply elem_of_sorted_names in Hk as [v Hv]. unfold block_data. by rewrite Hv.
  - destruct (blocks !! k) eqn:E; [|done]. exfalso. apply Hk, elem_of_sorted_names. by rewrite E.
Qed.

Lemma ascii_text_app a b : ascii_text (a +:+ b) = ascii_text a && ascii_text b.
Proof.
  induction a as [|c a IH]; [done|]. rewrite string_app_cons. simpl. by rewrite IH, andb_assoc.
Qed.

(** Hexadecimal text is ASCII without a zero byte. *)
Definition hex_char_ok (n : N) : bool :=
  ((Ascii.N_of_ascii (hex_digit n) <? 128)%N && negb (Ascii.eqb (hex_digit n) "000"%char)).

Lemma hex_char_checked n : (n < 16)%N → hex_char_ok n = true.
Proof.
  intros Hn. assert (forallb hex_char_ok (map N.of_nat (seq 0 16)) = true) as H by (vm_compute; reflexivity).
  rewrite forallb_forall in H. apply H, in_map_iff. exists (N.to_nat n).
  split; [lia|]. apply in_seq. lia.
Qed.

Lemma hexString_text data : Forall is_byte data →
  ascii_text (hexString data) = true ∧ has_char "000"%char (hexString data) = false.
Proof.
  induction 1 as [|b data Hb Hd [IH1 IH2]]; [done|]. cbn [hexString foldr]. fold (hexString data).
  assert (∀ z, 0 ≤ z < 16 → hex_char_ok (Z.to_N z) = true) as Hh.
  { intros z Hz. apply hex_char_checked. lia. }
  unfold is_byte in Hb.
  pose proof (Hh (b / 16) ltac:(split; [apply Z.div_pos; lia|apply Z.div_lt_upper_bound; lia])) as H1.
  pose proof (Hh (b mod 16) ltac:(apply Z.mod_pos_bound; lia)) as H2.
  unfold hex_char_ok in H1, H2. apply andb_true_iff in H1 as [H1 H1'], H2 as [H2 H2'].
  apply negb_true_iff in H1', H2'. cbn [ascii_text has_char]. by rewrite H1, H2, H1', H2', IH1, IH2.
Qed.

Section laws.
Context (L : Lib) {HL : LibLaws L}.

Lemma hash_text data :
  ascii_text (hashBytes L data) = true ∧ has_char "000"%char (hashBytes L data) = false.
Proof. apply hexString_text, law_sha. Qed.

(** What is built is read back, if no entry is beyond the reader's limit. *)
Lemma build_read m blocks body :
  json_manifest m → (∀ name data, blocks !! name = Some data → name = hashBytes L data) →
  (∀ es, targz_Read L body = Ok es → Forall (λ e, blen (te_data e) ≤ maxEntrySize) es) →
  buildArchive L m blocks = Ok body →
  readArchive L body = Ok (stored m, blocks) ∧ ∃ r, body = 31 :: 139 :: r.
Proof.
  intros Hm Hb Hsize. unfold buildArchive, marshalManifest.
  destruct (law_json m Hm) as (json & Ej & Eu). rewrite Ej.
  destruct (law_tar (archiveEntries m json blocks)) as (r & Et & Er).
  { constructor; [by split|]. apply Forall_map, List.Forall_forall. intros name Hin%list_elem_of_In.
    apply elem_of_sorted_names in Hin as [data Hd]. apply Hb in Hd as ->.
    destruct (hash_text data) as [H1 H2]. split; [|done]. split; [done|]. simpl te_name.
    split; [by rewrite ascii_text_app, H1|]. exact H2. }
  rewrite Et. intros [= <-]. split; [|by exists r]. apply Hsize in Er as Hs.
  unfold readArchive. rewrite Er. unfold archiveEntries in *.
  apply Forall_cons in Hs as [Hjson Hblocks]. simpl in Hjson.
  cbn [readEntries writeTarFile te_reg te_name te_data negb].
  rewrite seqb_refl, (limit_bytes_small maxEntrySize json) by done.
  rewrite readEntries_blocks, fold_insert_blocks; [unfold unmarshalManifest; by rewrite Eu|].
  intros name Hin%list_elem_of_In. rewrite List.Forall_forall in Hblocks.
  exact (Hblocks _ (in_map _ _ _ Hin)).
Qed.

Lemma randRead_length n env d salt d' : 0 ≤ n → randRead n env d = (Ok salt, d') → blen salt = n.
Proof.
  intros Hn H. apply call_inv in H. injection H as <- _. unfold blen.
  rewrite length_take, length_app, repeat_length. lia.
Qed.

Lemma take_app_exact {A} (a b : list A) n : length a = n → take n (a ++ b) = a ∧ drop n (a ++ b) = b.
Proof. intros <-. by rewrite take_app_length, drop_app_length. Qed.

(** The layout of an envelope. *)
Lemma envelope_layout salt ct raw :
  raw = bytes_of envelopeMagic ++ [envelopeVersion] ++ salt ++ ct → length salt = 16%nat →
  IsEncrypted raw = true ∧ nth (String.length envelopeMagic) raw 0 = envelopeVersion ∧
  blen raw = 25 + blen ct ∧
  take (Z.to_nat saltLen) (drop (S (String.length envelopeMagic)) raw) = salt ∧
  drop (S (String.length envelopeMagic) + Z.to_nat saltLen) raw = ct.
Proof.
  intros -> Hs. unfold IsEncrypted.
  assert (blen (bytes_of envelopeMagic ++ [envelopeVersion] ++ salt ++ ct) = 25 + blen ct) as Hl.
  { unfold blen. rewrite !length_app, Hs. change (length (bytes_of envelopeMagic)) with 8%nat.
    simpl length. lia. }
  rewrite Hl. pose proof (blen_nonneg ct). split; [|split; [done|split; [done|]]].
  - apply andb_true_iff. split; [apply Z.ltb_lt; change (slen envelopeMagic) with 8; lia|].
    by apply bool_decide_eq_true.
  - destruct (take_app_exact salt ct 16 Hs) as [H1 H2]. split; [exact H1|exact H2].
Qed.

(** What is encrypted is decrypted under the same key. *)
Lemma Encrypt_Decrypt key body env d ct d' :
  Encrypt L key body env d = (Ok ct, d') → Decrypt L key ct = Ok body.
Proof.
  unfold Encrypt, Decrypt. intros H. apply fbind_inv in H as ([] & d1 & [Hk _]%lift_inv & H).
  apply fbind_inv in H as (nonce & d2 & Hn & H). injection H as <- _.
  apply randRead_length in Hn; [|done]. rewrite Hk.
  assert (length nonce = Z.to_nat nonceSize) as Hn' by (unfold blen in Hn; lia).
  destruct (Z.ltb_spec (blen (nonce ++ gcm_Seal L key nonce body)) nonceSize) as [Hlt|_].
  { unfold blen in *. rewrite length_app in Hlt. lia. }
  destruct (take_app_exact nonce (gcm_Seal L key nonce body) _ Hn') as [-> ->]. by rewrite law_gcm.
Qed.

(** What is sealed is opened with the same password. *)
Lemma seal_open body password env d raw d' :
  seal L body password env d = (Ok raw, d') →
  IsEncrypted raw = true ∧ open L raw password = Ok body.
Proof.
  unfold seal. destruct (password =s "") eqn:Hp; [done|]. intros H.
  apply fbind_inv in H as (salt & d1 & Hs & H). apply randRead_length in Hs; [|done].
  apply fbind_inv in H as (ct & d2 & Hc%Encrypt_Decrypt & H). injection H as H _.
  destruct (envelope_layout salt ct raw (eq_sym H)) as (He & Hv & Hl & Hsalt & Hct);
    [unfold blen, saltLen in Hs; lia|].
  split; [done|]. unfold open. rewrite He, Hp, Hv, Hl, Hsalt, Hct, Hc. cbn [negb].
  rewrite Z.eqb_refl. cbn [negb]. pose proof (blen_nonneg ct).
  destruct (Z.ltb_spec (25 + blen ct) (Z.of_nat (S (String.length envelopeMagic)) + saltLen)) as [Hlt|_];
    [|done]. change (Z.of_nat (S (String.length envelopeMagic)) + saltLen) with 25 in Hlt. lia.
Qed.

Lemma gzip_not_encrypted r : IsEncrypted (31 :: 139 :: r) = false.
Proof.
  unfold IsEncrypted. apply andb_false_iff. right. apply bool_decide_eq_false. by intros [=].
Qed.
End laws.

(** A concrete instance of the libraries that archives rest on, with the laws
    proved: it shows that [LibLaws] can hold and lets the theorems on backups be
    run on an example.  Its hash, cipher and formats are stand-ins: the hash keeps
    its input, the cipher does nothing, and the two formats are a plain
    serialisation in which every list carries its length. *)

(** * Serialisation *)

(** A writer and a reader that returns what follows. *)
Record codec (A : Type) := mkCodec
  { enc : A → list Z; dec : list Z → option (A * list Z);
    dec_enc : ∀ a rest, dec (enc a ++ rest) = Some (a, rest) }.
Arguments enc {A} c a.
Arguments dec {A} c l.
Arguments dec_enc {A} c a rest.

Program Definition z_codec : codec Z :=
  mkCodec Z (λ z, [z]) (λ l, match l with z :: r => Some (z, r) | [] => None end) _.
Next Obligation. done. Qed.

Program Definition pair_codec {A B} (a : codec A) (b : codec B) : codec (A * B) :=
  mkCodec (A * B) (λ p, enc a p.1 ++ enc b p.2)
    (λ l, match dec a l with
          | Some (x, r) => match dec b r with Some (y, r') => Some ((x, y), r') | None => None end
          | None => None
          end) _.
Next Obligation.
  intros A B a b [x y] rest. simpl. rewrite <-app_assoc, dec_enc, dec_enc. done.
Qed.

Fixpoint dec_n {A} (c : codec A) (n : nat) (l : list Z) : option (list A * list Z) :=
  match n with
  | O => Some ([], l)
  | S n' =>
      match dec c l with
      | Some (x, r) => match dec_n c n' r with Some (xs, r') => Some (x :: xs, r') | None => None end
      | None => None
      end
  end.

Program Definition list_codec {A} (c : codec A) : codec (list A) :=
  mkCodec (list A) (λ xs, Z.of_nat (length xs) :: concat (map (enc c) xs))
    (λ l, match l with n :: r => dec_n c (Z.to_nat n) r | [] => None end) _.
Next Obligation.
  intros A c xs rest. simpl. rewrite Nat2Z.id. induction xs as [|x xs IH]; simpl; [done|].
  by rewrite <-app_assoc, dec_enc, IH.
Qed.

(** Through a pair of conversions. *)
Program Definition via_codec {A B} (c : codec A) (f : B → A) (g : A → B) (gf : ∀ b, g (f b) = b)
    : codec B :=
  mkCodec B (λ b, enc c (f b))
    (λ l, match dec c l with Some (x, r) => Some (g x, r) | None => None end) _.
Next Obligation. intros A B c f g gf b rest. simpl. by rewrite dec_enc, gf. Qed.

Definition bool_codec : codec bool :=
  via_codec z_codec (λ b : bool, if b then 1 else 0) (λ z, z =? 1)
    (λ b, match b with true => eq_refl | false => eq_refl end).

Fixpoint chars (s : string) : list Z :=
  match s with
  | EmptyString => []
  | String c s' => Z.of_N (Ascii.N_of_ascii c) :: chars s'
  end.

Definition unchars (l : list Z) : string :=
  foldr (λ z s, String (Ascii.ascii_of_N (Z.to_N z)) s) "" l.

Lemma unchars_chars s : unchars (chars s) = s.
Proof.
  induction s as [|c s IH]; [done|]. simpl. by rewrite IH, N2Z.id, Ascii.ascii_N_embedding.
Qed.

Definition string_codec : codec string := via_codec (list_codec z_codec) chars unchars unchars_chars.

Definition entry_codec : codec Entry :=
  via_codec
    (pair_codec (pair_codec string_codec (pair_codec z_codec z_codec))
       (pair_codec (pair_codec z_codec string_codec) (list_codec string_codec)))
    (λ e, ((e_Path e, (e_Mode e, e_Size e)), ((e_ModTime e, e_Checksum e), e_Blocks e)))
    (λ t, mkEntry t.1.1 t.1.2.1 t.1.2.2 t.2.1.1 t.2.1.2 t.2.2)
    (λ e, match e with mkEntry _ _ _ _ _ _ => eq_refl end).

Definition block_codec : codec Block :=
  via_codec (pair_codec string_codec z_codec) (λ b, (b_Hash b, b_Size b)) (λ t, mkBlock t.1 t.2)
    (λ b, match b with mkBlock _ _ => eq_refl end).

Definition manifest_codec : codec (string * Z * string * string * list Entry * list Block *
    string * bool * string * string * Z * Z) :=
  pair_codec (pair_codec (pair_codec (pair_codec (pair_codec (pair_codec (pair_codec (pair_codec
    (pair_codec (pair_codec (pair_codec string_codec z_codec) string_codec) string_codec)
    (list_codec entry_codec)) (list_codec block_codec)) string_codec) bool_codec) string_codec)
    string_codec) z_codec) z_codec.

Definition tar_codec : codec TarEntry :=
  via_codec (pair_codec (pair_codec string_codec bool_codec) (pair_codec z_codec (list_codec z_codec)))
    (λ e, ((te_name e, te_reg e), (te_mtime e, te_data e)))
    (λ t, mkTarEntry t.1.1 t.1.2 t.2.1 t.2.2)
    (λ e, match e with mkTarEntry _ _ _ _ => eq_refl end).

(** * The instance *)

Definition sample_lib : Lib := mkLib
  (map (λ z, z mod 256))
  (λ _ _ _ _ _ n, repeat 7 (Z.to_nat n))
  (λ _ _ p, p) (λ _ _ c, Some c)
  (λ m, Ok (enc manifest_codec (m_Version m, m_CreatedAt m, m_CreatedBy m, m_AppVersion m,
      m_Contents m, m_BlockIndex m, m_Checksum m, m_Encrypted m, m_EncryptionMethod m,
      m_KeyDerivation m, m_OriginalSize m, m_StoredSize m)))
  (λ b, match dec manifest_codec b with
        | Some ((v, c, by_, av, es, bi, ck, en, em, kd, os, ss), _) =>
            Ok (mkManifest v c by_ av es bi ck en em kd os ss "" 0 "" false)
        | None => Err "unexpected end of JSON input"
        end)
  (λ es, Ok (31 :: 139 :: enc (list_codec tar_codec) es))
  (λ b, match b with
        | 31 :: 139 :: r =>
            match dec (list_codec tar_codec) r with
            | Some (es, _) => Ok es
            | None => Err "unexpected EOF"
            end
        | _ => Err "gzip: invalid header"
        end).

#[global] Instance sample_laws : LibLaws sample_lib.
Proof.
  split.
  - intros data. simpl. apply Forall_map, Forall_true. intros z. apply Z.mod_pos_bound. lia.
  - done.
  - intros m _. eexists. split; [reflexivity|]. cbn [json_Unmarshal sample_lib].
    rewrite <-(app_nil_r (enc manifest_codec _)), dec_enc. done.
  - intros es _. eexists. split; [reflexivity|]. cbn [targz_Read sample_lib].
    rewrite <-(app_nil_r (enc (list_codec tar_codec) _)), dec_enc. done.
Qed.

(** * A disk to back up *)

Definition sample_db : list Z := bytes_of ("SQLite format 3" +:+ nul +:+ "rows").

Definition sample_disk : Disk := mkDisk
  (list_to_map
    [(["etc"], DirNode); (["etc"; "cashp"], DirNode); (["var"], DirNode); (["var"; "lib"], DirNode);
     (["var"; "lib"; "cashp"], DirNode);
     (["etc"; "cashp"; "server.yml"], Reg 416 5000000000 (bytes_of "port: 80"));
     (["etc"; "cashp"; "template"], DirNode);
     (["etc"; "cashp"; "template"; "mail.html"], Reg 420 7000000000 (bytes_of "hello"));
     (["var"; "lib"; "cashp"; "server.db"], Reg 384 6000000000 sample_db);
     (["var"; "lib"; "cashp"; "users.db"], Reg 384 6000000000 sample_db)]) 0.
