(* ===== verification/Backup.v ===== *)
(** Creating, verifying and restoring backups: [src/src/backup/create.go],
    [src/src/backup/verify.go], [src/src/backup/restore.go] and [List] of
    [src/src/backup/retention.go].

    Every function runs over the disk of [Files.v], call by call, in the order of
    the source.  A tree is walked in one call: any failure on the way is the
    failure of the walk, as in the source.  [notifyCreate], whose failures the
    code only logs, is left out. *)
From stdpp Require Import prelude strings list gmap.
From Stdlib Require Import ZArith Lia Ascii.
From S2P Require Import Prelude GoTime Chunk Files Retention Archive.

(** * Writing files *)

Definition writeFileAtomic (target : string) (data : list Z) (mode : Z) : FM () :=
  let dir := Dir target in
  do _ <- MkdirAll dir;
  do name <- CreateTemp dir ("." +:+ Base target +:+ ".tmp-");
  do _ <- on_error (WriteTo name data) (do _ <- attempt Close; Remove name);
  do _ <- on_error Sync (do _ <- attempt Close; Remove name);
  do _ <- on_error Close (Remove name);
  do _ <- on_error (Chmod name mode) (Remove name);
  on_error (Rename name target) (Remove name).

Definition safeJoin (root rel : string) : Result Error string :=
  let clean := Clean ("/" +:+ rel) in
  if (clean =s "/") || Contains rel ".." then Err (Sentinel_ ErrUnsafePath rel) else
  let target := Join [root; TrimPrefix clean "/"] in
  let rooted := Clean root +:+ "/" in
  if negb (HasPrefix target rooted) then Err (Sentinel_ ErrUnsafePath rel)
  else Ok target.

(** * Collecting the files *)

Record source := mkSource { src_abs : string; src_rel : string }.

Fixpoint comps_leb (a b : list string) : bool :=
  match a, b with
  | [], _ => true
  | _ :: _, [] => false
  | x :: a', y :: b' => if x =s y then comps_leb a' b' else string_leb x y
  end.

Fixpoint is_prefix (a b : list string) : bool :=
  match a, b with
  | [], _ => true
  | x :: a', y :: b' => (x =s y) && is_prefix a' b'
  | _, _ => false
  end.

(** [filepath.WalkDir]: the nodes at and below [root], in lexical order. *)
Definition WalkDir (root : string) : FM (list (string * node)) :=
  call (λ _ _ m,
    (match m !! key root with
     | None => Err (ErrNotExist root)
     | Some _ =>
         Ok (map (λ kn, (if decide (kn.1 = key root) then root else "/" +:+ join_comps kn.1, kn.2))
              (sort_by (λ a b, comps_leb a.1 b.1)
                 (List.filter (λ kn, is_prefix (key root) kn.1) (map_to_list m))))
     end, m)) nothing.

(** The callback: only regular files are collected. *)
Fixpoint walkFiles (root prefix : string) (found : list (string * node))
    : Result Error (list source) :=
  match found with
  | [] => Ok []
  | (p, n) :: rest =>
      if fi_dir (linfo_of n) || negb (fi_regular (linfo_of n)) then walkFiles root prefix rest else
      match Rel root p with
      | None => Err (ErrSystem ("Rel: can't make " +:+ p +:+ " relative to " +:+ root))
      | Some rel =>
          try out := walkFiles root prefix rest in
          Ok (mkSource p (Join [prefix; rel]) :: out)
      end
  end.

Definition walkTree (root prefix : string) : FM (list source) :=
  do r <- attempt (Stat root);
  match r with
  | Err e => if IsNotExist e then fret [] else fail e
  | Ok _ => do found <- WalkDir root; lift (walkFiles root prefix found)
  end.

(** The closure [add]: a manifest path is taken once. *)
Definition add (sources : list source) (s : source) : list source :=
  if existsb (λ t, src_rel t =s src_rel s) sources then sources else sources ++ [s].

Definition required (o : Options) : list source :=
  [mkSource (Join [ConfigDir o; "server.yml"]) (configRoot +:+ "/server.yml");
   mkSource (Join [DataDir o; "server.db"]) (dataRoot +:+ "/server.db");
   mkSource (Join [DataDir o; "users.db"]) (dataRoot +:+ "/users.db")].

Fixpoint addRequired (reqs sources : list source) : FM (list source) :=
  match reqs with
  | [] => fret sources
  | req :: rest =>
      do r <- attempt (Stat (src_abs req));
      match r with
      | Err _ => fail (Sentinel_ ErrMissingRequiredFile (src_rel req))
      | Ok _ => addRequired rest (add sources req)
      end
  end.

Fixpoint addTrees (o : Options) (dirs : list string) (sources : list source) : FM (list source) :=
  match dirs with
  | [] => fret sources
  | dir :: rest =>
      do found <- walkTree (Join [ConfigDir o; dir]) (configRoot +:+ "/" +:+ dir);
      addTrees o rest (fold_left add found sources)
  end.

Definition optional (o : Options) : list string :=
  ["template"; "theme"] ++ (if IncludeSSL o then ["ssl"] else []).

Definition collectSources (o : Options) : FM (list source) :=
  do sources <- addRequired (required o) [];
  do sources <- addTrees o (optional o) sources;
  do sources <- (if IncludeData o
                 then do found <- walkTree (DataDir o) dataRoot; fret (fold_left add found sources)
                 else fret sources);
  fret (sort_by (λ a b, string_leb (src_rel a) (src_rel b)) sources).

(** * Creating *)

Definition perm (mode : Z) : Z := Z.land mode 511.

(** The blocks of a file join the shared map under their hashes. *)
Fixpoint addBlocks (L : Lib) (bs : list (list Z)) (blocks : gmap string (list Z))
    : list string * gmap string (list Z) :=
  match bs with
  | [] => ([], blocks)
  | b :: bs' =>
      let name := hashBytes L b in
      let blocks := match blocks !! name with Some _ => blocks | None => <[name := b]> blocks end in
      let '(names, blocks) := addBlocks L bs' blocks in (name :: names, blocks)
  end.

Definition addFile (L : Lib) (src : source) (blocks : gmap string (list Z))
    : FM (Entry * gmap string (list Z)) :=
  do info <- Stat (src_abs src);
  do data <- ReadFile (src_abs src);
  let '(names, blocks) := addBlocks L (splitBlocks data) blocks in
  fret (mkEntry (src_rel src) (perm (fi_mode info)) (blen data) (fi_mtime info)
          (hashBytes L data) names, blocks).

(** The loop of [Create]: contents, total size and blocks. *)
Fixpoint addFiles (L : Lib) (sources : list source) (contents : list Entry) (size : Z)
    (blocks : gmap string (list Z)) : FM (list Entry * Z * gmap string (list Z)) :=
  match sources with
  | [] => fret (contents, size, blocks)
  | src :: rest =>
      do _ <- ctxErr;
      do (entry, blocks) <- addFile L src blocks;
      addFiles L rest (contents ++ [entry]) (size +! e_Size entry) blocks
  end.

Definition stored_size (index : list Block) : Z :=
  fold_left (λ n b, n +! b_Size b) index 0.

(** * Verifying *)

Definition loadArchive (L : Lib) (path password : string)
    : FM (Manifest * gmap string (list Z)) :=
  do raw <- ReadFile path;
  if blen raw =? 0 then fail (Sentinel_ ErrEmptyBackup "") else
  let encrypted := IsEncrypted raw in
  do body <- (if encrypted then lift (open L raw password) else fret raw);
  do (m, blocks) <- lift (readArchive L body);
  if negb (Bool.eqb (m_Encrypted m) encrypted)
  then fail (Sentinel_ ErrInvalidFormat "manifest encryption flag does not match the archive")
  else fret (m, blocks).

(** The source visits the map in no particular order; here it is the map's. *)
Fixpoint verifyHashes (L : Lib) (blocks : list (string * list Z)) : Result Error () :=
  match blocks with
  | [] => Ok ()
  | (name, data) :: rest =>
      if negb (hashBytes L data =s name)
      then Err (Sentinel_ ErrChecksumMismatch ("block " +:+ name +:+ " does not match its content hash"))
      else verifyHashes L rest
  end.

Fixpoint verifyIndex (index : list Block) (blocks : gmap string (list Z)) : Result Error () :=
  match index with
  | [] => Ok ()
  | b :: rest =>
      match blocks !! b_Hash b with
      | None => Err (Sentinel_ ErrChecksumMismatch
                       ("block " +:+ b_Hash b +:+ " listed in the index is missing"))
      | Some data =>
          if negb (blen data =? b_Size b)
          then Err (Sentinel_ ErrChecksumMismatch ("block " +:+ b_Hash b +:+ " is " +:+
                 itoa (blen data) +:+ " bytes, index says " +:+ itoa (b_Size b)))
          else verifyIndex rest blocks
      end
  end.

Definition verifyBlocks (L : Lib) (m : Manifest) (blocks : gmap string (list Z)) : Result Error () :=
  try _ := verifyHashes L (map_to_list blocks) in
  if negb (length (m_BlockIndex m) =? size blocks)%nat
  then Err (Sentinel_ ErrChecksumMismatch ("block index lists " +:+
         itoa (Z.of_nat (length (m_BlockIndex m))) +:+ " blocks, archive holds " +:+
         itoa (Z.of_nat (size blocks))))
  else verifyIndex (m_BlockIndex m) blocks.

Fixpoint joinBlocks (path : string) (names : list string) (blocks : gmap string (list Z))
    : Result Error (list Z) :=
  match names with
  | [] => Ok []
  | name :: rest =>
      match blocks !! name with
      | None => Err (Sentinel_ ErrChecksumMismatch (path +:+ " references missing block " +:+ name))
      | Some data => try more := joinBlocks path rest blocks in Ok (data ++ more)
      end
  end.

(** [make] panics on a capacity that is negative or beyond the address space. *)
Definition maxAlloc : Z := 2 ^ 48.

Fixpoint reassembleEntries (L : Lib) (es : list Entry) (blocks : gmap string (list Z))
    (files : gmap string (list Z)) : Result Error (gmap string (list Z)) :=
  match es with
  | [] => Ok files
  | e :: rest =>
      if (e_Size e <? 0) || (maxAlloc <? e_Size e)
      then Err (Panicked "makeslice: cap out of range") else
      try content := joinBlocks (e_Path e) (e_Blocks e) blocks in
      if negb (blen content =? e_Size e)
      then Err (Sentinel_ ErrChecksumMismatch (e_Path e +:+ " extracts to " +:+
             itoa (blen content) +:+ " bytes, manifest says " +:+ itoa (e_Size e)))
      else if negb (hashBytes L content =s e_Checksum e)
      then Err (Sentinel_ ErrChecksumMismatch (e_Path e +:+ " failed its checksum"))
      else reassembleEntries L rest blocks (<[e_Path e := content]> files)
  end.

Definition reassemble (L : Lib) (m : Manifest) (blocks : gmap string (list Z))
    : Result Error (gmap string (list Z)) := reassembleEntries L (m_Contents m) blocks ∅.

Definition sqliteMagic : list Z := bytes_of ("SQLite format 3" +:+ nul).

Fixpoint checkRequired (reqs : list string) (files : gmap string (list Z)) : Result Error () :=
  match reqs with
  | [] => Ok ()
  | req :: rest =>
      match files !! req with
      | None => Err (Sentinel_ ErrMissingRequiredFile req)
      | Some _ => checkRequired rest files
      end
  end.

Definition is_sqlite (content : list Z) : bool :=
  (length sqliteMagic <=? length content)%nat &&
  bool_decide (take (length sqliteMagic) content = sqliteMagic).

Fixpoint checkDatabases (es : list Entry) (files : gmap string (list Z)) : Result Error () :=
  match es with
  | [] => Ok ()
  | e :: rest =>
      if negb (HasSuffix (e_Path e) ".db") then checkDatabases rest files
      else if negb (is_sqlite (block_data files (e_Path e)))
      then Err (Sentinel_ ErrDatabaseIntegrity (e_Path e +:+ " is not a valid SQLite database"))
      else checkDatabases rest files
  end.

Definition verifyContents (m : Manifest) (files : gmap string (list Z)) : Result Error () :=
  try _ := checkRequired requiredFiles files in checkDatabases (m_Contents m) files.

(** What verification adds to the manifest it read. *)
Definition verified (m : Manifest) (path : string) (size : Z) (warning : string) : Manifest :=
  mkManifest (m_Version m) (m_CreatedAt m) (m_CreatedBy m) (m_AppVersion m) (m_Contents m)
    (m_BlockIndex m) (m_Checksum m) (m_Encrypted m) (m_EncryptionMethod m) (m_KeyDerivation m)
    (m_OriginalSize m) (m_StoredSize m) path size warning (m_Readable m).

(** The checks on a loaded archive, in order: the warning and the files. *)
Definition verifyLoaded (L : Lib) (m : Manifest) (blocks : gmap string (list Z))
    : Result Error (string * gmap string (list Z)) :=
  try warning := checkVersion (m_Version m) in
  try _ := verifyBlocks L m blocks in
  let sum := digest L (m_Contents m) blocks in
  if negb (sum =s m_Checksum m)
  then Err (Sentinel_ ErrChecksumMismatch ("manifest records " +:+ m_Checksum m +:+
         ", archive computes " +:+ sum)) else
  try files := reassemble L m blocks in
  try _ := verifyContents m files in
  Ok (warning, files).

Definition verify (L : Lib) (path password : string) : FM (Manifest * gmap string (list Z)) :=
  do _ <- ctxErr;
  do info <- Stat path;
  if fi_size info =? 0 then fail (Sentinel_ ErrEmptyBackup "") else
  do (m, blocks) <- loadArchive L path password;
  do (warning, files) <- lift (verifyLoaded L m blocks);
  fret (verified m path (fi_size info) warning, files).

Definition Verify (L : Lib) (path password : string) : FM Manifest :=
  do (m, _) <- verify L path password; fret m.

Definition Create (L : Lib) (o : Options) (password : string) : FM (string * Manifest) :=
  do _ <- ctxErr;
  if Compliance o && (password =s "") then fail (Sentinel_ ErrEncryptionRequired "") else
  do sources <- collectSources o;
  do created <- now;
  let encrypted := negb (password =s "") in
  do (contents, size, blocks) <- addFiles L sources [] 0 ∅;
  let index := blockIndex blocks in
  let m := mkManifest FormatVersion created (CreatedBy o) (AppVersion o) contents index
             (digest L contents blocks) encrypted
             (if encrypted then EncryptionMethod else "") (if encrypted then KeyDerivation else "")
             size (stored_size index) "" 0 "" false in
  do body <- lift (buildArchive L m blocks);
  do body <- (if encrypted then seal L body password else fret body);
  let target := Join [BackupDir o; archiveName created encrypted] in
  do _ <- writeFileAtomic target body 384;
  do r <- attempt (Verify L target password);
  match r with
  | Ok verified => fret (target, verified)
  | Err (Panicked t) => fail (Panicked t)
  | Err e => do _ <- attempt (Remove target); fail (VerificationFailed e)
  end.

(** * Restoring *)

Definition destination (o : Options) (rel : string) : Result Error string :=
  if HasPrefix rel (configRoot +:+ "/")
  then safeJoin (ConfigDir o) (TrimPrefix rel (configRoot +:+ "/"))
  else if HasPrefix rel (dataRoot +:+ "/")
  then safeJoin (DataDir o) (TrimPrefix rel (dataRoot +:+ "/"))
  else Err (Sentinel_ ErrUnsafePath rel).

Definition newSetupToken : FM string := do raw <- randRead 16; fret (hexString raw).

Record RestoreResult := mkRestoreResult
  { rr_Manifest : Manifest; rr_RestoredFiles : list string; rr_NewServer : bool;
    rr_RequiresSetupToken : bool; rr_SetupToken : string; rr_SetupTokenExpires : Z;
    rr_VersionWarning : string }.

Definition setupTokenLifetime : Z := 24 * 3600 * nanos.

(** The targets of all entries, found before anything is written. *)
Fixpoint destinations (o : Options) (es : list Entry) (targets : gmap string string)
    : Result Error (gmap string string) :=
  match es with
  | [] => Ok targets
  | e :: rest =>
      try target := destination o (e_Path e) in
      destinations o rest (<[e_Path e := target]> targets)
  end.

Definition target_of (targets : gmap string string) (path : string) : string :=
  match targets !! path with Some t => t | None => "" end.

Definition restoreMode (mode : Z) : Z := if perm mode =? 0 then 384 else perm mode.

Fixpoint restoreEntries (es : list Entry) (targets : gmap string string)
    (files : gmap string (list Z)) (done : list string) : FM (list string) :=
  match es with
  | [] => fret done
  | e :: rest =>
      do _ <- ctxErr;
      let target := target_of targets (e_Path e) in
      do _ <- writeFileAtomic target (block_data files (e_Path e)) (restoreMode (e_Mode e));
      restoreEntries rest targets files (done ++ [target])
  end.

(** The result, with a setup token for a new server. *)
Definition finishRestore (m : Manifest) (newServer : bool) (restored : list string)
    : FM RestoreResult :=
  if newServer then
    do token <- newSetupToken;
    do t <- now;
    fret (mkRestoreResult m restored true true token (t + setupTokenLifetime) (m_VersionWarning m))
  else fret (mkRestoreResult m restored false false "" (zero_time * nanos) (m_VersionWarning m)).

Definition Restore (L : Lib) (o : Options) (path password : string) (newServer : bool)
    : FM RestoreResult :=
  do (m, files) <- verify L path password;
  do targets <- lift (destinations o (m_Contents m) ∅);
  do restored <- restoreEntries (m_Contents m) targets files [];
  finishRestore m newServer restored.

(** * Listing *)

Definition stub (f : backupFile) : Manifest :=
  mkManifest "" (bf_when f) "" "" [] [] "" false "" "" 0 0 (bf_path f) (bf_size f) "" false.

Definition encrypted_stub (f : backupFile) : Manifest :=
  mkManifest "" (bf_when f) "" "" [] [] "" true EncryptionMethod KeyDerivation 0 0
    (bf_path f) (bf_size f) "" false.

Definition readable (m : Manifest) (f : backupFile) : Manifest :=
  mkManifest (m_Version m) (m_CreatedAt m) (m_CreatedBy m) (m_AppVersion m) (m_Contents m)
    (m_BlockIndex m) (m_Checksum m) (m_Encrypted m) (m_EncryptionMethod m) (m_KeyDerivation m)
    (m_OriginalSize m) (m_StoredSize m) (bf_path f) (bf_size f) (m_VersionWarning m) true.

Definition listOne (L : Lib) (f : backupFile) : FM Manifest :=
  do raw <- ReadFile (bf_path f);
  if IsEncrypted raw then fret (encrypted_stub f) else
  match readArchive L raw with
  | Err _ => fret (stub f)
  | Ok (m, _) => fret (readable m f)
  end.

Definition List (L : Lib) (o : Options) : FM (list Manifest) :=
  do files <- scan o; each (listOne L) files.

(** * Atomic writes *)

(** Only the node [tk] changes. *)
Definition touches (tk : list string) : relation (gmap (list string) node) :=
  λ m m', ∀ k, k ≠ tk → m' !! k = m !! k.

#[global] Instance touches_preorder tk : PreOrder (touches tk).
Proof. split; [done|]. intros a b c Hab Hbc k Hk. by rewrite Hbc, Hab. Qed.

Lemma touches_insert tk n m : touches tk m (<[tk := n]> m).
Proof. intros k Hk. by rewrite lookup_insert_ne. Qed.

Lemma touches_delete tk m : touches tk m (delete tk m).
Proof. intros k Hk. by rewrite lookup_delete_ne. Qed.

Lemma steps_touches_Remove p : steps (touches (key p)) (Remove p).
Proof.
  apply steps_call; [|done]. intros env n m.
  destruct (m !! key p) as [[]|]; try case_decide; simpl; try done; apply touches_delete.
Qed.

Lemma steps_WriteTo p data : steps (touches (key p)) (WriteTo p data).
Proof.
  intros env d. unfold WriteTo.
  assert (∀ i data m, touches (key p) m (put_data p env i data m)) as H.
  { intros i data' m. unfold put_data. destruct (m !! key p) as [[]|]; try done. apply touches_insert. }
  unfold call. destruct (env_fault env (calls d)) as [[]|]; apply H.
Qed.

Lemma steps_Chmod p mode : steps (touches (key p)) (Chmod p mode).
Proof.
  apply steps_call; [|done]. intros env n m.
  destruct (m !! key p) as [[]|]; simpl; try done. apply touches_insert.
Qed.

#[local] Hint Resolve steps_touches_Remove steps_WriteTo steps_Chmod : steps.

(** What [MkdirAll] may do, done or not: missing directories appear. *)
Definition only_dirs (ks : list (list string)) : relation (gmap (list string) node) :=
  λ m m', ∀ k, m' !! k = m !! k ∨ (m !! k = None ∧ m' !! k = Some DirNode ∧ k ∈ ks).

Lemma make_dirs_only ks m : only_dirs ks m (make_dirs ks m).
Proof.
  unfold make_dirs. revert m. induction ks as [|x ks IH]; intros m k; simpl; [by left|].
  specialize (IH (match m !! x with None => <[x := DirNode]> m | Some _ => m end) k).
  destruct (m !! x) as [n|] eqn:Hx.
  - destruct IH as [?|(? & ? & ?)]; [by left|right]. repeat split; try done. by right.
  - destruct (decide (k = x)) as [->|Hk].
    + rewrite lookup_insert_eq in IH. right. destruct IH as [->|(? & ? & ?)]; [|done].
      repeat split; try done. left.
    + rewrite lookup_insert_ne in IH by done.
      destruct IH as [?|(? & ? & ?)]; [by left|right]. repeat split; try done. by right.
Qed.

Lemma MkdirAll_only p env d :
  only_dirs (ancestors (key p)) (nodes d) (nodes (MkdirAll p env d).2).
Proof.
  unfold MkdirAll, call. destruct (env_fault env (calls d)) as [[? k]|]; simpl.
  - destruct (forallb _ _); [|by left]. intros x.
    destruct (make_dirs_only (take k (ancestors (key p))) (nodes d) x) as [?|(? & ? & Hin)]; [by left|right].
    repeat split; try done. rewrite <-(take_drop k), elem_of_app. by left.
  - destruct (forallb _ _); simpl; [apply make_dirs_only|by left].
Qed.

(** The name of a temporary file. *)
Definition temp_name (target : string) (s : string) : string := "." +:+ Base target +:+ ".tmp-" +:+ s.

Lemma has_char_app c a b : has_char c (a +:+ b) = has_char c a || has_char c b.
Proof. induction a as [|x a IH]; [done|]. rewrite string_app_cons. simpl. by rewrite IH, orb_assoc. Qed.

Lemma digits_no_slash s : all_digits s = true → has_char slash s = false.
Proof.
  induction s as [|c s IH]; [done|]. simpl. intros [Hc Hs]%andb_true_iff. rewrite IH by done.
  rewrite orb_false_r. destruct (Ascii.eqb_spec c slash) as [->|]; [by vm_compute in Hc|done].
Qed.

Lemma temp_name_ok target s : has_char slash (Base target) = false → all_digits s = true →
  name_ok (temp_name target s) ∧ temp_name target s ≠ Base target.
Proof.
  intros Hb Hs. unfold temp_name.
  assert (slen ("." +:+ Base target +:+ ".tmp-" +:+ s) = 6 + slen (Base target) + slen s) as Hl.
  { rewrite !slen_app. change (slen ".") with 1. change (slen ".tmp-") with 5. lia. }
  pose proof (slen_nonneg (Base target)). pose proof (slen_nonneg s).
  repeat split; try (intros E; rewrite E in Hl; vm_compute in Hl; lia).
  - intros E. rewrite E in Hl. change (slen "") with 0 in Hl. lia.
  - intros E. rewrite E in Hl. change (slen ".") with 1 in Hl. lia.
  - rewrite !has_char_app, Hb, (digits_no_slash s) by done. done.
  - intros E. rewrite E in Hl. change (slen "..") with 2 in Hl. lia.
  - intros E. rewrite E in Hl. lia.
Qed.

Lemma fresh_name_spec fuel env i dir prefix m name :
  fresh_name fuel env i dir prefix m = Some name →
  m !! (dir ++ [name]) = None ∧ ∃ s, all_digits s = true ∧ name = prefix +:+ s.
Proof.
  induction fuel as [|fuel IH]; [done|]. cbn [fresh_name].
  cbv zeta.
  destruct (m !! (dir ++ [prefix +:+ digits _])) as [n|] eqn:E; [apply IH|]. intros [= <-]. split; [done|].
  eexists. split; [|done]. apply digits_spec. lia.
Qed.

Lemma CreateTemp_inv dir prefix env d name d' :
  CreateTemp dir prefix env d = (Ok name, d') →
  ∃ s t, all_digits s = true ∧ name = dir +:+ "/" +:+ (prefix +:+ s) ∧
    nodes d !! (key dir ++ [prefix +:+ s]) = None ∧
    nodes d' = <[key dir ++ [prefix +:+ s] := Reg 384 t []]> (nodes d).
Proof.
  intros H. apply call_inv in H. destruct (nodes d !! key dir) as [[]|] eqn:Hd; try done.
  destruct (fresh_name _ _ _ _ _ _) as [nm|] eqn:Hf; [|done].
  apply fresh_name_spec in Hf as (Hn & s & Hs & ->). injection H as <- <-. eauto 6.
Qed.

Lemma CreateTemp_err dir prefix env d e d' :
  CreateTemp dir prefix env d = (Err e, d') → nodes d' = nodes d.
Proof.
  unfold CreateTemp, call. destruct (env_fault env (calls d)) as [[]|]; [by intros [= _ <-]|].
  destruct (nodes d !! key dir) as [[]|]; try by intros [= _ <-].
  destruct (fresh_name _ _ _ _ _ _); [done|by intros [= _ <-]].
Qed.

Lemma Rename_err a b env d e d' : Rename a b env d = (Err e, d') → nodes d' = nodes d.
Proof.
  unfold Rename, call. destruct (env_fault env (calls d)) as [[]|]; [by intros [= _ <-]|].
  destruct (nodes d !! key a) as [n|], (nodes d !! key b) as [[]|]; by intros [= _ <-].
Qed.

(** The part of [writeFileAtomic] that works on the temporary file. *)
Definition fillTemp (name : string) (data : list Z) (mode : Z) : FM () :=
  do _ <- on_error (WriteTo name data) (do _ <- attempt Close; Remove name);
  do _ <- on_error Sync (do _ <- attempt Close; Remove name);
  do _ <- on_error Close (Remove name);
  on_error (Chmod name mode) (Remove name).

Lemma writeFileAtomic_split target data mode env d :
  writeFileAtomic target data mode env d =
  (do _ <- MkdirAll (Dir target);
   do name <- CreateTemp (Dir target) ("." +:+ Base target +:+ ".tmp-");
   do _ <- fillTemp name data mode;
   on_error (Rename name target) (Remove name)) env d.
Proof.
  unfold writeFileAtomic, fillTemp, fbind.
  repeat match goal with
  | |- context [match ?m ?env ?d with (_, _) => _ end] =>
      destruct (m env d) as [[?|?] ?]; [|done]
  end; done.
Qed.

Lemma steps_fillTemp name data mode : steps (touches (key name)) (fillTemp name data mode).
Proof. unfold fillTemp. steps_all. Qed.

Lemma fillTemp_inv name data mode env d d' t0 : 
  fillTemp name data mode env d = (Ok (), d') → nodes d !! key name = Some (Reg 384 t0 []) →
  ∃ t, nodes d' !! key name = Some (Reg mode t data).
Proof.
  unfold fillTemp. intros H Hn.
  apply fbind_inv in H as ([] & d1 & H1%on_error_inv & H).
  apply fbind_inv in H as ([] & d2 & H2%on_error_inv%call_inv & H).
  apply fbind_inv in H as ([] & d3 & H3%on_error_inv%call_inv & H4%on_error_inv%call_inv).
  injection H2 as H2. injection H3 as H3. rewrite <-H3, <-H2 in H4.
  unfold WriteTo in H1. apply call_inv in H1. injection H1 as H1. unfold put_data in H1.
  rewrite Hn in H1. rewrite <-H1, lookup_insert_eq in H4. injection H4 as <-.
  rewrite lookup_insert_eq. eauto.
Qed.

(** A node below [root] that a write to a target below [root] may leave. *)
Definition leftover (target : string) (k : list string) : Prop :=
  ∃ s, all_digits s = true ∧ k = key (Dir target) ++ [temp_name target s].

(** What a write does: all of it, or nothing but debris. *)
Definition written (target : string) (data : list Z) (mode : Z) (r : Result Error ())
    (m m' : gmap (list string) node) : Prop :=
  match r with
  | Ok _ => ∃ t, m' !! key target = Some (Reg mode t data)
  | Err _ => m' !! key target = m !! key target
  end ∧
  ∀ k, k ≠ key target →
    m' !! k = m !! k ∨
    (m !! k = None ∧ m' !! k = Some DirNode) ∨
    (m !! k = None ∧ leftover target k ∧ is_ok r = false).

Lemma ancestors_of k cs : k ∈ ancestors cs → ∃ n, (n ≤ length cs)%nat ∧ k = take n cs.
Proof.
  unfold ancestors. intros (n & -> & Hn)%list_elem_of_fmap. apply elem_of_seq in Hn. exists n. split; [lia|done].
Qed.

(** From the new temporary file to the end. *)
Lemma fillRename_spec name target data mode env d t0 r d' :
  key name ≠ key target → nodes d !! key name = Some (Reg 384 t0 []) →
  (do _ <- fillTemp name data mode; on_error (Rename name target) (Remove name)) env d = (r, d') →
  match r with
  | Ok _ => (∃ t, nodes d' !! key target = Some (Reg mode t data)) ∧ nodes d' !! key name = None ∧
            ∀ k, k ≠ key target → k ≠ key name → nodes d' !! k = nodes d !! k
  | Err _ => touches (key name) (nodes d) (nodes d')
  end.
Proof.
  intros Hdiff Hnode. unfold fbind. pose proof (steps_fillTemp name data mode env d) as H3.
  destruct (fillTemp name data mode env d) as [[[]|e3] d3] eqn:E3; simpl in H3;
    [|by intros [= <- <-]].
  destruct (fillTemp_inv _ _ _ _ _ _ t0 E3 Hnode) as (t & Hnode3).
  unfold on_error, attempt, fbind.
  destruct (Rename name target env d3) as [[[]|e4] d4] eqn:E4.
  - intros [= <- <-]. unfold Rename in E4. apply call_inv in E4. rewrite Hnode3 in E4.
    assert (nodes d4 = <[key target := Reg mode t data]> (delete (key name) (nodes d3))) as ->.
    { destruct (nodes d3 !! key target) as [[]|]; try done; by injection E4. }
    split; [by rewrite lookup_insert_eq; eauto|].
    split; [by rewrite lookup_insert_ne, lookup_delete_eq|].
    intros k Hkt Hkne. by rewrite lookup_insert_ne, lookup_delete_ne, H3.
  - apply Rename_err in E4. pose proof (steps_touches_Remove name env d4) as H5.
    destruct (Remove name env d4) as [r5 d5]. simpl in *. intros [= <- <-].
    etrans; [exact H3|]. by rewrite <-E4.
Qed.

(** Creating the directories leaves the target alone. *)
Lemma MkdirAll_target target cs c env d r d' :
  key (Dir target) = cs → key target = cs ++ [c] → MkdirAll (Dir target) env d = (r, d') →
  nodes d' !! key target = nodes d !! key target ∧
  ∀ k, nodes d' !! k = nodes d !! k ∨ nodes d !! k = None ∧ nodes d' !! k = Some DirNode.
Proof.
  intros HDir Hk E. pose proof (MkdirAll_only (Dir target) env d) as Hdirs.
  rewrite E, HDir in Hdirs. simpl in Hdirs. split.
  - destruct (Hdirs (key target)) as [?|(_ & _ & (n & Hn & Hkn)%ancestors_of)]; [done|exfalso].
    rewrite Hk in Hkn. apply (f_equal length) in Hkn. rewrite length_app, length_take in Hkn.
    simpl in Hkn. lia.
  - intros k. destruct (Hdirs k) as [?|(? & ? & _)]; auto.
Qed.

Lemma writeFileAtomic_spec target data mode env d r d' :
  clean_path target → key target ≠ [] →
  writeFileAtomic target data mode env d = (r, d') →
  written target data mode r (nodes d) (nodes d').
Proof.
  intros Ht Hne. rewrite writeFileAtomic_split.
  destruct (exists_last Hne) as (cs & c & Hk). clear Hne.
  pose proof (key_Dir_clean _ _ _ Ht Hk) as HDir. pose proof (Base_clean _ _ _ Ht Hk) as HBase.
  pose proof (key_names target) as Hnames. rewrite Hk in Hnames.
  apply Forall_app in Hnames as [_ [[(_ & _ & Hslash) _] _]%Forall_cons].
  unfold fbind at 1. destruct (MkdirAll (Dir target) env d) as [r1 d1] eqn:E1.
  destruct (MkdirAll_target _ _ _ _ _ _ _ HDir Hk E1) as [Htarget Hd1].
  destruct r1 as [[]|e1].
  2:{ intros [= <- <-]. split; [done|]. intros k _. destruct (Hd1 k); auto. }
  unfold fbind at 1. destruct (CreateTemp _ _ env d1) as [[name|e2] d2] eqn:E2.
  2:{ intros [= <- <-]. apply CreateTemp_err in E2. rewrite E2. split; [done|].
      intros k _. destruct (Hd1 k); auto. }
  apply CreateTemp_inv in E2 as (s & t0 & Hs & -> & Hfree & Hd2). rewrite HDir in Hfree, Hd2.
  rewrite !string_app_assoc in *. fold (temp_name target s) in *.
  destruct (temp_name_ok target s) as [Hok Hneq]; [by rewrite HBase|done|].
  set (name := Dir target +:+ "/" +:+ temp_name target s) in *.
  assert (key name = cs ++ [temp_name target s]) as Hkn.
  { unfold name. change (Dir target +:+ "/" +:+ temp_name target s)
      with (Dir target +:+ String slash (temp_name target s)). by rewrite key_snoc, HDir. }
  assert (leftover target (key name)) as Hleft by (exists s; by rewrite HDir).
  rewrite <-Hkn in Hfree, Hd2.
  assert (key name ≠ key target) as Hdiff.
  { rewrite Hkn, Hk. intros [_ [= E]]%app_inj_2; [|done]. by rewrite <-HBase in E. }
  intros E. apply (fillRename_spec _ _ _ _ _ _ t0) in E; [|done|by rewrite Hd2, lookup_insert_eq].
  assert (∀ k, k ≠ key name → nodes d2 !! k = nodes d !! k ∨
    nodes d !! k = None ∧ nodes d2 !! k = Some DirNode) as Hother.
  { intros k Hkne. rewrite Hd2, lookup_insert_ne by done. apply Hd1. }
  assert (nodes d !! key name = None) as Hnone by (destruct (Hd1 (key name)) as [E'|[? _]]; congruence).
  destruct r as [[]|e]; simpl in E.
  - destruct E as (Hdone & Hgone & Hsame). split; [done|]. intros k Hkt.
    destruct (decide (k = key name)) as [->|Hkne]; [left; congruence|].
    rewrite Hsame by done. destruct (Hother k); auto.
  - split; [by rewrite E, Hd2, lookup_insert_ne|]. intros k Hkt.
    destruct (decide (k = key name)) as [->|Hkne]; [auto|].
    rewrite E by done. destruct (Hother k); auto.
Qed.

(** A file is written whole or not at all: whatever fails on the way, the
    target holds all of the new data under the mode asked for when the write
    reports success, and exactly what it held before when it reports a failure;
    apart from it only missing directories and, after a failure, a temporary
    file under a fresh name can have appeared, and nothing else has changed. *)
Theorem writeFileAtomic_all_or_nothing target data mode env d
  (Ht : clean_path target) (Hne : key target ≠ []) :
  let run := writeFileAtomic target data mode env d in
  written target data mode run.1 (nodes d) (nodes run.2).
Proof. cbv zeta. eapply writeFileAtomic_spec; [done|done|apply surjective_pairing]. Qed.

(** * Verification *)

Lemma steps_loadArchive R `{!PreOrder R} L path password : steps R (loadArchive L path password).
Proof. unfold loadArchive. steps_all. Qed.

Lemma steps_verify R `{!PreOrder R} L path password : steps R (verify L path password).
Proof. unfold verify. steps_all. Qed.

(** What reading a node gives. *)
Definition contents (n : node) : option (list Z) :=
  match n with Reg _ _ data | Other _ _ _ data => Some data | DirNode => None end.

Lemma verify_inv L path password env d m files d' :
  verify L path password env d = (Ok (m, files), d') →
  nodes d' = nodes d ∧
  ∃ raw body m0 blocks warning,
    nodes d !! key path ≫= contents = Some raw ∧
    blen raw ≠ 0 ∧ (if IsEncrypted raw then open L raw password = Ok body else body = raw) ∧
    readArchive L body = Ok (m0, blocks) ∧ m_Encrypted m0 = IsEncrypted raw ∧
    verifyLoaded L m0 blocks = Ok (warning, files) ∧
    m = verified m0 path (blen raw) warning.
Proof.
  intros H. split; [pose proof (steps_verify eq L path password env d) as E; by rewrite H in E|].
  unfold verify in H. apply fbind_inv in H as ([] & d1 & E1 & H).
  assert (nodes d1 = nodes d) as N1 by (pose proof (steps_ctxErr eq env d) as E; by rewrite E1 in E).
  apply fbind_inv in H as (info & d2 & E2%call_inv & H). rewrite N1 in E2.
  destruct (fi_size info =? 0); [done|].
  apply fbind_inv in H as ([m0 blocks] & d3 & E3 & H).
  apply fbind_inv in H as ([warning files'] & d4 & [E4 ->]%lift_inv & [= <- <- <-]).
  unfold loadArchive in E3. apply fbind_inv in E3 as (raw & d5 & E5%call_inv & E3).
  injection E2 as E2 N2. injection E5 as E5 N5. rewrite <-N2 in E5.
  destruct (Z.eqb_spec (blen raw) 0); [done|].
  apply fbind_inv in E3 as (body & d6 & E6 & E3).
  apply fbind_inv in E3 as ([m1 blocks1] & d7 & [E7 ->]%lift_inv & E3).
  destruct (m_Encrypted m1) eqn:Hm, (IsEncrypted raw) eqn:Hr; try done; injection E3 as <- <- <-.
  - apply lift_inv in E6 as [E6 ->]. exists raw, body, m1, blocks1, warning. rewrite Hr.
    destruct (nodes d !! key path) as [[]|]; try done; simplify_eq/=; by repeat split.
  - injection E6 as <- <-. exists raw, raw, m1, blocks1, warning. rewrite Hr.
    destruct (nodes d !! key path) as [[]|]; try done; simplify_eq/=; by repeat split.
Qed.

Lemma reassembleEntries_inv L es blocks files0 files :
  reassembleEntries L es blocks files0 = Ok files →
  (∀ e, e ∈ es → is_Some (files !! e_Path e) ∧
     ∃ content, joinBlocks (e_Path e) (e_Blocks e) blocks = Ok content ∧
       blen content = e_Size e ∧ hashBytes L content = e_Checksum e) ∧
  (∀ p content, files !! p = Some content → files0 !! p = Some content ∨
     ∃ e, e ∈ es ∧ e_Path e = p ∧ joinBlocks p (e_Blocks e) blocks = Ok content ∧
       blen content = e_Size e ∧ hashBytes L content = e_Checksum e) ∧
  (∀ p, is_Some (files0 !! p) → is_Some (files !! p)).
Proof.
  revert files0. induction es as [|e es IH]; intros files0; simpl.
  { intros [= ->]. split; [intros e He; by apply not_elem_of_nil in He|].
    split; [by left|done]. }
  destruct (_ || _); [done|]. destruct (joinBlocks _ _ _) as [content|] eqn:Ej; [|done].
  destruct (Z.eqb_spec (blen content) (e_Size e)) as [Hs|]; [|done]. simpl.
  destruct (hashBytes L content =s e_Checksum e) eqn:Hh; [|done]. simpl. apply seqb_eq in Hh.
  intros (H1 & H2 & H3)%IH. split; [|split].
  - intros e' [->|He']%elem_of_cons; [|by apply H1]. split; [|by exists content].
    apply H3. by rewrite lookup_insert_eq.
  - intros p c Hp. destruct (H2 p c Hp) as [Hi|(e' & He' & ?)].
    + destruct (decide (p = e_Path e)) as [->|Hne].
      * rewrite lookup_insert_eq in Hi. injection Hi as <-. right. exists e. split; [left|done].
      * rewrite lookup_insert_ne in Hi by done. by left.
    + right. exists e'. split; [by right|done].
  - intros p Hp. apply H3. destruct (decide (p = e_Path e)) as [->|Hne];
      [by rewrite lookup_insert_eq|by rewrite lookup_insert_ne].
Qed.

Lemma checkRequired_inv reqs files : checkRequired reqs files = Ok () →
  ∀ req, req ∈ reqs → is_Some (files !! req).
Proof.
  induction reqs as [|r reqs IH]; simpl; intros H req Hr; [by apply not_elem_of_nil in Hr|].
  destruct (files !! r) eqn:E; [|done]. apply elem_of_cons in Hr as [->|Hr]; [by rewrite E|by apply IH].
Qed.

Lemma checkDatabases_inv es files : checkDatabases es files = Ok () →
  ∀ e, e ∈ es → HasSuffix (e_Path e) ".db" = true → is_sqlite (block_data files (e_Path e)) = true.
Proof.
  induction es as [|x es IH]; simpl; intros H e He Hs; [by apply not_elem_of_nil in He|].
  apply elem_of_cons in He as [->|He].
  - rewrite Hs in H. simpl in H. by destruct (is_sqlite _).
  - destruct (HasSuffix (e_Path x) ".db"); simpl in H; [|by apply IH].
    destruct (is_sqlite (block_data files (e_Path x))); [by apply IH|done].
Qed.

Lemma verifyHashes_inv L l : verifyHashes L l = Ok () →
  ∀ name data, (name, data) ∈ l → hashBytes L data = name.
Proof.
  induction l as [|[n x] l IH]; simpl; intros H name data Hin; [by apply not_elem_of_nil in Hin|].
  destruct (hashBytes L x =s n) eqn:E; [|done]. simpl in H.
  apply elem_of_cons in Hin as [[= -> ->]|Hin]; [by apply seqb_eq|by apply IH].
Qed.

Lemma verifyLoaded_inv L m blocks warning files :
  verifyLoaded L m blocks = Ok (warning, files) →
  checkVersion (m_Version m) = Ok warning ∧
  (∀ name data, blocks !! name = Some data → hashBytes L data = name) ∧
  verifyIndex (m_BlockIndex m) blocks = Ok () ∧
  length (m_BlockIndex m) = size blocks ∧
  digest L (m_Contents m) blocks = m_Checksum m ∧
  reassembleEntries L (m_Contents m) blocks ∅ = Ok files ∧
  (∀ req, req ∈ requiredFiles → is_Some (files !! req)) ∧
  (∀ e, e ∈ m_Contents m → HasSuffix (e_Path e) ".db" = true →
     is_sqlite (block_data files (e_Path e)) = true).
Proof.
  unfold verifyLoaded. destruct (checkVersion _) as [w|]; [|done].
  unfold verifyBlocks. destruct (verifyHashes _ _) as [[]|] eqn:Eh; [|done].
  destruct (Nat.eqb_spec (length (m_BlockIndex m)) (size blocks)) as [Hl|]; [|done]. cbn [negb].
  destruct (verifyIndex _ _) as [[]|] eqn:Ei; [|done].
  destruct (digest L (m_Contents m) blocks =s m_Checksum m) eqn:Ed; [|done]. cbn [negb].
  unfold reassemble. destruct (reassembleEntries _ _ _ _) as [fs|] eqn:Er; [|done].
  unfold verifyContents. destruct (checkRequired requiredFiles fs) as [[]|] eqn:Ec; [|done].
  destruct (checkDatabases _ _) as [[]|] eqn:Eb; [|done]. intros [= <- <-].
  repeat split; try done.
  - intros name data Hb. eapply verifyHashes_inv; [exact Eh|]. by apply elem_of_map_to_list.
  - by apply seqb_eq.
  - by apply checkRequired_inv.
  - by apply checkDatabases_inv.
Qed.

(** C11: a backup that passes verification is what its manifest says, and
    verifying touches nothing.  The files handed on are exactly those of the
    manifest, each has the size and the checksum of an entry of that path, every
    block is stored under its own hash and the digest over entries and blocks is
    the recorded one, the archive is encrypted exactly if the manifest says so,
    the required files are there and every database has SQLite's header. *)
Theorem verify_sound L path password env d m files d'
  (H : verify L path password env d = (Ok (m, files), d')) :
  nodes d' = nodes d ∧
  (∀ p, is_Some (files !! p) ↔ p ∈ PathList m) ∧
  (∀ p content, files !! p = Some content → ∃ e, e ∈ m_Contents m ∧ e_Path e = p ∧
     blen content = e_Size e ∧ hashBytes L content = e_Checksum e) ∧
  (∃ raw blocks, nodes d !! key path ≫= contents = Some raw ∧
     m_Encrypted m = IsEncrypted raw ∧ digest L (m_Contents m) blocks = m_Checksum m ∧
     ∀ name data, blocks !! name = Some data → hashBytes L data = name) ∧
  (∀ req, req ∈ requiredFiles → is_Some (files !! req)) ∧
  (∀ e, e ∈ m_Contents m → HasSuffix (e_Path e) ".db" = true →
     is_sqlite (block_data files (e_Path e)) = true).
Proof.
  apply verify_inv in H as (Hn & raw & body & m0 & blocks & w & Hraw & _ & _ & _ & He & Hv & ->).
  apply verifyLoaded_inv in Hv as (_ & Hb & _ & _ & Hd & Hr & Hreq & Hdb).
  apply reassembleEntries_inv in Hr as (H1 & H2 & _). unfold PathList. simpl.
  split; [done|]. split; [|split; [|split; [by exists raw, blocks|done]]].
  - intros p. rewrite list_elem_of_fmap. split.
    + intros [c Hc]. destruct (H2 p c Hc) as [?|(e & Hin & <- & _)]; [done|by exists e].
    + intros (e & -> & Hin). by apply H1.
  - intros p c Hc. destruct (H2 p c Hc) as [?|(e & Hin & Hp & _ & ?)]; [done|by exists e].
Qed.

(** * Restoring stays inside *)

Definition below (root : string) (k : list string) : Prop := ∃ rest, rest ≠ [] ∧ k = key root ++ rest.

Lemma safeJoin_below root rel t : IsAbs root = true → safeJoin root rel = Ok t →
  clean_path t ∧ key t = key root ++ key ("/" +:+ rel) ∧ key ("/" +:+ rel) ≠ [] ∧ Contains rel ".." = false.
Proof.
  intros Hr. unfold safeJoin.
  assert (Clean ("/" +:+ rel) = "/" +:+ join_comps (key ("/" +:+ rel))) as Hc.
  { unfold Clean. change (IsAbs ("/" +:+ rel)) with (IsAbs (String slash rel)). by rewrite IsAbs_slash. }
  rewrite Hc. change ("/" +:+ rel) with (String slash rel) in *.
  set (cs := key (String slash rel)) in *.
  assert (Forall name_ok cs) as Hcs by apply key_names.
  destruct (_ || Contains rel "..") eqn:E; [done|]. apply orb_false_iff in E as [E1 E2].
  rewrite TrimPrefix_app. destruct (HasPrefix _ _); [|done]. intros [= <-].
  assert (cs ≠ []) as Hne by (intros E; by rewrite E in E1).
  assert (join_comps cs ≠ "") as Hj.
  { intros E. rewrite E in E1. done. }
  split; [by apply clean_Join|]. split; [|done]. by apply key_Join.
Qed.

Lemma destination_below o rel t :
  IsAbs (ConfigDir o) = true → IsAbs (DataDir o) = true → destination o rel = Ok t →
  clean_path t ∧ key t ≠ [] ∧ (below (ConfigDir o) (key t) ∨ below (DataDir o) (key t)).
Proof.
  intros Hc Hd. unfold destination. destruct (HasPrefix rel _); [|destruct (HasPrefix rel _); [|done]];
    intros (Ht & Hk & Hne & _)%safeJoin_below; try done; rewrite Hk.
  - split; [done|]. split; [|left; eexists; done]. intros [_ ?]%app_nil. done.
  - split; [done|]. split; [|right; eexists; done]. intros [_ ?]%app_nil. done.
Qed.

(** What a restore may change: nodes below the two roots, missing directories. *)
Definition confined (o : Options) : relation (gmap (list string) node) := λ m m', ∀ k,
  m' !! k = m !! k ∨ below (ConfigDir o) k ∨ below (DataDir o) k ∨
  (m !! k = None ∧ m' !! k = Some DirNode).

#[global] Instance confined_preorder o : PreOrder (confined o).
Proof.
  split; [by left|]. intros a b c Hab Hbc k.
  destruct (Hbc k) as [->|[?|[?|[Hb Hc]]]]; [apply Hab|auto..].
  destruct (Hab k) as [E|[?|[?|[? ?]]]]; [|auto|auto|congruence]. rewrite E in Hb. auto.
Qed.

Lemma leftover_below root target k : clean_path target → below root (key target) →
  leftover target k → below root k.
Proof.
  intros Ht (rest & Hne & Hk) (s & _ & ->). destruct (exists_last Hne) as (up & c & ->).
  rewrite app_assoc in Hk. rewrite (key_Dir_clean _ _ _ Ht Hk). exists (up ++ [temp_name target s]).
  split; [by destruct up|]. by rewrite app_assoc.
Qed.

Lemma write_confined o target data mode :
  clean_path target → key target ≠ [] →
  below (ConfigDir o) (key target) ∨ below (DataDir o) (key target) →
  steps (confined o) (writeFileAtomic target data mode).
Proof.
  intros Ht Hne Hb env d. destruct (writeFileAtomic target data mode env d) as [r d'] eqn:E.
  apply writeFileAtomic_spec in E as [_ E]; [|done|done]. intros k. simpl.
  destruct (decide (k = key target)) as [->|Hk]; [naive_solver|].
  destruct (E k Hk) as [?|[[? ?]|(? & Hl & _)]]; [by left|auto|].
  destruct Hb as [Hb|Hb]; [right; left|right; right; left]; by eapply leftover_below.
Qed.

(** Every entry has a target, and every target comes from an entry. *)
Lemma destinations_inv o es targets0 targets :
  destinations o es targets0 = Ok targets →
  (∀ e, e ∈ es → is_Some (targets !! e_Path e)) ∧
  (∀ p t, targets !! p = Some t → targets0 !! p = Some t ∨ destination o p = Ok t) ∧
  (∀ p, is_Some (targets0 !! p) → is_Some (targets !! p)).
Proof.
  revert targets0. induction es as [|e es IH]; intros targets0; simpl.
  { intros [= ->]. split; [intros e He; by apply not_elem_of_nil in He|]. auto. }
  destruct (destination o (e_Path e)) as [t|] eqn:E; [|done]. intros (H1 & H2 & H3)%IH.
  assert (∀ p, is_Some (targets0 !! p) → is_Some (targets !! p)) as H4.
  { intros p Hp. apply H3. destruct (decide (p = e_Path e)) as [->|];
      [by rewrite lookup_insert_eq|by rewrite lookup_insert_ne]. }
  split; [|split; [|done]].
  - intros e' [->|He']%elem_of_cons; [|by apply H1]. apply H3. by rewrite lookup_insert_eq.
  - intros p t' Hp. destruct (H2 p t' Hp) as [Hi|?]; [|by right].
    destruct (decide (p = e_Path e)) as [->|]; [|rewrite lookup_insert_ne in Hi by done; by left].
    rewrite lookup_insert_eq in Hi. injection Hi as <-. by right.
Qed.

Lemma destinations_target o es targets e :
  destinations o es ∅ = Ok targets → e ∈ es → destination o (e_Path e) = Ok (target_of targets (e_Path e)).
Proof.
  intros (H1 & H2 & _)%destinations_inv He. destruct (H1 e He) as [t Ht].
  unfold target_of. rewrite Ht. by destruct (H2 _ _ Ht) as [?|?].
Qed.

Lemma restoreEntries_confined o es targets files done_ :
  IsAbs (ConfigDir o) = true → IsAbs (DataDir o) = true →
  (∀ e, e ∈ es → destination o (e_Path e) = Ok (target_of targets (e_Path e))) →
  steps (confined o) (restoreEntries es targets files done_).
Proof.
  intros Hc Hd. revert done_. induction es as [|e es IH]; intros done_ Ht; simpl; [apply steps_ret, _|].
  apply steps_bind; [apply _|apply steps_ctxErr, _|]. intros _. apply steps_bind; [apply _| |].
  - destruct (destination_below o _ _ Hc Hd (Ht e ltac:(left))) as (? & ? & ?). by apply write_confined.
  - intros _. apply IH. intros e' He'. apply Ht. by right.
Qed.

Lemma system_only_writeFileAtomic target data mode : system_only (writeFileAtomic target data mode).
Proof.
  unfold writeFileAtomic. apply system_only_bind; [unfold MkdirAll; call_cases|]. intros _.
  apply system_only_bind; [unfold CreateTemp; call_cases|]. intros name.
  apply system_only_bind; [apply system_only_on_error|].
  { intros env d. unfold WriteTo. apply system_only_call. done. }
  intros _. apply system_only_bind; [apply system_only_on_error; unfold Sync; call_cases|]. intros _.
  apply system_only_bind; [apply system_only_on_error; unfold Close; call_cases|]. intros _.
  apply system_only_bind; [apply system_only_on_error; unfold Chmod; call_cases|]. intros _.
  apply system_only_on_error. unfold Rename. call_cases.
Qed.

Lemma system_only_restoreEntries es targets files done_ :
  system_only (restoreEntries es targets files done_).
Proof.
  revert done_. induction es as [|e es IH]; intros done_; simpl; [apply system_only_ret|].
  apply system_only_bind; [apply system_only_ctxErr|]. intros _.
  apply system_only_bind; [apply system_only_writeFileAtomic|]. intros _. apply IH.
Qed.

Lemma system_only_finish m newServer restored : system_only (finishRestore m newServer restored).
Proof.
  unfold finishRestore, newSetupToken. destruct newServer; [|apply system_only_ret].
  apply system_only_bind; [|intros token; apply system_only_bind; [done|intros; apply system_only_ret]].
  apply system_only_bind; [apply system_only_randRead|intros; apply system_only_ret].
Qed.

Lemma steps_finish R `{!PreOrder R} m newServer restored : steps R (finishRestore m newServer restored).
Proof. unfold finishRestore, newSetupToken. destruct newServer; steps_all. Qed.


(** * Witnesses and limits *)

Definition sample_run : Result Error (string * Manifest) * Disk :=
  Create sample_lib sample_options "" calm sample_disk.
Definition sample_path : string := "/backup/cashp_backup_1970-01-01_000000.tar.gz".

Lemma writeFileAtomic_all_or_nothing_witness :
  let run := writeFileAtomic "/etc/cashp/server.yml" [1; 2; 3] 384 calm sample_disk in
  is_ok run.1 = true ∧
  written "/etc/cashp/server.yml" [1; 2; 3] 384 run.1 (nodes sample_disk) (nodes run.2).
Proof.
  cbv zeta. split; [vm_compute; reflexivity|].
  apply (writeFileAtomic_all_or_nothing "/etc/cashp/server.yml");
    [split; vm_compute; reflexivity|vm_compute; discriminate].
Defined.

Lemma verify_sound_witness :
  ∃ m files d', verify sample_lib sample_path "" calm sample_run.2 = (Ok (m, files), d') ∧
    PathList m = ["config/server.yml"; "config/template/mail.html"; "data/server.db"; "data/users.db"] ∧
    (∀ req, req ∈ requiredFiles → is_Some (files !! req)).
Proof.
  destruct (verify sample_lib sample_path "" calm sample_run.2) as [[[m files]|e] d'] eqn:E.
  - exists m, files, d'. split; [reflexivity|].
    destruct (verify_sound sample_lib sample_path "" calm sample_run.2 m files d' E) as (_ & _ & _ & _ & H & _).
    split; [|exact H].
    apply (f_equal (λ r, match r.1 with Ok (m, _) => PathList m | Err _ => [] end)) in E.
    vm_compute in E. symmetry. exact E.
  - exfalso. apply (f_equal (λ r, is_ok r.1)) in E. vm_compute in E. discriminate E.
Defined.


(** A manifest entry with a negative size makes the reader panic instead of
    reporting a corrupted backup. *)
Lemma negative_size_panics L m blocks e rest :
  m_Contents m = e :: rest → e_Size e < 0 →
  reassemble L m blocks = Err (Panicked "makeslice: cap out of range").
Proof.
  intros Hm He. unfold reassemble. rewrite Hm. simpl. by destruct (Z.ltb_spec (e_Size e) 0); [|lia].
Qed.

(** An index that lists one block twice and another not at all is accepted. *)
Example index_duplicate_accepted :
  let a := hashBytes sample_lib [1] in
  let b := hashBytes sample_lib [2] in
  verifyBlocks sample_lib
    (mkManifest "1.0.0" 0 "" "" [] [mkBlock a 1; mkBlock a 1] "" false "" "" 0 0 "" 0 "" false)
    (<[a := [1]]> (<[b := [2]]> ∅)) = Ok ().
Proof. vm_compute. reflexivity. Qed.

(** A file whose name has two dots in a row is backed up and verified, and no
    restore of that backup is possible. *)
Example dotted_name_not_restorable :
  let d := mkDisk (<[["etc"; "cashp"; "theme"] := DirNode]>
             (<[["etc"; "cashp"; "theme"; "a..b.css"] := Reg 420 0 [1]]> (nodes sample_disk))) 0 in
  let run := Create sample_lib sample_options "" calm d in
  is_ok run.1 = true ∧
  (Restore sample_lib sample_options sample_path "" false calm run.2).1 =
    Err (Sentinel_ ErrUnsafePath "theme/a..b.css").
Proof. vm_compute. split; reflexivity. Qed.

(** Two backups within one second share a name: the second replaces the first. *)
Example same_second_replaces :
  let d2 := mkDisk (<[["etc"; "cashp"; "server.yml"] := Reg 416 0 [9]]> (nodes sample_run.2)) 50 in
  let again := Create sample_lib sample_options "" calm d2 in
  (∃ m, sample_run.1 = Ok (sample_path, m)) ∧ (∃ m, again.1 = Ok (sample_path, m)) ∧
  nodes again.2 !! key sample_path ≠ nodes sample_run.2 !! key sample_path.
Proof.
  vm_compute. split; [eexists; reflexivity|]. split; [eexists; reflexivity|]. discriminate.
Qed.
