(* ===== verification/Recovery.v ===== *)
(** What is backed up can be restored: the composition of [Create] and [Restore].

    A file in the scope of a backup is named by its root, the configuration or the
    data directory, and its path below.  The files [collectSources] finds are
    followed through the manifest, the blocks, the archive and the envelope to the
    disk a later restore writes, which may be another machine with other
    directories. *)
From stdpp Require Import prelude strings list gmap sorting.
From Stdlib Require Import ZArith Lia Ascii.
From S2P Require Import Prelude GoTime Chunk Files Retention Archive Backup.

(** * The scope of a backup *)

(** [true] is the configuration directory. *)
Definition root_dir (o : Options) (config : bool) : string :=
  if config then ConfigDir o else DataDir o.
Definition root_name (config : bool) : string := if config then configRoot else dataRoot.

(** The paths below a root that belong in a backup. *)
Inductive scope (o : Options) : bool → list string → Prop :=
| scope_settings : scope o true ["server.yml"]
| scope_tree dir rest : dir ∈ optional o → scope o true (dir :: rest)
| scope_server : scope o false ["server.db"]
| scope_users : scope o false ["users.db"]
| scope_data c rest : IncludeData o = true → scope o false (c :: rest).

Definition place (o : Options) (config : bool) (rest : list string) : list string :=
  key (root_dir o config) ++ rest.

Definition manifest_path (config : bool) (rest : list string) : string :=
  join_comps (root_name config :: rest).

(** A source stands for a path in scope. *)
Definition source_for (o : Options) (config : bool) (rest : list string) (s : source) : Prop :=
  scope o config rest ∧ Forall name_ok rest ∧
  key (src_abs s) = place o config rest ∧ src_rel s = manifest_path config rest.

(** * Collecting *)

Lemma is_prefix_spec a b : is_prefix a b = true ↔ ∃ c, b = a ++ c.
Proof.
  revert b. induction a as [|x a IH]; intros b; simpl.
  - split; [by exists b|done].
  - destruct b as [|y b]; [split; [done|]; by intros [c Hc]|].
    rewrite andb_true_iff, seqb_eq, IH. split.
    + intros [-> [c ->]]. by exists c.
    + intros [c [= -> ->]]. split; [done|]. by exists c.
Qed.

Lemma strip_common_prefix b t : strip_common b (b ++ t) = ([], t).
Proof. induction b as [|x b IH]; simpl; [by destruct t|]. by rewrite seqb_refl. Qed.

(** The path of a node below [root], relative to it. *)
Definition rel_text (cs : list string) : string :=
  match cs with [] => "." | _ => join_comps cs end.

Lemma Rel_below root p cs : IsAbs root = true → IsAbs p = true → key p = key root ++ cs →
  Rel root p = Some (rel_text cs).
Proof.
  intros Hr Hp Hk. unfold Rel. rewrite Hr, Hp. simpl.
  change (resolve true [] (comps root)) with (key root).
  change (resolve true [] (comps p)) with (key p).
  rewrite Hk, strip_common_prefix. by destruct cs.
Qed.

Lemma comps_rel_text cs : Forall plain cs → comps (rel_text cs) = cs.
Proof. intros H. destruct cs; [done|]. by apply comps_join. Qed.

(** [path.Join] of a manifest prefix and a relative path. *)
Lemma Join_prefix (config : bool) pre cs :
  Forall name_ok pre → Forall name_ok cs →
  Join [join_comps (root_name config :: pre); rel_text cs] = manifest_path config (pre ++ cs).
Proof.
  intros Hpre Hcs. set (p := join_comps (root_name config :: pre)).
  assert (Forall name_ok (root_name config :: pre)) as Hp.
  { constructor; [|done]. destruct config; apply name_okb_ok; reflexivity. }
  assert (comps p = root_name config :: pre) as Hcp by by apply comps_join, names_plain.
  assert (p ≠ "") as Hne by (intros E; by rewrite E in Hcp).
  assert (rel_text cs ≠ "") as Hne2.
  { destruct cs as [|c cs']; [done|]. intros E. pose proof (comps_rel_text (c :: cs') (names_plain _ Hcs)) as H.
    by rewrite E in H. }
  unfold Join. cbn [List.filter]. apply seqb_neq in Hne, Hne2. rewrite Hne, Hne2. cbn [negb].
  change (join_comps [p; rel_text cs]) with (p +:+ String slash (rel_text cs)).
  assert (IsAbs (p +:+ String slash (rel_text cs)) = false) as Habs.
  { unfold p, root_name, configRoot, dataRoot, join_comps. destruct config, pre; reflexivity. }
  unfold Clean. rewrite Habs, comps_app, Hcp, (comps_rel_text cs) by by apply names_plain.
  rewrite resolve_plain; [done|]. apply Forall_app. split; by apply names_no_dots.
Qed.

Lemma Join_root root dir : IsAbs root = true → name_ok dir →
  key (Join [root; dir]) = key root ++ [dir] ∧ IsAbs (Join [root; dir]) = true.
Proof.
  intros Hr Hd. split; [apply (key_Join root [dir]); [done|by constructor|done]|].
  apply clean_Join; [done|]. by intros ->; destruct Hd as [[]].
Qed.

(** What [WalkDir] finds: the nodes at and below the root. *)
Lemma WalkDir_inv root env d found d' : WalkDir root env d = (Ok found, d') →
  nodes d' = nodes d ∧
  (∀ p n, (p, n) ∈ found → ∃ cs, nodes d !! (key root ++ cs) = Some n ∧
     p = (if decide (key root ++ cs = key root) then root else "/" +:+ join_comps (key root ++ cs))) ∧
  (∀ cs n, nodes d !! (key root ++ cs) = Some n → ∃ p, (p, n) ∈ found ∧
     p = (if decide (key root ++ cs = key root) then root else "/" +:+ join_comps (key root ++ cs))).
Proof.
  intros H. apply call_inv in H. destruct (nodes d !! key root) as [n0|]; [|done]. injection H as Hf Hn.
  split; [done|]. rewrite <-Hf. split.
  - intros p n ([k n'] & [= -> ->] & Hin)%list_elem_of_fmap. rewrite sort_by_perm in Hin.
    apply list_elem_of_In, filter_In in Hin as [Hin Hp]. apply list_elem_of_In, elem_of_map_to_list in Hin.
    simpl in Hp. apply is_prefix_spec in Hp as [cs ->]. by exists cs.
  - intros cs n Hk. eexists. split; [|done]. apply list_elem_of_fmap. exists (key root ++ cs, n).
    split; [done|]. rewrite sort_by_perm. apply list_elem_of_In, filter_In.
    split; [by apply list_elem_of_In, elem_of_map_to_list|]. apply is_prefix_spec. by exists cs.
Qed.

Lemma walkFiles_inv root prefix found out : walkFiles root prefix found = Ok out →
  (∀ s, s ∈ out → ∃ p n rel, (p, n) ∈ found ∧ fi_regular (linfo_of n) = true ∧
     Rel root p = Some rel ∧ s = mkSource p (Join [prefix; rel])) ∧
  (∀ p n rel, (p, n) ∈ found → fi_regular (linfo_of n) = true → fi_dir (linfo_of n) = false →
     Rel root p = Some rel → mkSource p (Join [prefix; rel]) ∈ out).
Proof.
  revert out. induction found as [|[p n] found IH]; intros out; simpl.
  { intros [= <-]. split; [intros s Hs; by apply not_elem_of_nil in Hs|].
    intros p n rel Hin. by apply not_elem_of_nil in Hin. }
  destruct (fi_dir (linfo_of n)) eqn:Hd; simpl.
  { intros [H1 H2]%IH. split.
    - intros s (p' & n' & rel & ? & ?)%H1. exists p', n', rel. split; [by right|done].
    - intros p' n' rel [[= -> ->]|Hin]%elem_of_cons; [congruence|by apply H2]. }
  destruct (fi_regular (linfo_of n)) eqn:Hr; simpl.
  2:{ intros [H1 H2]%IH. split.
    - intros s (p' & n' & rel & ? & ?)%H1. exists p', n', rel. split; [by right|done].
    - intros p' n' rel [[= -> ->]|Hin]%elem_of_cons; [congruence|by apply H2]. }
  destruct (Rel root p) as [rel|] eqn:Erel; [|done].
  destruct (walkFiles root prefix found) as [out'|]; [|done]. intros [= <-].
  destruct (IH _ eq_refl) as [H1 H2]. split.
  - intros s [->|(p' & n' & rel' & ? & ?)%H1]%elem_of_cons.
    + exists p, n, rel. split; [left|done].
    + exists p', n', rel'. split; [by right|done].
  - intros p' n' rel' [[= -> ->]|Hin]%elem_of_cons ?? E.
    + rewrite Erel in E. injection E as ->. left.
    + right. by eapply H2.
Qed.

(** Every node but the root's children stands in a directory. *)
Definition tree_ok (m : gmap (list string) node) : Prop :=
  disk_ok m ∧ ∀ k c n, k ≠ [] → m !! (k ++ [c]) = Some n → m !! k = Some DirNode.

Lemma tree_above m k cs n : tree_ok m → k ≠ [] → cs ≠ [] → m !! (k ++ cs) = Some n →
  m !! k = Some DirNode.
Proof.
  intros [_ Ht] Hk. revert n. induction cs as [|c cs IH] using rev_ind; [done|]. intros n _ Hn.
  rewrite app_assoc in Hn. apply Ht in Hn; [|by destruct k].
  destruct cs as [|x cs]; [by rewrite app_nil_r in Hn|]. by eapply IH.
Qed.

(** A source found below a root. *)
Definition found_at (o : Options) (m : gmap (list string) node) (config : bool) (rest : list string)
    (s : source) : Prop :=
  Forall name_ok rest ∧ key (src_abs s) = place o config rest ∧
  src_rel s = manifest_path config rest ∧
  ∃ n, m !! place o config rest = Some n ∧ fi_regular (linfo_of n) = true.

Lemma walkTree_inv o config pre root prefix env d out d' :
  IsAbs root = true → key root = place o config pre → place o config pre ≠ [] → Forall name_ok pre →
  prefix = join_comps (root_name config :: pre) → tree_ok (nodes d) →
  walkTree root prefix env d = (Ok out, d') →
  nodes d' = nodes d ∧
  (∀ s, s ∈ out → ∃ cs, found_at o (nodes d) config (pre ++ cs) s) ∧
  (∀ cs mode t data, nodes d !! place o config (pre ++ cs) = Some (Reg mode t data) →
     ∃ s, s ∈ out ∧ src_rel s = manifest_path config (pre ++ cs)).
Proof.
  intros Hr Hk Hne Hpre -> Htree H.
  assert (∀ cs, place o config (pre ++ cs) = key root ++ cs) as Hplace.
  { intros cs. unfold place in *. by rewrite app_assoc, <-Hk. }
  assert (∀ cs n, nodes d !! (key root ++ cs) = Some n → Forall name_ok cs) as Hnames.
  { intros cs n Hn. apply Htree in Hn. by apply Forall_app in Hn as [_ ?]. }
  assert (∀ cs, Forall name_ok cs → ∀ p, p = (if decide (key root ++ cs = key root) then root
    else "/" +:+ join_comps (key root ++ cs)) →
    IsAbs p = true ∧ key p = key root ++ cs ∧ Rel root p = Some (rel_text cs)) as Hpath.
  { intros cs Hcs p ->. case_decide as Hd.
    - assert (cs = []) as -> by (apply (f_equal length) in Hd; rewrite length_app in Hd; destruct cs; simpl in *; [done|lia]).
      rewrite app_nil_r. split; [done|]. split; [done|]. apply Rel_below; [done|done|by rewrite app_nil_r].
    - assert (IsAbs ("/" +:+ join_comps (key root ++ cs)) = true) as Ha by apply IsAbs_slash.
      assert (key ("/" +:+ join_comps (key root ++ cs)) = key root ++ cs) as Hkk.
      { apply key_join_comps, Forall_app. split; [apply key_names|done]. }
      split; [done|]. split; [done|]. by apply Rel_below. }
  unfold walkTree, attempt, Stat in H. apply fbind_inv in H as (r & d1 & E1 & H).
  unfold call in E1. destruct (env_fault env (calls d)) as [[]|]; [injection E1 as <- _; done|].
  destruct (nodes d !! key root) as [n0|] eqn:Hroot; injection E1 as <- <-.
  - apply fbind_inv in H as (found & d2 & Hw & [Hf ->]%lift_inv).
    apply WalkDir_inv in Hw as (N & H1 & H2). simpl in N, H1, H2. split; [done|].
    apply walkFiles_inv in Hf as [F1 F2]. split.
    + intros s (p & n & rel & Hin & Hreg & Hrel & ->)%F1. destruct (H1 _ _ Hin) as (cs & Hn & Hp).
      pose proof (Hnames _ _ Hn) as Hcs. destruct (Hpath cs Hcs p Hp) as (Ha & Hkp & Erel).
      rewrite Erel in Hrel. injection Hrel as <-. exists cs. split; [by apply Forall_app|]. simpl.
      rewrite Hplace. split; [done|]. split; [by apply Join_prefix|]. eauto.
    + intros cs mode t data Hn. rewrite Hplace in Hn. pose proof (Hnames _ _ Hn) as Hcs.
      destruct (H2 _ _ Hn) as (p & Hin & Hp). destruct (Hpath cs Hcs p Hp) as (Ha & Hkp & Erel).
      eexists. split; [by eapply F2|]. simpl. by apply Join_prefix.
  - simpl in H. injection H as <- <-. split; [done|].
    split; [intros s Hs; by apply not_elem_of_nil in Hs|].
    intros cs mode t data Hn. exfalso. rewrite Hplace in Hn. destruct cs as [|c cs].
    { rewrite app_nil_r in Hn. congruence. }
    apply (tree_above _ (key root)) in Hn; [congruence|done|by rewrite Hk|done].
Qed.

(** ** Taking each manifest path once *)

Lemma add_inv S s : NoDup (map src_rel S) →
  NoDup (map src_rel (add S s)) ∧ (∀ x, x ∈ add S s → x ∈ S ∨ x = s) ∧
  (∀ x, x ∈ S → x ∈ add S s) ∧ ∃ x, x ∈ add S s ∧ src_rel x = src_rel s.
Proof.
  intros Hnd. unfold add. destruct (existsb _ S) eqn:E.
  - apply existsb_exists in E as (x & Hin & Hx%seqb_eq). apply list_elem_of_In in Hin.
    split; [done|]. split; [by left|]. split; [done|]. by exists x.
  - split; [|split; [|split]].
    + rewrite map_app. apply NoDup_app. split; [done|]. split; [|apply NoDup_singleton].
      intros r (x & -> & Hin)%list_elem_of_fmap Hr. apply list_elem_of_singleton in Hr.
      assert (existsb (λ t, src_rel t =s src_rel s) S = true); [|congruence].
      apply existsb_exists. exists x. split; [by apply list_elem_of_In|by apply seqb_eq].
    + intros x [?|?%list_elem_of_singleton]%elem_of_app; auto.
    + intros x Hx. apply elem_of_app. by left.
    + exists s. split; [apply elem_of_app; right; by apply list_elem_of_singleton|done].
Qed.

Lemma add_all_inv S found : NoDup (map src_rel S) →
  NoDup (map src_rel (fold_left add found S)) ∧
  (∀ x, x ∈ fold_left add found S → x ∈ S ∨ x ∈ found) ∧
  (∀ x, x ∈ S → x ∈ fold_left add found S) ∧
  (∀ f, f ∈ found → ∃ x, x ∈ fold_left add found S ∧ src_rel x = src_rel f).
Proof.
  revert S. induction found as [|f found IH]; intros S Hnd; simpl.
  { split; [done|]. split; [by left|]. split; [done|]. intros f Hf. by apply not_elem_of_nil in Hf. }
  destruct (add_inv S f Hnd) as (H1 & H2 & H3 & y & Hy & Hyf).
  destruct (IH (add S f) H1) as (I1 & I2 & I3 & I4).
  split; [done|]. split; [|split].
  - intros x [[?| ->]%H2|?]%I2; [by left|right; left|right; by right].
  - auto.
  - intros g [->|Hg]%elem_of_cons; [|by apply I4]. exists y. split; [by apply I3|done].
Qed.

(** * All sources *)

Definition roots_ok (o : Options) : Prop :=
  ∀ config, IsAbs (root_dir o config) = true ∧ key (root_dir o config) ≠ [].

(** A set of sources: distinct manifest paths, each for a node in scope. *)
Definition sources_ok (o : Options) (m : gmap (list string) node) (S : list source) : Prop :=
  NoDup (map src_rel S) ∧
  ∀ s, s ∈ S → ∃ config rest n, source_for o config rest s ∧ m !! place o config rest = Some n.

Definition covers (S : list source) (config : bool) (rest : list string) : Prop :=
  ∃ s, s ∈ S ∧ src_rel s = manifest_path config rest.

Lemma covers_add S found config rest : NoDup (map src_rel S) →
  covers S config rest ∨ covers found config rest → covers (fold_left add found S) config rest.
Proof.
  intros Hnd. destruct (add_all_inv S found Hnd) as (_ & _ & H3 & H4).
  intros [(s & Hs & E)|(s & Hs & E)]; [exists s; auto|].
  destruct (H4 s Hs) as (x & Hx & Ex). exists x. split; [done|congruence].
Qed.

Lemma sources_ok_add o m S found : sources_ok o m S →
  (∀ s, s ∈ found → ∃ config rest n, source_for o config rest s ∧ m !! place o config rest = Some n) →
  sources_ok o m (fold_left add found S).
Proof.
  intros [Hnd HS] Hf. destruct (add_all_inv S found Hnd) as (H1 & H2 & _). split; [done|].
  intros s [?|?]%H2; auto.
Qed.

Lemma required_source o : roots_ok o → ∀ s, s ∈ required o → ∃ config rest, source_for o config rest s.
Proof.
  intros Ho s Hs. unfold required in Hs.
  assert (∀ (config : bool) c, name_ok c → scope o config [c] →
    source_for o config [c] (mkSource (Join [root_dir o config; c]) (manifest_path config [c]))) as H.
  { intros config c Hc Hsc. split; [done|]. split; [by constructor|]. split; [|done].
    apply (proj1 (Join_root _ _ (proj1 (Ho config)) Hc)). }
  rewrite !elem_of_cons in Hs. destruct Hs as [->|[->|[->|Hs]]]; [| | |by apply not_elem_of_nil in Hs].
  - exists true, ["server.yml"]. apply (H true); [by apply name_okb_ok|constructor].
  - exists false, ["server.db"]. apply (H false); [by apply name_okb_ok|constructor].
  - exists false, ["users.db"]. apply (H false); [by apply name_okb_ok|apply scope_users].
Qed.

Lemma addRequired_inv o reqs S env d S' d' : roots_ok o →
  (∀ s, s ∈ reqs → ∃ config rest, source_for o config rest s) →
  sources_ok o (nodes d) S → addRequired reqs S env d = (Ok S', d') →
  nodes d' = nodes d ∧ sources_ok o (nodes d) S' ∧ S' = fold_left add reqs S ∧
  (∀ s, s ∈ reqs → is_Some (nodes d !! key (src_abs s))).
Proof.
  intros Ho. revert S d. induction reqs as [|r reqs IH]; intros S d Hreq HS; simpl.
  { intros [= <- <-]. repeat split; try apply HS; try done. intros s Hs. by apply not_elem_of_nil in Hs. }
  intros H. unfold attempt, Stat in H. apply fbind_inv in H as (x & d1 & E & H). unfold call in E.
  destruct (env_fault env (calls d)) as [[]|]; [injection E as <- _; done|].
  destruct (nodes d !! key (src_abs r)) as [n|] eqn:Hn; injection E as <- <-; [|done].
  destruct (Hreq r ltac:(left)) as (config & rest & Hsrc).
  apply IH in H as (N & H1 & -> & H2); simpl in *.
  - split; [done|]. split; [done|]. split; [done|].
    intros s [->|Hs]%elem_of_cons; [by rewrite Hn|by apply H2].
  - intros s Hs. apply Hreq. by right.
  - apply (sources_ok_add o (nodes d) S [r]); [done|]. intros s ->%list_elem_of_singleton.
    exists config, rest, n. split; [done|]. by rewrite <-(proj1 (proj2 (proj2 Hsrc))).
Qed.

Lemma optional_name o dir : dir ∈ optional o → name_ok dir.
Proof.
  unfold optional. destruct (IncludeSSL o); simpl; rewrite !elem_of_cons; intros H;
    repeat destruct H as [->|H]; try (apply name_okb_ok; reflexivity); by apply not_elem_of_nil in H.
Qed.

Lemma addTrees_inv o dirs S env d S' d' : roots_ok o → tree_ok (nodes d) →
  (∀ dir, dir ∈ dirs → dir ∈ optional o) →
  sources_ok o (nodes d) S → addTrees o dirs S env d = (Ok S', d') →
  nodes d' = nodes d ∧ sources_ok o (nodes d) S' ∧
  (∀ config rest, covers S config rest → covers S' config rest) ∧
  (∀ dir cs mode t data, dir ∈ dirs →
     nodes d !! place o true (dir :: cs) = Some (Reg mode t data) → covers S' true (dir :: cs)).
Proof.
  intros Ho. revert S d. induction dirs as [|dir dirs IH]; intros S d Ht Hopt HS; simpl.
  { intros [= <- <-]. repeat split; try apply HS; try done.
    intros dir cs mode t data Hin. by apply not_elem_of_nil in Hin. }
  intros (found & d1 & Hw & H)%fbind_inv.
  pose proof (Hopt dir ltac:(left)) as Hdir. pose proof (optional_name o dir Hdir) as Hname.
  destruct (Join_root _ _ (proj1 (Ho true)) Hname) as [Hkey Habs].
  destruct (walkTree_inv o true [dir] _ (configRoot +:+ "/" +:+ dir) env d found d1 Habs Hkey)
    as (N1 & W1 & W2);
    [unfold place; by destruct (key (root_dir o true))|by constructor|done|done|done|].
  rewrite <-N1 in Ht.
  assert (sources_ok o (nodes d) (fold_left add found S)) as HS1.
  { apply sources_ok_add; [done|]. intros s (cs & Hn & Hk & Hrel & n & Hnode & _)%W1.
    exists true, ([dir] ++ cs), n. split; [|done]. split; [by constructor|done]. }
  rewrite <-N1 in HS1. apply IH in H as (N2 & H1 & H2 & H3);
    [|done|intros x Hx; apply Hopt; by right|done].
  rewrite N1 in *. split; [by rewrite N2|]. split; [done|]. split.
  - intros config rest Hc. apply H2, covers_add; [apply HS|by left].
  - intros x cs mode t data [->|Hx]%elem_of_cons Hn; [|by eapply H3].
    apply H2, covers_add; [apply HS|right]. destruct (W2 cs mode t data Hn) as (s & ? & ?). by exists s.
Qed.

(** The walk of the whole data directory. *)
Lemma addData_inv o S env d S' d' : roots_ok o → tree_ok (nodes d) →
  nodes d !! key (DataDir o) = Some DirNode → sources_ok o (nodes d) S →
  (if IncludeData o then do found <- walkTree (DataDir o) dataRoot; fret (fold_left add found S)
   else fret S) env d = (Ok S', d') →
  nodes d' = nodes d ∧ sources_ok o (nodes d) S' ∧
  (∀ config rest, covers S config rest → covers S' config rest) ∧
  (∀ cs mode t data, IncludeData o = true →
     nodes d !! place o false cs = Some (Reg mode t data) → covers S' false cs).
Proof.
  intros Ho Ht Hdir HS. destruct (IncludeData o) eqn:Hi.
  2:{ intros [= <- <-]. by repeat split; try apply HS. }
  intros (found & d1 & Hw & [= <- <-])%fbind_inv.
  destruct (walkTree_inv o false [] _ dataRoot env d found d1 (proj1 (Ho false)) (eq_sym (app_nil_r _)))
    as (N1 & W1 & W2); [unfold place; rewrite app_nil_r; apply Ho|constructor|done|done|done|].
  split; [done|]. split; [|split].
  - apply sources_ok_add; [done|]. intros s (cs & Hn & Hk & Hrel & n & Hnode & Hreg)%W1. simpl in *.
    destruct cs as [|c cs].
    + exfalso. unfold place in Hnode. simpl in Hnode. rewrite app_nil_r, Hdir in Hnode.
      by injection Hnode as <-.
    + exists false, (c :: cs), n. split; [|done]. split; [by constructor|done].
  - intros config rest Hc. apply covers_add; [apply HS|by left].
  - intros cs mode t data _ Hn. destruct (W2 cs mode t data Hn) as (s & Hs & Es).
    apply covers_add; [apply HS|right]. by exists s.
Qed.

Lemma collectSources_inv o env d S d' : roots_ok o → tree_ok (nodes d) →
  collectSources o env d = (Ok S, d') →
  nodes d' = nodes d ∧ sources_ok o (nodes d) S ∧
  ∀ config rest mode t data, scope o config rest →
    nodes d !! place o config rest = Some (Reg mode t data) → covers S config rest.
Proof.
  intros Ho Ht H. unfold collectSources in H.
  apply fbind_inv in H as (S1 & d1 & E1 & H).
  apply (addRequired_inv o) in E1 as (N1 & HS1 & -> & Hreq);
    [|done|by apply required_source|split; [constructor|intros s Hs; by apply not_elem_of_nil in Hs]].
  apply fbind_inv in H as (S2 & d2 & E2 & H). rewrite <-N1 in Ht, HS1.
  apply addTrees_inv in E2 as (N2 & HS2 & Hc2 & Htree); [|done|done|done|done].
  rewrite N1 in *. apply fbind_inv in H as (S3 & d3 & E3 & [= <- <-]).
  assert (nodes d !! key (DataDir o) = Some DirNode) as Hdata.
  { destruct (Hreq (mkSource (Join [DataDir o; "server.db"]) (dataRoot +:+ "/server.db")))
      as [n Hn]; [right; left|]. simpl in Hn.
    pose proof (proj1 (Join_root _ "server.db" (proj1 (Ho false)) ltac:(by apply name_okb_ok))) as Ek.
    simpl in Ek. rewrite Ek in Hn. by apply tree_above in Hn; [|done|apply (Ho false)|]. }
  rewrite <-N2 in Ht, Hdata, HS2. apply addData_inv in E3 as (N3 & HS3 & Hc3 & Hd3); [|done..].
  rewrite N2 in *. split; [done|]. split.
  { destruct HS3 as [Hnd HS3]. split; [by rewrite (Permutation_map src_rel (sort_by_perm _ S3))|].
    intros s. rewrite sort_by_perm. apply HS3. }
  assert (∀ r config rest, r ∈ required o → src_rel r = manifest_path config rest →
    covers S3 config rest) as Hreq3.
  { intros r config rest Hr E. destruct (add_all_inv [] (required o)) as (_ & _ & _ & H4); [constructor|].
    destruct (H4 r Hr) as (x & Hx & Ex). apply Hc3, Hc2. exists x. split; [done|congruence]. }
  intros config rest mode t data Hsc Hn.
  assert (covers S3 config rest) as (s & Hs & E); [|exists s; by rewrite sort_by_perm].
  destruct Hsc as [|dir rest Hdir| | |c rest Hi].
  - eapply (Hreq3 (mkSource _ _)); [left|done].
  - apply Hc3. by eapply Htree.
  - eapply (Hreq3 (mkSource _ _)); [right; left|done].
  - eapply (Hreq3 (mkSource _ _)); [right; right; left|done].
  - by eapply Hd3.
Qed.

(** * Files into blocks *)

Lemma addBlocks_inv L bs blocks names blocks' : addBlocks L bs blocks = (names, blocks') →
  names = map (hashBytes L) bs ∧ blocks ⊆ blocks' ∧
  (∀ b, b ∈ bs → is_Some (blocks' !! hashBytes L b)) ∧
  (∀ name b, blocks' !! name = Some b → blocks !! name = Some b ∨ (b ∈ bs ∧ name = hashBytes L b)).
Proof.
  revert blocks names. induction bs as [|b bs IH]; intros blocks names; simpl.
  { intros [= <- <-]. split; [done|]. split; [done|].
    split; [intros b Hb; by apply not_elem_of_nil in Hb|by left]. }
  set (blocks1 := match blocks !! hashBytes L b with Some _ => blocks | None => <[hashBytes L b := b]> blocks end).
  assert (blocks ⊆ blocks1 ∧ is_Some (blocks1 !! hashBytes L b) ∧
    ∀ name x, blocks1 !! name = Some x → blocks !! name = Some x ∨ (x = b ∧ name = hashBytes L b))
    as (Hsub & Hin & Hnew).
  { subst blocks1. destruct (blocks !! hashBytes L b) eqn:E; [by rewrite E; auto|].
    split; [by apply insert_subseteq|]. rewrite lookup_insert_eq. split; [done|].
    intros name x Hx. destruct (decide (name = hashBytes L b)) as [->|];
      [rewrite lookup_insert_eq in Hx; injection Hx as ->; auto|].
    rewrite lookup_insert_ne in Hx by done. auto. }
  destruct (addBlocks L bs blocks1) as [names1 blocks2] eqn:E. intros [= <- <-].
  destruct (IH _ _ E) as (-> & Hs & Hb & Hn). split; [done|]. split; [by etrans|]. split.
  - intros x [->|Hx]%elem_of_cons; [|by apply Hb]. destruct Hin as [v Hv].
    exists v. by eapply lookup_weaken.
  - intros name x Hx. destruct (Hn name x Hx) as [H1|[? ?]]; [|right; split; [by right|done]].
    destruct (Hnew name x H1) as [?|[-> ?]]; [by left|]. right. split; [left|done].
Qed.

(** The file a source was read from, and its entry. *)
Definition source_data (m : gmap (list string) node) (s : source) (n : node) (data : list Z) : Prop :=
  m !! key (src_abs s) = Some n ∧ contents n = Some data.

Definition entry_of (L : Lib) (rel : string) (n : node) (data : list Z) : Entry :=
  mkEntry rel (perm (fi_mode (info_of n))) (blen data) (fi_mtime (info_of n)) (hashBytes L data)
    (map (hashBytes L) (splitBlocks data)).

Lemma addFile_inv L s blocks env d e blocks' d' :
  addFile L s blocks env d = (Ok (e, blocks'), d') →
  nodes d' = nodes d ∧ ∃ n data, source_data (nodes d) s n data ∧ e = entry_of L (src_rel s) n data ∧
    addBlocks L (splitBlocks data) blocks = (map (hashBytes L) (splitBlocks data), blocks').
Proof.
  unfold addFile. intros (info & d1 & E1%call_inv & H)%fbind_inv.
  apply fbind_inv in H as (data & d2 & E2%call_inv & H).
  destruct (nodes d !! key (src_abs s)) as [n|] eqn:Hn; [|done]. injection E1 as <- N1.
  rewrite <-N1, Hn in E2. destruct (addBlocks L (splitBlocks data) blocks) as [names b] eqn:Eb.
  injection H as <- <- <-. destruct (addBlocks_inv _ _ _ _ _ Eb) as (-> & _).
  destruct n; try done; injection E2 as <- N2; (split; [congruence|]);
    (eexists _, _); split; [by split|by split| |by split]; by split.
Qed.

(** Where blocks come from. *)
Definition block_from (L : Lib) (m : gmap (list string) node) (S : list source) (name : string)
    (b : list Z) : Prop :=
  name = hashBytes L b ∧ ∃ s n data, s ∈ S ∧ source_data m s n data ∧ b ∈ splitBlocks data.

Lemma addFiles_inv L S contents size blocks env d contents' size' blocks' d' :
  addFiles L S contents size blocks env d = (Ok (contents', size', blocks'), d') →
  nodes d' = nodes d ∧ blocks ⊆ blocks' ∧
  (∃ es, contents' = contents ++ es ∧
     Forall2 (λ s e, ∃ n data, source_data (nodes d) s n data ∧ e = entry_of L (src_rel s) n data ∧
       ∀ b, b ∈ splitBlocks data → is_Some (blocks' !! hashBytes L b)) S es) ∧
  (∀ name b, blocks' !! name = Some b → blocks !! name = Some b ∨ block_from L (nodes d) S name b).
Proof.
  revert contents size blocks d. induction S as [|s S IH]; intros contents size blocks d; simpl.
  { intros [= <- <- <- <-]. split; [done|]. split; [done|]. split; [|by left].
    exists []. rewrite app_nil_r. split; [done|constructor]. }
  intros H. apply fbind_inv in H as ([] & d1 & E1 & H).
  assert (nodes d1 = nodes d) as N1 by (pose proof (steps_ctxErr eq env d) as E; by rewrite E1 in E).
  apply fbind_inv in H as ([e blocks1] & d2 & E2 & H).
  apply addFile_inv in E2 as (N2 & n & data & Hsrc & -> & Eb). rewrite N1 in *.
  destruct (addBlocks_inv _ _ _ _ _ Eb) as (_ & Hsub1 & Hin1 & Hnew1).
  apply IH in H as (N3 & Hsub & (es & -> & Hes) & Hnew). rewrite N2 in *.
  split; [done|]. split; [by etrans|]. split.
  - exists (entry_of L (src_rel s) n data :: es). rewrite <-app_assoc. split; [done|]. constructor; [|done].
    exists n, data. split; [done|]. split; [done|]. intros b Hb. destruct (Hin1 b Hb) as [v Hv].
    exists v. by eapply lookup_weaken.
  - intros name b Hb. destruct (Hnew name b Hb) as [H1|(Hname & s' & n' & data' & ? & ? & ?)].
    + destruct (Hnew1 name b H1) as [?|[? ?]]; [by left|right]. split; [done|].
      exists s, n, data. split; [left|done].
    + right. split; [done|]. exists s', n', data'. split; [by right|done].
Qed.

Lemma joinBlocks_ok L path bs blocks : (∀ b, b ∈ bs → blocks !! hashBytes L b = Some b) →
  joinBlocks path (map (hashBytes L) bs) blocks = Ok (concat bs).
Proof.
  induction bs as [|b bs IH]; intros H; simpl; [done|]. rewrite H by left.
  rewrite IH; [done|]. intros x Hx. apply H. by right.
Qed.

(** * What a successful [Create] leaves *)

Lemma appendInt_no_slash n w : has_char slash (appendInt n w) = false.
Proof.
  unfold appendInt. destruct (Z.ltb_spec n 0).
  - simpl. apply digits_no_slash, pad_left_spec. lia.
  - apply digits_no_slash, pad_left_spec. lia.
Qed.

Lemma archiveName_ok t encrypted : name_ok (archiveName t encrypted).
Proof.
  unfold archiveName, formatStamp. cbv zeta.
  assert (∃ r, AppName +:+ "_backup_" +:+ r = String "c" (String "a" (String "s" ("hp_backup_" +:+ r)))) as _ by (by exists "").
  split; [|done]. split; [done|]. split; [done|].
  rewrite !has_char_app, !appendInt_no_slash. by destruct encrypted.
Qed.

(** The manifest that is stored. *)
Definition manifest_of (L : Lib) (o : Options) (password : string) (created : Z)
    (contents : list Entry) (size : Z) (blocks : gmap string (list Z)) : Manifest :=
  let encrypted := negb (password =s "") in
  mkManifest FormatVersion created (CreatedBy o) (AppVersion o) contents (blockIndex blocks)
    (digest L contents blocks) encrypted (if encrypted then EncryptionMethod else "")
    (if encrypted then KeyDerivation else "") size (stored_size (blockIndex blocks)) "" 0 "" false.

(** The bytes on the disk are the sealed or plain archive of that manifest. *)
Definition archive_of (L : Lib) (password : string) (m : Manifest) (blocks : gmap string (list Z))
    (raw : list Z) : Prop :=
  ∃ body, buildArchive L m blocks = Ok body ∧
    if password =s "" then raw = body else ∃ env d d', seal L body password env d = (Ok raw, d').

Lemma Create_inv L o password env d path m d1 :
  IsAbs (BackupDir o) = true → roots_ok o → tree_ok (nodes d) →
  Create L o password env d = (Ok (path, m), d1) →
  ∃ S es size blocks i t raw files dv dv',
    sources_ok o (nodes d) S ∧
    (∀ config rest mode t data, scope o config rest →
      nodes d !! place o config rest = Some (Reg mode t data) → covers S config rest) ∧
    Forall2 (λ s e, ∃ n data, source_data (nodes d) s n data ∧ e = entry_of L (src_rel s) n data ∧
      ∀ b, b ∈ splitBlocks data → is_Some (blocks !! hashBytes L b)) S es ∧
    (∀ name b, blocks !! name = Some b → block_from L (nodes d) S name b) ∧
    archive_of L password (manifest_of L o password (env_now env i) es size blocks) blocks raw ∧
    clean_path path ∧ nodes d1 !! key path = Some (Reg 384 t raw) ∧
    nodes dv = nodes d1 ∧ verify L path password env dv = (Ok (m, files), dv').
Proof.
  intros Hbd Ho Ht H. unfold Create in H. apply fbind_inv in H as ([] & d2 & E2 & H).
  assert (nodes d2 = nodes d) as N2 by (pose proof (steps_ctxErr eq env d) as E; by rewrite E2 in E).
  destruct (Compliance o && (password =s "")); [done|].
  apply fbind_inv in H as (S & d3 & E3 & H). rewrite <-N2 in Ht.
  apply collectSources_inv in E3 as (N3 & HS & Hcov); [|done|done]. rewrite N2 in *.
  apply fbind_inv in H as (created & d4 & E4 & H). injection E4 as <- <-.
  apply fbind_inv in H as ([[es size] blocks] & d5 & E5 & H).
  apply addFiles_inv in E5 as (N5 & _ & (es' & -> & Hes) & Hbl). simpl in N5, Hes, Hbl. rewrite N3 in *.
  set (i := calls d3) in *.
  apply fbind_inv in H as (body & d6 & [Eb ->]%lift_inv & H).
  apply fbind_inv in H as (raw & d7 & E7 & H).
  set (target := Join [BackupDir o; archiveName (env_now env i) (negb (password =s ""))]) in *.
  pose proof (archiveName_ok (env_now env i) (negb (password =s ""))) as Hname.
  assert (clean_path target) as Hclean.
  { apply clean_Join; [done|]. intros E. rewrite E in Hname. by destruct Hname as [[]]. }
  assert (key target ≠ []) as Hne.
  { unfold target. rewrite (proj1 (Join_root _ _ Hbd Hname)). by destruct (key (BackupDir o)). }
  apply fbind_inv in H as ([] & d8 & E8 & H).
  apply writeFileAtomic_spec in E8 as [[t Hw] _]; [|done|done].
  apply fbind_inv in H as (r & d9 & E9 & H). unfold attempt, Verify in E9.
  destruct (fbind (verify L target password) _ env d8) as [r' d9'] eqn:Ev. injection E9 as <- <-.
  destruct r' as [m'|e].
  2:{ destruct e; try done; unfold attempt, fbind in H; by destruct (Remove target env d9'). }
  injection H as <- <- <-. apply fbind_inv in Ev as ([m'' files] & d10 & Ev & [= <- <-]).
  pose proof (steps_verify eq L target password env d8) as Nv. rewrite Ev in Nv. simpl in Nv.
  exists S, es', size, blocks, i, t, raw, files, d8, d10.
  repeat (split; [done|]). split; [|split; [|split; [done|split; [by rewrite <-Nv|split; [done|done]]]]].
  - intros name b Hb. by destruct (Hbl name b Hb).
  - exists body. unfold manifest_of. split; [exact Eb|]. destruct (password =s ""); simpl in E7.
    + by injection E7 as <- _.
    + eauto.
Qed.

(** Reading a good archive fails only with the system. *)
Lemma loadArchive_complete L path password env d mode t raw body m blocks :
  nodes d !! key path = Some (Reg mode t raw) → blen raw ≠ 0 →
  (if IsEncrypted raw then open L raw password = Ok body else body = raw) →
  readArchive L body = Ok (m, blocks) → m_Encrypted m = IsEncrypted raw →
  (loadArchive L path password env d).1 = Ok (m, blocks) ∨
  ∃ e, (loadArchive L path password env d).1 = Err e ∧ environmental e = true.
Proof.
  intros Hn Hne Hopen Hread Henc. unfold loadArchive. unfold fbind at 1 4.
  pose proof (system_only_ReadFile path env d) as H3.
  destruct (ReadFile path env d) as [[data|e3] d3] eqn:E3; [|right; eexists; split; [done|by apply H3]].
  apply call_inv in E3. rewrite Hn in E3. injection E3 as <- N3.
  destruct (Z.eqb_spec (blen raw) 0); [done|].
  assert ((if IsEncrypted raw then lift (open L raw password) else fret raw) env d3 = (Ok body, d3)) as Eb.
  { destruct (IsEncrypted raw); [by rewrite Hopen|by rewrite Hopen]. }
  left. erewrite fbind_ok by exact Eb. rewrite Hread. erewrite fbind_ok by reflexivity. cbv beta iota.
  by rewrite Henc, Bool.eqb_reflx.
Qed.

(** A good archive is verified again, whatever else the disk holds, unless the
    system fails. *)
Lemma verify_complete L path password env d mode t raw body m blocks w files :
  nodes d !! key path = Some (Reg mode t raw) → blen raw ≠ 0 →
  (if IsEncrypted raw then open L raw password = Ok body else body = raw) →
  readArchive L body = Ok (m, blocks) → m_Encrypted m = IsEncrypted raw →
  verifyLoaded L m blocks = Ok (w, files) →
  ∃ d', nodes d' = nodes d ∧
    (verify L path password env d = (Ok (verified m path (blen raw) w, files), d') ∨
     ∃ e, verify L path password env d = (Err e, d') ∧ environmental e = true).
Proof.
  intros Hn Hne Hopen Hread Henc Hv.
  destruct (verify L path password env d) as [r d'] eqn:E. exists d'.
  split; [pose proof (steps_verify eq L path password env d) as N; by rewrite E in N|].
  revert E. unfold verify. unfold fbind at 1. pose proof (system_only_ctxErr env d) as H1.
  destruct (ctxErr env d) as [[[]|e1] d1] eqn:E1; [|intros [= <- <-]; right; eexists; split; [done|by apply H1]].
  assert (nodes d1 = nodes d) as N1 by (pose proof (steps_ctxErr eq env d) as N; by rewrite E1 in N).
  unfold fbind at 1. pose proof (system_only_Stat path env d1) as H2.
  destruct (Stat path env d1) as [[info|e2] d2] eqn:E2;
    [|intros [= <- <-]; right; eexists; split; [done|by apply H2]].
  apply call_inv in E2. rewrite N1, Hn in E2. injection E2 as <- N2. cbn [fi_size].
  destruct (Z.eqb_spec (blen raw) 0); [done|]. unfold fbind at 1.
  destruct (loadArchive_complete L path password env d2 mode t raw body m blocks) as [Hl|(e & Hl & He)];
    [congruence|done|done|done|done| |];
    destruct (loadArchive L path password env d2) as [rl d3]; simpl in Hl; subst rl.
  - cbv beta iota. rewrite Hv. simpl lift. erewrite fbind_ok by reflexivity. cbv beta iota. intros [= <- <-]. by left.
  - intros [= <- <-]. right. eauto.
Qed.

(** * Destinations *)

Lemma join_comps_app a b : a ≠ [] → b ≠ [] → join_comps (a ++ b) = join_comps a +:+ String slash (join_comps b).
Proof.
  unfold join_comps. intros Ha Hb. induction a as [|x a IH]; [done|]. destruct a as [|y a].
  - simpl. by destruct b.
  - change (String.concat "/" ((x :: y :: a) ++ b)) with (x +:+ String slash (String.concat "/" ((y :: a) ++ b))).
    change (String.concat "/" (x :: y :: a)) with (x +:+ String slash (String.concat "/" (y :: a))).
    rewrite IH by done. by rewrite string_app_assoc, string_app_cons.
Qed.

Lemma Contains_dots_cons x s : Contains (String x s) ".." = HasPrefix (String x s) ".." || Contains s "..".
Proof. done. Qed.

Lemma Contains_dots_join a b : Contains a ".." = false → Contains b ".." = false →
  Contains (a +:+ String slash b) ".." = false.
Proof.
  intros Ha Hb. induction a as [|x a IH].
  - change ("" +:+ String slash b) with (String slash b). rewrite Contains_dots_cons, Hb. reflexivity.
  - rewrite string_app_cons, Contains_dots_cons. rewrite Contains_dots_cons in Ha.
    apply orb_false_iff in Ha as [H1 H2]. rewrite IH by done. rewrite orb_false_r.
    unfold HasPrefix in *. destruct a as [|y a]; rewrite ?string_app_cons; cbn [String.prefix] in *.
    + destruct (ascii_dec "." x); [|done]. by destruct (ascii_dec "." slash).
    + destruct (ascii_dec "." x); [|done]. destruct (ascii_dec "." y); [|done].
      by destruct a.
Qed.

(** A path of which restoring is not refused. *)
Definition undotted (rest : list string) : Prop := Forall (λ c, Contains c ".." = false) rest.

Lemma undotted_join rest : undotted rest → Contains (join_comps rest) ".." = false.
Proof.
  unfold join_comps. induction 1 as [|c cs Hc Hcs IH]; [done|]. destruct cs as [|c' cs']; [done|].
  change (String.concat "/" (c :: c' :: cs')) with (c +:+ String slash (String.concat "/" (c' :: cs'))).
  by apply Contains_dots_join.
Qed.

Lemma safeJoin_ok root rest : IsAbs root = true → key root ≠ [] → Forall name_ok rest → rest ≠ [] →
  undotted rest → ∃ t, safeJoin root (join_comps rest) = Ok t ∧ clean_path t ∧ key t = key root ++ rest.
Proof.
  intros Hr Hk Hn Hne Hu. unfold safeJoin.
  assert (Clean ("/" +:+ join_comps rest) = "/" +:+ join_comps rest) as ->.
  { unfold Clean. change (IsAbs ("/" +:+ join_comps rest)) with (IsAbs (String slash (join_comps rest))).
    rewrite IsAbs_slash. change (resolve true [] (comps ("/" +:+ join_comps rest)))
      with (key ("/" +:+ join_comps rest)). by rewrite key_join_comps. }
  assert (comps (join_comps rest) = rest) as Hc by by apply comps_join, names_plain.
  assert (join_comps rest ≠ "") as Hj by (intros E; rewrite E in Hc; by subst).
  assert ("/" +:+ join_comps rest =s "/" = false) as ->.
  { apply seqb_neq. intros E. apply Hj. by injection E. }
  rewrite undotted_join by done. cbn [orb]. rewrite TrimPrefix_app.
  set (t := Join [root; join_comps rest]).
  assert (clean_path t) as Hclean by by apply clean_Join.
  assert (key t = key root ++ rest) as Hkey by by apply key_Join.
  assert (HasPrefix t (Clean root +:+ "/") = true) as ->.
  { rewrite (clean_path_shape t Hclean), Hkey. unfold Clean. rewrite Hr.
    change (resolve true [] (comps root)) with (key root). rewrite join_comps_app by done.
    change (join_comps (key root) +:+ String slash (join_comps rest))
      with (join_comps (key root) +:+ ("/" +:+ join_comps rest)).
    rewrite <-!string_app_assoc. apply prefix_app. }
  by exists t.
Qed.

Lemma destination_ok o config rest : roots_ok o → Forall name_ok rest → rest ≠ [] → undotted rest →
  ∃ t, destination o (manifest_path config rest) = Ok t ∧ clean_path t ∧ key t = place o config rest.
Proof.
  intros Ho Hn Hne Hu. destruct (Ho config) as [Ha Hk].
  destruct (safeJoin_ok (root_dir o config) rest Ha Hk Hn Hne Hu) as (t & Hs & Hc & Hkey).
  exists t. split; [|done].
  assert (manifest_path config rest = (root_name config +:+ "/") +:+ join_comps rest) as ->.
  { unfold manifest_path. change (root_name config :: rest) with ([root_name config] ++ rest).
    rewrite join_comps_app by done. by rewrite string_app_assoc. }
  unfold destination. destruct config; simpl root_name in *.
  - unfold HasPrefix at 1. rewrite prefix_app, TrimPrefix_app. exact Hs.
  - change (HasPrefix ((dataRoot +:+ "/") +:+ join_comps rest) (configRoot +:+ "/")) with false. cbv iota.
    unfold HasPrefix at 1. rewrite prefix_app, TrimPrefix_app. exact Hs.
Qed.

(** * Writing the files back *)

(** A node that is no target stays. *)
Lemma restoreEntries_keeps es targets files done_ env d out d' k n :
  (∀ e, e ∈ es → clean_path (target_of targets (e_Path e)) ∧ key (target_of targets (e_Path e)) ≠ [] ∧
     key (target_of targets (e_Path e)) ≠ k) →
  restoreEntries es targets files done_ env d = (Ok out, d') → nodes d !! k = Some n →
  nodes d' !! k = Some n.
Proof.
  revert done_ d. induction es as [|e es IH]; intros done_ d Ht; simpl; [by intros [= _ <-]|].
  intros H Hk. apply fbind_inv in H as ([] & d1 & E1 & H).
  assert (nodes d1 = nodes d) as N1 by (pose proof (steps_ctxErr eq env d) as E; by rewrite E1 in E).
  apply fbind_inv in H as ([] & d2 & E2 & H). destruct (Ht e ltac:(left)) as (Hc & Hne & Hdiff).
  apply writeFileAtomic_spec in E2 as [_ Ho]; [|done|done].
  eapply IH; [intros e' He'; apply Ht; by right|exact H|]. rewrite N1 in Ho.
  destruct (Ho k ltac:(congruence)) as [E|[[E _]|(_ & _ & E)]]; [congruence|congruence|done].
Qed.

Lemma restoreEntries_ok es targets files done_ env d out d' :
  (∀ e, e ∈ es → clean_path (target_of targets (e_Path e)) ∧ key (target_of targets (e_Path e)) ≠ []) →
  NoDup (map (λ e, key (target_of targets (e_Path e))) es) →
  restoreEntries es targets files done_ env d = (Ok out, d') →
  ∀ e, e ∈ es → ∃ t, nodes d' !! key (target_of targets (e_Path e)) =
    Some (Reg (restoreMode (e_Mode e)) t (block_data files (e_Path e))).
Proof.
  revert done_ d. induction es as [|e es IH]; intros done_ d Ht Hnd; simpl.
  { intros _ e He. by apply not_elem_of_nil in He. }
  simpl in Hnd. apply NoDup_cons in Hnd as [Hfresh Hnd].
  intros H. apply fbind_inv in H as ([] & d1 & E1 & H). apply fbind_inv in H as ([] & d2 & E2 & H).
  destruct (Ht e ltac:(left)) as (Hc & Hne).
  apply writeFileAtomic_spec in E2 as [[t Hw] _]; [|done|done].
  intros e' [->|He']%elem_of_cons.
  - exists t. eapply restoreEntries_keeps; [|exact H|done]. intros x Hx.
    destruct (Ht x ltac:(by right)) as (? & ?). split; [done|]. split; [done|]. intros E.
    apply Hfresh. rewrite <-E. apply list_elem_of_fmap. by exists x.
  - eapply IH; [|done|exact H|done]. intros x Hx. apply Ht. by right.
Qed.

(** * The round trip *)

(** What a backup needs of the files it takes: dates with a four-digit year and
    ASCII names, which JSON keeps as they are, and no two dots in a row. *)
Definition portable (o : Options) (m : gmap (list string) node) : Prop :=
  ∀ config rest n, scope o config rest → m !! place o config rest = Some n →
    json_year (fi_mtime (info_of n)) ∧ undotted rest ∧ Forall (λ c, ascii_text c = true) rest.

(** No two different blocks of the files taken have the same hash. *)
Definition block_of (o : Options) (m : gmap (list string) node) (b : list Z) : Prop :=
  ∃ config rest n data, scope o config rest ∧ m !! place o config rest = Some n ∧
    contents n = Some data ∧ b ∈ splitBlocks data.

Definition collision_free (L : Lib) (o : Options) (m : gmap (list string) node) : Prop :=
  ∀ a b, block_of o m a → block_of o m b → hashBytes L a = hashBytes L b → a = b.

(** Neither root holds the other. *)
Definition roots_apart (o : Options) : Prop :=
  ∀ a b, key (ConfigDir o) ++ a ≠ key (DataDir o) ++ b.

(** No file inside the archive [raw] is beyond the reader's limit. *)
Definition archive_small (L : Lib) (password : string) (raw : list Z) : Prop :=
  ∀ body es, (if password =s "" then body = raw else open L raw password = Ok body) →
    targz_Read L body = Ok es → Forall (λ e, blen (te_data e) ≤ maxEntrySize) es.

Lemma scope_nonempty o config rest : scope o config rest → rest ≠ [].
Proof. by destruct 1. Qed.

Lemma place_inj o c1 r1 c2 r2 : roots_apart o → place o c1 r1 = place o c2 r2 → c1 = c2 ∧ r1 = r2.
Proof.
  intros Ha. unfold place. destruct c1, c2; simpl; intros E.
  - split; [done|]. by apply app_inv_head in E.
  - by apply Ha in E.
  - symmetry in E. by apply Ha in E.
  - split; [done|]. by apply app_inv_head in E.
Qed.

Lemma ascii_join cs : Forall (λ c, ascii_text c = true) cs → ascii_text (join_comps cs) = true.
Proof.
  unfold join_comps. induction 1 as [|c cs Hc Hcs IH]; [done|]. destruct cs as [|c' cs']; [done|].
  change (String.concat "/" (c :: c' :: cs')) with (c +:+ "/" +:+ String.concat "/" (c' :: cs')).
  by rewrite !ascii_text_app, Hc, IH.
Qed.

Section roundtrip.
Context (L : Lib) {HL : LibLaws L} (o : Options) (password : string) (m : gmap (list string) node).
Context (Hport : portable o m) (Hcoll : collision_free L o m).
Context (S : list source) (es : list Entry) (blocks : gmap string (list Z)).
Context (HS : sources_ok o m S)
  (Hes : Forall2 (λ s e, ∃ n data, source_data m s n data ∧ e = entry_of L (src_rel s) n data ∧
     ∀ b, b ∈ splitBlocks data → is_Some (blocks !! hashBytes L b)) S es)
  (Hbl : ∀ name b, blocks !! name = Some b → block_from L m S name b).

(** Every entry is that of a file in scope, whole in the blocks. *)
Lemma entry_inv e : e ∈ es → ∃ config rest n data,
  scope o config rest ∧ Forall name_ok rest ∧ m !! place o config rest = Some n ∧
  contents n = Some data ∧ e = entry_of L (manifest_path config rest) n data ∧
  joinBlocks (e_Path e) (e_Blocks e) blocks = Ok data.
Proof.
  intros He. destruct HS as [_ HS'].
  assert (∀ s n data b, s ∈ S → source_data m s n data → b ∈ splitBlocks data → block_of o m b) as Hof.
  { intros s n data b Hs [Hn Hd] Hb. destruct (HS' s Hs) as (config & rest & n' & (Hsc & _ & Hk & _) & _).
    exists config, rest, n, data. rewrite <-Hk. auto. }
  apply list_elem_of_lookup in He as [i He]. destruct (Forall2_lookup_r _ _ _ _ _ Hes He)
    as (s & Hs & n & data & Hsd & -> & Hin).
  apply list_elem_of_lookup_2 in Hs. destruct (HS' s Hs) as (config & rest & n' & (Hsc & Hnm & Hk & Hrel) & Hn').
  exists config, rest, n, data. destruct Hsd as [Hn Hd]. rewrite Hk in Hn. rewrite Hrel.
  repeat (split; [done|]). simpl. rewrite joinBlocks_ok.
  { by rewrite splitBlocks_refSplit, refSplit_concat. }
  intros b Hb. destruct (Hin b Hb) as [b' Hb']. rewrite Hb'. f_equal.
  destruct (Hbl _ _ Hb') as (Hname & s2 & n2 & data2 & Hs2 & Hsd2 & Hb2).
  apply Hcoll; [by eapply Hof| |done]. eapply (Hof s n data); [done| |done]. split; [by rewrite Hk|done].
Qed.

Lemma entries_NoDup : NoDup (map e_Path es).
Proof.
  assert (map e_Path es = map src_rel S) as ->; [|apply HS].
  clear -Hes. induction Hes as [|s e S' es' (n & data & _ & -> & _) Hes' IH]; simpl; [done|]. by rewrite IH.
Qed.

Lemma stored_manifest_json created size :
  json_year created → ascii_text (CreatedBy o) = true → ascii_text (AppVersion o) = true →
  json_manifest (manifest_of L o password created es size blocks).
Proof.
  intros Hy Hc Ha. unfold manifest_of. split; [done|]. split; [|split].
  - repeat constructor; simpl; try done; [|by destruct (password =s "")..].
    unfold digest. rewrite ascii_text_app. apply hash_text; done.
  - apply List.Forall_forall. intros e He%list_elem_of_In.
    destruct (entry_inv e He) as (config & rest & n & data & Hsc & Hnm & Hn & Hd & -> & _).
    destruct (Hport config rest n Hsc Hn) as (Hyr & _ & Hasc). split; simpl.
    + apply ascii_join. constructor; [by destruct config|done].
    + split; [done|]. split; [by apply hash_text|]. apply Forall_map, Forall_true.
      intros b. by apply hash_text.
  - apply List.Forall_forall. intros x (name & <- & Hname%list_elem_of_In)%in_map_iff.
    apply elem_of_sorted_names in Hname as [b Hb]. destruct (Hbl _ _ Hb) as [-> _]. by apply hash_text.
Qed.

(** The archive on the disk reads back as this manifest and these blocks. *)
Lemma archive_reads created size raw :
  json_year created → ascii_text (CreatedBy o) = true → ascii_text (AppVersion o) = true →
  archive_small L password raw →
  archive_of L password (manifest_of L o password created es size blocks) blocks raw →
  ∃ body, (if IsEncrypted raw then open L raw password = Ok body else body = raw) ∧
    IsEncrypted raw = negb (password =s "") ∧
    readArchive L body = Ok (manifest_of L o password created es size blocks, blocks).
Proof.
  intros Hy Hc Ha Hsmall (body & Hbuild & Hraw). set (mf := manifest_of _ _ _ _ _ _ _) in *.
  assert (∀ name b, blocks !! name = Some b → name = hashBytes L b) as Hb by (intros name b Hb; by apply Hbl).
  assert (stored mf = mf) as Hst by done. unfold archive_small in Hsmall. destruct (password =s "") eqn:Hp.
  - subst raw. destruct (build_read L mf blocks body) as [Hr [r ->]];
      [by apply stored_manifest_json|done|intros x; by apply Hsmall|done|].
    exists (31 :: 139 :: r). rewrite gzip_not_encrypted. split; [done|]. split; [done|]. by rewrite Hst in Hr.
  - destruct Hraw as (env & d & d' & Hseal). apply seal_open in Hseal as [He Hop]; [|done].
    destruct (build_read L mf blocks body) as [Hr _];
      [by apply stored_manifest_json|done|intros x; by apply Hsmall|done|].
    exists body. rewrite He. split; [done|]. split; [done|]. by rewrite Hst in Hr.
Qed.

(** Verification hands on exactly the files that were taken. *)
Lemma reassembled files : reassembleEntries L es blocks ∅ = Ok files →
  ∀ e, e ∈ es → ∃ config rest n data, scope o config rest ∧ Forall name_ok rest ∧
    m !! place o config rest = Some n ∧ contents n = Some data ∧
    e = entry_of L (manifest_path config rest) n data ∧ files !! e_Path e = Some data.
Proof.
  intros Hr e He. destruct (entry_inv e He) as (config & rest & n & data & ? & ? & ? & ? & Hee & Hj).
  exists config, rest, n, data. repeat (split; [done|]).
  apply reassembleEntries_inv in Hr as (G1 & G2 & _). destruct (G1 e He) as [[c Hc] _].
  destruct (G2 _ _ Hc) as [?|(e' & He' & Hpath & Hj' & _)]; [done|].
  assert (e' = e) as ->.
  { apply list_elem_of_lookup in He as [i Hi], He' as [j Hj2].
    assert (i = j) as ->; [|congruence]. eapply NoDup_lookup; [apply entries_NoDup| |].
    - rewrite list_lookup_fmap, Hi. done.
    - rewrite list_lookup_fmap, Hj2. simpl. by rewrite Hpath. }
  congruence.
Qed.
End roundtrip.

Lemma restoreMode_perm mode : restoreMode (perm mode) = restoreMode mode.
Proof. unfold restoreMode, perm. by rewrite <-Z.land_assoc. Qed.

Lemma manifest_path_inj c1 r1 c2 r2 : Forall name_ok r1 → Forall name_ok r2 →
  manifest_path c1 r1 = manifest_path c2 r2 → c1 = c2 ∧ r1 = r2.
Proof.
  intros H1 H2 E. assert (∀ c r, Forall name_ok r → comps (manifest_path c r) = root_name c :: r) as Hc.
  { intros c r Hr. apply comps_join. constructor; [|by apply names_plain].
    apply (name_okb_ok (root_name c)). by destruct c. }
  apply (f_equal comps) in E. rewrite !Hc in E by done. injection E as E ->. split; [|done].
  by destruct c1, c2.
Qed.

(** Writing back the entries of files in scope. *)
Lemma restore_files L o o2 m es files env d out d' targets :
  roots_ok o2 → roots_apart o2 → disk_ok m → portable o m → NoDup (map e_Path es) →
  (∀ e, e ∈ es → ∃ config rest n data, scope o config rest ∧ Forall name_ok rest ∧
      m !! place o config rest = Some n ∧ contents n = Some data ∧
      e = entry_of L (manifest_path config rest) n data ∧ files !! e_Path e = Some data) →
  destinations o2 es ∅ = Ok targets →
  restoreEntries es targets files [] env d = (Ok out, d') →
  ∀ config rest mode t data, m !! place o config rest = Some (Reg mode t data) → scope o config rest →
    (∃ e, e ∈ es ∧ e_Path e = manifest_path config rest) →
    ∃ t', nodes d' !! place o2 config rest = Some (Reg (restoreMode mode) t' data).
Proof.
  intros Ho2 Hap Hok Hport Hnd Hes Hdest Hrun.
  assert (∀ e, e ∈ es → ∃ config rest n data, m !! place o config rest = Some n ∧ contents n = Some data ∧
    e = entry_of L (manifest_path config rest) n data ∧ files !! e_Path e = Some data ∧
    clean_path (target_of targets (e_Path e)) ∧ key (target_of targets (e_Path e)) = place o2 config rest ∧
    scope o config rest ∧ Forall name_ok rest) as Htar.
  { intros e He. destruct (Hes e He) as (config & rest & n & data & Hsc & Hnm & Hn & Hd & Hee & Hf).
    destruct (Hport config rest n Hsc Hn) as (_ & Hu & _).
    destruct (destination_ok o2 config rest Ho2 Hnm (scope_nonempty _ _ _ Hsc) Hu) as (t & Ht & Hc & Hk).
    exists config, rest, n, data. pose proof (destinations_target _ _ _ _ Hdest He) as E.
    assert (e_Path e = manifest_path config rest) as Ep by by rewrite Hee.
    rewrite Ep in E. rewrite E in Ht. rewrite Ep. injection Ht as Ht. rewrite Ht. rewrite Ep in Hf. auto 10. }
  intros config rest mode t data Hn Hsc (e & He & Hpath).
  destruct (restoreEntries_ok es targets files [] env d out d') with (e := e) as (t' & Hw); [| |done|done|].
  - intros x Hx. destruct (Htar x Hx) as (c & r & n & dt & _ & _ & _ & _ & Hc & Hk & Hs & _).
    split; [done|]. rewrite Hk. unfold place. destruct (Ho2 c) as [_ Hne]. intros [E _]%app_nil. done.
  - clear -Htar Hnd Hap. induction es as [|x xs IH]; simpl; [constructor|].
    simpl in Hnd. apply NoDup_cons in Hnd as [Hx Hnd]. apply NoDup_cons. split.
    + intros (y & E & Hy)%list_elem_of_fmap. apply Hx. apply list_elem_of_fmap. exists y. split; [|done].
      destruct (Htar x ltac:(left)) as (c1 & r1 & n1 & d1 & _ & _ & -> & _ & _ & K1 & _).
      destruct (Htar y ltac:(by right)) as (c2 & r2 & n2 & d2 & _ & _ & -> & _ & _ & K2 & _).
      rewrite K1, K2 in E. apply place_inj in E as [-> ->]; [|done]. done.
    + apply IH; [done|]. intros z Hz. apply Htar. by right.
  - destruct (Htar e He) as (c & r & n & dt & Hn' & Hd' & Hee & Hf & _ & Hk & _ & Hr).
    unfold block_data in Hw. rewrite Hf, Hk in Hw. rewrite Hee in Hpath, Hw. simpl in Hpath, Hw.
    apply manifest_path_inj in Hpath as [-> ->]; [|done|by apply Hok, Forall_app in Hn as [_ ?]].
    rewrite Hn in Hn'. injection Hn' as <-. injection Hd' as <-. simpl in Hw. rewrite restoreMode_perm in Hw. eauto.
Qed.

(** C1: what is backed up can be restored, here or elsewhere.  Once [Create] has
    reported success, a restore of that archive with the same password, on any
    disk that still holds it and into any two separate directories, either
    succeeds, and then every regular file that was in the scope of the backup
    stands at its place with the same bytes and permissions, or fails through the
    system or the context alone: a backup that was made is never refused.  Both
    runs may meet any failures.  The files taken must have ASCII names without two
    dots in a row and dates JSON can write, no two blocks may collide under the
    hash, and no part of the archive may exceed the reader's limit of 2 GiB. *)
Theorem create_restore L {HL : LibLaws L} o o2 password newServer env d path m d1 env2 d2 raw
  (Hbackup : IsAbs (BackupDir o) = true) (Ho : roots_ok o) (Htree : tree_ok (nodes d))
  (Hport : portable o (nodes d)) (Hcoll : collision_free L o (nodes d))
  (Htext : ascii_text (CreatedBy o) = true ∧ ascii_text (AppVersion o) = true)
  (Hclock : ∀ n, json_year (env_now env n))
  (Hcreate : Create L o password env d = (Ok (path, m), d1))
  (Hraw : nodes d1 !! key path ≫= contents = Some raw) (Hsmall : archive_small L password raw)
  (Hkept : nodes d2 !! key path = nodes d1 !! key path)
  (Ho2 : roots_ok o2) (Hapart : roots_apart o2) :
  match Restore L o2 path password newServer env2 d2 with
  | (Ok _, d3) => ∀ config rest mode t data, scope o config rest →
      nodes d !! place o config rest = Some (Reg mode t data) →
      ∃ t', nodes d3 !! place o2 config rest = Some (Reg (restoreMode mode) t' data)
  | (Err e, _) => environmental e = true
  end.
Proof.
  apply Create_inv in Hcreate as (S & es & size & blocks & i & t & raw' & files & dv & dv' & HS & Hcov &
    Hes & Hbl & Harch & Hclean & Hnode & Ndv & Hver); [|done..].
  rewrite Hnode in Hraw, Hkept. injection Hraw as ->. destruct Htext as [Hcb Hav].
  set (mf := manifest_of L o password (env_now env i) es size blocks) in *.
  destruct (archive_reads L o password (nodes d) Hport Hcoll S es blocks HS Hes Hbl
    (env_now env i) size raw (Hclock i) Hcb Hav Hsmall Harch) as (body & Hopen & Henc & Hread).
  apply verify_inv in Hver as (_ & raw2 & body2 & m2 & blocks2 & w & Hr2 & Hne & Hopen2 & Hread2 & Henc2 & Hload & _).
  rewrite Ndv, Hnode in Hr2. injection Hr2 as <-.
  assert (body2 = body) as -> by (destruct (IsEncrypted raw); congruence).
  fold mf in Hread. rewrite Hread in Hread2. injection Hread2 as <- <-.
  destruct (verify_complete L path password env2 d2 384 t raw body mf blocks w files)
    as (d3 & N3 & [Hv|(e & Hv & He)]); try done.
  2:{ unfold Restore, fbind. by rewrite Hv. }
  apply verifyLoaded_inv in Hload as (_ & _ & _ & _ & _ & Hre & _).
  pose proof (reassembled L o (nodes d) Hcoll S es blocks HS Hes Hbl files Hre) as Hfiles.
  pose proof (entries_NoDup L o (nodes d) S es blocks HS Hes) as Hnd.
  assert (∃ targets, destinations o2 es ∅ = Ok targets) as [targets Htar].
  { clear -Hfiles Hport Ho2. generalize (∅ : gmap string string). 
    induction es as [|e es IH]; intros acc; simpl; [eauto|].
    destruct (Hfiles e ltac:(left)) as (config & rest & n & data & Hsc & Hnm & Hn & _ & -> & _).
    destruct (Hport config rest n Hsc Hn) as (_ & Hu & _).
    destruct (destination_ok o2 config rest Ho2 Hnm (scope_nonempty _ _ _ Hsc) Hu) as (t & Ht & _).
    simpl. rewrite Ht. apply IH. intros x Hx. apply Hfiles. by right. }
  destruct (Restore L o2 path password newServer env2 d2) as [r d4] eqn:E.
  unfold Restore in E. rewrite (fbind_ok _ _ _ _ _ _ Hv) in E. cbv beta iota in E.
  change (m_Contents (verified mf path (blen raw) w)) with es in E. rewrite Htar in E.
  erewrite fbind_ok in E by reflexivity. destruct r as [res|e].
  - apply fbind_inv in E as (out & d5 & Hrun & Hfin).
    pose proof (steps_finish eq (verified mf path (blen raw) w) newServer out env2 d5) as N5.
    rewrite Hfin in N5. simpl in N5. rewrite <-N5. intros config rest mode t' data Hsc Hn.
    eapply (restore_files L o o2 (nodes d) es files env2 d3 out d5 targets); try done; [apply Htree|].
    destruct (Hcov config rest mode t' data Hsc Hn) as (s & Hs & Hrel).
    apply list_elem_of_lookup in Hs as [j Hj].
    destruct (Forall2_lookup_l _ _ _ _ _ Hes Hj) as (e & He & n & dt & _ & -> & _).
    eexists. split; [by eapply list_elem_of_lookup_2|]. done.
  - apply (system_only_bind _ _ (system_only_restoreEntries es targets files [])
      (system_only_finish (verified mf path (blen raw) w) newServer) env2 d3).
    exact (f_equal fst E).
Qed.

(** ** An example *)

Lemma tree_okb (m : gmap (list string) node) :
  forallb (λ kn, forallb name_okb kn.1 &&
    match rev kn.1 with
    | c :: (x :: up) => match m !! rev (x :: up) with Some DirNode => true | _ => false end
    | _ => true
    end) (map_to_list m) = true → tree_ok m.
Proof.
  intros H. rewrite forallb_forall in H. split.
  - intros k n Hk. apply elem_of_map_to_list, list_elem_of_In in Hk.
    specialize (H _ Hk). simpl in H. apply andb_true_iff in H as [H _]. rewrite forallb_forall in H.
    apply List.Forall_forall. intros c Hc. by apply name_okb_ok, H.
  - intros k c n Hne Hk. apply elem_of_map_to_list, list_elem_of_In in Hk.
    specialize (H _ Hk). simpl in H. apply andb_true_iff in H as [_ H].
    rewrite rev_app_distr in H. simpl in H. destruct (rev k) as [|x up] eqn:E.
    + exfalso. apply Hne. by rewrite <-(rev_involutive k), E.
    + assert (k = rev up ++ [x]) as -> by (by rewrite <-(rev_involutive k), E).
      by destruct (m !! (rev up ++ [x])) as [[]|].
Qed.

Definition json_yearb (t : Z) : bool := (0 <=? TYear (sec t)) && (TYear (sec t) <? 10000).

Lemma json_yearb_ok t : json_yearb t = true → json_year t.
Proof. unfold json_yearb, json_year. rewrite andb_true_iff, Z.leb_le, Z.ltb_lt. done. Qed.

Lemma portableb (o : Options) (m : gmap (list string) node) :
  forallb (λ kn, json_yearb (fi_mtime (info_of kn.2)) &&
    forallb (λ c, negb (Contains c "..") && ascii_text c) kn.1) (map_to_list m) = true →
  portable o m.
Proof.
  intros H config rest n _ Hn. rewrite forallb_forall in H.
  apply elem_of_map_to_list, list_elem_of_In in Hn. specialize (H _ Hn). simpl in H.
  apply andb_true_iff in H as [Hy H]. split; [by apply json_yearb_ok|].
  rewrite forallb_forall in H. split; apply List.Forall_forall; intros c Hc;
    specialize (H c (in_or_app _ _ _ (or_intror Hc))); apply andb_true_iff in H as [H1 H2];
    [by apply negb_true_iff|done].
Qed.

Definition all_blocks (m : gmap (list string) node) : list (list Z) :=
  flat_map (λ kn, match contents kn.2 with Some data => splitBlocks data | None => [] end) (map_to_list m).

Lemma collision_freeb (L : Lib) (o : Options) (m : gmap (list string) node) :
  forallb (λ a, forallb (λ b, negb (hashBytes L a =s hashBytes L b) || bool_decide (a = b))
    (all_blocks m)) (all_blocks m) = true → collision_free L o m.
Proof.
  intros H. assert (∀ b, block_of o m b → In b (all_blocks m)) as Hin.
  { intros b (config & rest & n & data & _ & Hn & Hd & Hb). apply in_flat_map.
    exists (place o config rest, n). split; [by apply list_elem_of_In, elem_of_map_to_list|].
    simpl. rewrite Hd. by apply list_elem_of_In. }
  intros a b Ha%Hin Hb%Hin E. rewrite forallb_forall in H. specialize (H a Ha).
  rewrite forallb_forall in H. specialize (H b Hb). apply orb_true_iff in H as [H|H].
  - apply negb_true_iff, seqb_neq in H. done.
  - by apply bool_decide_eq_true in H.
Qed.

(** The new server keeps its files elsewhere. *)
Definition other_options : Options :=
  mkOptions "/srv/conf" "/srv/data" "/backup" true (mkRetentionPolicy 1 1 0 0 30)
    false false "2.0.0" "admin".

Lemma archive_smallb L password raw : password ≠ "" →
  match open L raw password with
  | Ok body =>
      match targz_Read L body with
      | Ok es => forallb (λ e, blen (te_data e) <=? maxEntrySize) es
      | Err _ => true
      end
  | Err _ => true
  end = true → archive_small L password raw.
Proof.
  intros Hp%seqb_neq H body es Hb Hes. rewrite Hp in Hb. rewrite Hb, Hes in H.
  rewrite forallb_forall in H. apply List.Forall_forall. intros e He. by apply Z.leb_le, H.
Qed.

Definition locked_run : Result Error (string * Manifest) * Disk :=
  Create sample_lib sample_options "pw" calm sample_disk.
Definition locked_path : string := "/backup/cashp_backup_1970-01-01_000000.tar.gz.enc".
Definition locked_raw : list Z :=
  match nodes locked_run.2 !! key locked_path ≫= contents with Some raw => raw | None => [] end.

Lemma create_restore_witness :
  match locked_run with
  | (Ok (path, _), d1) =>
      match Restore sample_lib other_options path "pw" true calm d1 with
      | (Ok _, d3) => ∃ t, nodes d3 !! place other_options true ["template"; "mail.html"] =
          Some (Reg (restoreMode 420) t (bytes_of "hello"))
      | (Err _, _) => False
      end
  | (Err _, _) => False
  end.
Proof.
  assert (match locked_run.1 with Ok (p, _) => p =s locked_path | Err _ => false end = true) as Hpath
    by (vm_compute; reflexivity).
  assert (nodes locked_run.2 !! key locked_path ≫= contents = Some locked_raw) as Hraw
    by (vm_compute; reflexivity).
  assert (is_ok (Restore sample_lib other_options locked_path "pw" true calm locked_run.2).1 = true) as Hok
    by (vm_compute; reflexivity).
  assert (archive_small sample_lib "pw" locked_raw) as Hsmall
    by (apply archive_smallb; [discriminate|vm_compute; reflexivity]).
  destruct locked_run as [[[path m]|e] d1] eqn:E; [|discriminate Hpath].
  apply seqb_eq in Hpath as ->. cbn [snd] in Hraw, Hok.
  pose proof (create_restore sample_lib sample_options other_options "pw" true calm sample_disk locked_path m
    d1 calm d1 locked_raw eq_refl) as H.
  destruct (Restore sample_lib other_options locked_path "pw" true calm d1) as [[res|e] d3]; [|discriminate Hok].
  apply (H) with (t := 7000000000) (config := true).
  - intros []; split; try reflexivity; discriminate.
  - apply tree_okb. vm_compute. reflexivity.
  - apply portableb. vm_compute. reflexivity.
  - apply collision_freeb. vm_compute. reflexivity.
  - split; reflexivity.
  - intros n. apply json_yearb_ok. reflexivity.
  - exact E.
  - exact Hraw.
  - exact Hsmall.
  - reflexivity.
  - intros []; split; try reflexivity; discriminate.
  - intros a b. vm_compute. discriminate.
  - apply scope_tree. left.
  - reflexivity.
Defined.
