(* ===== verification/StateFile.v ===== *)
(** The scheduler's state document on disk: [saveState], [loadState] and
    [statePath] of [src/src/scheduler/state.go].

    The functions run over the disk of [Files.v], call by call; any call may
    fail, with part of its work done.  [encoding/json] on the document is a
    parameter with its round trip as hypothesis.  The theorem is what the
    scheduler relies on when it treats saving as one step. *)
From stdpp Require Import prelude strings list gmap.
From Stdlib Require Import ZArith Lia Ascii.
From S2P Require Import Prelude GoTime Chunk Files Retention Archive Backup.
From S2P Require Import Schedule Threads Scheduler.

Definition stateFileName : string := "scheduler.json".

Definition statePath (dir : string) : string := Join [dir; stateFileName].

(** [state]: the time of writing and the records. *)
Record document := mkDocument { Updated : Z; Tasks : gmap string TaskState }.

Definition err_text (e : Error) : string :=
  match e with
  | Sentinel_ _ t | ErrSystem t | ErrContext t | Panicked t => t
  | ErrNotExist p => "open " +:+ p +:+ ": no such file or directory"
  | VerificationFailed _ => "backup verification failed"
  end.

(** [fmt.Errorf("scheduler: ...: %w", err)]. *)
Definition wrapped {A} (what : string) (m : FM A) : FM A := λ env d,
  match m env d with
  | (Err e, d') => (Err (ErrSystem ("scheduler: " +:+ what +:+ ": " +:+ err_text e)), d')
  | r => r
  end.

Section document.
Context (marshal : document → Result string (list Z)) (unmarshal : list Z → Result string document).

(** A missing file is the empty state; the text of any other error comes with an
    empty state too. *)
Definition loadState (path : string) : FM (gmap string TaskState * option string) :=
  do r <- attempt (ReadFile path);
  match r with
  | Err e =>
      if IsNotExist e then fret (∅, None)
      else fret (∅, Some ("scheduler: read state " +:+ path +:+ ": " +:+ err_text e))
  | Ok data =>
      match unmarshal data with
      | Err e => fret (∅, Some ("scheduler: parse state " +:+ path +:+ ": " +:+ e))
      | Ok doc => fret (Tasks doc, None)
      end
  end.

Definition encode (updated : Z) (tasks : gmap string TaskState) : Result Error (list Z) :=
  match marshal (mkDocument updated tasks) with
  | Ok data => Ok (data ++ [10])
  | Err e => Err (ErrSystem ("scheduler: encode state: " +:+ e))
  end.

Definition saveState (path : string) (tasks : gmap string TaskState) : FM () :=
  let dir := Dir path in
  do _ <- wrapped ("create state dir " +:+ dir) (MkdirAll dir);
  do updated <- now;
  do data <- lift (encode updated tasks);
  do name <- wrapped "create temp state" (CreateTemp dir (stateFileName +:+ ".tmp-"));
  do _ <- wrapped "write temp state" (on_error (WriteTo name data) (do _ <- attempt Close; Remove name));
  do _ <- wrapped "sync temp state" (on_error Sync (do _ <- attempt Close; Remove name));
  do _ <- wrapped "close temp state" (on_error Close (Remove name));
  do _ <- wrapped "chmod temp state" (on_error (Chmod name 416) (Remove name));
  wrapped ("replace state " +:+ path) (on_error (Rename name path) (Remove name)).

(** * Programs that differ in the text of their errors only *)

Definition alike {A} (m m' : FM A) : Prop := ∀ env d,
  (m env d).2 = (m' env d).2 ∧
  match (m env d).1, (m' env d).1 with
  | Ok a, Ok b => a = b
  | Err _, Err _ => True
  | _, _ => False
  end.

Lemma alike_refl {A} (m : FM A) : alike m m.
Proof. intros env d. split; [done |]. by destruct (m env d).1. Qed.

Lemma alike_wrapped {A} what (m : FM A) : alike (wrapped what m) m.
Proof. intros env d. unfold wrapped. destruct (m env d) as [[a | e] d']; done. Qed.

Lemma alike_bind {A B} (m m' : FM A) (k k' : A → FM B) :
  alike m m' → (∀ a, alike (k a) (k' a)) → alike (fbind m k) (fbind m' k').
Proof.
  intros Hm Hk env d. destruct (Hm env d) as [H1 H2]. unfold fbind.
  destruct (m env d) as [[a | e] d1], (m' env d) as [[b | e'] d1']; cbn in *; try done.
  subst. apply Hk.
Qed.

Lemma alike_assoc {A B C} (m : FM A) (f : A → FM B) (g : B → FM C) :
  alike (do x <- m; do y <- f x; g y) (do y <- (do x <- m; f x); g y).
Proof.
  intros env d. unfold fbind. destruct (m env d) as [[a | e] d1]; [| done].
  destruct (f a env d1) as [[b | e] d2]; [apply alike_refl | done].
Qed.

Lemma alike_trans {A} (m1 m2 m3 : FM A) : alike m1 m2 → alike m2 m3 → alike m1 m3.
Proof.
  intros H1 H2 env d. destruct (H1 env d) as [E1 M1], (H2 env d) as [E2 M2].
  split; [congruence |].
  destruct (m1 env d).1, (m2 env d).1, (m3 env d).1; congruence || done.
Qed.

(** The plain sequence of calls behind [saveState]. *)
Lemma saveState_plain path tasks :
  alike (saveState path tasks)
    (do _ <- MkdirAll (Dir path);
     do updated <- now;
     do data <- lift (encode updated tasks);
     do name <- CreateTemp (Dir path) (stateFileName +:+ ".tmp-");
     do _ <- fillTemp name data 416; on_error (Rename name path) (Remove name)).
Proof.
  unfold saveState. apply alike_bind; [apply alike_wrapped | intros _].
  apply alike_bind; [apply alike_refl | intros updated].
  apply alike_bind; [apply alike_refl | intros data].
  apply alike_bind; [apply alike_wrapped | intros name].
  unfold fillTemp.
  do 3 (eapply alike_trans; [| apply alike_assoc]; apply alike_bind; [apply alike_wrapped | intros _]).
  apply alike_bind; [apply alike_wrapped | intros _]. apply alike_wrapped.
Qed.

(** * Saving *)

Lemma state_temp_ok s : all_digits s = true →
  name_ok (stateFileName +:+ ".tmp-" +:+ s) ∧ stateFileName +:+ ".tmp-" +:+ s ≠ stateFileName.
Proof.
  intros Hs. set (name := stateFileName +:+ ".tmp-" +:+ s).
  assert (slen name = 19 + slen s) as Hl.
  { unfold name. rewrite !slen_app. change (slen stateFileName) with 14. change (slen ".tmp-") with 5. lia. }
  pose proof (slen_nonneg s).
  repeat split; try (intros E; rewrite E in Hl; vm_compute in Hl; lia).
  - intros E. rewrite E in Hl. change (slen "") with 0 in Hl. lia.
  - intros E. rewrite E in Hl. change (slen ".") with 1 in Hl. lia.
  - unfold name. rewrite !has_char_app, (digits_no_slash s) by done. done.
  - intros E. rewrite E in Hl. change (slen "..") with 2 in Hl. lia.
  - intros E. rewrite E in Hl. change (slen stateFileName) with 14 in Hl. lia.
Qed.

(** The whole new document, or the file as it was. *)
Definition saved_as (path : string) (tasks : gmap string TaskState) (r : Result Error ())
    (m m' : gmap (list string) node) : Prop :=
  match r with
  | Ok _ => ∃ t u data, marshal (mkDocument u tasks) = Ok data ∧
      m' !! key path = Some (Reg 416 t (data ++ [10]))
  | Err _ => m' !! key path = m !! key path
  end.

(** From the new temporary file on. *)
Lemma replace_spec path cs data env d r d' :
  key path = cs ++ [stateFileName] → key (Dir path) = cs →
  (do name <- CreateTemp (Dir path) (stateFileName +:+ ".tmp-");
   do _ <- fillTemp name data 416; on_error (Rename name path) (Remove name)) env d = (r, d') →
  match r with
  | Ok _ => ∃ t, nodes d' !! key path = Some (Reg 416 t data)
  | Err _ => nodes d' !! key path = nodes d !! key path
  end.
Proof.
  intros Hk HDir. unfold fbind at 1.
  destruct (CreateTemp _ _ env d) as [[name | e2] d2] eqn:E2.
  2: { intros [= <- <-]. by rewrite (CreateTemp_err _ _ _ _ _ _ E2). }
  apply CreateTemp_inv in E2 as (s & t0 & Hs & -> & Hfree & Hd2). rewrite HDir in Hfree, Hd2.
  rewrite !string_app_assoc in *. destruct (state_temp_ok s Hs) as [Hok Hneq].
  set (temp := stateFileName +:+ ".tmp-" +:+ s) in *.
  set (name := Dir path +:+ "/" +:+ temp) in *.
  assert (key name = cs ++ [temp]) as Hkn.
  { unfold name. change (Dir path +:+ "/" +:+ temp) with (Dir path +:+ String slash temp).
    by rewrite key_snoc, HDir. }
  rewrite <-Hkn in Hfree, Hd2.
  assert (key name ≠ key path) as Hdiff by (rewrite Hkn, Hk; by intros [_ [= E]]%app_inj_2).
  intros E. apply (fillRename_spec _ _ _ _ _ _ t0) in E; [| done | by rewrite Hd2, lookup_insert_eq].
  destruct r as [[] | e]; [by destruct E |]. by rewrite E, Hd2, lookup_insert_ne.
Qed.

Lemma saveState_spec path tasks env d :
  clean_path path → key path ≠ [] → Base path = stateFileName →
  saved_as path tasks (saveState path tasks env d).1 (nodes d) (nodes (saveState path tasks env d).2).
Proof.
  intros Hc Hne Hbase. destruct (saveState_plain path tasks env d) as [-> Hr].
  destruct (saveState path tasks env d) as [r0 d0]. cbn [fst] in *.
  set (plain := fbind _ _) in *.
  enough (saved_as path tasks (plain env d).1 (nodes d) (nodes (plain env d).2)) as H
    by (by destruct r0, (plain env d).1).
  clear r0 d0 Hr. subst plain.
  destruct (exists_last Hne) as (cs & c & Hk).
  pose proof (key_Dir_clean _ _ _ Hc Hk) as HDir. pose proof (Base_clean _ _ _ Hc Hk) as HBase.
  rewrite Hbase in HBase. subst c.
  unfold fbind at 1 6. destruct (MkdirAll (Dir path) env d) as [r1 d1] eqn:E1.
  destruct (MkdirAll_target _ _ _ _ _ _ _ HDir Hk E1) as [Htarget _].
  destruct r1 as [[] | e1]; [| done].
  set (rest := fbind now _). destruct (rest env d1) as [r d'] eqn:E. subst rest.
  unfold fbind, now, lift, fail, fret in E. unfold encode in E.
  destruct (marshal (mkDocument (env_now env (calls d1)) tasks)) as [data | e] eqn:Em.
  2: { injection E as <- <-. exact Htarget. }
  apply (replace_spec path cs _ _ _ _ _ Hk HDir) in E. cbn [fst snd saved_as].
  destruct r as [[] | e]; cbn [saved_as]; [| cbn [nodes] in E; congruence].
  destruct E as [t Ht]. eauto.
Qed.

Context (roundtrip : ∀ doc data, marshal doc = Ok data → unmarshal (data ++ [10]) = Ok doc).

End document.

(** * Sample *)

#[global] Instance TaskState_eq_dec : EqDecision TaskState.
Proof. solve_decision. Defined.

(** One document and its text. *)
Definition sample_doc : gmap string TaskState :=
  {[ "ssl_renewal" := mkState "ssl_renewal" "SSL" "0 3 * * *" 0 "success" "" 0 1 0 true "" 0 ]}.

Definition sample_marshal (doc : document) : Result string (list Z) :=
  if decide (Tasks doc = sample_doc ∧ Updated doc = 0) then Ok [123; 125] else Err "not a sample".
Definition sample_unmarshal (data : list Z) : Result string document :=
  if decide (data = [123; 125; 10]) then Ok (mkDocument 0 sample_doc) else Err "unexpected end of input".

Lemma sample_roundtrip doc data :
  sample_marshal doc = Ok data → sample_unmarshal (data ++ [10]) = Ok doc.
Proof.
  unfold sample_marshal. destruct (decide _) as [[Ht Hu] |]; [| done]. intros [= <-].
  destruct doc. cbn in *. by subst.
Qed.

(** Writing the temporary file fails half way; the old document is still there. *)
Definition sample_path : string := "/var/lib/cashp/scheduler.json".
Definition old_disk : Disk := mkDisk
  {[ ["var"] := DirNode; ["var"; "lib"] := DirNode; ["var"; "lib"; "cashp"] := DirNode;
     ["var"; "lib"; "cashp"; "scheduler.json"] := Reg 416 0 [123; 125; 10] ]} 0.
Definition torn : Env := mkEnv
  (λ n, if decide (n = 3%nat) then Some ("no space left on device", 1%nat) else None)
  (λ _, None) (λ _, 0) (λ _, []) (λ _, 1%N).

