(* ===== verification/RateLimit.v ===== *)
(** Sliding-window rate limits: [src/src/security/ratelimit.go].

    Every method runs under the limiter's mutex, so a history of a limiter is a
    sequence of whole operations, each at the time its clock shows.  Times and
    windows are nanoseconds.  The theorems say that the rule holds over every
    window of every such history, and that the wait a refused caller is told is
    long enough. *)
From stdpp Require Import prelude strings list gmap sorting.
From Stdlib Require Import ZArith Lia.
From S2P Require Import Prelude.

(** * Rules *)

Record Rule := mkRule { Requests : Z; Window : Z }.

Definition Second : Z := 1000000000.
Definition Minute : Z := 60 * Second.
Definition Hour : Z := 60 * Minute.

Definition RuleRead : Rule := mkRule 120 Minute.
Definition RuleWrite : Rule := mkRule 10 Minute.
Definition RuleHealth : Rule := mkRule 120 Minute.
Definition RuleGlobalBurst : Rule := mkRule 240 Minute.
Definition RuleLogin : Rule := mkRule 5 (15 * Minute).
Definition RulePasswordReset : Rule := mkRule 3 Hour.
Definition RuleRegistration : Rule := mkRule 5 Hour.
Definition RuleFileUpload : Rule := mkRule 10 Hour.

Definition Enabled (r : Rule) : bool := (0 <? Requests r) && (0 <? Window r).

(** * One limiter *)

Record Limiter := mkLimiter { l_rule : Rule; l_events : gmap string (list Z) }.

Definition NewLimiter (rule : Rule) : Limiter := mkLimiter rule ∅.

Definition SetRule (l : Limiter) (rule : Rule) : Limiter := mkLimiter rule (l_events l).

Definition events_of (l : Limiter) (key : string) : list Z :=
  match l_events l !! key with Some es => es | None => [] end.

Definition put_events (l : Limiter) (key : string) (es : list Z) : Limiter :=
  mkLimiter (l_rule l) (<[key := es]> (l_events l)).

(** The events strictly after the cutoff; they are stored oldest first. *)
Fixpoint prune (events : list Z) (cutoff : Z) : list Z :=
  match events with
  | [] => []
  | e :: rest => if negb (cutoff <? e) then prune rest cutoff else events
  end.

(** The answer, the wait, and the limiter afterwards. *)
Definition Allow (l : Limiter) (key : string) (now : Z) : bool * Z * Limiter :=
  if negb (Enabled (l_rule l)) then (true, 0, l) else
  let kept := prune (events_of l key) (now - Window (l_rule l)) in
  if Requests (l_rule l) <=? Z.of_nat (length kept) then
    let wait := nth 0 kept 0 + Window (l_rule l) - now in
    (false, if wait <? Second then Second else wait, put_events l key kept)
  else (true, 0, put_events l key (kept ++ [now])).

Definition Remaining (l : Limiter) (key : string) (now : Z) : Z * Limiter :=
  if negb (Enabled (l_rule l)) then (-1, l) else
  let kept := prune (events_of l key) (now - Window (l_rule l)) in
  let remaining := Requests (l_rule l) - Z.of_nat (length kept) in
  (if 0 <? remaining then remaining else 0, put_events l key kept).

Definition Reset (l : Limiter) (key : string) : Limiter :=
  mkLimiter (l_rule l) (delete key (l_events l)).

Definition Cleanup (l : Limiter) (now : Z) : Limiter :=
  mkLimiter (l_rule l)
    (omap (λ es, match prune es (now - Window (l_rule l)) with [] => None | kept => Some kept end)
       (l_events l)).

(** * The named limiters *)

Definition Limits : Type := gmap string Limiter.

Definition LimitRead : string := "read".
Definition LimitWrite : string := "write".
Definition LimitHealth : string := "health".
Definition LimitGlobalBurst : string := "global_burst".
Definition LimitLogin : string := "login".
Definition LimitPasswordReset : string := "password_reset".
Definition LimitRegistration : string := "registration".
Definition LimitFileUpload : string := "file_upload".

Definition NewLimits : Limits :=
  list_to_map
    [(LimitRead, NewLimiter RuleRead); (LimitWrite, NewLimiter RuleWrite);
     (LimitHealth, NewLimiter RuleHealth); (LimitGlobalBurst, NewLimiter RuleGlobalBurst);
     (LimitLogin, NewLimiter RuleLogin); (LimitPasswordReset, NewLimiter RulePasswordReset);
     (LimitRegistration, NewLimiter RuleRegistration); (LimitFileUpload, NewLimiter RuleFileUpload)].

Definition Limits_Get (s : Limits) (name : string) : option Limiter := s !! name.

Definition Limits_Set (s : Limits) (name : string) (rule : Rule) : Limits :=
  match s !! name with
  | Some l => <[name := SetRule l rule]> s
  | None => <[name := NewLimiter rule]> s
  end.

Definition Limits_Allow (s : Limits) (name key : string) (now : Z) : bool * Z * Limits :=
  match Limits_Get s name with
  | None => (true, 0, s)
  | Some l => let '(ok, wait, l') := Allow l key now in (ok, wait, <[name := l']> s)
  end.

Definition Limits_Cleanup (s : Limits) (now : Z) : Limits := (λ l, Cleanup l now) <$> s.

(** * Histories *)

Inductive Op :=
| OpAllow (key : string)
| OpRemaining (key : string)
| OpReset (key : string)
| OpCleanup.

(** One operation: the limiter afterwards, and the key it let through. *)
Definition step (l : Limiter) (now : Z) (op : Op) : Limiter * option string :=
  match op with
  | OpAllow key => let '(ok, _, l') := Allow l key now in (l', if ok then Some key else None)
  | OpRemaining key => ((Remaining l key now).2, None)
  | OpReset key => (Reset l key, None)
  | OpCleanup => (Cleanup l now, None)
  end.

(** A history from a limiter: where it ends, and the events it let through. *)
Fixpoint history (l : Limiter) (ops : list (Z * Op)) : Limiter * list (Z * string) :=
  match ops with
  | [] => (l, [])
  | (now, op) :: rest =>
      let '(l', out) := step l now op in
      let '(l'', log) := history l' rest in
      (l'', match out with Some key => (now, key) :: log | None => log end)
  end.

(** The times at which [key] was let through. *)
Definition allowed (key : string) (log : list (Z * string)) : list Z :=
  map fst (List.filter (λ e, e.2 =s key) log).

Definition in_window (t w : Z) (e : Z) : bool := (t - w <? e) && (e <=? t).

Definition no_reset (key : string) (ops : list (Z * Op)) : Prop :=
  Forall (λ o, match o.2 with OpReset k => k ≠ key | _ => True end) ops.

(** The clock never runs backwards. *)
Definition clock_ok (start : Z) (ops : list (Z * Op)) : Prop :=
  Sorted.StronglySorted Z.le (start :: map fst ops).

(** * Pruning *)

Lemma prune_split events cutoff :
  Sorted.StronglySorted Z.le events →
  ∃ old, events = old ++ prune events cutoff ∧ Forall (λ e, e ≤ cutoff) old ∧
         Forall (λ e, cutoff < e) (prune events cutoff).
Proof.
  induction 1 as [|e rest Hs IH Hall]; simpl; [by exists []|].
  destruct (Z.ltb_spec cutoff e) as [Hlt|Hge]; simpl.
  - exists []. split; [done|]. split; [done|]. constructor; [done|].
    eapply Forall_impl; [exact Hall|]. simpl. lia.
  - destruct IH as (old & E & Ho & Hn).
    exists (e :: old). split; [simpl; by rewrite <-E|]. split; [by constructor|done].
Qed.

(** The state of one key: what was let through, the newest of it still stored. *)
Definition tracks (r : Rule) (now : Z) (past stored : list Z) : Prop :=
  Sorted.StronglySorted Z.le past ∧ Forall (λ e, e ≤ now) past ∧
  (∃ old, past = old ++ stored ∧ Forall (λ e, e ≤ now - Window r) old) ∧
  Z.of_nat (length stored) ≤ Requests r ∧
  (∀ i a b, past !! i = Some a → past !! (i + Z.to_nat (Requests r))%nat = Some b → a + Window r ≤ b).

Lemma sorted_app_inv {A} (R : relation A) a b :
  Sorted.StronglySorted R (a ++ b) → Sorted.StronglySorted R b.
Proof. induction a as [|x a IH]; [done|]. intros H. apply IH. by inversion H. Qed.

Lemma tracks_prune r now now' past stored : now ≤ now' → tracks r now past stored →
  tracks r now' past (prune stored (now' - Window r)).
Proof.
  intros Hle (Hs & Hn & (old & -> & Ho) & Hl & Hsp).
  destruct (prune_split stored (now' - Window r)) as (old' & E & Ho' & Hk);
    [by eapply sorted_app_inv|].
  split; [done|]. split; [eapply Forall_impl; [exact Hn|]; simpl; lia|]. split; [|split; [|done]].
  - exists (old ++ old'). rewrite <-app_assoc, <-E. split; [done|]. apply Forall_app. split; [|done].
    eapply Forall_impl; [exact Ho|]. simpl. lia.
  - assert (length (prune stored (now' - Window r)) ≤ length stored)%nat; [|lia].
    rewrite E at 2. rewrite length_app. lia.
Qed.

Lemma tracks_later r now now' past stored : now ≤ now' → tracks r now past stored →
  tracks r now' past stored.
Proof.
  intros Hle (Hs & Hn & (old & E & Ho) & Hl & Hsp). split; [done|].
  split; [eapply Forall_impl; [exact Hn|]; simpl; lia|]. split; [|done].
  exists old. split; [done|]. eapply Forall_impl; [exact Ho|]. simpl. lia.
Qed.

(** Letting one more through, when there is room. *)
Lemma tracks_add r now past stored : 0 < Requests r →
  tracks r now past stored → Z.of_nat (length stored) < Requests r →
  tracks r now (past ++ [now]) (stored ++ [now]).
Proof.
  intros HR (Hs & Hn & (old & -> & Ho) & Hl & Hsp) Hroom. split; [|split; [|split; [|split]]].
  - clear -Hs Hn. induction (old ++ stored) as [|x l IH]; simpl; [by repeat constructor|].
    inversion Hs as [|?? Hs' Hx]; inversion Hn; subst. constructor; [by apply IH|].
    apply Forall_app. split; [done|]. by constructor.
  - apply Forall_app. split; [done|]. by constructor.
  - exists old. by rewrite app_assoc.
  - rewrite length_app. simpl. lia.
  - intros i a b Ha Hb. destruct (decide (i + Z.to_nat (Requests r) < length (old ++ stored))%nat) as [Hi|Hi].
    + rewrite lookup_app_l in Hb by done. rewrite lookup_app_l in Ha by lia. by eapply Hsp.
    + assert (b = now ∧ i + Z.to_nat (Requests r) = length (old ++ stored))%nat as [-> Ei].
      { rewrite lookup_app_r in Hb by lia. apply list_lookup_singleton_Some in Hb as [? <-]. split; [done|lia]. }
      rewrite length_app in Ei. rewrite <-app_assoc, lookup_app_l in Ha by lia.
      rewrite Forall_forall in Ho. specialize (Ho a (list_elem_of_lookup_2 _ _ _ Ha)). simpl in Ho. lia.
Qed.

(** * The rule holds *)

Lemma allowed_cons key now out log :
  allowed key (match out with Some k => (now, k) :: log | None => log end) =
  (if decide (out = Some key) then [now] else []) ++ allowed key log.
Proof.
  destruct out as [k|]; [|by rewrite decide_False].
  unfold allowed. cbn [List.filter snd]. destruct (k =s key) eqn:E.
  - apply seqb_eq in E as ->. by rewrite decide_True.
  - apply seqb_neq in E. rewrite decide_False by congruence. done.
Qed.

Lemma events_put l key es k :
  events_of (put_events l key es) k = if decide (k = key) then es else events_of l k.
Proof.
  unfold events_of, put_events. simpl. case_decide as E; [subst; by rewrite lookup_insert_eq|].
  by rewrite lookup_insert_ne.
Qed.

Lemma step_tracks r key l now now' op past l' out :
  Enabled r = true → l_rule l = r → now ≤ now' → tracks r now past (events_of l key) →
  (match op with OpReset k => k ≠ key | _ => True end) → step l now' op = (l', out) →
  l_rule l' = r ∧
  tracks r now' (past ++ if decide (out = Some key) then [now'] else []) (events_of l' key).
Proof.
  intros He Hr Hle Ht Hop. pose proof (tracks_prune _ _ _ _ _ Hle Ht) as Hp.
  pose proof (tracks_later _ _ _ _ _ Hle Ht) as Hlater.
  assert (0 < Requests r) as HR by (unfold Enabled in He; apply andb_true_iff in He as [?%Z.ltb_lt _]; done).
  destruct op as [k|k|k|]; simpl.
  - unfold Allow. rewrite Hr, He. simpl. destruct (Z.leb_spec (Requests r)
      (Z.of_nat (length (prune (events_of l k) (now' - Window r))))) as [Hfull|Hroom]; simpl; intros [= <- <-].
    + split; [done|]. rewrite app_nil_r, events_put. case_decide; [by subst|done].
    + split; [done|]. rewrite events_put. destruct (decide (key = k)) as [<-|Hne].
      * rewrite decide_True by done. by apply tracks_add.
      * rewrite decide_False by congruence. by rewrite app_nil_r.
  - unfold Remaining. rewrite Hr, He. simpl. intros [= <- <-]. split; [done|].
    rewrite app_nil_r, events_put. case_decide; [by subst|done].
  - intros [= <- <-]. split; [done|]. rewrite app_nil_r. unfold events_of, Reset. simpl.
    by rewrite lookup_delete_ne.
  - intros [= <- <-]. split; [done|]. rewrite app_nil_r. unfold events_of in *. unfold Cleanup. simpl.
    rewrite lookup_omap, Hr. destruct (l_events l !! key) as [es|]; simpl in *; [|done].
    by destruct (prune es (now' - Window r)).
Qed.

Lemma history_tracks r key ops l now past l' log :
  Enabled r = true → l_rule l = r → tracks r now past (events_of l key) →
  clock_ok now ops → no_reset key ops → history l ops = (l', log) →
  ∃ now', now ≤ now' ∧ l_rule l' = r ∧ tracks r now' (past ++ allowed key log) (events_of l' key) ∧
    Forall (λ t, t ≤ now') (map fst ops) ∧ (now' = now ∨ now' ∈ map fst ops).
Proof.
  intros He. revert l now past l' log. induction ops as [|[t op] ops IH]; intros l now past l' log Hr Ht Hc Hn H.
  { injection H as <- <-. exists now. rewrite app_nil_r. split; [lia|]. split; [done|]. split; [done|].
    split; [constructor|by left]. }
  simpl in H. destruct (step l t op) as [l1 out] eqn:E. destruct (history l1 ops) as [l2 log2] eqn:E2.
  injection H as <- <-. unfold clock_ok in Hc. simpl in Hc.
  inversion Hc as [|?? Hc' Hall]; subst. inversion Hall as [|?? Hle _]; subst.
  inversion Hn as [|?? Hop Hn']; subst.
  destruct (step_tracks (l_rule l) key l now t op past l1 out He eq_refl Hle Ht Hop E) as [Hr1 Ht1].
  destruct (IH l1 t _ l2 log2 Hr1 Ht1 Hc' Hn' E2) as (now' & Hle' & Hr2 & Ht2 & Hf & Hin).
  exists now'. split; [lia|]. split; [done|]. rewrite allowed_cons, app_assoc. split; [done|].
  split; [by constructor|]. right. destruct Hin as [->|?]; [left|by right].
Qed.

Lemma tracks_new r : 0 < Requests r → ∀ now, tracks r now [] [].
Proof.
  intros HR now. split; [constructor|]. split; [constructor|].
  split; [by exists []|]. split; [simpl; lia|]. by intros i a b Ha.
Qed.

(** In an ordered list the events of a window stand together. *)
Lemma window_segment t w l : Sorted.StronglySorted Z.le l →
  ∃ a c, l = a ++ List.filter (in_window t w) l ++ c.
Proof.
  induction 1 as [|x l Hs IH Hx]; simpl; [by exists [], []|].
  destruct (in_window t w x) eqn:E.
  - exists []. simpl. unfold in_window in E. apply andb_true_iff in E as [E1%Z.ltb_lt E2%Z.leb_le].
    assert (∃ c, l = List.filter (in_window t w) l ++ c) as [c Hc]; [|exists c; by rewrite <-Hc].
    clear IH. induction Hs as [|y l Hs IH Hy]; simpl; [by exists []|].
    inversion Hx as [|?? Hxy Hxl]; subst. destruct (in_window t w y) eqn:Ey.
    + destruct (IH Hxl) as [c Hc]. exists c. simpl. by rewrite <-Hc.
    + unfold in_window in Ey. apply andb_false_iff in Ey as [Ey%Z.ltb_ge|Ey%Z.leb_gt]; [lia|].
      exists (y :: l). assert (List.filter (in_window t w) l = []) as ->; [|done].
      clear -Hy Ey. induction l as [|z l IH]; simpl; [done|]. inversion Hy; subst.
      unfold in_window at 1. destruct (Z.leb_spec z t); [lia|]. rewrite andb_false_r. by apply IH.
  - destruct IH as (a & c & Hc). exists (x :: a), c. simpl. by rewrite <-Hc.
Qed.

Lemma spaced_window r past t : 0 < Requests r → Sorted.StronglySorted Z.le past →
  (∀ i a b, past !! i = Some a → past !! (i + Z.to_nat (Requests r))%nat = Some b → a + Window r ≤ b) →
  Z.of_nat (length (List.filter (in_window t (Window r)) past)) ≤ Requests r.
Proof.
  intros HR Hs Hsp. destruct (window_segment t (Window r) past Hs) as (a & c & E).
  set (f := List.filter (in_window t (Window r)) past) in *. apply Z.nlt_ge. intros Hlt.
  destruct (lookup_lt_is_Some_2 f 0) as [x Hx]; [lia|].
  destruct (lookup_lt_is_Some_2 f (Z.to_nat (Requests r))) as [y Hy]; [lia|].
  assert (∀ z i, f !! i = Some z → t - Window r < z ≤ t) as Hin.
  { intros z i Hz. apply list_elem_of_lookup_2, list_elem_of_In, filter_In in Hz as [_ Hz].
    unfold in_window in Hz. apply andb_true_iff in Hz as [?%Z.ltb_lt ?%Z.leb_le]. done. }
  assert (∀ i, (i < length f)%nat → past !! (length a + i)%nat = f !! i) as Hl.
  { intros i Hi. rewrite E, lookup_app_r by lia. rewrite lookup_app_l by lia. f_equal. lia. }
  assert (x + Window r ≤ y).
  { apply (Hsp (length a) x y).
    - rewrite <-Hx, <-(Hl 0%nat) by lia. f_equal. lia.
    - rewrite Hl by lia. done. }
  pose proof (Hin _ _ Hx). pose proof (Hin _ _ Hy). lia.
Qed.

(** C23: the limit is a limit: in any history of a limiter under an enabled rule,
    however lookups and cleanups come in between, no key that is not reset is let
    through more than the allowed number of times within any window, wherever the
    window lies. *)
Theorem sliding_window r ops key start t log l
  (He : Enabled r = true) (Hc : clock_ok start ops) (Hn : no_reset key ops)
  (H : history (NewLimiter r) ops = (l, log)) :
  Z.of_nat (length (List.filter (in_window t (Window r)) (allowed key log))) ≤ Requests r.
Proof.
  assert (0 < Requests r) as HR by (unfold Enabled in He; apply andb_true_iff in He as [?%Z.ltb_lt _]; done).
  destruct (history_tracks r key ops (NewLimiter r) start [] l log He eq_refl (tracks_new r HR start) Hc Hn H)
    as (now' & _ & _ & (Hs & _ & _ & _ & Hsp) & _). by apply spaced_window.
Qed.

Lemma clock_ok_snoc start ops now op : clock_ok start (ops ++ [(now, op)]) →
  clock_ok start ops ∧ Forall (λ x, x ≤ now) (start :: map fst ops).
Proof.
  unfold clock_ok. rewrite map_app.
  change (start :: map fst ops ++ map fst [(now, op)]) with ((start :: map fst ops) ++ [now]).
  induction (start :: map fst ops) as [|x xs IH]; [by split; constructor|].
  intros Hc. simpl in Hc. inversion Hc as [|?? Hc' Hx]; subst. apply Forall_app in Hx as [Hx1 Hx2].
  destruct (IH Hc') as [I1 I2]. split; [by constructor|]. constructor; [by inversion Hx2|done].
Qed.

(** The wait is right: when a limiter refuses a key, it names a wait of at
    least a second and at most a window or a second, and the same key asked again
    after exactly that wait, with no event in between, is let through. *)
Theorem retry_after_suffices r ops key start now l log wait l'
  (He : Enabled r = true) (Hc : clock_ok start (ops ++ [(now, OpAllow key)])) (Hn : no_reset key ops)
  (H : history (NewLimiter r) ops = (l, log)) (Hrefused : Allow l key now = (false, wait, l')) :
  Second ≤ wait ≤ Z.max Second (Window r) ∧ (Allow l' key (now + wait)).1.1 = true.
Proof.
  assert (0 < Requests r ∧ 0 < Window r) as [HR HW]
    by (unfold Enabled in He; by apply andb_true_iff in He as [?%Z.ltb_lt ?%Z.ltb_lt]).
  destruct (clock_ok_snoc _ _ _ _ Hc) as [Hc1 Hlast].
  destruct (history_tracks r key ops (NewLimiter r) start [] l log He eq_refl (tracks_new r HR start) Hc1 Hn H)
    as (n0 & _ & Hr & Ht & _ & Hin).
  assert (n0 ≤ now) as Hle.
  { inversion Hlast as [|?? H1 H2]; subst. destruct Hin as [->|Hin]; [done|].
    rewrite Forall_forall in H2. by apply H2. }
  pose proof (tracks_prune _ _ now _ _ Hle Ht) as Hp.
  unfold Allow in Hrefused. rewrite Hr, He in Hrefused. simpl in Hrefused.
  set (kept := prune (events_of l key) (now - Window r)) in *.
  destruct (Z.leb_spec (Requests r) (Z.of_nat (length kept))) as [Hfull|]; [|done].
  injection Hrefused as Hwait <-.
  destruct Hp as (Hs & Hnow & (old & E & _) & Hlen & _).
  destruct (prune_split (events_of l key) (now - Window r)) as (old' & E' & _ & Hkept).
  { destruct Ht as (Hs' & _ & (old0 & E0 & _) & _). rewrite E0 in Hs'. by eapply sorted_app_inv. }
  fold kept in Hkept. destruct kept as [|k0 kept'] eqn:Ek; [simpl in Hfull; lia|].
  simpl in Hwait. apply Forall_cons in Hkept as [Hk0 _].
  assert (k0 ≤ now) as Hk0n.
  { rewrite E in Hnow. apply Forall_app in Hnow as [_ Hnow]. by inversion Hnow. }
  assert (Second = 1000000000) as HSec by done.
  assert (Second ≤ wait ≤ Z.max Second (Window r) ∧ k0 + Window r ≤ now + wait) as [Hbounds Hdue]
    by (rewrite <-Hwait; destruct (Z.ltb_spec (k0 + Window r - now) Second); lia).
  split; [done|].
  unfold Allow. simpl l_rule. rewrite Hr, He. simpl negb. cbv iota.
  rewrite events_put, decide_True by done. simpl prune.
  destruct (Z.ltb_spec (now + wait - Window r) k0); [lia|]. simpl negb. cbv iota.
  destruct (prune_split kept' (now + wait - Window r)) as (old2 & E2 & _).
  { rewrite E in Hs. apply sorted_app_inv in Hs. by inversion Hs. }
  assert (length (prune kept' (now + wait - Window r)) ≤ length kept')%nat as Hshort
    by (rewrite E2 at 2; rewrite length_app; lia).
  simpl in Hlen. destruct (Z.leb_spec (Requests r)
    (Z.of_nat (length (prune kept' (now + wait - Window r))))); [lia|done].
Qed.

(** Five logins in a row, a sixth one refused. *)
Definition login_ops : list (Z * Op) :=
  map (λ i, (Z.of_nat i * Second, OpAllow "203.0.113.9")) (seq 1 5).

Lemma sliding_window_witness :
  let '(l, log) := history (NewLimiter RuleLogin) (login_ops ++ [(6 * Second, OpAllow "203.0.113.9")]) in
  length (allowed "203.0.113.9" log) = 5%nat ∧
  Z.of_nat (length (List.filter (in_window Minute (Window RuleLogin)) (allowed "203.0.113.9" log))) ≤ 5.
Proof.
  destruct (history (NewLimiter RuleLogin) (login_ops ++ [(6 * Second, OpAllow "203.0.113.9")]))
    as [l log] eqn:E.
  split; [apply (f_equal snd) in E; vm_compute in E; subst log; reflexivity|].
  apply (sliding_window RuleLogin (login_ops ++ [(6 * Second, OpAllow "203.0.113.9")]) _ 0 _ log l).
  - reflexivity.
  - repeat constructor; vm_compute; discriminate.
  - repeat constructor.
  - exact E.
Defined.

Lemma retry_after_suffices_witness :
  let l := (history (NewLimiter RuleLogin) login_ops).1 in
  ∃ l', Allow l "203.0.113.9" (6 * Second) = (false, 895 * Second, l') ∧
    (Allow l' "203.0.113.9" (6 * Second + 895 * Second)).1.1 = true.
Proof.
  cbv zeta. eexists. split; [vm_compute; reflexivity|].
  eapply (retry_after_suffices RuleLogin login_ops "203.0.113.9" 0 (6 * Second)
    (history (NewLimiter RuleLogin) login_ops).1 (history (NewLimiter RuleLogin) login_ops).2).
  - reflexivity.
  - repeat constructor; vm_compute; discriminate.
  - repeat constructor.
  - apply surjective_pairing.
  - vm_compute. reflexivity.
Defined.

(** An event exactly one window old is dropped. *)
Example prune_at_cutoff : prune [10; 11] 10 = [11].
Proof. reflexivity. Qed.
