(* ===== verification/Resp.v ===== *)
(** The wire protocol of the remote cache: [src/src/cache/resp.go].

    A byte string is a [string].  The reader of a connection is the bytes the
    peer has sent and not yet been read, together with the error a read gives
    once they are used up (the connection was closed, the deadline passed).
    After a failed read the connection is discarded, so what it had left does
    not matter.

    [readReply] recurses on the nesting of the answer; its fuel is the depth
    that is left.  [render] is the encoding of RESP 2 as a specification: the
    decoder inverts it on exactly the values within the limits. *)
From stdpp Require Import prelude strings list.
From Stdlib Require Import ZArith Lia Ascii.
From S2P Require Import Prelude.

(** * Values *)

Definition typeStatus : ascii := "+"%char.
Definition typeError : ascii := "-"%char.
Definition typeInt : ascii := ":"%char.
Definition typeBulk : ascii := "$"%char.
Definition typeArray : ascii := "*"%char.

Definition maxBulkSize : Z := Z.shiftl 64 20.
Definition maxArrayLen : Z := Z.shiftl 1 20.
Definition maxNestDepth : Z := 8.

Inductive RespError :=
| errProtocol
| errEmptyCommand
| errAuthFailed
| ServerError (msg : string)
| IOError (text : string).   (* a failure of the connection *)

Inductive reply := mkReply
  { r_typ : ascii; r_str : string; r_num : Z; r_arr : list reply; r_null : bool }.

Definition emptyReply : reply := mkReply "000"%char "" 0 [] false.

Definition CR : ascii := "013"%char.
Definition LF : ascii := "010"%char.
Definition CRLF : string := String CR (String LF EmptyString).

(** * Encoding *)

Definition encodeArgs (buf : string) (args : list string) : string :=
  foldl (λ buf a, buf +:+ String typeBulk (itoa (slen a)) +:+ CRLF +:+ a +:+ CRLF) buf args.

Definition encodeCommand (buf : string) (args : list string) : string :=
  encodeArgs (buf +:+ String typeArray (itoa (Z.of_nat (length args))) +:+ CRLF) args.

(** * Reading *)

(** The buffer of [bufio.NewReader]: a line must end within it. *)
Definition bufferSize : nat := Z.to_nat 4096.

Inductive Slice := Line (line rest : string) | BufferFull | Drained.

(** [ReadSlice('\n')]; the line is returned without its line feed. *)
Fixpoint ReadSlice (room : nat) (s : string) : Slice :=
  match room, s with
  | O, _ => BufferFull
  | S _, EmptyString => Drained
  | S room', String c s' =>
      if Ascii.eqb c LF then Line "" s'
      else match ReadSlice room' s' with
           | Line l rest => Line (String c l) rest
           | r => r
           end
  end.

(** The line without the carriage return it must end in. *)
Fixpoint chomp (line : string) : option string :=
  match line with
  | EmptyString => None
  | String c EmptyString => if Ascii.eqb c CR then Some "" else None
  | String c line' => String c <$> chomp line'
  end.

(** The first [n] bytes and the rest, when there are as many. *)
Fixpoint split_at (n : nat) (s : string) : option (string * string) :=
  match n, s with
  | O, _ => Some ("", s)
  | S _, EmptyString => None
  | S n', String c s' =>
      match split_at n' s' with Some (a, b) => Some (String c a, b) | None => None end
  end.

Section reader.
(** What a read answers when the bytes are used up. *)
Context (drained : string).

Notation Read A := (Result RespError A * string)%type.

Definition readLine (s : string) : Read string :=
  match ReadSlice bufferSize s with
  | BufferFull => (Err errProtocol, "")
  | Drained => (Err (IOError drained), "")
  | Line l rest =>
      match chomp l with
      | Some out => (Ok out, rest)
      | None => (Err errProtocol, rest)
      end
  end.

(** [io.ReadFull] of the body and its terminator. *)
Definition readBody (n : Z) (s : string) : Read string :=
  match split_at (Z.to_nat n) s with
  | None => (Err (IOError drained), "")
  | Some (body, rest) =>
      match rest with
      | String c (String d rest) =>
          if Ascii.eqb c CR && Ascii.eqb d LF then (Ok body, rest) else (Err errProtocol, rest)
      | _ => (Err (IOError drained), "")
      end
  end.

(** [n] values in a row; [None] says the fuel ran out. *)
Fixpoint readItems (one : string → option (Read reply)) (n : nat) (s : string)
    : option (Read (list reply)) :=
  match n with
  | O => Some (Ok [], s)
  | S n' =>
      match one s with
      | None => None
      | Some (Err e, s) => Some (Err e, s)
      | Some (Ok item, s) =>
          match readItems one n' s with
          | None => None
          | Some (Err e, s) => Some (Err e, s)
          | Some (Ok items, s) => Some (Ok (item :: items), s)
          end
      end
  end.

Fixpoint readReply (fuel : nat) (depth : Z) (s : string) : option (Read reply) :=
  match fuel with
  | O => None
  | S fuel' =>
      if maxNestDepth <? depth then Some (Err errProtocol, s) else
      match s with
      | EmptyString => Some (Err (IOError drained), "")
      | String typ s =>
          match readLine s with
          | (Err e, s) => Some (Err e, s)
          | (Ok line, s) =>
              if Ascii.eqb typ typeStatus || Ascii.eqb typ typeError then
                Some (Ok (mkReply typ line 0 [] false), s)
              else if Ascii.eqb typ typeInt then
                match ParseInt line with
                | None => Some (Err errProtocol, s)
                | Some n => Some (Ok (mkReply typ "" n [] false), s)
                end
              else if Ascii.eqb typ typeBulk then
                match ParseInt line with
                | None => Some (Err errProtocol, s)
                | Some n =>
                    if n <? 0 then Some (Ok (mkReply typ "" 0 [] true), s)
                    else if maxBulkSize <? n then Some (Err errProtocol, s)
                    else match readBody n s with
                         | (Err e, s) => Some (Err e, s)
                         | (Ok body, s) => Some (Ok (mkReply typ body 0 [] false), s)
                         end
                end
              else if Ascii.eqb typ typeArray then
                match ParseInt line with
                | None => Some (Err errProtocol, s)
                | Some n =>
                    if n <? 0 then Some (Ok (mkReply typ "" 0 [] true), s)
                    else if maxArrayLen <? n then Some (Err errProtocol, s)
                    else match readItems (readReply fuel' (depth + 1)) (Z.to_nat n) s with
                         | None => None
                         | Some (Err e, s) => Some (Err e, s)
                         | Some (Ok items, s) => Some (Ok (mkReply typ "" 0 items false), s)
                         end
                end
              else Some (Err errProtocol, s)
          end
      end
  end.

(** One level of fuel per level of nesting, and one to refuse the next. *)
Definition depthFuel : nat := Z.to_nat (maxNestDepth + 2).

End reader.

(** * The encoding as a specification *)

Fixpoint render (r : reply) : string :=
  match r with
  | mkReply typ str num arr null =>
      if Ascii.eqb typ typeInt then String typ (itoa num) +:+ CRLF
      else if Ascii.eqb typ typeBulk then
        if null then String typ (itoa (-1)) +:+ CRLF
        else String typ (itoa (slen str)) +:+ CRLF +:+ str +:+ CRLF
      else if Ascii.eqb typ typeArray then
        if null then String typ (itoa (-1)) +:+ CRLF
        else String typ (itoa (Z.of_nat (length arr))) +:+ CRLF +:+
             foldr (λ item out, render item +:+ out) "" arr
      else String typ str +:+ CRLF
  end.

Definition no_LF (s : string) : bool := forallb (λ c, negb (Ascii.eqb c LF)) (String.list_ascii_of_string s).

(** The values within the limits of the client, at a depth of nesting. *)
Inductive within : Z → reply → Prop :=
| within_line d typ s :
    d ≤ maxNestDepth → typ = typeStatus ∨ typ = typeError →
    no_LF s = true → slen s + 2 ≤ 4096 → within d (mkReply typ s 0 [] false)
| within_int d n : d ≤ maxNestDepth → in_int64 n → within d (mkReply typeInt "" n [] false)
| within_bulk d s :
    d ≤ maxNestDepth → slen s ≤ maxBulkSize → within d (mkReply typeBulk s 0 [] false)
| within_null d typ :
    d ≤ maxNestDepth → typ = typeBulk ∨ typ = typeArray → within d (mkReply typ "" 0 [] true)
| within_array d items :
    d ≤ maxNestDepth → Z.of_nat (length items) ≤ maxArrayLen →
    (∀ item, item ∈ items → within (d + 1) item) → within d (mkReply typeArray "" 0 items false).

(** A command as the value it is on the wire. *)
Definition command (args : list string) : reply :=
  mkReply typeArray "" 0 ((λ a, mkReply typeBulk a 0 [] false) <$> args) false.

(** * Lemmas *)

Lemma ReadSlice_line room l rest :
  no_LF l = true → (String.length l < room)%nat →
  ReadSlice room (l +:+ String LF rest) = Line l rest.
Proof.
  revert room. induction l as [| c l IH]; intros [| room] Hl Hr; cbn [String.length] in Hr;
    [lia | done | lia |].
  change (no_LF (String c l)) with (negb (Ascii.eqb c LF) && no_LF l) in Hl.
  apply andb_true_iff in Hl as [Hc Hl]. rewrite string_app_cons. cbn [ReadSlice].
  destruct (Ascii.eqb c LF); [done |]. by rewrite (IH room Hl) by lia.
Qed.

Lemma ReadSlice_sound room s l rest :
  ReadSlice room s = Line l rest →
  no_LF l = true ∧ (String.length l < room)%nat ∧ s = l +:+ String LF rest.
Proof.
  revert s l. induction room as [| room IH]; intros [| c s] l H; cbn in *; try done.
  destruct (Ascii.eqb_spec c LF) as [-> | Hc].
  { injection H as <- <-. split; [reflexivity |]. split; [cbn; lia | reflexivity]. }
  destruct (ReadSlice room s) as [l' r' | |] eqn:E; simplify_eq.
  destruct (IH _ _ E) as (H1 & H2 & ->). cbn. apply Ascii.eqb_neq in Hc. rewrite Hc.
  split_and!; [done | lia | done].
Qed.

Lemma chomp_CR l : chomp (l +:+ String CR "") = Some l.
Proof.
  induction l as [| c l IH]; [done |]. rewrite string_app_cons. cbn. rewrite IH.
  by destruct l.
Qed.

Lemma chomp_sound l out : chomp l = Some out → l = out +:+ String CR "".
Proof.
  revert out. induction l as [| c l IH]; intros out H; [done |]. cbn in H.
  destruct l as [| d l].
  - destruct (Ascii.eqb_spec c CR) as [-> |]; by simplify_eq.
  - apply fmap_Some in H as (o & H & ->). by rewrite (IH o H).
Qed.

Lemma no_LF_app s t : no_LF (s +:+ t) = no_LF s && no_LF t.
Proof.
  induction s as [| c s IH]; [done |]. rewrite string_app_cons.
  change (negb (Ascii.eqb c LF) && no_LF (s +:+ t) = negb (Ascii.eqb c LF) && no_LF s && no_LF t).
  by rewrite IH, andb_assoc.
Qed.

Lemma readLine_render drained l rest :
  no_LF l = true → slen l + 2 ≤ 4096 → readLine drained (l +:+ CRLF +:+ rest) = (Ok l, rest).
Proof.
  intros Hl Hn. unfold readLine, CRLF.
  replace (l +:+ _) with ((l +:+ String CR "") +:+ String LF rest)
    by (by rewrite string_app_assoc).
  rewrite ReadSlice_line, chomp_CR; [done | by rewrite no_LF_app, Hl |].
  pose proof (slen_app l (String CR "")) as E. unfold slen, bufferSize in *. cbn in E. lia.
Qed.

Lemma readLine_sound drained s l rest :
  readLine drained s = (Ok l, rest) → no_LF l = true ∧ slen l + 2 ≤ 4096.
Proof.
  unfold readLine. intros H. destruct (ReadSlice bufferSize s) as [l' r' | |] eqn:E; try done.
  destruct (chomp l') as [out |] eqn:Ec; simplify_eq.
  apply ReadSlice_sound in E as (H1 & H2 & ->). apply chomp_sound in Ec as ->.
  rewrite no_LF_app in H1. apply andb_true_iff in H1 as [H1 _]. split; [done |].
  pose proof (slen_app l (String CR "")) as E. unfold slen, bufferSize in *. cbn in E. lia.
Qed.

Lemma split_at_app a b : split_at (String.length a) (a +:+ b) = Some (a, b).
Proof. induction a as [| c a IH]; [by destruct b |]. rewrite string_app_cons. cbn. by rewrite IH. Qed.

Lemma split_at_length n s a b : split_at n s = Some (a, b) → String.length a = n.
Proof.
  revert s a. induction n as [| n IH]; intros s a H; cbn in H; [by destruct s; simplify_eq |].
  destruct s as [| c s]; [done |]. destruct (split_at n s) as [[a' b'] |] eqn:E; simplify_eq.
  cbn. by rewrite (IH _ _ E).
Qed.

Lemma readBody_render drained s rest :
  readBody drained (slen s) (s +:+ CRLF +:+ rest) = (Ok s, rest).
Proof. unfold readBody, slen. by rewrite Nat2Z.id, split_at_app. Qed.

Lemma readBody_sound drained n s body rest :
  0 ≤ n → readBody drained n s = (Ok body, rest) → slen body = n.
Proof.
  unfold readBody, slen. intros Hn H. destruct (split_at _ s) as [[a b] |] eqn:E; [| done].
  apply split_at_length in E. destruct b as [| c [| d b]]; try done.
  destruct (Ascii.eqb c CR && Ascii.eqb d LF); simplify_eq. lia.
Qed.

Lemma all_digits_no_LF s : all_digits s = true → no_LF s = true.
Proof.
  induction s as [| c s IH]; [done |]. cbn [all_digits]. intros [Hc Hs]%andb_true_iff.
  change (negb (Ascii.eqb c LF) && no_LF s = true). rewrite (IH Hs), andb_true_r.
  by destruct c as [[] [] [] [] [] [] [] []].
Qed.

Lemma itoa_line n : in_int64 n → no_LF (itoa n) = true ∧ slen (itoa n) + 2 ≤ 4096.
Proof.
  intros Hn. unfold itoa.
  assert (∀ m, 0 ≤ m ≤ 2 ^ 63 → no_LF (digits m) = true ∧ slen (digits m) ≤ 19) as Hd.
  { intros m Hm. destruct (digits_spec m ltac:(lia)) as (H1 & _ & _ & H2).
    split; [by apply all_digits_no_LF |]. apply H2; lia. }
  destruct (Z.ltb_spec n 0).
  - destruct (Hd (- n)) as [H1 H2]; [int64 |]. split; [exact H1 |]. rewrite slen_cons. lia.
  - destruct (Hd n) as [H1 H2]; [int64 |]. split; [exact H1 | lia].
Qed.

Lemma readLine_itoa drained n rest :
  in_int64 n → readLine drained (itoa n +:+ CRLF +:+ rest) = (Ok (itoa n), rest).
Proof. intros [H1 H2]%itoa_line. by apply readLine_render. Qed.

Lemma readItems_render one items rest :
  (∀ item rest, item ∈ items → one (render item +:+ rest) = Some (Ok item, rest)) →
  readItems one (length items) (foldr (λ item out, render item +:+ out) "" items +:+ rest)
    = Some (Ok items, rest).
Proof.
  induction items as [| item items IH]; intros H; [done |]. cbn [length foldr readItems].
  rewrite string_app_assoc, H by set_solver. rewrite IH; [done |]. intros i r Hi. apply H. set_solver.
Qed.

(** Puts an encoded value into the shape the decoder takes apart. *)
Ltac onwire :=
  cbn -[CRLF itoa Z.of_nat readReply]; rewrite ?string_app_assoc, ?string_app_cons, ?string_app_assoc;
  cbn -[readLine readBody readItems CRLF itoa ParseInt maxBulkSize maxArrayLen Z.of_nat Z.ltb readReply].

Lemma decode_render (drained : string) (fuel : nat) (depth : Z) (r : reply) (rest : string)
    (Hr : within depth r) (Hf : maxNestDepth + 2 - depth ≤ Z.of_nat fuel) :
  readReply drained fuel depth (render r +:+ rest) = Some (Ok r, rest).
Proof.
  revert fuel rest Hf.
  induction Hr as [d typ s Hd Ht Hs Hl | d n Hd Hn | d s Hd Hs | d typ Hd Ht | d items Hd Hi _ IH];
    intros [| fuel] rest Hf; unfold maxNestDepth in *; try lia;
    cbn [readReply]; unfold maxNestDepth; rewrite (proj2 (Z.ltb_ge _ _)) by lia.
  - destruct Ht as [-> | ->]; onwire; by rewrite readLine_render.
  - onwire. by rewrite readLine_itoa, ParseInt_itoa.
  - onwire. pose proof (slen_nonneg s).
    assert (in_int64 (slen s)) by (change maxBulkSize with 67108864 in *; int64).
    rewrite readLine_itoa, ParseInt_itoa by done.
    rewrite (proj2 (Z.ltb_ge _ _)), (proj2 (Z.ltb_ge _ _)) by lia. by rewrite readBody_render.
  - destruct Ht as [-> | ->]; onwire; by rewrite readLine_itoa.
  - onwire.
    assert (in_int64 (Z.of_nat (length items))) by (change maxArrayLen with 1048576 in *; int64).
    rewrite readLine_itoa, ParseInt_itoa by done.
    rewrite (proj2 (Z.ltb_ge _ _)), (proj2 (Z.ltb_ge _ _)) by lia.
    rewrite Nat2Z.id, readItems_render; [done |]. intros i r Hin. apply IH; [done | lia].
Qed.

(** ** More bytes change nothing that was decoded *)

Lemma ReadSlice_more room s l rest more :
  ReadSlice room s = Line l rest → ReadSlice room (s +:+ more) = Line l (rest +:+ more).
Proof.
  intros (H1 & H2 & ->)%ReadSlice_sound. rewrite string_app_assoc, string_app_cons.
  by apply ReadSlice_line.
Qed.

Lemma readLine_more drained s l rest more :
  readLine drained s = (Ok l, rest) → readLine drained (s +:+ more) = (Ok l, rest +:+ more).
Proof.
  unfold readLine. destruct (ReadSlice bufferSize s) as [l' r | |] eqn:E; try done.
  rewrite (ReadSlice_more _ _ _ _ more E). destruct (chomp l'); intros; by simplify_eq.
Qed.

Lemma split_at_more n s a b more :
  split_at n s = Some (a, b) → split_at n (s +:+ more) = Some (a, b +:+ more).
Proof.
  revert s a. induction n as [| n IH]; intros [| c s] a H; cbn in H; simplify_eq;
    rewrite ?string_app_cons; cbn; [by destruct more | done |].
  destruct (split_at n s) as [[a' b'] |] eqn:E; simplify_eq. by rewrite (IH _ _ E).
Qed.

Lemma readBody_more drained n s body rest more :
  readBody drained n s = (Ok body, rest) → readBody drained n (s +:+ more) = (Ok body, rest +:+ more).
Proof.
  unfold readBody. destruct (split_at _ s) as [[a b] |] eqn:E; [| done].
  rewrite (split_at_more _ _ _ _ more E). destruct b as [| c [| d b]]; try done.
  rewrite !string_app_cons. destruct (_ && _); intros; by simplify_eq.
Qed.

Lemma readItems_more one n s items rest more :
  (∀ s item rest, one s = Some (Ok item, rest) → one (s +:+ more) = Some (Ok item, rest +:+ more)) →
  readItems one n s = Some (Ok items, rest) →
  readItems one n (s +:+ more) = Some (Ok items, rest +:+ more).
Proof.
  intros H1. revert s items. induction n as [| n IH]; intros s items H; cbn in *; [by simplify_eq |].
  destruct (one s) as [[[item | e] s1] |] eqn:E1; try done. rewrite (H1 _ _ _ E1).
  destruct (readItems one n s1) as [[[its | e] s2] |] eqn:E2; simplify_eq. by rewrite (IH _ _ E2).
Qed.

Lemma readReply_more drained fuel d s r rest more :
  readReply drained fuel d s = Some (Ok r, rest) →
  readReply drained fuel d (s +:+ more) = Some (Ok r, rest +:+ more).
Proof.
  revert d s r rest. induction fuel as [| fuel IH]; intros d s r rest; cbn [readReply]; [done |].
  destruct (maxNestDepth <? d); [done |]. destruct s as [| typ s]; [done |].
  rewrite string_app_cons. destruct (readLine drained s) as [[line | e] s1] eqn:El; [| done].
  rewrite (readLine_more _ _ _ _ more El).
  destruct (ParseInt line) as [n |];
    repeat (match goal with |- context [if ?b then _ else _] => destruct b end);
    try (intros; by simplify_eq).
  - destruct (readBody drained n s1) as [[body | e] s2] eqn:Eb; [| done].
    rewrite (readBody_more _ _ _ _ _ more Eb). intros; by simplify_eq.
  - destruct (readItems _ _ s1) as [[[items | e] s2] |] eqn:Ei; try done.
    rewrite (readItems_more _ _ _ _ _ more (λ s item rest, IH (d + 1) s item rest) Ei).
    intros; by simplify_eq.
Qed.

Lemma readItems_each (P : reply → Prop) one n s items rest :
  (∀ s item rest, one s = Some (Ok item, rest) → P item) →
  readItems one n s = Some (Ok items, rest) → length items = n ∧ ∀ item, item ∈ items → P item.
Proof.
  intros H1. revert s items. induction n as [| n IH]; intros s items H; cbn in H.
  { simplify_eq. split; [done | set_solver]. }
  destruct (one s) as [[[item | e] s1] |] eqn:E1; try done.
  destruct (readItems one n s1) as [[[its | e] s2] |] eqn:E2; simplify_eq.
  destruct (IH _ _ E2) as [Hl Hin]. split; [cbn; lia |]. apply H1 in E1. set_solver.
Qed.

(** C38: whatever a server sends, a decoded value is within the limits: nested at
    most eight deep, strings of at most 64 MiB, arrays of at most 2^20 items,
    lines of at most 4096 bytes, integers of 64 bits, and the fields of one kind
    of value only. *)
Theorem readReply_typed (drained : string) (fuel : nat) (depth : Z) (s : string) (r : reply)
    (rest : string) (H : readReply drained fuel depth s = Some (Ok r, rest)) :
  within depth r.
Proof.
  revert depth s r rest H. induction fuel as [| fuel IH]; intros d s r rest H; cbn [readReply] in H;
    [done |].
  destruct (Z.ltb_spec maxNestDepth d) as [| Hd]; [done |].
  destruct s as [| typ s]; [done |].
  destruct (readLine drained s) as [[line | e] s1] eqn:El; [| done].
  destruct (Ascii.eqb typ typeStatus || Ascii.eqb typ typeError) eqn:Et.
  { simplify_eq. apply readLine_sound in El as [H1 H2]. apply within_line; try done.
    apply orb_true_iff in Et as [->%Ascii.eqb_eq | ->%Ascii.eqb_eq]; auto. }
  destruct (Ascii.eqb_spec typ typeInt) as [-> | HnInt].
  { destruct (ParseInt line) as [n |] eqn:En; simplify_eq. apply within_int; [done |].
    unfold ParseInt in En. repeat case_match; simplify_eq.
    all: by match goal with E : bool_decide _ = true |- _ => apply bool_decide_eq_true in E end. }
  destruct (Ascii.eqb_spec typ typeBulk) as [-> | HnBulk].
  { destruct (ParseInt line) as [n |]; [| done].
    destruct (Z.ltb_spec n 0); [simplify_eq; apply within_null; auto |].
    destruct (Z.ltb_spec maxBulkSize n); [done |].
    destruct (readBody drained n s1) as [[body | e] s2] eqn:Eb; simplify_eq.
    apply readBody_sound in Eb; [| done]. apply within_bulk; [done | lia]. }
  destruct (Ascii.eqb_spec typ typeArray) as [-> | HnArray]; [| done].
  destruct (ParseInt line) as [n |]; [| done].
  destruct (Z.ltb_spec n 0); [simplify_eq; apply within_null; auto |].
  destruct (Z.ltb_spec maxArrayLen n); [done |].
  destruct (readItems _ _ s1) as [[[items | e] s2] |] eqn:Ei; simplify_eq.
  apply (readItems_each (within (d + 1))) in Ei as [Hl Hin]; [| by eauto].
  apply within_array; [done | lia | done].
Qed.

Lemma readItems_total one n s : (∀ s, one s ≠ None) → readItems one n s ≠ None.
Proof.
  intros H1. revert s. induction n as [| n IH]; intros s; cbn; [done |].
  destruct (one s) as [[[item | e] s1] |] eqn:E1; [| done | by destruct (H1 s)].
  destruct (readItems one n s1) as [[[its | e] s2] |] eqn:E2; [done | done |].
  by destruct (IH s1).
Qed.

(** C39: the decoder returns, with a value or an error, on every input: the
    fuel never runs out, since each level of nesting uses one and the ninth is
    refused. *)
Theorem readReply_total (drained s : string) : readReply drained depthFuel 0 s ≠ None.
Proof.
  assert (∀ fuel d s, maxNestDepth + 2 - d ≤ Z.of_nat fuel → 0 < Z.of_nat fuel →
    readReply drained fuel d s ≠ None) as Hgen; [| by apply Hgen].
  clear s. induction fuel as [| fuel IH]; intros d s Hf Hp; [lia |]. cbn [readReply].
  destruct (Z.ltb_spec maxNestDepth d); [done |].
  assert (∀ s, readReply drained fuel (d + 1) s ≠ None) as Hone by (intros; apply IH; lia).
  destruct s as [| typ s]; [done |]. destruct (readLine drained s) as [[line | e] s1]; [| done].
  destruct (ParseInt line) as [n |];
    repeat (match goal with |- context [if ?b then _ else _] => destruct b end; try done).
  - by destruct (readBody drained n s1) as [[] ?].
  - pose proof (readItems_total _ (Z.to_nat n) s1 Hone) as Hi.
    by destruct (readItems _ _ s1) as [[[] ?] |].
Qed.

(** C37: the decoder returns every value within the limits from its encoding,
    and leaves the bytes that follow it unread; and bytes that arrive later
    change nothing that was decoded. *)
Theorem readReply_render (drained : string) (depth : Z) (r : reply) (rest more : string)
    (Hr : within depth r) (Hd : 0 ≤ depth) :
  readReply drained depthFuel depth (render r +:+ rest) = Some (Ok r, rest) ∧
  readReply drained depthFuel depth ((render r +:+ rest) +:+ more) = Some (Ok r, rest +:+ more).
Proof.
  assert (readReply drained depthFuel depth (render r +:+ rest) = Some (Ok r, rest)) as H.
  { apply decode_render; [done |]. unfold depthFuel, maxNestDepth. lia. }
  split; [done | by apply readReply_more].
Qed.

Lemma encodeArgs_render buf args :
  encodeArgs buf args =
  buf +:+ foldr (λ item out, render item +:+ out) "" (r_arr (command args)).
Proof.
  unfold encodeArgs, command. cbn [r_arr]. revert buf.
  induction args as [| a args IH]; intros buf; [by rewrite string_app_empty_r |].
  cbn [foldl]. rewrite IH. cbn. by rewrite !string_app_assoc.
Qed.

Lemma encodeCommand_render buf args : encodeCommand buf args = buf +:+ render (command args).
Proof.
  unfold encodeCommand. rewrite encodeArgs_render. cbn -[Z.of_nat].
  by rewrite length_fmap, !string_app_assoc.
Qed.

Lemma command_within args :
  Z.of_nat (length args) ≤ maxArrayLen → (∀ a, a ∈ args → slen a ≤ maxBulkSize) →
  within 0 (command args).
Proof.
  intros Hn Ha. apply within_array; [done | by rewrite length_fmap |].
  intros item (a & -> & Hin)%list_elem_of_fmap. apply within_bulk; [done | auto].
Qed.

(** What [encodeCommand] writes is one value of the protocol, from which a
    reader recovers the arguments byte for byte, whatever bytes they hold. *)
Theorem command_roundtrip (drained : string) (args : list string) (rest : string)
    (Hn : Z.of_nat (length args) ≤ maxArrayLen) (Ha : ∀ a, a ∈ args → slen a ≤ maxBulkSize) :
  readReply drained depthFuel 0 (encodeCommand "" args +:+ rest) = Some (Ok (command args), rest).
Proof.
  rewrite encodeCommand_render, string_app_nil. apply decode_render; [| done].
  by apply command_within.
Qed.

(** A piece of an encoded value decodes to nothing but that value, and only
    when it is whole. *)
Lemma readReply_piece drained r piece lost r' rest :
  within 0 r → render r = piece +:+ lost →
  readReply drained depthFuel 0 piece = Some (Ok r', rest) → r' = r ∧ rest = "" ∧ lost = "".
Proof.
  intros Hr E H. apply (readReply_more _ _ _ _ _ _ lost) in H. rewrite <-E in H.
  pose proof (decode_render drained depthFuel 0 r "" Hr ltac:(done)) as H'.
  rewrite string_app_empty_r, H in H'. simplify_eq. by destruct rest, lost.
Qed.

(** The decoder itself never makes up an answer of the server. *)
Lemma readItems_no_server_error one n s m rest :
  (∀ s rest, one s ≠ Some (Err (ServerError m), rest)) →
  readItems one n s ≠ Some (Err (ServerError m), rest).
Proof.
  intros H1. revert s. induction n as [| n IH]; intros s; cbn; [done |].
  destruct (one s) as [[[item | e] s1] |] eqn:E; [| | done].
  - specialize (IH s1). by destruct (readItems one n s1) as [[[] ?] |].
  - intros ?. simplify_eq. by eapply H1.
Qed.

Lemma readReply_no_server_error drained fuel d s m rest :
  readReply drained fuel d s ≠ Some (Err (ServerError m), rest).
Proof.
  revert d s rest. induction fuel as [| fuel IH]; intros d s rest; cbn [readReply]; [done |].
  destruct (maxNestDepth <? d); [done |]. destruct s as [| typ s]; [done |].
  destruct (readLine drained s) as [[line | e] s1] eqn:El.
  2: { unfold readLine in El. repeat case_match; by simplify_eq. }
  destruct (ParseInt line) as [n |];
    repeat (match goal with |- context [if ?b then _ else _] => destruct b end); try done.
  - destruct (readBody drained n s1) as [[body | e] s2] eqn:Eb; [done |].
    unfold readBody in Eb. repeat case_match; by simplify_eq.
  - pose proof (readItems_no_server_error (readReply drained fuel (d + 1)) (Z.to_nat n) s1 m) as Hi.
    destruct (readItems _ _ s1) as [[[] r] |]; try done. intros ?. simplify_eq. by eapply Hi.
Qed.

(** A value of every kind, nested. *)
Definition sample_reply : reply :=
  mkReply typeArray "" 0
    [mkReply typeStatus "OK" 0 [] false; mkReply typeError "ERR no" 0 [] false;
     mkReply typeInt "" (-42) [] false; mkReply typeBulk (String LF (String CR "x")) 0 [] false;
     mkReply typeBulk "" 0 [] true;
     mkReply typeArray "" 0 [mkReply typeArray "" 0 [] true] false] false.

Lemma sample_within : within 0 sample_reply.
Proof.
  apply within_array; [done | vm_compute; discriminate |].
  intros item Hi. repeat (apply elem_of_cons in Hi as [-> | Hi]); [.. | by apply not_elem_of_nil in Hi].
  - apply within_line; [done | by left | done | by vm_compute].
  - apply within_line; [done | by right | done | by vm_compute].
  - apply within_int; [done | split; by vm_compute].
  - apply within_bulk; [done | by vm_compute].
  - apply within_null; [done | by left].
  - apply within_array; [done | by vm_compute |]. intros item ->%list_elem_of_singleton.
    apply within_null; [done | by right].
Qed.

Lemma readReply_render_witness :
  readReply "EOF" depthFuel 0 (render sample_reply +:+ "next") = Some (Ok sample_reply, "next").
Proof. exact (proj1 (readReply_render "EOF" 0 sample_reply "next" "" sample_within ltac:(done))). Defined.

Lemma readReply_typed_witness : within 0 sample_reply.
Proof. exact (readReply_typed "EOF" depthFuel 0 (render sample_reply) sample_reply "" eq_refl). Defined.

Lemma command_roundtrip_witness :
  readReply "EOF" depthFuel 0 (encodeCommand "" ["SET"; "k"; String CR (String LF "v")] +:+ "rest")
  = Some (Ok (command ["SET"; "k"; String CR (String LF "v")]), "rest").
Proof.
  apply command_roundtrip; [by vm_compute |].
  intros a Ha. repeat (apply elem_of_cons in Ha as [-> | Ha]); [.. | by apply not_elem_of_nil in Ha];
    by vm_compute.
Defined.

(** A ninth level of nesting is refused. *)
Example too_deep :
  (readReply "EOF" depthFuel 0
    (foldr (λ _ s, String typeArray ("1" +:+ CRLF +:+ s)) (String typeInt ("7" +:+ CRLF)) (seq 0 9)))
  = Some (Err errProtocol, String typeInt ("7" +:+ CRLF)).
Proof. reflexivity. Qed.
