(* ===== verification/MemoryCache.v ===== *)
(** The in-process cache: [src/src/cache/memory.go].

    The cache keeps a map of entries and a list of keys, the most recently used
    first; the element an entry points to is the place of its key in the list.
    Every method runs under the mutex, and the janitor's sweeps are operations
    among the others, so a history is a sequence of whole operations, each with
    the time and the context it saw.  The specification is a list of entries in
    order of use, cut off at the bound; the map and the list implement it. *)
From stdpp Require Import prelude strings list gmap.
From Stdlib Require Import ZArith Lia.
From S2P Require Import Prelude GoTime Resp.

(** * The cache *)

(** The sentinels of cache.go, the error of a context, and what the remote
    backend passes on from its connection. *)
Inductive CacheError :=
| ErrClosed | ErrEmptyKey | ErrEmptyPrefix | ErrUnsupported | ErrLockTTL
| ErrCtx (text : string)
| ErrRemote (e : RespError).

(** Instants in nanoseconds; the zero time says the entry never expires. *)
Definition no_expiry : Z := zero_time * 1000000000.

Record memoryEntry := mkEntry { val : string; expiresAt : Z }.

Definition expired (e : memoryEntry) (now : Z) : bool :=
  negb (expiresAt e =? no_expiry) && (expiresAt e <? now).

Record memoryCache := mkCache
  { entries : gmap string memoryEntry; lru : list string; maxEntries : Z; closed : bool }.

Definition DefaultMaxEntries : Z := 10000.

Definition newMemory (maxEntries : Z) : memoryCache :=
  mkCache ∅ [] (if maxEntries <=? 0 then DefaultMaxEntries else maxEntries) false.

(** [list.Remove] of the element of a key. *)
Definition remove_key (k : string) (l : list string) : list string :=
  List.filter (λ x, negb (x =s k)) l.

Definition moveToFront (k : string) (l : list string) : list string := k :: remove_key k l.

Definition removeLocked (k : string) (c : memoryCache) : memoryCache :=
  mkCache (delete k (entries c)) (remove_key k (lru c)) (maxEntries c) (closed c).

(** The eviction loop; every round shortens the list. *)
Fixpoint evict (fuel : nat) (c : memoryCache) : memoryCache :=
  match fuel with
  | O => c
  | S f =>
      if maxEntries c <? Z.of_nat (size (entries c)) then
        match rev (lru c) with
        | [] => c
        | back :: _ => evict f (removeLocked back c)
        end
      else c
  end.

Definition expiry (ttl now : Z) : Z := if 0 <? ttl then now + ttl else no_expiry.

Definition storeLocked (k : string) (v : string) (ttl now : Z) (c : memoryCache) : memoryCache :=
  let e := mkEntry v (expiry ttl now) in
  match entries c !! k with
  | Some _ => mkCache (<[k := e]> (entries c)) (moveToFront k (lru c)) (maxEntries c) (closed c)
  | None =>
      let c := mkCache (<[k := e]> (entries c)) (k :: lru c) (maxEntries c) (closed c) in
      evict (length (lru c)) c
  end.

(** What the outside shows an operation: the state of its context, the clock. *)
Record Moment := mkMoment { at_ctx : option string; at_now : Z }.

(** The checks every method starts with. *)
Definition guarded {A} (t : Moment) (bad : option CacheError) (c : memoryCache)
    (body : Result CacheError A * memoryCache) : Result CacheError A * memoryCache :=
  match at_ctx t with
  | Some text => (Err (ErrCtx text), c)
  | None =>
      match bad with
      | Some e => (Err e, c)
      | None => if closed c then (Err ErrClosed, c) else body
      end
  end.

Definition empty_key (k : string) : option CacheError := if k =s "" then Some ErrEmptyKey else None.

Definition Get (t : Moment) (k : string) (c : memoryCache)
    : Result CacheError (option string) * memoryCache :=
  guarded t (empty_key k) c
    match entries c !! k with
    | None => (Ok None, c)
    | Some e =>
        if expired e (at_now t) then (Ok None, removeLocked k c)
        else (Ok (Some (val e)), mkCache (entries c) (moveToFront k (lru c)) (maxEntries c) (closed c))
    end.

Definition Set_ (t : Moment) (k : string) (v : string) (ttl : Z) (c : memoryCache)
    : Result CacheError () * memoryCache :=
  guarded t (empty_key k) c (Ok (), storeLocked k v ttl (at_now t) c).

Definition SetNX (t : Moment) (k : string) (v : string) (ttl : Z) (c : memoryCache)
    : Result CacheError bool * memoryCache :=
  guarded t (empty_key k) c
    match entries c !! k with
    | Some e =>
        if negb (expired e (at_now t)) then (Ok false, c)
        else (Ok true, storeLocked k v ttl (at_now t) (removeLocked k c))
    | None => (Ok true, storeLocked k v ttl (at_now t) c)
    end.

Definition Delete (t : Moment) (k : string) (c : memoryCache) : Result CacheError () * memoryCache :=
  guarded t (empty_key k) c
    (Ok (), match entries c !! k with Some _ => removeLocked k c | None => c end).

(** Removing, one by one, the keys of the map that satisfy a test. *)
Definition removeWhere (p : string → memoryEntry → bool) (c : memoryCache) : memoryCache :=
  fold_left (λ c kv, if p kv.1 kv.2 then removeLocked kv.1 c else c) (map_to_list (entries c)) c.

Definition DeletePrefix (t : Moment) (prefix : string) (c : memoryCache)
    : Result CacheError () * memoryCache :=
  guarded t (if prefix =s "" then Some ErrEmptyPrefix else None) c
    (Ok (), removeWhere (λ k _, HasPrefix k prefix) c).

Definition Close (c : memoryCache) : memoryCache :=
  if closed c then c else mkCache ∅ [] (maxEntries c) true.

Definition Len (c : memoryCache) : Z := Z.of_nat (size (entries c)).

Definition sweep (now : Z) (c : memoryCache) : memoryCache :=
  if closed c then c else removeWhere (λ _ e, expired e now) c.

(** * Histories *)

Inductive Op :=
| OGet (t : Moment) (k : string)
| OSet (t : Moment) (k : string) (v : string) (ttl : Z)
| OSetNX (t : Moment) (k : string) (v : string) (ttl : Z)
| ODelete (t : Moment) (k : string)
| ODeletePrefix (t : Moment) (prefix : string)
| OClose
| OLen
| OSweep (now : Z).

Inductive Reply :=
| RValue (r : Result CacheError (option string))
| RDone (r : Result CacheError ())
| RBool (r : Result CacheError bool)
| RLen (n : Z)
| RNone.

Definition exec (op : Op) (c : memoryCache) : Reply * memoryCache :=
  match op with
  | OGet t k => let '(r, c') := Get t k c in (RValue r, c')
  | OSet t k v ttl => let '(r, c') := Set_ t k v ttl c in (RDone r, c')
  | OSetNX t k v ttl => let '(r, c') := SetNX t k v ttl c in (RBool r, c')
  | ODelete t k => let '(r, c') := Delete t k c in (RDone r, c')
  | ODeletePrefix t p => let '(r, c') := DeletePrefix t p c in (RDone r, c')
  | OClose => (RNone, Close c)
  | OLen => (RLen (Len c), c)
  | OSweep now => (RNone, sweep now c)
  end.

Fixpoint run {S} (exec : Op → S → Reply * S) (ops : list Op) (s : S) : list Reply * S :=
  match ops with
  | [] => ([], s)
  | op :: rest =>
      let '(r, s1) := exec op s in let '(rs, s2) := run exec rest s1 in (r :: rs, s2)
  end.

(** * The specification *)

(** Entries in order of use, the latest first; [None] once closed. *)
Record Spec := mkSpec { sp_entries : list (string * memoryEntry); sp_max : Z; sp_closed : bool }.

Definition sp_find (k : string) (s : Spec) : option memoryEntry := assoc k (sp_entries s).

Definition without (p : string * memoryEntry → bool) (s : Spec) : Spec :=
  mkSpec (List.filter (λ kv, negb (p kv)) (sp_entries s)) (sp_max s) (sp_closed s).

Definition same_key (k : string) (kv : string * memoryEntry) : bool := kv.1 =s k.

(** A use puts an entry in front; what no longer fits falls off the end. *)
Definition in_front (k : string) (e : memoryEntry) (s : Spec) : Spec :=
  mkSpec (take (Z.to_nat (sp_max s)) ((k, e) :: sp_entries (without (same_key k) s)))
    (sp_max s) (sp_closed s).

Definition sp_guard {A} (t : Moment) (bad : option CacheError) (s : Spec)
    (body : Result CacheError A * Spec) : Result CacheError A * Spec :=
  match at_ctx t, bad with
  | Some text, _ => (Err (ErrCtx text), s)
  | None, Some e => (Err e, s)
  | None, None => if sp_closed s then (Err ErrClosed, s) else body
  end.

Definition live (k : string) (now : Z) (s : Spec) : option memoryEntry :=
  match sp_find k s with Some e => if expired e now then None else Some e | None => None end.

Definition sp_exec (op : Op) (s : Spec) : Reply * Spec :=
  match op with
  | OGet t k =>
      let '(r, s') := sp_guard t (empty_key k) s
        match live k (at_now t) s with
        | Some e => (Ok (Some (val e)), in_front k e s)
        | None => (Ok None, without (same_key k) s)
        end in (RValue r, s')
  | OSet t k v ttl =>
      let '(r, s') := sp_guard t (empty_key k) s
        (Ok (), in_front k (mkEntry v (expiry ttl (at_now t))) s) in (RDone r, s')
  | OSetNX t k v ttl =>
      let '(r, s') := sp_guard t (empty_key k) s
        match live k (at_now t) s with
        | Some _ => (Ok false, s)
        | None => (Ok true, in_front k (mkEntry v (expiry ttl (at_now t))) s)
        end in (RBool r, s')
  | ODelete t k =>
      let '(r, s') := sp_guard t (empty_key k) s (Ok (), without (same_key k) s) in (RDone r, s')
  | ODeletePrefix t p =>
      let '(r, s') := sp_guard t (if p =s "" then Some ErrEmptyPrefix else None) s
        (Ok (), without (λ kv, HasPrefix kv.1 p) s) in (RDone r, s')
  | OClose => (RNone, if sp_closed s then s else mkSpec [] (sp_max s) true)
  | OLen => (RLen (Z.of_nat (length (sp_entries s))), s)
  | OSweep now => (RNone, if sp_closed s then s else without (λ kv, expired kv.2 now) s)
  end.

Definition sp_new (maxEntries : Z) : Spec :=
  mkSpec [] (if maxEntries <=? 0 then DefaultMaxEntries else maxEntries) false.

(** * The map and the list hold the specified entries *)

Definition holds (ent : gmap string memoryEntry) (ks : list string)
    (l : list (string * memoryEntry)) : Prop :=
  map fst l = ks ∧ NoDup ks ∧ ∀ k e, ent !! k = Some e ↔ (k, e) ∈ l.

Lemma holds_find ent ks l k : holds ent ks l → assoc k l = ent !! k.
Proof.
  intros (<- & Hnd & He). destruct (ent !! k) as [e|] eqn:E.
  - apply He in E. clear He. induction l as [|[k' e'] l IH]; simpl in *; [by apply not_elem_of_nil in E|].
    apply NoDup_cons in Hnd as [Hk Hnd]. apply elem_of_cons in E as [[= <- <-]|E]; [by rewrite seqb_refl|].
    destruct (k =s k') eqn:Ek; [|by apply IH]. apply seqb_eq in Ek as <-. exfalso. apply Hk.
    apply list_elem_of_fmap. by exists (k, e).
  - destruct (assoc k l) as [e|] eqn:Ea; [|done]. apply assoc_Some_in, He in Ea. congruence.
Qed.

Lemma holds_perm ent ks l : holds ent ks l → map_to_list ent ≡ₚ l.
Proof.
  intros (<- & Hnd & He). apply NoDup_Permutation.
  - apply NoDup_map_to_list.
  - by apply NoDup_fmap_1 in Hnd.
  - intros [k e]. by rewrite elem_of_map_to_list, He.
Qed.

Lemma holds_size ent ks l : holds ent ks l → size ent = length l.
Proof. intros H. rewrite <-(holds_perm _ _ _ H). by rewrite length_map_to_list. Qed.

Lemma holds_remove ent ks l k : holds ent ks l →
  holds (delete k ent) (remove_key k ks) (List.filter (λ kv, negb (same_key k kv)) l).
Proof.
  intros (<- & Hnd & He). split; [|split].
  - clear. induction l as [|[k' e'] l IH]; simpl; [done|].
    change (same_key k (k', e')) with (k' =s k). destruct (k' =s k); simpl; [done|by rewrite IH].
  - unfold remove_key. clear -Hnd. induction Hnd as [|x xs Hx Hnd IH]; simpl; [constructor|].
    destruct (negb (x =s k)); [|done]. constructor; [|done].
    rewrite list_elem_of_In, filter_In, <-list_elem_of_In. naive_solver.
  - intros k' e'. rewrite list_elem_of_In, filter_In, <-list_elem_of_In, <-He, negb_true_iff.
    change (same_key k (k', e')) with (k' =s k). rewrite seqb_neq.
    rewrite lookup_delete_Some. naive_solver.
Qed.

Lemma filter_absent ent ks l k : holds ent ks l → ent !! k = None →
  List.filter (λ kv, negb (same_key k kv)) l = l ∧ remove_key k ks = ks.
Proof.
  intros (<- & _ & He) Hk. assert (∀ kv, kv ∈ l → same_key k kv = false) as H.
  { intros [k' e'] Hin. apply seqb_neq. simpl. intros ->. apply He in Hin. congruence. }
  clear -H. induction l as [|x l IH]; simpl; [done|]. unfold remove_key. simpl.
  rewrite (H x) by left. simpl. destruct IH as [I1 I2]; [intros kv Hkv; apply H; by right|].
  unfold same_key in H. rewrite (H x) by left. simpl. unfold remove_key in I2. by rewrite I1, I2.
Qed.

Lemma holds_front ent ks l k e : holds ent ks l →
  holds (<[k := e]> ent) (moveToFront k ks) ((k, e) :: List.filter (λ kv, negb (same_key k kv)) l).
Proof.
  intros H. pose proof (holds_remove _ _ _ k H) as (H1 & H2 & H3). split; [|split].
  - simpl. unfold moveToFront. by rewrite H1.
  - constructor; [|done]. unfold remove_key. rewrite list_elem_of_In, filter_In, negb_true_iff, seqb_neq.
    by intros [_ ?].
  - intros k' e'. rewrite elem_of_cons, <-H3, lookup_insert_Some, lookup_delete_Some. naive_solver.
Qed.

(** The relation between the cache and its specification. *)
Definition implements (c : memoryCache) (s : Spec) : Prop :=
  holds (entries c) (lru c) (sp_entries s) ∧ maxEntries c = sp_max s ∧ closed c = sp_closed s ∧
  0 < sp_max s ∧ Z.of_nat (length (sp_entries s)) ≤ sp_max s.

Lemma implements_find c s k : implements c s → sp_find k s = entries c !! k.
Proof. intros (H & _). by eapply holds_find. Qed.

Lemma filter_length {A} (p : A → bool) l : (length (List.filter p l) ≤ length l)%nat.
Proof. induction l as [|x l IH]; simpl; [lia|]. destruct (p x); simpl; lia. Qed.

Lemma implements_remove c s k : implements c s → implements (removeLocked k c) (without (same_key k) s).
Proof.
  intros (H & Hm & Hc & Hp & Hl). split; [by apply holds_remove|]. repeat split; try done. simpl.
  pose proof (filter_length (λ kv, negb (same_key k kv)) (sp_entries s)). lia.
Qed.

Lemma without_absent c s k : implements c s → entries c !! k = None → without (same_key k) s = s.
Proof.
  intros (H & _) Hk. unfold without. rewrite (proj1 (filter_absent _ _ _ _ H Hk)). by destruct s.
Qed.

(** Using an entry that is there. *)
Lemma implements_front c s k e e0 : implements c s → entries c !! k = Some e0 →
  implements (mkCache (<[k := e]> (entries c)) (moveToFront k (lru c)) (maxEntries c) (closed c))
    (in_front k e s).
Proof.
  intros (H & Hm & Hc & Hp & Hl) Hk. pose proof (holds_front _ _ _ k e H) as Hf.
  assert (length ((k, e) :: List.filter (λ kv, negb (same_key k kv)) (sp_entries s)) = length (sp_entries s)) as Hlen.
  { rewrite <-(holds_size _ _ _ Hf), <-(holds_size _ _ _ H). by rewrite map_size_insert, Hk. }
  unfold in_front, without. cbn [sp_entries]. rewrite take_ge by (rewrite Hlen; lia).
  split; [done|]. do 3 (split; [done|]). cbn [sp_entries sp_max]. rewrite Hlen. lia.
Qed.

Lemma removelast_take {A} (l : list A) x : take (length l) (l ++ [x]) = l.
Proof. by rewrite take_app_length. Qed.

(** Storing under a new key: at most one entry is evicted, the last one. *)
Lemma implements_new c s k e : implements c s → entries c !! k = None →
  let c1 := mkCache (<[k := e]> (entries c)) (k :: lru c) (maxEntries c) (closed c) in
  implements (evict (length (lru c1)) c1) (in_front k e s).
Proof.
  intros (H & Hm & Hc & Hp & Hl) Hk c1. destruct (filter_absent _ _ _ _ H Hk) as [F1 F2].
  pose proof (holds_front _ _ _ k e H) as Hf. unfold moveToFront in Hf. rewrite F1, F2 in Hf.
  pose proof (holds_size _ _ _ Hf) as Hsize.
  unfold in_front, without. cbn [sp_entries]. rewrite F1.
  change (length (lru c1)) with (S (length (lru c))). cbn [evict]. cbn [maxEntries entries lru c1].
  rewrite Hsize, Hm. destruct (Z.ltb_spec (sp_max s) (Z.of_nat (length ((k, e) :: sp_entries s)))) as [Hlt|Hge].
  - cbn [length] in Hlt. assert (length (sp_entries s) = Z.to_nat (sp_max s)) as Hfull by lia.
    destruct (sp_entries s) as [|x A _] eqn:EA using rev_ind; [simpl in Hfull; lia|].
    destruct x as [b eb]. destruct H as (HL & Hnd & HE).
    assert (lru c = map fst A ++ [b]) as Hlru by (by rewrite <-HL, map_app).
    rewrite Hlru. change (k :: map fst A ++ [b]) with ((k :: map fst A) ++ [b]). rewrite rev_app_distr.
    cbn [rev app]. pose proof (holds_remove _ _ _ b Hf) as Hr.
    assert (∀ kv, kv ∈ (k, e) :: A → same_key b kv = false) as Hb.
    { intros kv Hkv. apply seqb_neq. intros <-. destruct Hf as (_ & Hnd' & _).
      rewrite Hlru in Hnd'. change (k :: map fst A ++ [kv.1]) with ((k :: map fst A) ++ [kv.1]) in Hnd'.
      apply NoDup_app in Hnd' as (_ & Hd & _). apply (Hd kv.1); [|by apply list_elem_of_singleton].
      change (k :: map fst A) with (map fst ((k, e) :: A)). apply list_elem_of_fmap. by exists kv. }
    assert (List.filter (λ kv, negb (same_key b kv)) (((k, e) :: A) ++ [(b, eb)]) = (k, e) :: A) as Hfil.
    { rewrite List.filter_app.
      assert (List.filter (λ kv, negb (same_key b kv)) [(b, eb)] = []) as ->.
      { simpl. unfold same_key. simpl. by rewrite seqb_refl. }
      rewrite app_nil_r. clear -Hb. induction ((k, e) :: A) as [|y ys IH]; simpl; [done|].
      rewrite (Hb y) by left. simpl. f_equal. apply IH. intros z Hz. apply Hb. by right. }
    change ((k, e) :: A ++ [(b, eb)]) with (((k, e) :: A) ++ [(b, eb)]) in *.
    rewrite Hfil in Hr. rewrite length_app in Hfull. simpl in Hfull.
    replace (Z.to_nat (sp_max s)) with (length ((k, e) :: A)) by (simpl; lia). rewrite removelast_take.
    set (c2 := removeLocked b c1).
    assert (∀ f, evict f c2 = c2) as ->.
    { intros [|f]; simpl; [done|]. rewrite (holds_size _ _ _ Hr), Hm. simpl.
      destruct (Z.ltb_spec (sp_max s) (Z.of_nat (S (length A)))); [lia|done]. }
    split; [|simpl; repeat split; try done; lia].
    cbn [entries lru c2 removeLocked c1 sp_entries]. exact Hr.
  - rewrite take_ge by lia. split; [exact Hf|]. by repeat split.
Qed.

Lemma implements_store c s k v ttl now : implements c s →
  implements (storeLocked k v ttl now c) (in_front k (mkEntry v (expiry ttl now)) s).
Proof.
  intros H. unfold storeLocked. destruct (entries c !! k) as [e0|] eqn:E.
  - by eapply implements_front.
  - by apply implements_new.
Qed.

(** Removing what satisfies a test, in any order, is filtering. *)
Lemma implements_where c s p : implements c s →
  implements (removeWhere p c) (without (λ kv, p kv.1 kv.2) s).
Proof.
  intros H. unfold removeWhere.
  assert (∀ l c s, implements c s → NoDup (map fst l) →
    implements (fold_left (λ c kv, if p kv.1 kv.2 then removeLocked kv.1 c else c) l c)
      (without (λ kv, existsb (λ x, same_key x.1 kv && p x.1 x.2) l) s)) as Hfold.
  { clear. induction l as [|[k e] l IH]; intros c s H Hnd; simpl.
    - unfold without. simpl. assert (List.filter (λ _, true) (sp_entries s) = sp_entries s) as ->.
      { clear. induction (sp_entries s) as [|x xs IH]; simpl; [done|]. by rewrite IH. }
      by destruct s.
    - apply NoDup_cons in Hnd as [Hk Hnd]. simpl. destruct (p k e) eqn:Ep.
      + specialize (IH _ _ (implements_remove c s k H) Hnd).
        assert (without (λ kv, same_key k kv && true || existsb (λ x, same_key x.1 kv && p x.1 x.2) l) s =
          without (λ kv, existsb (λ x, same_key x.1 kv && p x.1 x.2) l) (without (same_key k) s)) as ->; [|done].
        unfold without. simpl. f_equal. clear. induction (sp_entries s) as [|x xs IH]; simpl; [done|].
        rewrite andb_true_r. destruct (same_key k x); simpl; [done|].
        destruct (existsb _ l); simpl; [done|by rewrite IH].
      + specialize (IH _ _ H Hnd).
        assert (without (λ kv, same_key k kv && false || existsb (λ x, same_key x.1 kv && p x.1 x.2) l) s =
          without (λ kv, existsb (λ x, same_key x.1 kv && p x.1 x.2) l) s) as ->; [|done].
        unfold without. f_equal. apply filter_ext. intros kv. by rewrite andb_false_r. }
  specialize (Hfold (map_to_list (entries c)) c s H (NoDup_fst_map_to_list _)).
  assert (without (λ kv, p kv.1 kv.2) s =
    without (λ kv, existsb (λ x, same_key x.1 kv && p x.1 x.2) (map_to_list (entries c))) s) as ->; [|done].
  unfold without. f_equal. apply filter_ext_in. intros [k e] Hin%list_elem_of_In. f_equal. simpl.
  destruct H as ((_ & Hnd & He) & _). apply He in Hin. apply eq_true_iff_eq. rewrite existsb_exists. split.
  - intros Hp. exists (k, e). split; [by apply list_elem_of_In, elem_of_map_to_list|].
    unfold same_key. simpl. by rewrite seqb_refl.
  - intros ([k' e'] & Hin'%list_elem_of_In & Hp). apply andb_true_iff in Hp as [Hk Hp].
    unfold same_key in Hk. simpl in *. apply seqb_eq in Hk as <-.
    apply elem_of_map_to_list in Hin'. congruence.
Qed.

Lemma in_front_without k e s : in_front k e (without (same_key k) s) = in_front k e s.
Proof.
  unfold in_front, without. simpl. do 3 f_equal. induction (sp_entries s) as [|x xs IH]; simpl; [done|].
  destruct (same_key k x) eqn:E; simpl; [done|]. by rewrite E, IH.
Qed.

(** One operation: the same answer, and the relation is kept. *)
Lemma exec_refines op c s : implements c s →
  (exec op c).1 = (sp_exec op s).1 ∧ implements (exec op c).2 (sp_exec op s).2.
Proof.
  intros H. pose proof H as (Hh & Hm & Hc & Hp & Hl).
  assert (∀ A t bad (b1 : Result CacheError A * memoryCache) b2,
    b1.1 = b2.1 ∧ implements b1.2 b2.2 →
    (guarded t bad c b1).1 = (sp_guard t bad s b2).1 ∧
    implements (guarded t bad c b1).2 (sp_guard t bad s b2).2) as Hguard.
  { intros A t bad b1 b2 Hb. unfold guarded, sp_guard. destruct (at_ctx t); [done|].
    destruct bad; [done|]. rewrite Hc. by destruct (sp_closed s). }
  destruct op as [t k|t k v ttl|t k v ttl|t k|t p| | |now]; simpl;
    unfold Get, Set_, SetNX, Delete, DeletePrefix;
    try match goal with
    | |- context [guarded ?t ?bad c ?b1] =>
        match goal with |- context [sp_guard t bad s ?b2] =>
          let H1 := fresh "G" in
          assert (b1.1 = b2.1 ∧ implements b1.2 b2.2) as H1;
          [|apply (Hguard _ t bad) in H1; destruct (guarded t bad c b1), (sp_guard t bad s b2);
            simpl in *; destruct H1 as [-> ?]; done]
        end
    end.
  - unfold live. rewrite (implements_find _ _ k H). destruct (entries c !! k) as [e|] eqn:E.
    + destruct (expired e (at_now t)); simpl; (split; [done|]); [by apply implements_remove|].
      rewrite <-(insert_id (entries c) k e) at 1 by done. by eapply implements_front.
    + simpl. split; [done|]. by rewrite (without_absent _ _ _ H E).
  - split; [done|]. by apply implements_store.
  - unfold live. rewrite (implements_find _ _ k H). destruct (entries c !! k) as [e|] eqn:E.
    + destruct (expired e (at_now t)); simpl; (split; [done|]); [|done].
      rewrite <-in_front_without. by apply implements_store, implements_remove.
    + simpl. split; [done|]. by apply implements_store.
  - split; [done|]. simpl. destruct (entries c !! k) eqn:E; [by apply implements_remove|].
    by rewrite (without_absent _ _ _ H E).
  - split; [done|]. by apply (implements_where c s (λ k _, HasPrefix k p)).
  - split; [done|]. unfold Close. rewrite Hc. destruct (sp_closed s); [done|].
    split; [|simpl; repeat split; (done || lia)]. split; [done|]. split; [constructor|].
    intros k e. simpl. rewrite lookup_empty. split; [done|]. by intros ?%not_elem_of_nil.
  - split; [|done]. unfold Len. by rewrite (holds_size _ _ _ Hh).
  - split; [done|]. unfold sweep. rewrite Hc. destruct (sp_closed s); [done|].
    by apply (implements_where c s (λ _ e, expired e now)).
Qed.

Lemma implements_new_cache n : implements (newMemory n) (sp_new n).
Proof.
  split; [|simpl; repeat split; destruct (Z.leb_spec n 0); unfold DefaultMaxEntries; (done || lia)].
  split; [done|]. split; [constructor|]. intros k e. simpl. rewrite lookup_empty.
  split; [done|]. by intros ?%not_elem_of_nil.
Qed.

Lemma run_refines ops c s : implements c s →
  (run exec ops c).1 = (run sp_exec ops s).1 ∧ implements (run exec ops c).2 (run sp_exec ops s).2.
Proof.
  revert c s. induction ops as [|op ops IH]; intros c s H; simpl; [done|].
  destruct (exec_refines op c s H) as [H1 H2].
  destruct (exec op c) as [r c1], (sp_exec op s) as [r' s1]. simpl in *. subst r'.
  destruct (IH c1 s1 H2) as [I1 I2].
  destruct (run exec ops c1), (run sp_exec ops s1). simpl in *. by subst.
Qed.


Definition noon (now : Z) : Moment := mkMoment None now.

(** An entry that was stored is found until it expires, and is no longer
    found afterwards: a lookup right after a store, at any later time, gives the
    value exactly if the time to live is not positive or has not passed. *)
Theorem get_after_set n ops k v ttl t now c0
  (Hc0 : (run exec ops (newMemory n)).2 = c0) (Hopen : closed c0 = false)
  (Hk : k ≠ "") (Hexp : t + ttl ≠ no_expiry) :
  let c := (Set_ (noon t) k v ttl c0).2 in
  (Get (noon now) k c).1 = Ok (if (0 <? ttl) && (t + ttl <? now) then None else Some v).
Proof.
  cbv zeta. destruct (run_refines ops _ _ (implements_new_cache n)) as [_ H]. rewrite Hc0 in H.
  set (s := (run sp_exec ops (sp_new n)).2) in *.
  destruct (exec_refines (OSet (noon t) k v ttl) c0 s H) as [_ H1].
  assert ((exec (OSet (noon t) k v ttl) c0).2 = (Set_ (noon t) k v ttl c0).2) as E1
    by (simpl; by destruct (Set_ (noon t) k v ttl c0)).
  rewrite E1 in H1. destruct (exec_refines (OGet (noon now) k) _ _ H1) as [H2 _].
  assert (∀ c, (exec (OGet (noon now) k) c).1 = RValue (Get (noon now) k c).1) as E2
    by (intros c; simpl; by destruct (Get (noon now) k c)).
  rewrite E2 in H2. destruct H as (_ & _ & Hcl & Hp & _). rewrite Hopen in Hcl.
  apply seqb_neq in Hk. revert H2. cbn [sp_exec]. unfold sp_guard, empty_key, noon. cbn [at_ctx at_now]. rewrite Hk.
  rewrite <-Hcl. cbn [snd sp_closed in_front]. rewrite <-Hcl. unfold live, sp_find, in_front. cbn [sp_entries].
  destruct (Z.to_nat (sp_max s)) as [|m] eqn:Em; [lia|]. cbn [take assoc]. rewrite seqb_refl.
  unfold expired, expiry. cbn [expiresAt].
  destruct (Z.ltb_spec 0 ttl); cbn [andb].
  - destruct (Z.eqb_spec (t + ttl) no_expiry); [done|]. cbn [negb andb].
    destruct (t + ttl <? now); intros [= ->]; done.
  - rewrite Z.eqb_refl. cbn [negb andb]. by intros [= ->].
Qed.

(** A cache of two entries forgets the one used least recently. *)
Example lru_eviction :
  let set k := OSet (noon 0) k "x" 0 in
  (run exec [set "a"; set "b"; OGet (noon 1) "a"; set "c"; OGet (noon 2) "b"; OGet (noon 2) "a"; OLen]
     (newMemory 2)).1 =
  [RDone (Ok ()); RDone (Ok ()); RValue (Ok (Some "x")); RDone (Ok ()); RValue (Ok None);
   RValue (Ok (Some "x")); RLen 2].
Proof. vm_compute. reflexivity. Qed.

Lemma get_after_set_witness :
  let c0 := (run exec [OSet (noon 0) "a" "x" 0] (newMemory 1)).2 in
  let c := (Set_ (noon 5) "b" "y" 10 c0).2 in
  (Get (noon 15) "b" c).1 = Ok (Some "y") ∧ (Get (noon 16) "b" c).1 = Ok None.
Proof.
  cbv zeta. split.
  - exact (get_after_set 1 [OSet (noon 0) "a" "x" 0] "b" "y" 10 5 15 _ eq_refl eq_refl ltac:(discriminate)
      ltac:(discriminate)).
  - exact (get_after_set 1 [OSet (noon 0) "a" "x" 0] "b" "y" 10 5 16 _ eq_refl eq_refl ltac:(discriminate)
      ltac:(discriminate)).
Defined.
