(* ===== verification/Valkey.v ===== *)
(** The remote cache: [src/src/cache/valkey.go], with the connections of
    [src/src/cache/resp.go].

    The server is a parameter: [serve c bytes s] is what it sends back on
    connection [c] for the bytes of one write, and the state it goes to.  The
    network is a parameter too: each dial or command meets a moment [Net], in
    which the dial, the deadline or the write may fail, the server may or may
    not have got the bytes of a failed write, and only a part of its answer may
    arrive.  [wire] records every command written, for the theorems.

    The pool is the channel of idle connections, first in, first out.  An
    operation runs from one state of the pool to the next; the theorems that
    hold from every state hold between the operations of other goroutines. *)
From stdpp Require Import prelude strings list gmap.
From Stdlib Require Import ZArith Lia Ascii.
From S2P Require Import Prelude GoTime Resp MemoryCache.

(** * Options *)

Record Options := mkOptions
  { Addr : string; Username : string; Password : string; DBNumber : Z; PoolSize : Z;
    DialTimeout : Z; Timeout : Z; KeyPrefix : string }.

Definition second : Z := 1000000000.
Definition defaultAddr : string := "127.0.0.1:6379".
Definition defaultPoolSize : Z := 8.
Definition defaultDialTimeout : Z := 5 * second.
Definition defaultTimeout : Z := 5 * second.
Definition scanBatch : Z := 200.
Definition deleteBatch : nat := 200.

Definition withCacheDefaults (o : Options) : Options :=
  mkOptions (if TrimSpace (Addr o) =s "" then defaultAddr else Addr o) (Username o) (Password o)
    (DBNumber o) (if PoolSize o <=? 0 then defaultPoolSize else PoolSize o)
    (if DialTimeout o <=? 0 then defaultDialTimeout else DialTimeout o)
    (if Timeout o <=? 0 then defaultTimeout else Timeout o) (KeyPrefix o).

(** Whole milliseconds, a shorter positive time counting as one. *)
Definition ttlMillis (ttl : Z) : Z :=
  if ttl <=? 0 then 0 else
  let ms := ttl /! 1000000 in if ms =? 0 then 1 else ms.

Definition glob_special (c : ascii) : bool :=
  existsb (Ascii.eqb c) ["*"; "?"; "["; "]"; "^"; "\"]%char.

Fixpoint globEscape (s : string) : string :=
  match s with
  | EmptyString => EmptyString
  | String c s' =>
      if glob_special c then String "\"%char (String c (globEscape s')) else String c (globEscape s')
  end.

(** * Connections *)

Record Net := mkNet
  { dial_err : option string; ctx_err : option string; deadline_err : option string;
    write_err : option string; delivered : bool;
    arrives : option nat;   (* a part of the answer, or all of it *)
    drained : string }.

Record respConn := mkConn { c_id : nat; c_unread : string }.

(** The first [n] bytes, or all there are. *)
Fixpoint take_bytes (n : nat) (s : string) : string :=
  match n, s with
  | S n', String c s' => String c (take_bytes n' s')
  | _, _ => EmptyString
  end.

Definition arrived (n : Net) (answer : string) : string :=
  match arrives n with Some k => take_bytes k answer | None => answer end.

(** A string the protocol carries. *)
Definition small (a : string) : Prop := slen a ≤ maxBulkSize.

Section remote.
Context {Server : Type} (serve : nat → string → Server → string * Server) (env : nat → Net).

Record Remote := mkRemote
  { v_opts : Options; v_closed : bool; v_pool : list respConn;
    nextConn : nat; tick : nat; server : Server; wire : list (nat * list string) }.

Definition tock (s : Remote) : Remote :=
  mkRemote (v_opts s) (v_closed s) (v_pool s) (nextConn s) (S (tick s)) (server s) (wire s).

(** A write of a command: the log has it, the server goes to [srv]. *)
Definition written (c : nat) (args : list string) (srv : Server) (s : Remote) : Remote :=
  mkRemote (v_opts s) (v_closed s) (v_pool s) (nextConn s) (tick s) srv (wire s ++ [(c, args)]).

Definition with_pool (p : list respConn) (s : Remote) : Remote :=
  mkRemote (v_opts s) (v_closed s) p (nextConn s) (tick s) (server s) (wire s).

Definition connDo (c : respConn) (args : list string) (s : Remote)
    : Result RespError reply * respConn * Remote :=
  match args with
  | [] => (Err errEmptyCommand, c, s)
  | _ =>
      let n := env (tick s) in
      let s := tock s in
      match ctx_err n, deadline_err n with
      | Some t, _ | None, Some t => (Err (IOError t), c, s)
      | None, None =>
          let '(answer, srv) := serve (c_id c) (encodeCommand "" args) (server s) in
          match write_err n with
          | Some t =>
              (Err (IOError t), c, written (c_id c) args (if delivered n then srv else server s) s)
          | None =>
              let s := written (c_id c) args srv s in
              let unread := c_unread c +:+ arrived n answer in
              match readReply (drained n) depthFuel 0 unread with
              | Some (Ok rp, rest) =>
                  let c := mkConn (c_id c) rest in
                  if Ascii.eqb (r_typ rp) typeError then (Err (ServerError (r_str rp)), c, s)
                  else (Ok rp, c, s)
              | Some (Err e, rest) => (Err e, mkConn (c_id c) rest, s)
              | None => (Err errProtocol, c, s)
              end
          end
      end
  end.

Definition isServerError (e : RespError) : bool :=
  match e with ServerError _ => true | _ => false end.

Definition authArgs (o : Options) : list string :=
  "AUTH" :: (if Username o =s "" then [] else [Username o]) ++ [Password o].

Definition dialRESP (s : Remote) : Result RespError respConn * Remote :=
  let n := env (tick s) in
  let s := tock s in
  match dial_err n with
  | Some t => (Err (IOError t), s)
  | None =>
      let c := mkConn (nextConn s) "" in
      let s := mkRemote (v_opts s) (v_closed s) (v_pool s) (S (nextConn s)) (tick s) (server s) (wire s) in
      let '(auth, c, s) :=
        if Password (v_opts s) =s "" then (Ok emptyReply, c, s)
        else connDo c (authArgs (v_opts s)) s in
      match auth with
      | Err e => (Err (if isServerError e then errAuthFailed else e), s)
      | Ok _ =>
          if 0 <? DBNumber (v_opts s) then
            let '(sel, c, s) := connDo c ["SELECT"; itoa (DBNumber (v_opts s))] s in
            match sel with Err e => (Err e, s) | Ok _ => (Ok c, s) end
          else (Ok c, s)
      end
  end.

(** * The pool *)

Definition getConn (s : Remote) : Result CacheError respConn * Remote :=
  if v_closed s then (Err ErrClosed, s) else
  match v_pool s with
  | c :: rest => (Ok c, with_pool rest s)
  | [] =>
      match dialRESP s with
      | (Ok c, s) => (Ok c, s)
      | (Err e, s) => (Err (ErrRemote e), s)
      end
  end.

Definition putConn (c : respConn) (s : Remote) : Remote :=
  if v_closed s then s
  else if Z.of_nat (length (v_pool s)) <? PoolSize (v_opts s) then with_pool (v_pool s ++ [c]) s
  else s.

Definition doOnce (args : list string) (s : Remote) : Result CacheError reply * Remote :=
  match getConn s with
  | (Err e, s) => (Err e, s)
  | (Ok c, s) =>
      let '(r, c, s) := connDo c args s in
      match r with
      | Ok rp => (Ok rp, putConn c s)
      | Err e => (Err (ErrRemote e), if isServerError e then putConn c s else s)
      end
  end.

(** The state of the context at the moment. *)
Definition ctxNow (s : Remote) : option string * Remote := (ctx_err (env (tick s)), tock s).

(** [errors.As] of a server error or [errors.Is] of [ErrClosed]. *)
Definition final (e : CacheError) : bool :=
  match e with ErrClosed => true | ErrRemote e => isServerError e | _ => false end.

Definition do_ (args : list string) (s : Remote) : Result CacheError reply * Remote :=
  match doOnce args s with
  | (Ok rp, s) => (Ok rp, s)
  | (Err e, s) =>
      if final e then (Err e, s) else
      match ctxNow s with
      | (Some _, s) => (Err e, s)
      | (None, s) =>
          match doOnce args s with
          | (Ok rp, s) => (Ok rp, s)
          | (Err _, s) => (Err e, s)
          end
      end
  end.

Definition NewValkey (o : Options) (srv : Server) : Result RespError () * Remote :=
  let s := mkRemote (withCacheDefaults o) false [] 0 0 srv [] in
  match dialRESP s with
  | (Err e, s) => (Err e, s)
  | (Ok c, s) =>
      let '(r, c, s) := connDo c ["PING"] s in
      match r with Err e => (Err e, s) | Ok _ => (Ok (), putConn c s) end
  end.

(** * Operations *)

Definition k (s : Remote) (key : string) : string := KeyPrefix (v_opts s) +:+ key.

Definition RGet (key : string) (s : Remote) : Result CacheError (option string) * Remote :=
  if key =s "" then (Err ErrEmptyKey, s) else
  match do_ ["GET"; k s key] s with
  | (Err e, s) => (Err e, s)
  | (Ok rp, s) => (Ok (if r_null rp then None else Some (r_str rp)), s)
  end.

Definition pxArgs (ttl : Z) : list string :=
  let ms := ttlMillis ttl in if 0 <? ms then ["PX"; itoa ms] else [].

Definition setArgs (s : Remote) (key val : string) (ttl : Z) : list string :=
  ["SET"; k s key; val] ++ pxArgs ttl.

Definition RSet (key val : string) (ttl : Z) (s : Remote) : Result CacheError () * Remote :=
  if key =s "" then (Err ErrEmptyKey, s) else
  match do_ (setArgs s key val ttl) s with
  | (Err e, s) => (Err e, s)
  | (Ok _, s) => (Ok (), s)
  end.

Definition RSetNX (key val : string) (ttl : Z) (s : Remote) : Result CacheError bool * Remote :=
  if key =s "" then (Err ErrEmptyKey, s) else
  match doOnce (setArgs s key val ttl ++ ["NX"]) s with
  | (Err e, s) => (Err e, s)
  | (Ok rp, s) => (Ok (negb (r_null rp)), s)
  end.

Definition RDelete (key : string) (s : Remote) : Result CacheError () * Remote :=
  if key =s "" then (Err ErrEmptyKey, s) else
  match do_ ["DEL"; k s key] s with
  | (Err e, s) => (Err e, s)
  | (Ok _, s) => (Ok (), s)
  end.

(** The deletions of one page of keys; one batch per step, so there are at most
    as many steps as keys. *)
Fixpoint deleteBatches (steps : nat) (keys : list string) (s : Remote)
    : Result CacheError () * Remote :=
  match steps, keys with
  | S steps', _ :: _ =>
      match do_ ("DEL" :: take deleteBatch keys) s with
      | (Err e, s) => (Err e, s)
      | (Ok _, s) => deleteBatches steps' (list.drop deleteBatch keys) s
      end
  | _, _ => (Ok (), s)
  end.

(** The walk of the key space ends when the server returns the cursor 0; [None]
    says it has not within [rounds]. *)
Fixpoint scanLoop (rounds : nat) (pattern cursor : string) (s : Remote)
    : option (Result CacheError ()) * Remote :=
  match rounds with
  | O => (None, s)
  | S rounds' =>
      match ctxNow s with
      | (Some t, s) => (Some (Err (ErrCtx t)), s)
      | (None, s) =>
          match do_ ["SCAN"; cursor; "MATCH"; pattern; "COUNT"; itoa scanBatch] s with
          | (Err e, s) => (Some (Err e), s)
          | (Ok rp, s) =>
              match r_arr rp with
              | [next; page] =>
                  let keys := r_str <$> r_arr page in
                  match deleteBatches (length keys) keys s with
                  | (Err e, s) => (Some (Err e), s)
                  | (Ok _, s) =>
                      if (r_str next =s "") || (r_str next =s "0") then (Some (Ok ()), s)
                      else scanLoop rounds' pattern (r_str next) s
                  end
              | _ => (Some (Err (ErrRemote errProtocol)), s)
              end
          end
      end
  end.

Definition RDeletePrefix (rounds : nat) (prefix : string) (s : Remote)
    : option (Result CacheError ()) * Remote :=
  if prefix =s "" then (Some (Err ErrEmptyPrefix), s)
  else scanLoop rounds (globEscape (k s prefix) +:+ "*") "0" s.

Definition RClose (s : Remote) : Remote :=
  if v_closed s then s
  else mkRemote (v_opts s) true [] (nextConn s) (tick s) (server s) (wire s).

(** * What is written *)

(** A command of the opening of a connection. *)
Definition handshake (args : list string) : bool :=
  match args with a :: _ => (a =s "AUTH") || (a =s "SELECT") | [] => false end.

(** The commands a log has besides the openings. *)
Definition commands (log : list (nat * list string)) : list (list string) :=
  List.filter (λ args, negb (handshake args)) (snd <$> log).

Lemma commands_app l l' : commands (l ++ l') = commands l ++ commands l'.
Proof. unfold commands. by rewrite fmap_app, List.filter_app. Qed.

Lemma connDo_wire c args s r c' s' : connDo c args s = (r, c', s') →
  v_opts s' = v_opts s ∧ (wire s' = wire s ∧ (∀ rp, r ≠ Ok rp) ∨ wire s' = wire s ++ [(c_id c, args)]).
Proof.
  unfold connDo. destruct args as [| a args]; [intros; simplify_eq; auto |].
  destruct (ctx_err _); [intros; simplify_eq; auto |].
  destruct (deadline_err _); [intros; simplify_eq; auto |].
  destruct (serve _ _ _) as [answer srv]. destruct (write_err _); [intros; simplify_eq; auto |].
  destruct (readReply _ _ _ _) as [[[rp | e] rest] |]; [destruct (Ascii.eqb _ _) | |];
    intros; simplify_eq; auto.
Qed.

Lemma connDo_handshake c args s r c' s' : connDo c args s = (r, c', s') → handshake args = true →
  commands (wire s') = commands (wire s) ∧ v_opts s' = v_opts s.
Proof.
  intros (Ho & [[E _] | E])%connDo_wire Hh; rewrite E; [done |].
  rewrite commands_app. unfold commands at 2. cbn. by rewrite Hh, app_nil_r.
Qed.

Lemma dialRESP_wire s r s' : dialRESP s = (r, s') →
  commands (wire s') = commands (wire s) ∧ v_opts s' = v_opts s.
Proof.
  unfold dialRESP. destruct (dial_err _); [intros; by simplify_eq |]. cbn [tock v_opts nextConn].
  set (s1 := mkRemote _ _ _ _ _ _ _). set (c := mkConn _ _).
  destruct (if Password (v_opts s) =s "" then _ else _) as [[auth c1] s2] eqn:Ea.
  assert (commands (wire s2) = commands (wire s) ∧ v_opts s2 = v_opts s) as [P1 P2].
  { destruct (Password (v_opts s) =s ""); [by simplify_eq |]. by apply connDo_handshake in Ea. }
  destruct auth as [rp | e]; [| intros; by simplify_eq].
  destruct (0 <? DBNumber (v_opts s2)); [| intros; by simplify_eq].
  destruct (connDo c1 _ s2) as [[sel c2] s3] eqn:Es. apply connDo_handshake in Es as [Q1 Q2]; [| done].
  destruct sel; intros; simplify_eq; by rewrite Q1, Q2.
Qed.

Lemma getConn_wire s r s' : getConn s = (r, s') →
  commands (wire s') = commands (wire s) ∧ v_opts s' = v_opts s.
Proof.
  unfold getConn. destruct (v_closed s); [intros; by simplify_eq |].
  destruct (v_pool s); [| intros; by simplify_eq].
  destruct (dialRESP s) as [[c | e] s1] eqn:Ed; apply dialRESP_wire in Ed; intros; by simplify_eq.
Qed.

Lemma putConn_keeps c s : v_opts (putConn c s) = v_opts s ∧ server (putConn c s) = server s ∧
  wire (putConn c s) = wire s.
Proof. unfold putConn. by repeat case_match. Qed.

(** One round trip writes the command at most once, and once if it succeeds. *)
Lemma doOnce_wire args s r s' : doOnce args s = (r, s') → handshake args = false →
  v_opts s' = v_opts s ∧
  (commands (wire s') = commands (wire s) ∧ (∀ rp, r ≠ Ok rp) ∨
   commands (wire s') = commands (wire s) ++ [args]).
Proof.
  unfold doOnce. intros H Hh. destruct (getConn s) as [[c | e] s1] eqn:Eg;
    apply getConn_wire in Eg as [G1 G2]; [| simplify_eq; auto].
  destruct (connDo c args s1) as [[r0 c1] s2] eqn:Ec. apply connDo_wire in Ec as (Ho & Hw).
  assert (v_opts s' = v_opts s2 ∧ wire s' = wire s2 ∧ ((∀ rp, r0 ≠ Ok rp) → ∀ rp, r ≠ Ok rp))
    as (E1 & E2 & E3).
  { destruct (putConn_keeps c1 s2) as (P1 & _ & P2).
    destruct r0 as [rp | e]; [simplify_eq; naive_solver |].
    destruct (isServerError e); simplify_eq; naive_solver. }
  rewrite E1, E2, Ho, G2. split; [done |]. destruct Hw as [[-> Hr] | ->]; rewrite ?commands_app, G1; [auto |].
  right. unfold commands at 2. cbn. by rewrite Hh.
Qed.

(** A lock request is written to the server at most once, whatever the
    network does, and exactly once when it is answered, so a lost answer never
    turns into a second attempt on a lock the caller already won. *)
Theorem SetNX_once (key val : string) (ttl : Z) (s : Remote) :
  let '(r, s') := RSetNX key val ttl s in
  let args := setArgs s key val ttl ++ ["NX"] in
  (commands (wire s') = commands (wire s) ∧ is_ok r = false) ∨
  commands (wire s') = commands (wire s) ++ [args].
Proof.
  destruct (RSetNX key val ttl s) as [r s'] eqn:E. cbv zeta. unfold RSetNX in E.
  destruct (key =s ""); [simplify_eq; by left |].
  destruct (doOnce _ s) as [[rp | e] s1] eqn:Ed;
    apply doOnce_wire in Ed as (_ & [[Hw Hr] | Hw]); simplify_eq; auto.
  by destruct (Hr rp).
Qed.

(** * Histories *)

Inductive VOp :=
| VGet (key : string) | VSet (key val : string) (ttl : Z) | VSetNX (key val : string) (ttl : Z)
| VDelete (key : string) | VDeletePrefix (rounds : nat) (prefix : string) | VClose.

Definition vexec (s : Remote) (op : VOp) : Remote :=
  match op with
  | VGet key => (RGet key s).2
  | VSet key val ttl => (RSet key val ttl s).2
  | VSetNX key val ttl => (RSetNX key val ttl s).2
  | VDelete key => (RDelete key s).2
  | VDeletePrefix rounds prefix => (RDeletePrefix rounds prefix s).2
  | VClose => RClose s
  end.

(** What every operation leaves of the pool, and of the options. *)
Definition synced (s : Remote) : Prop :=
  (∀ c, c ∈ v_pool s → c_unread c = "") ∧ Z.of_nat (length (v_pool s)) ≤ PoolSize (v_opts s).

Section one_reply.
(** The server answers every command with one value of the protocol. *)
Context (answers : nat → list string → Server → reply).
Hypothesis one_reply : ∀ c args srv,
  within 0 (answers c args srv) ∧
  (serve c (encodeCommand "" args) srv).1 = render (answers c args srv).

Lemma arrived_split n answer : ∃ lost, answer = arrived n answer +:+ lost.
Proof.
  unfold arrived. destruct (arrives n) as [j |]; [| exists ""; by rewrite string_app_empty_r].
  revert answer. induction j as [| j IH]; intros [| c t]; try by eexists.
  destruct (IH t) as [lost E]. exists lost. cbn. rewrite string_app_cons. by f_equal.
Qed.

(** A command on a connection with nothing unread. *)
Lemma connDo_cases c args s r c' s' :
  c_unread c = "" → args ≠ [] → connDo c args s = (r, c', s') →
  v_pool s' = v_pool s ∧ v_opts s' = v_opts s ∧ v_closed s' = v_closed s ∧
  match r with
  | Ok rp =>
      c_unread c' = "" ∧ rp = answers (c_id c) args (server s) ∧
      server s' = (serve (c_id c) (encodeCommand "" args) (server s)).2 ∧
      wire s' = wire s ++ [(c_id c, args)]
  | Err (ServerError _) => c_unread c' = ""
  | Err _ => True
  end.
Proof.
  intros Hc Ha H. unfold connDo in H. destruct args as [| a args]; [done |].
  set (n := env (tick s)) in *. cbn [tock server] in H.
  destruct (ctx_err n); [by simplify_eq |]. destruct (deadline_err n); [by simplify_eq |].
  destruct (one_reply (c_id c) (a :: args) (server s)) as [Hw Hr].
  destruct (serve (c_id c) (encodeCommand "" (a :: args)) (server s)) as [answer srv]. cbn in Hr.
  destruct (write_err n); [by simplify_eq |].
  rewrite Hc, string_app_nil in H. destruct (arrived_split n answer) as [lost Hl].
  destruct (readReply _ _ _ _) as [[[rp | e] rest] |] eqn:Er; [| | by simplify_eq].
  - destruct (readReply_piece _ _ _ lost _ _ Hw (eq_trans (eq_sym Hr) Hl) Er) as (-> & -> & _).
    destruct (Ascii.eqb _ typeError); by simplify_eq.
  - simplify_eq. do 3 (split; [done |]). destruct e as [| | | m |]; try done.
    by apply readReply_no_server_error in Er.
Qed.

Lemma dialRESP_synced s r s' : dialRESP s = (r, s') →
  v_pool s' = v_pool s ∧ v_opts s' = v_opts s ∧ v_closed s' = v_closed s ∧
  (∀ c, r = Ok c → c_unread c = "").
Proof.
  unfold dialRESP. destruct (dial_err _); [intros; by simplify_eq |]. cbn [tock v_opts nextConn].
  set (s1 := mkRemote _ _ _ _ _ _ _). set (c := mkConn _ _).
  destruct (if Password (v_opts s) =s "" then _ else _) as [[auth c1] s2] eqn:Ea.
  assert (v_pool s2 = v_pool s ∧ v_opts s2 = v_opts s ∧ v_closed s2 = v_closed s ∧
    match auth with Ok _ => c_unread c1 = "" | _ => True end) as (P1 & P2 & P3 & P4).
  { destruct (Password (v_opts s) =s ""); [by simplify_eq |].
    apply connDo_cases in Ea as (? & ? & ? & Hm); [| done | done]. do 3 (split; [done |]).
    destruct auth; naive_solver. }
  destruct auth as [rp | e]; [| intros; simplify_eq; naive_solver].
  destruct (0 <? DBNumber (v_opts s2)); [| intros; simplify_eq; naive_solver].
  destruct (connDo c1 _ s2) as [[sel c2] s3] eqn:Es.
  apply connDo_cases in Es as (Q1 & Q2 & Q3 & Q4); [| done | done].
  destruct sel; intros; simplify_eq; rewrite ?Q1, ?Q2, ?Q3; naive_solver.
Qed.

Lemma getConn_synced s r s' : synced s → getConn s = (r, s') →
  synced s' ∧ v_opts s' = v_opts s ∧ ∀ c, r = Ok c → c_unread c = "".
Proof.
  intros [H1 H2]. unfold getConn, synced. destruct (v_closed s); [intros; by simplify_eq |].
  destruct (v_pool s) as [| c rest] eqn:Ep.
  - destruct (dialRESP s) as [[c | e] s1] eqn:Ed; apply dialRESP_synced in Ed as (P1 & P2 & _ & P3);
      intros; simplify_eq; rewrite P1, P2, Ep; naive_solver.
  - intros; simplify_eq. cbn in *. split; [| split; [done |]]; [| intros; simplify_eq; set_solver].
    split; [set_solver | lia].
Qed.

Lemma putConn_synced c s : synced s → c_unread c = "" → synced (putConn c s).
Proof.
  intros [H1 H2] Hc. unfold putConn. destruct (v_closed s); [done |].
  destruct (Z.ltb_spec (Z.of_nat (length (v_pool s))) (PoolSize (v_opts s))); [| done].
  split; cbn; [| rewrite length_app; cbn; lia].
  intros c' [|]%elem_of_app; [auto | set_solver].
Qed.

Lemma doOnce_cases args s r s' : synced s → args ≠ [] → doOnce args s = (r, s') →
  synced s' ∧ v_opts s' = v_opts s ∧
  ∀ rp, r = Ok rp → ∃ c srv,
    rp = answers c args srv ∧ server s' = (serve c (encodeCommand "" args) srv).2 ∧
    last (wire s') = Some (c, args).
Proof.
  intros Hs Ha. unfold doOnce. destruct (getConn s) as [[c | e] s1] eqn:Eg;
    apply getConn_synced in Eg as (Hs1 & Ho1 & Hc); [| done | intros; by simplify_eq | done].
  specialize (Hc c eq_refl). destruct (connDo c args s1) as [[r0 c1] s2] eqn:Ec.
  apply connDo_cases in Ec as (P1 & P2 & P3 & P4); [| done | done].
  assert (synced s2) as Hs2 by (unfold synced in *; by rewrite P1, P2).
  destruct r0 as [rp | e].
  - destruct P4 as (Hu & -> & Hv & Hw). intros; simplify_eq.
    destruct (putConn_keeps c1 s2) as (-> & -> & ->).
    split; [by apply putConn_synced |]. split; [congruence |]. intros rp [= <-].
    exists (c_id c), (server s1). split; [done |]. split; [done |]. by rewrite Hw, last_snoc.
  - intros; simplify_eq. destruct (isServerError e) eqn:Ee.
    + destruct e; try done. destruct (putConn_keeps c1 s2) as (-> & _).
      split; [by apply putConn_synced |]. split; [congruence | done].
    + split; [done |]. split; [congruence | done].
Qed.

Lemma do_synced args s r s' : synced s → args ≠ [] → do_ args s = (r, s') →
  synced s' ∧ v_opts s' = v_opts s.
Proof.
  intros Hs Ha. unfold do_. destruct (doOnce args s) as [[rp | e] s1] eqn:E1;
    apply doOnce_cases in E1 as (H1 & O1 & _); [| done | done | | done | done]; [intros; by simplify_eq |].
  destruct (final e); [intros; by simplify_eq |]. unfold ctxNow.
  destruct (ctx_err _); [intros; by simplify_eq |].
  destruct (doOnce args (tock s1)) as [[rp | e'] s2] eqn:E2;
    apply doOnce_cases in E2 as (H2 & O2 & _); try done; intros; simplify_eq; by rewrite O2.
Qed.

Lemma deleteBatches_synced steps keys s r s' : synced s → deleteBatches steps keys s = (r, s') →
  synced s' ∧ v_opts s' = v_opts s.
Proof.
  revert keys s. induction steps as [| steps IH]; intros keys s Hs; cbn; [intros; by simplify_eq |].
  destruct keys as [| key keys]; [intros; by simplify_eq |].
  destruct (do_ _ s) as [[rp | e] s1] eqn:E; apply do_synced in E as [H1 O1]; try done;
    [| intros; by simplify_eq].
  intros E. apply IH in E as [H2 O2]; [| done]. split; [done | congruence].
Qed.

Lemma scanLoop_synced rounds pattern cursor s r s' : synced s →
  scanLoop rounds pattern cursor s = (r, s') → synced s'.
Proof.
  revert cursor s. induction rounds as [| rounds IH]; intros cursor s Hs; cbn -[do_ deleteBatches];
    [intros; by simplify_eq |].
  destruct (ctx_err _); [intros; by simplify_eq |].
  destruct (do_ _ (tock s)) as [[rp | e] s1] eqn:E; apply do_synced in E as [H1 O1]; try done;
    [| intros; by simplify_eq].
  destruct (r_arr rp) as [| next [| page [|]]]; try (intros; by simplify_eq).
  destruct (deleteBatches _ _ s1) as [[[] | e] s2] eqn:Ed; apply deleteBatches_synced in Ed as [H2 _];
    try done; [| intros; by simplify_eq].
  destruct (_ || _); [intros; by simplify_eq | by apply IH].
Qed.

Lemma vexec_synced s op : synced s → synced (vexec s op).
Proof.
  intros Hs. destruct op as [key | key val ttl | key val ttl | key | rounds prefix |]; cbn.
  - unfold RGet. destruct (key =s ""); [done |].
    destruct (do_ _ s) as [[rp | e] s1] eqn:E; by apply do_synced in E as [H1 _].
  - unfold RSet. destruct (key =s ""); [done |].
    destruct (do_ _ s) as [[rp | e] s1] eqn:E; by apply do_synced in E as [H1 _].
  - unfold RSetNX. destruct (key =s ""); [done |].
    destruct (doOnce _ s) as [[rp | e] s1] eqn:E; by apply doOnce_cases in E as [H1 _].
  - unfold RDelete. destruct (key =s ""); [done |].
    destruct (do_ _ s) as [[rp | e] s1] eqn:E; by apply do_synced in E as [H1 _].
  - unfold RDeletePrefix. destruct (prefix =s ""); [done |].
    destruct (scanLoop _ _ _ s) as [r s1] eqn:E. by apply scanLoop_synced in E.
  - unfold RClose, synced in *. destruct (v_closed s); [done |]. cbn.
    split; [set_solver | lia].
Qed.

Lemma NewValkey_synced o srv : synced (NewValkey o srv).2.
Proof.
  unfold NewValkey. set (s0 := mkRemote _ _ _ _ _ _ _).
  assert (synced s0) as H0.
  { split; cbn; [set_solver |]. unfold withCacheDefaults, defaultPoolSize. cbn.
    destruct (Z.leb_spec (PoolSize o) 0); lia. }
  destruct (dialRESP s0) as [[c | e] s1] eqn:Ed; apply dialRESP_synced in Ed as (P1 & P2 & _ & P3);
    unfold synced in H0; rewrite <-P1, <-P2 in H0; [| exact H0].
  destruct (connDo c ["PING"] s1) as [[r c1] s2] eqn:Ec.
  apply connDo_cases in Ec as (Q1 & Q2 & _ & Q4); [| auto | done].
  rewrite <-Q1, <-Q2 in H0. destruct r as [rp | e]; [| exact H0].
  apply putConn_synced; [exact H0 | naive_solver].
Qed.

Lemma history_synced o srv ops : synced (foldl vexec (NewValkey o srv).2 ops).
Proof.
  generalize (NewValkey_synced o srv). generalize (NewValkey o srv).2.
  induction ops as [| op ops IH]; intros s0 H0; [done |]. by apply IH, vexec_synced.
Qed.


Lemma do_cases args s r s' : synced s → handshake args = false → args ≠ [] → do_ args s = (r, s') →
  synced s' ∧ v_opts s' = v_opts s ∧
  (∃ more, commands (wire s') = commands (wire s) ++ more ∧ Forall (eq args) more) ∧
  ∀ rp, r = Ok rp → ∃ c srv, rp = answers c args srv.
Proof.
  intros Hs Hh Ha E. destruct (do_synced _ _ _ _ Hs Ha E) as [Hs' Ho']. split; [done |]. split; [done |].
  unfold do_ in E. destruct (doOnce args s) as [[rp | e] s1] eqn:E1;
    pose proof (doOnce_wire _ _ _ _ E1 Hh) as [_ W1]; pose proof (doOnce_cases _ _ _ _ Hs Ha E1) as (H1 & _ & R1).
  - simplify_eq. split; [destruct W1 as [[W1 _] | W1]; rewrite W1; [exists [] | exists [args]] |].
    + by rewrite app_nil_r.
    + by repeat constructor.
    + intros rp' [= <-]. destruct (R1 rp eq_refl) as (c & srv & -> & _). eauto.
  - assert (∃ m1, commands (wire s1) = commands (wire s) ++ m1 ∧ Forall (eq args) m1) as (m1 & M1 & F1).
    { destruct W1 as [[W1 _] | W1]; rewrite W1; [exists []; by rewrite app_nil_r | exists [args]].
      by repeat constructor. }
    destruct (final e); [simplify_eq; naive_solver |]. unfold ctxNow in E.
    destruct (ctx_err _); [simplify_eq; naive_solver |].
    destruct (doOnce args (tock s1)) as [[rp | e'] s2] eqn:E2;
      pose proof (doOnce_wire _ _ _ _ E2 Hh) as [_ W2];
      pose proof (doOnce_cases _ (tock s1) _ _ H1 Ha E2) as (_ & _ & R2); simplify_eq; (split; [|]).
    + destruct W2 as [[W2 _] | W2]; rewrite W2; cbn [tock wire]; rewrite M1; [eauto |].
      exists (m1 ++ [args]). rewrite app_assoc. split; [done |]. apply Forall_app. by repeat constructor.
    + intros rp' [= <-]. destruct (R2 rp eq_refl) as (c & srv & -> & _). eauto.
    + destruct W2 as [[W2 _] | W2]; rewrite W2; cbn [tock wire]; rewrite M1; [eauto |].
      exists (m1 ++ [args]). rewrite app_assoc. split; [done |]. apply Forall_app. by repeat constructor.
    + done.
Qed.

(** ** Prefixes *)

Lemma within_small d r : within d r → small (r_str r).
Proof. unfold small. change maxBulkSize with 67108864. destruct 1; cbn; try lia; done. Qed.

Section glob.
(** The pattern language of the server's MATCH: an escaped character stands for
    itself, so does one that is not special, and a final star for anything. *)
Context (glob : string → string → bool).

Class GlobLaws : Prop := {
  glob_escaped : ∀ c p t, glob (String "\"%char (String c p)) t =
    match t with String d t' => Ascii.eqb c d && glob p t' | EmptyString => false end;
  glob_literal : ∀ c p t, glob_special c = false → glob (String c p) t =
    match t with String d t' => Ascii.eqb c d && glob p t' | EmptyString => false end;
  glob_star : ∀ t, glob "*" t = true }.

Context {glob_laws : GlobLaws}.

Lemma globEscape_prefix p t : glob (globEscape p +:+ "*") t = HasPrefix t p.
Proof.
  revert t. induction p as [| c p IH]; intros t; [by rewrite glob_star; destruct t |].
  assert (HasPrefix t (String c p) =
    match t with String d t' => Ascii.eqb c d && HasPrefix t' p | EmptyString => false end) as ->.
  { unfold HasPrefix. destruct t as [| d t]; [done |]. cbn.
    destruct (ascii_dec c d) as [-> | Hn]; [by rewrite Ascii.eqb_refl |].
    by rewrite (proj2 (Ascii.eqb_neq _ _) Hn). }
  cbn [globEscape]. destruct (glob_special c) eqn:Ec; rewrite !string_app_cons.
  - rewrite glob_escaped. destruct t; [done |]. by rewrite IH.
  - rewrite (glob_literal _ _ _ Ec). destruct t; [done |]. by rewrite IH.
Qed.

(** The keys a scan returns match its pattern. *)
Hypothesis scan_matches : ∀ c cursor pattern srv next page,
  small cursor → small pattern →
  r_arr (answers c ["SCAN"; cursor; "MATCH"; pattern; "COUNT"; itoa scanBatch] srv) = [next; page] →
  ∀ item, item ∈ r_arr page → glob pattern (r_str item) = true.

(** A command that deletes nothing but keys with the prefix. *)
Definition spares (prefix : string) (args : list string) : Prop :=
  match args with
  | cmd :: keys => cmd = "DEL" → ∀ key, key ∈ keys → HasPrefix key prefix = true
  | [] => True
  end.

Lemma deleteBatches_spares prefix steps keys s r s' : synced s →
  (∀ key, key ∈ keys → HasPrefix key prefix = true) → deleteBatches steps keys s = (r, s') →
  ∃ more, commands (wire s') = commands (wire s) ++ more ∧ Forall (spares prefix) more.
Proof.
  revert keys s. induction steps as [| steps IH]; intros keys s Hs Hk; cbn -[take list.drop].
  { intros; simplify_eq. exists []. by rewrite app_nil_r. }
  destruct keys as [| key keys]; [intros; simplify_eq; exists []; by rewrite app_nil_r |].
  set (ks := key :: keys) in *.
  destruct (do_ _ s) as [r1 s1] eqn:E. apply do_cases in E as (H1 & _ & (m1 & M1 & F1) & _); try done.
  assert (Forall (spares prefix) m1) as G1.
  { eapply Forall_impl; [exact F1 |]. intros args <- _ x Hx. apply Hk.
    rewrite <-(take_drop deleteBatch ks). apply elem_of_app. by left. }
  destruct r1 as [rp | e]; [| intros; simplify_eq; eauto]. intros E.
  apply IH in E as (m2 & M2 & F2); [| done |].
  - exists (m1 ++ m2). rewrite M2, M1, app_assoc. split; [done |]. by apply Forall_app.
  - intros x Hx. apply Hk. rewrite <-(take_drop deleteBatch ks). apply elem_of_app. by right.
Qed.

Lemma scanLoop_spares prefix rounds cursor s r s' : synced s →
  small cursor → small (globEscape prefix +:+ "*") → scanLoop rounds (globEscape prefix +:+ "*") cursor s = (r, s') →
  ∃ more, commands (wire s') = commands (wire s) ++ more ∧ Forall (spares prefix) more.
Proof.
  revert cursor s. induction rounds as [| rounds IH]; intros cursor s Hs Hcur Hpat;
    cbn -[do_ deleteBatches String.append itoa];
    [intros; simplify_eq; exists []; by rewrite app_nil_r |].
  destruct (ctx_err _); [intros; simplify_eq; exists []; by rewrite app_nil_r |].
  destruct (do_ _ (tock s)) as [r1 s1] eqn:E.
  apply do_cases in E as (H1 & _ & (m1 & M1 & F1) & R1); try done.
  assert (Forall (spares prefix) m1) as G1 by (eapply Forall_impl; [exact F1 | by intros args <-]).
  cbn [tock wire] in M1. destruct r1 as [rp | e]; [| intros; simplify_eq; eauto].
  destruct (R1 rp eq_refl) as (c & srv & Hrp).
  destruct (r_arr rp) as [| next [| page [|]]] eqn:Ea; try (by intros; simplify_eq; eauto).
  destruct (deleteBatches _ _ s1) as [r2 s2] eqn:Ed.
  pose proof (deleteBatches_synced _ _ _ _ _ H1 Ed) as [H2 _].
  apply (deleteBatches_spares prefix) in Ed as (m2 & M2 & F2); [| done |].
  2: { intros key (item & -> & Hi)%list_elem_of_fmap. rewrite <-globEscape_prefix.
       subst rp. by apply (scan_matches _ _ _ _ _ _ Hcur Hpat Ea). }
  assert (commands (wire s2) = commands (wire s) ++ (m1 ++ m2) ∧ Forall (spares prefix) (m1 ++ m2)) as [M F].
  { rewrite M2, M1, app_assoc. split; [done |]. by apply Forall_app. }
  destruct r2; [| intros; simplify_eq; eauto].
  destruct (_ || _); [intros; simplify_eq; eauto |].
  assert (small (r_str next)) as Hnext.
  { destruct (one_reply c ["SCAN"; cursor; "MATCH"; globEscape prefix +:+ "*"; "COUNT"; itoa scanBatch] srv)
      as [Hw _]. rewrite <-Hrp in Hw. destruct Hw; cbn in Ea; try done. subst.
    eapply within_small. match goal with H : ∀ i, i ∈ _ → within _ i |- _ => apply H; left end. }
  intros E. apply IH in E as (m3 & M3 & F3); [| done..]. exists ((m1 ++ m2) ++ m3).
  rewrite M3, M. split; [by rewrite <-!app_assoc |]. by apply Forall_app.
Qed.

(** Deleting a prefix deletes nothing else: whatever bytes the prefix has,
    every key named in a deletion starts with the namespace and the prefix. *)
Theorem DeletePrefix_confined (o : Options) (srv : Server) (ops : list VOp) (rounds : nat)
    (prefix : string) (s := foldl vexec (NewValkey o srv).2 ops)
    (Hfit : small (globEscape (KeyPrefix (v_opts s) +:+ prefix) +:+ "*")) :
  ∃ more, commands (wire (RDeletePrefix rounds prefix s).2) = commands (wire s) ++ more ∧
    Forall (spares (KeyPrefix (v_opts s) +:+ prefix)) more.
Proof.
  pose proof (history_synced o srv ops) as Hs. change (synced s) in Hs.
  unfold RDeletePrefix. destruct (prefix =s ""); [exists []; by rewrite app_nil_r |].
  destruct (scanLoop _ _ _ s) as [r s'] eqn:E. by eapply scanLoop_spares; [| | | exact E].
Qed.
End glob.
(** ** The cache as a map *)

Section map.
(** A network without faults. *)
Hypothesis healthy : ∀ i,
  dial_err (env i) = None ∧ ctx_err (env i) = None ∧ deadline_err (env i) = None ∧
  write_err (env i) = None ∧ arrives (env i) = None.

(** The live keys of the server and their values. *)
Context (data : Server → gmap string string).

Definition next (c : nat) (args : list string) (srv : Server) : Server :=
  (serve c (encodeCommand "" args) srv).2.

Definition expiryArgs (px : list string) : Prop := px = [] ∨ ∃ ms, in_int64 ms ∧ px = ["PX"; itoa ms].

(** GET, SET with and without NX, and DEL as the server documents them; opening
    a connection succeeds. *)
Class MapServer : Prop := {
  map_open : ∀ c args srv, handshake args = true → (length args ≤ 3)%nat → Forall small args →
    r_typ (answers c args srv) ≠ typeError ∧ data (next c args srv) = data srv;
  map_get : ∀ c key srv, small key → (∀ v, data srv !! key = Some v → small v) →
    answers c ["GET"; key] srv =
      match data srv !! key with
      | Some v => mkReply typeBulk v 0 [] false
      | None => mkReply typeBulk "" 0 [] true
      end ∧ data (next c ["GET"; key] srv) = data srv;
  map_set : ∀ c key v px srv, small key → small v → expiryArgs px →
    answers c (["SET"; key; v] ++ px) srv = mkReply typeStatus "OK" 0 [] false ∧
    data (next c (["SET"; key; v] ++ px) srv) = <[key := v]> (data srv);
  map_setnx : ∀ c key v px srv, small key → small v → expiryArgs px →
    match data srv !! key with
    | Some _ =>
        answers c ((["SET"; key; v] ++ px) ++ ["NX"]) srv = mkReply typeBulk "" 0 [] true ∧
        data (next c ((["SET"; key; v] ++ px) ++ ["NX"]) srv) = data srv
    | None =>
        answers c ((["SET"; key; v] ++ px) ++ ["NX"]) srv = mkReply typeStatus "OK" 0 [] false ∧
        data (next c ((["SET"; key; v] ++ px) ++ ["NX"]) srv) = <[key := v]> (data srv)
    end;
  map_del : ∀ c key srv, small key →
    r_typ (answers c ["DEL"; key] srv) ≠ typeError ∧
    data (next c ["DEL"; key] srv) = delete key (data srv) }.

Context {server_laws : MapServer}.

Lemma connDo_healthy c args s :
  c_unread c = "" → args ≠ [] → r_typ (answers (c_id c) args (server s)) ≠ typeError →
  ∃ s', connDo c args s = (Ok (answers (c_id c) args (server s)), mkConn (c_id c) "", s') ∧
    server s' = next (c_id c) args (server s) ∧ v_closed s' = v_closed s ∧ v_opts s' = v_opts s.
Proof.
  intros Hc Ha Ht. unfold connDo, next. destruct args as [| a args]; [done |].
  set (as' := a :: args) in *.
  destruct (healthy (tick s)) as (_ & -> & -> & -> & Har). cbn [tock server].
  destruct (one_reply (c_id c) as' (server s)) as [Hw Hr].
  destruct (serve (c_id c) (encodeCommand "" as') (server s)) as [answer srv]. cbn in *.
  unfold arrived. rewrite Hc, string_app_nil, Har, Hr.
  pose proof (decode_render (drained (env (tick s))) depthFuel 0 _ "" Hw ltac:(done)) as Hd.
  rewrite string_app_empty_r in Hd. rewrite Hd.
  rewrite (proj2 (Ascii.eqb_neq _ _) Ht). by eexists.
Qed.

(** Credentials of a size the protocol carries. *)
Definition opts_fit (o : Options) : Prop :=
  small (Username o) ∧ small (Password o) ∧ in_int64 (DBNumber o).

Lemma small_itoa n : in_int64 n → small (itoa n).
Proof. intros [_ H]%itoa_line. unfold small. change maxBulkSize with 67108864. lia. Qed.

Lemma dialRESP_healthy s : opts_fit (v_opts s) →
  ∃ c s', dialRESP s = (Ok c, s') ∧ data (server s') = data (server s) ∧ v_closed s' = v_closed s.
Proof.
  intros (Fu & Fp & Fd). unfold dialRESP. destruct (healthy (tick s)) as (-> & _).
  cbn [tock v_opts nextConn]. set (s1 := mkRemote _ _ _ _ _ _ _). set (c := mkConn (nextConn s) "").
  assert (∃ rp s2, (if Password (v_opts s) =s "" then (Ok emptyReply, c, s1)
      else connDo c (authArgs (v_opts s)) s1) = (Ok rp, c, s2) ∧ data (server s2) = data (server s) ∧
      v_closed s2 = v_closed s ∧ v_opts s2 = v_opts s) as (rp & s2 & -> & Hd & Hcl & Ho).
  { destruct (Password (v_opts s) =s ""); [by repeat eexists |].
    destruct (map_open (c_id c) (authArgs (v_opts s)) (server s1) eq_refl) as [Ht Hd].
    { unfold authArgs. destruct (_ =s ""); cbn; lia. }
    { unfold authArgs. destruct (_ =s ""); repeat constructor; done. }
    destruct (connDo_healthy c (authArgs (v_opts s)) s1 eq_refl ltac:(done) Ht) as (s2 & -> & E & Ec & Eo).
    repeat eexists; [by rewrite E, Hd | done | done]. }
  destruct (0 <? DBNumber (v_opts s2)); [| by eauto].
  destruct (map_open (c_id c) ["SELECT"; itoa (DBNumber (v_opts s2))] (server s2) eq_refl) as [Ht Hd2].
  { cbn; lia. }
  { rewrite Ho. repeat constructor; [done | by apply small_itoa]. }
  destruct (connDo_healthy c ["SELECT"; itoa (DBNumber (v_opts s2))] s2 eq_refl ltac:(done) Ht)
    as (s3 & -> & E & Ec & _).
  repeat eexists; [by rewrite E, Hd2 | congruence].
Qed.

(** One round trip: the answer of a server with the same data. *)
Lemma doOnce_healthy args s : opts_fit (v_opts s) → synced s → v_closed s = false → args ≠ [] →
  (∀ c srv, data srv = data (server s) → r_typ (answers c args srv) ≠ typeError) →
  ∃ c srv s', doOnce args s = (Ok (answers c args srv), s') ∧ data srv = data (server s) ∧
    server s' = next c args srv ∧ v_closed s' = false ∧ synced s' ∧ v_opts s' = v_opts s.
Proof.
  intros Hfit Hs Hcl Ha Ht.
  assert (∃ c s1, getConn s = (Ok c, s1) ∧ data (server s1) = data (server s) ∧ v_closed s1 = false)
    as (c & s1 & Eg & Hd & Hc1).
  { unfold getConn. rewrite Hcl. destruct (v_pool s); [| by repeat eexists].
    destruct (dialRESP_healthy s Hfit) as (c & s1 & -> & Hd & Hc). rewrite Hcl in Hc. eauto. }
  pose proof (getConn_synced _ _ _ Hs Eg) as (_ & _ & Hu). specialize (Hu c eq_refl).
  destruct (connDo_healthy c args s1 Hu Ha (Ht _ _ Hd)) as (s2 & Ec & Hv & Hc2 & _).
  assert (doOnce args s = (Ok (answers (c_id c) args (server s1)), putConn (mkConn (c_id c) "") s2)) as Edo
    by (unfold doOnce; by rewrite Eg, Ec).
  destruct (doOnce_cases _ _ _ _ Hs Ha Edo) as (Hs' & Ho & _).
  exists (c_id c), (server s1), (putConn (mkConn (c_id c) "") s2).
  destruct (putConn_keeps (mkConn (c_id c) "") s2) as (_ & E2 & _). rewrite E2. repeat split; try done.
  - unfold putConn. repeat case_match; cbn; congruence.
  - apply Hs'.
  - apply Hs'.
Qed.

Lemma do_healthy args s : opts_fit (v_opts s) → synced s → v_closed s = false → args ≠ [] →
  (∀ c srv, data srv = data (server s) → r_typ (answers c args srv) ≠ typeError) →
  ∃ c srv s', do_ args s = (Ok (answers c args srv), s') ∧ data srv = data (server s) ∧
    server s' = next c args srv ∧ v_closed s' = false ∧ synced s' ∧ v_opts s' = v_opts s.
Proof.
  intros Hfit Hs Hcl Ha Ht. destruct (doOnce_healthy args s Hfit Hs Hcl Ha Ht) as (c & srv & s' & E & R).
  exists c, srv, s'. unfold do_. by rewrite E.
Qed.

Inductive MOp :=
| MGet (key : string) | MSet (key val : string) (ttl : Z) | MSetNX (key val : string) (ttl : Z)
| MDelete (key : string).

Inductive MReply :=
| MValue (r : Result CacheError (option string)) | MDone (r : Result CacheError ())
| MFlag (r : Result CacheError bool).

Definition mexec (op : MOp) (s : Remote) : MReply * Remote :=
  match op with
  | MGet key => let '(r, s) := RGet key s in (MValue r, s)
  | MSet key val ttl => let '(r, s) := RSet key val ttl s in (MDone r, s)
  | MSetNX key val ttl => let '(r, s) := RSetNX key val ttl s in (MFlag r, s)
  | MDelete key => let '(r, s) := RDelete key s in (MDone r, s)
  end.

(** The operations on a map, in the namespace [ns]. *)
Definition map_exec (ns : string) (op : MOp) (m : gmap string string) : MReply * gmap string string :=
  match op with
  | MGet key => (MValue (if key =s "" then Err ErrEmptyKey else Ok (m !! (ns +:+ key))), m)
  | MSet key val _ =>
      if key =s "" then (MDone (Err ErrEmptyKey), m) else (MDone (Ok ()), <[ns +:+ key := val]> m)
  | MSetNX key val _ =>
      if key =s "" then (MFlag (Err ErrEmptyKey), m) else
      match m !! (ns +:+ key) with
      | Some _ => (MFlag (Ok false), m)
      | None => (MFlag (Ok true), <[ns +:+ key := val]> m)
      end
  | MDelete key =>
      if key =s "" then (MDone (Err ErrEmptyKey), m) else (MDone (Ok ()), delete (ns +:+ key) m)
  end.

Fixpoint mrun {T} (step : MOp → T → MReply * T) (ops : list MOp) (t : T) : list MReply * T :=
  match ops with
  | [] => ([], t)
  | op :: ops => let '(r, t1) := step op t in let '(rs, t2) := mrun step ops t1 in (r :: rs, t2)
  end.

(** Keys and values of a size the protocol carries. *)
Definition fits (ns : string) (op : MOp) : Prop :=
  match op with
  | MGet key | MDelete key => small (ns +:+ key)
  | MSet key val _ | MSetNX key val _ => small (ns +:+ key) ∧ small val
  end.

Lemma ttl_args ttl : expiryArgs (pxArgs ttl).
Proof.
  unfold expiryArgs, pxArgs. cbv zeta. destruct (Z.ltb_spec 0 (ttlMillis ttl)); [| by left]. right.
  exists (ttlMillis ttl). split; [| done]. unfold ttlMillis. repeat case_match; [| | apply wrap64_in]; int64.
Qed.

Definition all_small (m : gmap string string) : Prop := ∀ key v, m !! key = Some v → small v.

Lemma mexec_refines ns op s :
  opts_fit (v_opts s) → synced s → v_closed s = false → KeyPrefix (v_opts s) = ns → fits ns op →
  all_small (data (server s)) →
  let '(r, s') := mexec op s in
  (r, data (server s')) = map_exec ns op (data (server s)) ∧
  synced s' ∧ v_closed s' = false ∧ v_opts s' = v_opts s ∧ all_small (data (server s')).
Proof.
  intros Hfit Hs Hcl <- Hf Hsm. set (ns := KeyPrefix (v_opts s)) in *.
  destruct op as [key | key val ttl | key val ttl | key]; cbn -[String.append] in *.
  - unfold RGet, k. fold ns. destruct (key =s ""); [done |].
    destruct (do_healthy ["GET"; ns +:+ key] s) as (c & srv & s' & -> & Hd & Hv & Hc & Hs' & Ho); try done.
    { intros c srv Hd. destruct (map_get c (ns +:+ key) srv) as [-> _]; [done | | by case_match].
      rewrite Hd. eauto. }
    destruct (map_get c (ns +:+ key) srv) as [-> Hn]; [done | rewrite Hd; eauto |].
    rewrite Hv, Hn, Hd, Ho. split; [| done]. by destruct (data (server s) !! (ns +:+ key)).
  - unfold RSet, setArgs, k. fold ns. destruct (key =s ""); [done |]. destruct Hf as [Hk Hval].
    pose proof (ttl_args ttl) as Hpx. revert Hpx. generalize (pxArgs ttl). intros px Hpx.
    destruct (do_healthy (["SET"; ns +:+ key; val] ++ px) s)
      as (c & srv & s' & E & Hd & Hv & Hc & Hs' & Ho); try done.
    { intros c srv Hd. by destruct (map_set c (ns +:+ key) val px srv) as [-> _]. }
    destruct (map_set c (ns +:+ key) val px srv) as [Han Hn]; [done.. |].
    rewrite E, Hv, Hn, Hd, Ho. split; [done |]. split; [done |]. split; [done |]. split; [done |].
    intros x y [[_ <-] | [_ H]]%lookup_insert_Some; eauto.
  - unfold RSetNX, setArgs, k. fold ns. destruct (key =s ""); [done |]. destruct Hf as [Hk Hval].
    pose proof (ttl_args ttl) as Hpx. revert Hpx. generalize (pxArgs ttl). intros px Hpx.
    destruct (doOnce_healthy ((["SET"; ns +:+ key; val] ++ px) ++ ["NX"]) s)
      as (c & srv & s' & E & Hd & Hv & Hc & Hs' & Ho); try done.
    { intros c srv Hd. pose proof (map_setnx c (ns +:+ key) val px srv Hk Hval Hpx) as H. revert H.
      by destruct (data srv !! (ns +:+ key)); intros [-> _]. }
    pose proof (map_setnx c (ns +:+ key) val px srv Hk Hval Hpx) as H. rewrite Hd in H. rewrite E, Hv.
    destruct (data (server s) !! (ns +:+ key)); destruct H as [-> ->]; rewrite Ho;
      (split; [done |]); (split; [done |]); (split; [done |]); (split; [done |]); [done |].
    intros x y [[_ <-] | [_ H]]%lookup_insert_Some; eauto.
  - unfold RDelete, k. fold ns. destruct (key =s ""); [done |].
    destruct (do_healthy ["DEL"; ns +:+ key] s) as (c & srv & s' & -> & Hd & Hv & Hc & Hs' & Ho); try done.
    { intros c srv Hd. by apply map_del. }
    destruct (map_del c (ns +:+ key) srv Hf) as [_ Hn].
    rewrite Hv, Hn, Hd, Ho. split; [done |]. split; [done |]. split; [done |]. split; [done |].
    intros x y [_ H]%lookup_delete_Some. eauto.
Qed.

End map.
End one_reply.

End remote.

(** * A server *)

Module Toy.

Definition status_ok : reply := mkReply typeStatus "OK" 0 [] false.
Definition null_bulk : reply := mkReply typeBulk "" 0 [] true.

(** Patterns without classes, with a star at the end only. *)
Fixpoint glob (p t : string) : bool :=
  match p with
  | EmptyString => t =s ""
  | String c p' =>
      if Ascii.eqb c "\"%char then
        match p', t with
        | String d p'', String e t' => Ascii.eqb d e && glob p'' t'
        | _, _ => false
        end
      else if Ascii.eqb c "*"%char && (p' =s "") then true
      else match t with String e t' => Ascii.eqb c e && glob p' t' | EmptyString => false end
  end.

#[export] Instance glob_laws : GlobLaws glob.
Proof.
  split; [done | | done]. intros c p t Hc. cbn.
  destruct (Ascii.eqb_spec c "\"%char) as [-> |]; [done |].
  destruct (Ascii.eqb_spec c "*"%char) as [-> |]; done.
Qed.

Definition bulk (v : string) : reply := mkReply typeBulk v 0 [] false.

(** The first keys of the map that match. *)
Definition matching (pattern : string) (m : gmap string string) : list string :=
  take 100
    (List.filter (λ key, glob pattern key && (slen key <=? maxBulkSize)) (map_to_list m).*1).

(** Commands on a map; what is not known is answered with OK. *)
Definition perform (args : list string) (m : gmap string string) : reply * gmap string string :=
  match args with
  | [cmd; key] =>
      if cmd =s "GET" then
        (match m !! key with
         | Some v => if slen v <=? maxBulkSize then mkReply typeBulk v 0 [] false else null_bulk
         | None => null_bulk
         end, m)
      else if cmd =s "DEL" then (mkReply typeInt "" 1 [] false, delete key m)
      else (status_ok, m)
  | cmd :: key :: v :: more =>
      if cmd =s "SET" then
        if Nat.odd (length more) then
          match m !! key with
          | Some _ => (null_bulk, m)
          | None => (status_ok, <[key := v]> m)
          end
        else (status_ok, <[key := v]> m)
      else if cmd =s "SCAN" then
        (mkReply typeArray "" 0
           [bulk "0"; mkReply typeArray "" 0 (bulk <$> matching (default "" (head more)) m) false] false, m)
      else (status_ok, m)
  | _ => (status_ok, m)
  end.

Definition handle (bytes : string) (m : gmap string string) : reply * gmap string string :=
  match readReply "EOF" depthFuel 0 bytes with
  | Some (Ok rp, _) => perform (r_str <$> r_arr rp) m
  | _ => (status_ok, m)
  end.

Definition serve (_ : nat) (bytes : string) (m : gmap string string) : string * gmap string string :=
  let '(rp, m') := handle bytes m in (render rp, m').

Definition answers (_ : nat) (args : list string) (m : gmap string string) : reply :=
  (handle (encodeCommand "" args) m).1.

Lemma perform_within args m : within 0 (perform args m).1.
Proof.
  assert (within 0 status_ok) by (apply within_line; [done | by left | done | by vm_compute]).
  assert (within 0 null_bulk) by (apply within_null; auto; done).
  assert (within 0 (mkReply typeInt "" 1 [] false)) by (apply within_int; [done | by vm_compute]).
  assert (∀ p, within 0 (mkReply typeArray "" 0
    [bulk "0"; mkReply typeArray "" 0 (bulk <$> matching p m) false] false)).
  { intros p. apply within_array; [done | by vm_compute |].
    intros item [-> | ->%list_elem_of_singleton]%elem_of_cons; [by apply within_bulk; vm_compute |].
    apply within_array; [done | |].
    - rewrite length_fmap. unfold matching. rewrite length_take. change maxArrayLen with 1048576. lia.
    - intros item (key & -> & Hk)%list_elem_of_fmap. apply within_bulk; [done |].
      apply elem_of_take in Hk as (i & Hk & _). apply list_elem_of_lookup_2, list_elem_of_In in Hk.
      apply filter_In in Hk as [_ Hk]. apply andb_true_iff in Hk as [_ Hk]. by apply Z.leb_le. }
  unfold perform. repeat case_match; cbn [fst]; auto. apply within_bulk; [done |]. by apply Z.leb_le.
Qed.

Lemma matching_glob p m key : key ∈ matching p m → glob p key = true.
Proof.
  intros (i & Hk & _)%elem_of_take. apply list_elem_of_lookup_2, list_elem_of_In in Hk.
  apply filter_In in Hk as [_ Hk]. by apply andb_true_iff in Hk as [Hk _].
Qed.

Lemma toy_one_reply c args m :
  within 0 (answers c args m) ∧ (serve c (encodeCommand "" args) m).1 = render (answers c args m).
Proof.
  unfold answers, serve. destruct (handle (encodeCommand "" args) m) as [rp m'] eqn:E. split; [| done].
  cbn. unfold handle in E. repeat case_match; simplify_eq;
    try (apply within_line; [done | by left | done | by vm_compute]).
  match goal with H : perform ?a ?b = _ |- _ => pose proof (perform_within a b) as Hw; by rewrite H in Hw end.
Qed.

Lemma handle_small args m : (length args ≤ 6)%nat → Forall small args →
  handle (encodeCommand "" args) m = perform args m.
Proof.
  intros Hn Hs. unfold handle. rewrite encodeCommand_render, string_app_nil.
  assert (within 0 (command args)) as Hw.
  { apply command_within; [change maxArrayLen with 1048576; lia |]. by apply Forall_forall. }
  pose proof (decode_render "EOF" depthFuel 0 (command args) "" Hw ltac:(done)) as Hd.
  rewrite string_app_empty_r in Hd. rewrite Hd. cbn. rewrite <-list_fmap_compose.
  f_equal. clear. induction args as [| a args IH]; [done |]. cbn. by f_equal.
Qed.

#[export] Instance toy_map : MapServer serve answers (λ m, m).
Proof.
  assert (∀ s, slen s ≤ 10 → small s) as Hten by (unfold small; change maxBulkSize with 67108864; lia).
  assert (∀ c args m, (length args ≤ 6)%nat → Forall small args →
    answers c args m = (perform args m).1 ∧ next serve c args m = (perform args m).2) as Hp.
  { intros c args m Hn Hs. unfold answers, next, serve. rewrite handle_small by done.
    by destruct (perform args m). }
  assert (∀ px, expiryArgs px → Forall small px ∧ (length px = 0 ∨ length px = 2)%nat) as Hpx.
  { intros px [-> | (ms & Hms & ->)]; [by auto |]. split; [| by auto].
    repeat constructor; [by apply Hten | by apply small_itoa]. }
  split.
  - intros c args m Hh Hn Hs. destruct (Hp c args m) as [-> ->]; [lia | done |].
    destruct args as [| a [| b [| d args]]]; try done. all: cbn in *.
    all: destruct (a =s "GET") eqn:E1; [apply seqb_eq in E1; by subst |].
    all: destruct (a =s "DEL") eqn:E2; [apply seqb_eq in E2; by subst |].
    all: destruct (a =s "SET") eqn:E3; [apply seqb_eq in E3; by subst |].
    all: destruct (a =s "SCAN") eqn:E4; [apply seqb_eq in E4; by subst | done].
  - intros c key m Hk Hv. destruct (Hp c ["GET"; key] m) as [-> ->];
      [cbn; lia | by repeat constructor; [apply Hten |] |].
    cbn. split; [| done]. destruct (m !! key) as [v |] eqn:E; [| done].
    rewrite (proj2 (Z.leb_le _ _)); [done | by apply Hv].
  - intros c key v px m Hk Hv He. destruct (Hpx _ He) as [Hs Hl].
    destruct (Hp c (["SET"; key; v] ++ px) m) as [-> ->].
    { cbn. lia. } { repeat constructor; [by apply Hten | done..]. }
    cbn. destruct Hl as [-> | ->]; done.
  - intros c key v px m Hk Hv He. destruct (Hpx _ He) as [Hs Hl].
    destruct (Hp c ((["SET"; key; v] ++ px) ++ ["NX"]) m) as [-> ->].
    { rewrite length_app. cbn. lia. }
    { cbn. repeat constructor; [by apply Hten | done | done |]. apply Forall_app.
      split; [done |]. by repeat constructor; apply Hten. }
    cbn. assert (Nat.odd (length (px ++ ["NX"])) = true) as ->.
    { rewrite length_app. destruct Hl as [-> | ->]; done. }
    by destruct (m !! key).
  - intros c key m Hk. destruct (Hp c ["DEL"; key] m) as [-> ->];
      [cbn; lia | by repeat constructor; [apply Hten |] | done].
Qed.

Lemma toy_scan c cursor pattern m next page : small cursor → small pattern →
  r_arr (answers c ["SCAN"; cursor; "MATCH"; pattern; "COUNT"; itoa scanBatch] m) = [next; page] →
  ∀ item, item ∈ r_arr page → glob pattern (r_str item) = true.
Proof.
  intros Hc Hp. unfold answers. rewrite handle_small; [| cbn; lia |].
  - cbn -[matching]. intros [= <- <-] item. cbn -[matching].
    intros (key & -> & Hk)%list_elem_of_fmap. by apply matching_glob in Hk.
  - repeat constructor; try done; unfold small; by vm_compute.
Qed.

(** A network without faults, and one whose first answer after the opening is
    cut off. *)
Definition calm : Net := mkNet None None None None true None "EOF".
Definition cut : Net := mkNet None None None None true (Some 3%nat) "i/o timeout".

Definition opts : Options := mkOptions "" "" "secret" 2 1 0 0 "app:".

Definition first_cut (i : nat) : Net := if (i =? 4)%nat then cut else calm.

End Toy.

(** A write whose answer is lost is sent again, so a [Set] may reach the server
    twice; it sets the same value. *)
Example set_sent_twice :
  let s := (NewValkey Toy.serve Toy.first_cut Toy.opts ∅).2 in
  let '(r, s') := RSet Toy.serve Toy.first_cut "k" "v" 0 s in
  r = Ok () ∧ commands (wire s') = commands (wire s) ++ [["SET"; "app:k"; "v"]; ["SET"; "app:k"; "v"]].
Proof. vm_compute. split; reflexivity. Qed.



Lemma DeletePrefix_confined_witness :
  let s := foldl (vexec Toy.serve Toy.first_cut) (NewValkey Toy.serve Toy.first_cut Toy.opts ∅).2
             [VSet "a*" "1" 0; VSet "ab" "2" 0] in
  let s' := (RDeletePrefix Toy.serve Toy.first_cut 2 "a*" s).2 in
  server s' = {["app:ab" := "2"]} ∧
  ∃ more, commands (wire s') = commands (wire s) ++ more ∧ Forall (spares "app:a*") more.
Proof.
  cbv zeta. split; [by vm_compute |].
  exact (DeletePrefix_confined Toy.serve Toy.first_cut Toy.answers Toy.toy_one_reply Toy.glob
    (glob_laws := Toy.glob_laws) Toy.toy_scan Toy.opts ∅ [VSet "a*" "1" 0; VSet "ab" "2" 0] 2 "a*"
    ltac:(vm_compute; discriminate)).
Defined.
