(* ===== verification/CacheAPI.v ===== *)
(** What the rest of the program uses of a cache: the functions of
    [src/src/cache/cache.go], over any backend.

    [Backend] is the interface [Cache] (with [Locker]); [BackendLaws] is what its
    clients rely on: which keys are live at a moment, and what a deletion, a
    lookup and a conditional store do to them.  The in-memory backend of
    [MemoryCache.v] is an instance.  A call of the client that makes two calls
    of the backend takes the moments of both. *)
From stdpp Require Import prelude strings list gmap.
From Stdlib Require Import ZArith Lia Ascii.
From S2P Require Import Prelude GoTime Resp MemoryCache.

(** * The interface *)

Class Backend (C : Type) := {
  b_get : Moment → string → C → Result CacheError (option string) * C;
  b_set : Moment → string → string → Z → C → Result CacheError () * C;
  b_setNX : Moment → string → string → Z → C → Result CacheError bool * C;
  b_delete : Moment → string → C → Result CacheError () * C;
  b_deletePrefix : Moment → string → C → Result CacheError () * C }.

(** [live c now key] is the value a lookup at [now] finds. *)
Class BackendLaws (C : Type) `{!Backend C} (ok : C → Prop) (live : C → Z → string → option string) : Prop := {
  get_ok : ∀ t key c r c', ok c → b_get t key c = (r, c') →
    ok c' ∧ (∀ v, r = Ok v → v = live c (at_now t) key) ∧
    ∀ now k, at_now t ≤ now → live c' now k = live c now k;
  setNX_ok : ∀ t key v ttl c r c', ok c → b_setNX t key v ttl c = (r, c') →
    ok c' ∧ (r = Ok true → live c (at_now t) key = None ∧ (0 < ttl → live c' (at_now t) key = Some v)) ∧
    (r = Ok false → live c (at_now t) key ≠ None ∧ c' = c);
  delete_ok : ∀ t key c r c', ok c → b_delete t key c = (r, c') →
    ok c' ∧ ∀ now k, live c' now k =
      match r with Ok _ => if k =s key then None else live c now k | Err _ => live c now k end;
  deletePrefix_ok : ∀ t p c r c', ok c → b_deletePrefix t p c = (r, c') →
    ok c' ∧ ∀ now k, live c' now k =
      match r with Ok _ => if HasPrefix k p then None else live c now k | Err _ => live c now k end }.

(** * Keys *)

Definition segment_char (c : ascii) : bool :=
  let n := Ascii.N_of_ascii c in
  ((97 <=? n) && (n <=? 122) || (48 <=? n) && (n <=? 57))%N ||
  existsb (Ascii.eqb c) ["."; "_"; "-"; "="]%char.

(** A byte that continues a character of several bytes. *)
Definition continuation (c : ascii) : bool :=
  let n := Ascii.N_of_ascii c in ((128 <=? n) && (n <? 192))%N.

(** The loop over the characters: one hyphen for each that is not allowed. *)
Fixpoint segmentLoop (s : string) : string :=
  match s with
  | EmptyString => EmptyString
  | String c s' =>
      if segment_char c then String c (segmentLoop s')
      else if continuation c then segmentLoop s'
      else String "-"%char (segmentLoop s')
  end.

Definition normalizeSegment (part : string) : string :=
  let s := ToLower (TrimSpace part) in
  if s =s "" then "" else segmentLoop s.

Definition segments (parts : list string) : list string :=
  List.filter (λ s, negb (s =s "")) (normalizeSegment <$> parts).

Fixpoint join (sep : string) (l : list string) : string :=
  match l with
  | [] => ""
  | [s] => s
  | s :: rest => s +:+ sep +:+ join sep rest
  end.

Definition Key (parts : list string) : string := join ":" (segments parts).

Definition VersionedKey (version : Z) (parts : list string) : string :=
  Key (("v" +:+ itoa version) :: parts).

Definition RateKey (kind subject : string) : string := Key ["rate"; kind; subject].
Definition LockKey (resource : string) : string := Key ["lock"; resource].

(** [userID] is the text [%v] gives. *)
Definition UserKey (userID : string) (parts : list string) : string := Key ("user" :: userID :: parts).

(** * Operations *)

Section client.
Context {C : Type} `{!Backend C}.

(** What the loader answers, at the moment between the two calls. *)
Definition GetOrSet {E} (t1 t2 : Moment) (key : string) (ttl : Z) (load : option (Result E string))
    (c : option C) : (string * option (CacheError + E)) * option C :=
  match load with
  | None => (("", Some (inl ErrUnsupported)), c)
  | Some load =>
      let '(hit, c) :=
        match c with
        | None => (None, None)
        | Some c =>
            let '(r, c) := b_get t1 key c in
            (match r with Ok (Some v) => Some v | _ => None end, Some c)
        end in
      match hit with
      | Some v => ((v, None), c)
      | None =>
          match load with
          | Err e => (("", Some (inr e)), c)
          | Ok v =>
              match c with
              | None => ((v, None), None)
              | Some c =>
                  let '(r, c) := b_set t2 key v ttl c in
                  match r with Err e => ((v, Some (inl e)), Some c) | Ok _ => ((v, None), Some c) end
              end
          end
      end
  end.

Definition InvalidateScope (t1 t2 : Moment) (scope : string) (c : C) : Result CacheError () * C :=
  if scope =s "" then (Err ErrEmptyPrefix, c) else
  match b_delete t1 scope c with
  | (Err e, c) => (Err e, c)
  | (Ok _, c) => b_deletePrefix t2 (scope +:+ ":") c
  end.

Definition InvalidateUser (t1 t2 : Moment) (userID : string) (c : C) : Result CacheError () * C :=
  InvalidateScope t1 t2 (UserKey userID []) c.

Definition AcquireLock (t : Moment) (resource owner : string) (ttl : Z) (c : C)
    : Result CacheError bool * C :=
  if ttl <=? 0 then (Err ErrLockTTL, c) else b_setNX t (LockKey resource) owner ttl c.

Definition ReleaseLock (t1 t2 : Moment) (resource owner : string) (c : C) : Result CacheError () * C :=
  let key := LockKey resource in
  match b_get t1 key c with
  | (Err e, c) => (Err e, c)
  | (Ok v, c) =>
      match v with
      | Some v => if v =s owner then b_delete t2 key c else (Ok (), c)
      | None => (Ok (), c)
      end
  end.

End client.

(** * The in-memory backend *)

#[export] Instance memory_backend : Backend memoryCache := {
  b_get := Get; b_set := Set_; b_setNX := SetNX; b_delete := Delete; b_deletePrefix := DeletePrefix }.

Definition memory_ok (c : memoryCache) : Prop := ∃ s, implements c s.

Definition memory_live (c : memoryCache) (now : Z) (key : string) : option string :=
  match entries c !! key with
  | Some e => if expired e now then None else Some (val e)
  | None => None
  end.

Lemma guarded_cases {A} t bad c (body : Result CacheError A * memoryCache) r c' :
  guarded t bad c body = (r, c') → (∃ e, r = Err e ∧ c' = c) ∨ body = (r, c').
Proof. unfold guarded. repeat case_match; intros; simplify_eq; eauto. Qed.

Lemma expired_later e now now' : expired e now = true → now ≤ now' → expired e now' = true.
Proof.
  unfold expired. intros [H1 H2]%andb_true_iff Hle. rewrite H1. apply Z.ltb_lt in H2.
  apply Z.ltb_lt. lia.
Qed.

Lemma assoc_without {A} (p : string → bool) key (l : list (string * A)) :
  assoc key (List.filter (λ kv, negb (p kv.1)) l) = if p key then None else assoc key l.
Proof.
  induction l as [| [k a] l IH]; cbn; [by destruct (p key) |].
  destruct (key =s k) eqn:E.
  - apply seqb_eq in E as <-. destruct (p key) eqn:Ep; cbn; [by rewrite IH |]. by rewrite seqb_refl.
  - destruct (negb (p k)); cbn; rewrite ?E; exact IH.
Qed.

Lemma removeWhere_lookup (p : string → bool) c key : memory_ok c →
  entries (removeWhere (λ k _, p k) c) !! key = if p key then None else entries c !! key.
Proof.
  intros [s Hs]. pose proof (implements_where c s (λ k _, p k) Hs) as Hw.
  rewrite <-(implements_find _ _ key Hw), <-(implements_find _ _ key Hs).
  apply (assoc_without p).
Qed.

Lemma store_lookup c k v ttl now : memory_ok c →
  memory_ok (storeLocked k v ttl now c) ∧
  entries (storeLocked k v ttl now c) !! k = Some (mkEntry v (expiry ttl now)).
Proof.
  intros [s Hs]. pose proof (implements_store c s k v ttl now Hs) as Hw. split; [by eexists |].
  rewrite <-(implements_find _ _ k Hw). destruct Hs as (_ & _ & _ & Hp & _).
  unfold sp_find, in_front. cbn [sp_entries]. destruct (Z.to_nat (sp_max s)) eqn:E; [lia |].
  cbn. by rewrite seqb_refl.
Qed.

Lemma memory_ok_remove c k : memory_ok c → memory_ok (removeLocked k c).
Proof. intros [s Hs]. eexists. by apply implements_remove. Qed.

#[export] Instance memory_laws : BackendLaws memoryCache memory_ok memory_live.
Proof.
  split.
  - intros t key c r c' Hok [(e & -> & ->) | H]%guarded_cases; [done |]. unfold memory_live.
    destruct (entries c !! key) as [e |] eqn:Ee; [destruct (expired e (at_now t)) eqn:Ex |]; simplify_eq.
    + split; [by apply memory_ok_remove |]. split; [by intros v [= <-] |].
      intros now k Hn. cbn. destruct (decide (k = key)) as [-> | Hk].
      * by rewrite lookup_delete_eq, Ee, (expired_later _ _ _ Ex Hn).
      * by rewrite lookup_delete_ne.
    + destruct Hok as [s Hs]. split.
      { exists (in_front key e s). pose proof (implements_front c s key e e Hs Ee) as Hf.
        by rewrite insert_id in Hf. }
      split; [by intros v [= <-] | done].
    + split; [done |]. split; [by intros v [= <-] | done].
  - intros t key v ttl c r c' Hok [(e & -> & ->) | H]%guarded_cases; [done |]. unfold memory_live.
    assert (∀ c0, memory_ok c0 → let c1 := storeLocked key v ttl (at_now t) c0 in
      memory_ok c1 ∧ (0 < ttl → memory_live c1 (at_now t) key = Some v)) as Hst.
    { intros c0 H0 c1. destruct (store_lookup c0 key v ttl (at_now t) H0) as [H1 H2]. split; [done |].
      intros Hp. unfold memory_live, c1. rewrite H2. unfold expired, expiry. cbn.
      rewrite (proj2 (Z.ltb_lt _ _) Hp). rewrite (proj2 (Z.ltb_ge _ _)) by lia. by rewrite andb_false_r. }
    destruct (entries c !! key) as [e |] eqn:Ee; [destruct (expired e (at_now t)) eqn:Ex |];
      cbn [negb] in H; simplify_eq.
    + destruct (Hst (removeLocked key c)) as [H1 H2]; [by apply memory_ok_remove |].
      split; [done |]. split; [| done]. by intros _.
    + split; [done |]. split; [done |]. by intros _.
    + destruct (Hst c Hok) as [H1 H2]. split; [done |]. by split.
  - intros t key c r c' Hok [(e & -> & ->) | H]%guarded_cases; [done |]. unfold memory_live. simplify_eq.
    destruct (entries c !! key) as [e |] eqn:Ee.
    + split; [by apply memory_ok_remove |]. intros now k. cbn.
      destruct (k =s key) eqn:Ek; [apply seqb_eq in Ek as ->; by rewrite lookup_delete_eq |].
      apply seqb_neq in Ek. by rewrite lookup_delete_ne.
    + split; [done |]. intros now k. destruct (k =s key) eqn:Ek; [| done].
      apply seqb_eq in Ek as ->. by rewrite Ee.
  - intros t p c r c' Hok [(e & -> & ->) | H]%guarded_cases; [done |]. unfold memory_live. simplify_eq.
    split; [destruct Hok as [s Hs]; eexists; by apply implements_where |].
    intros now k. rewrite (removeWhere_lookup (λ k, HasPrefix k p)) by done. by destruct (HasPrefix k p).
Qed.

(** * Properties *)

Lemma segmentLoop_chars s : forallb segment_char (String.list_ascii_of_string (segmentLoop s)) = true.
Proof.
  induction s as [| c s IH]; [done |]. cbn. destruct (segment_char c) eqn:E; cbn; [by rewrite E |].
  destruct (continuation c); [done | exact IH].
Qed.

Lemma segments_chars parts s : s ∈ segments parts →
  s ≠ "" ∧ forallb segment_char (String.list_ascii_of_string s) = true.
Proof.
  unfold segments. rewrite list_elem_of_In, filter_In. intros [Hin Hne]. split.
  - intros ->. done.
  - apply list_elem_of_In, list_elem_of_fmap in Hin as (p & -> & _). unfold normalizeSegment.
    cbv zeta. destruct (ToLower (TrimSpace p) =s ""); [done | apply segmentLoop_chars].
Qed.

Lemma split_go_colon cur s rest :
  forallb segment_char (String.list_ascii_of_string s) = true →
  split_go ":"%char cur (s +:+ rest) = split_go ":"%char (cur +:+ s) rest.
Proof.
  revert cur. induction s as [| c s IH]; intros cur H; [by rewrite string_app_empty_r |].
  cbn in H. apply andb_true_iff in H as [Hc Hs]. rewrite string_app_cons. cbn.
  destruct (Ascii.eqb_spec c ":"%char) as [-> |]; [done |]. rewrite IH by done.
  by rewrite string_app_assoc.
Qed.

(** A key is taken apart at its colons into exactly the segments it was built
    from, none of them empty and each of allowed characters only, so no part
    given by a caller can add a separator or a pattern character. *)
Theorem Key_segments (parts : list string) (Hne : segments parts ≠ []) :
  Split (Key parts) ":"%char = segments parts ∧
  ∀ s, s ∈ segments parts →
    s ≠ "" ∧ forallb segment_char (String.list_ascii_of_string s) = true.
Proof.
  split; [| by apply segments_chars]. unfold Key, Split.
  assert (∀ s, s ∈ segments parts → forallb segment_char (String.list_ascii_of_string s) = true) as Hc
    by (intros s Hs; by apply segments_chars in Hs as [_ Hs]).
  revert Hne Hc. generalize (segments parts). clear parts. intros l.
  induction l as [| s l IH]; intros Hne Hc; [done |]. specialize (Hc s) as Hs.
  destruct l as [| s' l].
  - cbn [join]. rewrite <-(string_app_empty_r s) at 1. rewrite split_go_colon by (apply Hs; left). done.
  - change (join ":" (s :: s' :: l)) with (s +:+ ":" +:+ join ":" (s' :: l)).
    rewrite split_go_colon by (apply Hs; left). rewrite string_app_nil, (string_app_cons ":"%char ""), string_app_nil.
    cbn [split_go Ascii.eqb Bool.eqb]. f_equal. apply IH; [done |]. intros x Hx. apply Hc. by right.
Qed.

Section laws.
Context {C : Type} {HB : Backend C} {ok : C → Prop} {live : C → Z → string → option string}.
Context {HL : BackendLaws C ok live}.

(** Invalidating a scope removes the entry of the scope and every entry
    nested in it, and no other: another key that merely starts with the same
    text keeps its entry. *)
Theorem InvalidateScope_exact (t1 t2 : Moment) (scope : string) (c c' : C) (Hok : ok c)
    (H : InvalidateScope t1 t2 scope c = (Ok (), c')) :
  ok c' ∧ ∀ now key, live c' now key =
    if (key =s scope) || HasPrefix key (scope +:+ ":") then None else live c now key.
Proof.
  unfold InvalidateScope in H. destruct (scope =s ""); [done |].
  destruct (b_delete t1 scope c) as [[[] | e] c1] eqn:E1; [| done].
  destruct (delete_ok _ _ _ _ _ Hok E1) as [Hok1 L1].
  destruct (deletePrefix_ok _ _ _ _ _ Hok1 H) as [Hok2 L2]. split; [done |].
  intros now key. rewrite L2, L1. destruct (key =s scope), (HasPrefix key _); done.
Qed.

(** A lock is won only when nobody holds it, its entry then names the winner,
    a later request fails as long as that entry lives, and a release by anyone
    else changes no entry. *)
Theorem cache_lock_exclusive (t : Moment) (resource owner : string) (ttl : Z) (c c1 : C)
    (Hok : ok c) (H : AcquireLock t resource owner ttl c = (Ok true, c1)) :
  live c (at_now t) (LockKey resource) = None ∧
  live c1 (at_now t) (LockKey resource) = Some owner ∧
  (∀ t' other ttl', live c1 (at_now t') (LockKey resource) ≠ None →
     (AcquireLock t' resource other ttl' c1).1 ≠ Ok true) ∧
  (∀ t1 t2 other now key, live c1 (at_now t1) (LockKey resource) ≠ Some other → at_now t1 ≤ now →
     live (ReleaseLock t1 t2 resource other c1).2 now key = live c1 now key).
Proof.
  unfold AcquireLock in H. destruct (Z.leb_spec ttl 0); [done |].
  destruct (setNX_ok _ _ _ _ _ _ _ Hok H) as (Hok1 & L & _). destruct (L eq_refl) as [L1 L2].
  split; [done |]. split; [by apply L2 |]. split.
  - intros t' other ttl' Hl. unfold AcquireLock. destruct (ttl' <=? 0); [done |].
    intros E. destruct (setNX_ok _ _ _ _ _ _ _ Hok1 (surjective_pairing (b_setNX t' (LockKey resource) other ttl' c1)))
      as (_ & L' & _). by destruct (L' E).
  - intros t1 t2 other now key Hl Hn. unfold ReleaseLock.
    destruct (b_get t1 (LockKey resource) c1) as [r c2] eqn:E.
    destruct (get_ok _ _ _ _ _ Hok1 E) as (_ & Lv & Lc). destruct r as [v | e]; [| by apply Lc].
    rewrite <-(Lv v eq_refl) in Hl. destruct v as [v |]; [| by apply Lc].
    destruct (v =s other) eqn:Ev; [apply seqb_eq in Ev; by subst | by apply Lc].
Qed.
End laws.

(** * Witnesses and examples *)

Lemma Key_segments_witness :
  Key ["Rate"; " "; "a:b*"; "x.y"] = "rate:a-b-:x.y" ∧
  Split (Key ["Rate"; " "; "a:b*"; "x.y"]) ":"%char = ["rate"; "a-b-"; "x.y"].
Proof.
  split; [reflexivity |].
  exact (proj1 (Key_segments ["Rate"; " "; "a:b*"; "x.y"] ltac:(vm_compute; discriminate))).
Defined.

Definition filled : memoryCache :=
  (run exec [OSet (noon 0) "user:1" "a" 0; OSet (noon 0) "user:1:x" "b" 0; OSet (noon 0) "user:12" "c" 0]
     (newMemory 9)).2.

Lemma newMemory_ok n : memory_ok (newMemory n).
Proof. eexists. apply implements_new_cache. Qed.

Lemma filled_ok : memory_ok filled.
Proof. eexists. apply (run_refines _ _ _ (implements_new_cache 9)). Qed.

Definition emptied : memoryCache := (InvalidateScope (noon 1) (noon 1) "user:1" filled).2.

Lemma InvalidateScope_exact_witness :
  memory_live emptied 2 "user:1" = None ∧ memory_live emptied 2 "user:1:x" = None ∧
  memory_live emptied 2 "user:12" = Some "c".
Proof.
  assert (InvalidateScope (noon 1) (noon 1) "user:1" filled = (Ok (), emptied)) as E
    by (vm_compute; reflexivity).
  destruct (InvalidateScope_exact (HL := memory_laws) _ _ _ _ _ filled_ok E) as [_ H].
  rewrite !H. split; [| split]; vm_compute; reflexivity.
Defined.

Definition locked : memoryCache := (AcquireLock (noon 0) "backup" "n1" 10 (newMemory 5)).2.

Lemma cache_lock_exclusive_witness :
  memory_live locked 0 "lock:backup" = Some "n1" ∧ (AcquireLock (noon 9) "backup" "n2" 10 locked).1 ≠ Ok true.
Proof.
  assert (AcquireLock (noon 0) "backup" "n1" 10 (newMemory 5) = (Ok true, locked)) as E
    by (vm_compute; reflexivity).
  destruct (cache_lock_exclusive (HL := memory_laws) _ _ _ _ _ _ (newMemory_ok 5) E) as (_ & H1 & H2 & _).
  split; [exact H1 |]. apply H2. vm_compute. discriminate.
Defined.

(** The in-memory backend forgets the entry of a lock under pressure, and the
    next request wins it again long before its time to live. *)
Example lock_evicted :
  let c1 := (AcquireLock (noon 0) "backup" "n1" 1000 (newMemory 1)).2 in
  let c2 := (Set_ (noon 1) "page" "x" 0 c1).2 in
  (AcquireLock (noon 2) "backup" "n2" 1000 c2).1 = Ok true.
Proof. reflexivity. Qed.
