(* ===== verification/Sql.v ===== *)
(** Services over shared SQL tables: one atomic section per statement.

    [St] is the state a service shares (its tables and what it keeps in memory);
    an operation is a program of [Threads.v] over it.  [Env] is the world a section
    meets: a statement may fail before or after it took effect, the clock and the
    random numbers are arbitrary.  A table is a list of rows in the order of their
    insertion. *)
From stdpp Require Import prelude strings list gmap.
From Stdlib Require Import ZArith Lia Ascii.
From S2P Require Import Prelude Errors Threads.

Record Env := mkEnv {
  e_now : Z;                 (* nanoseconds since 1970 *)
  e_random : string;         (* random bytes, in hexadecimal *)
  e_fault : option error;    (* the statement fails *)
  e_applied : bool;          (* it had taken effect *)
  e_count : option error;    (* the driver cannot count the rows *)
  e_ctx : option error;      (* the context is done *)
  e_short : option nat }.    (* an upload breaks off *)

Definition unixOf (e : Env) : Z := e_now e / 1000000000.

(** * Tables *)

Section tables.
Context {St : Type}.

Record Table (R : Type) := mkTable { get : St → list R; put : list R → St → St }.
Arguments mkTable {R} _ _.
Arguments get {R} _ _.
Arguments put {R} _ _ _.

Definition SELECT {R} (tb : Table R) (P : R → bool) (s : St) : list R := List.filter P (get tb s).

Definition INSERT {R} (tb : Table R) (r : R) (s : St) : Z * St := (1, put tb (get tb s ++ [r]) s).

(** The rows affected, and the tables afterwards. *)
Definition UPDATE {R} (tb : Table R) (P : R → bool) (f : R → R) (s : St) : Z * St :=
  (Z.of_nat (length (List.filter P (get tb s))),
   put tb ((λ r, if P r then f r else r) <$> get tb s) s).

Definition DELETE {R} (tb : Table R) (P : R → bool) (s : St) : Z * St :=
  (Z.of_nat (length (List.filter P (get tb s))), put tb (List.filter (λ r, negb (P r)) (get tb s)) s).

Definition ORDER_BY {R} (leb : R → R → bool) (l : list R) : list R := sort_by leb l.

(** A negative bound counts as zero. *)
Definition LIMIT {R} (limit offset : Z) (l : list R) : list R :=
  take (Z.to_nat limit) (list.drop (Z.to_nat offset) l).
End tables.

Arguments Table : clear implicits.
Arguments mkTable {St R} _ _.
Arguments get {St R} _ _.
Arguments put {St R} _ _ _.

Definition one_of (v : string) (l : list string) : bool := existsb (String.eqb v) l.

(** * Operations *)

Section operations.
Context {St : Type}.
Notation D A := (prog St Env (Res A)).

Definition bindD {A B} (m : D A) (k : A → D B) : D B :=
  pbind m (λ r, match r with Ok a => k a | Err e => Ret (Err e) end).

Definition fail {A} (e : error) : D A := Ret (Err e).
Definition ok_ {A} (a : A) : D A := Ret (Ok a).

Definition nowUnix : prog St Env Z := peek (λ e _, unixOf e).

(** An exec answers with the count of [RowsAffected]. *)
Definition exec (f : St → Z * St) : D (Res Z) :=
  atomic (λ e s,
    match e_fault e with
    | Some err => (Err (Classify err), if e_applied e then (f s).2 else s)
    | None => (Ok (match e_count e with Some err => Err (Classify err) | None => Ok (f s).1 end), (f s).2)
    end).

Definition query {R} (f : St → list R) : D (list R) :=
  peek (λ e s, match e_fault e with Some err => Err err | None => Ok (f s) end).

(** The first row; [sql.ErrNoRows] is [None]. *)
Definition queryRow {R} (f : St → list R) : D (option R) :=
  peek (λ e s,
    match e_fault e with
    | Some ENoRows => Ok None
    | Some err => Err err
    | None => Ok (hd_error (f s))
    end).

Definition UpdateVersioned (f : St → Z * St) : D () :=
  bindD (exec f) (λ n,
    match n with
    | Err e => fail e
    | Ok n => if n =? 0 then fail EConflict else ok_ ()
    end).

(** * Transactions *)

Definition runTx {A} (fn : D A) : D A :=
  pbind fn (λ r, match r with Ok a => ok_ a | Err err => fail (Classify err) end).

(** The attempts of [TxWith], with the wait between two of them. *)
Fixpoint TxWith {A} (attempts : nat) (tx : D A) : D A :=
  match attempts with
  | O => fail (Plain "max retries exceeded")
  | S attempts' =>
      pbind (runTx tx) (λ r,
      match r with
      | Ok a => ok_ a
      | Err err =>
          if negb (IsSerializationError err) then fail err else
          match attempts' with
          | O => fail err
          | S _ =>
              pbind (peek (λ e _, e_ctx e)) (λ done,
              match done with
              | Some c => fail (Classify c)
              | None => TxWith attempts' tx
              end)
          end
      end)
  end.

Definition DefaultMaxRetries : nat := 5.

Definition Tx {A} (tx : D A) : D A := TxWith DefaultMaxRetries tx.
End operations.

Declare Scope sql_scope.
Delimit Scope sql_scope with sql.
Notation "'let*' x := m 'in' k" := (pbind m (λ x, k))
  (at level 200, x pattern, m at level 100, k at level 200) : sql_scope.
Notation "'let?' x := m 'in' k" := (bindD m (λ x, k))
  (at level 200, x pattern, m at level 100, k at level 200) : sql_scope.
#[global] Open Scope sql_scope.
