(* ===== verification/Rely.v ===== *)
(** A proof rule for the programs of a service.

    [wp J G p h Q] says: from history [h] on, every section that [p] runs makes a
    step of [G], provided the history up to it satisfies [J] (which the others may
    extend as they like), and [Q] holds of its result.  [J] is assumed, [G] is
    promised; [reachable_promise] closes the circle when [J] says that the steps so
    far kept [G].  [own_steps] are the sections one operation runs amid any
    interference, for theorems about that operation alone. *)
From stdpp Require Import prelude strings list gmap gmultiset.
From Stdlib Require Import ZArith Lia.
From S2P Require Import Prelude Errors Threads Sql.

Section rule.
Context {St : Type}.
Notation hist := (list St).
Notation program := (prog St Env).
Notation D A := (prog St Env (Res A)).
Context (J : hist → Prop) (G : St → St → Prop).

Fixpoint wp {R : Type} (p : program R) (h : hist) (Q : R → hist → Prop) : Prop :=
  match p with
  | Ret r => Q r h
  | Atom f k =>
      ∀ s h' e, h `suffix_of` s :: h' → J (s :: h') →
      G s (f e s).2 ∧ wp (k (f e s).1) ((f e s).2 :: s :: h') Q
  | Fork q k => wp q h (λ _ _, True) ∧ wp k h Q
  end.

Lemma wp_mono {R} (p : program R) h (Q Q' : R → hist → Prop) :
  wp p h Q → (∀ r h', h `suffix_of` h' → Q r h' → Q' r h') → wp p h Q'.
Proof.
  revert h Q Q'. induction p as [R r | R A f k IH | R q _ k IH]; intros h Q Q' Hp HQ; cbn in *;
    [by apply HQ | |].
  - intros s h' e Hs HJ. destruct (Hp s h' e Hs HJ) as [H1 H2]. split; [done |].
    apply (IH _ _ _ _ H2). intros r h'' Hs'. apply HQ. trans (s :: h'); [done |].
    trans ((f e s).2 :: s :: h'); [by apply suffix_cons_r | done].
  - destruct Hp as [H1 H2]. split; [done |]. by apply (IH _ _ _ H2).
Qed.

Lemma wp_bind {A B} (m : program A) (k : A → program B) h Q :
  wp m h (λ a h', wp (k a) h' Q) → wp (pbind m k) h Q.
Proof.
  revert h. induction m as [R a | R X f k' IH | R q _ m' IH]; intros h Hm; cbn in *; [done | |].
  - intros s h' e Hs HJ. destruct (Hm s h' e Hs HJ) as [H1 H2]. split; [done |]. by apply IH.
  - destruct Hm as [H1 H2]. auto.
Qed.

Lemma wp_ret {A} (a : A) h (Q : A → hist → Prop) : Q a h → wp (Ret a) h Q.
Proof. done. Qed.

(** [p] keeps the promise, whatever it returns. *)
Definition safe {R} (p : program R) : Prop := ∀ h, wp p h (λ _ _, True).

(** [p] keeps it, and [Φ] holds of what it returns without an error. *)
Definition yields {A} (p : D A) (Φ : A → hist → Prop) : Prop :=
  ∀ h, wp p h (λ r h', match r with Ok a => Φ a h' | Err _ => True end).

Lemma yields_safe {A} (p : D A) Φ : yields p Φ → safe p.
Proof. intros H h. eapply wp_mono; [apply H |]. done. Qed.

Lemma safe_yields {A} (p : D A) : safe p → yields p (λ _ _, True).
Proof. intros H h. eapply wp_mono; [apply H |]. by intros [] ? ?. Qed.

(** Of one run from history [h]. *)
Definition safe_at {R} (p : program R) (h : hist) : Prop := wp p h (λ _ _, True).

Lemma safe_at_ret {R} (r : R) h : safe_at (Ret r) h.
Proof. done. Qed.

Lemma safe_at_bind {A B} (m : program A) (k : A → program B) h :
  safe m → (∀ a h', h `suffix_of` h' → safe_at (k a) h') → safe_at (pbind m k) h.
Proof. intros Hm Hk. apply wp_bind. eapply wp_mono; [apply Hm |]. intros a h' Hs _. by apply Hk. Qed.

Lemma safe_at_bindD {A B} (m : D A) (k : A → D B) h :
  safe m → (∀ a h', h `suffix_of` h' → safe_at (k a) h') → safe_at (bindD m k) h.
Proof. intros Hm Hk. apply safe_at_bind; [done |]. intros [a | e] h' Hs; [auto | done]. Qed.

Lemma safe_at_seq {A B} (m : program A) (k : A → program B) h :
  safe_at m h → (∀ a h', h `suffix_of` h' → safe_at (k a) h') → safe_at (pbind m k) h.
Proof. intros Hm Hk. apply wp_bind. eapply wp_mono; [exact Hm |]. intros a h' Hs _. by apply Hk. Qed.

Lemma safe_at_seqD {A B} (m : D A) (k : A → D B) h :
  safe_at m h → (∀ a h', h `suffix_of` h' → safe_at (k a) h') → safe_at (bindD m k) h.
Proof. intros Hm Hk. apply safe_at_seq; [done |]. intros [a | e] h' Hs; [auto | done]. Qed.

Lemma safe_at_yields {A B} (m : D A) (k : A → D B) Φ h :
  yields m Φ → (∀ a h', h `suffix_of` h' → Φ a h' → safe_at (k a) h') → safe_at (bindD m k) h.
Proof.
  intros Hm Hk. apply wp_bind. eapply wp_mono; [apply Hm |]. intros [a | e] h' Hs HΦ; [by apply Hk | done].
Qed.

Lemma safe_peek {A} (f : Env → St → A) : (∀ s, G s s) → safe (peek f).
Proof. intros HG h s h' e _ _. by split. Qed.

Lemma safe_atomic {A} (f : Env → St → A * St) :
  (∀ e s h, J (s :: h) → G s (f e s).2) → safe (atomic f).
Proof. intros HG h s h' e _ HJ. split; [by eapply HG | done]. Qed.

(** * One operation amid the others *)

(** The sections [p] runs from history [h] on, each with the states before and
    after it, while anything happens in between. *)
Inductive own_steps {R} : program R → hist → list (St * St) → R → hist → Prop :=
| own_ret r h : own_steps (Ret r) h [] r h
| own_atom A (f : Env → St → A * St) k s h h' e l r h'' :
    h `suffix_of` s :: h' → own_steps (k (f e s).1) ((f e s).2 :: s :: h') l r h'' →
    own_steps (Atom f k) h ((s, (f e s).2) :: l) r h''
| own_fork q k h l r h'' : own_steps k h l r h'' → own_steps (Fork q k) h l r h''.

(** The sections with nobody in between, from state [s] after [h]. *)
Fixpoint own_run {R} (env : nat → Env) (p : program R) (n : nat) (s : St) (h : hist)
    : list (St * St) * R * hist :=
  match p with
  | Ret r => ([], r, s :: h)
  | Atom f k =>
      let '(l, r, h') := own_run env (k (f (env n) s).1) (Datatypes.S n) (f (env n) s).2 (s :: h) in
      ((s, (f (env n) s).2) :: l, r, h')
  | Fork q k => own_run env k n s h
  end.

Lemma own_run_steps {R} env (p : program R) n s h :
  own_steps p (s :: h) (own_run env p n s h).1.1 (own_run env p n s h).1.2 (own_run env p n s h).2.
Proof.
  revert n s h. induction p as [R r | R A f k IH | R q _ k IH]; intros n s h; cbn; [constructor | |].
  - specialize (IH (f (env n) s).1 (Datatypes.S n) (f (env n) s).2 (s :: h)).
    destruct (own_run _ _ _ _ _) as [[l r] h']. by eapply own_atom.
  - by apply own_fork.
Qed.

Lemma own_steps_suffix {R} (p : program R) h l r h' : own_steps p h l r h' → h `suffix_of` h'.
Proof.
  induction 1 as [| A f k s h h' e l r h'' Hs _ IH |]; [done | | done].
  trans (s :: h'); [done |]. trans ((f e s).2 :: s :: h'); [by apply suffix_cons_r | done].
Qed.

Lemma wp_own_steps {R} (p : program R) h l r h' Q :
  (∀ a b, a `suffix_of` b → J b → J a) → wp p h Q → own_steps p h l r h' → J h' →
  Forall (λ '(s, s'), G s s') l ∧ Q r h'.
Proof.
  intros HJ Hw Ho. revert Hw. induction Ho as [r h | A f k s h h' e l r h'' Hs Ho IH | q k h l r h'' _ IH];
    intros Hw Hj; cbn in Hw; [done | | by apply IH; [apply Hw |]].
  assert (J (s :: h')) as Hjs.
  { apply (HJ _ h''); [| done]. trans ((f e s).2 :: s :: h'); [by apply suffix_cons_r |].
    by eapply own_steps_suffix. }
  destruct (Hw s h' e Hs Hjs) as [HG Hk]. destruct (IH Hk Hj) as [Hl HQ]. split; [by constructor | done].
Qed.
End rule.

(** * All operations together *)

(** Every step of the history, newest first, is one of [G]. *)
Fixpoint chain {St} (G : St → St → Prop) (h : list St) : Prop :=
  match h with
  | s' :: ((s :: _) as h') => G s s' ∧ chain G h'
  | _ => True
  end.

Section promise.
Context {St : Type}.
Notation hist := (list St).
Notation program := (prog St Env).
Context (calm : St → Prop) `{calm_dec : ∀ s, Decision (calm s)} (G : St → St → Prop).

(** The steps so far kept the promise, in states that are calm. *)
Definition kept_so_far (h : hist) : Prop := Forall calm h ∧ chain G h.

Lemma chain_suffix a b : a `suffix_of` b → chain G b → chain G a.
Proof.
  intros [l ->]. induction l as [| s l IH]; [done |]. cbn. destruct (l ++ a) eqn:E; [| intros [_ Hc]; auto].
  apply app_eq_nil in E as [-> ->]. done.
Qed.

Lemma kept_suffix a b : a `suffix_of` b → kept_so_far b → kept_so_far a.
Proof.
  intros Hs [H1 H2]. split; [| by eapply chain_suffix]. destruct Hs as [l ->]. by apply Forall_app in H1 as [_ ?].
Qed.

Definition promised (h : hist) (_ : gmultiset ()) : Prop := Forall calm h → chain G h.

Lemma good_vacuous {R} (p : program R) h own : ¬ Forall calm h → good promised p h own (λ _ _ _, True).
Proof.
  revert h own. induction p as [R r | R A f k IH | R q IHq k IH]; intros h own Hn; cbn; [done | |].
  - intros s h' e others Hs _.
    assert (¬ Forall calm ((f e s).2 :: s :: h')) as Hn'.
    { intros HF. apply Hn. apply Forall_cons_1 in HF as [_ HF].
      destruct Hs as [l E]. rewrite E in HF. by apply Forall_app in HF as [_ ?]. }
    exists own. split; [by intros ? | by apply IH].
  - exists own, ∅. split; [multiset_solver |]. auto.
Qed.

Lemma wp_good {R} (p : program R) h own Q :
  wp kept_so_far G p h Q → good promised p h own (λ _ _ _, True).
Proof.
  revert h own Q. induction p as [R r | R A f k IH | R q IHq k IH]; intros h own Q Hw; cbn in *; [done | |].
  - intros s h' e others Hs HI. exists own.
    destruct (decide (Forall calm (s :: h'))) as [Hc | Hn].
    + destruct (Hw s h' e Hs (conj Hc (HI Hc))) as [HG Hk]. split; [| by eapply IH].
      intros _. split; [done | by apply HI].
    + assert (¬ Forall calm ((f e s).2 :: s :: h')) as Hn' by (intros [_ ?]%Forall_cons_1; done).
      split; [by intros ? | by apply good_vacuous].
  - destruct Hw as [H1 H2]. exists own, ∅. split; [multiset_solver |].
    split; [by eapply IHq | by eapply IH].
Qed.

(** If every handler keeps the promise while the others do, all of them together
    do, under every interleaving. *)
Lemma reachable_promise (handlers : program () → Prop) s0 (c : sys St Env) :
  (∀ p, handlers p → wp kept_so_far G p [] (λ _ _, True)) → reachable handlers s0 c →
  Forall calm (seen c) → chain G (seen c).
Proof.
  intros Hh Hr. destruct (reachable_good promised handlers s0 c) as (owns & HI & _); [done | | done | exact HI].
  intros p Hp. by eapply wp_good, Hh.
Qed.

(** When every step keeps a state calm, a calm start is enough. *)
Section settled.
Hypothesis calm_step : ∀ s s', calm s → G s s' → calm s'.

Lemma wp_settled {R} (p : program R) h own Q :
  wp kept_so_far G p h Q → good (λ h (_ : gmultiset ()), kept_so_far h) p h own (λ _ _ _, True).
Proof.
  revert h own Q. induction p as [R r | R A f k IH | R q IHq k IH]; intros h own Q Hw; cbn in *; [done | |].
  - intros s h' e others Hs HI. exists own. destruct (Hw s h' e Hs HI) as [HG Hk].
    split; [| by eapply IH]. destruct HI as [Hc Hch]. split; [| done]. constructor; [| done].
    apply Forall_cons_1 in Hc as [Hc _]. by eapply calm_step.
  - destruct Hw as [H1 H2]. exists own, ∅. split; [multiset_solver |].
    split; [by eapply IHq | by eapply IH].
Qed.

Lemma reachable_kept (handlers : program () → Prop) s0 (c : sys St Env) : calm s0 →
  (∀ p, handlers p → wp kept_so_far G p [] (λ _ _, True)) → reachable handlers s0 c → kept_so_far (seen c).
Proof.
  intros H0 Hh Hr.
  destruct (reachable_good (λ h (_ : gmultiset ()), kept_so_far h) handlers s0 c) as (owns & HI & _);
    [by repeat constructor | | done | exact HI].
  intros p Hp. by eapply wp_settled, Hh.
Qed.
End settled.
End promise.

(** * A part of the state *)

(** A program over a part of the state, as one over the whole. *)
Fixpoint zoom {S T E R : Type} (view : T → S) (store : S → T → T) (p : prog S E R) : prog T E R :=
  match p with
  | Ret r => Ret r
  | Atom f k => Atom (λ e t, ((f e (view t)).1, store (f e (view t)).2 t)) (λ a, zoom view store (k a))
  | Fork q k => Fork (zoom view store q) (zoom view store k)
  end.

Lemma wp_zoom {S T R : Type} (view : T → S) (store : S → T → T) (J : list S → Prop) (G : S → S → Prop)
    (J' : list T → Prop) (G' : T → T → Prop) :
  (∀ s t, view (store s t) = s) → (∀ h, J' h → J (view <$> h)) →
  (∀ t s', G (view t) s' → G' t (store s' t)) →
  ∀ (p : prog S Env R) (h : list T) Q, wp J G p (view <$> h) Q →
  wp J' G' (zoom view store p) h (λ r h', Q r (view <$> h')).
Proof.
  intros Hv HJ HG p. induction p as [R r | R A f k IH | R q IHq k IH]; intros h Q Hw; cbn in *; [done | |].
  - intros t h' e Hs Hj. destruct (Hw (view t) (view <$> h') e) as [H1 H2].
    + destruct Hs as [l E]. exists (view <$> l). by rewrite <-fmap_app, <-E.
    + by apply HJ in Hj.
    + split; [by apply HG |]. apply IH. cbn. by rewrite Hv.
  - destruct Hw as [H1 H2]. split; [| by apply IH].
    eapply wp_mono; [by apply (IHq _ (λ _ _, True)) | done].
Qed.

(** * Tables whose rows stay *)

Section evolves.
Context {R : Type} (moved : R → R → Prop) (born : R → Prop).

(** Row [i] stays row [i] and changes as [moved] says; new rows are [born]. *)
Definition evolves (l l' : list R) : Prop :=
  (∀ (i : nat) r, l !! i = Some r → ∃ r', l' !! i = Some r' ∧ moved r r') ∧
  (∀ (i : nat) r', (length l ≤ i)%nat → l' !! i = Some r' → born r').

Lemma evolves_refl l : (∀ r, moved r r) → evolves l l.
Proof.
  intros Hr. split; [intros i r Hi; by exists r |].
  intros i r Hl Hi. apply lookup_lt_Some in Hi. lia.
Qed.

Lemma evolves_insert l r : (∀ r, moved r r) → born r → evolves l (l ++ [r]).
Proof.
  intros Hr Hb. split.
  - intros i x Hi. exists x. split; [by apply lookup_app_l_Some | done].
  - intros i x Hl Hi. rewrite lookup_app_r in Hi by done. by apply list_lookup_singleton_Some in Hi as [_ <-].
Qed.

Lemma evolves_update l P f : (∀ r, moved r r) → (∀ r, r ∈ l → P r = true → moved r (f r)) →
  evolves l ((λ r, if P r then f r else r) <$> l).
Proof.
  intros Hr Hf. split.
  - intros i r Hi. eexists. rewrite list_lookup_fmap, Hi. split; [done |].
    destruct (P r) eqn:E; [| done]. apply Hf; [by eapply list_elem_of_lookup_2 | done].
  - intros i r Hl Hi. apply lookup_lt_Some in Hi. rewrite length_fmap in Hi. lia.
Qed.

Lemma evolves_elem l l' r : evolves l l' → r ∈ l → ∃ r', r' ∈ l' ∧ moved r r'.
Proof.
  intros [H _] (i & Hi)%list_elem_of_lookup_1. destruct (H i r Hi) as (r' & Hr' & Hm).
  exists r'. split; [by eapply list_elem_of_lookup_2 | done].
Qed.
End evolves.

(** Rows of a table with a key. *)
Section keyed_rows.
Context {R K : Type} (moved : R → R → Prop) (born : R → Prop) (key : R → K).

Definition rows_step (l l' : list R) : Prop :=
  evolves moved born l l' ∧ (NoDup (key <$> l) → NoDup (key <$> l')).

Lemma rows_refl l : (∀ r, moved r r) → rows_step l l.
Proof. intros Hr. split; [by apply evolves_refl | done]. Qed.

Lemma rows_update l P f : (∀ r, moved r r) → (∀ r, r ∈ l → P r = true → moved r (f r) ∧ key (f r) = key r) →
  rows_step l ((λ r, if P r then f r else r) <$> l).
Proof.
  intros Hr Hf. split; [apply evolves_update; [done |]; intros r Hin HP; by apply Hf |].
  intros Hn. rewrite <-list_fmap_compose.
  replace (key ∘ _ <$> l) with (key <$> l); [done |]. apply list_fmap_ext. intros i r Hi. cbn.
  destruct (P r) eqn:E; [| done]. symmetry. apply Hf; [by eapply list_elem_of_lookup_2 | done].
Qed.

Lemma rows_snoc l l' r : rows_step l l' → born r → (∀ r', r' ∈ l' → key r' ≠ key r) → rows_step l (l' ++ [r]).
Proof.
  intros [[H1 H2] H3] Hb Hk. split; [split |].
  - intros i x Hi. destruct (H1 i x Hi) as (x' & Hx & Hm). exists x'. split; [by apply lookup_app_l_Some | done].
  - intros i x Hl Hi. apply lookup_app_Some in Hi as [Hi | [_ Hi]]; [by eapply H2 |].
    by apply list_lookup_singleton_Some in Hi as [_ <-].
  - intros Hn. rewrite fmap_app. apply list.NoDup_app. split; [auto |]. split; [| apply NoDup_singleton].
    intros k (r' & -> & Hr')%list_elem_of_fmap Hin. cbn in Hin. apply list_elem_of_singleton in Hin. by apply (Hk r').
Qed.

Lemma rows_insert l r : (∀ r, moved r r) → born r → (∀ r', r' ∈ l → key r' ≠ key r) → rows_step l (l ++ [r]).
Proof. intros Hr. apply rows_snoc. by apply rows_refl. Qed.

Lemma rows_trans l1 l2 l3 : (∀ r1 r2 r3, moved r1 r2 → moved r2 r3 → moved r1 r3) →
  (∀ r r', born r → moved r r' → born r') → rows_step l1 l2 → rows_step l2 l3 → rows_step l1 l3.
Proof.
  intros Ht Hb [[A1 A2] A3] [[B1 B2] B3]. split; [| auto]. split.
  - intros i r Hi. destruct (A1 i r Hi) as (r2 & H2 & ?). destruct (B1 i r2 H2) as (r3 & H3 & ?). eauto.
  - intros i r3 Hl Hi. destruct (l2 !! i) as [r2 |] eqn:E; [| apply lookup_ge_None in E; by eapply B2].
    destruct (B1 i r2 E) as (r3' & H3 & ?). assert (r3' = r3) as -> by congruence. eauto.
Qed.

Lemma rows_Forall (good : R → Prop) l l' : (∀ r r', moved r r' → good r → good r') → (∀ r, born r → good r) →
  rows_step l l' → Forall good l → Forall good l'.
Proof.
  intros Hm Hb [[H1 H2] _] HF. apply Forall_lookup. intros i r' Hi.
  destruct (l !! i) as [r |] eqn:E.
  - destruct (H1 i r E) as (r2 & Hi2 & Hmv). assert (r2 = r') as -> by congruence.
    eapply Hm; [done |]. by eapply Forall_lookup_1.
  - apply lookup_ge_None in E. by eapply Hb, H2.
Qed.
End keyed_rows.

(** * What a version fixes *)

Section known.
Context {St R X : Type}.
Notation hist := (list St).
Context (tbl : St → list R) (rid : R → string) (ver : R → Z) (st : R → X).

(** The row [t] was read from, or written as. *)
Definition known (h : hist) (t : R) : Prop :=
  ∃ s r, s ∈ h ∧ r ∈ tbl s ∧ rid r = rid t ∧ ver r = ver t ∧ st r = st t.

Lemma known_later h h' t : h `suffix_of` h' → known h t → known h' t.
Proof. intros [l ->] (s & r & Hs & Hr & ?). exists s, r. set_solver. Qed.
End known.

Section versions.
Context {St R X : Type} (tbl : St → list R) (rid : R → string) (ver : R → Z) (st : R → X).
Context (calm : St → Prop) (promise : St → St → Prop).
Context (moved : R → R → Prop) (born : R → Prop).
Hypothesis steps : ∀ s s', promise s s' → evolves moved born (tbl s) (tbl s').
Hypothesis moves : ∀ r r', moved r r' →
  rid r' = rid r ∧ ver r ≤ ver r' ∧ (ver r' = ver r → st r' = st r).
Hypothesis distinct : ∀ s, calm s → NoDup (rid <$> tbl s).

Lemma later_row s h s1 r : chain promise (s :: h) → s1 ∈ s :: h → r ∈ tbl s1 →
  ∃ r', r' ∈ tbl s ∧ rid r' = rid r ∧ ver r ≤ ver r' ∧ (ver r' = ver r → st r' = st r).
Proof.
  revert s. induction h as [| s2 h IH]; intros s Hc Hin Hr.
  { apply list_elem_of_singleton in Hin as ->. exists r. auto with lia. }
  destruct Hc as [HG Hc]. apply elem_of_cons in Hin as [-> | Hin]; [exists r; auto with lia |].
  destruct (IH s2 Hc Hin Hr) as (r2 & Hr2 & E1 & L1 & S1).
  destruct (evolves_elem _ _ _ _ _ (steps _ _ HG) Hr2) as (r' & Hr' & (E2 & L2 & S2)%moves).
  exists r'. split; [done |]. split; [congruence |]. split; [lia |].
  intros E. rewrite S2, S1 by lia. done.
Qed.

(** At one version a row has one state. *)
Lemma version_fixes s h t r : kept_so_far calm promise (s :: h) → known tbl rid ver st (s :: h) t → r ∈ tbl s →
  rid r = rid t → ver r = ver t → st r = st t.
Proof.
  intros [Hcalm Hc] (s1 & r1 & Hs1 & Hr1 & E1 & V1 & S1) Hr Eid Ever.
  destruct (later_row s h s1 r1 Hc Hs1 Hr1) as (r' & Hr' & E' & L' & S').
  assert (r' = r) as ->.
  { apply Forall_cons_1 in Hcalm as [Hd%distinct _].
    apply list_elem_of_lookup_1 in Hr as (i & Hi). apply list_elem_of_lookup_1 in Hr' as (j & Hj).
    assert (j = i) as ->; [| congruence].
    apply (NoDup_lookup (rid <$> tbl s) j i (rid r)); [done | | by rewrite list_lookup_fmap, Hi].
    rewrite list_lookup_fmap, Hj. cbn. congruence. }
  rewrite S'; [done | congruence].
Qed.
End versions.

(** * Steps that are safe by themselves *)

Create HintDb rely.

Section general.
Context {St : Type}.
Notation hist := (list St).
Notation program := (prog St Env).
Notation D A := (prog St Env (Res A)).
Context {I : hist → Prop} {G : St → St → Prop} `{!Reflexive G}.

Lemma Safe_ret {R} (r : R) : safe I G (Ret r).
Proof. by intros h. Qed.

Lemma Safe_bind {A B} (m : program A) (k : A → program B) :
  safe I G m → (∀ a, safe I G (k a)) → safe I G (pbind m k).
Proof. intros Hm Hk h. apply safe_at_bind; [done |]. intros a h' _. apply Hk. Qed.

Lemma Safe_bindD {A B} (m : D A) (k : A → D B) :
  safe I G m → (∀ a, safe I G (k a)) → safe I G (bindD m k).
Proof. intros Hm Hk h. apply safe_at_bindD; [done |]. intros a h' _. apply Hk. Qed.

Lemma Safe_peek {A} (f : Env → St → A) : safe I G (peek f).
Proof. apply safe_peek. intros s. reflexivity. Qed.

Lemma Safe_query {R} (f : St → list R) : safe I G (query f).
Proof. apply Safe_peek. Qed.

Lemma Safe_queryRow {R} (f : St → list R) : safe I G (queryRow f).
Proof. apply Safe_peek. Qed.

Lemma Safe_nowUnix : safe I G nowUnix.
Proof. apply Safe_peek. Qed.

Lemma Safe_atomic {A} (f : Env → St → A * St) : (∀ e s, G s (f e s).2) → safe I G (atomic f).
Proof. intros Hf. apply safe_atomic. intros e s h _. apply Hf. Qed.

Lemma Safe_exec f : (∀ s, G s (f s).2) → safe I G (exec f).
Proof.
  intros Hf. apply Safe_atomic. intros e s. destruct (e_fault e); cbn; [| apply Hf].
  destruct (e_applied e); [apply Hf | reflexivity].
Qed.

(** A statement whose effect depends on what was read before. *)
Lemma safe_at_exec f h : (∀ s h', h `suffix_of` s :: h' → I (s :: h') → G s (f s).2) → safe_at I G (exec f) h.
Proof.
  intros Hf s h' e Hs HI. specialize (Hf s h' Hs HI). cbn. split; [| done].
  destruct (e_fault e); [destruct (e_applied e); [exact Hf | cbn; reflexivity] | exact Hf].
Qed.

Lemma safe_at_UpdateVersioned f h : (∀ s h', h `suffix_of` s :: h' → I (s :: h') → G s (f s).2) →
  safe_at I G (UpdateVersioned f) h.
Proof.
  intros Hf. apply wp_bind. eapply wp_mono; [by apply safe_at_exec |]. intros [[n | e] | e] h' _ _; [| done | done].
  by destruct (n =? 0).
Qed.

Lemma wp_peek {A} (f : Env → St → A) h Q :
  (∀ e s h', h `suffix_of` s :: h' → I (s :: h') → Q (f e s) (s :: s :: h')) → wp I G (peek f) h Q.
Proof. intros HQ s h' e Hs HI. split; [reflexivity | by apply HQ]. Qed.

Lemma Safe_ok {A} (a : A) : safe I G (ok_ a).
Proof. apply Safe_ret. Qed.

Lemma Safe_fail {A} e : safe I G (fail (A := A) e).
Proof. apply Safe_ret. Qed.
End general.

#[export] Hint Resolve Safe_ret Safe_peek Safe_query Safe_queryRow Safe_nowUnix Safe_ok
  Safe_fail : rely.
#[export] Hint Extern 1 (Reflexive _) => typeclasses eauto : rely.

(** Runs through an operation: the steps that are safe by themselves are passed,
    conditions are split. *)
Ltac safely :=
  lazymatch goal with
  | |- safe _ _ (pbind _ _) => apply Safe_bind; [safely | intros ?; safely]
  | |- safe _ _ (bindD _ _) => apply Safe_bindD; [safely | intros ?; safely]
  | |- safe _ _ (match ?x with _ => _ end) => destruct x; safely
  | |- safe _ _ (let '(_, _) := ?x in _) => destruct x; safely
  | |- safe_at _ _ (pbind _ _) _ => apply safe_at_bind; [safely | intros ? ? ?; safely]
  | |- safe_at _ _ (bindD _ _) _ => apply safe_at_bindD; [safely | intros ? ? ?; safely]
  | |- safe_at _ _ (match ?x with _ => _ end) _ => destruct x; safely
  | |- safe_at _ _ (Ret _) _ => exact Logic.I
  | |- safe_at _ _ (ok_ _) _ => exact Logic.I
  | |- safe_at _ _ (fail _) _ => exact Logic.I
  | |- _ => solve [auto with rely] || idtac
  end.

Lemma Safe_TxWith {St A} {I : list St → Prop} {G : St → St → Prop} `{!Reflexive G} n (tx : prog St Env (Res A)) :
  safe I G tx → safe I G (TxWith n tx).
Proof. intros Ht. induction n as [| n IH]; cbn [TxWith]; [auto with rely |]. unfold runTx. safely. Qed.

(** * From one state to a later one *)

(** [s] is a state the system has been in, [s'] that state or a later one. *)
Definition later {St} (c : sys St Env) (s s' : St) : Prop :=
  ∃ i j, seen c !! i = Some s' ∧ seen c !! j = Some s ∧ (i ≤ j)%nat.

Lemma chain_rtc {St} (G : St → St → Prop) h i j s s' : chain G h → h !! i = Some s' → h !! j = Some s →
  (i ≤ j)%nat → rtc G s s'.
Proof.
  revert i j s s'. induction h as [| x h IH]; intros i j s s' Hc Hi Hj Hle; [done |].
  assert (chain G h) as Hc' by (destruct h; [done | by destruct Hc]).
  destruct i as [| i].
  - injection Hi as ->. destruct j as [| j]; [injection Hj as ->; done |].
    destruct h as [| y h]; [done |]. destruct Hc as [Hg _].
    eapply rtc_r; [| exact Hg]. eapply (IH 0%nat j); [done | done | done | lia].
  - destruct j as [| j]; [lia |]. eapply (IH i j); [done..| lia].
Qed.

Lemma chain_step {St} (G : St → St → Prop) h j s s1 : chain G h → h !! S j = Some s → h !! j = Some s1 → G s s1.
Proof.
  revert j. induction h as [| x h IH]; intros j Hc Hs H1; [done |].
  destruct h as [| y h]; [by destruct j |]. destruct Hc as [Hg Hc]. destruct j as [| j]; [| by apply (IH j)].
  cbn in Hs, H1. by simplify_eq.
Qed.

Lemma chain_later {St} (G : St → St → Prop) s h s1 : chain G (s :: h) → s1 ∈ s :: h → rtc G s1 s.
Proof.
  intros Hc (j & Hj)%list_elem_of_lookup_1. by apply (chain_rtc G (s :: h) 0 j); [.. | lia].
Qed.

(** Row by row along several steps. *)
Section rows.
Context {St R : Type} (promise : St → St → Prop) (tbl : St → list R) (moved : R → R → Prop) (born : R → Prop).
Hypothesis steps : ∀ s s', promise s s' → evolves moved born (tbl s) (tbl s').

Lemma evolves_rtc s s' : rtc promise s s' →
  evolves (rtc moved) (λ r', ∃ r, born r ∧ rtc moved r r') (tbl s) (tbl s').
Proof.
  induction 1 as [s | s s1 s2 Hs _ [IH1 IH2]]; [by apply evolves_refl |].
  apply steps in Hs as [H1 H2]. split.
  - intros i r Hi. destruct (H1 i r Hi) as (r1 & Hi1 & Hm). destruct (IH1 i r1 Hi1) as (r2 & Hi2 & Hm2).
    exists r2. split; [done | by eapply rtc_l].
  - intros i r2 Hl Hi. destruct (decide (length (tbl s1) ≤ i)%nat) as [Hl1 | Hl1]; [by eapply IH2 |].
    destruct (lookup_lt_is_Some_2 (tbl s1) i) as [r1 Hi1]; [lia |].
    destruct (IH1 i r1 Hi1) as (r2' & Hi2 & Hm). assert (r2' = r2) as -> by congruence.
    exists r1. split; [by eapply H2 | done].
Qed.
End rows.

Lemma own_yields {St A} (G : St → St → Prop) (p : prog St Env (Res A)) Φ : yields (λ _, True) G p Φ →
  ∀ h l a h', own_steps p h l (Ok a) h' → Φ a h'.
Proof.
  intros Hy h l a h' Ho. by destruct (wp_own_steps _ G p h l _ h' _ (λ _ _ _ _, Logic.I) (Hy h) Ho).
Qed.
