(* ===== verification/Text.v ===== *)
(** Text as Go sees it: UTF-8 bytes read as characters.

    The helpers of [src/src/support/models.go] and [kb.go] that clean, bound and
    reduce what a user typed ([clean], [cleanMultiline], [truncate], [Slugify],
    [kbTerms]), with [StripControlChars] of [src/src/security/input.go] and what
    they use of packages unicode/utf8, unicode and strings.  A byte sequence that
    is not UTF-8 reads as the replacement character, one byte at a time, as Go's
    [range] does.  The tables of package unicode are written out below 128; above,
    they are the class [Unicode], so the theorems hold for every version of the
    standard. *)
From stdpp Require Import prelude strings list.
From Stdlib Require Import ZArith Lia Ascii.
From S2P Require Import Prelude.

(** * UTF-8 *)

Definition RuneError : Z := 65533.

Definition byte (c : ascii) : Z := Z.of_N (Ascii.N_of_ascii c).
Definition chr (n : Z) : ascii := Ascii.ascii_of_N (Z.to_N n).

Definition between (a n b : Z) : bool := (a <=? n) && (n <=? b).
Definition cont (y : Z) : bool := between 128 y 191.

(** The first two bytes of a longer sequence. *)
Definition lead2 (x y : Z) : bool := between 194 x 223 && cont y.
Definition lead3 (x y : Z) : bool :=
  (x =? 224) && between 160 y 191 || between 225 x 236 && cont y ||
  (x =? 237) && between 128 y 159 || between 238 x 239 && cont y.
Definition lead4 (x y : Z) : bool :=
  (x =? 240) && between 144 y 191 || between 241 x 243 && cont y ||
  (x =? 244) && between 128 y 143.

(** [[]rune(s)], and what [range s] visits. *)
Fixpoint runes (s : string) : list Z :=
  match s with
  | EmptyString => []
  | String a s1 =>
      let x := byte a in
      if x <? 128 then x :: runes s1 else
      match s1 with
      | EmptyString => [RuneError]
      | String b s2 =>
          let y := byte b in
          if lead2 x y then (x - 192) * 64 + (y - 128) :: runes s2 else
          match s2 with
          | EmptyString => RuneError :: runes s1
          | String c s3 =>
              let z := byte c in
              if lead3 x y && cont z
              then ((x - 224) * 64 + (y - 128)) * 64 + (z - 128) :: runes s3 else
              match s3 with
              | EmptyString => RuneError :: runes s1
              | String d s4 =>
                  let w := byte d in
                  if lead4 x y && cont z && cont w
                  then (((x - 240) * 64 + (y - 128)) * 64 + (z - 128)) * 64 + (w - 128) :: runes s4
                  else RuneError :: runes s1
              end
          end
      end
  end.

(** A Unicode scalar value. *)
Definition scalar (r : Z) : bool := between 0 r 55295 || between 57344 r 1114111.

Definition text (bs : list Z) (rest : string) : string := foldr (λ b s, String (chr b) s) rest bs.

(** [utf8.AppendRune]. *)
Definition encodeRune (r : Z) : list Z :=
  let r := if scalar r then r else RuneError in
  if r <? 128 then [r]
  else if r <? 2048 then [192 + r / 64; 128 + r mod 64]
  else if r <? 65536 then [224 + r / 4096; 128 + r / 64 mod 64; 128 + r mod 64]
  else [240 + r / 262144; 128 + r / 4096 mod 64; 128 + r / 64 mod 64; 128 + r mod 64].

(** [string(rs)]. *)
Fixpoint string_of (rs : list Z) : string :=
  match rs with [] => "" | r :: rs' => text (encodeRune r) (string_of rs') end.

(** * Classes of characters *)

Class Unicode := {
  u_letter : Z → bool; u_digit : Z → bool; u_upper : Z → Z; u_lower : Z → Z }.

Section unicode.
Context `{!Unicode}.

Definition IsLetter (r : Z) : bool :=
  if r <? 128 then between 65 r 90 || between 97 r 122 else u_letter r.

Definition IsDigit (r : Z) : bool := if r <? 128 then between 48 r 57 else u_digit r.

Definition rune_upper (r : Z) : Z :=
  if r <? 128 then (if between 97 r 122 then r - 32 else r) else u_upper r.

Definition rune_lower (r : Z) : Z :=
  if r <? 128 then (if between 65 r 90 then r + 32 else r) else u_lower r.

Definition ToUpperU (s : string) : string := string_of (rune_upper <$> runes s).
Definition ToLowerU (s : string) : string := string_of (rune_lower <$> runes s).
End unicode.

(** [unicode.IsSpace]. *)
Definition IsSpace (r : Z) : bool :=
  between 9 r 13 || (r =? 32) || (r =? 133) || (r =? 160) || (r =? 5760) || between 8192 r 8202 ||
  (r =? 8232) || (r =? 8233) || (r =? 8239) || (r =? 8287) || (r =? 12288).

Fixpoint drop_front (p : Z → bool) (rs : list Z) : list Z :=
  match rs with r :: rs' => if p r then drop_front p rs' else rs | [] => [] end.

Definition drop_back (p : Z → bool) (rs : list Z) : list Z := reverse (drop_front p (reverse rs)).

(** [strings.TrimFunc]. *)
Definition trim (p : Z → bool) (rs : list Z) : list Z := drop_back p (drop_front p rs).

Definition TrimSpaceU (s : string) : string := string_of (trim IsSpace (runes s)).

(** * Cleaning *)

(** The characters [StripControlChars] lets through. *)
Definition kept_char (r : Z) : bool :=
  (r =? 9) || (r =? 10) || (r =? 13) || negb ((r <? 32) || (r =? 127)).

Definition StripControlChars (s : string) : string := string_of (List.filter kept_char (runes s)).

Definition clean (s : string) : string := TrimSpaceU (StripControlChars s).

(** [strings.ReplaceAll(s, "\r\n", "\n")]. *)
Fixpoint unix_lines (s : string) : string :=
  match s with
  | String a (String b s' as t) =>
      if Ascii.eqb a "013" && Ascii.eqb b "010" then String "010" (unix_lines s')
      else String a (unix_lines t)
  | _ => s
  end.

(** [strings.Join]. *)
Fixpoint join (sep : string) (l : list string) : string :=
  match l with [] => "" | [s] => s | s :: rest => s +:+ sep +:+ join sep rest end.

Definition blank (r : Z) : bool := (r =? 32) || (r =? 9).

Definition clean_line (line : string) : string :=
  string_of (drop_back blank (runes (StripControlChars line))).

Definition LF : string := String "010" "".

Definition cleanMultiline (s : string) : string :=
  TrimSpaceU (join LF (clean_line <$> Split (unix_lines s) "010")).

Definition truncate (s : string) (n : nat) : string :=
  let r := runes s in
  if Nat.leb (length r) n then s else string_of (take n r).

Fixpoint firstNonEmpty (values : list string) : string :=
  match values with [] => "" | v :: rest => if v =s "" then firstNonEmpty rest else v end.

(** * Slugs and terms *)

Section slugs.
Context `{!Unicode}.

Definition slug_char (r : Z) : bool := IsLetter r && (r <? 127) || IsDigit r.

(** The loop of [Slugify]: one hyphen for each run of other characters. *)
Fixpoint slugLoop (lastDash : bool) (rs : list Z) : list Z :=
  match rs with
  | [] => []
  | r :: rs' =>
      if slug_char r then r :: slugLoop false rs'
      else if lastDash then slugLoop true rs' else 45 :: slugLoop true rs'
  end.

Definition Slugify (txt : string) : string :=
  truncate (string_of (trim (λ r, r =? 45) (slugLoop true (runes (ToLowerU txt))))) 120.

(** [strings.FieldsFunc]. *)
Fixpoint fields (sep : Z → bool) (cur rs : list Z) : list (list Z) :=
  match rs with
  | [] => match cur with [] => [] | _ => [reverse cur] end
  | r :: rs' =>
      if sep r then match cur with [] => fields sep [] rs' | _ => reverse cur :: fields sep [] rs' end
      else fields sep (r :: cur) rs'
  end.

Definition kbStopWords : list string :=
  ["the"; "and"; "for"; "with"; "from"; "how"; "why"; "you"; "your"; "can"; "not"; "does"; "did";
   "was"; "are"; "this"; "that"; "when"; "what"; "have"].

Fixpoint termLoop (seen fs : list string) : list string :=
  match fs with
  | [] => []
  | f :: rest =>
      if (slen f <? 3) || existsb (String.eqb f) kbStopWords || existsb (String.eqb f) seen
      then termLoop seen rest else f :: termLoop (f :: seen) rest
  end.

Definition kbTerms (txt : string) : list string :=
  termLoop [] (string_of <$> fields (λ r, negb (IsLetter r) && negb (IsDigit r)) [] (runes (ToLowerU txt))).
End slugs.

(** * What they promise *)

Lemma byte_chr n : 0 ≤ n < 256 → byte (chr n) = n.
Proof.
  intros Hn. unfold byte, chr. rewrite Ascii.N_ascii_embedding by lia. lia.
Qed.

Lemma byte_range c : 0 ≤ byte c < 256.
Proof.
  unfold byte. assert (Ascii.N_of_ascii c < 256)%N by apply Ascii.N_ascii_bounded. lia.
Qed.

Lemma scalar_bounds r : scalar r = true → 0 ≤ r ≤ 55295 ∨ 57344 ≤ r ≤ 1114111.
Proof. unfold scalar, between. lia. Qed.

Ltac zdivs := Z.to_euclidean_division_equations; lia.

Lemma runes_1 x s : 0 ≤ x < 128 → runes (text [x] s) = x :: runes s.
Proof.
  intros Hx. cbn [text foldr runes]. rewrite byte_chr by lia.
  by replace (x <? 128) with true by lia.
Qed.

Lemma runes_2 x y s : lead2 x y = true → runes (text [x; y] s) = (x - 192) * 64 + (y - 128) :: runes s.
Proof.
  intros H. assert (194 ≤ x ≤ 223 ∧ 128 ≤ y ≤ 191) as [? ?] by (unfold lead2, cont, between in H; lia).
  cbn [text foldr runes]. rewrite !byte_chr by lia. replace (x <? 128) with false by lia. by rewrite H.
Qed.

Lemma runes_3 x y z s : lead3 x y = true → cont z = true →
  runes (text [x; y; z] s) = ((x - 224) * 64 + (y - 128)) * 64 + (z - 128) :: runes s.
Proof.
  intros H Hz. assert (224 ≤ x ≤ 239 ∧ 128 ≤ y ≤ 191) as [? ?]
    by (unfold lead3, cont, between in H; lia).
  assert (128 ≤ z ≤ 191) by (unfold cont, between in Hz; lia).
  cbn [text foldr runes]. rewrite !byte_chr by lia. replace (x <? 128) with false by lia.
  replace (lead2 x y) with false by (unfold lead2, between; lia). by rewrite H, Hz.
Qed.

Lemma runes_4 x y z w s : lead4 x y = true → cont z = true → cont w = true →
  runes (text [x; y; z; w] s) =
  (((x - 240) * 64 + (y - 128)) * 64 + (z - 128)) * 64 + (w - 128) :: runes s.
Proof.
  intros H Hz Hw. assert (240 ≤ x ≤ 244 ∧ 128 ≤ y ≤ 191) as [? ?]
    by (unfold lead4, cont, between in H; lia).
  assert (128 ≤ z ≤ 191 ∧ 128 ≤ w ≤ 191) as [? ?] by (unfold cont, between in Hz, Hw; lia).
  cbn [text foldr runes]. rewrite !byte_chr by lia. replace (x <? 128) with false by lia.
  replace (lead2 x y) with false by (unfold lead2, between; lia).
  replace (lead3 x y) with false by (unfold lead3, between; lia). by rewrite H, Hz, Hw.
Qed.

(** A character survives its encoding. *)
Lemma runes_encode r s : scalar r = true → runes (text (encodeRune r) s) = r :: runes s.
Proof.
  intros Hr. unfold encodeRune. rewrite Hr. apply scalar_bounds in Hr as Hb.
  destruct (r <? 128) eqn:E1; [apply runes_1; lia |].
  destruct (r <? 2048) eqn:E2.
  { rewrite runes_2 by (unfold lead2, cont, between; zdivs). f_equal. zdivs. }
  destruct (r <? 65536) eqn:E3.
  { rewrite runes_3 by (unfold lead3, cont, between; zdivs). f_equal. zdivs. }
  rewrite runes_4 by (unfold lead4, cont, between; zdivs). f_equal. zdivs.
Qed.

Lemma runes_string_of rs : Forall (λ r, scalar r = true) rs → runes (string_of rs) = rs.
Proof. induction 1 as [| r rs Hr _ IH]; [done |]. cbn. by rewrite runes_encode, IH. Qed.

(** Whatever bytes come in, characters come out. *)
Lemma runes_scalar s : Forall (λ r, scalar r = true) (runes s).
Proof.
  remember (String.length s) as n eqn:En. revert s En.
  induction n as [n IH] using lt_wf_ind. intros s ->.
  assert (scalar RuneError = true) as HE by done.
  destruct s as [| a s1]; [constructor |]. cbn [runes].
  pose proof (byte_range a) as Ha. destruct (byte a <? 128) eqn:E1.
  { constructor; [unfold scalar, between; lia |]. eapply IH; [| done]. cbn. lia. }
  destruct s1 as [| b s2]; [by repeat constructor |]. pose proof (byte_range b) as Hb.
  destruct (lead2 _ _) eqn:E2.
  { constructor; [unfold lead2, cont, between in E2; unfold scalar, between; lia |].
    eapply IH; [| done]. cbn. lia. }
  assert (Forall (λ r, scalar r = true) (RuneError :: runes (String b s2))) as Hbad.
  { constructor; [done |]. eapply IH; [| done]. cbn. lia. }
  destruct s2 as [| c s3]; [exact Hbad |]. pose proof (byte_range c) as Hc.
  destruct (lead3 _ _ && _) eqn:E3.
  { constructor; [unfold lead3, cont, between in E3; unfold scalar, between; lia |].
    eapply IH; [| done]. cbn. lia. }
  destruct s3 as [| d s4]; [exact Hbad |]. pose proof (byte_range d) as Hd.
  destruct (lead4 _ _ && _ && _) eqn:E4; [| exact Hbad].
  constructor; [unfold lead4, cont, between in E4; unfold scalar, between; lia |].
  eapply IH; [| done]. cbn. lia.
Qed.

(** A bounded field has the characters of the original, cut at the bound. *)
Lemma truncate_runes s n : runes (truncate s n) = take n (runes s).
Proof.
  unfold truncate. destruct (Nat.leb_spec (length (runes s)) n); [by rewrite take_ge |].
  apply runes_string_of, Forall_take, runes_scalar.
Qed.

Lemma Forall_filter_l {A} (P : A → Prop) (f : A → bool) l : Forall P l → Forall P (List.filter f l).
Proof. induction 1; cbn; [constructor |]. case_match; [by constructor | done]. Qed.

Lemma runes_StripControlChars s : runes (StripControlChars s) = List.filter kept_char (runes s).
Proof. apply runes_string_of, Forall_filter_l, runes_scalar. Qed.

Lemma drop_front_suffix p rs : drop_front p rs `suffix_of` rs.
Proof.
  induction rs as [| r rs IH]; cbn; [done |]. destruct (p r); [by apply suffix_cons_r | done].
Qed.

Lemma drop_back_prefix p rs : drop_back p rs `prefix_of` rs.
Proof.
  unfold drop_back. destruct (drop_front_suffix p (reverse rs)) as [l E].
  exists (reverse l). by rewrite <-reverse_app, <-E, reverse_involutive.
Qed.

Lemma drop_front_stop p rs : match drop_front p rs with r :: _ => p r = false | [] => True end.
Proof. induction rs as [| r rs IH]; cbn; [done |]. by destruct (p r) eqn:E. Qed.

Lemma drop_front_id p rs : match rs with r :: _ => p r = false | [] => True end → drop_front p rs = rs.
Proof. destruct rs as [| r rs]; cbn; [done |]. by intros ->. Qed.

Lemma drop_back_stop p rs : match last (drop_back p rs) with Some r => p r = false | None => True end.
Proof.
  unfold drop_back. rewrite last_reverse. pose proof (drop_front_stop p (reverse rs)).
  by destruct (drop_front p (reverse rs)).
Qed.

(** What is trimmed neither starts nor ends with a character to trim. *)
Lemma trim_stop p rs : match trim p rs with r :: _ => p r = false | [] => True end ∧
  match last (trim p rs) with Some r => p r = false | None => True end.
Proof.
  split; [| apply drop_back_stop]. unfold trim.
  destruct (drop_back_prefix p (drop_front p rs)) as [l E].
  pose proof (drop_front_stop p rs) as Hs.
  destruct (drop_back p (drop_front p rs)) as [| r t]; [done |]. by rewrite E in Hs.
Qed.

Lemma trim_id p rs : match rs with r :: _ => p r = false | [] => True end →
  match last rs with Some r => p r = false | None => True end → trim p rs = rs.
Proof.
  intros H1 H2. unfold trim, drop_back. rewrite (drop_front_id p rs H1), drop_front_id.
  - apply reverse_involutive.
  - rewrite <-(reverse_involutive rs), last_reverse in H2. by destruct (reverse rs).
Qed.

Lemma trim_Forall (P : Z → Prop) p rs : Forall P rs → Forall P (trim p rs).
Proof.
  intros H. destruct (drop_back_prefix p (drop_front p rs)) as [l1 E1].
  destruct (drop_front_suffix p rs) as [l2 E2].
  rewrite E2 in H. apply Forall_app in H as [_ H]. rewrite E1 in H. by apply Forall_app in H as [H _].
Qed.

Lemma runes_clean s : runes (clean s) = trim IsSpace (List.filter kept_char (runes s)).
Proof.
  unfold clean, TrimSpaceU. rewrite runes_StripControlChars.
  apply runes_string_of, trim_Forall, Forall_filter_l, runes_scalar.
Qed.

Lemma filter_all {A} (f : A → bool) l : Forall (λ a, f a = true) l → List.filter f l = l.
Proof. induction 1 as [| a l Ha _ IH]; cbn; [done |]. by rewrite Ha, IH. Qed.

(** Cleaned text keeps no control character but tabs and line ends, is not
    surrounded by spaces, and cleaning it again changes nothing. *)
Lemma clean_idempotent s :
  Forall (λ r, kept_char r = true) (runes (clean s)) ∧ clean (clean s) = clean s.
Proof.
  assert (Forall (λ r, kept_char r = true) (runes (clean s))) as Hk.
  { rewrite runes_clean. apply trim_Forall, Forall_forall. intros r Hr%list_elem_of_In.
    by apply List.filter_In in Hr as [_ ?]. }
  split; [done |].
  assert (clean s = string_of (runes (clean s))) as E.
  { rewrite runes_clean. unfold clean, TrimSpaceU. by rewrite runes_StripControlChars. }
  assert (runes (clean (clean s)) = runes (clean s)) as E'.
  { rewrite runes_clean, (filter_all _ _ Hk), runes_clean. apply trim_id; apply trim_stop. }
  transitivity (string_of (runes (clean (clean s)))); [| by rewrite E'].
  rewrite runes_clean. unfold clean at 1, TrimSpaceU. by rewrite runes_StripControlChars.
Qed.

(** A slug has at most 120 characters, digits, lowercase ASCII letters and
    hyphens only, and does not start with a hyphen. *)
Section slug_facts.
Context `{!Unicode}.

Lemma slugLoop_chars b rs : Forall (λ r, slug_char r || (r =? 45) = true) (slugLoop b rs).
Proof.
  revert b. induction rs as [| r rs IH]; intros b; cbn; [constructor |].
  destruct (slug_char r) eqn:E; [constructor; [by rewrite E | done] |].
  destruct b; [done | by constructor].
Qed.

Lemma slugLoop_scalar b rs : Forall (λ r, scalar r = true) rs → Forall (λ r, scalar r = true) (slugLoop b rs).
Proof.
  intros Hs. revert b. induction Hs as [| r rs Hr _ IH]; intros b; cbn; [constructor |].
  destruct (slug_char r); [by constructor |]. destruct b; [done | by constructor].
Qed.

Lemma runes_Slugify txt : runes (Slugify txt) =
  take 120 (trim (λ r, r =? 45) (slugLoop true (runes (ToLowerU txt)))).
Proof.
  unfold Slugify. rewrite truncate_runes, runes_string_of; [done |].
  apply trim_Forall, slugLoop_scalar, runes_scalar.
Qed.

Lemma Slugify_safe txt :
  (length (runes (Slugify txt)) ≤ 120)%nat ∧
  Forall (λ r, slug_char r || (r =? 45) = true) (runes (Slugify txt)) ∧
  head (runes (Slugify txt)) ≠ Some 45.
Proof.
  rewrite runes_Slugify. split; [rewrite length_take; lia |]. split.
  - apply Forall_take, trim_Forall, slugLoop_chars.
  - destruct (trim_stop (λ r, r =? 45) (slugLoop true (runes (ToLowerU txt)))) as [Ht _].
    destruct (trim _ _) as [| r l]; [done |]. cbn. intros [= ->]. by cbn in Ht.
Qed.
End slug_facts.

(** Letters and digits of ASCII only. *)
#[local] Instance ascii_only : Unicode :=
  {| u_letter := λ _, false; u_digit := λ _, false; u_upper := λ r, r; u_lower := λ r, r |}.

(** Digits of other scripts reach the link although only unreserved characters
    are meant to survive. *)
#[local] Instance arabic_digits : Unicode :=
  {| u_letter := λ _, false; u_digit := λ r, between 1632 r 1641; u_upper := λ r, r; u_lower := λ r, r |}.

Example text_samples :
  @Slugify ascii_only "  How to: Reset -- your Password?" = "how-to-reset-your-password" ∧
  clean (String "009" (String "000" "a b ")) = "a b" ∧
  cleanMultiline ("a  " +:+ String "013" (String "010" "b")) = "a" +:+ LF +:+ "b" ∧
  truncate "naïve" 3 = "naï" ∧
  @kbTerms ascii_only "How can the mail server send mail?" = ["mail"; "server"; "send"] ∧
  @Slugify arabic_digits "page ٣" = "page-٣".
Proof. by vm_compute. Qed.

(** A field bounded to one line still holds line ends inside. *)
Example clean_keeps_lines : clean ("a" +:+ LF +:+ "b") = "a" +:+ LF +:+ "b".
Proof. by vm_compute. Qed.
