(* ===== verification/DeskModels.v ===== *)
(** The data of the support desk: the structs of [src/src/support], one record per
    struct with the fields in source order.  Rows of the tables are these records;
    the integer form of a boolean column is read back as [bool]. *)
From stdpp Require Import prelude strings list gmap.
From Stdlib Require Import ZArith Lia Ascii.
From coqutil Require Export Datatypes.RecordSetters.
From S2P Require Import Prelude.
Export DoubleBraceUpdate.

Record Identity := mkIdentity {
  id_Authenticated : bool; id_UserID : Z; id_OrgID : Z; id_DisplayName : string;
  id_GlobalAdmin : bool; id_OrgAdmin : bool; id_SessionID : string; id_RemoteKey : string }.

Definition zeroIdentity : Identity := mkIdentity false 0 0 "" false false "" "".

Record Agent := mkAgent {
  ag_ID : string; ag_UserID : Z; ag_DisplayName : string; ag_DepartmentID : string;
  ag_MaxConcurrentChats : Z; ag_Enabled : bool; ag_LastActivityAt : Z; ag_CreatedAt : Z;
  ag_UpdatedAt : Z }.

Definition zeroAgent : Agent := mkAgent "" 0 "" "" 0 false 0 0 0.

Record Department := mkDepartment {
  dp_ID : string; dp_Name : string; dp_Description : string; dp_Enabled : bool;
  dp_CreatedAt : Z; dp_UpdatedAt : Z }.

Definition zeroDepartment : Department := mkDepartment "" "" "" false 0 0.

Record Category := mkCategory {
  ct_ID : string; ct_ParentID : string; ct_Name : string; ct_Slug : string; ct_Position : Z;
  ct_Enabled : bool }.

Definition zeroCategory : Category := mkCategory "" "" "" "" 0 false.

Record Ticket := mkTicket {
  t_ID : string; t_OrgID : Z; t_Number : string; t_Title : string; t_Description : string;
  t_CategoryID : string; t_Priority : string; t_Status : string; t_UserID : Z; t_AssignedTo : Z;
  t_BotContext : string; t_SLAPolicyID : string; t_FirstResponseAt : Z; t_ResolvedAt : Z;
  t_ClosedAt : Z; t_CreatedAt : Z; t_UpdatedAt : Z; t_Version : Z }.

Definition zeroTicket : Ticket := mkTicket "" 0 "" "" "" "" "" "" 0 0 "" "" 0 0 0 0 0 0.

Record TicketMessage := mkTicketMessage {
  tm_ID : string; tm_TicketID : string; tm_OrgID : Z; tm_AuthorID : Z; tm_AuthorRole : string;
  tm_AuthorName : string; tm_Body : string; tm_Internal : bool; tm_CreatedAt : Z }.

Definition zeroTicketMessage : TicketMessage := mkTicketMessage "" "" 0 0 "" "" "" false 0.

Record Attachment := mkAttachment {
  at_ID : string; at_TicketID : string; at_OrgID : Z; at_MessageID : string;
  at_OriginalName : string; at_StoredName : string; at_ContentType : string; at_SizeBytes : Z;
  at_UploadedBy : Z; at_CreatedAt : Z }.

Definition zeroAttachment : Attachment := mkAttachment "" "" 0 "" "" "" "" 0 0 0.

Record Assignment := mkAssignment {
  as_ID : string; as_TicketID : string; as_OrgID : Z; as_FromAgentID : Z; as_ToAgentID : Z;
  as_ActorID : Z; as_Reason : string; as_CreatedAt : Z }.

Definition zeroAssignment : Assignment := mkAssignment "" "" 0 0 0 0 "" 0.

Record AuditEntry := mkAuditEntry {
  au_ID : string; au_OrgID : Z; au_ActorID : Z; au_OnBehalfOf : Z; au_Action : string;
  au_EntityType : string; au_EntityID : string; au_FromState : string; au_ToState : string;
  au_Detail : string; au_SupportMode : bool; au_CreatedAt : Z }.

Definition zeroAuditEntry : AuditEntry := mkAuditEntry "" 0 0 0 "" "" "" "" "" "" false 0.

Record SLAPolicy := mkSLAPolicy {
  sp_ID : string; sp_Priority : string; sp_FirstResponseMins : Z; sp_ResolutionMins : Z;
  sp_EscalatePercent : Z; sp_Enabled : bool; sp_UpdatedAt : Z }.

Definition zeroSLAPolicy : SLAPolicy := mkSLAPolicy "" "" 0 0 0 false 0.

Record Article := mkArticle {
  ar_ID : string; ar_OrgID : Z; ar_Slug : string; ar_Title : string; ar_Body : string;
  ar_CategoryID : string; ar_Tags : string; ar_Status : string; ar_AuthorID : Z;
  ar_HelpfulCount : Z; ar_NotHelpfulCnt : Z; ar_ViewCount : Z; ar_PublishedAt : Z;
  ar_CreatedAt : Z; ar_UpdatedAt : Z; ar_Version : Z }.

Definition zeroArticle : Article := mkArticle "" 0 "" "" "" "" "" "" 0 0 0 0 0 0 0 0.

Record ChatSession := mkChatSession {
  cs_ID : string; cs_OrgID : Z; cs_UserID : Z; cs_AgentID : Z; cs_Status : string;
  cs_Subject : string; cs_TicketID : string; cs_QueuedAt : Z; cs_StartedAt : Z; cs_EndedAt : Z;
  cs_Rating : Z; cs_LastEventAt : Z }.

Definition zeroChatSession : ChatSession := mkChatSession "" 0 0 0 "" "" "" 0 0 0 0 0.

Record ChatMessage := mkChatMessage {
  cm_ID : string; cm_SessionID : string; cm_OrgID : Z; cm_AuthorID : Z; cm_AuthorRole : string;
  cm_AuthorName : string; cm_Body : string; cm_CreatedAt : Z }.

Definition zeroChatMessage : ChatMessage := mkChatMessage "" "" 0 0 "" "" "" 0.

Record CannedResponse := mkCannedResponse {
  cn_ID : string; cn_Scope : string; cn_DepartmentID : string; cn_AgentUserID : Z;
  cn_Title : string; cn_Body : string; cn_Tags : string; cn_UsageCount : Z; cn_CreatedAt : Z;
  cn_UpdatedAt : Z }.

Definition zeroCannedResponse : CannedResponse := mkCannedResponse "" "" "" 0 "" "" "" 0 0 0.

Record Setting := mkSetting {
  sg_Key : string; sg_Value : string; sg_UpdatedAt : Z }.

Definition zeroSetting : Setting := mkSetting "" "" 0.

Record Page := mkPage {
  pg_Page : Z; pg_Limit : Z; pg_Total : Z; pg_Pages : Z }.

Definition zeroPage : Page := mkPage 0 0 0 0.

Record BotPattern := mkBotPattern {
  bp_ID : string; bp_Category : string; bp_Expressions : list string; bp_Response : string;
  bp_SuggestedCategory : string; bp_SuggestedPriority : string }.

Definition zeroBotPattern : BotPattern := mkBotPattern "" "" [] "" "" "".

Record SupportMode := mkSupportMode {
  sm_SessionID : string; sm_AgentUserID : Z; sm_DisplayName : string; sm_Reason : string;
  sm_EnteredAt : Z; sm_ExpiresAt : Z }.

Definition zeroSupportMode : SupportMode := mkSupportMode "" 0 "" "" 0 0.

Record BotSession := mkBotSession {
  bs_ID : string; bs_OrgID : Z; bs_UserID : Z; bs_Attempts : Z; bs_Resolved : bool;
  bs_Escalated : bool; bs_Transcript : string; bs_LastCategory : string;
  bs_LastPriority : string; bs_CreatedAt : Z; bs_UpdatedAt : Z }.

Definition zeroBotSession : BotSession := mkBotSession "" 0 0 0 false false "" "" "" 0 0.

Record TicketFilter := mkTicketFilter {
  tf_OrgID : Z; tf_UserID : Z; tf_AssignedTo : Z; tf_Statuses : list string;
  tf_Priority : string; tf_Search : string; tf_QueueOnly : bool; tf_Page : Z; tf_Limit : Z }.

Definition zeroTicketFilter : TicketFilter := mkTicketFilter 0 0 0 [] "" "" false 0 0.

Record ArticleFilter := mkArticleFilter {
  af_Statuses : list string; af_Search : string; af_OrgID : Z; af_Page : Z; af_Limit : Z }.

Definition zeroArticleFilter : ArticleFilter := mkArticleFilter [] "" 0 0 0.

Record SLARisk := mkSLARisk {
  rk_Policy : SLAPolicy; rk_ResponseElapsed : Z; rk_ResolutionElapsed : Z;
  rk_ResponseBreached : bool; rk_ResolutionBreached : bool; rk_Escalate : bool;
  rk_Level : string }.

Definition zeroSLARisk : SLARisk := mkSLARisk zeroSLAPolicy 0 0 false false false "".

Record TicketInput := mkTicketInput {
  ti_Title : string; ti_Description : string; ti_CategoryID : string; ti_Priority : string }.

Definition zeroTicketInput : TicketInput := mkTicketInput "" "" "" "".

Record TicketPrefill := mkTicketPrefill {
  tp_Title : string; tp_Description : string; tp_Category : string; tp_Priority : string }.

Definition zeroTicketPrefill : TicketPrefill := mkTicketPrefill "" "" "" "".

Record BotReply := mkBotReply {
  br_Matched : bool; br_Answer : string; br_PatternID : string; br_Attempts : Z;
  br_Exhausted : bool; br_Prefill : TicketPrefill }.

Definition zeroBotReply : BotReply := mkBotReply false "" "" 0 false zeroTicketPrefill.

Record BotTurn := mkBotTurn {
  bt_Speaker : string; bt_Text : string }.

Definition zeroBotTurn : BotTurn := mkBotTurn "" "".

Record ArticleInput := mkArticleInput {
  ai_Title : string; ai_Body : string; ai_Slug : string; ai_CategoryID : string;
  ai_Tags : string }.

Definition zeroArticleInput : ArticleInput := mkArticleInput "" "" "" "" "".

Record CannedInput := mkCannedInput {
  ci_Title : string; ci_Body : string; ci_Tags : string; ci_Scope : string;
  ci_DepartmentID : string }.

Definition zeroCannedInput : CannedInput := mkCannedInput "" "" "" "" "".

Record ChatAvailability := mkChatAvailability {
  ca_Available : bool; ca_Reason : string; ca_QueueLength : Z; ca_AgentsOnline : Z;
  ca_Capacity : Z; ca_ActiveChats : Z; ca_EstimatedWait : Z }.

Definition zeroChatAvailability : ChatAvailability := mkChatAvailability false "" 0 0 0 0 0.

Record AgentPresence := mkAgentPresence {
  ap_Agent : Agent; ap_Status : string; ap_ActiveChats : Z }.

Definition zeroAgentPresence : AgentPresence := mkAgentPresence zeroAgent "" 0.

Record QueueItem := mkQueueItem {
  qi_Ticket : Ticket; qi_Risk : SLARisk }.

Definition zeroQueueItem : QueueItem := mkQueueItem zeroTicket zeroSLARisk.

Record AgentMetrics := mkAgentMetrics {
  am_Assigned : Z; am_Resolved : Z; am_QueueDepth : Z; am_AvgFirstResponseSec : Z;
  am_AvgResolutionSec : Z }.

Definition zeroAgentMetrics : AgentMetrics := mkAgentMetrics 0 0 0 0 0.

Record ArticleSuggestion := mkArticleSuggestion {
  sug_Slug : string; sug_Title : string; sug_Score : Z }.

Definition zeroArticleSuggestion : ArticleSuggestion := mkArticleSuggestion "" "" 0.

Record CannedSuggestion := mkCannedSuggestion {
  cg_Response : CannedResponse; cg_Score : Z }.

Definition zeroCannedSuggestion : CannedSuggestion := mkCannedSuggestion zeroCannedResponse 0.

Record Report := mkReport {
  rp_Name : string; rp_Counts : gmap string Z; rp_SLACompliant : Z; rp_SLABreached : Z;
  rp_SatisfactionN : Z; rp_SatisfactionAvg : Z; rp_FirstContactRate : Z }.

Definition zeroReport : Report := mkReport "" ∅ 0 0 0 0 0.

(** * The constants of models.go *)

Definition RoleGuest : string := "GUEST".
Definition RoleUser : string := "REGISTERED_USER".
Definition RoleAgent : string := "SUPPORT_AGENT".
Definition RoleAdmin : string := "SYSTEM_ADMINISTRATOR".
Definition AvailabilityAvailable : string := "AVAILABLE".
Definition AvailabilityBusy : string := "BUSY".
Definition AvailabilityAway : string := "AWAY".
Definition AvailabilityOffline : string := "OFFLINE".
Definition ArticleDraft : string := "DRAFT".
Definition ArticleReview : string := "REVIEW".
Definition ArticlePublished : string := "PUBLISHED".
Definition ArticleArchived : string := "ARCHIVED".
Definition ChatQueued : string := "QUEUED".
Definition ChatActive : string := "ACTIVE".
Definition ChatClosed : string := "CLOSED".
Definition ChatEscalated : string := "ESCALATED".
Definition ChatAbandoned : string := "ABANDONED".
Definition CannedSystem : string := "SYSTEM".
Definition CannedDepartment : string := "DEPARTMENT".
Definition CannedPersonal : string := "PERSONAL".

(** In seconds. *)
Definition AwayAfter : Z := 15 * 60.
Definition AutoCloseAfterHours : Z := 72.
Definition BotMaxAttempts : Z := 3.
Definition DefaultPageLimit : Z := 250.
Definition MaxPageLimit : Z := 1000.

Definition newPage (page limit total : Z) : Page :=
  let page := if page <? 1 then 1 else page in
  let limit := if limit <? 1 then DefaultPageLimit else limit in
  let limit := if MaxPageLimit <? limit then MaxPageLimit else limit in
  let pages := if 0 <? total then (total +! limit -! 1) /! limit else 0 in
  mkPage page limit total pages.

Definition offsetFor (p : Page) : Z := (pg_Page p -! 1) *! pg_Limit p.
