(* ===== verification/DeskStates.v ===== *)
(** The ticket state machine and the service levels of the support desk:
    [src/src/support/state.go] and the pure part of [src/src/support/sla.go]. *)
From stdpp Require Import prelude strings list gmap.
From Stdlib Require Import ZArith Lia Ascii.
From S2P Require Import Prelude DeskModels.

(** * state.go *)

Definition StateDraft : string := "DRAFT".
Definition StateOpen : string := "OPEN".
Definition StateAssigned : string := "ASSIGNED".
Definition StateInProgress : string := "IN_PROGRESS".
Definition StateAwaitingUser : string := "AWAITING_USER".
Definition StateAwaitingAgent : string := "AWAITING_AGENT".
Definition StateResolved : string := "RESOLVED".
Definition StateClosed : string := "CLOSED".
Definition StateReopened : string := "REOPENED".

Definition PriorityLow : string := "LOW".
Definition PriorityNormal : string := "NORMAL".
Definition PriorityHigh : string := "HIGH".
Definition PriorityUrgent : string := "URGENT".

Definition ActorUser : string := "user".
Definition ActorAgent : string := "agent".
Definition ActorSystem : string := "system".

Definition allStates : list string :=
  [StateDraft; StateOpen; StateAssigned; StateInProgress; StateAwaitingUser; StateAwaitingAgent;
   StateResolved; StateClosed; StateReopened].

Definition allPriorities : list string := [PriorityLow; PriorityNormal; PriorityHigh; PriorityUrgent].

Record transition := mkTransition { From : string; To : string; Actors : list string }.

Definition transitions : list transition :=
  [mkTransition StateDraft StateOpen [ActorUser];
   mkTransition StateOpen StateAssigned [ActorAgent; ActorSystem];
   mkTransition StateAssigned StateInProgress [ActorAgent];
   mkTransition StateAssigned StateOpen [ActorAgent];
   mkTransition StateInProgress StateAwaitingUser [ActorAgent];
   mkTransition StateAwaitingUser StateAwaitingAgent [ActorUser];
   mkTransition StateAwaitingAgent StateAwaitingUser [ActorAgent];
   mkTransition StateAwaitingAgent StateInProgress [ActorAgent];
   mkTransition StateAssigned StateResolved [ActorAgent];
   mkTransition StateInProgress StateResolved [ActorAgent];
   mkTransition StateAwaitingUser StateResolved [ActorAgent];
   mkTransition StateAwaitingAgent StateResolved [ActorAgent];
   mkTransition StateResolved StateAwaitingAgent [ActorUser];
   mkTransition StateResolved StateClosed [ActorUser; ActorSystem];
   mkTransition StateClosed StateReopened [ActorUser];
   mkTransition StateReopened StateOpen [ActorSystem]].

Definition edgeKey (from to : string) : string := from +:+ String ">" to.

Definition buildTransitionIndex : gmap string transition :=
  foldl (λ idx t, <[edgeKey (From t) (To t) := t]> idx) ∅ transitions.

Definition transitionIndex : gmap string transition := buildTransitionIndex.

Definition States : list string := allStates.
Definition Priorities : list string := allPriorities.

Definition IsState (s : string) : bool := existsb (λ v, v =s s) allStates.
Definition IsPriority (p : string) : bool := existsb (λ v, v =s p) allPriorities.

Fixpoint rankIn (i : Z) (l : list string) (p : string) : Z :=
  match l with [] => 1 | v :: rest => if v =s p then i else rankIn (i + 1) rest p end.

Definition PriorityRank (p : string) : Z := rankIn 0 allPriorities p.

Definition IsOpenState (s : string) : bool :=
  existsb (λ v, s =s v)
    [StateOpen; StateAssigned; StateInProgress; StateAwaitingUser; StateAwaitingAgent; StateReopened].

Definition IsQueueState (s : string) : bool :=
  existsb (λ v, s =s v) [StateOpen; StateAssigned; StateInProgress; StateAwaitingAgent; StateReopened].

Definition CanTransition (from to actor : string) : bool :=
  match transitionIndex !! edgeKey from to with
  | None => false
  | Some t => existsb (λ a, a =s actor) (Actors t)
  end.

Definition NextStates (from actor : string) : list string :=
  sort_strings (To <$> List.filter
    (λ t, (From t =s from) && existsb (λ a, a =s actor) (Actors t)) transitions).

(** [TransitionError.Error]. *)
Definition transitionErrorText (from to : string) : string :=
  if negb (IsState from) || negb (IsState to) then "support: unknown ticket state"
  else "support: " +:+ from +:+ " cannot become " +:+ to.

(** * sla.go *)

Definition DefaultSLAPolicies : list SLAPolicy :=
  [mkSLAPolicy "" PriorityUrgent 60 240 80 true 0;
   mkSLAPolicy "" PriorityHigh 240 1440 80 true 0;
   mkSLAPolicy "" PriorityNormal 1440 4320 80 true 0;
   mkSLAPolicy "" PriorityLow 4320 10080 80 true 0].

Definition percentOf (elapsedSeconds allowanceMinutes : Z) : Z :=
  if allowanceMinutes <=? 0 then 0 else
  let elapsed := if elapsedSeconds <? 0 then 0 else elapsedSeconds in
  (elapsed *! 100) /! (allowanceMinutes *! 60).

Definition EvaluateSLA (t : Ticket) (p : SLAPolicy) (at_ : Z) : SLARisk :=
  if negb (sp_Enabled p) || (t_CreatedAt t <=? 0) || negb (IsOpenState (t_Status t))
  then mkSLARisk p 0 0 false false false "ok" else
  let escalateAt :=
    if (sp_EscalatePercent p <=? 0) || (100 <? sp_EscalatePercent p) then 80 else sp_EscalatePercent p in
  let response :=
    if 0 <? sp_FirstResponseMins p
    then percentOf ((if 0 <? t_FirstResponseAt t then t_FirstResponseAt t else at_) -! t_CreatedAt t)
           (sp_FirstResponseMins p)
    else 0 in
  let responseBreached := (0 <? sp_FirstResponseMins p) && (100 <=? response) in
  let resolution :=
    if 0 <? sp_ResolutionMins p then percentOf (at_ -! t_CreatedAt t) (sp_ResolutionMins p) else 0 in
  let resolutionBreached := (0 <? sp_ResolutionMins p) && (100 <=? resolution) in
  let worst := if response <? resolution then resolution else response in
  if responseBreached || resolutionBreached
  then mkSLARisk p response resolution responseBreached resolutionBreached true "breach"
  else if escalateAt <=? worst
  then mkSLARisk p response resolution responseBreached resolutionBreached true "warn"
  else mkSLARisk p response resolution responseBreached resolutionBreached false "ok".

(** In nanoseconds since 1970. *)
Definition SLADeadline (t : Ticket) (p : SLAPolicy) : Z * Z :=
  let created := t_CreatedAt t * 1000000000 in
  (created + sp_FirstResponseMins p *! 60000000000, created + sp_ResolutionMins p *! 60000000000).

(** * The table and the index agree *)

Fixpoint count_char (c : ascii) (s : string) : nat :=
  match s with
  | EmptyString => 0
  | String d s' => (if Ascii.eqb d c then 1 else 0) + count_char c s'
  end%nat.

Lemma count_char_app c a b : count_char c (a +:+ b) = (count_char c a + count_char c b)%nat.
Proof.
  induction a as [| d a IH]; [done |]. rewrite string_app_cons. cbn. rewrite IH. lia.
Qed.

Lemma Cut_app a b : count_char ">" a = 0%nat → Cut (a +:+ String ">" b) ">" = (a, b, true).
Proof.
  induction a as [| d a IH]; [done |]. rewrite string_app_cons. cbn.
  destruct (Ascii.eqb d ">"); [done |]. intros E. by rewrite IH.
Qed.

(** An edge key is read back in one way only. *)
Lemma edgeKey_inj from to from' to' :
  count_char ">" (edgeKey from to) = 1%nat → edgeKey from' to' = edgeKey from to →
  from' = from ∧ to' = to.
Proof.
  unfold edgeKey. intros Hc He.
  assert (count_char ">" (from' +:+ String ">" to') = 1%nat) as Hc' by (by rewrite He).
  rewrite count_char_app in Hc, Hc'. cbn in Hc, Hc'.
  assert (Cut (from' +:+ String ">" to') ">" = Cut (from +:+ String ">" to) ">") as E by (by f_equal).
  rewrite !Cut_app in E by lia. by simplify_eq.
Qed.

Definition drives (from to actor : string) (t : transition) : bool :=
  (From t =s from) && (To t =s to) && existsb (λ a, a =s actor) (Actors t).

Lemma index_lookup from to :
  transitionIndex !! edgeKey from to =
  List.find (λ t, (From t =s from) && (To t =s to)) transitions.
Proof.
  assert (∀ k, transitionIndex !! k =
    List.find (λ t, k =s edgeKey (From t) (To t)) (rev transitions)) as E.
  { intros k. unfold transitionIndex, buildTransitionIndex.
    induction transitions as [| t l IH] using rev_ind; [done |].
    rewrite foldl_app, rev_app_distr. cbn [foldl app rev List.find].
    destruct (String.eqb_spec k (edgeKey (From t) (To t))) as [-> | N];
      [by rewrite lookup_insert_eq | by rewrite lookup_insert_ne]. }
  rewrite E.
  assert (∀ t, t ∈ transitions → (edgeKey from to =s edgeKey (From t) (To t)) =
    (From t =s from) && (To t =s to)) as K.
  { intros t Ht. assert (count_char ">" (edgeKey (From t) (To t)) = 1%nat) as Hc.
    { clear E. revert t Ht. apply Forall_forall. repeat constructor. }
    destruct (String.eqb_spec (edgeKey from to) (edgeKey (From t) (To t))) as [He | Hn].
    - destruct (edgeKey_inj _ _ _ _ Hc He) as [-> ->]. by rewrite !seqb_refl.
    - destruct (String.eqb_spec (From t) from) as [<- |]; [| done].
      by destruct (String.eqb_spec (To t) to) as [<- |]. }
  cbn [rev transitions app List.find].
  rewrite !K by (apply list_elem_of_In; cbn; tauto). cbn [From To].
  repeat match goal with
  | |- context [?a =s from] => destruct (String.eqb_spec a from) as [<- |]; cbn [andb]
  | |- context [?a =s to] => destruct (String.eqb_spec a to) as [<- |]; cbn [andb]
  end; try done.
Qed.

Lemma find_drives from to actor l : NoDup ((λ t, (From t, To t)) <$> l) →
  existsb (drives from to actor) l =
  match List.find (λ t, (From t =s from) && (To t =s to)) l with
  | None => false
  | Some t => existsb (λ a, a =s actor) (Actors t)
  end.
Proof.
  induction l as [| t l IH]; cbn; [done |]. intros [Hn Hd]%NoDup_cons. unfold drives at 1.
  destruct (String.eqb_spec (From t) from) as [<- |]; cbn; [| by apply IH].
  destruct (String.eqb_spec (To t) to) as [<- |]; cbn; [| by apply IH].
  rewrite (IH Hd). destruct (List.find _ l) as [t' |] eqn:Ef; [| by rewrite orb_false_r].
  apply List.find_some in Ef as [Hin [H1%seqb_eq H2%seqb_eq]%andb_true_iff].
  destruct Hn. apply list_elem_of_fmap. exists t'. rewrite H1, H2. split; [done |]. by apply list_elem_of_In.
Qed.

(** The constant-time check agrees with the table it is built from: an actor
    may move a ticket from one state to another exactly when the table lists the
    edge with that actor, and the controls the workspace offers are exactly
    those moves, between states of the machine only. *)
Theorem transition_table (from to actor : string) :
  (CanTransition from to actor = existsb (drives from to actor) transitions) ∧
  (to ∈ NextStates from actor ↔ CanTransition from to actor = true) ∧
  (CanTransition from to actor = true → IsState from = true ∧ IsState to = true).
Proof.
  assert (CanTransition from to actor = existsb (drives from to actor) transitions) as E.
  { unfold CanTransition. rewrite index_lookup, find_drives; [done |].
    by apply (bool_decide_unpack _). }
  split; [done |]. rewrite E. split.
  - unfold NextStates. rewrite sort_strings_perm, list_elem_of_fmap, existsb_exists. split.
    + intros (t & -> & [Hin Ht]%list_elem_of_In%List.filter_In). exists t. split; [done |].
      unfold drives. apply andb_true_iff in Ht as [-> ->]. by rewrite seqb_refl.
    + intros (t & Hin & Ht). unfold drives in Ht. apply andb_true_iff in Ht as [[H1 H2]%andb_true_iff H3].
      apply seqb_eq in H2 as <-. exists t. split; [done |].
      apply list_elem_of_In, List.filter_In. by rewrite H1, H3.
  - rewrite existsb_exists. intros (t & Hin & Ht). unfold drives in Ht.
    apply andb_true_iff in Ht as [[H1%seqb_eq H2%seqb_eq]%andb_true_iff _]. subst.
    clear E. apply list_elem_of_In in Hin. revert t Hin. rewrite <-Forall_forall. by repeat constructor.
Qed.

(** Times of this century and the next ones, allowances up to ten million
    minutes: nothing wraps. *)
Definition sane_times (t : Ticket) (p : SLAPolicy) (at_ : Z) : Prop :=
  0 < t_CreatedAt t < 2 ^ 40 ∧ 0 ≤ t_FirstResponseAt t < 2 ^ 40 ∧ 0 ≤ at_ < 2 ^ 40 ∧
  0 < sp_FirstResponseMins p ≤ 10 ^ 7 ∧ 0 < sp_ResolutionMins p ≤ 10 ^ 7.

Lemma wrap_small z : - 2 ^ 62 ≤ z ≤ 2 ^ 62 → wrap64 z = z.
Proof. intros. apply wrap64_id. unfold in_int64, min_int64, max_int64. lia. Qed.

(** An allowance is used up when its minutes have passed. *)
Lemma percentOf_full e m : - 2 ^ 41 < e < 2 ^ 41 → 0 < m ≤ 10 ^ 7 →
  (100 <=? percentOf e m) = (m * 60 <=? e).
Proof.
  intros He Hm. unfold percentOf. replace (m <=? 0) with false by lia.
  destruct (Z.ltb_spec e 0) as [Hn | Hn].
  - rewrite (wrap_small (0 * 100)) by lia. rewrite (wrap_small (m * 60)) by lia.
    rewrite Z.quot_0_l, wrap_small by lia. lia.
  - rewrite (wrap_small (e * 100)), (wrap_small (m * 60)) by lia.
    rewrite Z.quot_div_nonneg by lia.
    assert (0 ≤ e * 100 / (m * 60) ≤ 2 ^ 48) as Hq.
    { split; [apply Z.div_pos; lia |]. apply Z.div_le_upper_bound; lia. }
    rewrite wrap_small by lia.
    destruct (Z.leb_spec (m * 60) e) as [H | H].
    + apply Z.leb_le, Z.div_le_lower_bound; lia.
    + apply Z.leb_gt, Z.div_lt_upper_bound; lia.
Qed.

(** A waiting ticket is in breach exactly when one of its two deadlines has
    passed: the answer is due by [SLADeadline]'s first instant (measured at the
    first reply once there is one), the resolution by the second; and a breach
    always escalates. *)
Theorem breach_is_deadline (t : Ticket) (p : SLAPolicy) (at_ : Z) :
  sp_Enabled p = true → IsOpenState (t_Status t) = true → sane_times t p at_ →
  let r := EvaluateSLA t p at_ in
  let answered := if 0 <? t_FirstResponseAt t then t_FirstResponseAt t else at_ in
  rk_ResponseBreached r = ((SLADeadline t p).1 <=? answered * 1000000000) ∧
  rk_ResolutionBreached r = ((SLADeadline t p).2 <=? at_ * 1000000000) ∧
  (rk_Level r = "breach" ↔ rk_ResponseBreached r || rk_ResolutionBreached r = true) ∧
  (rk_Level r ≠ "ok" ↔ rk_Escalate r = true).
Proof.
  intros Hp Ho (Hc & Hf & Ha & Hm1 & Hm2). unfold EvaluateSLA, SLADeadline. rewrite Hp, Ho. cbn zeta.
  replace (t_CreatedAt t <=? 0) with false by lia. cbn [negb orb fst snd].
  rewrite !(wrap_small (_ * 60000000000)) by lia.
  replace (0 <? sp_FirstResponseMins p) with true by lia.
  replace (0 <? sp_ResolutionMins p) with true by lia. cbn [andb].
  set (answered := if 0 <? t_FirstResponseAt t then t_FirstResponseAt t else at_).
  assert (0 ≤ answered < 2 ^ 40) by (unfold answered; case_match; lia).
  rewrite (wrap_small (answered - t_CreatedAt t)), (wrap_small (at_ - t_CreatedAt t)) by lia.
  rewrite !percentOf_full by lia.
  replace (sp_FirstResponseMins p * 60 <=? answered - t_CreatedAt t)
    with (t_CreatedAt t * 1000000000 + sp_FirstResponseMins p * 60000000000 <=? answered * 1000000000) by lia.
  replace (sp_ResolutionMins p * 60 <=? at_ - t_CreatedAt t)
    with (t_CreatedAt t * 1000000000 + sp_ResolutionMins p * 60000000000 <=? at_ * 1000000000) by lia.
  destruct (_ || _) eqn:Eb; [by cbn; rewrite ?Eb |].
  by destruct (_ <=? (if _ <? _ then _ else _)); cbn; rewrite ?Eb.
Qed.

Definition late_ticket : Ticket :=
  mkTicket "tkt_1" 7 "TKT-000001" "" "" "" PriorityHigh StateOpen 3 0 "" "" 0 0 0 1000 1000 1.

Lemma breach_is_deadline_witness :
  let p := mkSLAPolicy "" PriorityHigh 240 1440 80 true 0 in
  rk_ResponseBreached (EvaluateSLA late_ticket p 15400) = true ∧
  rk_ResponseBreached (EvaluateSLA late_ticket p 15400) =
    ((SLADeadline late_ticket p).1 <=? 15400 * 1000000000).
Proof.
  cbv zeta. split; [by vm_compute |].
  refine (proj1 (breach_is_deadline late_ticket (mkSLAPolicy "" PriorityHigh 240 1440 80 true 0) 15400
    _ _ _)); [done | done |]. repeat split; cbn; lia.
Defined.

(** A late first reply counts as a breach for as long as the ticket is open,
    although the field is documented as "with no agent reply". *)
Example late_reply_breaches :
  rk_ResponseBreached (EvaluateSLA (late_ticket {{ t_FirstResponseAt := 16000 }})
    (mkSLAPolicy "" PriorityHigh 240 1440 80 true 0) 17000) = true.
Proof. by vm_compute. Qed.
