(* ===== verification/Desk.v ===== *)
(** The support desk as a shared state: the tables of [src/src/support/schema.go],
    what the [Service] keeps in memory, and the world its operations meet.

    The schema declares no keys, so a table is a list of rows in the order of
    their insertion.  An operation is a program of [Threads.v] with the statements
    of [Sql.v]: one atomic section per SQL statement, per reading of the clock, per
    random identifier and per section under a mutex; anything may happen in
    between.

    Parameters ([Params]): the tables of package unicode, LIKE, regular
    expressions, whether a transaction of the database sees one snapshot, and the
    options the server passes in.  [d_issued] records the identifiers given out
    and [d_sent] the notifications, for the theorems. *)
From stdpp Require Import prelude strings list gmap.
From Stdlib Require Import ZArith Lia Ascii.
From S2P Require Import Prelude Errors Threads RateLimit Sql Text DeskModels DeskStates.

Class Params := {
  #[global] params_unicode :: Unicode;
  like : string → string → bool;            (* value, pattern *)
  regexp_ok : string → bool;                (* the expression compiles *)
  regexp_match : string → string → bool;    (* expression, text *)
  snapshot : bool;
  o_Notifier : bool; o_AttachmentDir : string; o_SiteName : string }.

(** * State *)

Record kbEntry := mkkbEntry { kb_slug : string; kb_title : string; kb_terms : gset string }.

Record Notice := mkNotice { n_event : string; n_user : Z; n_fields : list (string * string) }.

Record Desk := mkDesk {
  d_tickets : list Ticket; d_messages : list TicketMessage; d_attachments : list Attachment;
  d_assignments : list Assignment; d_audits : list AuditEntry; d_agents : list Agent;
  d_departments : list Department; d_categories : list Category; d_policies : list SLAPolicy;
  d_settings : list Setting; d_articles : list Article; d_chats : list ChatSession;
  d_chatMessages : list ChatMessage; d_canned : list CannedResponse; d_bots : list BotSession;
  d_counters : list (string * Z); d_mode : gmap string SupportMode; d_kbIndex : list kbEntry;
  d_limits : Limits; d_sent : list Notice; d_files : gmap string string; d_issued : list string }.

Definition zeroDesk : Desk :=
  mkDesk [] [] [] [] [] [] [] [] [] [] [] [] [] [] [] [] ∅ [] ∅ [] ∅ [].

Definition support_tickets : Table Desk Ticket := mkTable d_tickets (λ l s, s {{ d_tickets := l }}).
Definition support_ticket_messages : Table Desk TicketMessage :=
  mkTable d_messages (λ l s, s {{ d_messages := l }}).
Definition support_ticket_attachments : Table Desk Attachment :=
  mkTable d_attachments (λ l s, s {{ d_attachments := l }}).
Definition support_assignments : Table Desk Assignment :=
  mkTable d_assignments (λ l s, s {{ d_assignments := l }}).
Definition support_audit_logs : Table Desk AuditEntry := mkTable d_audits (λ l s, s {{ d_audits := l }}).
Definition support_agents : Table Desk Agent := mkTable d_agents (λ l s, s {{ d_agents := l }}).
Definition support_departments : Table Desk Department :=
  mkTable d_departments (λ l s, s {{ d_departments := l }}).
Definition support_categories : Table Desk Category :=
  mkTable d_categories (λ l s, s {{ d_categories := l }}).
Definition support_sla_policies : Table Desk SLAPolicy :=
  mkTable d_policies (λ l s, s {{ d_policies := l }}).
Definition support_settings : Table Desk Setting := mkTable d_settings (λ l s, s {{ d_settings := l }}).
Definition support_kb_articles : Table Desk Article := mkTable d_articles (λ l s, s {{ d_articles := l }}).
Definition support_chat_sessions : Table Desk ChatSession := mkTable d_chats (λ l s, s {{ d_chats := l }}).
Definition support_chat_messages : Table Desk ChatMessage :=
  mkTable d_chatMessages (λ l s, s {{ d_chatMessages := l }}).
Definition support_canned_responses : Table Desk CannedResponse :=
  mkTable d_canned (λ l s, s {{ d_canned := l }}).
Definition support_bot_sessions : Table Desk BotSession := mkTable d_bots (λ l s, s {{ d_bots := l }}).
Definition support_counters : Table Desk (string * Z) := mkTable d_counters (λ l s, s {{ d_counters := l }}).

(** * Programs *)

Notation program := (prog Desk Env).
Notation D A := (prog Desk Env (Res A)).

Definition newID (prefix : string) : program string :=
  atomic (λ e s, let id := prefix +:+ "_" +:+ e_random e in
    (id, s {{ d_issued := id :: d_issued s }})).

(** * Package errors as the desk uses it *)

Definition notFound (entity : string) : error := New CodeNotFound 404 (entity +:+ " not found").

Definition wrapDB (err : error) (action : string) : error :=
  if IsAlreadyExistsError err then Wrap err CodeConflict 409 "That record already exists"
  else Wrap err CodeInternal 500 ("Could not " +:+ action).

Definition wrapped {A} (action : string) (m : D A) : D A :=
  let* r := m in
  match r with Ok a => ok_ a | Err e => fail (wrapDB e action) end.

(** A statement whose count does not matter. *)
Definition execute (action : string) (f : Desk → Z * Desk) : D () :=
  let? _ := wrapped action (exec f) in ok_ ().

Definition field (name : string) : list (string * Detail) := [("field", DStr name)].

(** [TransitionError]. *)
Definition transitionError (from to actor : string) : error := Plain (transitionErrorText from to).

(** Parameters for examples: ASCII, LIKE as containment, literal expressions. *)
Definition plainUnicode : Unicode :=
  {| u_letter := λ _, false; u_digit := λ _, false; u_upper := λ r, r; u_lower := λ r, r |}.

Definition plainParams (snapshots : bool) : Params :=
  {| params_unicode := plainUnicode; like := λ v p, Contains v (ReplaceChar p "%" "");
     regexp_ok := λ _, true; regexp_match := λ re txt, Contains txt re; snapshot := snapshots;
     o_Notifier := true; o_AttachmentDir := "/srv/att"; o_SiteName := "cashp" |}.

Notation hist := (list Desk).
