(* ===== verification/DeskStore.v ===== *)
(** The data layer of the support desk: every method of [src/src/support/store.go],
    one atomic section per statement.  A method whose name is a type here carries the
    prefix Get. *)
From stdpp Require Import prelude strings list gmap.
From Stdlib Require Import ZArith Lia Ascii.
From S2P Require Import Prelude Errors Threads Sql RateLimit Text DeskModels DeskStates Desk.

Section store.
Context `{!Params}.

(** * Tickets *)

(** What a snapshot transaction says when the rows it read have changed. *)
Definition serializationFailure : error := Plain "could not serialize access".

(** The writes of a transaction and its commit, after it read [seen]: with
    snapshots they fail when the counter has changed. *)
Definition counterWrite (seen : list (string * Z)) (f : Desk → Z * Desk) : D () :=
  atomic (λ e s,
    if snapshot && negb (bool_decide (d_counters s = seen)) then (Err serializationFailure, s) else
    match e_fault e with
    | Some err => (Err err, if e_applied e then (f s).2 else s)
    | None => (Ok (), (f s).2)
    end).

Definition isTicketCounter (r : string * Z) : bool := r.1 =s "ticket".

(** The rows of the table, for the check above, and the value read. *)
Definition readCounter : D (list (string * Z) * option Z) :=
  peek (λ e s,
    match e_fault e with
    | Some ENoRows => Ok (d_counters s, None)
    | Some err => Err err
    | None => Ok (d_counters s, snd <$> hd_error (List.filter isTicketCounter (d_counters s)))
    end).

Definition numberTx : D Z :=
  let? (seen, v) := readCounter in
  match v with
  | None => let? _ := counterWrite seen (INSERT support_counters ("ticket", 1)) in ok_ 1
  | Some v =>
      let value := v +! 1 in
      let? _ := counterWrite seen (UPDATE support_counters isTicketCounter (λ r, (r.1, value))) in
      ok_ value
  end.

Definition ticketNumber (value : Z) : string := "TKT-" +:+ pad_left 6 (itoa value).

Definition NextTicketNumber : D string :=
  let? value := wrapped "allocate a ticket number" (Tx numberTx) in
  ok_ (ticketNumber value).

Definition InsertTicket (t : Ticket) : D () := execute "save the ticket" (INSERT support_tickets t).

Definition rowOr {R} (entity action : string) (m : D (option R)) : D R :=
  let? r := wrapped action m in
  match r with None => fail (notFound entity) | Some r => ok_ r end.

Definition GetTicket (orgID : Z) (id : string) : D Ticket :=
  rowOr "Ticket" "load the ticket"
    (queryRow (SELECT support_tickets (λ r, (t_ID r =s id) && (t_OrgID r =? orgID)))).

Definition TicketAnyOrg (id : string) : D Ticket :=
  rowOr "Ticket" "load the ticket" (queryRow (SELECT support_tickets (λ r, t_ID r =s id))).

(** The columns of the UPDATE; [created_at] is not among them. *)
Definition written (t r : Ticket) : Ticket :=
  r {{ t_Title := t_Title t; t_Description := t_Description t; t_CategoryID := t_CategoryID t;
       t_Priority := t_Priority t; t_Status := t_Status t; t_AssignedTo := t_AssignedTo t;
       t_SLAPolicyID := t_SLAPolicyID t; t_FirstResponseAt := t_FirstResponseAt t;
       t_ResolvedAt := t_ResolvedAt t; t_ClosedAt := t_ClosedAt t; t_UpdatedAt := t_UpdatedAt t;
       t_Version := t_Version r + 1 }}.

Definition same_version (t r : Ticket) : bool :=
  (t_ID r =s t_ID t) && (t_OrgID r =? t_OrgID t) && (t_Version r =? t_Version t).

Definition UpdateTicket (t : Ticket) : D () :=
  wrapped "update the ticket" (UpdateVersioned (UPDATE support_tickets (same_version t) (written t))).

Definition isEmpty {A} (l : list A) : bool := match l with [] => true | _ => false end.

Definition filterStates (f : TicketFilter) : list string :=
  if tf_QueueOnly f then List.filter IsQueueState allStates else tf_Statuses f.

(** [buildTicketWhere]: the rows its clauses accept. *)
Definition buildTicketWhere (f : TicketFilter) (t : Ticket) : bool :=
  (negb (0 <? tf_OrgID f) || (t_OrgID t =? tf_OrgID f)) &&
  (negb (0 <? tf_UserID f) || (t_UserID t =? tf_UserID f)) &&
  (negb (0 <? tf_AssignedTo f) || (t_AssignedTo t =? tf_AssignedTo f)) &&
  ((tf_Priority f =s "") || (t_Priority t =s tf_Priority f)) &&
  (isEmpty (filterStates f) || one_of (t_Status t) (filterStates f)) &&
  ((tf_Search f =s "") ||
   let pattern := "%" +:+ tf_Search f +:+ "%" in
   like (t_Title t) pattern || like (t_Description t) pattern || like (t_Number t) pattern).

(** [ORDER BY created_at DESC, id DESC]. *)
Definition newest_first (a b : Ticket) : bool :=
  (t_CreatedAt b <? t_CreatedAt a) || (t_CreatedAt a =? t_CreatedAt b) && string_leb (t_ID b) (t_ID a).

Definition countRows {R} (tb : Table Desk R) (P : R → bool) (s : Desk) : list Z :=
  [Z.of_nat (length (SELECT tb P s))].

(** [SELECT COUNT] always has a row. *)
Definition queryCount (action : string) (f : Desk → list Z) : D Z :=
  let? n := wrapped action (queryRow f) in
  match n with Some n => ok_ n | None => fail (wrapDB ENoRows action) end.

Definition ListTickets (f : TicketFilter) : D (list Ticket * Page) :=
  let where_ := buildTicketWhere f in
  let? total := queryCount "count tickets" (countRows support_tickets where_) in
  let page := newPage (tf_Page f) (tf_Limit f) total in
  let? rows := wrapped "list tickets" (query (λ s,
    LIMIT (pg_Limit page) (offsetFor page) (ORDER_BY newest_first (SELECT support_tickets where_ s)))) in
  ok_ (rows, page).

Definition oldest_first (a b : Ticket) : bool := t_CreatedAt a <=? t_CreatedAt b.

Definition TicketsInState (states : list string) : D (list Ticket) :=
  if isEmpty states then ok_ [] else
  wrapped "list tickets" (query (λ s,
    ORDER_BY oldest_first (SELECT support_tickets (λ r, one_of (t_Status r) states) s))).

Definition CountTickets (f : TicketFilter) : D Z :=
  queryCount "count tickets" (countRows support_tickets (buildTicketWhere f)).

Definition HasAudit (entityType entityID action : string) : D bool :=
  let? n := queryCount "read the audit log" (countRows support_audit_logs (λ r,
    (au_EntityType r =s entityType) && (au_EntityID r =s entityID) && (au_Action r =s action))) in
  ok_ (0 <? n).

Definition groupColumn (group : string) : option (Ticket → string) :=
  if group =s "status" then Some t_Status
  else if group =s "priority" then Some t_Priority
  else if group =s "category" then Some t_CategoryID
  else None.

(** One row per value, then the map; an empty value is renamed, and may overwrite
    or be overwritten by a value of that name. *)
Definition groupCounts (column : Ticket → string) (rows : list Ticket) : gmap string Z :=
  foldl (λ m key,
    <[(if key =s "" then "uncategorised" else key) :=
      Z.of_nat (length (List.filter (λ t, column t =s key) rows))]> m)
    ∅ (remove_dups (column <$> rows)).

Definition GroupTickets (group : string) : D (gmap string Z) :=
  match groupColumn group with
  | None => fail (New CodeValidation 400 "Unknown grouping")
  | Some column =>
      let? rows := wrapped "build the report" (query (SELECT support_tickets (λ t,
        negb (t_Status t =s StateDraft)))) in
      ok_ (groupCounts column rows)
  end.

Definition ChatSatisfaction : D (Z * Z) :=
  let? r := wrapped "build the report" (queryRow (λ s,
    let rated := SELECT support_chat_sessions (λ r, 0 <? cs_Rating r) s in
    [(Z.of_nat (length rated), foldr (λ r n, cs_Rating r + n) 0 rated)])) in
  match r with
  | None => fail (wrapDB ENoRows "build the report")
  | Some (count, total) =>
      if count =? 0 then ok_ (0, 0) else ok_ (count, (total *! 100) /! count)
  end.

(** * Messages, attachments, assignments, audit *)

Definition InsertMessage (m : TicketMessage) : D () :=
  execute "save the reply" (INSERT support_ticket_messages m).

Definition message_order (a b : TicketMessage) : bool :=
  (tm_CreatedAt a <? tm_CreatedAt b) ||
  (tm_CreatedAt a =? tm_CreatedAt b) && string_leb (tm_ID a) (tm_ID b).

Definition Messages (orgID : Z) (ticketID : string) (includeInternal : bool) : D (list TicketMessage) :=
  wrapped "load the conversation" (query (λ s,
    ORDER_BY message_order (SELECT support_ticket_messages (λ r,
      (tm_TicketID r =s ticketID) && (tm_OrgID r =? orgID) && (includeInternal || negb (tm_Internal r))) s))).

Definition InsertAttachment (a : Attachment) : D () :=
  execute "save the attachment" (INSERT support_ticket_attachments a).

Definition GetAttachments (orgID : Z) (ticketID : string) : D (list Attachment) :=
  wrapped "list attachments" (query (λ s,
    ORDER_BY (λ a b, at_CreatedAt a <=? at_CreatedAt b) (SELECT support_ticket_attachments (λ r,
      (at_TicketID r =s ticketID) && (at_OrgID r =? orgID)) s))).

Definition GetAttachment (orgID : Z) (id : string) : D Attachment :=
  rowOr "Attachment" "load the attachment" (queryRow (SELECT support_ticket_attachments (λ r,
    (at_ID r =s id) && (at_OrgID r =? orgID)))).

Definition AttachmentAnyOrg (id : string) : D Attachment :=
  rowOr "Attachment" "load the attachment"
    (queryRow (SELECT support_ticket_attachments (λ r, at_ID r =s id))).

Definition InsertAssignment (a : Assignment) : D () :=
  execute "record the assignment" (INSERT support_assignments a).

Definition Assignments (orgID : Z) (ticketID : string) : D (list Assignment) :=
  wrapped "list assignments" (query (λ s,
    ORDER_BY (λ a b, as_CreatedAt a <=? as_CreatedAt b) (SELECT support_assignments (λ r,
      (as_TicketID r =s ticketID) && (as_OrgID r =? orgID)) s))).

Definition InsertAudit (e : AuditEntry) : D () :=
  execute "record the audit entry" (INSERT support_audit_logs e).

Definition AuditFor (entityType entityID : string) : D (list AuditEntry) :=
  wrapped "list audit entries" (query (λ s,
    ORDER_BY (λ a b, au_CreatedAt a <=? au_CreatedAt b) (SELECT support_audit_logs (λ r,
      (au_EntityType r =s entityType) && (au_EntityID r =s entityID)) s))).

(** * Agents and configuration *)

(** An UPDATE, and the INSERT when it changed no row or the count is unknown. *)
Definition upsert {R} (action : string) (tb : Table Desk R) (P : R → bool) (f : R → R) (r : R) : D () :=
  let? n := wrapped action (exec (UPDATE tb P f)) in
  match n with
  | Ok n => if 0 <? n then ok_ () else execute action (INSERT tb r)
  | Err _ => execute action (INSERT tb r)
  end.

Definition UpsertAgent (a : Agent) : D () :=
  upsert "save the agent profile" support_agents (λ r, ag_UserID r =? ag_UserID a)
    (λ r, r {{ ag_DisplayName := ag_DisplayName a; ag_DepartmentID := ag_DepartmentID a;
               ag_MaxConcurrentChats := ag_MaxConcurrentChats a; ag_Enabled := ag_Enabled a;
               ag_UpdatedAt := ag_UpdatedAt a }}) a.

Definition AgentByUser (userID : Z) : D Agent :=
  rowOr "Agent" "load the agent profile"
    (queryRow (SELECT support_agents (λ r, ag_UserID r =? userID))).

Definition ListAgents (enabledOnly : bool) : D (list Agent) :=
  wrapped "list agents" (query (λ s,
    ORDER_BY (λ a b, string_leb (ag_DisplayName a) (ag_DisplayName b))
      (SELECT support_agents (λ r, negb enabledOnly || ag_Enabled r) s))).

Definition TouchAgent (userID at_ : Z) : D () :=
  execute "record agent activity" (UPDATE support_agents (λ r, ag_UserID r =? userID)
    (λ r, r {{ ag_LastActivityAt := at_; ag_UpdatedAt := at_ }})).

Definition UpsertDepartment (d : Department) : D () :=
  upsert "save the department" support_departments (λ r, dp_ID r =s dp_ID d)
    (λ r, r {{ dp_Name := dp_Name d; dp_Description := dp_Description d; dp_Enabled := dp_Enabled d;
               dp_UpdatedAt := dp_UpdatedAt d }}) d.

Definition ListDepartments : D (list Department) :=
  wrapped "list departments" (query (λ s,
    ORDER_BY (λ a b, string_leb (dp_Name a) (dp_Name b)) (get support_departments s))).

Definition UpsertCategory (c : Category) : D () :=
  upsert "save the category" support_categories (λ r, ct_ID r =s ct_ID c)
    (λ r, r {{ ct_ParentID := ct_ParentID c; ct_Name := ct_Name c; ct_Slug := ct_Slug c;
               ct_Position := ct_Position c; ct_Enabled := ct_Enabled c }}) c.

Definition category_order (a b : Category) : bool :=
  (ct_Position a <? ct_Position b) ||
  (ct_Position a =? ct_Position b) && string_leb (ct_Name a) (ct_Name b).

Definition ListCategories (enabledOnly : bool) : D (list Category) :=
  wrapped "list categories" (query (λ s,
    ORDER_BY category_order (SELECT support_categories (λ r, negb enabledOnly || ct_Enabled r) s))).

Definition UpsertSLAPolicy (p : SLAPolicy) : D () :=
  upsert "save the SLA policy" support_sla_policies (λ r, sp_Priority r =s sp_Priority p)
    (λ r, r {{ sp_FirstResponseMins := sp_FirstResponseMins p; sp_ResolutionMins := sp_ResolutionMins p;
               sp_EscalatePercent := sp_EscalatePercent p; sp_Enabled := sp_Enabled p;
               sp_UpdatedAt := sp_UpdatedAt p }}) p.

Definition ListSLAPolicies : D (list SLAPolicy) :=
  wrapped "list SLA policies" (query (get support_sla_policies)).

(** [None] is [ok = false]. *)
Definition GetSetting (key : string) : D (option string) :=
  let? r := wrapped "read the setting" (queryRow (SELECT support_settings (λ r, sg_Key r =s key))) in
  ok_ (sg_Value <$> r).

Definition PutSetting (key value : string) (at_ : Z) : D () :=
  upsert "save the setting" support_settings (λ r, sg_Key r =s key)
    (λ r, r {{ sg_Value := value; sg_UpdatedAt := at_ }}) (mkSetting key value at_).

Definition ListSettings : D (list Setting) :=
  wrapped "list settings" (query (λ s,
    ORDER_BY (λ a b, string_leb (sg_Key a) (sg_Key b)) (get support_settings s))).

(** * Articles *)

Definition InsertArticle (a : Article) : D () := execute "save the article" (INSERT support_kb_articles a).

Definition writtenArticle (a r : Article) : Article :=
  r {{ ar_Slug := ar_Slug a; ar_Title := ar_Title a; ar_Body := ar_Body a;
       ar_CategoryID := ar_CategoryID a; ar_Tags := ar_Tags a; ar_Status := ar_Status a;
       ar_PublishedAt := ar_PublishedAt a; ar_UpdatedAt := ar_UpdatedAt a;
       ar_Version := ar_Version r + 1 }}.

Definition same_article (a r : Article) : bool := (ar_ID r =s ar_ID a) && (ar_Version r =? ar_Version a).

Definition UpdateArticle (a : Article) : D () :=
  wrapped "update the article"
    (UpdateVersioned (UPDATE support_kb_articles (same_article a) (writtenArticle a))).

Definition GetArticle (id : string) : D Article :=
  rowOr "Article" "load the article" (queryRow (SELECT support_kb_articles (λ r, ar_ID r =s id))).

Definition ArticleBySlug (slug : string) : D Article :=
  rowOr "Article" "load the article" (queryRow (SELECT support_kb_articles (λ r, ar_Slug r =s slug))).

Definition articleWhere (f : ArticleFilter) (a : Article) : bool :=
  (isEmpty (af_Statuses f) || one_of (ar_Status a) (af_Statuses f)) &&
  (negb (0 <? af_OrgID f) || (ar_OrgID a =? af_OrgID f) || (ar_OrgID a =? 0)) &&
  ((af_Search f =s "") ||
   let pattern := "%" +:+ af_Search f +:+ "%" in
   like (ar_Title a) pattern || like (ar_Body a) pattern || like (ar_Tags a) pattern).

Definition ListArticles (f : ArticleFilter) : D (list Article * Page) :=
  let? total := queryCount "count articles" (countRows support_kb_articles (articleWhere f)) in
  let page := newPage (af_Page f) (af_Limit f) total in
  let? rows := wrapped "list articles" (query (λ s,
    LIMIT (pg_Limit page) (offsetFor page)
      (ORDER_BY (λ a b, string_leb (ar_Title a) (ar_Title b)) (SELECT support_kb_articles (articleWhere f) s)))) in
  ok_ (rows, page).

Definition bump (counter : string) : option (Article → Article) :=
  if counter =s "helpful" then Some (λ r, r {{ ar_HelpfulCount := ar_HelpfulCount r + 1 }})
  else if counter =s "not_helpful" then Some (λ r, r {{ ar_NotHelpfulCnt := ar_NotHelpfulCnt r + 1 }})
  else if counter =s "view" then Some (λ r, r {{ ar_ViewCount := ar_ViewCount r + 1 }})
  else None.

Definition BumpArticleCounter (id counter : string) : D () :=
  match bump counter with
  | None => fail (New CodeValidation 400 "Unknown counter")
  | Some f => execute "record the feedback" (UPDATE support_kb_articles (λ r, ar_ID r =s id) f)
  end.

(** * Chats *)

Definition InsertChatSession (c : ChatSession) : D () :=
  execute "start the chat" (INSERT support_chat_sessions c).

Definition writtenChat (c r : ChatSession) : ChatSession :=
  r {{ cs_AgentID := cs_AgentID c; cs_Status := cs_Status c; cs_Subject := cs_Subject c;
       cs_TicketID := cs_TicketID c; cs_StartedAt := cs_StartedAt c; cs_EndedAt := cs_EndedAt c;
       cs_Rating := cs_Rating c; cs_LastEventAt := cs_LastEventAt c }}.

Definition UpdateChatSession (c : ChatSession) : D () :=
  execute "update the chat"
    (UPDATE support_chat_sessions (λ r, cs_ID r =s cs_ID c) (writtenChat c)).

Definition GetChatSession (orgID : Z) (id : string) : D ChatSession :=
  rowOr "Chat session" "load the chat" (queryRow (SELECT support_chat_sessions (λ r,
    (cs_ID r =s id) && (cs_OrgID r =? orgID)))).

Definition ChatSessionAnyOrg (id : string) : D ChatSession :=
  rowOr "Chat session" "load the chat" (queryRow (SELECT support_chat_sessions (λ r, cs_ID r =s id))).

Definition ChatSessionsByStatus (statuses : list string) : D (list ChatSession) :=
  if isEmpty statuses then ok_ [] else
  wrapped "list chats" (query (λ s,
    ORDER_BY (λ a b, cs_QueuedAt a <=? cs_QueuedAt b)
      (SELECT support_chat_sessions (λ r, one_of (cs_Status r) statuses) s))).

Definition CountActiveChatsForAgent (agentID : Z) : D Z :=
  queryCount "count chats" (countRows support_chat_sessions (λ r,
    (cs_AgentID r =? agentID) && (cs_Status r =s ChatActive))).

Definition InsertChatMessage (m : ChatMessage) : D () :=
  execute "send the message" (INSERT support_chat_messages m).

Definition chat_order (a b : ChatMessage) : bool :=
  (cm_CreatedAt a <? cm_CreatedAt b) ||
  (cm_CreatedAt a =? cm_CreatedAt b) && string_leb (cm_ID a) (cm_ID b).

Definition ChatMessages (orgID : Z) (sessionID : string) (after : Z) : D (list ChatMessage) :=
  wrapped "load the chat transcript" (query (λ s,
    ORDER_BY chat_order (SELECT support_chat_messages (λ r,
      (cm_SessionID r =s sessionID) && (cm_OrgID r =? orgID) && (after <=? cm_CreatedAt r)) s))).

(** * Canned responses *)

Definition InsertCanned (c : CannedResponse) : D () :=
  execute "save the canned response" (INSERT support_canned_responses c).

Definition UpdateCanned (c : CannedResponse) : D () :=
  execute "update the canned response" (UPDATE support_canned_responses (λ r, cn_ID r =s cn_ID c)
    (λ r, r {{ cn_Title := cn_Title c; cn_Body := cn_Body c; cn_Tags := cn_Tags c;
               cn_DepartmentID := cn_DepartmentID c; cn_UpdatedAt := cn_UpdatedAt c }})).

Definition Canned (id : string) : D CannedResponse :=
  rowOr "Canned response" "load the canned response"
    (queryRow (SELECT support_canned_responses (λ r, cn_ID r =s id))).

Definition DeleteCanned (id : string) (agentUserID : Z) : D () :=
  execute "delete the canned response" (DELETE support_canned_responses (λ r,
    (cn_ID r =s id) && (cn_Scope r =s CannedPersonal) && (cn_AgentUserID r =? agentUserID))).

Definition canned_order (a b : CannedResponse) : bool :=
  negb (string_leb (cn_Scope b) (cn_Scope a)) ||
  (cn_Scope a =s cn_Scope b) && string_leb (cn_Title a) (cn_Title b).

(** The rows an agent may see. *)
Definition visibleTo (agentUserID : Z) (departmentID : string) (r : CannedResponse) : bool :=
  (cn_Scope r =s CannedSystem) ||
  (cn_Scope r =s CannedDepartment) && (cn_DepartmentID r =s departmentID) && negb (cn_DepartmentID r =s "") ||
  (cn_Scope r =s CannedPersonal) && (cn_AgentUserID r =? agentUserID).

Definition ListCannedFor (agentUserID : Z) (departmentID : string) : D (list CannedResponse) :=
  wrapped "list canned responses" (query (λ s,
    ORDER_BY canned_order (SELECT support_canned_responses (visibleTo agentUserID departmentID) s))).

Definition ListCannedAdmin : D (list CannedResponse) :=
  wrapped "list canned responses" (query (λ s,
    ORDER_BY canned_order (SELECT support_canned_responses (λ r,
      one_of (cn_Scope r) [CannedSystem; CannedDepartment]) s))).

Definition BumpCannedUsage (id : string) : D () :=
  execute "record canned response usage" (UPDATE support_canned_responses (λ r, cn_ID r =s id)
    (λ r, r {{ cn_UsageCount := cn_UsageCount r + 1 }})).

(** * Bot conversations *)

Definition InsertBotSession (b : BotSession) : D () :=
  execute "start the help session" (INSERT support_bot_sessions b).

Definition UpdateBotSession (b : BotSession) : D () :=
  execute "update the help session" (UPDATE support_bot_sessions
    (λ r, (bs_ID r =s bs_ID b) && (bs_UserID r =? bs_UserID b))
    (λ r, r {{ bs_Attempts := bs_Attempts b; bs_Resolved := bs_Resolved b; bs_Escalated := bs_Escalated b;
               bs_Transcript := bs_Transcript b; bs_LastCategory := bs_LastCategory b;
               bs_LastPriority := bs_LastPriority b; bs_UpdatedAt := bs_UpdatedAt b }})).

Definition GetBotSession (userID : Z) (id : string) : D BotSession :=
  rowOr "Help session" "load the help session" (queryRow (SELECT support_bot_sessions (λ r,
    (bs_ID r =s id) && (bs_UserID r =? userID)))).
End store.
