(* ===== verification/DeskBot.v ===== *)
(** The help bot: [src/src/support/bot.go].  Regular expressions are a parameter;
    everything else (compilation of the table, scoring, ties, the transcript, the
    proposed ticket) is the code's. *)
From stdpp Require Import prelude strings list.
From Stdlib Require Import ZArith Lia Ascii.
From S2P Require Import Prelude Text DeskModels DeskStates Desk BotPatterns.

Section bot.
Context `{!Params}.

Record compiledPattern := mkCompiled { cp_pattern : BotPattern; cp_res : list string }.

(** Expressions that do not compile are skipped, and rules with none left. *)
Definition compilePattern (p : BotPattern) : compiledPattern :=
  mkCompiled p (List.filter regexp_ok (bp_Expressions p)).

Definition has_expressions (cp : compiledPattern) : bool :=
  match cp_res cp with [] => false | _ => true end.

Definition compileBot (patterns : list BotPattern) : list compiledPattern :=
  sort_by (λ a b, string_leb (bp_ID (cp_pattern a)) (bp_ID (cp_pattern b)))
    (List.filter has_expressions (compilePattern <$> patterns)).

Definition botCompiled : list compiledPattern := compileBot botPatterns.
Definition botUrgencyRE : list string := List.filter regexp_ok botUrgencyExpressions.

Definition score (probe : string) (cp : compiledPattern) : Z :=
  Z.of_nat (length (List.filter (λ re, regexp_match re probe) (cp_res cp))).

(** The loop of [MatchBot]: the best rule so far, its score, and whether another
    one has that score too. *)
Fixpoint matchLoop (probe : string) (cps : list compiledPattern) (best : option BotPattern)
    (bestScore : Z) (tied : bool) : option BotPattern * bool :=
  match cps with
  | [] => (best, tied)
  | cp :: rest =>
      let n := score probe cp in
      if n =? 0 then matchLoop probe rest best bestScore tied
      else if bestScore <? n then matchLoop probe rest (Some (cp_pattern cp)) n false
      else if n =? bestScore then matchLoop probe rest best bestScore true
      else matchLoop probe rest best bestScore tied
  end.

Definition matchTable (table : list compiledPattern) (txt : string) : option BotPattern :=
  let probe := TrimSpaceU txt in
  if probe =s "" then None else
  match matchLoop probe table None 0 false with
  | (Some p, false) => Some p
  | _ => None
  end.

Definition MatchBot (txt : string) : option BotPattern := matchTable botCompiled txt.

Definition botUrgent (txt : string) : bool := existsb (λ re, regexp_match re txt) botUrgencyRE.

Definition firstLine (s : string) : string := (Cut s "010").1.1.

Definition prefillFrom (txt category priority : string) : TicketPrefill :=
  let body := cleanMultiline txt in
  let title := truncate (TrimSpaceU (firstLine body)) 120 in
  let title := if title =s "" then "Support request" else title in
  let priority := if negb (IsPriority priority) then PriorityNormal else priority in
  let priority :=
    if botUrgent txt && (PriorityRank priority <? PriorityRank PriorityHigh) then PriorityHigh
    else priority in
  mkTicketPrefill title (truncate body 8000) category priority.

Definition appendTranscript (transcript speaker txt : string) : string :=
  let line := speaker +:+ ": " +:+ ReplaceChar (cleanMultiline txt) "010" " " in
  if transcript =s "" then truncate line 16000 else truncate (transcript +:+ LF +:+ line) 16000.

Definition clarifyMessage : string :=
  "I'm not sure I understand. Could you describe the issue differently — including any exact error text you saw?".

Definition escalateMessage : string :=
  "Let me connect you with a human agent. I've started a ticket with what you told me — change anything that isn't right, then submit it.".

Definition AskBot (session : BotSession) (txt : string) : BotSession * BotReply :=
  let message := cleanMultiline txt in
  let session := session {{ bs_Transcript := appendTranscript (bs_Transcript session) "user" message }} in
  match MatchBot message with
  | Some pattern =>
      let session := session {{ bs_LastCategory := bp_SuggestedCategory pattern;
        bs_LastPriority := bp_SuggestedPriority pattern;
        bs_Transcript := appendTranscript (bs_Transcript session) "bot" (bp_Response pattern) }} in
      (session, mkBotReply true (bp_Response pattern) (bp_ID pattern) (bs_Attempts session) false
        (prefillFrom message (bp_SuggestedCategory pattern) (bp_SuggestedPriority pattern)))
  | None =>
      let session := session {{ bs_Attempts := bs_Attempts session +! 1 }} in
      let exhausted := BotMaxAttempts <=? bs_Attempts session in
      let answer := if exhausted then escalateMessage else clarifyMessage in
      let session := session {{ bs_Transcript := appendTranscript (bs_Transcript session) "bot" answer }} in
      (session, mkBotReply false answer "" (bs_Attempts session) exhausted
        (prefillFrom message (bs_LastCategory session) (bs_LastPriority session)))
  end.

(** [strings.Cut(line, ": ")]. *)
Fixpoint cutSpeaker (line : string) : option (string * string) :=
  if HasPrefix line ": " then match line with String _ (String _ t) => Some ("", t) | _ => None end
  else match line with
       | EmptyString => None
       | String c line' =>
           match cutSpeaker line' with Some (a, b) => Some (String c a, b) | None => None end
       end.

Definition turnOf (line : string) : BotTurn :=
  match cutSpeaker line with
  | None => mkBotTurn "bot" line
  | Some (speaker, txt) => mkBotTurn speaker txt
  end.

Definition TranscriptLines (transcript : string) : list BotTurn :=
  if transcript =s "" then [] else turnOf <$> Split transcript "010".

(** * The bot answers only when one rule wins *)

(** [p] is the pattern of the one rule of [l] with the highest score. *)
Definition outright (probe : string) (l : list compiledPattern) (p : BotPattern) : Prop :=
  ∃ l1 cp l2, l = l1 ++ cp :: l2 ∧ cp_pattern cp = p ∧ 0 < score probe cp ∧
    Forall (λ c, score probe c < score probe cp) (l1 ++ l2).

(** What the loop has found in the rules [l] seen so far. *)
Definition leading (probe : string) (l : list compiledPattern) (best : option BotPattern)
    (n : Z) (tied : bool) : Prop :=
  Forall (λ c, score probe c ≤ n) l ∧ 0 ≤ n ∧
  match best with
  | None => n = 0 ∧ tied = false
  | Some p =>
      0 < n ∧ ∃ l1 cp l2, l = l1 ++ cp :: l2 ∧ cp_pattern cp = p ∧ score probe cp = n ∧
        (if tied then ∃ c, c ∈ l2 ∧ score probe c = n
         else Forall (λ c, score probe c < n) (l1 ++ l2))
  end.

Lemma leading_skip probe l best n tied cp : leading probe l best n tied → score probe cp < n ∨ score probe cp = 0 →
  leading probe (l ++ [cp]) best n tied.
Proof.
  intros (Hf & Hn & Hb) Hs. split; [apply Forall_app; split; [done | constructor; [lia | constructor]] |].
  split; [done |]. destruct best as [p |]; [| done].
  destruct Hb as (Hp & l1 & c & l2 & -> & Hc & Hsc & Ht). split; [done |].
  exists l1, c, (l2 ++ [cp]). split; [by rewrite <-app_assoc |]. split; [done |]. split; [done |].
  destruct tied.
  - destruct Ht as (c' & Hin & Hc'). exists c'. set_solver.
  - rewrite app_assoc. apply Forall_app. split; [done |]. constructor; [lia | constructor].
Qed.

Lemma matchLoop_leading probe rest l best n tied : leading probe l best n tied →
  ∃ n', leading probe (l ++ rest) (matchLoop probe rest best n tied).1 n' (matchLoop probe rest best n tied).2.
Proof.
  revert l best n tied. induction rest as [| cp rest IH]; intros l best n tied Hl; cbn [matchLoop].
  { rewrite app_nil_r. by exists n. }
  replace (l ++ cp :: rest) with ((l ++ [cp]) ++ rest) by (by rewrite <-app_assoc).
  pose proof Hl as (Hf & Hn & Hb).
  assert (0 ≤ score probe cp) by (unfold score; lia).
  destruct (Z.eqb_spec (score probe cp) 0) as [E0 |]; [by apply IH, leading_skip; auto |].
  destruct (Z.ltb_spec n (score probe cp)) as [Hlt | Hge].
  { apply IH. split; [apply Forall_app; split; [eapply Forall_impl; [exact Hf |]; cbn; lia | by repeat constructor] |].
    split; [lia |]. split; [lia |]. exists l, cp, []. rewrite app_nil_r. repeat split; [].
    eapply Forall_impl; [exact Hf |]. cbn. lia. }
  destruct (Z.eqb_spec (score probe cp) n) as [E |]; [| apply IH, leading_skip; auto; lia].
  apply IH. split; [apply Forall_app; split; [done | constructor; [lia | constructor]] |].
  split; [done |]. destruct best as [p |]; [| lia].
  destruct Hb as (Hp & l1 & c & l2 & -> & Hc & Hsc & Ht). split; [done |].
  exists l1, c, (l2 ++ [cp]). split; [by rewrite <-app_assoc |]. split; [done |]. split; [done |].
  exists cp. split; [set_solver | done].
Qed.

(** No other rule reaches the best score. *)
Lemma top_alone probe table n l1 cp l2 : table = l1 ++ cp :: l2 →
  Forall (λ c, score probe c < score probe cp) (l1 ++ l2) → score probe cp ≤ n →
  (length (List.filter (λ c, Z.leb n (score probe c)) table) ≤ 1)%nat.
Proof.
  intros -> Hlow Hle. apply Forall_app in Hlow as [H1 H2].
  assert (∀ l, Forall (λ c, score probe c < score probe cp) l →
    List.filter (λ c, n <=? score probe c) l = []) as Hnil.
  { induction 1 as [| c l Hc _ IH]; cbn; [done |]. by replace (n <=? score probe c) with false by lia. }
  rewrite List.filter_app. cbn. rewrite (Hnil _ H1). case_match; cbn; rewrite (Hnil _ H2); cbn; lia.
Qed.

(** The bot answers with a rule exactly when that rule alone has the highest
    positive number of matching expressions; a tie at the top, no match and an
    empty message are all answered with a request to rephrase. *)
Theorem MatchBot_outright (table : list compiledPattern) (txt : string) (p : BotPattern) :
  TrimSpaceU txt ≠ "" →
  matchTable table txt = Some p ↔ outright (TrimSpaceU txt) table p.
Proof.
  intros Hne. unfold matchTable. apply seqb_neq in Hne. rewrite Hne.
  set (probe := TrimSpaceU txt).
  destruct (matchLoop_leading probe table [] None 0 false) as (n & Hf & Hn & Hb).
  { by repeat split. }
  cbn [app] in Hf, Hb. destruct (matchLoop probe table None 0 false) as [best tied]. cbn [fst snd] in Hb.
  split.
  - destruct best as [q |]; [| done]. destruct tied; [done |]. intros [= ->].
    destruct Hb as (Hp & l1 & cp & l2 & E & Hc & Hs & Ht). exists l1, cp, l2. rewrite Hs. auto.
  - intros (l1 & cp & l2 & E & Hc & Hpos & Hlow).
    assert (score probe cp ≤ n) as Hle.
    { rewrite E in Hf. by apply Forall_app in Hf as [_ [? _]%Forall_cons]. }
    destruct best as [q |]; [| lia]. destruct Hb as (Hp & m1 & c & m2 & E' & Hq & Hs & Ht).
    pose proof (top_alone probe table n l1 cp l2 E Hlow Hle) as Htop.
    assert (score probe c = score probe cp ∧ cp_pattern c = cp_pattern cp) as [Es Ep].
    { assert (c ∈ l1 ++ cp :: l2) as Hin by (rewrite <-E, E'; set_solver).
      apply elem_of_app in Hin as [Hin | [-> | Hin]%elem_of_cons]; [| done |];
        rewrite Forall_forall in Hlow; pose proof (Hlow c ltac:(set_solver)); lia. }
    destruct tied; [| congruence]. destruct Ht as (c' & Hin & Hc').
    apply list_elem_of_split in Hin as (k1 & k2 & ->). rewrite E' in Htop.
    rewrite !List.filter_app, length_app in Htop. cbn in Htop.
    replace (n <=? score probe c) with true in Htop by lia. cbn in Htop.
    rewrite List.filter_app, length_app in Htop. cbn in Htop.
    replace (n <=? score probe c') with true in Htop by lia. cbn in Htop. lia.
Qed.
End bot.

Definition toyTable : list compiledPattern :=
  let rule id exprs := mkCompiled (mkBotPattern id "" exprs "" "" "") exprs in
  [rule "a" ["login"; "failed"]; rule "b" ["login"]; rule "c" ["slow"]].

Lemma MatchBot_outright_witness :
  let P := plainParams true in
  ∃ p, matchTable toyTable "login failed, and slow" = Some p ∧
    outright (TrimSpaceU "login failed, and slow") toyTable p.
Proof.
  cbv zeta. exists (mkBotPattern "a" "" ["login"; "failed"] "" "" ""). split; [by vm_compute |].
  apply (@MatchBot_outright (plainParams true) toyTable "login failed, and slow"); by vm_compute.
Defined.

(** Two rules with one match each: no answer. *)
Example ambiguous : @matchTable (plainParams true) toyTable "slow login" = None.
Proof. by vm_compute. Qed.
