(* ===== verification/DeskService.v ===== *)
(** The support desk's service: [src/src/support/service.go] (settings, roles,
    support mode, audit, notifications, rate limits) and the stateful part of
    [sla.go].  A log line is left out; a notification is recorded as sent. *)
From stdpp Require Import prelude strings list gmap.
From Stdlib Require Import ZArith Lia Ascii.
From S2P Require Import Prelude Errors Threads Sql RateLimit Text DeskModels DeskStates Desk.
From S2P Require Import DeskStore.

Section service.
Context `{!Params}.

Definition CodeRateLimited : string := "RATE_LIMITED".

(** * Settings *)

Definition SettingChatEnabled : string := "chat.enabled".
Definition SettingChatMaxConcurrent : string := "chat.max_concurrent".
Definition SettingChatOpenMinute : string := "chat.business_open_minute".
Definition SettingChatCloseMinute : string := "chat.business_close_minute".
Definition SettingChatDays : string := "chat.business_days".
Definition SettingAutoCloseHours : string := "tickets.auto_close_hours".
Definition SettingAttachmentMaxKB : string := "tickets.attachment_max_kb".
Definition SettingKBPublicEnabled : string := "kb.public_enabled".

Definition defaultSettings : list (string * string) :=
  [(SettingChatEnabled, "0"); (SettingChatMaxConcurrent, "20"); (SettingChatOpenMinute, "540");
   (SettingChatCloseMinute, "1020"); (SettingChatDays, "1,2,3,4,5"); (SettingAutoCloseHours, "72");
   (SettingAttachmentMaxKB, "10240"); (SettingKBPublicEnabled, "1")].

Definition defaultSetting (key : string) : string :=
  match assoc key defaultSettings with Some v => v | None => "" end.

(** [order] is the order in which Go visits the map. *)
Fixpoint seedSettings (order : list (string * string)) : D () :=
  match order with
  | [] => ok_ ()
  | (key, value) :: rest =>
      let? v := GetSetting key in
      match v with
      | Some _ => seedSettings rest
      | None =>
          let* at_ := nowUnix in
          let? _ := PutSetting key value at_ in
          seedSettings rest
      end
  end.

Definition settingInt (key : string) : program Z :=
  let fallback := match ParseInt (defaultSetting key) with Some n => n | None => 0 end in
  let* r := GetSetting key in
  match r with
  | Ok (Some raw) =>
      match ParseInt (TrimSpaceU raw) with Some n => Ret n | None => Ret fallback end
  | _ => Ret fallback
  end.

Definition settingBool (key : string) : program bool :=
  let* n := settingInt key in Ret (negb (n =? 0)).

Definition settingString (key : string) : program string :=
  let* r := GetSetting key in
  match r with Ok (Some raw) => Ret raw | _ => Ret (defaultSetting key) end.

(** * Roles *)

Definition RoleOf (id : Identity) : program string :=
  if negb (id_Authenticated id) || (id_UserID id =? 0) then Ret RoleGuest
  else if id_GlobalAdmin id then Ret RoleAdmin
  else
    let* r := AgentByUser (id_UserID id) in
    match r with
    | Ok agent => Ret (if ag_Enabled agent then RoleAgent else RoleUser)
    | Err _ => Ret RoleUser
    end.

Definition IsStaff (id : Identity) : program bool :=
  let* role := RoleOf id in
  Ret ((role =s RoleAgent) || (role =s RoleAdmin)).

Definition AgentDisplayName (id : Identity) : program string :=
  let* r := AgentByUser (id_UserID id) in
  let own := if negb (TrimSpaceU (id_DisplayName id) =s "") then id_DisplayName id else "Support" in
  match r with
  | Ok agent =>
      Ret (if negb (TrimSpaceU (ag_DisplayName agent) =s "") then ag_DisplayName agent else own)
  | Err _ => Ret own
  end.

(** * Support mode *)

(** In seconds. *)
Definition SupportModeTTL : Z := 4 * 3600.

Definition dropMode (sid : string) : program () :=
  atomic (λ _ s, ((), s {{ d_mode := delete sid (d_mode s) }})).

Definition SupportModeFor (id : Identity) : program (option SupportMode) :=
  if id_SessionID id =s "" then Ret None else
  let* m := peek (λ _ s, d_mode s !! id_SessionID id) in
  match m with
  | None => Ret None
  | Some mode =>
      let* lapsed :=
        if negb (sm_AgentUserID mode =? id_UserID id) then Ret true
        else let* at_ := nowUnix in Ret (sm_ExpiresAt mode <=? at_) in
      if lapsed : bool then let* _ := dropMode (id_SessionID id) in Ret None
      else Ret (Some mode)
  end.

Definition audit (id : Identity) (e : AuditEntry) : D () :=
  let* mode := SupportModeFor id in
  let* i := newID "aud" in
  let* at_ := nowUnix in
  InsertAudit (e {{ au_ID := i;
    au_ActorID := match mode with Some m => sm_AgentUserID m | None => id_UserID id end;
    au_SupportMode := match mode with Some _ => true | None => false end;
    au_OrgID := if au_OrgID e =? 0 then id_OrgID id else au_OrgID e;
    au_CreatedAt := at_; au_Detail := truncate (clean (au_Detail e)) 500 }}).

(** An entry as the callers write it down. *)
Definition entry (org : Z) (action kind entity from to detail : string) : AuditEntry :=
  mkAuditEntry "" org 0 0 action kind entity from to detail false 0.

Definition EnterSupportMode (id : Identity) (reason : string) : D SupportMode :=
  let* staff := IsStaff id in
  if negb staff then fail (New CodeForbidden 403 "Support mode is limited to support staff") else
  if id_SessionID id =s "" then
    fail (New CodeBadRequest 400 "A session is required to enter support mode") else
  let reason := truncate (clean reason) 200 in
  if reason =s "" then fail (New CodeValidation 400 "A reason is required to enter support mode") else
  let* display := AgentDisplayName id in
  let* at_ := nowUnix in
  let mode := mkSupportMode (id_SessionID id) (id_UserID id) display reason at_ (at_ +! SupportModeTTL) in
  let* _ := atomic (λ _ s, ((), s {{ d_mode := <[id_SessionID id := mode]> (d_mode s) }})) in
  let? _ := TouchAgent (id_UserID id) at_ in
  let? _ := audit id (entry 0 "support_mode.enter" "agent" (itoa (id_UserID id)) "" "" reason) in
  ok_ mode.

Definition ExitSupportMode (id : Identity) : D () :=
  let* m := atomic (λ _ s,
    (d_mode s !! id_SessionID id, s {{ d_mode := delete (id_SessionID id) (d_mode s) }})) in
  match m with
  | None => ok_ ()
  | Some mode =>
      audit id (entry 0 "support_mode.exit" "agent" (itoa (sm_AgentUserID mode)) "" "" (sm_Reason mode))
  end.

Definition requireSupportMode (id : Identity) : D SupportMode :=
  let* staff := IsStaff id in
  if negb staff then fail (New CodeForbidden 403 "Permission denied") else
  let* m := SupportModeFor id in
  match m with
  | None => fail (New CodeForbidden 403 "Enter support mode to use the agent workspace")
  | Some mode =>
      let* at_ := nowUnix in
      let? _ := TouchAgent (id_UserID id) at_ in
      ok_ mode
  end.

(** * Notifications and limits *)

Definition notify (event : string) (userID : Z) (fields : list (string * string)) : program () :=
  if negb o_Notifier || (userID =? 0) then Ret () else
  atomic (λ _ s,
    ((), s {{ d_sent := d_sent s ++ [mkNotice event userID (fields ++ [("site", o_SiteName)])] }})).

Definition limitTicketCreate : string := "support_ticket_create".
Definition limitChatStart : string := "support_chat_start".
Definition limitBotMessage : string := "support_bot_message".

(** The limits [New] registers. *)
Definition deskLimits (limits : Limits) : Limits :=
  Limits_Set (Limits_Set (Limits_Set limits limitTicketCreate (mkRule 10 Hour))
    limitChatStart (mkRule 10 Hour)) limitBotMessage (mkRule 60 Hour).

Definition limitKey (id : Identity) : string :=
  let key := if id_UserID id =? 0 then id_RemoteKey id else itoa (id_UserID id) in
  if key =s "" then "anonymous" else key.

Definition allow (name : string) (id : Identity) : D () :=
  let* (ok, wait) := atomic (λ e s,
    let '(ok, wait, l) := Limits_Allow (d_limits s) name (limitKey id) (e_now e) in
    ((ok, wait), s {{ d_limits := l }})) in
  if ok : bool then ok_ ()
  else fail (WithDetails (New CodeRateLimited 429 "Too many requests")
    [("retry_after_seconds", DInt (wait / Second))]).

(** * Service levels *)

Definition SLAPolicies : D (gmap string SLAPolicy) :=
  let? stored := ListSLAPolicies in
  ok_ (foldl (λ m p, if IsPriority (sp_Priority p) then <[sp_Priority p := p]> m else m)
    (foldl (λ m p, <[sp_Priority p := p]> m) ∅ DefaultSLAPolicies) stored).

(** The policy of a priority, or that of the normal one. *)
Definition policyOf (policies : gmap string SLAPolicy) (priority : string) : SLAPolicy :=
  match policies !! priority with
  | Some p => p
  | None => match policies !! PriorityNormal with Some p => p | None => zeroSLAPolicy end
  end.

Definition PolicyFor (priority : string) : D SLAPolicy :=
  let? policies := SLAPolicies in ok_ (policyOf policies priority).

Fixpoint seedPolicies (have : list string) (ps : list SLAPolicy) : D () :=
  match ps with
  | [] => ok_ ()
  | p :: rest =>
      if one_of (sp_Priority p) have then seedPolicies have rest else
      let* i := newID "sla" in
      let* at_ := nowUnix in
      let? _ := UpsertSLAPolicy (p {{ sp_ID := i; sp_UpdatedAt := at_ }}) in
      seedPolicies have rest
  end.

Definition seedSLAPolicies : D () :=
  let? stored := ListSLAPolicies in
  seedPolicies (sp_Priority <$> stored) DefaultSLAPolicies.
End service.
