(* ===== verification/DeskTickets.v ===== *)
(** Tickets: [src/src/support/tickets.go], the agent workspace of [agents.go] and
    the ticket sweeps of [tasks.go], whole functions composed as the code composes
    them. *)
From stdpp Require Import prelude strings list gmap.
From Stdlib Require Import ZArith Lia Ascii.
From S2P Require Import Prelude Errors Threads Sql RateLimit Text DeskModels DeskStates Desk.
From S2P Require Import DeskStore DeskBot DeskService.

Section tickets.
Context `{!Params}.

(** * tickets.go *)

Definition normalizeTicket (i : TicketInput) : TicketInput :=
  let priority := ToUpperU (clean (ti_Priority i)) in
  mkTicketInput (truncate (clean (ti_Title i)) 200) (truncate (cleanMultiline (ti_Description i)) 20000)
    (truncate (clean (ti_CategoryID i)) 64) (if IsPriority priority then priority else PriorityNormal).

(** [None] is a valid form. *)
Definition validateTicket (i : TicketInput) : option error :=
  if ti_Title i =s "" then
    Some (WithDetails (New CodeValidation 400 "A short summary is required") (field "title"))
  else if ti_Description i =s "" then
    Some (WithDetails (New CodeValidation 400 "A description is required") (field "description"))
  else None.

Definition requireTicketCreator (id : Identity) : D () :=
  if negb (id_Authenticated id) || (id_UserID id =? 0) || (id_OrgID id =? 0)
  then fail (New CodeUnauthorized 401 "Sign in to open a support ticket") else
  let* m := SupportModeFor id in
  match m with
  | Some _ => fail (New CodeForbidden 403 "Exit support mode before opening a ticket of your own")
  | None => ok_ ()
  end.

Definition StartBotSession (id : Identity) : D BotSession :=
  let? _ := requireTicketCreator id in
  let* at_ := nowUnix in
  let* i := newID "bot" in
  let session := mkBotSession i (id_OrgID id) (id_UserID id) 0 false false "" "" PriorityNormal at_ at_ in
  let? _ := InsertBotSession session in
  ok_ session.

(** The caller's conversation, in the caller's organization. *)
Definition ownBotSession (id : Identity) (sessionID : string) : D BotSession :=
  let? session := GetBotSession (id_UserID id) sessionID in
  if negb (bs_OrgID session =? id_OrgID id) then fail (notFound "Help session") else ok_ session.

Definition BotMessage (id : Identity) (sessionID txt : string) : D (BotSession * BotReply) :=
  let? _ := requireTicketCreator id in
  let? _ := allow limitBotMessage id in
  let? session := ownBotSession id sessionID in
  let '(session, reply) := AskBot session txt in
  let* at_ := nowUnix in
  let session := session {{ bs_UpdatedAt := at_ }} in
  let? _ := UpdateBotSession session in
  ok_ (session, reply).

Definition MarkBotResolved (id : Identity) (sessionID : string) : D () :=
  let? session := ownBotSession id sessionID in
  let* at_ := nowUnix in
  UpdateBotSession (session {{ bs_Resolved := true; bs_UpdatedAt := at_ }}).

Definition lastUserText (turns : list BotTurn) : string :=
  foldl (λ last turn, if bt_Speaker turn =s "user" then bt_Text turn else last) "" turns.

Definition EscalateBotSession (id : Identity) (sessionID : string) : D (Ticket * TicketPrefill) :=
  let? _ := requireTicketCreator id in
  let? session := ownBotSession id sessionID in
  let prefill := prefillFrom (lastUserText (TranscriptLines (bs_Transcript session)))
    (bs_LastCategory session) (bs_LastPriority session) in
  let? number := NextTicketNumber in
  let* at_ := nowUnix in
  let* i := newID "tkt" in
  let draft := mkTicket i (id_OrgID id) number (tp_Title prefill) (tp_Description prefill)
    (tp_Category prefill) (tp_Priority prefill) StateDraft (id_UserID id) 0 (bs_Transcript session)
    "" 0 0 0 at_ at_ 1 in
  let? _ := InsertTicket draft in
  let? _ := UpdateBotSession (session {{ bs_Escalated := true; bs_UpdatedAt := at_ }}) in
  let? _ := audit id (entry 0 "ticket.draft" "ticket" (t_ID draft) "" StateDraft "") in
  ok_ (draft, prefill).

Definition bumped (t : Ticket) : Ticket := t {{ t_Version := t_Version t +! 1 }}.

Definition SaveDraft (id : Identity) (ticketID : string) (i : TicketInput) : D Ticket :=
  let? _ := requireTicketCreator id in
  let? t := GetTicket (id_OrgID id) ticketID in
  if negb (t_UserID t =? id_UserID id) || negb (t_Status t =s StateDraft) then fail (notFound "Draft") else
  let i := normalizeTicket i in
  let* at_ := nowUnix in
  let t := t {{ t_Title := ti_Title i; t_Description := ti_Description i;
    t_CategoryID := ti_CategoryID i; t_Priority := ti_Priority i; t_UpdatedAt := at_ }} in
  let? _ := UpdateTicket t in
  ok_ (bumped t).

Definition SubmitTicket (id : Identity) (ticketID : string) (i : TicketInput) : D Ticket :=
  let? _ := requireTicketCreator id in
  let? _ := allow limitTicketCreate id in
  let? t := GetTicket (id_OrgID id) ticketID in
  if negb (t_UserID t =? id_UserID id) then fail (notFound "Draft") else
  if negb (CanTransition (t_Status t) StateOpen ActorUser)
  then fail (transitionError (t_Status t) StateOpen ActorUser) else
  let i := normalizeTicket i in
  match validateTicket i with
  | Some e => fail e
  | None =>
      let? policy := PolicyFor (ti_Priority i) in
      let* at_ := nowUnix in
      let t := t {{ t_Title := ti_Title i; t_Description := ti_Description i;
        t_CategoryID := ti_CategoryID i; t_Priority := ti_Priority i; t_Status := StateOpen;
        t_SLAPolicyID := sp_ID policy; t_CreatedAt := at_; t_UpdatedAt := at_ }} in
      let? _ := UpdateTicket t in
      let t := bumped t in
      let? _ := audit id (entry 0 "ticket.submit" "ticket" (t_ID t) StateDraft StateOpen "") in
      let* _ := notify "support.ticket.created" (t_UserID t)
        [("ticket_number", t_Number t); ("title", t_Title t)] in
      ok_ t
  end.

(** [Service.Ticket]: the ticket of a tenant with the conversation it may see. *)
Definition TenantTicket (id : Identity) (ticketID : string) : D (Ticket * list TicketMessage) :=
  if negb (id_Authenticated id) || (id_OrgID id =? 0)
  then fail (New CodeUnauthorized 401 "Authentication required") else
  let? t := GetTicket (id_OrgID id) ticketID in
  if negb (t_UserID t =? id_UserID id) && negb (id_OrgAdmin id) then fail (notFound "Ticket") else
  let? msgs := Messages (id_OrgID id) (t_ID t) false in
  ok_ (t, msgs).

(** [Service.ListTickets]. *)
Definition TenantTickets (id : Identity) (f : TicketFilter) : D (list Ticket * Page) :=
  if negb (id_Authenticated id) || (id_OrgID id =? 0)
  then fail (New CodeUnauthorized 401 "Authentication required") else
  ListTickets (f {{ tf_OrgID := id_OrgID id;
    tf_UserID := if id_OrgAdmin id then tf_UserID f else id_UserID id; tf_AssignedTo := 0 }}).

(** The fields a transition stamps. *)
Definition stamped (t : Ticket) (from to : string) (at_ : Z) : Ticket :=
  let t := t {{ t_Status := to; t_UpdatedAt := at_ }} in
  if to =s StateResolved then t {{ t_ResolvedAt := at_ }}
  else if to =s StateClosed then t {{ t_ClosedAt := at_ }}
  else if (to =s StateOpen) && (from =s StateReopened)
  then t {{ t_ResolvedAt := 0; t_ClosedAt := 0; t_AssignedTo := 0; t_CreatedAt := at_;
            t_FirstResponseAt := 0 }}
  else t.

Definition applyTransition (id : Identity) (t : Ticket) (to actor reason : string) : D Ticket :=
  if negb (CanTransition (t_Status t) to actor) then fail (transitionError (t_Status t) to actor) else
  let* at_ := nowUnix in
  let from := t_Status t in
  let t := stamped t from to at_ in
  let? _ := UpdateTicket t in
  let t := bumped t in
  let? _ := audit id (entry (t_OrgID t) "ticket.transition" "ticket" (t_ID t) from to reason) in
  let* _ :=
    if to =s StateResolved then notify "support.ticket.resolved" (t_UserID t) [("ticket_number", t_Number t)]
    else if to =s StateClosed then notify "support.ticket.closed" (t_UserID t) [("ticket_number", t_Number t)]
    else Ret () in
  ok_ t.

Definition emptyReply : error :=
  WithDetails (New CodeValidation 400 "A reply cannot be empty") (field "body").

Definition AddUserReply (id : Identity) (ticketID body : string) : D Ticket :=
  let? (t, _) := TenantTicket id ticketID in
  let body := truncate (cleanMultiline body) 20000 in
  if body =s "" then fail emptyReply else
  if negb (IsOpenState (t_Status t)) && negb (t_Status t =s StateResolved)
  then fail (New CodeConflict 409 "This ticket is closed") else
  let* at_ := nowUnix in
  let* i := newID "msg" in
  let? _ := InsertMessage (mkTicketMessage i (t_ID t) (t_OrgID t) (id_UserID id) ActorUser
    (id_DisplayName id) body false at_) in
  if CanTransition (t_Status t) StateAwaitingAgent ActorUser
  then applyTransition id t StateAwaitingAgent ActorUser "user replied" else
  let t := t {{ t_UpdatedAt := at_ }} in
  let? _ := UpdateTicket t in
  let t := bumped t in
  let* _ :=
    if t_AssignedTo t =? 0 then Ret ()
    else notify "support.ticket.reply" (t_AssignedTo t) [("ticket_number", t_Number t)] in
  ok_ t.

Definition CloseTicket (id : Identity) (ticketID : string) : D Ticket :=
  let? (t, _) := TenantTicket id ticketID in
  applyTransition id t StateClosed ActorUser "closed by user".

Definition ReopenTicket (id : Identity) (ticketID : string) : D Ticket :=
  let? (t, _) := TenantTicket id ticketID in
  let? reopened := applyTransition id t StateReopened ActorUser "reopened by user" in
  let? drained := applyTransition id reopened StateOpen ActorSystem "requeued after reopen" in
  let* _ :=
    if t_AssignedTo drained =? 0 then Ret ()
    else notify "support.ticket.reopened" (t_AssignedTo drained) [("ticket_number", t_Number drained)] in
  ok_ drained.

Definition TicketAudit (id : Identity) (ticketID : string) : D (list AuditEntry) :=
  let? (t, _) := TenantTicket id ticketID in
  AuditFor "ticket" (t_ID t).

(** * agents.go *)

Definition requireAgent (id : Identity) : D Agent :=
  let? _ := requireSupportMode id in
  let* r := AgentByUser (id_UserID id) in
  match r with
  | Ok agent =>
      if negb (ag_Enabled agent) then fail (New CodeForbidden 403 "This support account is disabled") else
      let* at_ := nowUnix in
      let? _ := TouchAgent (id_UserID id) at_ in
      let* at_ := nowUnix in
      ok_ (agent {{ ag_LastActivityAt := at_ }})
  | Err err =>
      if negb (id_GlobalAdmin id) then fail err else
      let* at_ := nowUnix in
      let* i := newID "agt" in
      let agent := mkAgent i (id_UserID id) (firstNonEmpty [clean (id_DisplayName id); "Support"]) ""
        3 true at_ at_ at_ in
      let? _ := UpsertAgent agent in
      ok_ agent
  end.

Definition inModeAt (agent : Agent) (at_ : Z) (mode : gmap string SupportMode) : bool :=
  existsb (λ m, (sm_AgentUserID m.2 =? ag_UserID agent) && (at_ <? sm_ExpiresAt m.2)) (map_to_list mode).

Definition AvailabilityOf (agent : Agent) (activeChats at_ : Z) : program string :=
  let* inMode := peek (λ _ s, inModeAt agent at_ (d_mode s)) in
  let limit := if ag_MaxConcurrentChats agent <=? 0 then 1 else ag_MaxConcurrentChats agent in
  Ret (if negb (ag_Enabled agent) || negb inMode then AvailabilityOffline
       else if AwayAfter <=? at_ -! ag_LastActivityAt agent then AvailabilityAway
       else if limit <=? activeChats then AvailabilityBusy
       else AvailabilityAvailable).

Fixpoint rosterLoop (agents : list Agent) (at_ : Z) : D (list AgentPresence) :=
  match agents with
  | [] => ok_ []
  | a :: rest =>
      let? active := CountActiveChatsForAgent (ag_UserID a) in
      let* status := AvailabilityOf a active at_ in
      let? more := rosterLoop rest at_ in
      ok_ (mkAgentPresence a status active :: more)
  end.

Definition Roster : D (list AgentPresence) :=
  let? agents := ListAgents true in
  let* at_ := nowUnix in
  rosterLoop agents at_.

Definition riskRank (level : string) : Z :=
  if level =s "breach" then 2 else if level =s "warn" then 1 else 0.

(** The order of the queue: not after. *)
Definition queue_leb (a b : QueueItem) : bool :=
  let la := riskRank (rk_Level (qi_Risk a)) in
  let lb := riskRank (rk_Level (qi_Risk b)) in
  if negb (la =? lb) then lb <? la else
  let pa := PriorityRank (t_Priority (qi_Ticket a)) in
  let pb := PriorityRank (t_Priority (qi_Ticket b)) in
  if negb (pa =? pb) then pb <? pa else
  t_CreatedAt (qi_Ticket a) <=? t_CreatedAt (qi_Ticket b).

Definition queueOf (policies : gmap string SLAPolicy) (at_ : Z) (tickets : list Ticket) : list QueueItem :=
  sort_by queue_leb
    ((λ t, mkQueueItem t (EvaluateSLA t (policyOf policies (t_Priority t)) at_)) <$> tickets).

Definition Queue (id : Identity) (f : TicketFilter) : D (list QueueItem * Page) :=
  let? _ := requireAgent id in
  let? (tickets, page) := ListTickets (f {{ tf_QueueOnly := true; tf_UserID := 0 }}) in
  let? policies := SLAPolicies in
  let* at_ := nowUnix in
  ok_ (queueOf policies at_ tickets, page).

Definition AgentTicket (id : Identity) (ticketID : string) : D (Ticket * list TicketMessage) :=
  let? _ := requireAgent id in
  let? t := TicketAnyOrg ticketID in
  if t_Status t =s StateDraft then fail (notFound "Ticket") else
  let? msgs := Messages (t_OrgID t) (t_ID t) true in
  ok_ (t, msgs).

Definition assign (id : Identity) (t : Ticket) (toUserID : Z) (reason : string) : D Ticket :=
  let from := t_AssignedTo t in
  let* at_ := nowUnix in
  let t := t {{ t_AssignedTo := toUserID; t_UpdatedAt := at_ }} in
  let? _ := UpdateTicket t in
  let? t :=
    if t_Status t =s StateOpen then applyTransition id (bumped t) StateAssigned ActorAgent reason
    else ok_ (bumped t) in
  let* i := newID "asg" in
  let? _ := InsertAssignment (mkAssignment i (t_ID t) (t_OrgID t) from toUserID (id_UserID id) reason at_) in
  let? _ := audit id (entry (t_OrgID t) "ticket.assign" "ticket" (t_ID t) "" "" reason) in
  let* _ := notify "support.ticket.assigned" toUserID [("ticket_number", t_Number t); ("title", t_Title t)] in
  ok_ t.

Definition ClaimTicket (id : Identity) (ticketID : string) : D Ticket :=
  let? agent := requireAgent id in
  let? t := TicketAnyOrg ticketID in
  if negb (t_AssignedTo t =? 0) && negb (t_AssignedTo t =? ag_UserID agent)
  then fail (New CodeConflict 409 "Another agent already has this ticket") else
  assign id t (ag_UserID agent) "claimed from queue".

Definition AssignTicket (id : Identity) (ticketID : string) (toUserID : Z) (reason : string) : D Ticket :=
  let? _ := requireAgent id in
  let? target := AgentByUser toUserID in
  if negb (ag_Enabled target) then fail (New CodeValidation 400 "That support account is disabled") else
  let? t := TicketAnyOrg ticketID in
  assign id t (ag_UserID target) (firstNonEmpty [truncate (clean reason) 200; "reassigned"]).

Definition AgentReply (id : Identity) (ticketID body : string) (internal : bool) : D Ticket :=
  let? agent := requireAgent id in
  let? t := TicketAnyOrg ticketID in
  if t_Status t =s StateDraft then fail (notFound "Ticket") else
  let body := truncate (cleanMultiline body) 20000 in
  if body =s "" then fail emptyReply else
  let* at_ := nowUnix in
  let* i := newID "msg" in
  let? _ := InsertMessage (mkTicketMessage i (t_ID t) (t_OrgID t) (ag_UserID agent) ActorAgent
    (ag_DisplayName agent) body internal at_) in
  if internal then
    let? _ := audit id (entry (t_OrgID t) "ticket.note" "ticket" (t_ID t) "" "" "") in
    ok_ t
  else
  let t := t {{ t_FirstResponseAt := if t_FirstResponseAt t =? 0 then at_ else t_FirstResponseAt t;
                t_UpdatedAt := at_ }} in
  let? _ := UpdateTicket t in
  let t := bumped t in
  let? t :=
    if CanTransition (t_Status t) StateAwaitingUser ActorAgent
    then applyTransition id t StateAwaitingUser ActorAgent "agent replied" else ok_ t in
  let* _ := notify "support.ticket.reply" (t_UserID t) [("ticket_number", t_Number t)] in
  ok_ t.

Definition AgentTransition (id : Identity) (ticketID to reason : string) : D Ticket :=
  let? _ := requireAgent id in
  let to := ToUpperU (clean to) in
  if negb (IsState to)
  then fail (WithDetails (New CodeValidation 400 "Unknown ticket state") (field "status")) else
  let? t := TicketAnyOrg ticketID in
  if t_Status t =s StateDraft then fail (notFound "Ticket") else
  applyTransition id t to ActorAgent (firstNonEmpty [truncate (clean reason) 200; "agent action"]).

(** The sums of [Metrics]: open, resolved, their times, answered, their times. *)
Definition metricsOf (depth : Z) (mine : list Ticket) : AgentMetrics :=
  let resolved := List.filter (λ t, 0 <? t_ResolvedAt t) mine in
  let answered := List.filter (λ t, 0 <? t_FirstResponseAt t) mine in
  let total f l := foldl (λ n t, n +! (f t -! t_CreatedAt t)) 0 l in
  let avg f l :=
    let n := Z.of_nat (length l) in if 0 <? n then total f l /! n else 0 in
  mkAgentMetrics (Z.of_nat (length (List.filter (λ t, IsOpenState (t_Status t)) mine)))
    (Z.of_nat (length resolved)) depth (avg t_FirstResponseAt answered) (avg t_ResolvedAt resolved).

Definition Metrics (id : Identity) : D AgentMetrics :=
  let? agent := requireAgent id in
  let? (mine, _) := ListTickets (zeroTicketFilter {{ tf_AssignedTo := ag_UserID agent;
    tf_Limit := MaxPageLimit }}) in
  let? depth := CountTickets (zeroTicketFilter {{ tf_QueueOnly := true }}) in
  ok_ (metricsOf depth mine).

(** * tasks.go *)

Definition systemIdentity : Identity := zeroIdentity {{ id_DisplayName := "system" }}.

Definition openStates : list string :=
  [StateOpen; StateAssigned; StateInProgress; StateAwaitingUser; StateAwaitingAgent].

Fixpoint sweepLoop (policies : gmap string SLAPolicy) (at_ : Z) (tickets : list Ticket) : D () :=
  match tickets with
  | [] => ok_ ()
  | t :: rest =>
      let risk := EvaluateSLA t (policyOf policies (t_Priority t)) at_ in
      if negb (rk_Escalate risk) then sweepLoop policies at_ rest else
      let? warned := HasAudit "ticket" (t_ID t) "ticket.sla_warning" in
      if warned : bool then sweepLoop policies at_ rest else
      let? _ := audit systemIdentity
        (entry (t_OrgID t) "ticket.sla_warning" "ticket" (t_ID t) "" "" (rk_Level risk)) in
      let* _ :=
        if t_AssignedTo t =? 0 then Ret ()
        else notify "support.ticket.sla_warning" (t_AssignedTo t)
          [("ticket_number", t_Number t); ("level", rk_Level risk)] in
      sweepLoop policies at_ rest
  end.

Definition runSLASweep : D () :=
  let? tickets := TicketsInState openStates in
  let? policies := SLAPolicies in
  let* at_ := nowUnix in
  sweepLoop policies at_ tickets.

Fixpoint closeLoop (cutoff : Z) (tickets : list Ticket) : D () :=
  match tickets with
  | [] => ok_ ()
  | t :: rest =>
      if (t_ResolvedAt t =? 0) || (cutoff <? t_ResolvedAt t) then closeLoop cutoff rest else
      let? _ := applyTransition systemIdentity t StateClosed ActorSystem
        "closed automatically after no reply" in
      closeLoop cutoff rest
  end.

Definition runAutoClose : D () :=
  let* hours := settingInt SettingAutoCloseHours in
  let hours := if hours <=? 0 then AutoCloseAfterHours else hours in
  let* now := nowUnix in
  let cutoff := now -! hours *! 3600 in
  let? tickets := TicketsInState [StateResolved] in
  closeLoop cutoff tickets.
End tickets.
