(* ===== verification/DeskChat.v ===== *)
(** Live chat: [src/src/support/chat.go] and the chat reaper of [tasks.go]. *)
From stdpp Require Import prelude strings list gmap.
From Stdlib Require Import ZArith Lia Ascii.
From S2P Require Import Prelude GoTime Errors Threads Sql RateLimit Text DeskModels DeskStates Desk.
From S2P Require Import DeskStore DeskBot DeskService DeskTickets.

Section chat.
Context `{!Params}.

(** Is one of the listed numbers the weekday? *)
Definition dayListed (days : string) (weekday : Z) : bool :=
  existsb (λ field, match ParseInt (TrimSpaceU field) with Some n => n =? weekday | None => false end)
    (Split days ",").

(** The window, which may wrap past midnight. *)
Definition inWindow (open closed minute : Z) : bool :=
  if open =? closed then true
  else if open <? closed then (open <=? minute) && (minute <? closed)
  else (open <=? minute) || (minute <? closed).

(** [at_] in Unix seconds. *)
Definition withinBusinessHours (at_ : Z) : program bool :=
  let* days := settingString SettingChatDays in
  if TrimSpaceU days =s "" then Ret false else
  if negb (dayListed days (TWeekday at_)) then Ret false else
  let* open := settingInt SettingChatOpenMinute in
  let* closed := settingInt SettingChatCloseMinute in
  Ret (inWindow open closed (THour at_ * 60 + TMinute at_)).

Definition unavailable (c : ChatAvailability) (reason : string) : ChatAvailability :=
  c {{ ca_Reason := reason }}.

Definition ChatAvailable : D ChatAvailability :=
  let out := zeroChatAvailability in
  let* enabled := settingBool SettingChatEnabled in
  if negb enabled then
    ok_ (unavailable out "Live chat is turned off. Open a ticket and we will reply by email.") else
  let* at_ := nowUnix in
  let* open := withinBusinessHours at_ in
  if negb open then
    ok_ (unavailable out "Live chat is outside its hours right now. Open a ticket and we will reply by email.") else
  let? roster := Roster in
  let online := Z.of_nat (length (List.filter (λ p, ap_Status p =s AvailabilityAvailable) roster)) in
  let active := foldl (λ n p, n +! ap_ActiveChats p) 0 roster in
  let? queued := ChatSessionsByStatus [ChatQueued] in
  let len := Z.of_nat (length queued) in
  let* capacity := settingInt SettingChatMaxConcurrent in
  let capacity := if capacity <=? 0 then 10 else capacity in
  let out := mkChatAvailability false "" len online capacity active 0 in
  if online =? 0 then
    ok_ (unavailable out "No one is on chat at the moment. Open a ticket and we will reply by email.") else
  if capacity <=? active +! len then
    ok_ (unavailable out "Chat is at capacity right now. Open a ticket and we will reply by email.") else
  ok_ (out {{ ca_Available := true; ca_EstimatedWait := (len *! 6 *! Minute) /! online }}).

Definition StartChat (id : Identity) (subject : string) : D ChatSession :=
  if negb (id_Authenticated id) || (id_UserID id =? 0) || (id_OrgID id =? 0)
  then fail (New CodeUnauthorized 401 "Sign in to start a chat") else
  let* m := SupportModeFor id in
  match m with
  | Some _ => fail (New CodeForbidden 403 "Exit support mode before starting a chat of your own")
  | None =>
      let? _ := allow limitChatStart id in
      let? availability := ChatAvailable in
      if negb (ca_Available availability)
      then fail (New CodeUnavailable 503 (ca_Reason availability)) else
      let* at_ := nowUnix in
      let* i := newID "cht" in
      let session := mkChatSession i (id_OrgID id) (id_UserID id) 0 ChatQueued
        (truncate (clean subject) 200) "" at_ 0 0 0 at_ in
      let? _ := InsertChatSession session in
      let? _ := audit id (entry 0 "chat.start" "chat" (cs_ID session) "" ChatQueued "") in
      ok_ session
  end.

Definition ChatView (id : Identity) (sessionID : string) (after : Z) : D (ChatSession * list ChatMessage) :=
  if negb (id_Authenticated id) || (id_OrgID id =? 0)
  then fail (New CodeUnauthorized 401 "Authentication required") else
  let? session := GetChatSession (id_OrgID id) sessionID in
  if negb (cs_UserID session =? id_UserID id) then fail (notFound "Chat") else
  let? msgs := ChatMessages (cs_OrgID session) (cs_ID session) after in
  ok_ (session, msgs).

Definition QueuePosition (session : ChatSession) : D Z :=
  if negb (cs_Status session =s ChatQueued) then ok_ 0 else
  let? queued := ChatSessionsByStatus [ChatQueued] in
  ok_ (1 + Z.of_nat (length (List.filter (λ q, cs_QueuedAt q <? cs_QueuedAt session) queued))).

Definition appendChatMessage (session : ChatSession) (authorID : Z) (role name body : string) : D ChatMessage :=
  let body := truncate (cleanMultiline body) 8000 in
  if body =s "" then
    fail (WithDetails (New CodeValidation 400 "A message cannot be empty") (field "body")) else
  let* at_ := nowUnix in
  let* i := newID "cms" in
  let m := mkChatMessage i (cs_ID session) (cs_OrgID session) authorID role
    (firstNonEmpty [clean name; "Support"]) body at_ in
  let? _ := InsertChatMessage m in
  let? _ := UpdateChatSession (session {{ cs_LastEventAt := at_ }}) in
  ok_ m.

Definition PostChatMessage (id : Identity) (sessionID body : string) : D ChatMessage :=
  let? (session, _) := ChatView id sessionID 0 in
  if negb (cs_Status session =s ChatActive) && negb (cs_Status session =s ChatQueued)
  then fail (New CodeConflict 409 "This chat has ended") else
  appendChatMessage session (id_UserID id) ActorUser (id_DisplayName id) body.

Definition AgentChats (id : Identity) : D (list ChatSession) :=
  let? _ := requireAgent id in
  ChatSessionsByStatus [ChatQueued; ChatActive].

Definition AcceptChat (id : Identity) (sessionID : string) : D ChatSession :=
  let? agent := requireAgent id in
  let? session := ChatSessionAnyOrg sessionID in
  if negb (cs_Status session =s ChatQueued)
  then fail (New CodeConflict 409 "That chat is no longer waiting") else
  let? active := CountActiveChatsForAgent (ag_UserID agent) in
  let limit := if ag_MaxConcurrentChats agent <=? 0 then 1 else ag_MaxConcurrentChats agent in
  if limit <=? active then fail (New CodeConflict 409 "You are already at your chat limit") else
  let* at_ := nowUnix in
  let session := session {{ cs_Status := ChatActive; cs_AgentID := ag_UserID agent;
    cs_StartedAt := at_; cs_LastEventAt := at_ }} in
  let? _ := UpdateChatSession session in
  let? _ := audit id (entry (cs_OrgID session) "chat.accept" "chat" (cs_ID session) ChatQueued ChatActive "") in
  let* _ := notify "support.chat.started" (cs_UserID session) [("agent", ag_DisplayName agent)] in
  ok_ session.

Definition AgentChatView (id : Identity) (sessionID : string) (after : Z)
    : D (ChatSession * list ChatMessage) :=
  let? _ := requireAgent id in
  let? session := ChatSessionAnyOrg sessionID in
  let? msgs := ChatMessages (cs_OrgID session) (cs_ID session) after in
  ok_ (session, msgs).

Definition AgentChatMessage (id : Identity) (sessionID body : string) : D ChatMessage :=
  let? agent := requireAgent id in
  let? session := ChatSessionAnyOrg sessionID in
  if negb (cs_Status session =s ChatActive) then fail (New CodeConflict 409 "This chat is not active") else
  if negb (cs_AgentID session =? ag_UserID agent)
  then fail (New CodeForbidden 403 "Another agent is handling this chat") else
  appendChatMessage session (ag_UserID agent) ActorAgent (ag_DisplayName agent) body.

Definition chatForParticipant (id : Identity) (sessionID : string) : D ChatSession :=
  let* m := SupportModeFor id in
  match m with
  | Some _ => let? _ := requireAgent id in ChatSessionAnyOrg sessionID
  | None => let? (session, _) := ChatView id sessionID 0 in ok_ session
  end.

Definition CloseChat (id : Identity) (sessionID : string) (rating : Z) : D ChatSession :=
  let? session := chatForParticipant id sessionID in
  if (cs_Status session =s ChatClosed) || (cs_Status session =s ChatEscalated) then ok_ session else
  let from := cs_Status session in
  let* at_ := nowUnix in
  let to := if cs_Status session =s ChatQueued then ChatAbandoned else ChatClosed in
  let rated := (cs_UserID session =? id_UserID id) && (1 <=? rating) && (rating <=? 5) in
  let session := session {{ cs_Status := to; cs_EndedAt := at_; cs_LastEventAt := at_;
    cs_Rating := if rated then rating else cs_Rating session }} in
  let? _ := UpdateChatSession session in
  let? _ := audit id (entry (cs_OrgID session) "chat.close" "chat" (cs_ID session) from (cs_Status session) "") in
  ok_ session.

Definition chatLine (m : ChatMessage) : string :=
  cm_AuthorName m +:+ ": " +:+ ReplaceChar (cm_Body m) "010" " " +:+ LF.

Definition chatTranscript (msgs : list ChatMessage) : string :=
  foldl (λ s m, s +:+ chatLine m) ("Chat transcript" +:+ LF) msgs.

Definition EscalateChat (id : Identity) (sessionID title priority : string) : D Ticket :=
  let? agent := requireAgent id in
  let? session := ChatSessionAnyOrg sessionID in
  if negb (cs_Status session =s ChatActive)
  then fail (New CodeConflict 409 "Only an active chat can become a ticket") else
  if negb (cs_AgentID session =? ag_UserID agent)
  then fail (New CodeForbidden 403 "Another agent is handling this chat") else
  let? msgs := ChatMessages (cs_OrgID session) (cs_ID session) 0 in
  let priority := ToUpperU (clean priority) in
  let priority := if IsPriority priority then priority else PriorityNormal in
  let? number := NextTicketNumber in
  let? policy := PolicyFor priority in
  let* at_ := nowUnix in
  let* i := newID "tkt" in
  let t := mkTicket i (cs_OrgID session) number
    (firstNonEmpty [truncate (clean title) 200; firstNonEmpty [cs_Subject session; "Chat follow-up"]])
    (truncate (chatTranscript msgs) 20000) "" priority StateOpen (cs_UserID session) 0 ""
    (sp_ID policy) 0 0 0 at_ at_ 1 in
  let? _ := InsertTicket t in
  let? t := assign id t (ag_UserID agent) "escalated from chat" in
  let? _ := UpdateChatSession (session {{ cs_Status := ChatEscalated; cs_TicketID := t_ID t;
    cs_EndedAt := at_; cs_LastEventAt := at_ }}) in
  let? _ := audit id (entry (cs_OrgID session) "chat.escalate" "chat" (cs_ID session)
    ChatActive ChatEscalated (t_Number t)) in
  let? _ := audit id (entry (t_OrgID t) "ticket.escalate" "ticket" (t_ID t) "" StateOpen "") in
  let* _ := notify "support.ticket.created" (t_UserID t)
    [("ticket_number", t_Number t); ("title", t_Title t)] in
  ok_ t.

(** * The chat reaper of tasks.go *)

(** Where an idle session goes, if anywhere. *)
Definition reaped (at_ : Z) (session : ChatSession) : option string :=
  let last := if cs_LastEventAt session =? 0 then cs_QueuedAt session else cs_LastEventAt session in
  let idle := at_ -! last in
  if (cs_Status session =s ChatQueued) && (AwayAfter <=? idle) then Some ChatAbandoned
  else if (cs_Status session =s ChatActive) && (AwayAfter *! 2 <=? idle) then Some ChatClosed
  else None.

Fixpoint reapLoop (at_ : Z) (sessions : list ChatSession) : D () :=
  match sessions with
  | [] => ok_ ()
  | session :: rest =>
      match reaped at_ session with
      | None => reapLoop at_ rest
      | Some to =>
          let from := if to =s ChatClosed then ChatActive else ChatQueued in
          let session := session {{ cs_Status := to; cs_EndedAt := at_; cs_LastEventAt := at_ }} in
          let? _ := UpdateChatSession session in
          let? _ := audit systemIdentity
            (entry (cs_OrgID session) "chat.reap" "chat" (cs_ID session) from (cs_Status session) "") in
          reapLoop at_ rest
      end
  end.

Definition runChatReaper : D () :=
  let? sessions := ChatSessionsByStatus [ChatQueued; ChatActive] in
  let* at_ := nowUnix in
  reapLoop at_ sessions.
End chat.
