(* ===== verification/DeskKB.v ===== *)
(** The knowledge base, canned responses and administration of the support desk:
    [src/src/support/kb.go], [canned.go] and [admin.go]. *)
From stdpp Require Import prelude strings list gmap.
From Stdlib Require Import ZArith Lia Ascii.
From S2P Require Import Prelude Errors Threads Sql RateLimit Text DeskModels DeskStates Desk.
From S2P Require Import DeskStore DeskBot DeskService DeskTickets.

Section kb.
Context `{!Params}.

(** * kb.go *)

Definition articleTransitions : list (string * list string) :=
  [(ArticleDraft, [ArticleReview]); (ArticleReview, [ArticleDraft; ArticlePublished]);
   (ArticlePublished, [ArticleArchived]); (ArticleArchived, [ArticleDraft])].

Definition CanPublishArticle (from to : string) : bool :=
  match assoc from articleTransitions with
  | Some targets => existsb (λ allowed, allowed =s to) targets
  | None => false
  end.

Definition normalizeArticle (i : ArticleInput) : ArticleInput :=
  let title := truncate (clean (ai_Title i)) 200 in
  mkArticleInput title (truncate (cleanMultiline (ai_Body i)) 200000)
    (Slugify (firstNonEmpty [ai_Slug i; title])) (truncate (clean (ai_CategoryID i)) 64)
    (truncate (ToLowerU (clean (ai_Tags i))) 500).

Definition needTitle : error :=
  WithDetails (New CodeValidation 400 "A title and body are required") (field "title").

(** [None]: the article has no terms. *)
Definition indexEntry (a : Article) : option kbEntry :=
  match kbTerms (ar_Title a +:+ " " +:+ ar_Tags a) with
  | [] => None
  | terms => Some (mkkbEntry (ar_Slug a) (ar_Title a) (list_to_set terms))
  end.

Definition buildIndex (articles : list Article) : list kbEntry :=
  sort_by (λ a b, string_leb (kb_slug a) (kb_slug b)) (omap indexEntry articles).

Definition RebuildKBIndex : D () :=
  let? (articles, _) := ListArticles (zeroArticleFilter {{ af_Statuses := [ArticlePublished];
    af_Limit := MaxPageLimit }}) in
  let* _ := atomic (λ _ s, ((), s {{ d_kbIndex := buildIndex articles }})) in
  ok_ ().

Definition Bootstrap (order : list (string * string)) : D () :=
  let? _ := seedSLAPolicies in
  let? _ := seedSettings order in
  RebuildKBIndex.

Definition CreateArticle (id : Identity) (i : ArticleInput) : D Article :=
  let? agent := requireAgent id in
  let i := normalizeArticle i in
  if (ai_Title i =s "") || (ai_Body i =s "") then fail needTitle else
  if ai_Slug i =s "" then
    fail (WithDetails (New CodeValidation 400 "That title cannot be turned into a link") (field "slug")) else
  let* other := ArticleBySlug (ai_Slug i) in
  if is_ok other then fail (New CodeConflict 409 "An article already uses that link") else
  let* at_ := nowUnix in
  let* k := newID "kba" in
  let a := mkArticle k (id_OrgID id) (ai_Slug i) (ai_Title i) (ai_Body i) (ai_CategoryID i) (ai_Tags i)
    ArticleDraft (ag_UserID agent) 0 0 0 0 at_ at_ 1 in
  let? _ := InsertArticle a in
  let? _ := audit id (entry 0 "kb.create" "article" (ar_ID a) "" ArticleDraft "") in
  ok_ a.

Definition EditArticle (id : Identity) (articleID : string) (i : ArticleInput) : D Article :=
  let? _ := requireAgent id in
  let? a := GetArticle articleID in
  let i := normalizeArticle i in
  if (ai_Title i =s "") || (ai_Body i =s "") then fail needTitle else
  let? slug :=
    if negb (ai_Slug i =s "") && negb (ai_Slug i =s ar_Slug a) then
      let* other := ArticleBySlug (ai_Slug i) in
      if is_ok other then fail (New CodeConflict 409 "An article already uses that link")
      else ok_ (ai_Slug i)
    else ok_ (ar_Slug a) in
  let* at_ := nowUnix in
  let a := a {{ ar_Slug := slug; ar_Title := ai_Title i; ar_Body := ai_Body i;
    ar_CategoryID := ai_CategoryID i; ar_Tags := ai_Tags i; ar_UpdatedAt := at_ }} in
  let? _ := UpdateArticle a in
  let a := a {{ ar_Version := ar_Version a +! 1 }} in
  let? _ := audit id (entry 0 "kb.edit" "article" (ar_ID a) "" "" "") in
  let? _ := if ar_Status a =s ArticlePublished then RebuildKBIndex else ok_ () in
  ok_ a.

Definition TransitionArticle (id : Identity) (articleID to : string) : D Article :=
  let? _ := requireAgent id in
  let to := ToUpperU (clean to) in
  let? a := GetArticle articleID in
  if negb (CanPublishArticle (ar_Status a) to)
  then fail (New CodeConflict 409 ("An article cannot move from " +:+ ar_Status a +:+ " to " +:+ to)) else
  let* role := if to =s ArticlePublished then RoleOf id else Ret RoleAdmin in
  if negb (role =s RoleAdmin)
  then fail (New CodeForbidden 403 "Publishing an article requires an administrator") else
  let from := ar_Status a in
  let* at_ := nowUnix in
  let a := a {{ ar_Status := to; ar_UpdatedAt := at_;
    ar_PublishedAt := if to =s ArticlePublished then at_ else ar_PublishedAt a }} in
  let? _ := UpdateArticle a in
  let a := a {{ ar_Version := ar_Version a +! 1 }} in
  let? _ := audit id (entry 0 "kb.transition" "article" (ar_ID a) from to "") in
  let? _ := RebuildKBIndex in
  ok_ a.

Definition PublicArticle (id : Identity) (slug : string) : D Article :=
  let? a := ArticleBySlug slug in
  let* staff :=
    if (ar_Status a =s ArticlePublished) || (ar_Status a =s ArticleArchived) then Ret true
    else IsStaff id in
  if negb staff then fail (notFound "Article") else
  let? _ := BumpArticleCounter (ar_ID a) "view" in
  ok_ (a {{ ar_ViewCount := ar_ViewCount a +! 1 }}).

Definition SearchArticles (id : Identity) (txt : string) (page limit : Z) : D (list Article * Page) :=
  let* public := if id_Authenticated id then Ret true else settingBool SettingKBPublicEnabled in
  if negb public then fail (New CodeUnauthorized 401 "Sign in to read the knowledge base") else
  ListArticles (mkArticleFilter [ArticlePublished] (truncate (clean txt) 120) 0 page limit).

Definition articleState (st : string) : bool :=
  one_of st [ArticleDraft; ArticleReview; ArticlePublished; ArticleArchived].

Definition StaffArticles (id : Identity) (statuses : list string) (txt : string) (page limit : Z)
    : D (list Article * Page) :=
  let? _ := requireAgent id in
  if negb (forallb articleState statuses)
  then fail (WithDetails (New CodeValidation 400 "Unknown article state") (field "status")) else
  ListArticles (mkArticleFilter statuses (truncate (clean txt) 120) 0 page limit).

Definition ArticleFeedback (id : Identity) (slug : string) (helpful : bool) : D () :=
  let? a := ArticleBySlug slug in
  if negb (ar_Status a =s ArticlePublished) then fail (notFound "Article") else
  BumpArticleCounter (ar_ID a) (if helpful then "helpful" else "not_helpful").

(** The order of the suggestions: not after. *)
Definition suggestion_leb (a b : ArticleSuggestion) : bool :=
  if negb (sug_Score a =? sug_Score b) then sug_Score b <? sug_Score a
  else string_leb (sug_Slug a) (sug_Slug b).

Definition suggest (asked : gset string) (e : kbEntry) : option ArticleSuggestion :=
  let n := Z.of_nat (size (kb_terms e ∩ asked)) in
  if n <? 2 then None else Some (mkArticleSuggestion (kb_slug e) (kb_title e) n).

Definition suggestFrom (index : list kbEntry) (txt : string) (max : Z) : list ArticleSuggestion :=
  match kbTerms txt with
  | [] => []
  | terms =>
      if max <=? 0 then [] else
      take (Z.to_nat max) (sort_by suggestion_leb (omap (suggest (list_to_set terms)) index))
  end.

Definition SuggestArticles (txt : string) (max : Z) : program (list ArticleSuggestion) :=
  let* index := peek (λ _ s, d_kbIndex s) in
  Ret (suggestFrom index txt max).

(** * canned.go *)

Definition normalizeCanned (i : CannedInput) : CannedInput :=
  mkCannedInput (truncate (clean (ci_Title i)) 120) (truncate (cleanMultiline (ci_Body i)) 8000)
    (truncate (ToLowerU (clean (ci_Tags i))) 300) (ToUpperU (clean (ci_Scope i)))
    (truncate (clean (ci_DepartmentID i)) 64).

Definition validateCanned (i : CannedInput) : option error :=
  if ci_Title i =s "" then Some (WithDetails (New CodeValidation 400 "A title is required") (field "title"))
  else if ci_Body i =s "" then Some (WithDetails (New CodeValidation 400 "A body is required") (field "body"))
  else if negb (one_of (ci_Scope i) [CannedSystem; CannedDepartment; CannedPersonal]) then
    Some (WithDetails (New CodeValidation 400 "Unknown canned response scope") (field "scope"))
  else if (ci_Scope i =s CannedDepartment) && (ci_DepartmentID i =s "") then
    Some (WithDetails (New CodeValidation 400 "A department response needs a department")
      (field "department_id"))
  else None.

Definition CannedResponses (id : Identity) : D (list CannedResponse) :=
  let? agent := requireAgent id in
  ListCannedFor (ag_UserID agent) (ag_DepartmentID agent).

Definition CreatePersonalCanned (id : Identity) (i : CannedInput) : D CannedResponse :=
  let? agent := requireAgent id in
  let i := (normalizeCanned i) {{ ci_Scope := CannedPersonal; ci_DepartmentID := "" }} in
  match validateCanned i with
  | Some e => fail e
  | None =>
      let* at_ := nowUnix in
      let* k := newID "can" in
      let c := mkCannedResponse k CannedPersonal "" (ag_UserID agent) (ci_Title i) (ci_Body i) (ci_Tags i)
        0 at_ at_ in
      let? _ := InsertCanned c in
      ok_ c
  end.

Definition UpdatePersonalCanned (id : Identity) (cannedID : string) (i : CannedInput) : D CannedResponse :=
  let? agent := requireAgent id in
  let? c := Canned cannedID in
  if negb (cn_Scope c =s CannedPersonal) || negb (cn_AgentUserID c =? ag_UserID agent)
  then fail (notFound "Canned response") else
  let i := (normalizeCanned i) {{ ci_Scope := CannedPersonal }} in
  match validateCanned i with
  | Some e => fail e
  | None =>
      let* at_ := nowUnix in
      let c := c {{ cn_Title := ci_Title i; cn_Body := ci_Body i; cn_Tags := ci_Tags i; cn_UpdatedAt := at_ }} in
      let? _ := UpdateCanned c in
      ok_ c
  end.

Definition DeletePersonalCanned (id : Identity) (cannedID : string) : D () :=
  let? agent := requireAgent id in
  DeleteCanned cannedID (ag_UserID agent).

Definition UseCanned (id : Identity) (cannedID : string) : D CannedResponse :=
  let? visible := CannedResponses id in
  match List.find (λ c, cn_ID c =s cannedID) visible with
  | None => fail (notFound "Canned response")
  | Some c =>
      let? _ := BumpCannedUsage (cn_ID c) in
      ok_ (c {{ cn_UsageCount := cn_UsageCount c +! 1 }})
  end.

Definition tagScore (haystack tags : string) : Z :=
  Z.of_nat (length (List.filter
    (λ tag, let tag := TrimSpaceU (ToLowerU tag) in negb (slen tag <? 3) && Contains haystack tag)
    (Split tags ","))).

Definition canned_leb (a b : CannedSuggestion) : bool :=
  if negb (cg_Score a =? cg_Score b) then cg_Score b <? cg_Score a else
  let ua := cn_UsageCount (cg_Response a) in
  let ub := cn_UsageCount (cg_Response b) in
  if negb (ua =? ub) then ub <? ua
  else string_leb (cn_ID (cg_Response a)) (cn_ID (cg_Response b)).

Definition cannedSuggestions (visible : list CannedResponse) (txt : string) (max : Z) : list CannedSuggestion :=
  if max <=? 0 then [] else
  let haystack := " " +:+ ToLowerU (cleanMultiline txt) +:+ " " in
  take (Z.to_nat max) (sort_by canned_leb
    (omap (λ c, let n := tagScore haystack (cn_Tags c) in
                if n =? 0 then None else Some (mkCannedSuggestion c n)) visible)).

Definition SuggestCanned (id : Identity) (txt : string) (max : Z) : D (list CannedSuggestion) :=
  let? visible := CannedResponses id in
  ok_ (cannedSuggestions visible txt max).

(** * admin.go *)

Definition requireAdmin (id : Identity) : D () :=
  let? _ := requireSupportMode id in
  let* role := RoleOf id in
  if negb (role =s RoleAdmin) then fail (New CodeForbidden 403 "Permission denied") else ok_ ().

Definition withDefaults (stored : list Setting) : list Setting :=
  sort_by (λ a b, string_leb (sg_Key a) (sg_Key b))
    (stored ++ omap (λ '(key, value),
      if one_of key (sg_Key <$> stored) then None else Some (mkSetting key value 0)) defaultSettings).

Definition Settings (id : Identity) : D (list Setting) :=
  let? _ := requireAdmin id in
  let? stored := ListSettings in
  ok_ (withDefaults stored).

Definition SetSetting (id : Identity) (key value : string) : D () :=
  let? _ := requireAdmin id in
  let key := clean key in
  match assoc key defaultSettings with
  | None => fail (WithDetails (New CodeValidation 400 "Unknown setting") (field "key"))
  | Some _ =>
      let value := truncate (clean value) 500 in
      let* at_ := nowUnix in
      let? _ := PutSetting key value at_ in
      audit id (entry 0 "config.set" "setting" key "" "" (key +:+ " = " +:+ value))
  end.

Definition SaveSLAPolicy (id : Identity) (p : SLAPolicy) : D SLAPolicy :=
  let? _ := requireAdmin id in
  let priority := ToUpperU (clean (sp_Priority p)) in
  if negb (IsPriority priority)
  then fail (WithDetails (New CodeValidation 400 "Unknown priority") (field "priority")) else
  if (sp_FirstResponseMins p <? 0) || (sp_ResolutionMins p <? 0)
  then fail (WithDetails (New CodeValidation 400 "An allowance cannot be negative")
    (field "first_response_minutes")) else
  let percent :=
    if (sp_EscalatePercent p <=? 0) || (100 <? sp_EscalatePercent p) then 80 else sp_EscalatePercent p in
  let? existing := ListSLAPolicies in
  let known := match List.find (λ e, sp_Priority e =s priority) existing with
    | Some e => sp_ID e
    | None => sp_ID p
    end in
  let* i := if known =s "" then newID "sla" else Ret known in
  let* at_ := nowUnix in
  let p := p {{ sp_ID := i; sp_Priority := priority; sp_EscalatePercent := percent; sp_UpdatedAt := at_ }} in
  let? _ := UpsertSLAPolicy p in
  let? _ := audit id (entry 0 "config.sla" "sla_policy" (sp_ID p) "" "" (sp_Priority p)) in
  ok_ p.

Definition SaveDepartment (id : Identity) (d : Department) : D Department :=
  let? _ := requireAdmin id in
  let d := d {{ dp_Name := truncate (clean (dp_Name d)) 120;
    dp_Description := truncate (clean (dp_Description d)) 400 }} in
  if dp_Name d =s "" then
    fail (WithDetails (New CodeValidation 400 "A department needs a name") (field "name")) else
  let* at_ := nowUnix in
  let* d :=
    if dp_ID d =s "" then let* i := newID "dep" in Ret (d {{ dp_ID := i; dp_CreatedAt := at_ }})
    else Ret d in
  let d := d {{ dp_UpdatedAt := at_ }} in
  let? _ := UpsertDepartment d in
  let? _ := audit id (entry 0 "config.department" "department" (dp_ID d) "" "" (dp_Name d)) in
  ok_ d.

Definition Departments (id : Identity) : D (list Department) :=
  let? _ := requireAgent id in ListDepartments.

Definition SaveCategory (id : Identity) (c : Category) : D Category :=
  let? _ := requireAdmin id in
  let c := c {{ ct_Name := truncate (clean (ct_Name c)) 120 }} in
  if ct_Name c =s "" then
    fail (WithDetails (New CodeValidation 400 "A category needs a name") (field "name")) else
  let c := c {{ ct_Slug := Slugify (firstNonEmpty [ct_Slug c; ct_Name c]) }} in
  if negb (ct_ID c =s "") && (ct_ParentID c =s ct_ID c) then
    fail (WithDetails (New CodeValidation 400 "A category cannot be its own parent") (field "parent_id")) else
  let* c := if ct_ID c =s "" then let* i := newID "cat" in Ret (c {{ ct_ID := i }}) else Ret c in
  let? _ := UpsertCategory c in
  let? _ := audit id (entry 0 "config.category" "category" (ct_ID c) "" "" (ct_Name c)) in
  ok_ c.

Definition Categories : D (list Category) := ListCategories true.

Definition SaveAgent (id : Identity) (a : Agent) : D Agent :=
  let? _ := requireAdmin id in
  if ag_UserID a =? 0 then
    fail (WithDetails (New CodeValidation 400 "An agent needs an account") (field "user_id")) else
  let a := a {{ ag_DisplayName := truncate (clean (ag_DisplayName a)) 120 }} in
  if ag_DisplayName a =s "" then
    fail (WithDetails (New CodeValidation 400 "An agent needs a display name") (field "display_name")) else
  let a := a {{ ag_MaxConcurrentChats :=
    if ag_MaxConcurrentChats a <=? 0 then 3 else ag_MaxConcurrentChats a }} in
  let* at_ := nowUnix in
  let* r := AgentByUser (ag_UserID a) in
  let* a := match r with
    | Ok existing => Ret (a {{ ag_ID := ag_ID existing; ag_CreatedAt := ag_CreatedAt existing;
        ag_LastActivityAt := ag_LastActivityAt existing }})
    | Err _ => let* i := newID "agt" in Ret (a {{ ag_ID := i; ag_CreatedAt := at_ }})
    end in
  let a := a {{ ag_UpdatedAt := at_ }} in
  let? _ := UpsertAgent a in
  let? _ := audit id (entry 0 "config.agent" "agent" (ag_ID a) "" "" ("user " +:+ itoa (ag_UserID a))) in
  ok_ a.

Definition Agents (id : Identity) : D (list Agent) :=
  let? _ := requireAdmin id in ListAgents false.

Definition SaveSharedCanned (id : Identity) (cannedID : string) (i : CannedInput) : D CannedResponse :=
  let? _ := requireAdmin id in
  let i := normalizeCanned i in
  if ci_Scope i =s CannedPersonal then
    fail (WithDetails (New CodeValidation 400 "Personal responses belong to the agent who wrote them")
      (field "scope")) else
  match validateCanned i with
  | Some e => fail e
  | None =>
      let* at_ := nowUnix in
      let department := if ci_Scope i =s CannedSystem then "" else ci_DepartmentID i in
      let c := mkCannedResponse cannedID (ci_Scope i) department 0 (ci_Title i) (ci_Body i) (ci_Tags i)
        0 0 at_ in
      let? c :=
        if cannedID =s "" then
          let* k := newID "can" in
          let c := c {{ cn_ID := k; cn_CreatedAt := at_ }} in
          let? _ := InsertCanned c in ok_ c
        else
          let? existing := Canned cannedID in
          if cn_Scope existing =s CannedPersonal then fail (notFound "Canned response") else
          let c := c {{ cn_CreatedAt := cn_CreatedAt existing; cn_UsageCount := cn_UsageCount existing }} in
          let? _ := UpdateCanned c in ok_ c in
      let? _ := audit id (entry 0 "config.canned" "canned_response" (cn_ID c) "" "" (cn_Scope c)) in
      ok_ c
  end.

Definition SharedCanned (id : Identity) : D (list CannedResponse) :=
  let? _ := requireAdmin id in ListCannedAdmin.

(** The counts of [slaReport]. *)
Definition slaCount (policies : gmap string SLAPolicy) (at_ : Z) (r : Report) (t : Ticket) : Report :=
  let level := rk_Level (EvaluateSLA t (policyOf policies (t_Priority t)) at_) in
  let n := match rp_Counts r !! level with Some n => n | None => 0 end in
  let r := r {{ rp_Counts := <[level := n +! 1]> (rp_Counts r) }} in
  if level =s "breach" then r {{ rp_SLABreached := rp_SLABreached r +! 1 }}
  else r {{ rp_SLACompliant := rp_SLACompliant r +! 1 }}.

Definition slaReport : D Report :=
  let? tickets := TicketsInState openStates in
  let? policies := SLAPolicies in
  let* at_ := nowUnix in
  ok_ (foldl (slaCount policies at_) (zeroReport {{ rp_Name := "sla" }}) tickets).

Fixpoint agentCounts (agents : list Agent) (counts : gmap string Z) : D (gmap string Z) :=
  match agents with
  | [] => ok_ counts
  | a :: rest =>
      let? n := CountTickets (zeroTicketFilter {{ tf_AssignedTo := ag_UserID a; tf_QueueOnly := true }}) in
      agentCounts rest (<[ag_DisplayName a := n]> counts)
  end.

Definition agentReport : D Report :=
  let? agents := ListAgents false in
  let? counts := agentCounts agents ∅ in
  ok_ (zeroReport {{ rp_Name := "agents"; rp_Counts := counts }}).

Definition groupReport (name group : string) : D Report :=
  let? counts := GroupTickets group in
  ok_ (zeroReport {{ rp_Name := name; rp_Counts := counts }}).

Definition Reports (id : Identity) (name : string) : D Report :=
  let? _ := requireAdmin id in
  if name =s "volume" then groupReport name "status"
  else if name =s "categories" then groupReport name "category"
  else if name =s "priorities" then groupReport name "priority"
  else if name =s "satisfaction" then
    let? (n, avg) := ChatSatisfaction in
    ok_ (zeroReport {{ rp_Name := name; rp_SatisfactionN := n; rp_SatisfactionAvg := avg }})
  else if name =s "sla" then slaReport
  else if name =s "agents" then agentReport
  else fail (New CodeNotFound 404 "Unknown report").
End kb.
