(* ===== verification/DeskFiles.v ===== *)
(** Attachments: [src/src/support/attachments.go], with [SafeJoin] of
    [src/src/security/input.go].  [d_files] is what is below the attachment
    directory, by path; each system call is a section of its own and may fail, and
    an upload may break off with a part written. *)
From stdpp Require Import prelude strings list gmap.
From Stdlib Require Import ZArith Lia Ascii.
From S2P Require Import Prelude Files Errors Threads Sql RateLimit Text DeskModels DeskStates Desk.
From S2P Require Import DeskStore DeskBot DeskService DeskTickets.

(** * SafeJoin *)

Definition ErrEmptyBase : error := Plain "security: base directory must not be empty".
Definition ErrPathNullByte : error := Plain "security: path contains null byte".
Definition ErrPathNotRelative : error := Plain "security: path must be relative".
Definition ErrPathEscapesBase : error := Plain "security: path escapes base directory".

Definition has_nul (s : string) : bool := Contains s (String "000" "").

Definition SafeJoin (base untrusted : string) : Res string :=
  if base =s "" then Err ErrEmptyBase else
  if has_nul untrusted || has_nul base then Err ErrPathNullByte else
  if IsAbs untrusted || HasPrefix untrusted "/" || HasPrefix untrusted "\" then Err ErrPathNotRelative else
  let cleanBase := Clean base in
  let joined := Clean (Files.Join [cleanBase; untrusted]) in
  if negb (joined =s cleanBase) && negb (HasPrefix joined (cleanBase +:+ "/")) then Err ErrPathEscapesBase
  else Ok joined.

(** * Extensions *)

Definition allowedAttachmentExts : list string :=
  [".png"; ".jpg"; ".jpeg"; ".gif"; ".webp"; ".txt"; ".log"; ".json"; ".yaml"; ".yml"; ".conf"; ".pdf";
   ".zip"; ".gz"].

(** [filepath.Ext]: from the last dot after the last slash. *)
Fixpoint extLoop (s ext : string) : string :=
  match s with
  | EmptyString => ext
  | String c s' =>
      if Ascii.eqb c "." then extLoop s' (String c s')
      else if Ascii.eqb c "/" then extLoop s' "" else extLoop s' ext
  end.

Definition Ext (s : string) : string := extLoop s "".

Section attachments.
Context `{!Params}.

Definition attachmentExt (original : string) : string :=
  let ext := ToLowerU (Ext original) in
  if one_of ext allowedAttachmentExts then ext else "".

(** * System calls *)

(** [None] is success. *)
Definition syscall (f : Desk → Desk) : program (option error) :=
  atomic (λ e s, match e_fault e with
    | Some err => (Some err, if e_applied e then f s else s)
    | None => (None, f s)
    end).

Definition MkdirAll : program (option error) := syscall (λ s, s).

(** [O_CREATE|O_EXCL]. *)
Definition createExcl (path : string) : program (option error) :=
  atomic (λ e s,
    match d_files s !! path, e_fault e with
    | Some _, _ => (Some (Plain "file exists"), s)
    | None, Some err => (Some err, s)
    | None, None => (None, s {{ d_files := <[path := ""]> (d_files s) }})
    end).

(** What is written of the upload, and whether the copy failed. *)
Definition copyTo (path src : string) (max : Z) : program (Z * option error) :=
  atomic (λ e s,
    let part := match e_short e with
      | Some n => String.substring 0 (Nat.min n (Z.to_nat max)) src
      | None => String.substring 0 (Z.to_nat max) src
      end in
    ((slen part, match e_short e with Some _ => Some (Plain "unexpected EOF") | None => None end),
     s {{ d_files := <[path := part]> (d_files s) }})).

Definition closeFile : program (option error) := syscall (λ s, s).

Definition removeFile (path : string) : program (option error) :=
  syscall (λ s, s {{ d_files := delete path (d_files s) }}).

(** * Operations *)

Definition notStored (code : string) (status : Z) : error :=
  New code status "That attachment could not be stored".

Definition ticketForAttachment (id : Identity) (ticketID : string) : D Ticket :=
  let* m := SupportModeFor id in
  match m with
  | Some _ => let? _ := requireAgent id in TicketAnyOrg ticketID
  | None => let? (t, _) := TenantTicket id ticketID in ok_ t
  end.

Definition attachmentRow (i : string) (t : Ticket) (originalName stored contentType : string)
    (written userID at_ : Z) : Attachment :=
  let name := truncate (clean originalName) 200 in
  mkAttachment i (t_ID t) (t_OrgID t) "" (if name =s "" then "attachment" else name) stored
    (truncate (clean contentType) 120) written userID at_.

Definition AttachFile (id : Identity) (ticketID originalName contentType src : string) : D Attachment :=
  if negb (id_Authenticated id) || (id_UserID id =? 0)
  then fail (New CodeUnauthorized 401 "Authentication required") else
  if o_AttachmentDir =s "" then fail (New CodeUnavailable 503 "Attachments are not configured") else
  let? t := ticketForAttachment id ticketID in
  let* maxKB := settingInt SettingAttachmentMaxKB in
  let maxKB := if maxKB <=? 0 then 10240 else maxKB in
  let maxBytes := maxKB *! 1024 in
  let* i := newID "att" in
  let stored := i +:+ attachmentExt originalName in
  match SafeJoin o_AttachmentDir stored with
  | Err _ => fail (notStored CodeValidation 400)
  | Ok path =>
      let* e := MkdirAll in
      match e with
      | Some _ => fail (notStored CodeInternal 500)
      | None =>
          let* e := createExcl path in
          match e with
          | Some _ => fail (notStored CodeInternal 500)
          | None =>
              let* (written, copyErr) := copyTo path src (maxBytes +! 1) in
              let* closeErr := closeFile in
              match copyErr, closeErr, maxBytes <? written with
              | None, None, false =>
                  let* r := newID "atr" in
                  let* at_ := nowUnix in
                  let a := attachmentRow r t originalName stored contentType written (id_UserID id) at_ in
                  let* ins := InsertAttachment a in
                  match ins with
                  | Err err => let* _ := removeFile path in fail err
                  | Ok _ =>
                      let? _ := audit id (entry (t_OrgID t) "ticket.attach" "ticket" (t_ID t) "" "" "") in
                      ok_ a
                  end
              | _, _, _ =>
                  let* _ := removeFile path in
                  if maxBytes <? written
                  then fail (WithDetails (New "PAYLOAD_TOO_LARGE" 413 "That attachment is too large")
                    [("max_kilobytes", DInt maxKB)])
                  else fail (notStored CodeInternal 500)
              end
          end
      end
  end.

(** [Service.Attachments]. *)
Definition TicketAttachments (id : Identity) (ticketID : string) : D (list Attachment) :=
  let? t := ticketForAttachment id ticketID in
  GetAttachments (t_OrgID t) (t_ID t).

(** The open file is its contents. *)
Definition openFile (path : string) : program (option string) :=
  peek (λ e s, match e_fault e with Some _ => None | None => d_files s !! path end).

Definition OpenAttachment (id : Identity) (attachmentID : string) : D (Attachment * string) :=
  if negb (id_Authenticated id) then fail (New CodeUnauthorized 401 "Authentication required") else
  if o_AttachmentDir =s "" then fail (notFound "Attachment") else
  let* m := SupportModeFor id in
  let? orgID := match m with
    | Some _ => let? _ := requireAgent id in ok_ 0
    | None => ok_ (id_OrgID id)
    end in
  let? a := if orgID =? 0 then AttachmentAnyOrg attachmentID else GetAttachment orgID attachmentID in
  let* seen :=
    if orgID =? 0 then Ret true
    else let* r := TenantTicket id (at_TicketID a) in Ret (is_ok r) in
  if negb seen then fail (notFound "Attachment") else
  match SafeJoin o_AttachmentDir (at_StoredName a) with
  | Err _ => fail (notFound "Attachment")
  | Ok path =>
      let* file := openFile path in
      match file with None => fail (notFound "Attachment") | Some data => ok_ (a, data) end
  end.
End attachments.

(** * Joining stays inside *)

Lemma comps_key s : Clean s = s → IsAbs s = true → comps s = key s.
Proof.
  intros Hc Ha. rewrite <-Hc at 1. unfold Clean. rewrite Ha.
  change ("/" +:+ join_comps (resolve true [] (comps s))) with (String slash (join_comps (key s))).
  rewrite comps_rooted. apply comps_join, names_plain, key_names.
Qed.

Lemma HasPrefix_split s p : HasPrefix s p = true → ∃ r, s = p +:+ r.
Proof.
  unfold HasPrefix. revert p. induction s as [| c s IH]; intros [| d p]; cbn; try done.
  - by eexists.
  - by eexists.
  - destruct (Ascii.ascii_dec d c) as [-> |]; [| done]. intros [r ->]%IH. by exists r.
Qed.

(** Whatever name is joined to an absolute directory, a path that is returned
    is in its shortest form and lies in the directory or below it. *)
Theorem SafeJoin_inside (base untrusted path : string) :
  IsAbs base = true → SafeJoin base untrusted = Ok path →
  clean_path path ∧ key base `prefix_of` key path.
Proof.
  intros Hb. unfold SafeJoin. destruct (base =s ""); [done |].
  destruct (has_nul untrusted || has_nul base); [done |].
  destruct (_ || _ || _) eqn:Eabs; [done |].
  assert (IsAbs (Clean base) = true) as Hcb by apply (clean_Clean _ Hb).
  assert (IsAbs (Files.Join [Clean base; untrusted]) = true) as Hj.
  { unfold Files.Join. cbn [List.filter].
    destruct (Clean base =s "") eqn:E; [apply seqb_eq in E; by rewrite E in Hcb |]. cbn [negb].
    destruct (negb (untrusted =s "")); apply clean_Clean; [| done].
    change (join_comps [Clean base; untrusted]) with (Clean base +:+ String slash untrusted).
    by apply IsAbs_app. }
  set (joined := Clean (Files.Join _)) in *. assert (clean_path joined) as Hjc by by apply clean_Clean.
  destruct (joined =s Clean base) eqn:E; cbn [negb andb].
  { apply seqb_eq in E. intros He. assert (path = joined) as -> by congruence. split; [done |]. by rewrite E, (key_Clean base Hb). }
  destruct (HasPrefix joined (Clean base +:+ "/")) eqn:Ep; cbn [negb]; [| done]. intros He.
  assert (path = joined) as -> by congruence. split; [done |].
  apply HasPrefix_split in Ep as [r Er].
  replace ((Clean base +:+ "/") +:+ r) with (Clean base +:+ String slash r) in Er
    by (by rewrite string_app_assoc).
  destruct Hjc as [Ha Hc]. rewrite <-(comps_key joined Hc Ha), Er, comps_app.
  rewrite (comps_key (Clean base)), key_Clean; [by eexists | done | by apply clean_Clean | done].
Qed.

Lemma SafeJoin_inside_witness :
  SafeJoin "/srv/att" "att_1.png" = Ok "/srv/att/att_1.png" ∧
  key "/srv/att" `prefix_of` key "/srv/att/att_1.png".
Proof.
  assert (SafeJoin "/srv/att" "att_1.png" = Ok "/srv/att/att_1.png") as E by by vm_compute.
  split; [done |]. by apply (SafeJoin_inside "/srv/att" "att_1.png" "/srv/att/att_1.png").
Defined.

Example SafeJoin_refuses :
  is_ok (SafeJoin "/srv/att" "../secret") = false ∧ is_ok (SafeJoin "/srv/att" "/etc/passwd") = false ∧
  SafeJoin "/srv/att" "a/../b" = Ok "/srv/att/b" ∧
  @attachmentExt (plainParams true) "Report.PDF" = ".pdf" ∧
  @attachmentExt (plainParams true) "shell.php" = "".
Proof. by vm_compute. Qed.
