(* ===== verification/DeskPromise.v ===== *)
(** What every section of every operation of the support desk leaves of the tables
    ([promise]), and that each section of the data layer keeps it. *)
From stdpp Require Import prelude strings list gmap.
From Stdlib Require Import ZArith Lia.
From S2P Require Import Prelude Errors Threads Sql RateLimit Text DeskModels DeskStates Desk.
From S2P Require Import DeskStore DeskBot DeskService DeskTickets DeskChat DeskKB DeskFiles Rely.

(** * The promise *)

Section promise.

(** A ticket keeps what identifies it; a write raises its version by one and
    moves it along an edge of the machine or not at all. *)
Definition ticket_moved (r r' : Ticket) : Prop :=
  r' = r ∨
  (t_ID r' = t_ID r ∧ t_OrgID r' = t_OrgID r ∧ t_Number r' = t_Number r ∧ t_UserID r' = t_UserID r ∧
   t_BotContext r' = t_BotContext r ∧ t_CreatedAt r' = t_CreatedAt r ∧
   t_Version r' = t_Version r + 1 ∧
   (t_Status r' = t_Status r ∨ ∃ actor, CanTransition (t_Status r) (t_Status r') actor = true)).

Definition ticket_born (r : Ticket) : Prop :=
  t_Version r = 1 ∧ (t_Status r = StateDraft ∨ t_Status r = StateOpen).

(** Reading an article counts without a version; an edit or a move of the
    lifecycle raises it. *)
Definition article_moved (r r' : Article) : Prop :=
  ar_ID r' = ar_ID r ∧ ar_OrgID r' = ar_OrgID r ∧ ar_AuthorID r' = ar_AuthorID r ∧
  ar_CreatedAt r' = ar_CreatedAt r ∧
  (ar_Version r' = ar_Version r ∧ ar_Status r' = ar_Status r ∨
   ar_Version r' = ar_Version r + 1 ∧
   (ar_Status r' = ar_Status r ∨ CanPublishArticle (ar_Status r) (ar_Status r') = true)).

Definition article_born (r : Article) : Prop := ar_Version r = 1 ∧ ar_Status r = ArticleDraft.

Definition chat_moved (r r' : ChatSession) : Prop :=
  cs_ID r' = cs_ID r ∧ cs_OrgID r' = cs_OrgID r ∧ cs_UserID r' = cs_UserID r ∧ cs_QueuedAt r' = cs_QueuedAt r.

Definition chat_born (r : ChatSession) : Prop := cs_Status r = ChatQueued.

Definition bot_moved (r r' : BotSession) : Prop :=
  bs_ID r' = bs_ID r ∧ bs_OrgID r' = bs_OrgID r ∧ bs_UserID r' = bs_UserID r.

Record promise (s s' : Desk) : Prop := {
  pr_tickets : evolves ticket_moved ticket_born (d_tickets s) (d_tickets s');
  pr_articles : evolves article_moved article_born (d_articles s) (d_articles s');
  pr_chats : evolves chat_moved chat_born (d_chats s) (d_chats s');
  pr_bots : evolves bot_moved (λ _, True) (d_bots s) (d_bots s');
  pr_audits : d_audits s `prefix_of` d_audits s';
  pr_messages : d_messages s `prefix_of` d_messages s';
  pr_chatMessages : d_chatMessages s `prefix_of` d_chatMessages s';
  pr_assignments : d_assignments s `prefix_of` d_assignments s';
  pr_attachments : d_attachments s `prefix_of` d_attachments s' }.

Lemma ticket_moved_refl r : ticket_moved r r.
Proof. by left. Qed.

Lemma article_moved_refl r : article_moved r r.
Proof. unfold article_moved. naive_solver. Qed.

Lemma chat_moved_refl r : chat_moved r r.
Proof. done. Qed.

Lemma bot_moved_refl r : bot_moved r r.
Proof. done. Qed.

Lemma promise_refl s : promise s s.
Proof.
  split; try done; apply evolves_refl;
    auto using ticket_moved_refl, article_moved_refl, chat_moved_refl, bot_moved_refl.
Qed.

(** Only tables the promise does not speak of have changed. *)
Lemma promise_other s s' : d_tickets s' = d_tickets s → d_articles s' = d_articles s →
  d_chats s' = d_chats s → d_bots s' = d_bots s → d_audits s' = d_audits s →
  d_messages s' = d_messages s → d_chatMessages s' = d_chatMessages s →
  d_assignments s' = d_assignments s → d_attachments s' = d_attachments s → promise s s'.
Proof.
  intros E1 E2 E3 E4 E5 E6 E7 E8 E9. destruct (promise_refl s). split; by rewrite ?E1, ?E2, ?E3, ?E4, ?E5, ?E6, ?E7, ?E8, ?E9.
Qed.

(** ** States without collisions *)

(** Random identifiers are distinct, and no version has reached the end of its
    range. *)
Definition calm (s : Desk) : Prop :=
  NoDup (t_ID <$> d_tickets s) ∧ NoDup (ar_ID <$> d_articles s) ∧
  Forall (λ r, min_int64 ≤ t_Version r < max_int64) (d_tickets s) ∧
  Forall (λ r, min_int64 ≤ ar_Version r < max_int64) (d_articles s).

#[global] Instance calm_decision s : Decision (calm s).
Proof. unfold calm. apply _. Defined.
End promise.

Notation J := (kept_so_far calm promise).

Notation known_ticket := (known d_tickets t_ID t_Version t_Status).
Notation known_article := (known d_articles ar_ID ar_Version ar_Status).

Lemma ticket_version s h t r : J (s :: h) → known_ticket (s :: h) t → r ∈ d_tickets s →
  t_ID r = t_ID t → t_Version r = t_Version t → t_Status r = t_Status t.
Proof.
  apply (version_fixes d_tickets t_ID t_Version t_Status calm promise ticket_moved ticket_born).
  - by intros ? ? [].
  - intros r1 r2 [-> | (? & ? & ? & ? & ? & ? & ? & ?)]; [auto with lia |]. repeat split; [done | lia | lia].
  - by intros ? [].
Qed.

Lemma article_version s h t r : J (s :: h) → known_article (s :: h) t → r ∈ d_articles s →
  ar_ID r = ar_ID t → ar_Version r = ar_Version t → ar_Status r = ar_Status t.
Proof.
  apply (version_fixes d_articles ar_ID ar_Version ar_Status calm promise article_moved article_born).
  - by intros ? ? [].
  - intros r1 r2 (? & ? & ? & ? & [[? ?] | [? ?]]); repeat split; try done; lia.
  - by intros ? (_ & ? & _).
Qed.

(** * The data layer keeps it *)

Notation wpD := (wp J promise).
Notation Safe := (safe J promise).
Notation Safe_at := (safe_at J promise).
Notation Yields := (yields J promise).

(** ** Any promise that allows bookkeeping *)

(** Only the counters, what the service keeps in memory, the notifications sent
    and the identifiers issued may differ. *)
Definition books (s s' : Desk) : Prop :=
  s' = s {{ d_counters := d_counters s'; d_mode := d_mode s'; d_limits := d_limits s';
            d_sent := d_sent s'; d_issued := d_issued s' }}.

Class Books (G : Desk → Desk → Prop) := books_ok : ∀ s s', books s s' → G s s'.

#[export] Instance promise_books : Books promise.
Proof. intros s s' ->. by apply promise_other. Qed.

Section general.
Context {I : hist → Prop} {G : Desk → Desk → Prop} `{!Books G}.

Lemma books_refl s : G s s.
Proof. apply books_ok. by destruct s. Qed.

#[export] Instance books_reflexive : Reflexive G.
Proof. intros s. apply books_refl. Qed.

Lemma Safe_newID prefix : safe I G (newID prefix).
Proof. apply Safe_atomic. intros e s. by apply books_ok. Qed.

Lemma Safe_wrapped {A} action (m : D A) : safe I G m → safe I G (wrapped action m).
Proof. intros Hm. apply Safe_bind; [done |]. intros []; apply Safe_ret. Qed.

Lemma Safe_execute action f : (∀ s, G s (f s).2) → safe I G (execute action f).
Proof.
  intros Hf. apply Safe_bindD; [by apply Safe_wrapped, Safe_exec |]. intros a. apply Safe_ret.
Qed.

Lemma Safe_rowOr {R} entity action (m : D (option R)) : safe I G m → safe I G (rowOr entity action m).
Proof. intros Hm. apply Safe_bindD; [by apply Safe_wrapped |]. intros []; apply Safe_ret. Qed.

Lemma Safe_queryCount action f : safe I G (queryCount action f).
Proof. apply Safe_bindD; [apply Safe_wrapped, Safe_queryRow |]. intros []; apply Safe_ret. Qed.

End general.

#[export] Hint Resolve Safe_newID Safe_wrapped Safe_rowOr Safe_queryCount : rely.
#[export] Hint Extern 1 (Books _) => typeclasses eauto : rely.

Section reads.
Context `{!Params} {I : hist → Prop} {G : Desk → Desk → Prop} `{!Books G}.

Lemma Safe_counterWrite seen f : (∀ s, G s (f s).2) → safe I G (counterWrite seen f).
Proof.
  intros Hf. apply Safe_atomic. intros e s. destruct (_ && _); [apply books_refl |].
  destruct (e_fault e); cbn; [| apply Hf]. destruct (e_applied e); [apply Hf | apply books_refl].
Qed.

Lemma Safe_NextTicketNumber : safe I G NextTicketNumber.
Proof.
  unfold NextTicketNumber, Tx. apply Safe_bindD; [| auto with rely].
  apply Safe_wrapped, Safe_TxWith. unfold numberTx.
  apply Safe_bindD; [apply Safe_peek |]. intros [seen [v |]]; (apply Safe_bindD; [| auto with rely]);
    apply Safe_counterWrite; intros s; by apply books_ok.
Qed.
Lemma Safe_GetTicket org id : safe I G (GetTicket org id).
Proof. unfold GetTicket. auto with rely. Qed.
Lemma Safe_TicketAnyOrg id : safe I G (TicketAnyOrg id).
Proof. unfold TicketAnyOrg. auto with rely. Qed.
Lemma Safe_ListTickets f : safe I G (ListTickets f).
Proof. unfold ListTickets. safely. Qed.
Lemma Safe_TicketsInState l : safe I G (TicketsInState l).
Proof. unfold TicketsInState. safely. Qed.
Lemma Safe_CountTickets f : safe I G (CountTickets f).
Proof. unfold CountTickets. auto with rely. Qed.
Lemma Safe_HasAudit a b c : safe I G (HasAudit a b c).
Proof. unfold HasAudit. safely. Qed.
Lemma Safe_GroupTickets g : safe I G (GroupTickets g).
Proof. unfold GroupTickets. safely. Qed.
Lemma Safe_ChatSatisfaction : safe I G ChatSatisfaction.
Proof. unfold ChatSatisfaction. safely. Qed.
Lemma Safe_Messages o t b : safe I G (Messages o t b).
Proof. unfold Messages. auto with rely. Qed.
Lemma Safe_GetAttachments o t : safe I G (GetAttachments o t).
Proof. unfold GetAttachments. auto with rely. Qed.
Lemma Safe_GetAttachment o i : safe I G (GetAttachment o i).
Proof. unfold GetAttachment. auto with rely. Qed.
Lemma Safe_AttachmentAnyOrg i : safe I G (AttachmentAnyOrg i).
Proof. unfold AttachmentAnyOrg. auto with rely. Qed.
Lemma Safe_Assignments o t : safe I G (Assignments o t).
Proof. unfold Assignments. auto with rely. Qed.
Lemma Safe_AuditFor a b : safe I G (AuditFor a b).
Proof. unfold AuditFor. auto with rely. Qed.
Lemma Safe_AgentByUser u : safe I G (AgentByUser u).
Proof. unfold AgentByUser. auto with rely. Qed.
Lemma Safe_ListAgents b : safe I G (ListAgents b).
Proof. unfold ListAgents. auto with rely. Qed.
Lemma Safe_ListDepartments : safe I G ListDepartments.
Proof. unfold ListDepartments. auto with rely. Qed.
Lemma Safe_ListCategories b : safe I G (ListCategories b).
Proof. unfold ListCategories. auto with rely. Qed.
Lemma Safe_ListSLAPolicies : safe I G ListSLAPolicies.
Proof. unfold ListSLAPolicies. auto with rely. Qed.
Lemma Safe_GetSetting k : safe I G (GetSetting k).
Proof. unfold GetSetting. safely. Qed.
Lemma Safe_ListSettings : safe I G ListSettings.
Proof. unfold ListSettings. auto with rely. Qed.
Lemma Safe_GetArticle i : safe I G (GetArticle i).
Proof. unfold GetArticle. auto with rely. Qed.
Lemma Safe_ArticleBySlug i : safe I G (ArticleBySlug i).
Proof. unfold ArticleBySlug. auto with rely. Qed.
Lemma Safe_ListArticles f : safe I G (ListArticles f).
Proof. unfold ListArticles. safely. Qed.
Lemma Safe_GetChatSession o i : safe I G (GetChatSession o i).
Proof. unfold GetChatSession. auto with rely. Qed.
Lemma Safe_ChatSessionAnyOrg i : safe I G (ChatSessionAnyOrg i).
Proof. unfold ChatSessionAnyOrg. auto with rely. Qed.
Lemma Safe_ChatSessionsByStatus l : safe I G (ChatSessionsByStatus l).
Proof. unfold ChatSessionsByStatus. safely. Qed.
Lemma Safe_CountActiveChatsForAgent a : safe I G (CountActiveChatsForAgent a).
Proof. unfold CountActiveChatsForAgent. auto with rely. Qed.
Lemma Safe_ChatMessages o i a : safe I G (ChatMessages o i a).
Proof. unfold ChatMessages. auto with rely. Qed.
Lemma Safe_Canned i : safe I G (Canned i).
Proof. unfold Canned. auto with rely. Qed.
Lemma Safe_ListCannedFor a d : safe I G (ListCannedFor a d).
Proof. unfold ListCannedFor. auto with rely. Qed.
Lemma Safe_ListCannedAdmin : safe I G ListCannedAdmin.
Proof. unfold ListCannedAdmin. auto with rely. Qed.
Lemma Safe_GetBotSession u i : safe I G (GetBotSession u i).
Proof. unfold GetBotSession. auto with rely. Qed.
End reads.

#[export] Hint Resolve Safe_NextTicketNumber Safe_GetTicket Safe_TicketAnyOrg Safe_ListTickets
  Safe_TicketsInState Safe_CountTickets Safe_HasAudit Safe_GroupTickets Safe_ChatSatisfaction
  Safe_Messages Safe_GetAttachments Safe_GetAttachment Safe_AttachmentAnyOrg Safe_Assignments
  Safe_AuditFor Safe_AgentByUser Safe_ListAgents Safe_ListDepartments Safe_ListCategories
  Safe_ListSLAPolicies Safe_GetSetting Safe_ListSettings Safe_GetArticle Safe_ArticleBySlug
  Safe_ListArticles Safe_GetChatSession Safe_ChatSessionAnyOrg Safe_ChatSessionsByStatus
  Safe_CountActiveChatsForAgent Safe_ChatMessages Safe_Canned Safe_ListCannedFor
  Safe_ListCannedAdmin Safe_GetBotSession : rely.

Lemma Safe_upsert {R} action (tb : Table Desk R) P f r :
  (∀ l s, promise s (put tb l s)) → Safe (upsert action tb P f r).
Proof.
  intros Hp. apply Safe_bindD; [apply Safe_wrapped, Safe_exec; intros s; apply Hp |].
  assert (Safe (execute action (INSERT tb r))) by (apply Safe_execute; intros s; apply Hp).
  intros [n | e]; [| done]. destruct (0 <? n); [apply Safe_ret | done].
Qed.

(** A table that only grows. *)
Lemma promise_log s s' : d_tickets s' = d_tickets s → d_articles s' = d_articles s →
  d_chats s' = d_chats s → d_bots s' = d_bots s → d_audits s `prefix_of` d_audits s' →
  d_messages s `prefix_of` d_messages s' → d_chatMessages s `prefix_of` d_chatMessages s' →
  d_assignments s `prefix_of` d_assignments s' → d_attachments s `prefix_of` d_attachments s' → promise s s'.
Proof. intros E1 E2 E3 E4. destruct (promise_refl s). intros. split; by rewrite ?E1, ?E2, ?E3, ?E4. Qed.

Ltac table_write := intros; first [by apply promise_other | apply promise_log; by try apply prefix_app_r].

Section store.
Context `{!Params}.

Lemma Safe_InsertMessage m : Safe (InsertMessage m).
Proof. apply Safe_execute. table_write. Qed.
Lemma Safe_InsertAttachment a : Safe (InsertAttachment a).
Proof. apply Safe_execute. table_write. Qed.
Lemma Safe_InsertAssignment a : Safe (InsertAssignment a).
Proof. apply Safe_execute. table_write. Qed.
Lemma Safe_InsertAudit e : Safe (InsertAudit e).
Proof. apply Safe_execute. table_write. Qed.
Lemma Safe_UpsertAgent a : Safe (UpsertAgent a).
Proof. apply Safe_upsert. table_write. Qed.
Lemma Safe_TouchAgent u a : Safe (TouchAgent u a).
Proof. apply Safe_execute. table_write. Qed.
Lemma Safe_UpsertDepartment d : Safe (UpsertDepartment d).
Proof. apply Safe_upsert. table_write. Qed.
Lemma Safe_UpsertCategory c : Safe (UpsertCategory c).
Proof. apply Safe_upsert. table_write. Qed.
Lemma Safe_UpsertSLAPolicy p : Safe (UpsertSLAPolicy p).
Proof. apply Safe_upsert. table_write. Qed.
Lemma Safe_PutSetting k v a : Safe (PutSetting k v a).
Proof. apply Safe_upsert. table_write. Qed.
Lemma Safe_InsertChatMessage m : Safe (InsertChatMessage m).
Proof. apply Safe_execute. table_write. Qed.
Lemma Safe_InsertCanned c : Safe (InsertCanned c).
Proof. apply Safe_execute. table_write. Qed.
Lemma Safe_UpdateCanned c : Safe (UpdateCanned c).
Proof. apply Safe_execute. table_write. Qed.
Lemma Safe_DeleteCanned i a : Safe (DeleteCanned i a).
Proof. apply Safe_execute. table_write. Qed.
Lemma Safe_BumpCannedUsage i : Safe (BumpCannedUsage i).
Proof. apply Safe_execute. table_write. Qed.
End store.

#[export] Hint Resolve Safe_InsertMessage Safe_InsertAttachment Safe_InsertAssignment
  Safe_InsertAudit Safe_UpsertAgent Safe_TouchAgent Safe_UpsertDepartment Safe_UpsertCategory
  Safe_UpsertSLAPolicy Safe_PutSetting Safe_InsertChatMessage Safe_InsertCanned Safe_UpdateCanned
  Safe_DeleteCanned Safe_BumpCannedUsage : rely.

(** ** Tables with a lifecycle *)

Lemma promise_tickets s s' : evolves ticket_moved ticket_born (d_tickets s) (d_tickets s') →
  s' = s {{ d_tickets := d_tickets s' }} → promise s s'.
Proof. intros He ->. destruct (promise_refl s). by split. Qed.

Lemma promise_articles s s' : evolves article_moved article_born (d_articles s) (d_articles s') →
  s' = s {{ d_articles := d_articles s' }} → promise s s'.
Proof. intros He ->. destruct (promise_refl s). by split. Qed.

Lemma promise_chats s s' : evolves chat_moved chat_born (d_chats s) (d_chats s') →
  s' = s {{ d_chats := d_chats s' }} → promise s s'.
Proof. intros He ->. destruct (promise_refl s). by split. Qed.

Lemma promise_bots s s' : evolves bot_moved (λ _, True) (d_bots s) (d_bots s') →
  s' = s {{ d_bots := d_bots s' }} → promise s s'.
Proof. intros He ->. destruct (promise_refl s). by split. Qed.

Section lifecycle.
Context `{!Params}.

Lemma Safe_InsertTicket t : ticket_born t → Safe (InsertTicket t).
Proof.
  intros Ht. apply Safe_execute. intros s. apply promise_tickets; [| done].
  apply evolves_insert; [apply ticket_moved_refl | done].
Qed.

Lemma Safe_InsertArticle a : article_born a → Safe (InsertArticle a).
Proof.
  intros Ha. apply Safe_execute. intros s. apply promise_articles; [| done].
  apply evolves_insert; [apply article_moved_refl | done].
Qed.

Lemma Safe_InsertChatSession c : chat_born c → Safe (InsertChatSession c).
Proof.
  intros Hc. apply Safe_execute. intros s. apply promise_chats; [| done].
  apply evolves_insert; [apply chat_moved_refl | done].
Qed.

Lemma Safe_UpdateChatSession c : Safe (UpdateChatSession c).
Proof.
  apply Safe_execute. intros s. apply promise_chats; [| done].
  apply evolves_update; [apply chat_moved_refl | done].
Qed.

Lemma Safe_InsertBotSession b : Safe (InsertBotSession b).
Proof.
  apply Safe_execute. intros s. apply promise_bots; [| done]. by apply evolves_insert.
Qed.

Lemma Safe_UpdateBotSession b : Safe (UpdateBotSession b).
Proof.
  apply Safe_execute. intros s. apply promise_bots; [| done]. by apply evolves_update.
Qed.

Lemma Safe_BumpArticleCounter i c : Safe (BumpArticleCounter i c).
Proof.
  unfold BumpArticleCounter. destruct (bump c) as [f |] eqn:E; [| auto with rely].
  apply Safe_execute. intros s. apply promise_articles; [| done].
  apply evolves_update; [apply article_moved_refl |]. intros r _ _.
  unfold bump in E. repeat case_match; simplify_eq; unfold article_moved; naive_solver.
Qed.

(** A read row is known from then on. *)
Lemma Yields_rowOr {R} (P : R → hist → Prop) entity action (f : Desk → list R) :
  (∀ s h r, r ∈ f s → P r (s :: s :: h)) → Yields (rowOr entity action (queryRow f)) P.
Proof.
  intros HP h s h' e Hs HJ. split; [apply promise_refl |].
  destruct (e_fault e) as [err |]; cbn.
  - by destruct err.
  - destruct (f s) as [| r l] eqn:E; cbn; [done |]. apply HP. rewrite E. left.
Qed.

Lemma elem_of_filter_bool {A} (f : A → bool) l x : x ∈ List.filter f l ↔ x ∈ l ∧ f x = true.
Proof. rewrite !list_elem_of_In. apply List.filter_In. Qed.

Lemma elem_of_ORDER_BY {R} (leb : R → R → bool) l x : x ∈ ORDER_BY leb l ↔ x ∈ l.
Proof. unfold ORDER_BY. by rewrite sort_by_perm. Qed.

Lemma known_now {R X} (tbl : Desk → list R) rid ver (st : R → X) s h r : r ∈ tbl s → known tbl rid ver st (s :: h) r.
Proof. intros Hr. exists s, r. split; [left | done]. Qed.

Lemma Yields_GetTicket org id :
  Yields (GetTicket org id) (λ t h, known_ticket h t ∧ t_OrgID t = org).
Proof.
  apply Yields_rowOr. intros s h r [Hr Hp]%elem_of_filter_bool. split; [by apply known_now |]. lia.
Qed.

Lemma Yields_TicketAnyOrg id : Yields (TicketAnyOrg id) (λ t h, known_ticket h t).
Proof. apply Yields_rowOr. intros s h r [Hr Hp]%elem_of_filter_bool. by apply known_now. Qed.

Lemma Yields_GetArticle id : Yields (GetArticle id) (λ a h, known_article h a).
Proof. apply Yields_rowOr. intros s h r [Hr Hp]%elem_of_filter_bool. by apply known_now. Qed.

Lemma Yields_TicketsInState l : Yields (TicketsInState l) (λ ts h, Forall (known_ticket h) ts).
Proof.
  intros h. unfold TicketsInState. destruct (isEmpty l); [constructor |].
  intros s h' e Hs HJ. split; [apply promise_refl |]. destruct (e_fault e); cbn -[ORDER_BY]; [done |].
  apply Forall_forall. intros r Hr%elem_of_ORDER_BY.
  apply elem_of_filter_bool in Hr as [Hr _]. by apply known_now.
Qed.

(** A write that leaves the state of the row it was read from, or moves it along
    an edge. *)
Definition may_write (h : hist) (t : Ticket) : Prop :=
  ∃ t0, known_ticket h t0 ∧ t_ID t = t_ID t0 ∧ t_Version t = t_Version t0 ∧
    (t_Status t = t_Status t0 ∨ ∃ actor, CanTransition (t_Status t0) (t_Status t) actor = true).

Lemma may_write_same h t t0 : known_ticket h t0 → t_ID t = t_ID t0 → t_Version t = t_Version t0 →
  t_Status t = t_Status t0 → may_write h t.
Proof. intros. exists t0. auto. Qed.

Lemma write_promise s h t : J (s :: h) → may_write (s :: h) t →
  promise s (UPDATE support_tickets (same_version t) (written t) s).2.
Proof.
  intros HJ (t0 & Hk & Eid & Ev & Est). apply promise_tickets; [| done].
  apply evolves_update; [apply ticket_moved_refl |]. intros r Hr Hp. unfold same_version in Hp.
  apply andb_true_iff in Hp as [[Hi%seqb_eq _]%andb_true_iff Hv%Z.eqb_eq].
  right. repeat split. cbn.
  rewrite (ticket_version s h t0 r HJ Hk Hr) by congruence. exact Est.
Qed.

Lemma bumped_known s h t r : calm s → r ∈ d_tickets s → same_version t r = true →
  known_ticket ((UPDATE support_tickets (same_version t) (written t) s).2 :: h) (bumped t).
Proof.
  intros (_ & _ & Hb & _) Hr Hp. exists (UPDATE support_tickets (same_version t) (written t) s).2, (written t r).
  split; [left |]. split.
  { cbn. apply list_elem_of_fmap. exists r. rewrite Hp. done. }
  unfold same_version in Hp. apply andb_true_iff in Hp as [[Hi%seqb_eq _]%andb_true_iff Hv%Z.eqb_eq].
  split; [done |]. split; [| done]. change (t_Version r + 1 = t_Version t +! 1).
  rewrite Forall_forall in Hb. specialize (Hb r Hr). cbn beta in Hb.
  rewrite wrap64_id by (unfold in_int64, min_int64, max_int64 in *; lia). lia.
Qed.

Lemma wp_UpdateTicket t h : may_write h t →
  wpD (UpdateTicket t) h (λ r h', match r with Ok _ => known_ticket h' (bumped t) | Err _ => True end).
Proof.
  intros Hm s h' e Hs HJ. split.
  - assert (may_write (s :: h') t) as Hm'.
    { destruct Hm as (t0 & Hk & Hm). exists t0. split; [by apply (known_later _ _ _ _ _ _ _ Hs) | done]. }
    destruct (e_fault e); cbn -[UPDATE]; [| by eapply write_promise].
    destruct (e_applied e); [by eapply write_promise | apply promise_refl].
  - destruct (e_fault e) eqn:Ef; cbn -[UPDATE]; rewrite ?Ef; cbn -[UPDATE]; [done |].
    destruct (e_count e); cbn -[UPDATE]; [done |].
    destruct (Z.eqb_spec (UPDATE support_tickets (same_version t) (written t) s).1 0) as [E | E]; [done |].
    cbn -[UPDATE]. destruct (List.filter (same_version t) (d_tickets s)) as [| r l] eqn:El.
    { cbn in E. by rewrite El in E. }
    assert (r ∈ List.filter (same_version t) (d_tickets s)) as [Hr Hp]%elem_of_filter_bool
      by (rewrite El; left).
    apply (bumped_known s _ t r); [| done | done]. destruct HJ as [Hc _]. by apply Forall_cons_1 in Hc as [? _].
Qed.

(** The same of articles. *)
Definition may_write_article (h : hist) (a : Article) : Prop :=
  ∃ a0, known_article h a0 ∧ ar_ID a = ar_ID a0 ∧ ar_Version a = ar_Version a0 ∧
    (ar_Status a = ar_Status a0 ∨ CanPublishArticle (ar_Status a0) (ar_Status a) = true).

Lemma Safe_UpdateArticle a h : may_write_article h a → Safe_at (UpdateArticle a) h.
Proof.
  intros Hm s h' e Hs HJ.
  assert (promise s (UPDATE support_kb_articles (same_article a) (writtenArticle a) s).2) as Hp.
  { destruct Hm as (a0 & Hk & Eid & Ev & Est). apply promise_articles; [| done].
    apply (known_later _ _ _ _ _ _ _ Hs) in Hk.
    apply evolves_update; [apply article_moved_refl |]. intros r Hr Hp. unfold same_article in Hp.
    apply andb_true_iff in Hp as [Hi%seqb_eq Hv%Z.eqb_eq].
    repeat split. right. split; [done |].
    change (ar_Status a = ar_Status r ∨ CanPublishArticle (ar_Status r) (ar_Status a) = true).
    rewrite (article_version s h' a0 r HJ Hk Hr) by congruence. exact Est. }
  split.
  - destruct (e_fault e); cbn -[UPDATE]; [| done]. destruct (e_applied e); [done | apply promise_refl].
  - destruct (e_fault e); cbn -[UPDATE]; [done |]. destruct (e_count e); cbn -[UPDATE]; [done |].
    by destruct (_ =? 0).
Qed.
End lifecycle.

#[export] Hint Resolve Safe_UpdateChatSession Safe_InsertBotSession Safe_UpdateBotSession
  Safe_BumpArticleCounter : rely.
