(* ===== verification/DeskOps.v ===== *)
(** Every operation of the support desk keeps the promise of [DeskPromise.v], under
    every interleaving: the life of tickets and articles, and the logs. *)
From stdpp Require Import prelude strings list gmap.
From Stdlib Require Import ZArith Lia.
From S2P Require Import Prelude Errors Threads Sql RateLimit Text DeskModels DeskStates Desk.
From S2P Require Import DeskStore DeskBot DeskService DeskTickets DeskChat DeskKB DeskFiles Rely.
From S2P Require Import DeskPromise.

(** * Steps that change nothing but the books *)

Section quiet.
Context `{!Params} {I : hist → Prop} {G : Desk → Desk → Prop} `{!Books G}.

Lemma Safe_settingInt k : safe I G (settingInt k).
Proof. unfold settingInt. safely. Qed.
Lemma Safe_settingString k : safe I G (settingString k).
Proof. unfold settingString. safely. Qed.
Lemma Safe_settingBool k : safe I G (settingBool k).
Proof. apply Safe_bind; [apply Safe_settingInt | auto with rely]. Qed.
Lemma Safe_RoleOf id : safe I G (RoleOf id).
Proof. unfold RoleOf. safely. Qed.
Lemma Safe_IsStaff id : safe I G (IsStaff id).
Proof. apply Safe_bind; [apply Safe_RoleOf | auto with rely]. Qed.
Lemma Safe_AgentDisplayName id : safe I G (AgentDisplayName id).
Proof. unfold AgentDisplayName. safely. Qed.
Lemma Safe_dropMode sid : safe I G (dropMode sid).
Proof. apply Safe_atomic. intros e s. by apply books_ok. Qed.
Hint Resolve Safe_dropMode : rely.
Lemma Safe_SupportModeFor id : safe I G (SupportModeFor id).
Proof. unfold SupportModeFor. safely. Qed.
Hint Resolve Safe_settingInt Safe_settingString Safe_settingBool Safe_RoleOf Safe_IsStaff
  Safe_AgentDisplayName Safe_SupportModeFor : rely.
Lemma Safe_notify e u f : safe I G (notify e u f).
Proof. unfold notify. safely. apply Safe_atomic. intros ? s. by apply books_ok. Qed.
Lemma Safe_allow n id : safe I G (allow n id).
Proof.
  unfold allow. safely. apply Safe_atomic. intros e s. destruct (Limits_Allow _ _ _ _) as [[ok wait] l].
  by apply books_ok.
Qed.
Lemma Safe_SLAPolicies : safe I G SLAPolicies.
Proof. unfold SLAPolicies. safely. Qed.
Hint Resolve Safe_notify Safe_allow Safe_SLAPolicies : rely.
Lemma Safe_PolicyFor p : safe I G (PolicyFor p).
Proof. unfold PolicyFor. safely. Qed.
Lemma Safe_requireTicketCreator id : safe I G (requireTicketCreator id).
Proof. unfold requireTicketCreator. safely. Qed.
Lemma Safe_ownBotSession id i : safe I G (ownBotSession id i).
Proof. unfold ownBotSession. safely. Qed.
Lemma Safe_TenantTicket id i : safe I G (TenantTicket id i).
Proof. unfold TenantTicket. safely. Qed.
Hint Resolve Safe_TenantTicket : rely.
Lemma Safe_TenantTickets id f : safe I G (TenantTickets id f).
Proof. unfold TenantTickets. safely. Qed.
Lemma Safe_TicketAudit id i : safe I G (TicketAudit id i).
Proof. unfold TicketAudit. safely. Qed.
End quiet.

#[export] Hint Resolve Safe_settingInt Safe_settingString Safe_settingBool Safe_RoleOf Safe_IsStaff
  Safe_AgentDisplayName Safe_SupportModeFor Safe_notify Safe_allow Safe_SLAPolicies Safe_PolicyFor
  Safe_requireTicketCreator Safe_ownBotSession Safe_TenantTicket Safe_TenantTickets
  Safe_TicketAudit : rely.

Section ops.
Context `{!Params}.

(** * service.go *)

Lemma Safe_audit id e : Safe (audit id e).
Proof. unfold audit. safely. Qed.
Hint Resolve Safe_audit : rely.
Lemma Safe_EnterSupportMode id r : Safe (EnterSupportMode id r).
Proof. unfold EnterSupportMode. safely. apply Safe_atomic. table_write. Qed.
Lemma Safe_ExitSupportMode id : Safe (ExitSupportMode id).
Proof. unfold ExitSupportMode. safely. apply Safe_atomic. table_write. Qed.
Lemma Safe_requireSupportMode id : Safe (requireSupportMode id).
Proof. unfold requireSupportMode. safely. Qed.
Lemma Safe_seedPolicies have ps : Safe (seedPolicies have ps).
Proof. induction ps; cbn [seedPolicies]; safely. Qed.
Lemma Safe_seedSettings order : Safe (seedSettings order).
Proof. induction order as [| [k v] order IH]; cbn [seedSettings]; safely. Qed.
Hint Resolve Safe_EnterSupportMode Safe_ExitSupportMode Safe_requireSupportMode Safe_seedPolicies
  Safe_seedSettings : rely.

(** * tickets.go and agents.go *)

Lemma Safe_requireAgent id : Safe (requireAgent id).
Proof. unfold requireAgent. safely. Qed.
Hint Resolve Safe_requireAgent : rely.

Lemma wp_applyTransition id t to actor reason h : known_ticket h t →
  wpD (applyTransition id t to actor reason) h
    (λ r h', match r with Ok t' => known_ticket h' t' | Err _ => True end).
Proof.
  intros Hk. unfold applyTransition. destruct (CanTransition (t_Status t) to actor) eqn:Hc; cbn [negb]; [| done].
  apply wp_bind. eapply wp_mono; [apply Safe_nowUnix |]. intros at_ h1 H1 _.
  assert (t_ID (stamped t (t_Status t) to at_) = t_ID t ∧
    t_Version (stamped t (t_Status t) to at_) = t_Version t ∧
    t_Status (stamped t (t_Status t) to at_) = to) as (E1 & E2 & E3).
  { unfold stamped. by repeat case_match. }
  apply wp_bind. eapply wp_mono.
  { apply wp_UpdateTicket. exists t. split; [by apply (known_later _ _ _ _ _ _ _ H1) |].
    rewrite E1, E2, E3. eauto. }
  intros [u | e] h2 H2 Hb; [| done].
  apply wp_bind. eapply wp_mono; [apply Safe_audit |]. intros [? | e] h3 H3 _; [| done].
  apply wp_bind. eapply wp_mono with (Q := λ _ _, True).
  { destruct (to =s StateResolved); [apply Safe_notify |]. destruct (to =s StateClosed); [apply Safe_notify | done]. }
  intros ? h4 H4 _. cbn. apply (known_later _ _ _ _ h2); [by trans h3 | done].
Qed.

Lemma Safe_at_applyTransition id t to actor reason h : known_ticket h t →
  Safe_at (applyTransition id t to actor reason) h.
Proof. intros Hk. eapply wp_mono; [by apply wp_applyTransition |]. done. Qed.

Hint Resolve Safe_at_applyTransition : rely.

(** What is known stays known, along the suffixes at hand. *)
Ltac still :=
  repeat match goal with H : _ ∧ _ |- _ => destruct H end;
  first [eassumption | eapply known_later; [eassumption | still]].

Ltac writable := eapply may_write_same; [still | done..].

(** The ticket is read, the rest knows it. *)
Tactic Notation "knowing" uconstr(Y) :=
  eapply safe_at_yields; [eapply Y | intros ? ? ? ?]; cbn beta in *.

Lemma Safe_at_UpdateTicket t h : may_write h t → Safe_at (UpdateTicket t) h.
Proof. intros Hm. eapply wp_mono; [by apply wp_UpdateTicket |]. done. Qed.

(** After the write the bumped ticket is known. *)
Lemma Safe_at_written {B} t (k : () → D B) h : may_write h t →
  (∀ h', h `suffix_of` h' → known_ticket h' (bumped t) → Safe_at (k ()) h') →
  Safe_at (bindD (UpdateTicket t) k) h.
Proof.
  intros Hm Hk. apply wp_bind. eapply wp_mono; [by apply wp_UpdateTicket |].
  intros [[] | e] h' Hs Hb; [by apply Hk | done].
Qed.

Lemma Safe_at_moved {B} id t to actor reason (k : Ticket → D B) h : known_ticket h t →
  (∀ t' h', h `suffix_of` h' → known_ticket h' t' → Safe_at (k t') h') →
  Safe_at (bindD (applyTransition id t to actor reason) k) h.
Proof.
  intros Ht Hk. apply wp_bind. eapply wp_mono; [by apply wp_applyTransition |].
  intros [t' | e] h' Hs Hb; [by apply Hk | done].
Qed.

Lemma Yields_TenantTicket id i : Yields (TenantTicket id i)
  (λ r h, known_ticket h r.1 ∧ t_OrgID r.1 = id_OrgID id).
Proof.
  intros h. unfold TenantTicket. destruct (_ || _); [done |].
  apply wp_bind. eapply wp_mono; [apply Yields_GetTicket |]. intros [t | e] h1 H1 Hk; [| done].
  destruct (_ && _); [done |].
  apply wp_bind. eapply wp_mono; [apply Safe_Messages |]. intros [m | e] h2 H2 _; [| done].
  destruct Hk as [Hk Ho]. split; [by apply (known_later _ _ _ _ h1) | done].
Qed.


Lemma Safe_StartBotSession id : Safe (StartBotSession id).
Proof. unfold StartBotSession. safely. Qed.
Lemma Safe_BotMessage id i t : Safe (BotMessage id i t).
Proof. unfold BotMessage. safely. Qed.
Lemma Safe_MarkBotResolved id i : Safe (MarkBotResolved id i).
Proof. unfold MarkBotResolved. safely. Qed.
Lemma Safe_EscalateBotSession id i : Safe (EscalateBotSession id i).
Proof. unfold EscalateBotSession. safely. apply Safe_InsertTicket. split; [done | by left]. Qed.

Lemma Safe_SaveDraft id i n : Safe (SaveDraft id i n).
Proof.
  unfold SaveDraft. apply Safe_bindD; [auto with rely |]. intros _ h.
  knowing Yields_GetTicket. destruct (_ || _); [done |].
  apply safe_at_bind; [auto with rely |]. intros at_ h2 H2.
  apply Safe_at_written; [| done].
  writable.
Qed.

Lemma Safe_SubmitTicket id i n : Safe (SubmitTicket id i n).
Proof.
  unfold SubmitTicket. apply Safe_bindD; [auto with rely |]. intros _.
  apply Safe_bindD; [auto with rely |]. intros _ h.
  knowing Yields_GetTicket. destruct (negb (_ =? _)); [done |].
  destruct (CanTransition (t_Status _) StateOpen ActorUser) eqn:Hc; cbn [negb]; [| done].
  destruct (validateTicket _); [done |].
  apply safe_at_bindD; [auto with rely |]. intros policy h2 H2.
  apply safe_at_bind; [auto with rely |]. intros at_ h3 H3.
  apply Safe_at_written; [| intros; safely].
  eexists. split; [still |]. split; [done |]. split; [done |]. right. by exists ActorUser.
Qed.

Lemma Safe_AddUserReply id i b : Safe (AddUserReply id i b).
Proof.
  intros h. unfold AddUserReply. knowing Yields_TenantTicket. destruct a as [t msgs].
  destruct (_ =s ""); [done |]. destruct (_ && _); [done |].
  apply safe_at_bind; [auto with rely |]. intros at_ h2 H2.
  apply safe_at_bind; [auto with rely |]. intros mid h3 H3.
  apply safe_at_bindD; [auto with rely |]. intros _ h4 H4.
  destruct (CanTransition _ _ _); [apply Safe_at_applyTransition; still |].
  apply Safe_at_written; [writable | intros; safely].
Qed.

Lemma Safe_CloseTicket id i : Safe (CloseTicket id i).
Proof.
  intros h. unfold CloseTicket. knowing Yields_TenantTicket. destruct a as [t msgs].
  apply Safe_at_applyTransition. still.
Qed.

Lemma Safe_ReopenTicket id i : Safe (ReopenTicket id i).
Proof.
  intros h. unfold ReopenTicket. knowing Yields_TenantTicket. destruct a as [t msgs].
  apply Safe_at_moved; [still |]. intros t' h2 H2 Hk2.
  apply Safe_at_moved; [still |]. intros; safely.
Qed.

Lemma Safe_AvailabilityOf a n t : Safe (AvailabilityOf a n t).
Proof. unfold AvailabilityOf. safely. Qed.
Hint Resolve Safe_AvailabilityOf : rely.
Lemma Safe_rosterLoop l t : Safe (rosterLoop l t).
Proof. induction l as [| a l IH]; cbn [rosterLoop]; safely. Qed.
Hint Resolve Safe_rosterLoop : rely.
Lemma Safe_Roster : Safe Roster.
Proof. unfold Roster. safely. Qed.
Lemma Safe_Queue id f : Safe (Queue id f).
Proof. unfold Queue. safely. Qed.
Lemma Safe_AgentTicket id i : Safe (AgentTicket id i).
Proof. unfold AgentTicket. safely. Qed.
Lemma Safe_Metrics id : Safe (Metrics id).
Proof. unfold Metrics. safely. Qed.
Hint Resolve Safe_Roster Safe_Queue Safe_AgentTicket Safe_Metrics : rely.

Lemma Safe_at_assign id t to reason h : known_ticket h t → Safe_at (assign id t to reason) h.
Proof.
  intros Ht. unfold assign. apply safe_at_bind; [auto with rely |]. intros at_ h1 H1.
  apply Safe_at_written; [writable |]. intros h2 H2 Hk2.
  cbv zeta. destruct (_ =s StateOpen); [apply Safe_at_moved; [still | intros; safely] | safely].
Qed.

Lemma Safe_ClaimTicket id i : Safe (ClaimTicket id i).
Proof.
  unfold ClaimTicket. apply Safe_bindD; [auto with rely |]. intros agent h.
  knowing Yields_TicketAnyOrg. destruct (_ && _); [done |]. apply Safe_at_assign. still.
Qed.

Lemma Safe_AssignTicket id i u r : Safe (AssignTicket id i u r).
Proof.
  unfold AssignTicket. apply Safe_bindD; [auto with rely |]. intros _.
  apply Safe_bindD; [auto with rely |]. intros target h. destruct (negb _); [done |].
  knowing Yields_TicketAnyOrg. apply Safe_at_assign. still.
Qed.

Lemma Safe_AgentReply id i b n : Safe (AgentReply id i b n).
Proof.
  unfold AgentReply. apply Safe_bindD; [auto with rely |]. intros agent h.
  knowing Yields_TicketAnyOrg. destruct (_ =s StateDraft); [done |]. destruct (_ =s ""); [done |].
  apply safe_at_bind; [auto with rely |]. intros at_ h2 H2.
  apply safe_at_bind; [auto with rely |]. intros mid h3 H3.
  apply safe_at_bindD; [auto with rely |]. intros _ h4 H4.
  destruct n; [safely |]. apply Safe_at_written; [writable |]. intros h5 H5 Hk5.
  cbv zeta. destruct (CanTransition _ _ _); [apply Safe_at_moved; [still | intros; safely] | safely].
Qed.

Lemma Safe_AgentTransition id i to r : Safe (AgentTransition id i to r).
Proof.
  unfold AgentTransition. apply Safe_bindD; [auto with rely |]. intros _ h.
  destruct (negb _); [done |]. knowing Yields_TicketAnyOrg. destruct (_ =s StateDraft); [done |].
  apply Safe_at_applyTransition. still.
Qed.

(** * tasks.go *)

Lemma Safe_sweepLoop ps t l : Safe (sweepLoop ps t l).
Proof. induction l as [| a l IH]; cbn [sweepLoop]; safely. Qed.
Hint Resolve Safe_sweepLoop : rely.
Lemma Safe_runSLASweep : Safe runSLASweep.
Proof. unfold runSLASweep. safely. Qed.

Lemma Safe_at_closeLoop cutoff l h : Forall (known_ticket h) l → Safe_at (closeLoop cutoff l) h.
Proof.
  revert h. induction l as [| t l IH]; intros h Hl; cbn [closeLoop]; [done |].
  apply Forall_cons in Hl as [Ht Hl]. destruct (_ || _); [by apply IH |].
  apply Safe_at_moved; [done |]. intros t' h' Hs _. apply IH.
  eapply Forall_impl; [exact Hl |]. intros x Hx. cbn beta. still.
Qed.

Lemma Safe_runAutoClose : Safe runAutoClose.
Proof.
  unfold runAutoClose. apply Safe_bind; [auto with rely |]. intros hours.
  apply Safe_bind; [auto with rely |]. intros now h. knowing Yields_TicketsInState.
  by apply Safe_at_closeLoop.
Qed.

(** * chat.go *)

(** A step that is safe here, and then anything safe. *)
Lemma Safe_at_then {A B} (m : D A) (k : A → D B) h :
  Safe_at m h → (∀ a, Safe (k a)) → Safe_at (bindD m k) h.
Proof.
  intros Hm Hk. apply wp_bind. eapply wp_mono; [exact Hm |]. intros [a | e] h' _ _; [apply Hk | done].
Qed.

(** A ticket that was inserted is known. *)
Lemma Yields_InsertTicket t : ticket_born t → Yields (InsertTicket t) (λ _ h, known_ticket h t).
Proof.
  intros Hb h s h' e Hs HJ. assert (promise s (INSERT support_tickets t s).2) as Hp.
  { apply promise_tickets; [| done]. apply evolves_insert; [apply ticket_moved_refl | done]. }
  split.
  - destruct (e_fault e); cbn -[INSERT]; [| done]. destruct (e_applied e); [done | apply promise_refl].
  - destruct (e_fault e); cbn -[INSERT]; [done |].
    exists (INSERT support_tickets t s).2, t. split; [left |]. split; [| done].
    apply elem_of_app. right. apply list_elem_of_singleton. done.
Qed.

Lemma Safe_withinBusinessHours t : Safe (withinBusinessHours t).
Proof. unfold withinBusinessHours. safely. Qed.
Hint Resolve Safe_withinBusinessHours : rely.
Lemma Safe_ChatAvailable : Safe ChatAvailable.
Proof. unfold ChatAvailable. safely. Qed.
Hint Resolve Safe_ChatAvailable : rely.
Lemma Safe_StartChat id x : Safe (StartChat id x).
Proof. unfold StartChat. safely. by apply Safe_InsertChatSession. Qed.
Lemma Safe_ChatView id i a : Safe (ChatView id i a).
Proof. unfold ChatView. safely. Qed.
Lemma Safe_QueuePosition c : Safe (QueuePosition c).
Proof. unfold QueuePosition. safely. Qed.
Lemma Safe_appendChatMessage c u r n b : Safe (appendChatMessage c u r n b).
Proof. unfold appendChatMessage. safely. Qed.
Hint Resolve Safe_ChatView Safe_appendChatMessage : rely.
Lemma Safe_PostChatMessage id i b : Safe (PostChatMessage id i b).
Proof. unfold PostChatMessage. safely. Qed.
Lemma Safe_AgentChats id : Safe (AgentChats id).
Proof. unfold AgentChats. safely. Qed.
Lemma Safe_AcceptChat id i : Safe (AcceptChat id i).
Proof. unfold AcceptChat. safely. Qed.
Lemma Safe_AgentChatView id i a : Safe (AgentChatView id i a).
Proof. unfold AgentChatView. safely. Qed.
Lemma Safe_AgentChatMessage id i b : Safe (AgentChatMessage id i b).
Proof. unfold AgentChatMessage. safely. Qed.
Lemma Safe_chatForParticipant id i : Safe (chatForParticipant id i).
Proof. unfold chatForParticipant. safely. Qed.
Hint Resolve Safe_chatForParticipant : rely.
Lemma Safe_CloseChat id i r : Safe (CloseChat id i r).
Proof. unfold CloseChat. safely. Qed.

Lemma Safe_EscalateChat id i t p : Safe (EscalateChat id i t p).
Proof.
  unfold EscalateChat. do 2 (apply Safe_bindD; [auto with rely | intros ?]).
  destruct (negb _); [apply Safe_fail |]. destruct (negb _); [apply Safe_fail |].
  do 3 (apply Safe_bindD; [auto with rely | intros ?]).
  do 2 (apply Safe_bind; [auto with rely | intros ?]). intros h.
  knowing Yields_InsertTicket; [split; [done | by right] |].
  apply Safe_at_then; [apply Safe_at_assign; still | intros; safely].
Qed.

Lemma Safe_reapLoop t l : Safe (reapLoop t l).
Proof. induction l as [| c l IH]; cbn [reapLoop]; safely. Qed.
Hint Resolve Safe_reapLoop : rely.
Lemma Safe_runChatReaper : Safe runChatReaper.
Proof. unfold runChatReaper. safely. Qed.

(** * kb.go, canned.go, admin.go *)

Lemma Safe_RebuildKBIndex : Safe RebuildKBIndex.
Proof. unfold RebuildKBIndex. safely. apply Safe_atomic. table_write. Qed.
Hint Resolve Safe_RebuildKBIndex : rely.
Lemma Safe_Bootstrap order : Safe (Bootstrap order).
Proof. unfold Bootstrap, seedSLAPolicies. safely. Qed.
Lemma Safe_CreateArticle id i : Safe (CreateArticle id i).
Proof. unfold CreateArticle. safely. by apply Safe_InsertArticle. Qed.

Lemma Safe_EditArticle id i n : Safe (EditArticle id i n).
Proof.
  unfold EditArticle. apply Safe_bindD; [auto with rely |]. intros _ h.
  knowing Yields_GetArticle. destruct (_ || _); [done |].
  apply safe_at_bindD; [safely |]. intros slug h2 H2.
  apply safe_at_bind; [auto with rely |]. intros at_ h3 H3.
  apply Safe_at_then; [apply Safe_UpdateArticle | intros; safely].
  eexists. split; [still |]. auto.
Qed.

Lemma Safe_TransitionArticle id i to : Safe (TransitionArticle id i to).
Proof.
  unfold TransitionArticle. apply Safe_bindD; [auto with rely |]. intros _ h.
  knowing Yields_GetArticle. destruct (CanPublishArticle _ _) eqn:Hc; cbn [negb]; [| done].
  apply safe_at_bind; [safely |]. intros role h2 H2. destruct (negb _); [done |].
  apply safe_at_bind; [auto with rely |]. intros at_ h3 H3.
  apply Safe_at_then; [apply Safe_UpdateArticle | intros; safely].
  eexists. split; [still |]. auto.
Qed.

Lemma Safe_PublicArticle id i : Safe (PublicArticle id i).
Proof. unfold PublicArticle. safely. Qed.
Lemma Safe_SearchArticles id t a b : Safe (SearchArticles id t a b).
Proof. unfold SearchArticles. safely. Qed.
Lemma Safe_StaffArticles id l t a b : Safe (StaffArticles id l t a b).
Proof. unfold StaffArticles. safely. Qed.
Lemma Safe_ArticleFeedback id i b : Safe (ArticleFeedback id i b).
Proof. unfold ArticleFeedback. safely. Qed.
Lemma Safe_SuggestArticles t n : Safe (SuggestArticles t n).
Proof. unfold SuggestArticles. safely. Qed.
Lemma Safe_CannedResponses id : Safe (CannedResponses id).
Proof. unfold CannedResponses. safely. Qed.
Hint Resolve Safe_CannedResponses : rely.
Lemma Safe_CreatePersonalCanned id i : Safe (CreatePersonalCanned id i).
Proof. unfold CreatePersonalCanned. safely. Qed.
Lemma Safe_UpdatePersonalCanned id i n : Safe (UpdatePersonalCanned id i n).
Proof. unfold UpdatePersonalCanned. safely. Qed.
Lemma Safe_DeletePersonalCanned id i : Safe (DeletePersonalCanned id i).
Proof. unfold DeletePersonalCanned. safely. Qed.
Lemma Safe_UseCanned id i : Safe (UseCanned id i).
Proof. unfold UseCanned. safely. Qed.
Lemma Safe_SuggestCanned id t n : Safe (SuggestCanned id t n).
Proof. unfold SuggestCanned. safely. Qed.
Lemma Safe_requireAdmin id : Safe (requireAdmin id).
Proof. unfold requireAdmin. safely. Qed.
Hint Resolve Safe_requireAdmin : rely.
Lemma Safe_Settings id : Safe (Settings id).
Proof. unfold Settings. safely. Qed.
Lemma Safe_SetSetting id k v : Safe (SetSetting id k v).
Proof. unfold SetSetting. safely. Qed.
Lemma Safe_SaveSLAPolicy id p : Safe (SaveSLAPolicy id p).
Proof. unfold SaveSLAPolicy. safely. Qed.
Lemma Safe_SaveDepartment id d : Safe (SaveDepartment id d).
Proof. unfold SaveDepartment. safely. Qed.
Lemma Safe_Departments id : Safe (Departments id).
Proof. unfold Departments. safely. Qed.
Lemma Safe_SaveCategory id c : Safe (SaveCategory id c).
Proof. unfold SaveCategory. safely. Qed.
Lemma Safe_Categories : Safe Categories.
Proof. unfold Categories. safely. Qed.
Lemma Safe_SaveAgent id a : Safe (SaveAgent id a).
Proof. unfold SaveAgent. safely. Qed.
Lemma Safe_Agents id : Safe (Agents id).
Proof. unfold Agents. safely. Qed.
Lemma Safe_SaveSharedCanned id i n : Safe (SaveSharedCanned id i n).
Proof. unfold SaveSharedCanned. safely. Qed.
Lemma Safe_SharedCanned id : Safe (SharedCanned id).
Proof. unfold SharedCanned. safely. Qed.
Lemma Safe_agentCounts l m : Safe (agentCounts l m).
Proof. revert m. induction l as [| a l IH]; intros m; cbn [agentCounts]; safely. Qed.
Hint Resolve Safe_agentCounts : rely.
Lemma Safe_Reports id n : Safe (Reports id n).
Proof. unfold Reports, groupReport, slaReport, agentReport. safely. Qed.

(** * attachments.go *)

Lemma Safe_syscall f : (∀ s, promise s (f s)) → Safe (syscall f).
Proof.
  intros Hf. apply Safe_atomic. intros e s. destruct (e_fault e); cbn; [| apply Hf].
  destruct (e_applied e); [apply Hf | apply promise_refl].
Qed.

Lemma Safe_ticketForAttachment id i : Safe (ticketForAttachment id i).
Proof. unfold ticketForAttachment. safely. Qed.
Lemma Safe_MkdirAll : Safe MkdirAll.
Proof. apply Safe_syscall. table_write. Qed.
Lemma Safe_closeFile : Safe closeFile.
Proof. apply Safe_syscall. table_write. Qed.
Lemma Safe_removeFile path : Safe (removeFile path).
Proof. apply Safe_syscall. table_write. Qed.
Lemma Safe_createExcl path : Safe (createExcl path).
Proof. apply Safe_atomic. intros e s. by destruct (d_files s !! path), (e_fault e); cbn; apply promise_other. Qed.
Lemma Safe_copyTo path src max : Safe (copyTo path src max).
Proof. apply Safe_atomic. intros e s. by apply promise_other. Qed.
Hint Resolve Safe_ticketForAttachment Safe_MkdirAll Safe_closeFile Safe_removeFile Safe_createExcl
  Safe_copyTo : rely.
Lemma Safe_AttachFile id i n c src : Safe (AttachFile id i n c src).
Proof. unfold AttachFile. safely. Qed.
Lemma Safe_TicketAttachments id i : Safe (TicketAttachments id i).
Proof. unfold TicketAttachments. safely. Qed.
Lemma Safe_OpenAttachment id i : Safe (OpenAttachment id i).
Proof. unfold OpenAttachment, openFile. safely. Qed.
End ops.

#[export] Hint Resolve Safe_audit Safe_EnterSupportMode Safe_ExitSupportMode Safe_requireSupportMode
  Safe_seedPolicies Safe_seedSettings Safe_requireAgent Safe_StartBotSession Safe_BotMessage
  Safe_MarkBotResolved Safe_EscalateBotSession Safe_SaveDraft Safe_SubmitTicket Safe_AddUserReply
  Safe_CloseTicket Safe_ReopenTicket Safe_AvailabilityOf Safe_rosterLoop Safe_Roster Safe_Queue
  Safe_AgentTicket Safe_Metrics Safe_ClaimTicket Safe_AssignTicket Safe_AgentReply
  Safe_AgentTransition Safe_sweepLoop Safe_runSLASweep Safe_runAutoClose Safe_withinBusinessHours
  Safe_ChatAvailable Safe_StartChat Safe_ChatView Safe_QueuePosition Safe_appendChatMessage
  Safe_PostChatMessage Safe_AgentChats Safe_AcceptChat Safe_AgentChatView Safe_AgentChatMessage
  Safe_chatForParticipant Safe_CloseChat Safe_EscalateChat Safe_reapLoop Safe_runChatReaper
  Safe_RebuildKBIndex Safe_Bootstrap Safe_CreateArticle Safe_EditArticle Safe_TransitionArticle
  Safe_PublicArticle Safe_SearchArticles Safe_StaffArticles Safe_ArticleFeedback
  Safe_SuggestArticles Safe_CannedResponses Safe_CreatePersonalCanned Safe_UpdatePersonalCanned
  Safe_DeletePersonalCanned Safe_UseCanned Safe_SuggestCanned Safe_requireAdmin Safe_Settings
  Safe_SetSetting Safe_SaveSLAPolicy Safe_SaveDepartment Safe_Departments Safe_SaveCategory
  Safe_Categories Safe_SaveAgent Safe_Agents Safe_SaveSharedCanned Safe_SharedCanned
  Safe_agentCounts Safe_Reports Safe_ticketForAttachment Safe_MkdirAll Safe_closeFile
  Safe_removeFile Safe_createExcl Safe_copyTo Safe_AttachFile Safe_TicketAttachments
  Safe_OpenAttachment : rely.
