(* ===== verification/DeskLife.v ===== *)
(** The life of tickets and articles, and the logs, under every interleaving of
    the support desk's entry points: what the handlers of
    [src/src/support/handlers_*.go] and the scheduled tasks call. *)
From stdpp Require Import prelude strings list gmap.
From Stdlib Require Import ZArith Lia.
From S2P Require Import Prelude Errors Threads Sql RateLimit Text DeskModels DeskStates Desk.
From S2P Require Import DeskStore DeskBot DeskService DeskTickets DeskChat DeskKB DeskFiles Rely.
From S2P Require Import DeskPromise DeskOps.

Section life.
Context `{!Params}.

(** * Entry points *)

Definition drop {A} (p : program A) : program () := let* _ := p in Ret ().

(** What a customer calls. *)
Inductive tenant_op (id : Identity) : program () → Prop :=
| op_StartBotSession : tenant_op id (drop (StartBotSession id))
| op_BotMessage sid txt : tenant_op id (drop (BotMessage id sid txt))
| op_MarkBotResolved sid : tenant_op id (drop (MarkBotResolved id sid))
| op_EscalateBotSession sid : tenant_op id (drop (EscalateBotSession id sid))
| op_SaveDraft tid i : tenant_op id (drop (SaveDraft id tid i))
| op_SubmitTicket tid i : tenant_op id (drop (SubmitTicket id tid i))
| op_TenantTicket tid : tenant_op id (drop (TenantTicket id tid))
| op_TenantTickets f : tenant_op id (drop (TenantTickets id f))
| op_AddUserReply tid body : tenant_op id (drop (AddUserReply id tid body))
| op_CloseTicket tid : tenant_op id (drop (CloseTicket id tid))
| op_ReopenTicket tid : tenant_op id (drop (ReopenTicket id tid))
| op_TicketAudit tid : tenant_op id (drop (TicketAudit id tid)).

(** What both sides call. *)
Inductive shared_op (id : Identity) : program () → Prop :=
| op_ChatAvailable : shared_op id (drop ChatAvailable)
| op_StartChat subject : shared_op id (drop (StartChat id subject))
| op_ChatView sid after : shared_op id (drop (ChatView id sid after))
| op_QueuePosition session : shared_op id (drop (QueuePosition session))
| op_PostChatMessage sid body : shared_op id (drop (PostChatMessage id sid body))
| op_CloseChat sid rating : shared_op id (drop (CloseChat id sid rating))
| op_PublicArticle slug : shared_op id (drop (PublicArticle id slug))
| op_SearchArticles txt page limit : shared_op id (drop (SearchArticles id txt page limit))
| op_ArticleFeedback slug b : shared_op id (drop (ArticleFeedback id slug b))
| op_SuggestArticles txt n : shared_op id (drop (SuggestArticles txt n))
| op_Categories : shared_op id (drop Categories)
| op_AttachFile tid name ct src : shared_op id (drop (AttachFile id tid name ct src))
| op_TicketAttachments tid : shared_op id (drop (TicketAttachments id tid))
| op_OpenAttachment aid : shared_op id (drop (OpenAttachment id aid))
| op_EnterSupportMode reason : shared_op id (drop (EnterSupportMode id reason))
| op_ExitSupportMode : shared_op id (drop (ExitSupportMode id))
| op_SupportModeFor : shared_op id (drop (SupportModeFor id))
| op_RoleOf : shared_op id (drop (RoleOf id)).

(** What agents and administrators call. *)
Inductive staff_op (id : Identity) : program () → Prop :=
| op_Roster : staff_op id (drop Roster)
| op_Queue f : staff_op id (drop (Queue id f))
| op_AgentTicket tid : staff_op id (drop (AgentTicket id tid))
| op_ClaimTicket tid : staff_op id (drop (ClaimTicket id tid))
| op_AssignTicket tid u r : staff_op id (drop (AssignTicket id tid u r))
| op_AgentReply tid body b : staff_op id (drop (AgentReply id tid body b))
| op_AgentTransition tid to r : staff_op id (drop (AgentTransition id tid to r))
| op_Metrics : staff_op id (drop (Metrics id))
| op_AgentChats : staff_op id (drop (AgentChats id))
| op_AcceptChat sid : staff_op id (drop (AcceptChat id sid))
| op_AgentChatView sid after : staff_op id (drop (AgentChatView id sid after))
| op_AgentChatMessage sid body : staff_op id (drop (AgentChatMessage id sid body))
| op_EscalateChat sid t p : staff_op id (drop (EscalateChat id sid t p))
| op_CreateArticle i : staff_op id (drop (CreateArticle id i))
| op_EditArticle aid i : staff_op id (drop (EditArticle id aid i))
| op_TransitionArticle aid to : staff_op id (drop (TransitionArticle id aid to))
| op_StaffArticles l txt page limit : staff_op id (drop (StaffArticles id l txt page limit))
| op_CannedResponses : staff_op id (drop (CannedResponses id))
| op_CreatePersonalCanned i : staff_op id (drop (CreatePersonalCanned id i))
| op_UpdatePersonalCanned cid i : staff_op id (drop (UpdatePersonalCanned id cid i))
| op_DeletePersonalCanned cid : staff_op id (drop (DeletePersonalCanned id cid))
| op_UseCanned cid : staff_op id (drop (UseCanned id cid))
| op_SuggestCanned txt n : staff_op id (drop (SuggestCanned id txt n))
| op_Settings : staff_op id (drop (Settings id))
| op_SetSetting k v : staff_op id (drop (SetSetting id k v))
| op_SaveSLAPolicy p : staff_op id (drop (SaveSLAPolicy id p))
| op_SaveDepartment d : staff_op id (drop (SaveDepartment id d))
| op_Departments : staff_op id (drop (Departments id))
| op_SaveCategory c : staff_op id (drop (SaveCategory id c))
| op_SaveAgent a : staff_op id (drop (SaveAgent id a))
| op_Agents : staff_op id (drop (Agents id))
| op_SaveSharedCanned cid i : staff_op id (drop (SaveSharedCanned id cid i))
| op_SharedCanned : staff_op id (drop (SharedCanned id))
| op_Reports name : staff_op id (drop (Reports id name)).

(** What the scheduler and the start of the server call. *)
Inductive system_op : program () → Prop :=
| op_runSLASweep : system_op (drop runSLASweep)
| op_runAutoClose : system_op (drop runAutoClose)
| op_runChatReaper : system_op (drop runChatReaper)
| op_Bootstrap order : system_op (drop (Bootstrap order)).

Inductive entry_point : program () → Prop :=
| by_tenant id p : tenant_op id p → entry_point p
| by_anyone id p : shared_op id p → entry_point p
| by_staff id p : staff_op id p → entry_point p
| by_system p : system_op p → entry_point p.

Lemma Safe_drop {A} (p : program A) : Safe p → Safe (drop p).
Proof. intros Hp. apply Safe_bind; [done |]. intros a. apply Safe_ret. Qed.

Lemma Safe_entry_point p : entry_point p → Safe p.
Proof. destruct 1 as [id p [] | id p [] | id p [] | p []]; apply Safe_drop; auto with rely. Qed.

(** Every step of every interleaving keeps the promise. *)
Lemma desk_promise s0 (c : sys Desk Env) : reachable entry_point s0 c →
  Forall calm (seen c) → chain promise (seen c).
Proof.
  apply reachable_promise; [apply _ |]. intros p Hp. by apply Safe_entry_point.
Qed.

Lemma later_rtc s0 (c : sys Desk Env) s s' : reachable entry_point s0 c → Forall calm (seen c) →
  later c s s' → rtc promise s s'.
Proof.
  intros Hr Hc (i & j & Hi & Hj & Hle). eapply chain_rtc; [by eapply desk_promise | done..].
Qed.

(** * Tickets *)

Definition edge (from to : string) : Prop := ∃ actor, CanTransition from to actor = true.

Definition same_ticket (t t' : Ticket) : Prop :=
  t_ID t' = t_ID t ∧ t_OrgID t' = t_OrgID t ∧ t_Number t' = t_Number t ∧ t_UserID t' = t_UserID t ∧
  t_BotContext t' = t_BotContext t ∧ t_CreatedAt t' = t_CreatedAt t.

(** [t'] is [t] after [n] writes, each of which moves along an edge of the machine
    or stays where it is. *)
Definition written_times (n : nat) (t t' : Ticket) : Prop :=
  same_ticket t t' ∧ t_Version t' = t_Version t + Z.of_nat n ∧ (n = 0%nat → t' = t) ∧
  nsteps (λ a b, a = b ∨ edge a b) n (t_Status t) (t_Status t').

Lemma moved_times t t' : rtc ticket_moved t t' → ∃ n, written_times n t t'.
Proof.
  induction 1 as [t | t t1 t2 Hm _ (n & Hs & Hv & H0 & Hn)].
  { exists 0%nat. split; [done |]. split; [lia |]. split; [done | constructor]. }
  destruct Hm as [-> | (E1 & E2 & E3 & E4 & E5 & E6 & E7 & E8)]; [by exists n |].
  exists (S n). split; [unfold same_ticket in *; naive_solver congruence |]. split; [lia |]. split; [done |].
  econstructor; [| exact Hn]. destruct E8 as [E8 | E8]; [by left | by right].
Qed.


(** * Articles *)

Definition same_article_row (a a' : Article) : Prop :=
  ar_ID a' = ar_ID a ∧ ar_OrgID a' = ar_OrgID a ∧ ar_AuthorID a' = ar_AuthorID a ∧
  ar_CreatedAt a' = ar_CreatedAt a.

Definition edited_times (n : nat) (a a' : Article) : Prop :=
  same_article_row a a' ∧ ar_Version a' = ar_Version a + Z.of_nat n ∧
  nsteps (λ x y, x = y ∨ CanPublishArticle x y = true) n (ar_Status a) (ar_Status a').

Lemma article_times a a' : rtc article_moved a a' → ∃ n, edited_times n a a'.
Proof.
  induction 1 as [a | a a1 a2 Hm _ (n & Hs & Hv & Hn)].
  { exists 0%nat. split; [done |]. split; [lia | constructor]. }
  destruct Hm as (E1 & E2 & E3 & E4 & [[E5 E6] | [E5 E6]]).
  - exists n. split; [unfold same_article_row in *; naive_solver congruence |]. split; [lia |].
    by rewrite <-E6.
  - exists (S n). split; [unfold same_article_row in *; naive_solver congruence |]. split; [lia |].
    econstructor; [| exact Hn]. destruct E6; [by left | by right].
Qed.

(** The same of knowledge base articles: a new one is a draft, and reviews,
    publications and archivings follow the table, one version per write; only the
    counters of views and votes change without a version. *)
Theorem article_lifecycle s0 (c : sys Desk Env) s s' :
  reachable entry_point s0 c → Forall calm (seen c) → later c s s' →
  evolves (λ a a', ∃ n, edited_times n a a') (λ a', ∃ a n, article_born a ∧ edited_times n a a')
    (d_articles s) (d_articles s').
Proof.
  intros Hr Hc Hl. destruct (evolves_rtc promise d_articles article_moved article_born) with (s := s) (s' := s')
    as [H1 H2]; [by intros ? ? [] | by eapply later_rtc |].
  split.
  - intros i a Hi. destruct (H1 i a Hi) as (a' & Hi' & Hm%article_times). by exists a'.
  - intros i a' Hi Ha. destruct (H2 i a' Hi Ha) as (a & Hb & (n & Hn)%article_times). by exists a, n.
Qed.

(** * Logs *)

(** No entry point changes or removes an entry of the audit trail, a message of
    a ticket or of a chat, an assignment or the record of an attachment; they are
    only added at the end. *)
Theorem desk_logs_append_only s0 (c : sys Desk Env) s s' :
  reachable entry_point s0 c → Forall calm (seen c) → later c s s' →
  d_audits s `prefix_of` d_audits s' ∧ d_messages s `prefix_of` d_messages s' ∧
  d_chatMessages s `prefix_of` d_chatMessages s' ∧ d_assignments s `prefix_of` d_assignments s' ∧
  d_attachments s `prefix_of` d_attachments s'.
Proof.
  intros Hr Hc Hl. assert (rtc promise s s') as Hrtc by by eapply later_rtc. clear Hl.
  induction Hrtc as [s | s s1 s2 [_ _ _ _ P1 P2 P3 P4 P5] _ (I1 & I2 & I3 & I4 & I5)]; [done |].
  repeat split; by etrans.
Qed.
End life.

(** * A draft is submitted while an article is published *)

#[local] Instance sampleParams : Params := plainParams true.

Definition ada : Identity := zeroIdentity {{ id_UserID := 7; id_OrgID := 1; id_Authenticated := true }}.

Definition root : Identity :=
  zeroIdentity {{ id_UserID := 2; id_Authenticated := true; id_GlobalAdmin := true; id_SessionID := "s" }}.

Definition ada_draft : Ticket :=
  mkTicket "tkt_1" 1 "TKT-1" "" "" "" PriorityNormal StateDraft 7 0 "" "" 0 0 0 50 50 1.

Definition reviewed : Article :=
  mkArticle "kba_1" 0 "mail" "Mail" "Set the record." "" "" ArticleReview 2 0 0 0 0 50 50 2.

Definition sample_desk : Desk :=
  zeroDesk {{ d_tickets := [ada_draft]; d_articles := [reviewed]; d_limits := deskLimits ∅;
    d_mode := {["s" := mkSupportMode "s" 2 "" "" 0 1000]} }}.

Definition noonEnv (n : nat) : Env :=
  mkEnv (100000000000 + Z.of_nat n) (itoa (Z.of_nat n)) None false None None None.

Definition submit : program () :=
  drop (SubmitTicket ada "tkt_1" (mkTicketInput "Mail" "It bounces." "" "")).

Definition publish : program () := drop (TransitionArticle root "kba_1" "published").

Definition sample_moves : list (@Move Desk Env) :=
  [Begin submit; Begin publish] ++ mjoin ((λ n, [Go 1 (noonEnv n); Go 0 (noonEnv n)]) <$> seq 0 30).

Definition sample_run : sys Desk Env := foldl play (Sys sample_desk [] []) sample_moves.

Lemma sample_reachable : reachable entry_point sample_desk sample_run.
Proof.
  apply play_reachable; [| constructor]. intros p Hp.
  assert (p = submit ∨ p = publish) as [-> | ->].
  { apply elem_of_app in Hp as [Hp | Hp]; [set_solver |].
    apply list_elem_of_join in Hp as (l & Hp & Hl). apply list_elem_of_fmap in Hl as (n & -> & _).
    set_solver. }
  - eapply by_tenant, op_SubmitTicket.
  - eapply by_staff, op_TransitionArticle.
Qed.

Lemma sample_calm : Forall calm (seen sample_run).
Proof. apply (bool_decide_unpack _). by vm_compute. Qed.

Lemma sample_later : later sample_run sample_desk (now_at sample_run).
Proof. exists 0%nat, (length (past sample_run)). split; [done |]. split; [by vm_compute | lia]. Qed.

Lemma sample_outcome : t_Status <$> d_tickets (now_at sample_run) = [StateOpen] ∧
  ar_Status <$> d_articles (now_at sample_run) = [ArticlePublished] ∧
  au_Action <$> d_audits (now_at sample_run) = ["ticket.submit"; "kb.transition"].
Proof. by vm_compute. Qed.


Lemma article_lifecycle_witness :
  ∃ a', d_articles (now_at sample_run) !! 0%nat = Some a' ∧ ar_Status a' = ArticlePublished ∧
    ∃ n, edited_times n reviewed a'.
Proof.
  destruct (article_lifecycle _ _ _ _ sample_reachable sample_calm sample_later) as [H1 _].
  destruct (H1 0%nat reviewed eq_refl) as (a' & Ha & Hw). exists a'. split; [done |]. split; [| done].
  destruct sample_outcome as [_ [Ho _]]. apply (f_equal (.!! 0%nat)) in Ho.
  rewrite list_lookup_fmap, Ha in Ho. by injection Ho.
Defined.

Lemma desk_logs_append_only_witness :
  [] `prefix_of` d_audits (now_at sample_run) ∧ length (d_audits (now_at sample_run)) = 2%nat.
Proof.
  split; [exact (proj1 (desk_logs_append_only _ _ _ _ sample_reachable sample_calm sample_later)) |].
  by vm_compute.
Defined.

(** * Ticket numbers *)

(** Two customers escalate at the same time: both read the counter before either
    writes it.  Without snapshots they get one number, with snapshots the second
    tries again. *)
Definition hosted (user : Z) (sid : string) : Identity :=
  zeroIdentity {{ id_UserID := user; id_OrgID := user; id_Authenticated := true }}.

Definition two_sessions : Desk :=
  zeroDesk {{ d_bots := [mkBotSession "bot_7" 7 7 0 false false "" "" PriorityNormal 50 50;
                         mkBotSession "bot_8" 8 8 0 false false "" "" PriorityNormal 50 50];
              d_counters := [("ticket", 41)] }}.

Definition escalating (P : Params) (user : Z) (sid : string) : program () :=
  drop (EscalateBotSession (hosted user sid) sid).

Definition both (snapshots : bool) : list string :=
  let P := plainParams snapshots in
  t_Number <$> d_tickets (now_at (foldl play (Sys two_sessions [] [])
    ([Begin (escalating P 7 "bot_7"); Begin (escalating P 8 "bot_8")] ++
     mjoin ((λ n, [Go 0 (noonEnv (2 * n)); Go 1 (noonEnv (2 * n + 1))]) <$> seq 0 40)))).

Example ticket_number_twice : both false = ["TKT-000042"; "TKT-000042"] ∧
  both true = ["TKT-000042"; "TKT-000043"].
Proof. by vm_compute. Qed.
