(* ===== verification/DeskTenant.v ===== *)
(** What a customer of the support desk can change and see.

    The theorems are about the sections one operation runs ([own_steps]), whatever
    anyone else does in between and whichever statements fail. *)
From stdpp Require Import prelude strings list gmap.
From Stdlib Require Import ZArith Lia.
From S2P Require Import Prelude Errors Threads Sql RateLimit Text DeskModels DeskStates Desk.
From S2P Require Import DeskStore DeskBot DeskService DeskTickets DeskChat DeskKB DeskFiles Rely.
From S2P Require Import DeskPromise DeskOps DeskLife.

Section tenant.
Context `{!Params} (id : Identity).

(** * Changes within one organization *)

Definition added {R} (P : R → Prop) (l l' : list R) : Prop := ∃ k, l' = l ++ k ∧ Forall P k.

(** Only rows of the caller's organization, and help sessions of the caller, are
    changed or added; every table that is not named here is untouched. *)
Record within (s s' : Desk) : Prop := {
  wi_tickets : evolves (λ r r', r' = r ∨ t_OrgID r = id_OrgID id ∧ t_OrgID r' = id_OrgID id)
    (λ r, t_OrgID r = id_OrgID id) (d_tickets s) (d_tickets s');
  wi_bots : evolves (λ r r', r' = r ∨ bs_UserID r = id_UserID id ∧ bs_UserID r' = id_UserID id)
    (λ r, bs_UserID r = id_UserID id) (d_bots s) (d_bots s');
  wi_messages : added (λ m, tm_OrgID m = id_OrgID id) (d_messages s) (d_messages s');
  wi_audits : added (λ e, au_OrgID e = id_OrgID id) (d_audits s) (d_audits s');
  wi_rest : books (s {{ d_tickets := d_tickets s'; d_bots := d_bots s';
    d_messages := d_messages s'; d_audits := d_audits s' }}) s' }.

Lemma added_nil {R} (P : R → Prop) l : added P l l.
Proof. exists []. by rewrite app_nil_r. Qed.

Lemma added_one {R} (P : R → Prop) l r : P r → added P l (l ++ [r]).
Proof. exists [r]. auto. Qed.

#[export] Instance within_books : Books within.
Proof.
  intros s s' ->. split; cbn; try apply added_nil; try (apply evolves_refl; by left). done.
Qed.

Notation SafeT := (safe (λ _, True) within).
Notation YieldsT := (yields (λ _, True) within).

Lemma SafeT_InsertTicket t : t_OrgID t = id_OrgID id → SafeT (InsertTicket t).
Proof.
  intros Ht. apply Safe_execute. intros s. destruct (books_refl (G := within) s).
  split; try done. apply evolves_insert; [by left | done].
Qed.

Lemma SafeT_UpdateTicket t : t_OrgID t = id_OrgID id → SafeT (UpdateTicket t).
Proof.
  intros Ht. apply Safe_wrapped, Safe_bindD; [| intros [n |]; [destruct (n =? 0) |]; apply Safe_ret].
  apply Safe_exec. intros s. destruct (books_refl (G := within) s).
  split; try done. apply evolves_update; [by left |]. intros r _ Hr. right.
  apply andb_true_iff in Hr as [[_ Hr%Z.eqb_eq]%andb_true_iff _]. by rewrite <-Ht.
Qed.

Lemma SafeT_InsertMessage m : tm_OrgID m = id_OrgID id → SafeT (InsertMessage m).
Proof.
  intros Hm. apply Safe_execute. intros s. destruct (books_refl (G := within) s).
  split; try done. by apply added_one.
Qed.

Lemma SafeT_InsertBotSession b : bs_UserID b = id_UserID id → SafeT (InsertBotSession b).
Proof.
  intros Hb. apply Safe_execute. intros s. destruct (books_refl (G := within) s).
  split; try done. apply evolves_insert; [by left | done].
Qed.

Lemma SafeT_UpdateBotSession b : bs_UserID b = id_UserID id → SafeT (UpdateBotSession b).
Proof.
  intros Hb. apply Safe_execute. intros s. destruct (books_refl (G := within) s).
  split; try done. apply evolves_update; [by left |]. intros r _ Hr. right.
  apply andb_true_iff in Hr as [_ Hr%Z.eqb_eq]. by rewrite <-Hb.
Qed.

Lemma SafeT_audit e : au_OrgID e = 0 ∨ au_OrgID e = id_OrgID id → SafeT (audit id e).
Proof.
  intros He. unfold audit. safely. apply Safe_execute. intros s. destruct (books_refl (G := within) s).
  split; try done. apply added_one.
  change ((if au_OrgID e =? 0 then id_OrgID id else au_OrgID e) = id_OrgID id).
  destruct (Z.eqb_spec (au_OrgID e) 0); [done | by destruct He].
Qed.

Hint Resolve SafeT_InsertTicket SafeT_UpdateTicket SafeT_InsertMessage SafeT_InsertBotSession
  SafeT_UpdateBotSession SafeT_audit : rely.
Hint Extern 1 (_ = _ ∨ _ = _) => first [by left | by right] : rely.

Lemma stamped_org t from to at_ : t_OrgID (stamped t from to at_) = t_OrgID t.
Proof. unfold stamped. by repeat case_match. Qed.

(** * The operations stay within *)

Lemma YieldsT_rowOr {R} (P : R → Prop) entity action (f : Desk → list R) :
  (∀ s r, r ∈ f s → P r) → YieldsT (rowOr entity action (queryRow f)) (λ r _, P r).
Proof.
  intros HP h s h' e Hs HJ. split; [apply books_refl |]. destruct (e_fault e) as [err |]; cbn.
  - by destruct err.
  - destruct (f s) as [| r l] eqn:E; cbn; [done |]. apply (HP s). rewrite E. left.
Qed.

Lemma YieldsT_GetTicket i : YieldsT (GetTicket (id_OrgID id) i) (λ t _, t_OrgID t = id_OrgID id).
Proof. apply YieldsT_rowOr. intros s r [Hr Hp]%elem_of_filter_bool. lia. Qed.

Lemma YieldsT_ownBotSession i : YieldsT (ownBotSession id i) (λ b _, bs_UserID b = id_UserID id).
Proof.
  intros h. unfold ownBotSession. apply wp_bind. eapply wp_mono.
  { apply (YieldsT_rowOr (λ b, bs_UserID b = id_UserID id)). intros s r [Hr Hp]%elem_of_filter_bool. lia. }
  intros [b | e] h' Hs Hb; [| done]. by destruct (negb _).
Qed.

(** The ticket is the organization's; the caller wrote it or administers the
    organization; the conversation has no internal note. *)
Definition visible (r : Ticket * list TicketMessage) : Prop :=
  t_OrgID r.1 = id_OrgID id ∧ (t_UserID r.1 = id_UserID id ∨ id_OrgAdmin id = true) ∧
  Forall (λ m, tm_OrgID m = id_OrgID id ∧ tm_TicketID m = t_ID r.1 ∧ tm_Internal m = false) r.2.

Lemma YieldsT_Messages org i : YieldsT (Messages org i false)
  (λ ms _, Forall (λ m, tm_OrgID m = org ∧ tm_TicketID m = i ∧ tm_Internal m = false) ms).
Proof.
  intros h s h' e Hs HJ. split; [apply books_refl |]. destruct (e_fault e); cbn -[ORDER_BY]; [done |].
  apply Forall_forall. intros m Hm%elem_of_ORDER_BY. apply elem_of_filter_bool in Hm as [_ Hm].
  cbn in Hm. apply andb_true_iff in Hm as [[->%seqb_eq ?]%andb_true_iff Hi%negb_true_iff].
  repeat split; [lia | done].
Qed.

Lemma YieldsT_TenantTicket i : YieldsT (TenantTicket id i) (λ r _, visible r).
Proof.
  intros h. unfold TenantTicket. destruct (_ || _); [done |].
  apply wp_bind. eapply wp_mono; [apply YieldsT_GetTicket |]. intros [t | e] h1 H1 Ho; [| done].
  destruct (_ && _) eqn:Ev; [done |].
  apply wp_bind. eapply wp_mono; [apply YieldsT_Messages |]. intros [ms | e] h2 H2 Hm; [| done].
  split; [done |]. split; [| done]. destruct (id_OrgAdmin id); [by right | left]. cbn. lia.
Qed.

Lemma YieldsT_applyTransition t to actor reason : t_OrgID t = id_OrgID id →
  YieldsT (applyTransition id t to actor reason) (λ t' _, t_OrgID t' = id_OrgID id).
Proof.
  intros Ht h. unfold applyTransition. destruct (negb _); [done |].
  apply wp_bind. eapply wp_mono; [apply Safe_nowUnix |]. intros at_ h1 _ _.
  assert (t_OrgID (stamped t (t_Status t) to at_) = id_OrgID id) as Hs by by rewrite stamped_org.
  apply wp_bind. eapply wp_mono; [by apply SafeT_UpdateTicket |]. intros [[] | e] h2 _ _; [| done].
  apply wp_bind. eapply wp_mono; [apply SafeT_audit; by right |]. intros [[] | e] h3 _ _; [| done].
  apply wp_bind. eapply wp_mono with (Q := λ _ _, True); [| by intros]. repeat case_match; try apply Safe_notify. done.
Qed.

(** The step yields something, the rest may use it. *)
Ltac obtaining Y := eapply safe_at_yields; [apply Y | intros ? ? ? ?].

Lemma SafeT_at {R} (p : program R) h : SafeT p → safe_at (λ _, True) within p h.
Proof. intros Hp. apply Hp. Qed.

Hint Resolve SafeT_at : rely.

Lemma SafeT_applyTransition t to actor reason : t_OrgID t = id_OrgID id →
  SafeT (applyTransition id t to actor reason).
Proof. intros Ht. by eapply yields_safe, YieldsT_applyTransition. Qed.

Hint Resolve SafeT_applyTransition : rely.

Lemma AskBot_user b txt : bs_UserID (AskBot b txt).1 = bs_UserID b.
Proof. unfold AskBot. by destruct (MatchBot _). Qed.

Lemma SafeT_BotMessage i txt : SafeT (BotMessage id i txt).
Proof.
  unfold BotMessage. do 2 (apply Safe_bindD; [auto with rely | intros _]). intros h.
  obtaining YieldsT_ownBotSession. pose proof (AskBot_user a txt) as Hu.
  destruct (AskBot a txt) as [b reply]. cbn in Hu. safely. apply SafeT_UpdateBotSession.
  change (bs_UserID b = id_UserID id). congruence.
Qed.

Lemma SafeT_MarkBotResolved i : SafeT (MarkBotResolved id i).
Proof. intros h. unfold MarkBotResolved. obtaining YieldsT_ownBotSession. safely. Qed.

Lemma SafeT_EscalateBotSession i : SafeT (EscalateBotSession id i).
Proof.
  unfold EscalateBotSession. apply Safe_bindD; [auto with rely | intros _]. intros h.
  obtaining YieldsT_ownBotSession. safely.
Qed.

Lemma SafeT_SaveDraft i n : SafeT (SaveDraft id i n).
Proof.
  unfold SaveDraft. apply Safe_bindD; [auto with rely | intros _]. intros h.
  obtaining YieldsT_GetTicket. safely.
Qed.

Lemma SafeT_SubmitTicket i n : SafeT (SubmitTicket id i n).
Proof.
  unfold SubmitTicket. do 2 (apply Safe_bindD; [auto with rely | intros _]). intros h.
  obtaining YieldsT_GetTicket. safely.
Qed.

Lemma SafeT_AddUserReply i b : SafeT (AddUserReply id i b).
Proof.
  intros h. unfold AddUserReply. obtaining YieldsT_TenantTicket. destruct a as [t ms].
  destruct H1 as [Ho _]. cbn in Ho. safely.
Qed.

Lemma SafeT_CloseTicket i : SafeT (CloseTicket id i).
Proof.
  intros h. unfold CloseTicket. obtaining YieldsT_TenantTicket. destruct a as [t ms].
  destruct H1 as [Ho _]. cbn in Ho. safely.
Qed.

Lemma SafeT_ReopenTicket i : SafeT (ReopenTicket id i).
Proof.
  intros h. unfold ReopenTicket. obtaining YieldsT_TenantTicket. destruct a as [t ms].
  destruct H1 as [Ho _]. cbn in Ho. obtaining YieldsT_applyTransition; [done |]. safely.
Qed.

Lemma SafeT_StartBotSession : SafeT (StartBotSession id).
Proof. unfold StartBotSession. safely. Qed.

Hint Resolve SafeT_StartBotSession SafeT_BotMessage SafeT_MarkBotResolved SafeT_EscalateBotSession
  SafeT_SaveDraft SafeT_SubmitTicket SafeT_AddUserReply SafeT_CloseTicket SafeT_ReopenTicket : rely.

Lemma SafeT_tenant_op p : tenant_op id p → SafeT p.
Proof. destruct 1; (apply Safe_bind; [auto with rely | intros; apply Safe_ret]). Qed.

Lemma buildTicketWhere_scope f t : buildTicketWhere f t = true →
  (0 < tf_OrgID f → t_OrgID t = tf_OrgID f) ∧ (0 < tf_UserID f → t_UserID t = tf_UserID f).
Proof.
  intros Hw. do 4 apply andb_true_iff in Hw as [Hw _]. apply andb_true_iff in Hw as [H1 H2].
  split; intros Hp; apply Z.ltb_lt in Hp; [rewrite Hp in H1 | rewrite Hp in H2]; cbn in H1, H2; by apply Z.eqb_eq.
Qed.

Lemma YieldsT_TenantTickets f : 0 < id_OrgID id → 0 < id_UserID id →
  YieldsT (TenantTickets id f) (λ r _,
    Forall (λ t, t_OrgID t = id_OrgID id ∧ (t_UserID t = id_UserID id ∨ id_OrgAdmin id = true)) r.1).
Proof.
  intros Ho Hu h. unfold TenantTickets. destruct (_ || _); [done |]. unfold ListTickets.
  apply wp_bind. eapply wp_mono; [apply Safe_queryCount |]. intros [n | e] h1 _ _; [| done].
  apply wp_bind. intros s h' e Hs _. split; [apply books_refl |].
  destruct (e_fault e); cbn -[ORDER_BY LIMIT buildTicketWhere]; [done |].
  apply Forall_forall. intros t Ht. unfold LIMIT in Ht.
  apply elem_of_take in Ht as (k & Hk & _). rewrite lookup_drop in Hk.
  apply list_elem_of_lookup_2 in Hk. apply elem_of_ORDER_BY, elem_of_filter_bool in Hk as [_ Hw].
  apply buildTicketWhere_scope in Hw as [H1 H2]. split; [by apply H1 |].
  destruct (id_OrgAdmin id); [by right | left; by apply H2].
Qed.
End tenant.

Section theorems.
Context `{!Params} (id : Identity).


(** C8: a customer is shown a ticket of the own organization, and only the author
    and the organization's administrators are; the conversation that comes with it
    is that ticket's and holds no internal note of an agent.  The listing obeys the
    same rule. *)
Theorem tenant_sees_own :
  (∀ i h l r h', own_steps (TenantTicket id i) h l (Ok r) h' → visible id r) ∧
  (0 < id_OrgID id → 0 < id_UserID id → ∀ f h l ts pg h', own_steps (TenantTickets id f) h l (Ok (ts, pg)) h' →
    Forall (λ t, t_OrgID t = id_OrgID id ∧ (t_UserID t = id_UserID id ∨ id_OrgAdmin id = true)) ts).
Proof.
  split.
  - intros i h l r h' Ho. by apply (own_yields (within id) _ _ (YieldsT_TenantTicket id i)) in Ho.
  - intros H1 H2 f h l ts pg h' Ho. by apply (own_yields (within id) _ _ (YieldsT_TenantTickets id f H1 H2)) in Ho.
Qed.
End theorems.

(** * A customer submits a draft *)

#[local] Instance tenantParams : Params := plainParams true.


Definition chatty_desk : Desk :=
  sample_desk {{ d_messages := [mkTicketMessage "msg_1" "tkt_1" 1 2 ActorAgent "Bob" "Looking." false 60;
    mkTicketMessage "msg_2" "tkt_1" 1 2 ActorAgent "Bob" "Spammer?" true 61] }}.

Definition look : D (Ticket * list TicketMessage) := TenantTicket ada "tkt_1".

Lemma tenant_sees_own_witness :
  ∃ r, (own_run noonEnv look 0 chatty_desk []).1.2 = Ok r ∧
    tm_Body <$> r.2 = ["Looking."] ∧ visible ada r.
Proof.
  destruct (own_run noonEnv look 0 chatty_desk []).1.2 as [r | e] eqn:E; [| by vm_compute in E].
  exists r. split; [done |]. split; [by vm_compute in E; injection E as <- |].
  destruct (tenant_sees_own ada) as [Hv _].
  eapply (Hv "tkt_1" [chatty_desk] (own_run noonEnv look 0 chatty_desk []).1.1).
  pose proof (own_run_steps noonEnv look 0 chatty_desk []) as Ho. rewrite E in Ho. exact Ho.
Defined.

(** Without an organization the caller reads the attachment of any ticket. *)
Definition filed_desk : Desk :=
  sample_desk {{ d_attachments := [mkAttachment "atr_1" "tkt_1" 1 "" "log.txt" "att_1.txt" "text/plain" 4 7 60];
    d_files := {["/srv/att/att_1.txt" := "data"]} }}.

Definition nobody : Identity := zeroIdentity {{ id_UserID := 99; id_Authenticated := true }}.

Example attachment_without_organization :
  match (own_run noonEnv (OpenAttachment nobody "atr_1") 0 filed_desk []).1.2 with
  | Ok (_, data) => data = "data"
  | Err _ => False
  end ∧
  is_ok (own_run noonEnv (TenantTicket nobody "tkt_1") 0 filed_desk []).1.2 = false.
Proof. by vm_compute. Qed.
