(* ===== verification/Token.v ===== *)
(** API tokens: [src/src/security/token.go].

    SHA-256 is the class [Digest] (lowercase hexadecimal); [draws] are the numbers
    below 62 that [rand.Int] answers, one per character. *)
From stdpp Require Import prelude strings list.
From Stdlib Require Import ZArith Lia Ascii.
From S2P Require Import Prelude Errors.

Class Digest := { sha256hex : string → string }.

Definition PrefixAdmin : string := "adm_".
Definition PrefixUser : string := "usr_".
Definition PrefixOrg : string := "org_".
Definition PrefixAdminAgent : string := "adm_agt_".
Definition PrefixUserAgent : string := "usr_agt_".
Definition PrefixOrgAgent : string := "org_agt_".

Definition TokenRandomLen : nat := 32.
Definition TokenDisplayLen : nat := 8.

Definition tokenAlphabet : string := "abcdefghijklmnopqrstuvwxyzABCDEFGHIJKLMNOPQRSTUVWXYZ0123456789".

Definition ErrUnknownTokenPrefix : error := Plain "security: unknown token prefix".
Definition ErrInvalidTokenFormat : error := Plain "security: invalid token format".

Definition TokenPrefixes : list string :=
  [PrefixAdminAgent; PrefixUserAgent; PrefixOrgAgent; PrefixAdmin; PrefixUser; PrefixOrg].

Definition IsValidTokenPrefix (prefix : string) : bool := existsb (λ p, p =s prefix) TokenPrefixes.

Definition alnum (c : ascii) : bool :=
  let n := Z.of_N (N_of_ascii c) in
  ((48 <=? n) && (n <=? 57)) || ((97 <=? n) && (n <=? 122)) || ((65 <=? n) && (n <=? 90)).

Fixpoint all_alnum (s : string) : bool :=
  match s with EmptyString => true | String c s => alnum c && all_alnum s end.

Definition isAlphanumeric (s : string) : bool := all_alnum s && (0 <? slen s).

Definition alphabetChar (idx : Z) : ascii := default "a"%char (String.get (Z.to_nat idx) tokenAlphabet).

Fixpoint randomChars (draws : nat → Z) (i n : nat) : string :=
  match n with O => EmptyString | S n => String (alphabetChar (draws i)) (randomChars draws (S i) n) end.

Definition randomAlphanumeric (draws : nat → Z) (n : Z) : Res string :=
  if n <=? 0 then Err (Plain ("security: token length must be positive, got " +:+ itoa n))
  else Ok (randomChars draws 0 (Z.to_nat n)).

Section tokens.
Context `{!Digest}.

Definition HashToken (plaintext : string) : string := sha256hex plaintext.

Definition GenerateToken (draws : nat → Z) (prefix : string) : Res (string * string) :=
  if negb (IsValidTokenPrefix prefix) then Err ErrUnknownTokenPrefix else
  match randomAlphanumeric draws (Z.of_nat TokenRandomLen) with
  | Err e => Err e
  | Ok body => let plaintext := prefix +:+ body in Ok (plaintext, HashToken plaintext)
  end.

(** The digests of both sides are compared. *)
Definition ConstantTimeEqualString (a b : string) : bool := sha256hex a =s sha256hex b.
End tokens.

Definition TokenDisplayPrefix (plaintext : string) : string :=
  if slen plaintext <=? Z.of_nat TokenDisplayLen then plaintext
  else String.substring 0 TokenDisplayLen plaintext.

(** [strings.TrimPrefix] of a prefix that is there. *)
Definition without_prefix (p s : string) : string :=
  String.substring (String.length p) (String.length s - String.length p) s.

Fixpoint parseLoop (prefixes : list string) (plaintext : string) : Res (string * string) :=
  match prefixes with
  | [] => Err ErrUnknownTokenPrefix
  | p :: rest =>
      if negb (HasPrefix plaintext p) then parseLoop rest plaintext else
      let body := without_prefix p plaintext in
      if negb (slen body =? Z.of_nat TokenRandomLen) || negb (isAlphanumeric body)
      then Err ErrInvalidTokenFormat
      else Ok (p, body)
  end.

Definition ParseToken (plaintext : string) : Res (string * string) := parseLoop TokenPrefixes plaintext.

(** * Properties *)

Lemma HasPrefix_app p s : HasPrefix (p +:+ s) p = true.
Proof.
  unfold HasPrefix. induction p as [| c p IH]; [by destruct s |].
  rewrite string_app_cons. cbn. by destruct (ascii_dec c c).
Qed.

Lemma HasPrefix_spec s p : HasPrefix s p = true → ∃ t, s = p +:+ t.
Proof.
  revert s. induction p as [| c p IH]; intros s Hp; [by exists s |].
  destruct s as [| d s]; [done |]. cbn in Hp. destruct (ascii_dec c d) as [-> |]; [| done].
  destruct (IH s Hp) as [t ->]. by exists t.
Qed.

Lemma substring_all s : String.substring 0 (String.length s) s = s.
Proof. induction s as [| c s IH]; cbn; [done | by rewrite IH]. Qed.

Lemma without_prefix_app p s : without_prefix p (p +:+ s) = s.
Proof.
  unfold without_prefix. induction p as [| c p IH]; [rewrite string_app_nil; cbn; rewrite Nat.sub_0_r; apply substring_all |].
  rewrite string_app_cons. cbn. exact IH.
Qed.

Lemma alphabetChar_alnum i : alnum (alphabetChar i) = true.
Proof.
  unfold alphabetChar. assert (∀ k, alnum (default "a"%char (String.get k tokenAlphabet)) = true) as Hk; [| done].
  intros k. destruct (decide (k < 62)%nat) as [Hlt | Hge].
  - do 62 (destruct k as [| k]; [done |]). lia.
  - assert (String.get k tokenAlphabet = None) as ->; [| done].
    do 62 (destruct k as [| k]; [lia |]). done.
Qed.

Lemma randomChars_spec draws i n :
  String.length (randomChars draws i n) = n ∧ all_alnum (randomChars draws i n) = true.
Proof.
  revert i. induction n as [| n IH]; intros i; [done |]. destruct (IH (S i)) as [E1 E2].
  cbn [randomChars String.length all_alnum]. by rewrite E1, E2, alphabetChar_alnum.
Qed.

(** A body has no underscore, so it never completes a longer prefix. *)
Lemma no_underscore p s b : all_alnum b = true → b = p +:+ s → all_alnum p = true.
Proof.
  revert b. induction p as [| c p IH]; intros b Hb ->; [done |]. rewrite string_app_cons in Hb. cbn in *.
  apply andb_prop in Hb as [-> Hb]. by eapply IH.
Qed.

Lemma parse_prefix p b : IsValidTokenPrefix p = true → String.length b = TokenRandomLen →
  all_alnum b = true → ParseToken (p +:+ b) = Ok (p, b).
Proof.
  intros Hp Hl Hb.
  assert (∀ rest, parseLoop (p :: rest) (p +:+ b) = Ok (p, b)) as Hhit.
  { intros rest. cbn. rewrite HasPrefix_app, without_prefix_app. cbn.
    unfold isAlphanumeric, slen. by rewrite Hb, Hl. }
  assert (∀ pre, all_alnum pre = false → HasPrefix b pre = false) as Hno.
  { intros pre Hpre. destruct (HasPrefix b pre) eqn:E; [| done].
    apply HasPrefix_spec in E as [t E]. pose proof (no_underscore _ _ _ Hb E). congruence. }
  unfold IsValidTokenPrefix in Hp. apply existsb_exists in Hp as (q & Hq & <-%seqb_eq).
  unfold ParseToken. repeat destruct Hq as [<- | Hq]; [.. | done].
  all: unfold TokenPrefixes; try apply Hhit.
  all: repeat match goal with
       | |- parseLoop (?x :: _) (?x +:+ _) = _ => apply Hhit
       | |- parseLoop (?x :: ?r) ?t = _ =>
           change (parseLoop (x :: r) t) with (if negb (HasPrefix t x) then parseLoop r t else
             let body := without_prefix x t in
             if negb (slen body =? Z.of_nat TokenRandomLen) || negb (isAlphanumeric body)
             then Err ErrInvalidTokenFormat else Ok (x, body));
           replace (HasPrefix t x) with false by (first [done | symmetry; exact (Hno "agt_" eq_refl)]);
           cbn [negb]
       end.
Qed.

(** A token parses to its prefix and a body of 32 letters and digits, and is their
    concatenation. *)
Lemma ParseToken_shape t p b : ParseToken t = Ok (p, b) →
  t = p +:+ b ∧ p ∈ TokenPrefixes ∧ String.length b = TokenRandomLen ∧ all_alnum b = true.
Proof.
  unfold ParseToken.
  assert (∀ l', l' ⊆ TokenPrefixes → parseLoop l' t = Ok (p, b) →
    t = p +:+ b ∧ p ∈ TokenPrefixes ∧ String.length b = TokenRandomLen ∧ all_alnum b = true) as Hgen; [| by apply Hgen].
  induction l' as [| q l' IH]; intros Hsub; cbn; [done |].
  destruct (HasPrefix t q) eqn:E; cbn; [| apply IH; set_solver].
  apply HasPrefix_spec in E as [u ->]. rewrite without_prefix_app. unfold isAlphanumeric.
  destruct (slen u =? Z.of_nat TokenRandomLen) eqn:E1; [| done].
  destruct (all_alnum u) eqn:E2; [| done]. cbn. destruct (0 <? slen u); [| done]. intros [= <- <-].
  repeat split; [set_solver | unfold slen in E1; lia | done].
Qed.

(** A generated token parses to the prefix it was generated for, whatever the
    random numbers, for each of the six prefixes (two of which begin alike), and
    its stored hash is the one looked up when the token is presented. *)
Theorem GenerateToken_ParseToken `{!Digest} draws prefix :
  IsValidTokenPrefix prefix = true →
  ∃ body, GenerateToken draws prefix = Ok (prefix +:+ body, HashToken (prefix +:+ body)) ∧
    ParseToken (prefix +:+ body) = Ok (prefix, body).
Proof.
  intros Hp. unfold GenerateToken, randomAlphanumeric. rewrite Hp. cbn [negb].
  destruct (randomChars_spec draws 0 TokenRandomLen) as [Hl Hb].
  eexists. split; [reflexivity |]. by apply parse_prefix.
Qed.

#[local] Instance plainDigest : Digest := {| sha256hex := λ s, s |}.

Lemma GenerateToken_ParseToken_witness :
  ∃ body, GenerateToken (λ i, Z.of_nat i) "adm_" = Ok ("adm_" +:+ body, HashToken ("adm_" +:+ body)) ∧
    ParseToken ("adm_" +:+ body) = Ok ("adm_", body).
Proof. by apply (GenerateToken_ParseToken (λ i, Z.of_nat i) "adm_"). Defined.

(** Neither a short body nor an unknown prefix. *)
Example malformed_tokens :
  ParseToken "adm_agt_short" = Err ErrInvalidTokenFormat ∧
  ParseToken "bot_aaaaaaaaaaaaaaaaaaaaaaaaaaaaaaaa" = Err ErrUnknownTokenPrefix.
Proof. split; reflexivity. Qed.
