(* ===== verification/NodeValidate.v ===== *)
(** What a node may report: [src/src/nodes/validate.go], with the errors of
    [errors.go] and the cleaning of text of [nodes.go]. *)
From stdpp Require Import prelude strings list sorting.
From Stdlib Require Import ZArith Lia Ascii.
From coqutil Require Export Datatypes.RecordSetters.
From S2P Require Import Prelude Errors Text.
Export DoubleBraceUpdate.

(** * errors.go *)

Definition ErrNodeNotFound : error := New CodeNotFound 0 "Node not found".
Definition ErrNodeExists : error := New CodeConflict 0 "Node already exists".
Definition ErrInvalidNodeID : error := New CodeValidation 0 "Node ID is invalid".
Definition ErrInvalidNodeName : error := New CodeValidation 0 "Node name is invalid".
Definition ErrInvalidRole : error := New CodeValidation 0 "Node role is invalid".
Definition ErrInvalidFacts : error := New CodeValidation 0 "Reported node facts are invalid".
Definition ErrConcurrentUpdate : error := New CodeConflict 0 "Node was changed by another request".
Definition ErrInvalidTransition : error := New CodeConflict 0 "Node state change is not allowed".
Definition ErrEnrollmentRejected : error := New "TOKEN_INVALID" 0 "Enrollment token is invalid or expired".
Definition ErrCredentialRejected : error := New CodeUnauthorized 0 "Node credentials are invalid or expired".
Definition ErrNotClusterNode : error := New CodeForbidden 0 "This operation is limited to cluster nodes".
Definition ErrActionNotAllowed : error := New CodeForbidden 0 "Node is not allowed to perform this action".
Definition ErrUnknownAction : error := New CodeValidation 0 "Unknown node action".
Definition ErrPayloadTooLarge : error := New "PAYLOAD_TOO_LARGE" 0 "Node task payload is too large".
Definition ErrInvalidPayload : error := New CodeValidation 0 "Node task payload must be a JSON object".
Definition ErrNodeNotSchedulable : error := New CodeConflict 0 "Node is not accepting new work".
Definition ErrTaskNotFound : error := New CodeNotFound 0 "Node task not found".
Definition ErrTaskNotClaimed : error := New CodeConflict 0 "Node task is not currently dispatched".
Definition ErrConfirmationRequired : error := New CodeValidation 0 "Removal requires explicit confirmation".
Definition ErrCallbackNotAllowed : error := New CodeValidation 0 "Callback URL is not allowed".
Definition ErrNoCallback : error := New CodeConflict 0 "Node has no callback URL configured".
Definition ErrTransportUnavailable : error := New CodeUnavailable 0 "Outbound node transport is not configured".
Definition ErrNotifyFailed : error := New CodeUnavailable 0 "Node did not accept the notification".

(** * validate.go *)

Definition MaxNodeIDLen : Z := 63.
Definition MinNodeIDLen : Z := 2.
Definition MaxNodeNameLen : Z := 64.
Definition MaxAddressLen : Z := 255.
Definition MaxVersionLen : Z := 32.
Definition MaxKernelLen : Z := 64.
Definition MaxHostnameLen : Z := 253.
Definition MaxBackends : Z := 32.
Definition MaxBackendLen : Z := 24.
Definition MaxActionLen : Z := 64.
Definition MaxReasonLen : Z := 200.
Definition MaxResultLen : Z := Z.shiftl 4 10.
Definition MaxErrorLen : Z := Z.shiftl 1 10.
Definition MaxCPUCores : Z := 4096.
Definition MaxMemoryBytes : Z := Z.shiftl 1 50.
Definition MaxDiskBytes : Z := Z.shiftl 1 60.

Record Facts := mkFacts {
  f_OS : string; f_Arch : string; f_Kernel : string; f_Hostname : string; f_CPUCores : Z;
  f_MemoryBytes : Z; f_DiskBytes : Z; f_Backends : list string }.

Definition allowedOS : list string := ["linux"].
Definition allowedArch : list string := ["amd64"; "arm64"; "arm"; "386"; "riscv64"; "ppc64le"; "s390x"].
Definition allowedBackends : list string :=
  ["docker"; "podman"; "incus"; "libvirt"; "qemu"; "systemd"; "openrc"; "apt"; "apk"; "dnf"; "pacman"].

Definition listed (v : string) (l : list string) : bool := existsb (String.eqb v) l.

Definition code (c : ascii) : Z := Z.of_N (N_of_ascii c).
Definition lower_letter (c : ascii) : bool := between 97 (code c) 122.
Definition upper_letter (c : ascii) : bool := between 65 (code c) 90.
Definition decimal (c : ascii) : bool := between 48 (code c) 57.

Definition id_char (c : ascii) : bool := lower_letter c || decimal c.
Definition separator (c : ascii) : bool := (code c =? 45) || (code c =? 46).

(** The loop: [prev] is the byte before, none at the start. *)
Fixpoint idLoop (prev : option ascii) (s : string) : bool :=
  match s with
  | EmptyString => true
  | String c rest =>
      if id_char c then idLoop (Some c) rest else
      if separator c then
        match prev, rest with
        | None, _ | _, EmptyString => false
        | Some p, _ => negb (separator p) && idLoop (Some c) rest
        end
      else false
  end.

Definition ValidateNodeID (id : string) : Res () :=
  if (slen id <? MinNodeIDLen) || (MaxNodeIDLen <? slen id) then Err ErrInvalidNodeID else
  if idLoop None id then Ok () else Err ErrInvalidNodeID.

Definition name_char (c : ascii) : bool :=
  lower_letter c || upper_letter c || decimal c ||
  (code c =? 32) || (code c =? 45) || (code c =? 95) || (code c =? 46).

Fixpoint all_chars (p : ascii → bool) (s : string) : bool :=
  match s with EmptyString => true | String c s => p c && all_chars p s end.

Definition ValidateNodeName (name : string) : Res () :=
  if (name =s "") || (MaxNodeNameLen <? slen name) then Err ErrInvalidNodeName else
  if negb (TrimSpaceU name =s name) then Err ErrInvalidNodeName else
  if all_chars name_char name then Ok () else Err ErrInvalidNodeName.

(** The number of dots, or [None] for a byte outside the set. *)
Fixpoint actionLoop (first : bool) (dots : Z) (s : string) : option Z :=
  match s with
  | EmptyString => Some dots
  | String c rest =>
      if lower_letter c || decimal c || (code c =? 95) then actionLoop false dots rest else
      if code c =? 46 then
        if first || (rest =s "") then None else actionLoop false (dots + 1) rest
      else None
  end.

Definition ValidateActionName (action : string) : Res () :=
  if (action =s "") || (MaxActionLen <? slen action) then Err ErrUnknownAction else
  match actionLoop true 0 action with
  | Some dots => if dots =? 1 then Ok () else Err ErrUnknownAction
  | None => Err ErrUnknownAction
  end.

Definition printable (c : ascii) : bool := between 33 (code c) 126.

Definition isPrintableToken (s : string) : bool := all_chars printable s.

(** The element moves left past the greater ones; the slice is kept reversed. *)
Fixpoint sink (x : string) (rev : list string) : list string :=
  match rev with
  | y :: rev' => if negb (string_leb y x) then y :: sink x rev' else x :: rev
  | [] => [x]
  end.

Definition sortStrings (s : list string) : list string := reverse (foldl (λ rev x, sink x rev) [] s).

Definition truncate (s : string) (n : Z) : string :=
  let clean := StripControlChars (TrimSpaceU s) in
  if slen clean <=? n then clean else String.substring 0 (Z.to_nat n) clean.

Section facts.
Context `{!Unicode}.

(** The distinct backends in their order, or [None] when one is not allowed. *)
Fixpoint backendLoop (seen raws : list string) : option (list string) :=
  match raws with
  | [] => Some (reverse seen)
  | raw :: rest =>
      let b := ToLowerU (TrimSpaceU raw) in
      if (MaxBackendLen <? slen b) || negb (listed b allowedBackends) then None else
      if listed b seen then backendLoop seen rest else backendLoop (b :: seen) rest
  end.

Definition ValidateFacts (f : Facts) : Res Facts :=
  let trimmedKernel := TrimSpaceU (f_Kernel f) in
  if (trimmedKernel =s "") || negb (isPrintableToken trimmedKernel) then Err ErrInvalidFacts else
  let out := mkFacts (ToLowerU (TrimSpaceU (f_OS f))) (ToLowerU (TrimSpaceU (f_Arch f)))
    (truncate (f_Kernel f) MaxKernelLen) (ToLowerU (truncate (f_Hostname f) MaxHostnameLen))
    (f_CPUCores f) (f_MemoryBytes f) (f_DiskBytes f) [] in
  if negb (listed (f_OS out) allowedOS) then Err ErrInvalidFacts else
  if negb (listed (f_Arch out) allowedArch) then Err ErrInvalidFacts else
  if negb (f_Hostname out =s "") && negb (is_ok (ValidateNodeID (f_Hostname out))) then Err ErrInvalidFacts else
  if (f_CPUCores out <? 1) || (MaxCPUCores <? f_CPUCores out) then Err ErrInvalidFacts else
  if (f_MemoryBytes out <? 1) || (MaxMemoryBytes <? f_MemoryBytes out) then Err ErrInvalidFacts else
  if (f_DiskBytes out <? 0) || (MaxDiskBytes <? f_DiskBytes out) then Err ErrInvalidFacts else
  if MaxBackends <? Z.of_nat (length (f_Backends f)) then Err ErrInvalidFacts else
  match backendLoop [] (f_Backends f) with
  | None => Err ErrInvalidFacts
  | Some l => Ok (out {{ f_Backends := sortStrings l }})
  end.
End facts.

(** * Properties *)

Lemma listed_in v l : listed v l = true → v ∈ l.
Proof. unfold listed. intros (x & Hx & ->%String.eqb_eq)%existsb_exists. by apply list_elem_of_In. Qed.

(** ** Identifiers *)

(** The pieces between the separators. *)
Fixpoint labels (s : string) : list string :=
  match s with
  | EmptyString => [""]
  | String c rest =>
      if separator c then "" :: labels rest else
      match labels rest with
      | l :: ls => String c l :: ls
      | [] => []
      end
  end.

Definition good_label (l : string) : Prop := l ≠ "" ∧ all_chars id_char l = true.

Lemma labels_cons s : ∃ l ls, labels s = l :: ls.
Proof.
  induction s as [| c s (l & ls & IH)]; cbn; [eauto |]. destruct (separator c); [eauto |]. rewrite IH. eauto.
Qed.

Lemma id_char_separator c : id_char c = true → separator c = false.
Proof.
  unfold id_char, separator, lower_letter, decimal, between. intros H.
  destruct (code c =? 45) eqn:E1; [apply Z.eqb_eq in E1; rewrite E1 in H; discriminate |].
  destruct (code c =? 46) eqn:E2; [apply Z.eqb_eq in E2; rewrite E2 in H; discriminate |]. done.
Qed.

(** Inside a label, and where one begins. *)
Lemma idLoop_labels s :
  (∀ p, separator p = false → idLoop (Some p) s = true ↔
     ∃ l ls, labels s = l :: ls ∧ all_chars id_char l = true ∧ Forall good_label ls) ∧
  (∀ prev, match prev with Some p => separator p = true | None => True end → s ≠ "" →
     idLoop prev s = true ↔ Forall good_label (labels s)).
Proof.
  induction s as [| c s [IHin IHstart]]; split; [| done | |].
  { intros p _. cbn. split; [intros _; exists "", []; by repeat constructor | done]. }
  - intros p Hp. cbn [idLoop labels]. destruct (id_char c) eqn:Ec.
    + rewrite id_char_separator by done. rewrite (IHin c) by by apply id_char_separator.
      destruct (labels_cons s) as (l0 & ls0 & ->). split.
      * intros (l & ls & [= <- <-] & Hl & Hls). exists (String c l0), ls0. cbn. by rewrite Ec, Hl.
      * intros (l & ls & [= <- <-] & Hl & Hls). cbn in Hl. apply andb_prop in Hl as [_ Hl]. eauto.
    + destruct (separator c) eqn:Es.
      * rewrite Hp. destruct s as [| d s].
        { split; [done |]. intros (l & ls & [= <- <-] & _ & [[] _]%Forall_cons_1). done. }
        cbn [negb andb]. rewrite (IHstart (Some c)) by done. split.
        { intros HF. by exists "", (labels (String d s)). }
        by intros (l & ls & [= <- <-] & _ & HF).
      * destruct (labels_cons s) as (l0 & ls0 & ->). split; [done |].
        intros (l & ls & [= <- <-] & Hl & _). cbn in Hl. by rewrite Ec in Hl.
  - intros prev Hprev _. cbn [idLoop labels]. destruct (id_char c) eqn:Ec.
    + rewrite id_char_separator by done. rewrite (IHin c) by by apply id_char_separator.
      destruct (labels_cons s) as (l0 & ls0 & ->). rewrite Forall_cons. unfold good_label at 2. cbn. rewrite Ec.
      naive_solver.
    + destruct (separator c) eqn:Es.
      * rewrite Forall_cons. unfold good_label at 1. split; [| by intros [[] _]].
        destruct prev as [p |]; [| done]. rewrite Hprev. by destruct s.
      * destruct (labels_cons s) as (l0 & ls0 & ->). rewrite Forall_cons. unfold good_label at 1. cbn. rewrite Ec.
        split; [done | by intros [[_ ?] _]].
Qed.

(** A node identifier is accepted exactly when it has 2 to 63 bytes and the pieces
    between its hyphens and dots are not empty and consist of lowercase letters
    and digits. *)
Theorem ValidateNodeID_spec id : ValidateNodeID id = Ok () ↔
  MinNodeIDLen ≤ slen id ≤ MaxNodeIDLen ∧ Forall good_label (labels id).
Proof.
  unfold ValidateNodeID. destruct (_ || _) eqn:E.
  - apply orb_true_iff in E. split; [done |]. intros [? _]. lia.
  - apply orb_false_iff in E. destruct id as [| c s]; [by destruct E |].
    rewrite <-(proj2 (idLoop_labels (String c s)) None) by done.
    destruct (idLoop _ _); split; try done. intros _. split; [lia | done].
    all: by intros [_ ?].
Qed.

(** ** The insertion sort *)

Definition ascends (a b : string) : Prop := string_leb a b = true.

#[global] Instance ascends_trans : Transitive ascends.
Proof. intros a b c. apply string_leb_trans. Qed.
#[global] Instance ascends_antisymm : AntiSymm (=) ascends.
Proof. intros a b. apply string_leb_antisym. Qed.

Lemma sink_perm x rev : sink x rev ≡ₚ x :: rev.
Proof. induction rev as [| y rev IH]; cbn; [done |]. destruct (negb _); [rewrite IH; apply perm_swap | done]. Qed.

Lemma sink_sorted x rev : Sorted (flip ascends) rev → Sorted (flip ascends) (sink x rev).
Proof.
  induction 1 as [| y rev Hs IH Hh]; cbn; [by repeat constructor |].
  destruct (string_leb y x) eqn:E; cbn; [by repeat constructor |].
  constructor; [done |]. apply string_leb_total in E.
  destruct rev as [| z rev]; cbn; [by constructor |]. inversion Hh; subst.
  destruct (negb _); constructor; done.
Qed.

Lemma fold_sink s rev : Sorted (flip ascends) rev →
  Sorted (flip ascends) (foldl (λ rev x, sink x rev) rev s) ∧ foldl (λ rev x, sink x rev) rev s ≡ₚ rev ++ s.
Proof.
  revert rev. induction s as [| x s IH]; intros rev Hs; cbn; [by rewrite app_nil_r |].
  destruct (IH (sink x rev) (sink_sorted x rev Hs)) as [H1 H2]. split; [done |].
  rewrite H2, sink_perm. apply Permutation_middle.
Qed.


(** The insertion sort of the source sorts. *)
Lemma sortStrings_sorts s : sortStrings s = sort_strings s.
Proof.
  destruct (fold_sink s [] (Sorted_nil _)) as [H1 H2]. unfold sortStrings.
  apply (Sorted_unique ascends).
  - by apply (Sorted_reverse (flip ascends)).
  - rewrite sort_strings_by. apply StronglySorted_Sorted, sort_by_ordered; [apply string_leb_total |].
    intros a b c. apply string_leb_trans.
  - rewrite reverse_Permutation, H2, sort_strings_perm. done.
Qed.

(** ** Facts *)

Lemma substring_length s n : slen (String.substring 0 n s) = Z.min (Z.of_nat n) (slen s).
Proof.
  revert n. induction s as [| c s IH]; intros [| n]; cbn [String.substring]; [done.. | |].
  - pose proof (slen_nonneg (String c s)). change (slen "") with 0. lia.
  - rewrite !slen_cons, IH. lia.
Qed.

Lemma truncate_length s n : 0 ≤ n → slen (truncate s n) ≤ n.
Proof.
  intros Hn. unfold truncate. destruct (_ <=? n) eqn:E; [lia |]. rewrite substring_length. lia.
Qed.

Section sound.
Context `{!Unicode}.

Lemma backendLoop_sound seen raws l : backendLoop seen raws = Some l → NoDup seen →
  Forall (λ b, b ∈ allowedBackends) seen → NoDup l ∧ Forall (λ b, b ∈ allowedBackends) l.
Proof.
  revert seen. induction raws as [| raw raws IH]; intros seen; cbn.
  - intros [= <-] Hn Hf. by rewrite !reverse_Permutation.
  - destruct (_ || _) eqn:E; [done |]. apply orb_false_iff in E as [_ E]. apply negb_false_iff in E.
    destruct (listed _ seen) eqn:Es; [apply IH |]. intros Hl Hn Hf. apply (IH _ Hl).
    + constructor; [| done]. intros Hin. unfold listed in Es. apply not_true_iff_false in Es. apply Es.
      apply existsb_exists. eexists. split; [by apply list_elem_of_In | apply String.eqb_refl].
    + constructor; [by apply listed_in | done].
Qed.

Definition sound_facts (f : Facts) : Prop :=
  f_OS f ∈ allowedOS ∧ f_Arch f ∈ allowedArch ∧ slen (f_Kernel f) ≤ MaxKernelLen ∧
  (f_Hostname f = "" ∨ ValidateNodeID (f_Hostname f) = Ok ()) ∧
  1 ≤ f_CPUCores f ≤ MaxCPUCores ∧ 1 ≤ f_MemoryBytes f ≤ MaxMemoryBytes ∧
  0 ≤ f_DiskBytes f ≤ MaxDiskBytes ∧
  NoDup (f_Backends f) ∧ Sorted ascends (f_Backends f) ∧ Forall (λ b, b ∈ allowedBackends) (f_Backends f).

(** Facts that pass are within their bounds: the system, the architecture and the
    backends are on their lists, the backends are sorted and distinct. *)
Theorem ValidateFacts_sound f out : ValidateFacts f = Ok out → sound_facts out.
Proof.
  unfold ValidateFacts. cbn zeta. cbn [f_OS f_Arch f_Hostname f_CPUCores f_MemoryBytes f_DiskBytes].
  destruct ((_ =s "") || _); [discriminate |].
  destruct (listed _ allowedOS) eqn:Eos; [cbn [negb] | discriminate].
  destruct (listed _ allowedArch) eqn:Ear; [cbn [negb] | discriminate].
  destruct (negb _ && negb _) eqn:Eh; [discriminate |].
  destruct ((f_CPUCores f <? 1) || _) eqn:E1; [discriminate |].
  destruct ((f_MemoryBytes f <? 1) || _) eqn:E2; [discriminate |].
  destruct ((f_DiskBytes f <? 0) || _) eqn:E3; [discriminate |].
  destruct (MaxBackends <? _); [discriminate |].
  destruct (backendLoop _ _) as [l |] eqn:El; [| discriminate].
  intros [= <-]. destruct (backendLoop_sound _ _ _ El (NoDup_nil_2) (Forall_nil_2 _)) as [Hn Hf].
  apply orb_false_iff in E1, E2, E3.
  unfold sound_facts. cbn [f_OS f_Arch f_Kernel f_Hostname f_CPUCores f_MemoryBytes f_DiskBytes f_Backends].
  unfold constant. rewrite sortStrings_sorts.
  split; [by apply listed_in |]. split; [by apply listed_in |]. split; [by apply truncate_length |].
  split; [| split; [lia |]; split; [lia |]; split; [lia |]].
  - apply andb_false_iff in Eh as [E | E]; apply negb_false_iff in E; [left; by apply seqb_eq | right].
    by destruct (ValidateNodeID _) as [[] |].
  - split; [by rewrite sort_strings_perm |]. split; [| by rewrite sort_strings_perm].
    rewrite sort_strings_by. apply StronglySorted_Sorted, sort_by_ordered; [apply string_leb_total |].
    intros a b c. apply string_leb_trans.
Qed.
End sound.

Lemma ValidateFacts_sound_witness :
  let _ := {| u_letter := λ _, false; u_digit := λ _, false; u_upper := λ r, r; u_lower := λ r, r |} : Unicode in
  ∃ out, ValidateFacts (mkFacts " Linux" "AMD64" "6.1.0-18" "" 8 1024 0 ["Podman"; "docker"; "podman "])
    = Ok out ∧ f_Backends out = ["docker"; "podman"] ∧ sound_facts out.
Proof.
  intros U. eexists. split; [vm_compute; reflexivity |]. split; [reflexivity |].
  eapply (@ValidateFacts_sound U (mkFacts " Linux" "AMD64" "6.1.0-18" "" 8 1024 0 ["Podman"; "docker"; "podman "])).
  vm_compute. reflexivity.
Defined.
