(* ===== verification/Outbound.v ===== *)
(** Which addresses the server may call: [IsPrivateOrLoopbackIP] and
    [ValidateOutboundURL] of [src/src/security/input.go], with the predicates of
    [net.IP] they use.

    An address is its 4 or 16 bytes.  [net/url], the parser of addresses and the
    resolver are the class [Net]. *)
From stdpp Require Import prelude strings list.
From Stdlib Require Import ZArith Lia.
From S2P Require Import Prelude Errors Sql Text.

Notation IP := (list Z).

Class Net := {
  url_parse : string → option (string * string);   (* scheme and host name *)
  parse_ip : string → option IP;
  lookup_ip : Env → string → option (list IP) }.

(** * net.IP *)

Definition v4InV6 : list Z := [0; 0; 0; 0; 0; 0; 0; 0; 0; 0; 255; 255].

Definition To4 (ip : IP) : option IP :=
  if (length ip =? 4)%nat then Some ip else
  if (length ip =? 16)%nat && bool_decide (take 12 ip = v4InV6) then Some (list.drop 12 ip) else None.

Definition byte_at (ip : IP) (i : nat) : Z := nth i ip 0.

Definition IPv6loopback : IP := [0; 0; 0; 0; 0; 0; 0; 0; 0; 0; 0; 0; 0; 0; 0; 1].
Definition IPv6zero : IP := repeat 0 16.

Definition is16 (ip : IP) : bool := (length ip =? 16)%nat.

Definition IsLoopback (ip : IP) : bool :=
  match To4 ip with Some ip4 => byte_at ip4 0 =? 127 | None => bool_decide (ip = IPv6loopback) end.

Definition IsPrivate (ip : IP) : bool :=
  match To4 ip with
  | Some ip4 =>
      (byte_at ip4 0 =? 10) || ((byte_at ip4 0 =? 172) && (Z.land (byte_at ip4 1) 240 =? 16)) ||
      ((byte_at ip4 0 =? 192) && (byte_at ip4 1 =? 168))
  | None => is16 ip && (Z.land (byte_at ip 0) 254 =? 252)
  end.

Definition IsUnspecified (ip : IP) : bool :=
  match To4 ip with Some ip4 => bool_decide (ip4 = [0; 0; 0; 0]) | None => bool_decide (ip = IPv6zero) end.

Definition IsLinkLocalUnicast (ip : IP) : bool :=
  match To4 ip with
  | Some ip4 => (byte_at ip4 0 =? 169) && (byte_at ip4 1 =? 254)
  | None => is16 ip && (byte_at ip 0 =? 254) && (Z.land (byte_at ip 1) 192 =? 128)
  end.

Definition IsLinkLocalMulticast (ip : IP) : bool :=
  match To4 ip with
  | Some ip4 => (byte_at ip4 0 =? 224) && (byte_at ip4 1 =? 0) && (byte_at ip4 2 =? 0)
  | None => is16 ip && (byte_at ip 0 =? 255) && (Z.land (byte_at ip 1) 15 =? 2)
  end.

Definition IsInterfaceLocalMulticast (ip : IP) : bool :=
  is16 ip && (byte_at ip 0 =? 255) && (Z.land (byte_at ip 1) 15 =? 1).

Definition IsMulticast (ip : IP) : bool :=
  match To4 ip with
  | Some ip4 => Z.land (byte_at ip4 0) 240 =? 224
  | None => is16 ip && (byte_at ip 0 =? 255)
  end.

(** * input.go *)

Definition ErrSchemeNotAllowed : error := Plain "security: outbound URL scheme not allowed".
Definition ErrHostNotAllowed : error := Plain "security: outbound URL host not allowed".
Definition ErrInvalidURL : error := Plain "security: invalid outbound URL".

Definition internalHostSuffixes : list string :=
  [".b32.i2p"; ".i2p"; ".internal"; ".local"; ".localhost"; ".onion"].

Definition IsPrivateOrLoopbackIP (ip : IP) : bool :=
  if IsLoopback ip || IsPrivate ip || IsUnspecified ip || IsLinkLocalUnicast ip ||
     IsLinkLocalMulticast ip || IsInterfaceLocalMulticast ip || IsMulticast ip then true else
  match To4 ip with
  | Some ip4 =>
      ((byte_at ip4 0 =? 100) && (64 <=? byte_at ip4 1) && (byte_at ip4 1 <=? 127)) ||
      ((byte_at ip4 0 =? 192) && (byte_at ip4 1 =? 0) && (byte_at ip4 2 =? 0)) ||
      bool_decide (ip4 = [255; 255; 255; 255])
  | None => is16 ip && (Z.land (byte_at ip 0) 254 =? 252)
  end.

Fixpoint string_rev_app (s acc : string) : string :=
  match s with EmptyString => acc | String c s => string_rev_app s (String c acc) end.

Definition string_rev (s : string) : string := string_rev_app s "".

Definition HasSuffix (s suffix : string) : bool := HasPrefix (string_rev s) (string_rev suffix).

(** * Blocks of addresses *)

(** An IPv4 address as a number, and the blocks that are refused. *)
Definition number4 (a b c d : Z) : Z := ((a * 256 + b) * 256 + c) * 256 + d.

Definition refused_blocks : list (Z * Z) :=
  [(number4 0 0 0 0, number4 0 0 0 0); (number4 10 0 0 0, number4 10 255 255 255);
   (number4 100 64 0 0, number4 100 127 255 255); (number4 127 0 0 0, number4 127 255 255 255);
   (number4 169 254 0 0, number4 169 254 255 255); (number4 172 16 0 0, number4 172 31 255 255);
   (number4 192 0 0 0, number4 192 0 0 255); (number4 192 168 0 0, number4 192 168 255 255);
   (number4 224 0 0 0, number4 239 255 255 255); (number4 255 255 255 255, number4 255 255 255 255)].

Section outbound.
Context `{!Unicode, !Net}.

Definition ValidateOutboundURL (e : Env) (raw : string) : Res () :=
  match url_parse (TrimSpaceU raw) with
  | None => Err (Join ErrInvalidURL (Plain "parse"))
  | Some (scheme, hostname) =>
      let scheme := ToLowerU scheme in
      if negb ((scheme =s "http") || (scheme =s "https")) then Err ErrSchemeNotAllowed else
      let host := ToLowerU hostname in
      if host =s "" then Err ErrInvalidURL else
      if host =s "localhost" then Err ErrHostNotAllowed else
      if existsb (HasSuffix host) internalHostSuffixes then Err ErrHostNotAllowed else
      match parse_ip host with
      | Some ip => if IsPrivateOrLoopbackIP ip then Err ErrHostNotAllowed else Ok ()
      | None =>
          match lookup_ip e host with
          | None => Err (Join ErrHostNotAllowed (Plain "dns lookup failed"))
          | Some ips =>
              if (length ips =? 0)%nat then Err ErrHostNotAllowed else
              if existsb IsPrivateOrLoopbackIP ips then Err ErrHostNotAllowed else Ok ()
          end
      end
  end.

(** An accepted address has the scheme http or https, a host that is not an
    internal name, and every address the host stands for at that moment is
    outside the refused ranges. *)
Lemma ValidateOutboundURL_ok e raw : ValidateOutboundURL e raw = Ok () →
  ∃ scheme hostname ips, url_parse (TrimSpaceU raw) = Some (scheme, hostname) ∧
    ToLowerU scheme ∈ ["http"; "https"] ∧ ToLowerU hostname ≠ "" ∧ ToLowerU hostname ≠ "localhost" ∧
    Forall (λ suffix, HasSuffix (ToLowerU hostname) suffix = false) internalHostSuffixes ∧
    (parse_ip (ToLowerU hostname) = Some ips.1 ∨
     parse_ip (ToLowerU hostname) = None ∧ lookup_ip e (ToLowerU hostname) = Some (ips.1 :: ips.2)) ∧
    IsPrivateOrLoopbackIP ips.1 = false ∧
    (parse_ip (ToLowerU hostname) = None → Forall (λ ip, IsPrivateOrLoopbackIP ip = false) ips.2).
Proof.
  unfold ValidateOutboundURL. destruct (url_parse _) as [[scheme hostname] |]; [| done]. cbn zeta.
  destruct (_ || _) eqn:Es; [cbn [negb] | done].
  destruct (ToLowerU hostname =s "") eqn:E1; [done |]. destruct (ToLowerU hostname =s "localhost") eqn:E2; [done |].
  destruct (existsb _ internalHostSuffixes) eqn:E3; [done |]. apply seqb_neq in E1, E2.
  assert (Forall (λ suffix, HasSuffix (ToLowerU hostname) suffix = false) internalHostSuffixes) as HF.
  { apply Forall_forall. intros x Hx. apply not_true_iff_false. intros Hs. apply not_true_iff_false in E3.
    apply E3, existsb_exists. exists x. by rewrite <-list_elem_of_In. }
  assert (ToLowerU scheme ∈ ["http"; "https"]) by (apply orb_true_iff in Es as [->%seqb_eq | ->%seqb_eq]; set_solver).
  destruct (parse_ip _) as [ip |] eqn:Ep.
  - destruct (IsPrivateOrLoopbackIP ip) eqn:Ei; [done |]. intros _. exists scheme, hostname, (ip, []).
    split_and!; try done. by left.
  - destruct (lookup_ip _ _) as [[| ip ips] |] eqn:El; [done | | done]. cbn [length Nat.eqb].
    cbn [existsb]. destruct (IsPrivateOrLoopbackIP ip) eqn:Ei; [done |]. cbn [orb].
    destruct (existsb _ ips) eqn:Ex; [done |]. intros _. exists scheme, hostname, (ip, ips).
    split_and!; try done; [by right |]. intros _. apply Forall_forall. intros x Hx. apply not_true_iff_false.
    intros Hs. apply not_true_iff_false in Ex. apply Ex, existsb_exists. exists x. by rewrite <-list_elem_of_In.
Qed.
End outbound.

(** ** IPv4 *)

Definition is_byte (x : Z) : Prop := 0 ≤ x ≤ 255.

Lemma land_240 x : is_byte x → Z.land x 240 = 16 * (x / 16).
Proof.
  intros Hx. assert (∀ n, (n < 256)%nat → Z.land (Z.of_nat n) 240 = 16 * (Z.of_nat n / 16)) as HF.
  { intros n Hn. do 256 (destruct n as [| n]; [reflexivity |]). lia. }
  unfold is_byte in Hx. specialize (HF (Z.to_nat x) ltac:(lia)). by rewrite Z2Nat.id in HF by lia.
Qed.

(** Finds the disjunct that holds. *)
Ltac in_some_block :=
  lazymatch goal with
  | |- _ ∨ _ => solve [left; in_some_block | right; in_some_block]
  | |- _ => Z.div_mod_to_equations; lia
  end.



(** Addresses that are not globally routable and pass: the rest of 0.0.0.0/8, the
    benchmark block, the reserved block, and IPv6 forms that stand for an IPv4
    address (NAT64 and 6to4 of the loopback address). *)
Example reserved_accepted :
  Forall (λ ip, IsPrivateOrLoopbackIP ip = false)
    [[0; 1; 2; 3]; [198; 18; 0; 1]; [240; 0; 0; 1];
     [0; 100; 255; 155; 0; 0; 0; 0; 0; 0; 0; 0; 127; 0; 0; 1];
     [32; 2; 127; 0; 0; 1; 0; 0; 0; 0; 0; 0; 0; 0; 0; 1]].
Proof. repeat (apply Forall_cons; split; [reflexivity |]). apply Forall_nil_2. Qed.
