(* ===== verification/Tran.v ===== *)
(** Transactions at the isolation level READ COMMITTED, for the bodies that
    [src/src/database/tx.go] runs.

    A statement of a transaction reads the committed tables of its moment together
    with the transaction's own writes.  A write takes two sections: which rows
    satisfy the condition when it starts, and which of these still do when it has
    their locks; the rows are changed for the others at the commit.  Nobody can
    change a locked row in between, so a commit that finds one changed, or a key
    taken, stands for a schedule the database does not allow, and aborts.  What a
    stronger level allows is allowed here too. *)
From stdpp Require Import prelude strings list gmap.
From Stdlib Require Import ZArith Lia.
From S2P Require Import Prelude Errors Threads Sql Rely.

(** The driver's text for a violated key. *)
Class Driver := { duplicate : error }.

Definition serialization : error := Plain "could not serialize access".

Section transactions.
Context {St : Type}.
Notation D A := (prog St Env (Res A)).

(** What a write does to the tables at the commit. *)
Notation Write := (St → option St).

Fixpoint replay (ws : list Write) (s : St) : option St :=
  match ws with
  | [] => Some s
  | w :: ws => w s ≫= replay ws
  end.

(** A body has the writes so far. *)
Definition TX (A : Type) : Type := list Write → prog St Env (Res A * list Write).

Definition txOk {A} (a : A) : TX A := λ ws, Ret (Ok a, ws).
Definition txErr {A} (e : error) : TX A := λ ws, Ret (Err e, ws).

Definition txBind {A B} (m : TX A) (k : A → TX B) : TX B := λ ws,
  pbind (m ws) (λ '(r, ws), match r with Ok a => k a ws | Err e => txErr e ws end).

(** The error as a value. *)
Definition txTry {A} (m : TX A) : TX (Res A) := λ ws, pbind (m ws) (λ '(r, ws), txOk r ws).

Definition txPeek {A} (f : Env → St → A) : TX A := λ ws, pbind (peek f) (λ a, txOk a ws).

(** A read, with the own writes. *)
Definition txRead {A} (f : St → A) : TX A := λ ws,
  pbind (peek (λ e s,
    match e_fault e with
    | Some err => Err err
    | None => match replay ws s with Some v => Ok (f v) | None => Err serialization end
    end)) (λ r, Ret (r, ws)).

Definition TxQueryRow {R} (f : St → list R) : TX (option R) :=
  txBind (txTry (txRead f)) (λ r,
    match r with
    | Ok l => txOk (hd_error l)
    | Err ENoRows => txOk None
    | Err e => txErr e
    end).

Definition classified {A} (m : TX A) : TX A := λ ws,
  pbind (m ws) (λ '(r, ws), Ret (match r with Ok a => Ok a | Err e => Err (Classify e) end, ws)).

(** [res.RowsAffected]. *)
Definition counted (n : nat) : TX (Res Z) :=
  txPeek (λ e _, match e_count e with Some err => Err (Classify err) | None => Ok (Z.of_nat n) end).

Definition txWrite (w : Write) : TX () := λ ws, Ret (Ok (), ws ++ [w]).

Section statements.
Context {R K : Type} `{EqDecision R, EqDecision K} (tb : Table St R) (key : R → K).

Definition among (l : list R) (r : R) : bool := bool_decide (key r ∈ key <$> l).

(** The rows of a statement as they were locked. *)
Definition locked (l : list R) (then_ : St → St) : Write := λ s,
  if bool_decide (List.filter (among l) (get tb s) = l) then Some (then_ s) else None.

Definition lockRows (P : R → bool) : TX (list R) := classified (
  txBind (txRead (λ s, List.filter P (get tb s))) (λ seen,
  txRead (λ s, List.filter (λ r, P r && among seen r) (get tb s)))).

Definition setRows (l : list R) (f : R → R) (s : St) : St :=
  put tb ((λ r, if among l r then f r else r) <$> get tb s) s.

Definition dropRows (l : list R) (s : St) : St :=
  put tb (List.filter (λ r, negb (among l r)) (get tb s)) s.

Definition TxUpdate (P : R → bool) (f : R → R) : TX (Res Z) :=
  txBind (lockRows P) (λ l, txBind (txWrite (locked l (setRows l f))) (λ _, counted (length l))).

Definition TxDelete (P : R → bool) : TX (Res Z) :=
  txBind (lockRows P) (λ l, txBind (txWrite (locked l (dropRows l))) (λ _, counted (length l))).

(** [clash] holds of two rows with a common key. *)
Definition keyed (clash : R → R → bool) (r : R) : Write := λ s,
  if existsb (clash r) (get tb s) then None else Some (put tb (get tb s ++ [r]) s).

Definition TxInsert `{!Driver} (clash : R → R → bool) (r : R) : TX () := classified (
  txBind (txRead (λ s, existsb (clash r) (get tb s))) (λ taken : bool,
  if taken then txErr duplicate else txWrite (keyed clash r))).

(** An insert that is a transaction of its own. *)
Definition INSERT_KEYED `{!Driver} (clash : R → R → bool) (r : R) : D () :=
  atomic (λ e s,
    match e_fault e with
    | Some err => (Err (Classify err), if e_applied e then default s (keyed clash r s) else s)
    | None =>
        match keyed clash r s with
        | Some s' => (Ok (), s')
        | None => (Err (Classify duplicate), s)
        end
    end).
End statements.

(** A commit that fails may have taken effect, unless the database says that it
    aborted. *)
Definition commit (ws : list Write) : D () :=
  atomic (λ e s,
    match e_fault e with
    | Some err =>
        (Err err,
         if e_applied e && negb (IsSerializationError (Classify err)) then default s (replay ws s) else s)
    | None => match replay ws s with Some s' => (Ok (), s') | None => (Err serialization, s) end
    end).

Definition begin : D () := peek (λ e _, match e_fault e with Some err => Err err | None => Ok () end).

(** One run of a body. *)
Definition attempt {A} (fn : TX A) : D A :=
  bindD begin (λ _,
  pbind (fn []) (λ '(r, ws),
  match r with
  | Ok a => bindD (commit ws) (λ _, ok_ a)
  | Err e => fail e
  end)).

Definition Transact {A} (fn : TX A) : D A := Tx (attempt fn).
End transactions.

Arguments TX St A : clear implicits.
Arguments replay {St} ws s.
Notation Write St := (St → option St).

Notation "'let!' x := m 'in' k" := (txBind m (λ x, k))
  (at level 200, x pattern, m at level 100, k at level 200) : sql_scope.

(** * Rules *)

Section rules.
Context {St : Type} {J : list St → Prop} {G : St → St → Prop} `{!Reflexive G}.
Notation hist := (list St).

(** From the writes [ws] and history [h] on, [Q] holds at the end of the body. *)
Definition txwp {A} (m : TX St A) (ws : list (Write St)) (h : hist)
    (Q : Res A → list (Write St) → hist → Prop) : Prop :=
  wp J G (m ws) h (λ '(r, ws') h', Q r ws' h').

Lemma txwp_mono {A} (m : TX St A) ws h (Q Q' : Res A → list (Write St) → hist → Prop) :
  txwp m ws h Q → (∀ r ws' h', h `suffix_of` h' → Q r ws' h' → Q' r ws' h') → txwp m ws h Q'.
Proof. intros Hm HQ. eapply wp_mono; [exact Hm |]. intros [r ws'] h' Hs. by apply HQ. Qed.

Lemma txwp_ok {A} (a : A) ws h (Q : Res A → list (Write St) → hist → Prop) :
  Q (Ok a) ws h → txwp (txOk a) ws h Q.
Proof. done. Qed.

Lemma txwp_err {A} e ws h (Q : Res A → list (Write St) → hist → Prop) :
  Q (Err e) ws h → txwp (txErr e) ws h Q.
Proof. done. Qed.

Lemma txwp_bind {A B} (m : TX St A) (k : A → TX St B) ws h Q :
  txwp m ws h (λ r ws' h', match r with Ok a => txwp (k a) ws' h' Q | Err e => Q (Err e) ws' h' end) →
  txwp (txBind m k) ws h Q.
Proof. intros Hm. apply wp_bind. eapply wp_mono; [exact Hm |]. by intros [[a | e] ws'] h' _. Qed.

Lemma txwp_try {A} (m : TX St A) ws h (Q : Res (Res A) → list (Write St) → hist → Prop) :
  txwp m ws h (λ r ws' h', Q (Ok r) ws' h') → txwp (txTry m) ws h Q.
Proof. intros Hm. apply wp_bind. eapply wp_mono; [exact Hm |]. by intros [r ws'] h' _. Qed.

Lemma txwp_peek {A} (f : Env → St → A) ws h Q :
  (∀ e s h', h `suffix_of` s :: h' → J (s :: h') → Q (Ok (f e s)) ws (s :: s :: h')) →
  txwp (txPeek f) ws h Q.
Proof. intros HQ s h' e Hs HJ. cbn. split; [reflexivity | by apply HQ]. Qed.

Lemma txwp_read {A} (f : St → A) ws h Q :
  (∀ s h' v, h `suffix_of` s :: h' → J (s :: h') → replay ws s = Some v → Q (Ok (f v)) ws (s :: s :: h')) →
  (∀ e h', h `suffix_of` h' → Q (Err e) ws h') → txwp (txRead f) ws h Q.
Proof.
  intros HQ HE s h' e Hs HJ. cbn. split; [reflexivity |].
  assert (h `suffix_of` s :: s :: h') by by apply suffix_cons_r.
  destruct (e_fault e); [by apply HE |].
  destruct (replay ws s) as [v |] eqn:E; cbn; [by apply HQ | by apply HE].
Qed.

Lemma txwp_classified {A} (m : TX St A) ws h Q :
  txwp m ws h (λ r ws' h', Q (match r with Ok a => Ok a | Err e => Err (Classify e) end) ws' h') →
  txwp (classified m) ws h Q.
Proof. intros Hm. apply wp_bind. eapply wp_mono; [exact Hm |]. by intros [r ws'] h' _. Qed.

Lemma txwp_queryRow {R} (f : St → list R) ws h Q :
  (∀ s h' v r, h `suffix_of` s :: h' → J (s :: h') → replay ws s = Some v → r ∈ f v →
     Q (Ok (Some r)) ws (s :: s :: h')) →
  (∀ h', h `suffix_of` h' → Q (Ok None) ws h') → (∀ e h', h `suffix_of` h' → Q (Err e) ws h') →
  txwp (TxQueryRow f) ws h Q.
Proof.
  intros HS HN HE. apply txwp_bind, txwp_try, txwp_read.
  - intros s h' v Hs HJ Hv. destruct (f v) as [| r l] eqn:E; [apply txwp_ok, HN; by apply suffix_cons_r |].
    eapply txwp_ok, HS; [done.. |]. rewrite E. left.
  - intros e h' Hs. destruct e; (apply txwp_ok, HN || apply txwp_err, HE); done.
Qed.

Section rows.
Context {R K : Type} `{EqDecision R, EqDecision K} (tb : Table St R) (key : R → K).

Lemma locked_inv l f s s' : locked tb key l f s = Some s' →
  s' = f s ∧ ∀ r, r ∈ get tb s → among key l r = true → r ∈ l.
Proof.
  unfold locked. case_bool_decide as E; [| done]. intros [= <-]. split; [done |].
  intros r Hr Ha. rewrite <-E. by apply list_elem_of_In, filter_In; split; [apply list_elem_of_In |].
Qed.

Lemma locked_all l f s s' : locked tb key l f s = Some s' → ∀ r, r ∈ l → r ∈ get tb s ∧ among key l r = true.
Proof.
  unfold locked. case_bool_decide as E; [| done]. intros _ r Hr. rewrite <-E in Hr.
  apply list_elem_of_In, filter_In in Hr as [? ?]. by rewrite list_elem_of_In.
Qed.

Lemma keyed_inv clash r s s' : keyed tb clash r s = Some s' →
  s' = put tb (get tb s ++ [r]) s ∧ ∀ r', r' ∈ get tb s → clash r r' = false.
Proof.
  unfold keyed. destruct (existsb _ _) eqn:E; [done |]. intros [= <-]. split; [done |].
  intros r' Hr'. apply not_true_iff_false. intros Hc. apply not_true_iff_false in E. apply E.
  apply existsb_exists. exists r'. by rewrite <-list_elem_of_In.
Qed.

Lemma txwp_lockRows P ws h Q :
  (∀ l h', h `suffix_of` h' → Forall (λ r, P r = true) l → Q (Ok l) ws h') →
  (∀ e h', h `suffix_of` h' → Q (Err e) ws h') → txwp (lockRows tb key P) ws h Q.
Proof.
  intros HQ HE. apply txwp_classified, txwp_bind, txwp_read; [| intros e h' Hs; by apply HE].
  intros s h1 v Hs HJ _.
  assert (h `suffix_of` s :: s :: h1) as Hs1 by by apply suffix_cons_r.
  apply txwp_read; [| intros e h' Hs'; apply HE; by etrans].
  intros s' h2 v' Hs2 HJ2 _. apply HQ.
  - trans (s :: s :: h1); [done |]. by apply suffix_cons_r.
  - apply Forall_forall. intros r [_ [HP _]%andb_prop]%list_elem_of_In%filter_In. done.
Qed.

Lemma txwp_counted n ws h (Q : Res (Res Z) → list (Write St) → hist → Prop) :
  (∀ c h', h `suffix_of` h' → c = Ok (Z.of_nat n) ∨ (∃ e, c = Err e) → Q (Ok c) ws h') →
  txwp (counted n) ws h Q.
Proof.
  intros HQ. apply txwp_peek. intros e s h' Hs _. apply HQ; [by apply suffix_cons_r |].
  destruct (e_count e); eauto.
Qed.

Lemma txwp_update P f ws h Q :
  (∀ l c h', h `suffix_of` h' → Forall (λ r, P r = true) l →
     c = Ok (Z.of_nat (length l)) ∨ (∃ e, c = Err e) →
     Q (Ok c) (ws ++ [locked tb key l (setRows tb key l f)]) h') →
  (∀ e h', h `suffix_of` h' → Q (Err e) ws h') → txwp (TxUpdate tb key P f) ws h Q.
Proof.
  intros HQ HE. apply txwp_bind, txwp_lockRows; [| done]. intros l h' Hs Hl.
  apply txwp_bind, txwp_counted. intros c h'' Hs' Hc. apply HQ; [by etrans | done..].
Qed.

Lemma txwp_delete P ws h Q :
  (∀ l c h', h `suffix_of` h' → Forall (λ r, P r = true) l →
     c = Ok (Z.of_nat (length l)) ∨ (∃ e, c = Err e) →
     Q (Ok c) (ws ++ [locked tb key l (dropRows tb key l)]) h') →
  (∀ e h', h `suffix_of` h' → Q (Err e) ws h') → txwp (TxDelete tb key P) ws h Q.
Proof.
  intros HQ HE. apply txwp_bind, txwp_lockRows; [| done]. intros l h' Hs Hl.
  apply txwp_bind, txwp_counted. intros c h'' Hs' Hc. apply HQ; [by etrans | done..].
Qed.

Lemma txwp_insert `{!Driver} clash r ws h Q :
  (∀ h', h `suffix_of` h' → Q (Ok ()) (ws ++ [keyed tb clash r]) h') →
  (∀ e h', h `suffix_of` h' → Q (Err e) ws h') → txwp (TxInsert tb clash r) ws h Q.
Proof.
  intros HQ HE. apply txwp_classified, txwp_bind, txwp_read; [| intros e h' Hs; by apply HE].
  intros s h' v Hs HJ _. assert (h `suffix_of` s :: s :: h') by by apply suffix_cons_r.
  destruct (existsb _ _); [by apply HE | by apply HQ].
Qed.

Lemma Safe_INSERT_KEYED `{!Driver} clash r :
  (∀ s h s', J (s :: h) → keyed tb clash r s = Some s' → G s s') → safe J G (INSERT_KEYED tb clash r).
Proof.
  intros HG. apply safe_atomic. intros e s h HJ.
  assert (G s (default s (keyed tb clash r s))) as Hd.
  { destruct (keyed _ _ _ _) eqn:E; [by eapply HG | cbn; reflexivity]. }
  destruct (e_fault e); [by destruct (e_applied e); cbn; [| reflexivity] |].
  destruct (keyed _ _ _ _) eqn:E; cbn; [by eapply HG | reflexivity].
Qed.
End rows.

(** [Φ] holds when the body goes on without an error. *)
Definition txok {A} (m : TX St A) (ws : list (Write St)) (h : hist)
    (Φ : A → list (Write St) → hist → Prop) : Prop :=
  txwp m ws h (λ r ws' h', match r with Ok a => Φ a ws' h' | Err _ => True end).

Lemma txok_bind {A B} (m : TX St A) (k : A → TX St B) ws h Φ :
  txok m ws h (λ a ws' h', txok (k a) ws' h' Φ) → txok (txBind m k) ws h Φ.
Proof. intros Hm. apply txwp_bind. eapply txwp_mono; [exact Hm |]. by intros []. Qed.

Lemma txok_ok {A} (a : A) ws h (Φ : A → list (Write St) → hist → Prop) : Φ a ws h → txok (txOk a) ws h Φ.
Proof. done. Qed.

Lemma txok_err {A} e ws h (Φ : A → list (Write St) → hist → Prop) : txok (txErr e) ws h Φ.
Proof. done. Qed.

Lemma txok_mono {A} (m : TX St A) ws h (Φ Ψ : A → list (Write St) → hist → Prop) :
  txok m ws h Φ → (∀ a ws' h', h `suffix_of` h' → Φ a ws' h' → Ψ a ws' h') → txok m ws h Ψ.
Proof. intros Hm HΨ. eapply txwp_mono; [exact Hm |]. intros [] ? ? ?; [by apply HΨ | done]. Qed.

Lemma txok_peek {A} (f : Env → St → A) ws h (Φ : A → list (Write St) → hist → Prop) :
  (∀ a h', h `suffix_of` h' → Φ a ws h') → txok (txPeek f) ws h Φ.
Proof. intros HΦ. apply txwp_peek. intros e s h' Hs _. apply HΦ. by apply suffix_cons_r. Qed.

(** What the writes [ws] do at a commit after [h]. *)
Definition replays (ws : list (Write St)) (h : hist) (R : St → St → Prop) : Prop :=
  ∀ s h' s', h `suffix_of` s :: h' → J (s :: h') → replay ws s = Some s' → R s s'.

Lemma replays_later ws h h' R : h `suffix_of` h' → replays ws h R → replays ws h' R.
Proof. intros Hs Hr s h1 s' Hs1. apply Hr. by trans h'. Qed.

Lemma replay_snoc (ws : list (Write St)) w s s' :
  replay (ws ++ [w]) s = Some s' → ∃ s1, replay ws s = Some s1 ∧ w s1 = Some s'.
Proof.
  revert s. induction ws as [| w' ws IH]; intros s; cbn.
  - destruct (w s) eqn:E; cbn; [| done]. intros [= <-]. by exists s.
  - destruct (w' s); cbn; [apply IH | done].
Qed.

Lemma replays_snoc ws w h (R R' : St → St → Prop) : replays ws h R →
  (∀ s h' s1 s', h `suffix_of` s :: h' → J (s :: h') → R s s1 → w s1 = Some s' → R' s s') →
  replays (ws ++ [w]) h R'.
Proof.
  intros Hr Hw s h' s' Hs HJ (s1 & H1 & H2)%replay_snoc. eapply Hw; [done | done | by eapply Hr | done].
Qed.

(** The commit of [ws] after [h] keeps the promise. *)
Definition commits (ws : list (Write St)) (h : hist) : Prop :=
  ∀ s h' s', h `suffix_of` s :: h' → J (s :: h') → replay ws s = Some s' → G s s'.

Lemma wp_attempt {A} (fn : TX St A) h (Φ : A → hist → Prop) :
  (∀ h1, h `suffix_of` h1 → txwp fn [] h1 (λ r ws h2, match r with
     | Ok a => commits ws h2 ∧
         ∀ s h' s', h2 `suffix_of` s :: h' → J (s :: h') → replay ws s = Some s' → Φ a (s' :: s :: h')
     | Err _ => True end)) →
  wp J G (attempt fn) h (λ r h', match r with Ok a => Φ a h' | Err _ => True end).
Proof.
  intros Hf s h' e Hs HJ. cbn -[attempt]. split; [reflexivity |].
  destruct (e_fault e); [done |]. apply wp_bind.
  eapply wp_mono; [apply Hf; by apply suffix_cons_r |].
  intros [[a | err] ws] h2 Hs2; [| done]. intros [Hc HΦ] s2 h3 e2 Hs3 HJ3.
  assert (G s2 (default s2 (replay ws s2))) as Hd.
  { destruct (replay ws s2) eqn:E; [by eapply Hc | cbn; reflexivity]. }
  cbn. destruct (e_fault e2).
  - split; [by destruct (_ && _); cbn; [| reflexivity] | done].
  - destruct (replay ws s2) eqn:E; cbn; [| split; [reflexivity | done]].
    split; [by eapply Hc | by eapply HΦ].
Qed.

Lemma Safe_attempt {A} (fn : TX St A) :
  (∀ h, txwp fn [] h (λ r ws h', match r with Ok _ => commits ws h' | Err _ => True end)) →
  safe J G (attempt fn).
Proof.
  intros Hf h. eapply wp_mono; [eapply (wp_attempt fn h (λ _ _, True)) | done].
  intros h1 _. eapply txwp_mono; [apply Hf |]. by intros [a | e] ws h' _.
Qed.

(** [Φ] holds of what is returned without an error. *)
Definition answers {A} (Φ : A → hist → Prop) (r : Res A) (h : hist) : Prop :=
  match r with Ok a => Φ a h | Err _ => True end.

Lemma wp_TxWith {A} n (tx : prog St Env (Res A)) h Φ :
  (∀ h', h `suffix_of` h' → wp J G tx h' (answers Φ)) → wp J G (TxWith n tx) h (answers Φ).
Proof.
  revert h. induction n as [| n IH]; intros h Ht; cbn [TxWith]; [done |]. apply wp_bind.
  unfold runTx. apply wp_bind. eapply wp_mono; [by apply Ht |]. intros [a | e] h' Hs HΦ; [exact HΦ |].
  unfold fail. cbn [wp]. destruct (negb _); [done |]. destruct n as [| n]; [done |].
  intros s h2 e2 Hs2 _. split; [reflexivity |]. unfold peek, atomic. cbn [pbind fst snd].
  destruct (e_ctx e2); [done |]. apply IH. intros h3 Hs3. apply Ht.
  trans h'; [done |]. trans (s :: h2); [done |]. trans (s :: s :: h2); [by apply suffix_cons_r | done].
Qed.

Lemma wp_Transact {A} (fn : TX St A) h (Φ : A → hist → Prop) :
  (∀ h1, h `suffix_of` h1 → txwp fn [] h1 (λ r ws h2, match r with
     | Ok a => commits ws h2 ∧
         ∀ s h' s', h2 `suffix_of` s :: h' → J (s :: h') → replay ws s = Some s' → Φ a (s' :: s :: h')
     | Err _ => True end)) →
  wp J G (Transact fn) h (answers Φ).
Proof.
  intros Hf. apply wp_TxWith. intros h' Hs. apply wp_attempt. intros h1 Hs1. apply Hf. by trans h'.
Qed.

Lemma Safe_Transact {A} (fn : TX St A) :
  (∀ h, txwp fn [] h (λ r ws h', match r with Ok _ => commits ws h' | Err _ => True end)) →
  safe J G (Transact fn).
Proof. intros Hf. by apply Safe_TxWith, Safe_attempt. Qed.
End rules.

(** * Handlers *)

(** A handler whose answer goes to its caller. *)
Definition ignore {St A} (p : prog St Env A) : prog St Env () := pbind p (λ _, Ret ()).

Lemma Safe_ignore {St A} (J : list St → Prop) (G : St → St → Prop) (p : prog St Env A) :
  safe J G (ignore p) ↔ safe J G p.
Proof.
  unfold safe, ignore. split; intros Hp h; specialize (Hp h); revert h Hp.
  - induction p as [R a | R X f k IH | R q _ k IH]; intros h Hp; cbn in *; [done | |].
    + intros s h' e Hs HJ. destruct (Hp s h' e Hs HJ). split; [done | by apply IH].
    + destruct Hp. split; [done | by apply IH].
  - intros h Hp. apply wp_bind. by eapply wp_mono.
Qed.
