(* ===== verification/Cluster.v ===== *)
(** Members, locks and the primary lease of a cluster:
    [src/src/database/cluster.go].

    The state is the two tables, with two records for the theorems: the latest time
    that any operation has read ([c_clock]) and the tokens presented to [Release]
    ([c_released]).  Instants are nanoseconds, columns are Unix seconds. *)
From stdpp Require Import prelude strings list gmap.
From Stdlib Require Import ZArith Lia.
From coqutil Require Export Datatypes.RecordSetters.
From S2P Require Import Prelude GoTime Errors Threads Sql Rely Tran Text.
Export DoubleBraceUpdate.

Definition Second : Z := 1000000000.

Definition HeartbeatInterval : Z := 30 * Second.
Definition DegradedAfter : Z := 90 * Second.
Definition OfflineAfter : Z := 300 * Second.
Definition PrimaryLeaseTTL : Z := 90 * Second.
Definition SecretDriftGrace : Z := 7 * 24 * 3600 * Second.
Definition PrimaryLockName : string := "cluster.primary".

Definition StateHealthy : string := "healthy".
Definition StateDegraded : string := "degraded".
Definition StateOffline : string := "offline".
Definition StateStale : string := "stale".

Definition ErrLockHeld : error := Plain "cluster: lock is held by another node".

Record SecretVersions := mkSecretVersions {
  sv_InstallationSecret : Z; sv_ServerEncryptionKey : Z; sv_CookieSigningKey : Z;
  sv_CSRFTokenSecret : Z; sv_LearnedOrigins : Z }.

Record Heartbeat := mkHeartbeat {
  hb_NodeID : string; hb_Address : string; hb_AppVersion : string; hb_CommitHash : string;
  hb_Secrets : SecretVersions; hb_StartedAt : Z }.

(** [database.Node]. *)
Record Member := mkMember {
  m_ID : string; m_Address : string; m_AppVersion : string; m_CommitHash : string;
  m_Secrets : SecretVersions; m_StartedAt : Z; m_LastSeen : Z; m_Stale : bool; m_Version : Z;
  m_State : string }.

(** [database.Lock]. *)
Record Lock := mkLock { l_Name : string; l_Owner : string; l_Token : string; l_ExpiresAt : Z }.

(** Rows of the tables nodes and cluster_locks. *)
Record MemberRow := mkMemberRow {
  r_node_id : string; r_address : string; r_app_version : string; r_commit_hash : string;
  r_secrets : SecretVersions; r_started_at : Z; r_last_seen : Z; r_stale : Z; r_version : Z }.

Record LockRow := mkLockRow {
  r_lock_name : string; r_owner : string; r_token : string; r_acquired_at : Z; r_expires_at : Z }.

#[global] Instance SecretVersions_eq_dec : EqDecision SecretVersions.
Proof. solve_decision. Defined.
#[global] Instance MemberRow_eq_dec : EqDecision MemberRow.
Proof. solve_decision. Defined.
#[global] Instance LockRow_eq_dec : EqDecision LockRow.
Proof. solve_decision. Defined.

Record Cluster := mkCluster {
  c_nodes : list MemberRow; c_locks : list LockRow; c_clock : Z; c_released : list string }.

Definition nodes : Table Cluster MemberRow := mkTable c_nodes (λ l s, s {{ c_nodes := l }}).
Definition cluster_locks : Table Cluster LockRow := mkTable c_locks (λ l s, s {{ c_locks := l }}).

Definition same_node (a b : MemberRow) : bool := r_node_id a =s r_node_id b.
Definition same_lock (a b : LockRow) : bool := r_lock_name a =s r_lock_name b.

Notation program := (prog Cluster Env).
Notation D A := (prog Cluster Env (Res A)).
Notation TXC A := (TX Cluster A).

Definition unix (t : Z) : Z := t / Second.

(** [time.Now()]. *)
Definition clock : program Z :=
  atomic (λ e s, (e_now e, s {{ c_clock := Z.max (c_clock s) (e_now e) }})).

Definition zeroTime : Z := zero_time * Second.

(** [rand.Read] does not fail. *)
Definition randomToken : program string := peek (λ e _, e_random e).

Definition duplicate_needles : list string :=
  ["unique constraint"; "duplicate entry"; "duplicate key"; "violation of primary key"].

Definition isDuplicateRow (err : error) : bool := contains_any (ToLower (error_text err)) duplicate_needles.

(** * Members *)

Definition DeriveState (lastSeen : Z) (stale : bool) (now : Z) : string :=
  let age := time_Sub now lastSeen in
  if OfflineAfter <=? age then StateOffline
  else if stale then StateStale
  else if DegradedAfter <=? age then StateDegraded
  else StateHealthy.

Definition scanNode (r : MemberRow) (now : Z) : Member :=
  let lastSeen := r_last_seen r * Second in
  let stale := negb (r_stale r =? 0) in
  mkMember (r_node_id r) (r_address r) (r_app_version r) (r_commit_hash r) (r_secrets r)
    (r_started_at r * Second) lastSeen stale (r_version r) (DeriveState lastSeen stale now).

Section cluster.
Context `{!Driver}.

(** Whether a row was matched. *)
Definition heartbeatUpdate (hb : Heartbeat) (now : Z) : TXC bool :=
  let! n := TxUpdate nodes r_node_id (λ r, r_node_id r =s hb_NodeID hb)
    (λ r, r {{ r_address := hb_Address hb; r_app_version := hb_AppVersion hb;
      r_commit_hash := hb_CommitHash hb; r_secrets := hb_Secrets hb; r_last_seen := unix now;
      r_version := r_version r + 1 }}) in
  match n with Err e => txErr e | Ok n => txOk (0 <? n) end.

Definition heartbeatTx (hb : Heartbeat) (now started : Z) : TXC () :=
  let! updated := heartbeatUpdate hb now in
  if updated : bool then txOk () else
  let! r := txTry (TxInsert nodes same_node (mkMemberRow (hb_NodeID hb) (hb_Address hb)
    (hb_AppVersion hb) (hb_CommitHash hb) (hb_Secrets hb) (unix started) (unix now) 0 1)) in
  match r with
  | Ok _ => txOk ()
  | Err err =>
      if negb (isDuplicateRow err) then txErr err else
      let! _ := heartbeatUpdate hb now in txOk ()
  end.

Definition WriteHeartbeat (hb : Heartbeat) : D () :=
  if TrimSpaceU (hb_NodeID hb) =s "" then fail (Plain "cluster: heartbeat requires a node id") else
  let* now := clock in
  let started := if hb_StartedAt hb =? zeroTime then now else hb_StartedAt hb in
  Transact (heartbeatTx hb now started).

Definition by_node_id (a b : MemberRow) : bool := string_leb (r_node_id a) (r_node_id b).

Definition Nodes : D (list Member) :=
  let? rows := query (λ s, ORDER_BY by_node_id (c_nodes s)) in
  let* now := clock in
  ok_ ((λ r, scanNode r now) <$> rows).

Definition GetNode (nodeID : string) : D Member :=
  let* r := queryRow (SELECT nodes (λ r, r_node_id r =s nodeID)) in
  let* now := clock in
  match r with
  | Err e => fail (Classify e)
  | Ok None => fail (Classify ENoRows)
  | Ok (Some r) => ok_ (scanNode r now)
  end.

Definition MarkStale (nodeID : string) (stale : bool) : D () :=
  let flag := if stale then 1 else 0 in
  let? _ := exec (UPDATE nodes (λ r, r_node_id r =s nodeID)
    (λ r, r {{ r_stale := flag; r_version := r_version r + 1 }})) in
  ok_ ().

Definition RemoveNode (nodeID : string) : D () := Transact (
  let! _ := TxDelete cluster_locks r_lock_name
    (λ r, (r_lock_name r =s PrimaryLockName) && (r_owner r =s nodeID)) in
  let! _ := TxDelete nodes r_node_id (λ r, r_node_id r =s nodeID) in
  txOk ()).

Definition fresh_at (cutoff : Z) (r : MemberRow) : bool := (cutoff <=? r_last_seen r) && (r_stale r =? 0).

Definition HealthyNodes : D (list string) :=
  let* now := clock in
  let cutoff := unix (now - DegradedAfter) in
  let? rows := query (λ s, ORDER_BY by_node_id (SELECT nodes (fresh_at cutoff) s)) in
  ok_ (r_node_id <$> rows).

Definition HasQuorum : D bool :=
  let* r := query c_nodes in
  match r with
  | Err e => fail (Classify e)
  | Ok all =>
      let total := Z.of_nat (length all) in
      if total =? 0 then ok_ true else
      let? healthy := HealthyNodes in
      ok_ (total / 2 + 1 <=? Z.of_nat (length healthy))
  end.

(** * Locks *)

Definition acquireTx (name owner token : string) (now expires : Z) : TXC () :=
  let! _ := TxDelete cluster_locks r_lock_name
    (λ r, (r_lock_name r =s name) && (r_expires_at r <=? unix now)) in
  let! r := txTry (TxInsert cluster_locks same_lock (mkLockRow name owner token (unix now) (unix expires))) in
  match r with
  | Ok _ => txOk ()
  | Err err => if isDuplicateRow err then txErr ErrLockHeld else txErr err
  end.

Definition AcquireLock (name owner : string) (ttl : Z) : D Lock :=
  if TrimSpaceU name =s "" then fail (Plain "cluster: lock requires a name") else
  let ttl := if ttl <=? 0 then PrimaryLeaseTTL else ttl in
  let* token := randomToken in
  let* now := clock in
  let expires := now + ttl in
  let? _ := Transact (acquireTx name owner token now expires) in
  ok_ (mkLock name owner token expires).

(** The lock with its new expiry. *)
Definition Refresh (l : Lock) (ttl : Z) : D Lock :=
  let ttl := if ttl <=? 0 then PrimaryLeaseTTL else ttl in
  let* now := clock in
  let expires := now + ttl in
  let? n := exec (UPDATE cluster_locks
    (λ r, (r_lock_name r =s l_Name l) && (r_token r =s l_Token l) && (unix now <? r_expires_at r))
    (λ r, r {{ r_expires_at := unix expires }})) in
  match n with
  | Err e => fail e
  | Ok n => if n =? 0 then fail ErrLockHeld else ok_ (l {{ l_ExpiresAt := expires }})
  end.

Definition Release (l : Lock) : D () :=
  let? _ := exec (λ s, DELETE cluster_locks
    (λ r, (r_lock_name r =s l_Name l) && (r_token r =s l_Token l))
    (s {{ c_released := l_Token l :: c_released s }})) in
  ok_ ().

Definition WithLock (name owner : string) (ttl : Z) (fn : D ()) : D () :=
  let? lock := AcquireLock name owner ttl in
  let* r := fn in
  let* _ := Release lock in
  Ret r.

(** * The primary *)

Definition smallest (ids : list string) : option string := hd_error (sort_strings ids).

(** The empty string when no node is healthy. *)
Definition lowestHealthyNode (now : Z) : TXC string :=
  let cutoff := unix (now - DegradedAfter) in
  let! r := txTry (txRead (SELECT nodes (fresh_at cutoff))) in
  match r with
  | Err e => if db_IsNotFound e then txOk "" else txErr (Classify e)
  | Ok rows => txOk (default "" (smallest (r_node_id <$> rows)))
  end.

Definition claimPrimary (nodeID : string) (now expires : Z) : TXC bool :=
  let! eligible := lowestHealthyNode now in
  if negb (eligible =s "") && negb (eligible =s nodeID) then txOk false else
  let! _ := TxDelete cluster_locks r_lock_name (λ r, r_lock_name r =s PrimaryLockName) in
  let! token := txPeek (λ e _, e_random e) in
  let! r := txTry (TxInsert cluster_locks same_lock
    (mkLockRow PrimaryLockName nodeID token (unix now) (unix expires))) in
  match r with
  | Ok _ => txOk true
  | Err err => if isDuplicateRow err then txOk false else txErr err
  end.

Definition electTx (nodeID : string) (now expires : Z) : TXC bool :=
  let! r := txTry (txRead (SELECT cluster_locks (λ r, r_lock_name r =s PrimaryLockName))) in
  match r with
  | Ok (r :: _) =>
      if unix now <? r_expires_at r then
        if negb (r_owner r =s nodeID) then txOk false else
        let! _ := TxUpdate cluster_locks r_lock_name
          (λ r, (r_lock_name r =s PrimaryLockName) && (r_owner r =s nodeID))
          (λ r, r {{ r_expires_at := unix expires }}) in
        txOk true
      else claimPrimary nodeID now expires
  | Ok [] => claimPrimary nodeID now expires
  | Err e => if db_IsNotFound e then claimPrimary nodeID now expires else txErr (Classify e)
  end.

Definition ElectPrimary (nodeID : string) : D bool :=
  if TrimSpaceU nodeID =s "" then fail (Plain "cluster: election requires a node id") else
  let* now := clock in
  Transact (electTx nodeID now (now + PrimaryLeaseTTL)).

Definition PrimaryID : D string :=
  let* r := queryRow (SELECT cluster_locks (λ r, r_lock_name r =s PrimaryLockName)) in
  match r with
  | Err e => if db_IsNotFound e then ok_ "" else fail (Classify e)
  | Ok None => ok_ ""
  | Ok (Some r) =>
      let* now := clock in
      ok_ (if r_expires_at r <=? unix now then "" else r_owner r)
  end.

Definition IsPrimary (nodeID : string) : D bool :=
  let? owner := PrimaryID in
  ok_ (negb (owner =s "") && (owner =s nodeID)).
End cluster.
