(* ===== verification/ClusterLock.v ===== *)
(** What the locks of a cluster promise: a lock that has not lapsed and was not
    released is nobody else's, under every interleaving of the operations of
    [Cluster.v] and every failure. *)
From stdpp Require Import prelude strings list gmap.
From Stdlib Require Import ZArith Lia.
From S2P Require Import Prelude GoTime Errors Threads Sql Rely Tran Text Cluster.

Notation names s := (r_lock_name <$> c_locks s).

Definition lapsed (r : LockRow) (s : Cluster) : Prop := r_expires_at r ≤ unix (c_clock s).

(** The same acquisition, perhaps refreshed. *)
Definition same_holder (r r' : LockRow) : Prop :=
  r_lock_name r' = r_lock_name r ∧ r_owner r' = r_owner r ∧ r_token r' = r_token r ∧
  r_acquired_at r' = r_acquired_at r.

(** A row that a step takes away. *)
Definition may_go (r : LockRow) (s s' : Cluster) : Prop :=
  lapsed r s ∨ r_token r ∈ c_released s' ∨ r_lock_name r = PrimaryLockName.

Record lock_step (s s' : Cluster) : Prop := {
  ls_clock : c_clock s ≤ c_clock s';
  ls_released : c_released s ⊆ c_released s';
  ls_names : NoDup (names s) → NoDup (names s');
  ls_rows : ∀ r, r ∈ c_locks s → (∃ r', r' ∈ c_locks s' ∧ same_holder r r') ∨ may_go r s s' }.

Definition one_each (s : Cluster) : Prop := NoDup (names s).

#[global] Instance one_each_dec s : Decision (one_each s).
Proof. unfold one_each. apply _. Defined.

(** ** Kinds of steps *)

Lemma lock_step_other s s' : c_locks s' = c_locks s → c_clock s ≤ c_clock s' →
  c_released s ⊆ c_released s' → lock_step s s'.
Proof.
  intros E Hc Hr. split; rewrite ?E; [done.. |]. intros r Hr'. left. by exists r.
Qed.

#[global] Instance lock_step_refl : Reflexive lock_step.
Proof. intros s. by apply lock_step_other. Qed.

(** Rows are dropped, and others appear. *)
Lemma lock_step_replace s s' (P : LockRow → bool) new : c_locks s' = List.filter (λ r, negb (P r)) (c_locks s) ++ new →
  c_clock s ≤ c_clock s' → c_released s ⊆ c_released s' →
  (∀ r, r ∈ c_locks s → P r = true → may_go r s s') →
  NoDup (r_lock_name <$> new) →
  (∀ r r', r ∈ new → r' ∈ List.filter (λ r, negb (P r)) (c_locks s) → same_lock r r' = false) →
  lock_step s s'.
Proof.
  intros E Hc Hr Hgo Hnew Hclash. split; [done.. | |].
  - intros Hn. rewrite E, fmap_app. apply NoDup_app. split; [| split; [| done]].
    + revert Hn. generalize (c_locks s). intros l. induction l as [| r l IH]; cbn; [done |].
      intros [Hni Hn]%NoDup_cons. destruct (negb (P r)); cbn; [| by apply IH].
      apply NoDup_cons. split; [| by apply IH]. intros (r' & E' & Hr')%list_elem_of_fmap. apply Hni.
      apply list_elem_of_fmap. exists r'. split; [done |]. by apply list_elem_of_In, filter_In in Hr' as [?%list_elem_of_In _].
    + intros x (r1 & -> & H1)%list_elem_of_fmap (r2 & E2 & H2)%list_elem_of_fmap.
      specialize (Hclash _ _ H2 H1). unfold same_lock in Hclash. apply seqb_neq in Hclash. congruence.
  - intros r Hin. destruct (P r) eqn:EP; [right; by apply Hgo |]. left. exists r. split; [| done].
    rewrite E. apply elem_of_app. left. apply list_elem_of_In, filter_In. by rewrite EP, <-list_elem_of_In.
Qed.

(** Rows are refreshed. *)
Lemma lock_step_set s s' (P : LockRow → bool) f : c_locks s' = (λ r, if P r then f r else r) <$> c_locks s →
  c_clock s ≤ c_clock s' → c_released s ⊆ c_released s' → (∀ r, P r = true → same_holder r (f r)) →
  lock_step s s'.
Proof.
  intros E Hc Hr Hf.
  assert (∀ r : LockRow, same_holder r (if P r then f r else r)) as Hsame by (intros r; destruct (P r) eqn:?; [by apply Hf | done]).
  split; [done.. | |].
  - rewrite E, <-list_fmap_compose. intros Hn.
    replace (r_lock_name ∘ _ <$> c_locks s) with (names s); [done |].
    apply list_fmap_ext. intros i r _. cbn. symmetry. apply Hsame.
  - intros r Hin. left. eexists. split; [| apply Hsame]. rewrite E.
    by apply (list_elem_of_fmap_2 (λ r, if P r then f r else r)).
Qed.

Notation J := (kept_so_far one_each lock_step).
Notation wpC := (wp J lock_step).
Notation Safe := (safe J lock_step).

(** The clock never falls behind a time that was read. *)
Definition read_at (t : Z) (h : list Cluster) : Prop := ∃ s, s ∈ h ∧ t ≤ c_clock s.

Lemma read_later t h h' : h `suffix_of` h' → read_at t h → read_at t h'.
Proof. intros [l ->] (s & Hs & Ht). exists s. set_solver. Qed.

Lemma clock_mono s s' : rtc lock_step s s' → c_clock s ≤ c_clock s'.
Proof. induction 1 as [| s1 s2 s3 [Hc _ _ _] _ IH]; lia. Qed.

Lemma read_now t h s h' : read_at t h → h `suffix_of` s :: h' → J (s :: h') → t ≤ c_clock s.
Proof.
  intros Hr Hs [_ Hc]. apply (read_later _ _ _ Hs) in Hr as (s1 & Hin & Ht).
  pose proof (clock_mono _ _ (chain_later _ _ _ _ Hc Hin)). lia.
Qed.

Lemma unix_mono a b : a ≤ b → unix a ≤ unix b.
Proof. intros H. by apply Z.div_le_mono. Qed.

Section safe.
Context `{!Driver}.

Lemma wp_clock {A} (k : Z → program A) h Q :
  (∀ now h', h `suffix_of` h' → read_at now h' → wpC (k now) h' Q) → wpC (pbind clock k) h Q.
Proof.
  intros Hk s h' e Hs HJ. split; [apply lock_step_other; cbn; [done | unfold constant; lia | done] |].
  apply Hk; [by apply suffix_cons_r |].
  eexists. split; [left |]. cbn. unfold constant. lia.
Qed.

Lemma Safe_clock : Safe clock.
Proof. intros h. apply (wp_clock Ret). done. Qed.

(** ** Transactions *)

Lemma filter_among l (rows : list LockRow) P : (∀ r, r ∈ rows → among r_lock_name l r = true → r ∈ l) →
  Forall (λ r, P r = true) l → ∀ r, r ∈ rows → among r_lock_name l r = true → P r = true.
Proof. intros Hin HP r Hr Ha. rewrite Forall_forall in HP. auto. Qed.

(** Writes to the table of members only. *)
Definition members_only (w : Write Cluster) : Prop := ∀ s s', w s = Some s' →
  c_locks s' = c_locks s ∧ c_clock s' = c_clock s ∧ c_released s' = c_released s.

Lemma commits_members ws h : Forall members_only ws → commits (J := J) (G := lock_step) ws h.
Proof.
  intros HF s h' s' _ _ Hr.
  assert (c_locks s' = c_locks s ∧ c_clock s' = c_clock s ∧ c_released s' = c_released s) as (E1 & E2 & E3).
  { clear h h'. revert s Hr. induction HF as [| w ws Hw HF IH]; intros s; cbn; [by intros [= ->] |].
    destruct (w s) as [s1 |] eqn:E; [| done]. intros Hr. destruct (Hw _ _ E) as (A1 & A2 & A3).
    destruct (IH _ Hr) as (B1 & B2 & B3). repeat split; congruence. }
  apply lock_step_other; [done | lia | by rewrite E3].
Qed.

Lemma members_locked l f : members_only (λ s, Some (f s)) → members_only (locked nodes r_node_id l f).
Proof. intros Hf s s' [-> _]%locked_inv. by apply Hf. Qed.

Lemma members_snoc ws w : Forall members_only ws → members_only w → Forall members_only (ws ++ [w]).
Proof. intros H1 H2. apply Forall_app. split; [done |]. by apply Forall_singleton. Qed.

Lemma txwp_heartbeatUpdate hb now ws h : Forall members_only ws →
  txwp (J := J) (G := lock_step) (heartbeatUpdate hb now) ws h (λ _ ws' _, Forall members_only ws').
Proof.
  intros Hws. apply txwp_bind, txwp_update; [| done]. intros l c h' _ _ _.
  assert (Forall members_only (ws ++ [locked nodes r_node_id l (setRows nodes r_node_id l
    (λ r, r {{ r_address := hb_Address hb; r_app_version := hb_AppVersion hb;
      r_commit_hash := hb_CommitHash hb; r_secrets := hb_Secrets hb; r_last_seen := unix now;
      r_version := r_version r + 1 }}))])) by (apply members_snoc; [done |]; apply members_locked; by intros ? ? [= <-]).
  by destruct c.
Qed.

Lemma Safe_WriteHeartbeat hb : Safe (WriteHeartbeat hb).
Proof.
  unfold WriteHeartbeat. destruct (_ =s ""); [apply Safe_fail |]. apply Safe_bind; [apply Safe_clock |]. intros now.
  apply Safe_Transact. intros h. apply txwp_bind.
  eapply txwp_mono; [by apply txwp_heartbeatUpdate |]. intros [[] | e] ws h1 _ Hws; [by apply commits_members | | done].
  apply txwp_bind, txwp_try, txwp_insert.
  - intros h2 _. apply txwp_ok, commits_members, members_snoc; [done |]. by intros s s' [-> _]%keyed_inv.
  - intros err h2 _. destruct (negb _); [done |]. apply txwp_bind.
    eapply txwp_mono; [by apply txwp_heartbeatUpdate |]. intros [? | e] ws' h3 _ Hws'; [by apply commits_members | done].
Qed.

(** The primary's row is dropped. *)
Lemma lock_step_primary l s s' : locked cluster_locks r_lock_name l (dropRows cluster_locks r_lock_name l) s = Some s' →
  Forall (λ r, r_lock_name r = PrimaryLockName) l → lock_step s s'.
Proof.
  intros [-> Hin]%locked_inv HP. eapply (lock_step_replace _ _ (among r_lock_name l) []); [| reflexivity | done | | |].
  - by rewrite app_nil_r.
  - intros r Hr Ha. right. right. rewrite Forall_forall in HP. auto.
  - constructor.
  - by intros ? ? ?%elem_of_nil.
Qed.

Lemma Safe_RemoveNode nodeID : Safe (RemoveNode nodeID).
Proof.
  apply Safe_Transact. intros h. apply txwp_bind, txwp_delete; [| done]. intros l c h1 _ HP _.
  apply txwp_bind, txwp_delete; [| done]. intros l2 c2 h2 _ _ _ s h' s' _ _. cbn.
  destruct (locked cluster_locks _ _ _ _) as [s1 |] eqn:E1; [| done]. cbn.
  destruct (locked nodes _ _ _ _) as [s2 |] eqn:E2; [| done]. intros [= <-].
  apply locked_inv in E2 as [-> _].
  destruct (lock_step_primary l s s1 E1) as [A1 A2 A3 A4]; [| by split].
  eapply Forall_impl; [exact HP |]. cbn. by intros r [?%seqb_eq _]%andb_prop.
Qed.

(** The row of a granted lock, which took the place of lapsed ones only. *)
Definition granted (row : LockRow) (h : list Cluster) : Prop :=
  ∃ s s' h0, h = s' :: s :: h0 ∧ row ∈ c_locks s' ∧
    ∀ r, r ∈ c_locks s → r_lock_name r = r_lock_name row → lapsed r s.

(** Rows dropped before a new one of their name is inserted. *)
Lemma replaced l row s s' : replay [locked cluster_locks r_lock_name l (dropRows cluster_locks r_lock_name l);
    keyed cluster_locks same_lock row] s = Some s' →
  (∀ r, r ∈ l → may_go r s s') →
  lock_step s s' ∧ row ∈ c_locks s' ∧ ∀ r, r ∈ c_locks s → r_lock_name r = r_lock_name row → r ∈ l.
Proof.
  cbn [replay]. destruct (locked _ _ _ _ _) as [s1 |] eqn:E1; [| done]. cbn.
  destruct (keyed _ _ _ _) as [s2 |] eqn:E2; [| done]. intros [= <-] Hgo.
  apply locked_inv in E1 as [-> Hin]. apply keyed_inv in E2 as [-> Hnew]. split_and!.
  - eapply (lock_step_replace _ _ (among r_lock_name l) [row]); [done | reflexivity | done | | |].
    + intros r Hr Ha. by apply Hgo, Hin.
    + apply NoDup_singleton.
    + intros r r' ->%list_elem_of_singleton Hr'. by apply Hnew.
  - apply elem_of_app. right. by apply list_elem_of_singleton.
  - intros r Hr En. destruct (among r_lock_name l r) eqn:Ea; [by apply Hin |].
    specialize (Hnew r). unfold same_lock in Hnew. rewrite seqb_neq in Hnew. exfalso. apply Hnew; [| done].
    apply list_elem_of_In, filter_In. by rewrite Ea, <-list_elem_of_In.
Qed.

Lemma wp_acquire name owner token now expires h : read_at now h →
  wpC (Transact (acquireTx name owner token now expires)) h
    (answers (λ _, granted (mkLockRow name owner token (unix now) (unix expires)))).
Proof.
  intros Hr. apply wp_Transact. intros h1 Hs1. apply txwp_bind, txwp_delete; [| done]. intros l c h2 Hs2 HP _.
  assert (read_at now h2) as Hr2 by (eapply read_later; [| exact Hr]; by trans h1).
  apply txwp_bind, txwp_try, txwp_insert; [| intros err h3 _; by destruct (isDuplicateRow err)].
  intros h3 Hs3. apply txwp_ok.
  assert (∀ s h' s', h3 `suffix_of` s :: h' → J (s :: h') → ∀ r, r ∈ l → lapsed r s ∧ may_go r s s') as Hl.
  { intros s h' s' Hs HJ r Hin. rewrite Forall_forall in HP. specialize (HP r Hin) as [_ HP]%andb_prop.
    pose proof (unix_mono _ _ (read_now now h2 s h' Hr2 ltac:(by trans h3) HJ)).
    assert (lapsed r s) by (unfold lapsed; lia). split; [done | by left]. }
  split.
  - intros s h' s' Hs HJ Hrep. eapply (replaced l _ s s' Hrep). intros r Hin. by eapply Hl.
  - intros s h' s' Hs HJ Hrep.
    destruct (replaced l _ s s' Hrep) as (_ & Hin & Hall); [intros r Hin; by eapply Hl |].
    exists s, s', h'. split_and!; [done | done |]. intros r Hr' En. destruct (Hl s h' s' Hs HJ r); [by apply Hall | done].
Qed.

(** A granted lock is in the table, and what was there under its name had
    lapsed. *)
Lemma wp_AcquireLock name owner ttl h :
  wpC (AcquireLock name owner ttl) h (answers (λ l h',
    l_Name l = name ∧ l_Owner l = owner ∧ ∃ at_, granted (mkLockRow name owner (l_Token l) at_ (unix (l_ExpiresAt l))) h')).
Proof.
  unfold AcquireLock. destruct (_ =s ""); [done |]. apply wp_bind.
  intros s h1 e Hs HJ. split; [reflexivity |]. apply wp_clock. intros now h2 Hs2 Hr. apply wp_bind.
  eapply wp_mono; [by apply wp_acquire |]. intros [[] | err] h3 _ Hg; [| done]. cbn. eauto.
Qed.

Lemma Safe_AcquireLock name owner ttl : Safe (AcquireLock name owner ttl).
Proof. intros h. eapply wp_mono; [apply wp_AcquireLock | done]. Qed.

Lemma Safe_Refresh l ttl : Safe (Refresh l ttl).
Proof.
  apply Safe_bind; [apply Safe_clock |]. intros now. apply Safe_bindD; [| intros []; safely].
  apply Safe_exec. intros s. eapply lock_step_set; [done | reflexivity | done |]. done.
Qed.

Lemma Safe_Release l : Safe (Release l).
Proof.
  apply Safe_bindD; [| intros; safely]. apply Safe_exec. intros s.
  eapply (lock_step_replace _ _ (λ r, (r_lock_name r =s l_Name l) && (r_token r =s l_Token l)) []).
  - by rewrite app_nil_r.
  - reflexivity.
  - cbn. unfold constant. set_solver.
  - intros r _ [_ E%seqb_eq]%andb_prop. right. left. rewrite E. left.
  - constructor.
  - by intros ? ? ?%elem_of_nil.
Qed.

Lemma Safe_WithLock name owner ttl fn : Safe fn → Safe (WithLock name owner ttl fn).
Proof.
  intros Hf. apply Safe_bindD; [apply Safe_AcquireLock |]. intros l. apply Safe_bind; [done |]. intros r.
  apply Safe_bind; [apply Safe_Release |]. intros _. apply Safe_ret.
Qed.

(** ** The election *)

Lemma txwp_lowest now ws h (Q : Res string → list (Write Cluster) → list Cluster → Prop) :
  (∀ id h', Q (Ok id) ws h') → (∀ e h', Q (Err e) ws h') →
  txwp (J := J) (G := lock_step) (lowestHealthyNode now) ws h Q.
Proof.
  intros HQ HE. apply txwp_bind, txwp_try, txwp_read; [intros; apply txwp_ok, HQ |].
  intros e h' _. destruct (db_IsNotFound e); [apply txwp_ok, HQ | apply txwp_err, HE].
Qed.

Lemma commits_none h : commits (J := J) (G := lock_step) [] h.
Proof. intros s h' s' _ _ [= <-]. reflexivity. Qed.

Lemma commits_primary l h : Forall (λ r, r_lock_name r = PrimaryLockName) l →
  commits (J := J) (G := lock_step) [locked cluster_locks r_lock_name l (dropRows cluster_locks r_lock_name l)] h.
Proof.
  intros HP s h' s' _ _. cbn. destruct (locked _ _ _ _ _) eqn:E; [| done]. intros [= <-].
  by eapply lock_step_primary.
Qed.

Lemma txwp_claim nodeID now expires h : txwp (J := J) (G := lock_step) (claimPrimary nodeID now expires) [] h
  (λ r ws h', match r with Ok _ => commits (J := J) (G := lock_step) ws h' | Err _ => True end).
Proof.
  apply txwp_bind, txwp_lowest; [| done]. intros id h1. destruct (_ && _); [apply txwp_ok, commits_none |].
  apply txwp_bind, txwp_delete; [| done]. intros l c h2 _ HP _.
  assert (Forall (λ r, r_lock_name r = PrimaryLockName) l) as HP'.
  { eapply Forall_impl; [exact HP |]. cbn. by intros r ?%seqb_eq. }
  apply txwp_bind, txwp_peek. intros e s h3 _ _. apply txwp_bind, txwp_try, txwp_insert.
  - intros h4 _. apply txwp_ok. intros s2 h5 s3 _ _ Hrep. eapply (replaced l _ s2 s3 Hrep).
    intros r Hr. right. right. rewrite Forall_forall in HP'. auto.
  - intros err h4 _. destruct (isDuplicateRow err); [| done]. apply txwp_ok. by apply commits_primary.
Qed.

Lemma Safe_ElectPrimary nodeID : Safe (ElectPrimary nodeID).
Proof.
  unfold ElectPrimary. destruct (_ =s ""); [apply Safe_fail |]. apply Safe_bind; [apply Safe_clock |]. intros now.
  apply Safe_Transact. intros h. apply txwp_bind, txwp_try, txwp_read.
  - intros s h1 v _ _ _. destruct (SELECT _ _ v) as [| r rs]; [apply txwp_claim |].
    destruct (unix now <? r_expires_at r); [| apply txwp_claim].
    destruct (negb _); [apply txwp_ok, commits_none |].
    apply txwp_bind, txwp_update; [| done]. intros l c h2 _ _ _. apply txwp_ok. intros s2 h3 s3 _ _. cbn.
    destruct (locked _ _ _ _ _) eqn:E; [| done]. intros [= <-]. apply locked_inv in E as [-> _].
    by eapply lock_step_set.
  - intros e h1 _. destruct (db_IsNotFound e); [apply txwp_claim | done].
Qed.

Lemma Safe_MarkStale nodeID b : Safe (MarkStale nodeID b).
Proof. apply Safe_bindD; [| intros; safely]. apply Safe_exec. intros s. by apply lock_step_other. Qed.

Lemma Safe_HealthyNodes : Safe HealthyNodes.
Proof. apply Safe_bind; [apply Safe_clock |]. intros now. cbn zeta. safely. Qed.

Lemma Safe_HasQuorum : Safe HasQuorum.
Proof.
  apply Safe_bind; [apply Safe_query |]. intros [l | e]; [cbn zeta | safely]. destruct (_ =? 0); [safely |].
  apply Safe_bindD; [apply Safe_HealthyNodes |]. intros. safely.
Qed.

Lemma Safe_Nodes : Safe Nodes.
Proof. apply Safe_bindD; [safely |]. intros l. apply Safe_bind; [apply Safe_clock |]. intros. safely. Qed.

Lemma Safe_GetNode nodeID : Safe (GetNode nodeID).
Proof.
  apply Safe_bind; [safely |]. intros r. apply Safe_bind; [apply Safe_clock |]. intros. destruct r as [[] |]; safely.
Qed.

Lemma Safe_PrimaryID : Safe PrimaryID.
Proof.
  apply Safe_bind; [safely |]. intros [[r |] | e]; [apply Safe_bind; [apply Safe_clock | intros; safely] | safely | safely].
Qed.

Lemma Safe_IsPrimary nodeID : Safe (IsPrimary nodeID).
Proof. apply Safe_bindD; [apply Safe_PrimaryID |]. intros. safely. Qed.
End safe.

#[export] Hint Resolve Safe_clock Safe_WriteHeartbeat Safe_RemoveNode Safe_AcquireLock Safe_Refresh Safe_Release
  Safe_WithLock Safe_ElectPrimary Safe_MarkStale Safe_HealthyNodes Safe_HasQuorum Safe_Nodes Safe_GetNode
  Safe_PrimaryID Safe_IsPrimary : rely.

(** * All operations together *)

Section all.
Context `{!Driver}.

Inductive cluster_op : program () → Prop :=
| op_Heartbeat hb : cluster_op (ignore (WriteHeartbeat hb))
| op_Nodes : cluster_op (ignore Nodes)
| op_GetNode id : cluster_op (ignore (GetNode id))
| op_MarkStale id b : cluster_op (ignore (MarkStale id b))
| op_RemoveNode id : cluster_op (ignore (RemoveNode id))
| op_HealthyNodes : cluster_op (ignore HealthyNodes)
| op_HasQuorum : cluster_op (ignore HasQuorum)
| op_AcquireLock name owner ttl : cluster_op (ignore (AcquireLock name owner ttl))
| op_Refresh l ttl : cluster_op (ignore (Refresh l ttl))
| op_Release l : cluster_op (ignore (Release l))
| op_WithLock name owner ttl fn :
    cluster_op (ignore fn) → cluster_op (ignore (WithLock name owner ttl fn))
| op_ElectPrimary id : cluster_op (ignore (ElectPrimary id))
| op_PrimaryID : cluster_op (ignore PrimaryID)
| op_IsPrimary id : cluster_op (ignore (IsPrimary id)).

Lemma Safe_cluster_op p : cluster_op p → Safe p.
Proof.
  induction 1; apply Safe_ignore; auto with rely. apply Safe_WithLock. by eapply Safe_ignore.
Qed.

Lemma one_each_step s s' : one_each s → lock_step s s' → one_each s'.
Proof. intros Ho [_ _ Hn _]. by apply Hn. Qed.

Lemma cluster_kept s0 (c : sys Cluster Env) : one_each s0 → reachable cluster_op s0 c → J (seen c).
Proof. intros H0. apply reachable_kept; [apply one_each_step | done |]. intros p Hp. by apply Safe_cluster_op. Qed.

(** Row [r] of the [j]-th state, [i] the later one: still held, released, or lapsed
    in between. *)
Definition fate (h : list Cluster) (i j : nat) (s' : Cluster) (r : LockRow) : Prop :=
  (∃ r', r' ∈ c_locks s' ∧ same_holder r r') ∨
  r_token r ∈ c_released s' ∨
  ∃ k s1 r1, (i ≤ k ≤ j)%nat ∧ h !! k = Some s1 ∧ r1 ∈ c_locks s1 ∧ same_holder r r1 ∧ lapsed r1 s1.

Lemma released_mono s s' : rtc lock_step s s' → c_released s ⊆ c_released s'.
Proof. induction 1 as [| s1 s2 s3 [_ Hr _ _] _ IH]; [done | by etrans]. Qed.

Lemma lock_fate h i j s s' r : chain lock_step h → h !! i = Some s' → h !! j = Some s →
  (i ≤ j)%nat → r ∈ c_locks s → r_lock_name r ≠ PrimaryLockName → fate h i j s' r.
Proof.
  intros Hc Hi. revert s r. induction j as [| j IH]; intros s r Hj Hle Hr Hn.
  { assert (i = 0%nat) as -> by lia. assert (s' = s) as -> by congruence. left. by exists r. }
  destruct (decide (i = S j)) as [-> |]; [assert (s' = s) as -> by congruence; left; by exists r |].
  destruct (lookup_lt_is_Some_2 h j) as [s1 H1]; [apply lookup_lt_Some in Hj; lia |].
  destruct (chain_step _ _ _ _ _ Hc Hj H1) as [_ _ _ Hrow].
  destruct (Hrow r Hr) as [(r1 & Hr1 & Hsame) | [Hl | [Ht | Hp]]]; [| | | done].
  - destruct (IH s1 r1 H1 ltac:(lia) Hr1) as [(r2 & Hr2 & Hs2) | [Ht | (k & s2 & r2 & Hk & H2 & Hr2 & Hs2 & Hl)]].
    + by destruct Hsame as (-> & _).
    + left. exists r2. split; [done |]. unfold same_holder in *. naive_solver congruence.
    + right. left. by destruct Hsame as (_ & _ & <- & _).
    + right. right. exists k, s2, r2. split_and!; [lia | lia | done | done | | done].
      unfold same_holder in *. naive_solver congruence.
  - right. right. exists (S j), s, r. split_and!; [lia | lia | done..].
  - right. left. eapply released_mono; [| exact Ht]. eapply chain_rtc; [done | exact Hi | exact H1 | lia].
Qed.

(** C16: A cluster lock excludes, whatever the nodes do at the same time, whichever
    statements fail, and at the isolation level READ COMMITTED: when a lock other
    than the primary lease is found under another token than before, the token was
    presented for release or the lease had lapsed by a time that some node had
    read. *)
Theorem cluster_lock_excludes s0 (c : sys Cluster Env) i j s s' r r' :
  one_each s0 → reachable cluster_op s0 c →
  seen c !! i = Some s' → seen c !! j = Some s → (i ≤ j)%nat →
  r ∈ c_locks s → r' ∈ c_locks s' → r_lock_name r' = r_lock_name r → r_lock_name r ≠ PrimaryLockName →
  r_token r' ≠ r_token r →
  r_token r ∈ c_released s' ∨
  ∃ k s1 r1, (i ≤ k ≤ j)%nat ∧ seen c !! k = Some s1 ∧ r1 ∈ c_locks s1 ∧ same_holder r r1 ∧ lapsed r1 s1.
Proof.
  intros H0 Hr Hi Hj Hle Hin Hin' En Hp Ht. destruct (cluster_kept s0 c H0 Hr) as [Hone Hc].
  destruct (lock_fate _ i j s s' r Hc Hi Hj Hle Hin Hp) as [(r2 & Hr2 & E1 & _ & E2 & _) | Hf]; [| exact Hf].
  exfalso. apply Ht. rewrite Forall_lookup in Hone. specialize (Hone i s' Hi).
  assert (r' = r2) as ->; [| done].
  apply list_elem_of_lookup_1 in Hin' as (a & Ha). apply list_elem_of_lookup_1 in Hr2 as (b & Hb).
  assert (a = b) as <-; [| congruence].
  apply (NoDup_lookup (names s') a b (r_lock_name r)); [done | rewrite list_lookup_fmap, Ha; cbn; congruence |].
  rewrite list_lookup_fmap, Hb. cbn. congruence.
Qed.
End all.

(** * Runs *)

Section runs.
#[local] Instance sampleDriver : Driver := {| duplicate := Plain "UNIQUE constraint failed: cluster_locks.lock_name" |}.

(** A quiet moment. *)
Definition at_second (t : Z) (random : string) : Env := mkEnv (t * Second) random None false None None None.

Definition noCluster : Cluster := mkCluster [] [] 0 [].

(** The next [n] sections of goroutine [i]. *)
Definition goes (i n : nat) (e : Env) : list (@Move Cluster Env) := repeat (Go i e) n.

Definition takeover : sys Cluster Env :=
  foldl play (Sys noCluster [] [])
    (Begin (ignore (AcquireLock "job" "a" Second)) :: goes 0 8 (at_second 10 "t1") ++
     Begin (ignore (AcquireLock "job" "b" Second)) :: goes 0 8 (at_second 20 "t2")).

(** A lock of one second, taken over ten seconds later. *)
Lemma cluster_lock_excludes_witness :
  "t1" ∈ c_released (now_at takeover) ∨
  ∃ k s1 r1, (0 ≤ k ≤ 8)%nat ∧ seen takeover !! k = Some s1 ∧ r1 ∈ c_locks s1 ∧
    same_holder (mkLockRow "job" "a" "t1" 10 11) r1 ∧ lapsed r1 s1.
Proof.
  eapply (cluster_lock_excludes noCluster takeover 0 8 _ _ (mkLockRow "job" "a" "t1" 10 11)
    (mkLockRow "job" "b" "t2" 20 21)).
  - constructor.
  - apply play_reachable; [| apply rtc_refl]. intros p Hp. cbn in Hp. set_unfold in Hp.
    repeat destruct Hp as [Hp | Hp]; try discriminate; try done; injection Hp as ->; constructor.
  - vm_compute. reflexivity.
  - vm_compute. reflexivity.
  - lia.
  - vm_compute. left.
  - vm_compute. left.
  - reflexivity.
  - discriminate.
  - discriminate.
Defined.

(** The primary lease: between the look at the lease and the delete another node
    may be elected, whose live lease is then deleted. *)
Definition twoElections : sys Cluster Env :=
  foldl play (Sys noCluster [] [])
    (Begin (ignore (ElectPrimary "a")) :: goes 0 3 (at_second 10 "t1") ++
     Begin (ignore (ElectPrimary "b")) :: goes 0 10 (at_second 10 "t2") ++
     goes 1 7 (at_second 10 "t1")).

Example election_preempts :
  (∃ s r, s ∈ seen twoElections ∧ r ∈ c_locks s ∧ r_owner r = "b" ∧ ¬ lapsed r (now_at twoElections)) ∧
  c_locks (now_at twoElections) = [mkLockRow PrimaryLockName "a" "t1" 10 100].
Proof.
  split; [| vm_compute; reflexivity].
  exists (default noCluster (seen twoElections !! 7%nat)), (mkLockRow PrimaryLockName "b" "t2" 10 100).
  split_and!; [| vm_compute; left | reflexivity | vm_compute; intros H; by apply H].
  apply (list_elem_of_lookup_2 _ 7). vm_compute. reflexivity.
Qed.
End runs.
