(* ===== verification/Fleet.v ===== *)
(** The fleet of nodes: the data, the tables and the reads of
    [src/src/nodes/nodes.go] and [schema.go], and the lifecycle and the flags of
    [state.go].

    A node, a token, a credential or a task is a row of a table with a primary key;
    columns are Unix seconds and integers, the structs read from them have instants
    in nanoseconds.  The audit trail holds the event, the actor and the target of
    each entry.  The text an internal error carries for the log is joined to its
    cause. *)
From stdpp Require Import prelude strings list gmap.
From Stdlib Require Import ZArith Lia.
From S2P Require Import Prelude GoTime Errors Threads Sql Rely Tran Text Token NodeValidate Outbound.
From S2P Require Import Cluster.

(** * Parameters *)

(** A push to a node: address, headers and body. *)
Record Request := mkRequest { rq_url : string; rq_headers : list (string * string); rq_body : string }.

(** Its answer, and whether the body could be read. *)
Record Response := mkResponse { rs_StatusCode : Z; rs_read : bool }.

(** The libraries, the options of the service, and the outside world: JSON as the
    decoder accepts it, HMAC in hexadecimal, the network, and what the HTTP client
    answers. *)
Class FleetParams := {
  #[global] fleet_unicode :: Unicode;
  #[global] fleet_digest :: Digest;
  #[global] fleet_driver :: Driver;
  #[global] fleet_net :: Net;
  json_object : string → bool;                 (* one object and nothing after it *)
  json_compact : string → option string;
  hmac_sha256 : string → string → string;      (* key, message *)
  json_string : string → string;               (* a string as JSON *)
  request_ok : string → bool;                  (* http.NewRequest takes the address *)
  o_http : option (Env → Request → option Response);
  o_credTTL : Z }.

(** * Data *)

Definition RoleCluster : string := "cluster".
Definition RoleManaged : string := "managed".

Definition Role_Valid (r : string) : bool := (r =s RoleCluster) || (r =s RoleManaged).

Definition StatePending : string := "pending".
Definition StateEnrolled : string := "enrolled".
Definition StateOnline : string := "online".
Definition StateDegraded : string := "degraded".
Definition StateOffline : string := "offline".
Definition StateDrained : string := "drained".
Definition StateRemoved : string := "removed".

Definition DefaultEnrollmentTTL : Z := 3600 * Second.
Definition MaxEnrollmentTTL : Z := 7 * 24 * 3600 * Second.
Definition DefaultEnrollmentUses : Z := 1.
Definition MaxEnrollmentUses : Z := 64.
Definition DefaultTaskTimeout : Z := 300 * Second.
Definition MaxTaskTimeout : Z := 3600 * Second.
Definition DefaultMaxAttempts : Z := 3.
Definition MaxTaskAttempts : Z := 10.
Definition RetryBaseDelay : Z := 5 * Second.
Definition RetryMaxDelay : Z := 300 * Second.

Definition ClusterTokenPrefix : string := PrefixAdmin.
Definition ManagedTokenPrefix : string := PrefixAdminAgent.

Definition TokenPrefixFor (role : string) : string :=
  if role =s RoleCluster then ClusterTokenPrefix else ManagedTokenPrefix.

Record Node := mkNode {
  n_ID : string; n_Name : string; n_Role : string; n_State : string; n_StateReason : string;
  n_Address : string; n_CallbackURL : string; n_AgentVersion : string; n_Cordoned : bool;
  n_Maintenance : bool; n_EnrolledAt : Z; n_LastSeen : Z; n_StateChangedAt : Z; n_CreatedAt : Z;
  n_UpdatedAt : Z; n_Version : Z }.

Definition Schedulable (n : Node) : bool :=
  if n_Cordoned n || n_Maintenance n then false else
  (n_State n =s StateEnrolled) || (n_State n =s StateOnline) || (n_State n =s StateDegraded).

(** ** Rows *)

Record NodeRow := mkNodeRow {
  nr_id : string; nr_name : string; nr_role : string; nr_state : string; nr_state_reason : string;
  nr_address : string; nr_callback_url : string; nr_agent_version : string; nr_cordoned : Z;
  nr_maintenance : Z; nr_enrolled_at : Z; nr_last_seen : Z; nr_state_changed_at : Z;
  nr_created_at : Z; nr_updated_at : Z; nr_version : Z }.

Record TokenRow := mkTokenRow {
  tr_id : string; tr_token_hash : string; tr_display_prefix : string; tr_role : string;
  tr_node_id : string; tr_max_uses : Z; tr_uses : Z; tr_expires_at : Z; tr_revoked_at : Z;
  tr_created_by : string; tr_created_at : Z }.

Record CredentialRow := mkCredentialRow {
  cr_id : string; cr_node_id : string; cr_token_hash : string; cr_display_prefix : string;
  cr_issued_at : Z; cr_expires_at : Z; cr_revoked_at : Z; cr_last_used_at : Z }.

Record FactRow := mkFactRow {
  fr_node_id : string; fr_fact_key : string; fr_fact_value : string; fr_reported_at : Z }.

Record TaskRow := mkTaskRow {
  kr_id : string; kr_node_id : string; kr_action : string; kr_payload : string; kr_state : string;
  kr_attempts : Z; kr_max_attempts : Z; kr_timeout_seconds : Z; kr_created_by : string;
  kr_created_at : Z; kr_next_attempt_at : Z; kr_claimed_at : Z; kr_deadline_at : Z;
  kr_finished_at : Z; kr_exit_code : Z; kr_result : string; kr_error : string; kr_version : Z }.

#[global] Instance NodeRow_eq_dec : EqDecision NodeRow.
Proof. solve_decision. Defined.
#[global] Instance TokenRow_eq_dec : EqDecision TokenRow.
Proof. solve_decision. Defined.
#[global] Instance CredentialRow_eq_dec : EqDecision CredentialRow.
Proof. solve_decision. Defined.
#[global] Instance FactRow_eq_dec : EqDecision FactRow.
Proof. solve_decision. Defined.
#[global] Instance TaskRow_eq_dec : EqDecision TaskRow.
Proof. solve_decision. Defined.

Record ActionSpec := mkActionSpec {
  ac_Name : string; ac_Description : string; ac_Roles : list string; ac_MaxPayloadBytes : Z;
  ac_Timeout : Z; ac_MaxAttempts : Z }.

Record AuditEntry := mkAuditEntry { ev_event : string; ev_actor : string; ev_target : string }.

Record Fleet := mkFleet {
  fl_nodes : list NodeRow; fl_tokens : list TokenRow; fl_credentials : list CredentialRow;
  fl_facts : list FactRow; fl_tasks : list TaskRow; fl_actions : gmap string ActionSpec;
  fl_cluster : Cluster; fl_audit : list AuditEntry }.

Definition node_registry : Table Fleet NodeRow := mkTable fl_nodes (λ l s, s {{ fl_nodes := l }}).
Definition node_enrollment_tokens : Table Fleet TokenRow := mkTable fl_tokens (λ l s, s {{ fl_tokens := l }}).
Definition node_credentials : Table Fleet CredentialRow :=
  mkTable fl_credentials (λ l s, s {{ fl_credentials := l }}).
Definition node_facts : Table Fleet FactRow := mkTable fl_facts (λ l s, s {{ fl_facts := l }}).
Definition node_tasks : Table Fleet TaskRow := mkTable fl_tasks (λ l s, s {{ fl_tasks := l }}).

(** Rows that a primary key or a unique column keeps apart. *)
Definition clash_node (a b : NodeRow) : bool := nr_id a =s nr_id b.
Definition clash_token (a b : TokenRow) : bool :=
  (tr_id a =s tr_id b) || (tr_token_hash a =s tr_token_hash b).
Definition clash_credential (a b : CredentialRow) : bool :=
  (cr_id a =s cr_id b) || (cr_token_hash a =s cr_token_hash b).
Definition clash_fact (a b : FactRow) : bool :=
  (fr_node_id a =s fr_node_id b) && (fr_fact_key a =s fr_fact_key b).
Definition clash_task (a b : TaskRow) : bool := kr_id a =s kr_id b.

Notation program := (prog Fleet Env).
Notation D A := (prog Fleet Env (Res A)).
Notation TXF A := (TX Fleet A).

(** * nodes.go *)

Definition unixOrZero (sec : Z) : Z := if sec <=? 0 then zeroTime else sec * Second.

Definition unixOf (t : Z) : Z := if t =? zeroTime then 0 else unix t.

Definition boolInt (b : bool) : Z := if b then 1 else 0.

Definition scanNodeRow (r : NodeRow) : Node :=
  mkNode (nr_id r) (nr_name r) (nr_role r) (nr_state r) (nr_state_reason r) (nr_address r)
    (nr_callback_url r) (nr_agent_version r) (negb (nr_cordoned r =? 0)) (negb (nr_maintenance r =? 0))
    (unixOrZero (nr_enrolled_at r)) (unixOrZero (nr_last_seen r)) (unixOrZero (nr_state_changed_at r))
    (unixOrZero (nr_created_at r)) (unixOrZero (nr_updated_at r)) (nr_version r).

(** [s.now()]. *)
Definition now_ : program Z := peek (λ e _, e_now e).

(** [rand.Read] does not fail. *)
Definition newID : program string := peek (λ e _, e_random e).

Definition audit (event actor nodeID : string) : program () :=
  atomic (λ _ s, ((), s {{ fl_audit := fl_audit s ++ [mkAuditEntry event actor nodeID] }})).

Definition wrapInternal (err : error) (op : string) : error :=
  Wrap (Join (Plain ("nodes: " +:+ op)) err) CodeInternal 0 "Node operation failed".

Definition wrapVersioned (err : error) (op : string) : error :=
  if errors_Is err EConflict then ErrConcurrentUpdate else wrapInternal err op.

(** [if err != nil { return wrapInternal(err, op) }]. *)
Definition internally {A} (op : string) (m : D A) : D A :=
  let* r := m in
  match r with Ok a => ok_ a | Err e => fail (wrapInternal e op) end.

Definition versioned {A} (op : string) (m : D A) : D A :=
  let* r := m in
  match r with Ok a => ok_ a | Err e => fail (wrapVersioned e op) end.

(** A statement with its count. *)
Definition execCount (op : string) (f : Fleet → Z * Fleet) : D Z :=
  let? n := internally op (exec f) in
  match n with Err e => fail (wrapInternal e op) | Ok n => ok_ n end.

(** One row, [missing] when there is none. *)
Definition oneRow {R} (op : string) (missing : error) (f : Fleet → list R) : D R :=
  let* r := queryRow f in
  match r with
  | Err e => if db_IsNotFound e then fail missing else fail (wrapInternal e op)
  | Ok None => fail missing
  | Ok (Some r) => ok_ r
  end.

Definition node_is (nodeID : string) (r : NodeRow) : bool := nr_id r =s nodeID.

Definition checked {A} (r : Res A) : D A := Ret r.

Section nodes.
Context `{!FleetParams}.

Definition Get (nodeID : string) : D Node :=
  let? _ := checked (ValidateNodeID nodeID) in
  let? r := oneRow "load node" ErrNodeNotFound (SELECT node_registry (node_is nodeID)) in
  ok_ (scanNodeRow r).

Definition by_id (a b : NodeRow) : bool := string_leb (nr_id a) (nr_id b).

Definition List_ (role : string) : D (list Node) :=
  if negb (role =s "") && negb (Role_Valid role) then fail ErrInvalidRole else
  let? rows := internally "list nodes" (query (λ s,
    ORDER_BY by_id (SELECT node_registry (λ r, (role =s "") || (nr_role r =s role)) s))) in
  ok_ (scanNodeRow <$> rows).

(** * state.go *)

Definition allowedTransitions : list (string * list string) :=
  [(StatePending, [StateEnrolled; StateRemoved]);
   (StateEnrolled, [StateOnline; StateDegraded; StateOffline; StateDrained; StateEnrolled; StateRemoved]);
   (StateOnline, [StateDegraded; StateOffline; StateDrained; StateEnrolled; StateRemoved]);
   (StateDegraded, [StateOnline; StateOffline; StateDrained; StateEnrolled; StateRemoved]);
   (StateOffline, [StateOnline; StateDegraded; StateDrained; StateEnrolled; StateRemoved]);
   (StateDrained, [StateEnrolled; StateOnline; StateRemoved]);
   (StateRemoved, [])].

Definition State_Valid (s : string) : bool :=
  match assoc s allowedTransitions with Some _ => true | None => false end.

Definition CanTransition (from to : string) : bool :=
  match assoc from allowedTransitions with Some next => one_of to next | None => false end.

(** The guard of every versioned write. *)
Definition at_version (id : string) (version : Z) (r : NodeRow) : bool :=
  (nr_id r =s id) && (nr_version r =? version).

Definition transition (nodeID to reason actor event : string) : D Node :=
  let? node := Get nodeID in
  if negb (CanTransition (n_State node) to) then fail ErrInvalidTransition else
  let* now := now_ in
  let clean := truncate reason MaxReasonLen in
  let? _ := versioned "update node state" (UpdateVersioned
    (UPDATE node_registry (at_version (n_ID node) (n_Version node))
      (λ r, r {{ nr_state := to; nr_state_reason := clean; nr_state_changed_at := unixOf now;
                 nr_updated_at := unixOf now; nr_version := nr_version r + 1 }}))) in
  let* _ := audit event (truncate actor MaxNodeNameLen) (n_ID node) in
  ok_ (node {{ n_State := to; n_StateReason := clean; n_StateChangedAt := now; n_UpdatedAt := now;
               n_Version := n_Version node +! 1 }}).

Definition Transition (nodeID to reason actor : string) : D Node :=
  if negb (State_Valid to) then fail ErrInvalidTransition else
  if to =s StateRemoved then fail ErrConfirmationRequired else
  transition nodeID to reason actor "nodes.state_changed".

(** An authenticated node. *)
Record Identity := mkIdentity { id_Node : Node; id_CredentialID : string }.

Definition RecordContact (id : Identity) (agentVersion : string) : D Node :=
  let node := id_Node id in
  let* now := now_ in
  let trimmed := TrimSpaceU agentVersion in
  if negb (trimmed =s "") && negb (isPrintableToken trimmed) then fail ErrInvalidFacts else
  let version := truncate agentVersion MaxVersionLen in
  let version := if version =s "" then n_AgentVersion node else version in
  let? _ := internally "record node contact" (exec
    (UPDATE node_registry (node_is (n_ID node))
      (λ r, r {{ nr_last_seen := unixOf now; nr_agent_version := version;
                 nr_updated_at := unixOf now; nr_version := nr_version r + 1 }}))) in
  let node := node {{ n_LastSeen := now; n_AgentVersion := version; n_UpdatedAt := now;
                      n_Version := n_Version node +! 1 }} in
  if n_Maintenance node || (n_State node =s StateDrained) || (n_State node =s StateOnline)
  then ok_ node else
  if negb (CanTransition (n_State node) StateOnline) then ok_ node else
  transition (n_ID node) StateOnline "contact" "node" "nodes.online".

Record flagUpdate := mkflagUpdate { fu_cordoned : option bool; fu_maintenance : option bool }.

Definition setFlags (nodeID : string) (upd : flagUpdate) (reason actor event : string) : D Node :=
  let? node := Get nodeID in
  if n_State node =s StateRemoved then fail ErrInvalidTransition else
  let cordoned := default (n_Cordoned node) (fu_cordoned upd) in
  let maintenance := default (n_Maintenance node) (fu_maintenance upd) in
  let* now := now_ in
  let clean := truncate reason MaxReasonLen in
  let? _ := versioned "update node scheduling flags" (UpdateVersioned
    (UPDATE node_registry (at_version (n_ID node) (n_Version node))
      (λ r, r {{ nr_cordoned := boolInt cordoned; nr_maintenance := boolInt maintenance;
                 nr_state_reason := clean; nr_updated_at := unixOf now;
                 nr_version := nr_version r + 1 }}))) in
  let* _ := audit event (truncate actor MaxNodeNameLen) (n_ID node) in
  ok_ (node {{ n_Cordoned := cordoned; n_Maintenance := maintenance; n_StateReason := clean;
               n_UpdatedAt := now; n_Version := n_Version node +! 1 }}).

Definition Cordon (nodeID reason actor : string) : D Node :=
  setFlags nodeID (mkflagUpdate (Some true) None) reason actor "nodes.cordoned".

Definition Uncordon (nodeID actor : string) : D Node :=
  setFlags nodeID (mkflagUpdate (Some false) None) "" actor "nodes.uncordoned".

Definition SetMaintenance (nodeID : string) (on : bool) (reason actor : string) : D Node :=
  let event := if on then "nodes.maintenance_started" else "nodes.maintenance_cleared" in
  setFlags nodeID (mkflagUpdate None (Some on)) reason actor event.

Record SweepResult := mkSweepResult { sw_Degraded : Z; sw_Offline : Z }.

(** The state the silence calls for. *)
Definition swept (node : Node) (now : Z) : option string :=
  if n_Maintenance node then None else
  if negb (one_of (n_State node) [StateOnline; StateDegraded; StateEnrolled]) then None else
  let reference := if n_LastSeen node =? zeroTime then n_EnrolledAt node else n_LastSeen node in
  if reference =? zeroTime then None else
  let age := time_Sub now reference in
  let want := if OfflineAfter <=? age then Some StateOffline
              else if DegradedAfter <=? age then Some StateDegraded else None in
  match want with
  | Some w => if n_State node =s w then None else Some w
  | None => None
  end.

(** The counts so far are returned with an error, too. *)
Fixpoint sweepLoop (nodes : list Node) (now : Z) (result : SweepResult)
    : program (SweepResult * option error) :=
  match nodes with
  | [] => Ret (result, None)
  | node :: rest =>
      match swept node now with
      | None => sweepLoop rest now result
      | Some want =>
          let* r := transition (n_ID node) want "liveness sweep" "scheduler" "nodes.liveness" in
          match r with
          | Err e => Ret (result, Some e)
          | Ok _ =>
              sweepLoop rest now
                (if want =s StateOffline then result {{ sw_Offline := sw_Offline result + 1 }}
                 else result {{ sw_Degraded := sw_Degraded result + 1 }})
          end
      end
  end.

Definition SweepLiveness : program (SweepResult * option error) :=
  let* r := List_ "" in
  match r with
  | Err e => Ret (mkSweepResult 0 0, Some e)
  | Ok nodes => let* now := now_ in sweepLoop nodes now (mkSweepResult 0 0)
  end.

Definition LastContact (n : Node) (now : Z) : Z :=
  if n_LastSeen n =? zeroTime then 0 else time_Sub now (n_LastSeen n).
End nodes.

(** * A setting for examples *)

Definition asciiUnicode : Unicode :=
  {| u_letter := λ _, false; u_digit := λ _, false; u_upper := λ r, r; u_lower := λ r, r |}.

(** Digests and signatures spell out what they are made of. *)
Definition plainFleet : FleetParams :=
  {| fleet_unicode := asciiUnicode; fleet_digest := {| sha256hex := λ s, "sha:" +:+ s |};
     fleet_driver := {| duplicate := Plain "UNIQUE constraint failed: node_registry.id" |};
     fleet_net := {| url_parse := λ s, Some ("https", s); parse_ip := λ _, None; lookup_ip := λ _ _, None |};
     json_string := quote; json_object := λ s, HasPrefix s "{"; json_compact := Some;
     hmac_sha256 := λ k m, k +:+ ":" +:+ m; request_ok := λ _, true; o_http := None; o_credTTL := 0 |}.

Definition noFleet : Fleet := mkFleet [] [] [] [] [] ∅ (mkCluster [] [] 0 []) [].
