(* ===== verification/FleetTransport.v ===== *)
(** The way from the control plane to a node: [src/src/nodes/transport.go], and the
    handle over the shared control plane of [cluster.go]. *)
From stdpp Require Import prelude strings list gmap.
From Stdlib Require Import ZArith Lia.
From S2P Require Import Prelude GoTime Errors Threads Sql Rely Tran Text Token NodeValidate Outbound.
From S2P Require Import Cluster Fleet.

(** * transport.go *)

Definition HeaderNodeID : string := "X-Cashp-Node".
Definition HeaderTimestamp : string := "X-Cashp-Timestamp".
Definition HeaderSignature : string := "X-Cashp-Signature".

Definition NotifySkew : Z := 300 * Second.

Record notification := mknotification { nt_NodeID : string; nt_Event : string; nt_IssuedAt : Z }.

(** Newest first, then by id. *)
Definition by_issue (a b : CredentialRow) : bool :=
  if cr_issued_at a =? cr_issued_at b then string_leb (cr_id a) (cr_id b)
  else cr_issued_at b <? cr_issued_at a.

Section transport.
Context `{!FleetParams}.

Definition SetCallbackURL (nodeID rawURL actor : string) : D Node :=
  let? node := Get nodeID in
  if negb (n_Role node =s RoleManaged) then fail ErrCallbackNotAllowed else
  if n_State node =s StateRemoved then fail ErrInvalidTransition else
  let clean := truncate rawURL MaxAddressLen in
  let* allowed := if clean =s "" then Ret true
                  else peek (λ e _, is_ok (ValidateOutboundURL e clean)) in
  if negb allowed then fail ErrCallbackNotAllowed else
  let* now := now_ in
  let? _ := versioned "update node callback" (UpdateVersioned
    (UPDATE node_registry (at_version (n_ID node) (n_Version node))
      (λ r, r {{ nr_callback_url := clean; nr_updated_at := unixOf now; nr_version := nr_version r + 1 }}))) in
  let* _ := audit "nodes.callback_set" (truncate actor MaxNodeNameLen) (n_ID node) in
  ok_ (node {{ n_CallbackURL := clean; n_UpdatedAt := now; n_Version := n_Version node +! 1 }}).

(** [json.Marshal]. *)
Definition marshal (n : notification) : string :=
  "{" +:+ quote "node_id" +:+ ":" +:+ json_string (nt_NodeID n) +:+ "," +:+ quote "event" +:+ ":" +:+
  json_string (nt_Event n) +:+ "," +:+ quote "issued_at" +:+ ":" +:+ itoa (nt_IssuedAt n) +:+ "}".

Definition SignNotification (key timestamp nodeID body : string) : string :=
  hmac_sha256 key (timestamp +:+ LF +:+ nodeID +:+ LF +:+ body).

Definition VerifyNotification (key timestamp nodeID body signature : string) (now : Z) : bool :=
  match ParseInt timestamp with
  | None => false
  | Some issued =>
      let drift := time_Sub now (issued * Second) in
      let drift := if drift <? 0 then -! drift else drift in
      if NotifySkew <? drift then false
      else ConstantTimeEqualString (SignNotification key timestamp nodeID body) signature
  end.

Definition signingKey (nodeID : string) : D string :=
  let? r := oneRow "load node signing key" ErrCredentialRejected (λ s,
    LIMIT 1 0 (ORDER_BY by_issue
      (SELECT node_credentials (λ r, (cr_node_id r =s nodeID) && (cr_revoked_at r =? 0)) s))) in
  ok_ (cr_token_hash r).

(** The push itself, signed. *)
Definition push (node : Node) (key : string) (now : Z) : Request :=
  let body := marshal (mknotification (n_ID node) "tasks_available" (unix now)) in
  let stamp := itoa (unix now) in
  mkRequest (n_CallbackURL node)
    [("Content-Type", "application/json"); (HeaderNodeID, n_ID node); (HeaderTimestamp, stamp);
     (HeaderSignature, SignNotification key stamp (n_ID node) body)] body.

Definition Notify (node : Node) : D () :=
  match o_http with
  | None => fail ErrTransportUnavailable
  | Some Do =>
      if negb (n_Role node =s RoleManaged) then fail ErrCallbackNotAllowed else
      if n_CallbackURL node =s "" then fail ErrNoCallback else
      let* allowed := peek (λ e _, is_ok (ValidateOutboundURL e (n_CallbackURL node))) in
      if negb allowed then fail ErrCallbackNotAllowed else
      let? key := signingKey (n_ID node) in
      let* now := now_ in
      if negb (request_ok (n_CallbackURL node)) then fail ErrCallbackNotAllowed else
      let* resp := peek (λ e _, Do e (push node key now)) in
      match resp with
      | None => fail ErrNotifyFailed
      | Some resp =>
          if negb (rs_read resp) then fail ErrNotifyFailed else
          if (rs_StatusCode resp <? 200) || (299 <? rs_StatusCode resp) then fail ErrNotifyFailed
          else ok_ ()
      end
  end.

(** * cluster.go *)

(** The handle; its only constructor is [controlPlaneFor]. *)
Record ControlPlane := mkControlPlane { cp_nodeID : string }.

Definition on_cluster {A} (p : prog Cluster Env A) : program A :=
  zoom fl_cluster (λ c s, s {{ fl_cluster := c }}) p.

Definition controlPlaneFor (node : Node) : Res ControlPlane :=
  if negb (n_Role node =s RoleCluster) then Err ErrNotClusterNode else
  if n_State node =s StateRemoved then Err ErrInvalidTransition else
  Ok (mkControlPlane (n_ID node)).

Definition GetControlPlane (nodeID : string) : D ControlPlane :=
  let? node := Get nodeID in checked (controlPlaneFor node).

Definition ControlPlaneFor (id : Identity) : Res ControlPlane := controlPlaneFor (id_Node id).

Definition cp_Heartbeat (c : ControlPlane) (hb : Heartbeat) : D () :=
  internally "cluster heartbeat" (on_cluster (WriteHeartbeat (hb {{ hb_NodeID := cp_nodeID c }}))).

Definition Members (c : ControlPlane) : D (list Member) :=
  internally "list cluster members" (on_cluster Nodes).

Definition HealthyMembers (c : ControlPlane) : D (list string) :=
  internally "list healthy cluster members" (on_cluster HealthyNodes).

Definition cp_HasQuorum (c : ControlPlane) : D bool :=
  internally "check cluster quorum" (on_cluster HasQuorum).

Definition cp_AcquireLock (c : ControlPlane) (name : string) (ttl : Z) : D Lock :=
  internally "acquire cluster lock" (on_cluster (AcquireLock name (cp_nodeID c) ttl)).

(** [WithLock]: the work runs between taking the lock and giving it back. *)
Definition cp_WithLock (c : ControlPlane) (name : string) (ttl : Z) (fn : D ()) : D () :=
  let? lock := on_cluster (AcquireLock name (cp_nodeID c) ttl) in
  let* r := fn in
  let* _ := on_cluster (Release lock) in
  Ret r.

Definition cp_ElectPrimary (c : ControlPlane) : D bool :=
  internally "elect cluster primary" (on_cluster (ElectPrimary (cp_nodeID c))).

Definition cp_IsPrimary (c : ControlPlane) : D bool :=
  internally "check cluster primary" (on_cluster (IsPrimary (cp_nodeID c))).

Definition cp_PrimaryID (c : ControlPlane) : D string :=
  internally "read cluster primary" (on_cluster PrimaryID).

Definition ElectionEligible (n : Node) : bool :=
  if negb (n_Role n =s RoleCluster) then false else
  if one_of (n_State n) [StateEnrolled; StateOnline; StateDegraded] then negb (n_Maintenance n) else false.

(** * Signatures *)

(** A push is accepted exactly when its time is within the skew of the receiver's
    clock and the signature is the one of its time, node and body (both sides are
    compared by digest).  The time must be within the range of a duration. *)
Theorem VerifyNotification_spec key timestamp nodeID body signature now issued :
  ParseInt timestamp = Some issued → min_int64 < now - issued * Second →
  VerifyNotification key timestamp nodeID body signature now = true ↔
  Z.abs (now - issued * Second) ≤ NotifySkew ∧
  sha256hex (hmac_sha256 key (timestamp +:+ LF +:+ nodeID +:+ LF +:+ body)) = sha256hex signature.
Proof.
  intros Hp Hr. unfold VerifyNotification. rewrite Hp. cbn zeta. unfold time_Sub.
  rewrite (Z.max_r min_int64) by (unfold min_int64, max_int64 in *; lia).
  unfold ConstantTimeEqualString, SignNotification. set (d := now - issued * Second) in *.
  assert ((if Z.min max_int64 d <? 0 then -! Z.min max_int64 d else Z.min max_int64 d) =
    Z.min max_int64 (Z.abs d)) as ->.
  { destruct (Z.min max_int64 d <? 0) eqn:E; [| unfold max_int64 in *; lia].
    unwrap64. unfold max_int64, min_int64 in *. lia. }
  destruct (NotifySkew <? _) eqn:E; unfold NotifySkew, Second, max_int64 in *.
  - split; [done |]. intros [? _]. lia.
  - rewrite seqb_eq. split; [intros ->; split; [lia | done] | by intros [_ ->]].
Qed.
End transport.

Lemma VerifyNotification_spec_witness :
  @VerifyNotification plainFleet "k" "1000" "n1" "{}" ("k:1000" +:+ LF +:+ "n1" +:+ LF +:+ "{}") (1200 * Second) = true.
Proof.
  apply (@VerifyNotification_spec plainFleet "k" "1000" "n1" "{}" ("k:1000" +:+ LF +:+ "n1" +:+ LF +:+ "{}")
    (1200 * Second) 1000); [reflexivity | reflexivity |]. split; [vm_compute; discriminate | reflexivity].
Defined.

(** A time more than 292 years ahead saturates the drift, whose negation overflows:
    the skew is not enforced. *)
Example far_future_accepted :
  @VerifyNotification plainFleet "k" "99999999999" "n1" "{}"
    ("k:99999999999" +:+ LF +:+ "n1" +:+ LF +:+ "{}") (1200 * Second) = true.
Proof. vm_compute. reflexivity. Qed.
