(* ===== verification/FleetTasks.v ===== *)
(** Work for the nodes: [src/src/nodes/dispatch.go], and draining and removing a
    node ([state.go]), which withdraw its work. *)
From stdpp Require Import prelude strings list gmap.
From Stdlib Require Import ZArith Lia.
From S2P Require Import Prelude GoTime Errors Threads Sql Rely Tran Text Token NodeValidate Outbound.
From S2P Require Import Cluster Fleet FleetTransport.

(** * Data *)

Definition TaskQueued : string := "queued".
Definition TaskDispatched : string := "dispatched".
Definition TaskSucceeded : string := "succeeded".
Definition TaskFailed : string := "failed".
Definition TaskCancelled : string := "cancelled".

Definition DefaultMaxPayloadBytes : Z := Z.shiftl 16 10.
Definition MaxPayloadBytesLimit : Z := Z.shiftl 256 10.
Definition MaxClaimBatch : Z := 32.

Definition allows (a : ActionSpec) (role : string) : bool :=
  match ac_Roles a with [] => true | roles => one_of role roles end.

Definition coreActions : list ActionSpec :=
  [mkActionSpec "agent.ping" "Liveness probe answered by the node" [] 0 (30 * Second) 1;
   mkActionSpec "agent.collect_facts" "Ask the node to re-report its capability inventory" [] 0 (120 * Second) 0;
   mkActionSpec "agent.upgrade" "Ask a managed node to upgrade its agent binary" [RoleManaged] 0 (600 * Second) 0;
   mkActionSpec "cluster.reload_config" "Ask a cluster node to reload its configuration" [RoleCluster] 0 (60 * Second) 0].

Record Task := mkTask {
  t_ID : string; t_NodeID : string; t_Action : string; t_Payload : string; t_State : string;
  t_Attempts : Z; t_MaxAttempts : Z; t_Timeout : Z; t_CreatedBy : string; t_CreatedAt : Z;
  t_NextAttemptAt : Z; t_ClaimedAt : Z; t_DeadlineAt : Z; t_FinishedAt : Z; t_ExitCode : Z;
  t_Result : string; t_Error : string; t_Version : Z }.

Definition finished (state : string) : bool := one_of state [TaskSucceeded; TaskFailed; TaskCancelled].

Definition Terminal (t : Task) : bool := finished (t_State t).

Definition scanTaskRow (r : TaskRow) : Task :=
  mkTask (kr_id r) (kr_node_id r) (kr_action r) (kr_payload r) (kr_state r) (kr_attempts r)
    (kr_max_attempts r) (kr_timeout_seconds r *! Second) (kr_created_by r) (unixOrZero (kr_created_at r))
    (unixOrZero (kr_next_attempt_at r)) (unixOrZero (kr_claimed_at r)) (unixOrZero (kr_deadline_at r))
    (unixOrZero (kr_finished_at r)) (kr_exit_code r) (kr_result r) (kr_error r) (kr_version r).

Record DispatchRequest := mkDispatchRequest {
  dr_NodeID : string; dr_Action : string; dr_Payload : string; dr_Timeout : Z; dr_MaxAttempts : Z;
  dr_Actor : string; dr_Notify : bool }.

Record TaskResult := mkTaskResult {
  re_TaskID : string; re_Success : bool; re_ExitCode : Z; re_Result : string; re_Error : string }.

Record DrainResult := mkDrainResult { dn_Node : Node; dn_CancelledTasks : Z }.

Record RemoveRequest := mkRemoveRequest {
  rm_NodeID : string; rm_Confirm : bool; rm_Reason : string; rm_Actor : string }.

Definition sameAction (a b : ActionSpec) : bool :=
  (ac_Name a =s ac_Name b) && (ac_Description a =s ac_Description b) &&
  (ac_MaxPayloadBytes a =? ac_MaxPayloadBytes b) && (ac_Timeout a =? ac_Timeout b) &&
  (ac_MaxAttempts a =? ac_MaxAttempts b) && bool_decide (ac_Roles a = ac_Roles b).

(** * Actions *)

(** A specification with its defaults and bounds, or why it is refused. *)
Definition completeSpec (spec : ActionSpec) : Res ActionSpec :=
  match ValidateActionName (ac_Name spec) with
  | Err e => Err e
  | Ok _ =>
      if negb (forallb Role_Valid (ac_Roles spec)) then Err ErrInvalidRole else
      if (ac_MaxPayloadBytes spec <? 0) || (MaxPayloadBytesLimit <? ac_MaxPayloadBytes spec)
      then Err ErrPayloadTooLarge else
      let bytes := if ac_MaxPayloadBytes spec =? 0 then DefaultMaxPayloadBytes else ac_MaxPayloadBytes spec in
      let timeout := if ac_Timeout spec <=? 0 then DefaultTaskTimeout else ac_Timeout spec in
      let timeout := if MaxTaskTimeout <? timeout then MaxTaskTimeout else timeout in
      let attempts := if ac_MaxAttempts spec <=? 0 then DefaultMaxAttempts else ac_MaxAttempts spec in
      let attempts := if MaxTaskAttempts <? attempts then MaxTaskAttempts else attempts in
      Ok (mkActionSpec (ac_Name spec) (truncate (ac_Description spec) MaxReasonLen) (ac_Roles spec)
            bytes timeout attempts)
  end.

Definition RegisterAction (spec : ActionSpec) : D () :=
  match completeSpec spec with
  | Err e => fail e
  | Ok spec =>
      atomic (λ _ s,
        match fl_actions s !! ac_Name spec with
        | Some existing =>
            if negb (sameAction existing spec) then (Err ErrNodeExists, s)
            else (Ok (), s {{ fl_actions := <[ac_Name spec := spec]> (fl_actions s) }})
        | None => (Ok (), s {{ fl_actions := <[ac_Name spec := spec]> (fl_actions s) }})
        end)
  end.

Definition Action (name : string) : D ActionSpec :=
  peek (λ _ s, match fl_actions s !! name with Some spec => Ok spec | None => Err ErrUnknownAction end).

(** [order] is the order in which Go visits the map. *)
Definition Actions (order : gmap string ActionSpec → list string) : program (list ActionSpec) :=
  peek (λ _ s, omap (M := list) (λ name, fl_actions s !! name) (sortStrings (order (fl_actions s)))).

Fixpoint registerAll (specs : list ActionSpec) : D () :=
  match specs with
  | [] => ok_ ()
  | spec :: rest => let? _ := RegisterAction spec in registerAll rest
  end.

(** The loop of [RetryDelay], with [n] doublings to go. *)
Fixpoint doubled (delay : Z) (n : nat) : Z :=
  match n with
  | O => if RetryMaxDelay <? delay then RetryMaxDelay else delay
  | S n => let delay := delay *! 2 in if RetryMaxDelay <=? delay then RetryMaxDelay else doubled delay n
  end.

Definition RetryDelay (attempts : Z) : Z :=
  let attempts := if attempts <? 1 then 1 else attempts in
  doubled RetryBaseDelay (Z.to_nat (attempts - 1)).

Section tasks.
Context `{!FleetParams}.

(** [New]: the own actions and those of the options. *)
Definition NewService (actions : list ActionSpec) : D () :=
  if o_credTTL <? 0 then fail (New CodeValidation 0 "Credential lifetime is invalid") else
  let? _ := registerAll coreActions in
  registerAll actions.

(** * Dispatch *)

Definition normalizePayload (raw : string) (limit : Z) : Res string :=
  if raw =s "" then Ok "{}" else
  let limit := if limit <=? 0 then DefaultMaxPayloadBytes else limit in
  if limit <? slen raw then Err ErrPayloadTooLarge else
  if negb (json_object raw) then Err ErrInvalidPayload else
  match json_compact raw with
  | None => Err ErrInvalidPayload
  | Some compact => if limit <? slen compact then Err ErrPayloadTooLarge else Ok compact
  end.

Definition Dispatch (req : DispatchRequest) : D Task :=
  let? node := Get (dr_NodeID req) in
  let? spec := Action (dr_Action req) in
  if negb (allows spec (n_Role node)) then fail ErrActionNotAllowed else
  if negb (Schedulable node) then fail ErrNodeNotSchedulable else
  let? payload := checked (normalizePayload (dr_Payload req) (ac_MaxPayloadBytes spec)) in
  let timeout := if 0 <? dr_Timeout req then dr_Timeout req else ac_Timeout spec in
  let timeout := if MaxTaskTimeout <? timeout then MaxTaskTimeout else timeout in
  let attempts := if 0 <? dr_MaxAttempts req then dr_MaxAttempts req else ac_MaxAttempts spec in
  let attempts := if MaxTaskAttempts <? attempts then MaxTaskAttempts else attempts in
  let* id := newID in
  let* now := now_ in
  let by_ := truncate (dr_Actor req) MaxNodeNameLen in
  let? _ := internally "store node task" (INSERT_KEYED node_tasks clash_task
    (mkTaskRow id (n_ID node) (ac_Name spec) payload TaskQueued 0 attempts (timeout /! Second) by_
       (unixOf now) (unixOf now) 0 0 0 0 "" "" 1)) in
  let* _ := audit "nodes.task_dispatched" by_ (n_ID node) in
  let* _ :=
    if dr_Notify req then
      let* r := Notify node in
      match r with Ok _ => Ret () | Err _ => audit "nodes.notify_failed" by_ (n_ID node) end
    else Ret () in
  ok_ (mkTask id (n_ID node) (ac_Name spec) payload TaskQueued 0 attempts timeout by_ now now
         zeroTime zeroTime zeroTime 0 "" "" 1).

Definition task_at (id : string) (version : Z) (r : TaskRow) : bool :=
  (kr_id r =s id) && (kr_version r =? version).

Definition by_creation (a b : TaskRow) : bool :=
  if kr_created_at a =? kr_created_at b then string_leb (kr_id a) (kr_id b)
  else kr_created_at a <? kr_created_at b.

(** One candidate: taken, or won by another poll. *)
Definition claimOne (task : Task) (now : Z) : D (option Task) :=
  let deadline := now + t_Timeout task in
  let* r := UpdateVersioned (UPDATE node_tasks
    (λ r, task_at (t_ID task) (t_Version task) r && (kr_state r =s TaskQueued))
    (λ r, r {{ kr_state := TaskDispatched; kr_attempts := kr_attempts r + 1; kr_claimed_at := unixOf now;
               kr_deadline_at := unixOf deadline; kr_version := kr_version r + 1 }})) in
  match r with
  | Err e => if db_IsConflict e then ok_ None else fail (wrapInternal e "claim node task")
  | Ok _ =>
      ok_ (Some (task {{ t_State := TaskDispatched; t_Attempts := t_Attempts task +! 1;
        t_ClaimedAt := now; t_DeadlineAt := deadline; t_Version := t_Version task +! 1 }}))
  end.

Fixpoint claimLoop (nodeID : string) (candidates : list Task) (now : Z) : D (list Task) :=
  match candidates with
  | [] => ok_ []
  | task :: rest =>
      let? r := claimOne task now in
      match r with
      | None => claimLoop nodeID rest now
      | Some task =>
          let* _ := audit "nodes.task_claimed" "node" nodeID in
          let? claimed := claimLoop nodeID rest now in
          ok_ (task :: claimed)
      end
  end.

Definition Claim (id : Identity) (limit : Z) : D (list Task) :=
  let limit := if (limit <=? 0) || (MaxClaimBatch <? limit) then MaxClaimBatch else limit in
  let node := id_Node id in
  if (n_State node =s StateRemoved) || (n_State node =s StateDrained) then fail ErrNodeNotSchedulable else
  let* now := now_ in
  let? rows := internally "list claimable tasks" (query (λ s, LIMIT limit 0 (ORDER_BY by_creation
    (SELECT node_tasks (λ r, (kr_node_id r =s n_ID node) && (kr_state r =s TaskQueued) &&
                             (kr_next_attempt_at r <=? unixOf now)) s)))) in
  claimLoop (n_ID node) (scanTaskRow <$> rows) now.

(** * Results *)

Definition Task_ (taskID : string) : D Task :=
  let? r := oneRow "load node task" ErrTaskNotFound (SELECT node_tasks (λ r, kr_id r =s taskID)) in
  ok_ (scanTaskRow r).

Definition taskFor (nodeID taskID : string) : D Task :=
  let? r := oneRow "load node task" ErrTaskNotFound
    (SELECT node_tasks (λ r, (kr_id r =s taskID) && (kr_node_id r =s nodeID))) in
  ok_ (scanTaskRow r).

Definition failAttempt (task : Task) (exitCode : Z) (result failure : string) (now : Z) (actor : string) : D Task :=
  if t_Attempts task <? t_MaxAttempts task then
    let next := now + RetryDelay (t_Attempts task) in
    let? _ := versioned "requeue node task" (UpdateVersioned
      (UPDATE node_tasks (task_at (t_ID task) (t_Version task))
        (λ r, r {{ kr_state := TaskQueued; kr_next_attempt_at := unixOf next; kr_claimed_at := 0;
                   kr_deadline_at := 0; kr_exit_code := exitCode; kr_result := result;
                   kr_error := failure; kr_version := kr_version r + 1 }}))) in
    let* _ := audit "nodes.task_retry" actor (t_NodeID task) in
    ok_ (task {{ t_State := TaskQueued; t_NextAttemptAt := next; t_ClaimedAt := zeroTime;
      t_DeadlineAt := zeroTime; t_ExitCode := exitCode; t_Result := result; t_Error := failure;
      t_Version := t_Version task +! 1 }})
  else
    let? _ := versioned "fail node task" (UpdateVersioned
      (UPDATE node_tasks (task_at (t_ID task) (t_Version task))
        (λ r, r {{ kr_state := TaskFailed; kr_finished_at := unixOf now; kr_claimed_at := 0;
                   kr_deadline_at := 0; kr_exit_code := exitCode; kr_result := result;
                   kr_error := failure; kr_version := kr_version r + 1 }}))) in
    let* _ := audit "nodes.task_failed" actor (t_NodeID task) in
    ok_ (task {{ t_State := TaskFailed; t_FinishedAt := now; t_ClaimedAt := zeroTime;
      t_DeadlineAt := zeroTime; t_ExitCode := exitCode; t_Result := result; t_Error := failure;
      t_Version := t_Version task +! 1 }}).

Definition Report (id : Identity) (res : TaskResult) : D Task :=
  let? task := taskFor (n_ID (id_Node id)) (re_TaskID res) in
  if negb (t_State task =s TaskDispatched) then fail ErrTaskNotClaimed else
  let result := truncate (re_Result res) MaxResultLen in
  let failure := truncate (re_Error res) MaxErrorLen in
  let* now := now_ in
  if re_Success res then
    let? _ := versioned "record task result" (UpdateVersioned
      (UPDATE node_tasks (task_at (t_ID task) (t_Version task))
        (λ r, r {{ kr_state := TaskSucceeded; kr_finished_at := unixOf now; kr_exit_code := re_ExitCode res;
                   kr_result := result; kr_error := ""; kr_version := kr_version r + 1 }}))) in
    let* _ := audit "nodes.task_succeeded" "node" (t_NodeID task) in
    ok_ (task {{ t_State := TaskSucceeded; t_FinishedAt := now; t_ExitCode := re_ExitCode res;
      t_Result := result; t_Error := ""; t_Version := t_Version task +! 1 }})
  else
    let failure := if failure =s "" then "node reported failure" else failure in
    failAttempt task (re_ExitCode res) result failure now "node".

Definition by_deadline (a b : TaskRow) : bool :=
  if kr_deadline_at a =? kr_deadline_at b then string_leb (kr_id a) (kr_id b)
  else kr_deadline_at a <? kr_deadline_at b.

Definition isConcurrentUpdate (e : error) : bool :=
  match e with App c _ m _ None => (c =s CodeConflict) && (m =s "Node was changed by another request") | _ => false end.

Fixpoint reapLoop (stale : list Task) (now reaped : Z) : program (Z * option error) :=
  match stale with
  | [] => Ret (reaped, None)
  | task :: rest =>
      let* r := failAttempt task 0 (t_Result task) "attempt timed out" now "scheduler" in
      match r with
      | Err e => if isConcurrentUpdate e then reapLoop rest now reaped else Ret (reaped, Some e)
      | Ok _ => reapLoop rest now (reaped + 1)
      end
  end.

Definition ReapTasks : program (Z * option error) :=
  let* now := now_ in
  let* r := internally "list timed out tasks" (query (λ s, ORDER_BY by_deadline
    (SELECT node_tasks (λ r, (kr_state r =s TaskDispatched) && (0 <? kr_deadline_at r) &&
                             (kr_deadline_at r <=? unixOf now)) s))) in
  match r with
  | Err e => Ret (0, Some e)
  | Ok rows => reapLoop (scanTaskRow <$> rows) now 0
  end.

Definition CancelTask (taskID reason actor : string) : D Task :=
  let? task := Task_ taskID in
  if Terminal task then fail ErrInvalidTransition else
  let* now := now_ in
  let clean := truncate reason MaxReasonLen in
  let clean := if clean =s "" then "cancelled by operator" else clean in
  let? _ := versioned "cancel node task" (UpdateVersioned
    (UPDATE node_tasks (task_at (t_ID task) (t_Version task))
      (λ r, r {{ kr_state := TaskCancelled; kr_finished_at := unixOf now; kr_claimed_at := 0;
                 kr_deadline_at := 0; kr_error := clean; kr_version := kr_version r + 1 }}))) in
  let* _ := audit "nodes.task_cancelled" (truncate actor MaxNodeNameLen) (t_NodeID task) in
  ok_ (task {{ t_State := TaskCancelled; t_FinishedAt := now; t_ClaimedAt := zeroTime;
    t_DeadlineAt := zeroTime; t_Error := clean; t_Version := t_Version task +! 1 }}).

Definition cancelQueued (nodeID reason : string) : D Z :=
  let* now := now_ in
  execCount "cancel queued tasks" (UPDATE node_tasks
    (λ r, (kr_node_id r =s nodeID) && (kr_state r =s TaskQueued))
    (λ r, r {{ kr_state := TaskCancelled; kr_finished_at := unixOf now;
               kr_error := truncate reason MaxReasonLen; kr_version := kr_version r + 1 }})).

Definition by_newest (a b : TaskRow) : bool :=
  if kr_created_at a =? kr_created_at b then string_leb (kr_id a) (kr_id b)
  else kr_created_at b <? kr_created_at a.

Definition ListTasks (nodeID state : string) (limit : Z) : D (list Task) :=
  let? _ := checked (ValidateNodeID nodeID) in
  let limit := if (limit <=? 0) || (500 <? limit) then 100 else limit in
  let? rows := internally "list node tasks" (query (λ s, LIMIT limit 0 (ORDER_BY by_newest
    (SELECT node_tasks (λ r, (kr_node_id r =s nodeID) && ((state =s "") || (kr_state r =s state))) s)))) in
  ok_ (scanTaskRow <$> rows).

(** * Drain and removal *)

Definition Drain (nodeID reason actor : string) : D DrainResult :=
  let? node := Get nodeID in
  if negb (CanTransition (n_State node) StateDrained) then fail ErrInvalidTransition else
  let? _ := setFlags nodeID (mkflagUpdate (Some true) None) reason actor "nodes.cordoned" in
  let? cancelled := cancelQueued nodeID "node drained" in
  let? drained := transition nodeID StateDrained reason actor "nodes.drained" in
  let* _ := audit "nodes.drain_completed" (truncate actor MaxNodeNameLen) nodeID in
  ok_ (mkDrainResult drained cancelled).

(** Inside a transaction. *)
Definition txInternally {A} (op : string) (m : TXF A) : TXF A :=
  let! r := txTry m in
  match r with Ok a => txOk a | Err e => txErr (wrapInternal e op) end.

Definition revokeTx (nodeID : string) (now : Z) : TXF () :=
  let! _ := txInternally "revoke node credentials" (TxUpdate node_credentials cr_id
    (λ r, (cr_node_id r =s nodeID) && (cr_revoked_at r =? 0)) (λ r, r {{ cr_revoked_at := unixOf now }})) in
  let! _ := txInternally "revoke node enrollment tokens" (TxUpdate node_enrollment_tokens tr_id
    (λ r, (tr_node_id r =s nodeID) && (tr_revoked_at r =? 0)) (λ r, r {{ tr_revoked_at := unixOf now }})) in
  txOk ().

Definition Remove (req : RemoveRequest) : D Node :=
  if negb (rm_Confirm req) then fail ErrConfirmationRequired else
  let? node := Get (rm_NodeID req) in
  if negb (CanTransition (n_State node) StateRemoved) then fail ErrInvalidTransition else
  let* now := now_ in
  let? _ := Transact (revokeTx (n_ID node) now) in
  let? _ := cancelQueued (n_ID node) "node removed" in
  let? _ := if n_Role node =s RoleCluster
            then internally "remove cluster member" (on_cluster (RemoveNode (n_ID node))) else ok_ () in
  transition (n_ID node) StateRemoved (rm_Reason req) (rm_Actor req) "nodes.removed".
End tasks.

(** * Delays *)

Lemma doubled_min (n : nat) : ∀ delay, 0 < delay ≤ RetryMaxDelay →
  doubled delay n = Z.min RetryMaxDelay (delay * 2 ^ Z.of_nat n).
Proof.
  induction n as [| n IH]; intros delay Hd; cbn [doubled]; cbv zeta.
  { change (Z.of_nat 0) with 0. rewrite Z.pow_0_r, Z.mul_1_r. destruct (Z.ltb_spec RetryMaxDelay delay); lia. }
  rewrite wrap64_id by (unfold RetryMaxDelay, Second in Hd; int64).
  rewrite Nat2Z.inj_succ, Z.pow_succ_r by lia.
  destruct (Z.leb_spec RetryMaxDelay (delay * 2)); [| rewrite IH by lia; f_equal; lia].
  symmetry. apply Z.min_l. pose proof (Z.pow_pos_nonneg 2 (Z.of_nat n)). nia.
Qed.

(** The delay before the next attempt doubles with every attempt, from five seconds
    to five minutes, and no number of attempts overflows it: it is the exact
    doubling, cut off at the maximum. *)
Theorem RetryDelay_doubles attempts :
  RetryDelay attempts = Z.min RetryMaxDelay (RetryBaseDelay * 2 ^ (Z.max attempts 1 - 1)) ∧
  RetryBaseDelay ≤ RetryDelay attempts ≤ RetryMaxDelay.
Proof.
  assert (RetryDelay attempts = Z.min RetryMaxDelay (RetryBaseDelay * 2 ^ (Z.max attempts 1 - 1))) as E.
  { unfold RetryDelay. cbv zeta. rewrite doubled_min by done. f_equal. f_equal. f_equal.
    destruct (Z.ltb_spec attempts 1); lia. }
  split; [done |]. rewrite E. pose proof (Z.pow_pos_nonneg 2 (Z.max attempts 1 - 1)).
  assert (RetryBaseDelay ≤ RetryMaxDelay ∧ 0 < RetryBaseDelay) as [??] by done. nia.
Qed.
