(* ===== verification/FleetEnroll.v ===== *)
(** Joining the fleet: [src/src/nodes/enroll.go].

    The random numbers of a token are read off the random bytes of the moment; every
    sequence of them can occur. *)
From stdpp Require Import prelude strings list gmap.
From Stdlib Require Import ZArith Lia Ascii.
From S2P Require Import Prelude GoTime Errors Threads Sql Rely Tran Text Token NodeValidate Outbound.
From S2P Require Import Cluster Fleet FleetTransport FleetTasks.

(** * Data *)

Record EnrollmentToken := mkEnrollmentToken {
  et_ID : string; et_Role : string; et_NodeID : string; et_DisplayPrefix : string; et_MaxUses : Z;
  et_Uses : Z; et_ExpiresAt : Z; et_RevokedAt : Z; et_CreatedBy : string; et_CreatedAt : Z }.

Definition MaskedToken : string := "xxxxx".

Definition Display (t : EnrollmentToken) : string := et_DisplayPrefix t +:+ MaskedToken.

Definition Live (t : EnrollmentToken) (now : Z) : bool :=
  if negb (et_RevokedAt t =? zeroTime) then false else
  if negb (et_ExpiresAt t =? zeroTime) && negb (now <? et_ExpiresAt t) then false else
  et_Uses t <? et_MaxUses t.

Record EnrollmentRequest := mkEnrollmentRequest {
  er_Role : string; er_NodeID : string; er_MaxUses : Z; er_TTL : Z; er_Actor : string }.

Record IssuedEnrollment := mkIssuedEnrollment { ie_Token : EnrollmentToken; ie_Secret : string }.

Record EnrollRequest := mkEnrollRequest {
  eq_Secret : string; eq_NodeID : string; eq_Name : string; eq_Address : string;
  eq_AgentVersion : string; eq_Facts : Facts }.

Record Enrollment := mkEnrollment {
  en_Node : Node; en_Credential : string; en_CredentialExpiresAt : Z }.

Definition scanEnrollment (r : TokenRow) : EnrollmentToken * string :=
  (mkEnrollmentToken (tr_id r) (tr_role r) (tr_node_id r) (tr_display_prefix r) (tr_max_uses r)
     (tr_uses r) (unixOrZero (tr_expires_at r)) (unixOrZero (tr_revoked_at r)) (tr_created_by r)
     (unixOrZero (tr_created_at r)), tr_token_hash r).

Definition draws_of (e : Env) (i : nat) : Z :=
  match String.get i (e_random e) with Some c => byte c mod 62 | None => 0 end.

(** ** Facts as rows *)

Definition factKeys : list string :=
  ["os"; "arch"; "kernel"; "hostname"; "cpu_cores"; "memory_bytes"; "disk_bytes"; "backends"].

Definition factValues (f : Facts) : list (string * string) :=
  [("os", f_OS f); ("arch", f_Arch f); ("kernel", f_Kernel f); ("hostname", f_Hostname f);
   ("cpu_cores", itoa (f_CPUCores f)); ("memory_bytes", itoa (f_MemoryBytes f));
   ("disk_bytes", itoa (f_DiskBytes f)); ("backends", join "," (f_Backends f))].

(** A missing key of a Go map. *)
Definition value_of (key : string) (m : list (string * string)) : string := default "" (assoc key m).

(** A column that is not a number counts as zero. *)
Definition number_of (v : string) : Z := default 0 (ParseInt v).

Definition factsOf (stored : list (string * string)) : Facts :=
  mkFacts (value_of "os" stored) (value_of "arch" stored) (value_of "kernel" stored)
    (value_of "hostname" stored) (number_of (value_of "cpu_cores" stored))
    (number_of (value_of "memory_bytes" stored)) (number_of (value_of "disk_bytes" stored))
    (if value_of "backends" stored =s "" then [] else Split (value_of "backends" stored) ","%char).

Definition fact_key (r : FactRow) : string * string := (fr_node_id r, fr_fact_key r).

Section enroll.
Context `{!FleetParams}.

Definition generate (prefix : string) : program (Res (string * string)) :=
  peek (λ e _, GenerateToken (draws_of e) prefix).

(** * Tokens *)

Definition IssueEnrollmentToken (req : EnrollmentRequest) : D IssuedEnrollment :=
  if negb (Role_Valid (er_Role req)) then fail ErrInvalidRole else
  let? _ :=
    if er_NodeID req =s "" then ok_ () else
    let? node := Get (er_NodeID req) in
    if negb (n_Role node =s er_Role req) then fail ErrInvalidRole else
    if n_State node =s StateRemoved then fail ErrInvalidTransition else ok_ () in
  let uses := if er_MaxUses req <=? 0 then DefaultEnrollmentUses else er_MaxUses req in
  let uses := if MaxEnrollmentUses <? uses then MaxEnrollmentUses else uses in
  let ttl := if er_TTL req <=? 0 then DefaultEnrollmentTTL else er_TTL req in
  let ttl := if MaxEnrollmentTTL <? ttl then MaxEnrollmentTTL else ttl in
  let? (secret, hash) := internally "generate enrollment token" (generate (TokenPrefixFor (er_Role req))) in
  let* id := newID in
  let* now := now_ in
  let by_ := truncate (er_Actor req) MaxNodeNameLen in
  let display := TokenDisplayPrefix secret in
  let? _ := internally "store enrollment token" (INSERT_KEYED node_enrollment_tokens clash_token
    (mkTokenRow id hash display (er_Role req) (er_NodeID req) uses 0 (unixOf (now + ttl)) 0 by_ (unixOf now))) in
  let* _ := audit "nodes.enrollment_token_issued" by_ (er_NodeID req) in
  ok_ (mkIssuedEnrollment
    (mkEnrollmentToken id (er_Role req) (er_NodeID req) display uses 0 (now + ttl) zeroTime by_ now) secret).

Definition Rekey (nodeID actor : string) : D IssuedEnrollment :=
  let? node := Get nodeID in
  let? issued := IssueEnrollmentToken (mkEnrollmentRequest (n_Role node) (n_ID node) 0 0 actor) in
  let* _ := audit "nodes.rekey_requested" (truncate actor MaxNodeNameLen) (n_ID node) in
  ok_ issued.

Definition RevokeEnrollmentToken (tokenID actor : string) : D () :=
  let* now := now_ in
  let? rows := execCount "revoke enrollment token" (UPDATE node_enrollment_tokens
    (λ r, (tr_id r =s tokenID) && (tr_revoked_at r =? 0)) (λ r, r {{ tr_revoked_at := unixOf now }})) in
  if rows =? 0 then ok_ () else
  let* _ := audit "nodes.enrollment_token_revoked" (truncate actor MaxNodeNameLen) "" in
  ok_ ().

Definition by_newest_token (a b : TokenRow) : bool :=
  if tr_created_at a =? tr_created_at b then string_leb (tr_id a) (tr_id b)
  else tr_created_at b <? tr_created_at a.

Definition ListEnrollmentTokens : D (list EnrollmentToken) :=
  let? rows := internally "list enrollment tokens"
    (query (λ s, ORDER_BY by_newest_token (fl_tokens s))) in
  ok_ ((λ r, (scanEnrollment r).1) <$> rows).

Definition ExpireEnrollmentTokens : D Z :=
  let* t := now_ in
  let now := unixOf t in
  let? rows := execCount "expire enrollment tokens" (UPDATE node_enrollment_tokens
    (λ r, (tr_revoked_at r =? 0) && (0 <? tr_expires_at r) && (tr_expires_at r <=? now))
    (λ r, r {{ tr_revoked_at := now }})) in
  let* _ := if 0 <? rows then audit "nodes.enrollment_tokens_expired" "scheduler" "" else Ret () in
  ok_ rows.

(** * Enrolling *)

(** One row, if there is one. *)
Definition txFind {R} (op : string) (f : Fleet → list R) : TXF (option R) :=
  let! r := txTry (TxQueryRow f) in
  match r with
  | Ok r => txOk r
  | Err e => if db_IsNotFound e then txOk None else txErr (wrapInternal e op)
  end.

Definition rejoinRow (name address agentVersion : string) (now : Z) (r : NodeRow) : NodeRow :=
  r {{ nr_name := name; nr_address := address; nr_agent_version := agentVersion;
       nr_state := StateEnrolled; nr_state_reason := "rejoined"; nr_state_changed_at := unixOf now;
       nr_enrolled_at := unixOf now; nr_last_seen := unixOf now; nr_updated_at := unixOf now;
       nr_version := nr_version r + 1 }}.

Definition rejoinNode (token : EnrollmentToken) (nodeID name address agentVersion : string) (now : Z) : TXF Node :=
  let! r := txFind "load node" (SELECT node_registry (node_is nodeID)) in
  match r with
  | None => txErr ErrNodeNotFound
  | Some row =>
      let node := scanNodeRow row in
      if negb (n_Role node =s et_Role token) then txErr ErrInvalidRole else
      if negb (CanTransition (n_State node) StateEnrolled) then txErr ErrInvalidTransition else
      let! _ := txInternally "update node" (TxUpdate node_registry nr_id
        (at_version (n_ID node) (n_Version node)) (rejoinRow name address agentVersion now)) in
      txOk (node {{ n_Name := name; n_Address := address; n_AgentVersion := agentVersion;
        n_State := StateEnrolled; n_StateReason := "rejoined"; n_StateChangedAt := now;
        n_EnrolledAt := now; n_LastSeen := now; n_UpdatedAt := now; n_Version := n_Version node +! 1 }})
  end.

Definition newNode (token : EnrollmentToken) (nodeID name address agentVersion : string) (now : Z) : TXF Node :=
  let! r := txFind "check node id" (SELECT node_registry (node_is nodeID)) in
  match r with
  | Some _ => txErr ErrNodeExists
  | None =>
      let node := mkNode nodeID name (et_Role token) StateEnrolled "enrolled" address "" agentVersion
        false false now now now now now 1 in
      let! _ := txInternally "create node" (TxInsert node_registry clash_node
        (mkNodeRow nodeID name (et_Role token) StateEnrolled "enrolled" address "" agentVersion 0 0
           (unixOf now) (unixOf now) (unixOf now) (unixOf now) (unixOf now) 1)) in
      txOk node
  end.

Definition enrollNodeRow (token : EnrollmentToken) (nodeID name address agentVersion : string) (now : Z)
    (rejoin : bool) : TXF Node :=
  if rejoin then rejoinNode token nodeID name address agentVersion now
  else newNode token nodeID name address agentVersion now.

Fixpoint storeFacts (nodeID : string) (keys : list string) (f : Facts) (now : Z) : TXF () :=
  match keys with
  | [] => txOk ()
  | key :: rest =>
      let value := value_of key (factValues f) in
      let! n := txInternally "store node facts" (TxUpdate node_facts fact_key
        (λ r, (fr_node_id r =s nodeID) && (fr_fact_key r =s key))
        (λ r, r {{ fr_fact_value := value; fr_reported_at := unixOf now }})) in
      match n with
      | Err e => txErr (wrapInternal e "store node facts")
      | Ok rows =>
          if 0 <? rows then storeFacts nodeID rest f now else
          let! _ := txInternally "store node facts" (TxInsert node_facts clash_fact
            (mkFactRow nodeID key value (unixOf now))) in
          storeFacts nodeID rest f now
      end
  end.

Definition issueCredential (node : Node) (now : Z) : TXF string :=
  let! _ := txInternally "revoke previous credentials" (TxUpdate node_credentials cr_id
    (λ r, (cr_node_id r =s n_ID node) && (cr_revoked_at r =? 0)) (λ r, r {{ cr_revoked_at := unixOf now }})) in
  let! g := txPeek (λ e _, GenerateToken (draws_of e) (TokenPrefixFor (n_Role node))) in
  match g with
  | Err e => txErr (wrapInternal e "generate node credential")
  | Ok (secret, hash) =>
      let! id := txPeek (λ e _, e_random e) in
      let expires := if 0 <? o_credTTL then unixOf (now + o_credTTL) else 0 in
      let! _ := txInternally "store node credential" (TxInsert node_credentials clash_credential
        (mkCredentialRow id (n_ID node) hash (TokenDisplayPrefix secret) (unixOf now) expires 0 0)) in
      txOk secret
  end.

Definition consumeEnrollment (token : EnrollmentToken) (now : Z) : TXF () :=
  let uses := et_Uses token +! 1 in
  let revokedAt := if et_MaxUses token <=? uses then unixOf now else 0 in
  let! n := txInternally "consume enrollment token" (TxUpdate node_enrollment_tokens tr_id
    (λ r, (tr_id r =s et_ID token) && (tr_uses r =? et_Uses token) && (tr_revoked_at r =? 0))
    (λ r, r {{ tr_uses := uses; tr_revoked_at := revokedAt }})) in
  match n with
  | Err e => txErr (wrapInternal e "consume enrollment token")
  | Ok rows => if rows =? 0 then txErr ErrEnrollmentRejected else txOk ()
  end.

(** What a node asks for, checked. *)
Definition joinDetails (token : EnrollmentToken) (req : EnrollRequest)
    : Res (bool * string * string * string * string) :=
  let rejoin := negb (et_NodeID token =s "") in
  let nodeID := if rejoin then et_NodeID token else ToLowerU (TrimSpaceU (eq_NodeID req)) in
  match if rejoin then Ok () else ValidateNodeID nodeID with
  | Err e => Err e
  | Ok _ =>
      let name := truncate (eq_Name req) MaxNodeNameLen in
      let name := if name =s "" then nodeID else name in
      match ValidateNodeName name with
      | Err e => Err e
      | Ok _ =>
          let address := truncate (eq_Address req) MaxAddressLen in
          let agentVersion := truncate (eq_AgentVersion req) MaxVersionLen in
          if negb (agentVersion =s "") && negb (isPrintableToken agentVersion) then Err ErrInvalidFacts
          else Ok (rejoin, nodeID, name, address, agentVersion)
      end
  end.

(** The transaction: the node, its credential and whether it rejoined. *)
Definition enrollTx (req : EnrollRequest) (facts : Facts) (hash : string) (now : Z) : TXF (Node * string * bool) :=
  let! r := txFind "load enrollment token" (SELECT node_enrollment_tokens (λ r, tr_token_hash r =s hash)) in
  match r with
  | None => txErr ErrEnrollmentRejected
  | Some row =>
      let '(token, storedHash) := scanEnrollment row in
      if negb (ConstantTimeEqualString storedHash hash) then txErr ErrEnrollmentRejected else
      if negb (Live token now) then txErr ErrEnrollmentRejected else
      if negb (Role_Valid (et_Role token)) then txErr ErrEnrollmentRejected else
      match joinDetails token req with
      | Err e => txErr e
      | Ok (rejoin, nodeID, name, address, agentVersion) =>
          let! node := enrollNodeRow token nodeID name address agentVersion now rejoin in
          let! _ := storeFacts (n_ID node) factKeys facts now in
          let! plaintext := issueCredential node now in
          let! _ := consumeEnrollment token now in
          txOk (node, plaintext, rejoin)
      end
  end.

Definition Enroll (req : EnrollRequest) : D Enrollment :=
  match ParseToken (eq_Secret req) with
  | Err _ => fail ErrEnrollmentRejected
  | Ok _ =>
      let? facts := checked (ValidateFacts (eq_Facts req)) in
      let hash := HashToken (eq_Secret req) in
      let* now := now_ in
      let? (node, credential, rejoin) := Transact (enrollTx req facts hash now) in
      let* _ := audit (if rejoin : bool then "nodes.rejoined" else "nodes.enrolled") "node" (n_ID node) in
      ok_ (mkEnrollment node credential (if 0 <? o_credTTL then now + o_credTTL else zeroTime))
  end.

(** * Credentials *)

Definition Authenticate (secret : string) : D Identity :=
  match ParseToken secret with
  | Err _ => fail ErrCredentialRejected
  | Ok (prefix, _) =>
      if negb (prefix =s ClusterTokenPrefix) && negb (prefix =s ManagedTokenPrefix)
      then fail ErrCredentialRejected else
      let hash := HashToken secret in
      let* now := now_ in
      let? row := oneRow "load node credential" ErrCredentialRejected
        (SELECT node_credentials (λ r, cr_token_hash r =s hash)) in
      if negb (ConstantTimeEqualString (cr_token_hash row) hash) then fail ErrCredentialRejected else
      if negb (cr_revoked_at row =? 0) then fail ErrCredentialRejected else
      if negb (cr_expires_at row =? 0) && (cr_expires_at row <=? unix now) then fail ErrCredentialRejected else
      let* r := Get (cr_node_id row) in
      match r with
      | Err _ => fail ErrCredentialRejected
      | Ok node =>
          if n_State node =s StateRemoved then fail ErrCredentialRejected else
          if negb (prefix =s TokenPrefixFor (n_Role node)) then fail ErrCredentialRejected else
          let? _ := internally "record credential use" (exec (UPDATE node_credentials
            (λ r, cr_id r =s cr_id row) (λ r, r {{ cr_last_used_at := unixOf now }}))) in
          ok_ (mkIdentity node (cr_id row))
      end
  end.

Definition RevokeCredentials (nodeID actor : string) : D Z :=
  let? _ := checked (ValidateNodeID nodeID) in
  let* now := now_ in
  let? rows := execCount "revoke node credentials" (UPDATE node_credentials
    (λ r, (cr_node_id r =s nodeID) && (cr_revoked_at r =? 0)) (λ r, r {{ cr_revoked_at := unixOf now }})) in
  let* _ := if 0 <? rows then audit "nodes.credentials_revoked" (truncate actor MaxNodeNameLen) nodeID
            else Ret () in
  ok_ rows.

(** * Facts *)

Definition GetFacts (nodeID : string) : D Facts :=
  let? _ := checked (ValidateNodeID nodeID) in
  let? rows := internally "load node facts" (query (SELECT node_facts (λ r, fr_node_id r =s nodeID))) in
  if (length rows =? 0)%nat then fail ErrNodeNotFound
  else ok_ (factsOf (reverse ((λ r, (fr_fact_key r, fr_fact_value r)) <$> rows))).

Definition ReportFacts (id : Identity) (f : Facts) : D () :=
  let? facts := checked (ValidateFacts f) in
  let* now := now_ in
  let? _ := Transact (storeFacts (n_ID (id_Node id)) factKeys facts now) in
  let* _ := audit "nodes.facts_reported" "node" (n_ID (id_Node id)) in
  ok_ ().
End enroll.

(** * Facts that were stored *)

Fixpoint lacks (c : ascii) (s : string) : bool :=
  match s with EmptyString => true | String d s => negb (Ascii.eqb d c) && lacks c s end.

Lemma split_go_lacks c cur s rest : lacks c s = true →
  split_go c cur (s +:+ rest) = split_go c (cur +:+ s) rest.
Proof.
  revert cur. induction s as [| d s IH]; intros cur H; [by rewrite string_app_empty_r |].
  cbn in H. apply andb_true_iff in H as [Hc Hs]. rewrite string_app_cons. cbn.
  destruct (Ascii.eqb d c); [done |]. rewrite IH by done. by rewrite string_app_assoc.
Qed.

Lemma Split_join_lacks c l : l ≠ [] → Forall (λ s, lacks c s = true) l →
  Split (join (String c "") l) c = l.
Proof.
  unfold Split. induction l as [| s l IH]; intros Hne HF; [done |]. apply Forall_cons in HF as [Hs Hl]. destruct l as [| s' l].
  - cbn [join]. rewrite <-(string_app_empty_r s) at 1. by rewrite split_go_lacks.
  - change (join (String c "") (s :: s' :: l)) with (s +:+ String c "" +:+ join (String c "") (s' :: l)).
    rewrite split_go_lacks by done. rewrite string_app_nil, (string_app_cons c ""), string_app_nil.
    cbn [split_go]. rewrite Ascii.eqb_refl. f_equal. by apply IH.
Qed.

Lemma number_of_itoa n : in_int64 n → number_of (itoa n) = n.
Proof. intros Hn. unfold number_of. by rewrite ParseInt_itoa. Qed.

(** Facts that were accepted are read back from their rows as they were: the numbers
    fit, and no backend holds the comma that separates them. *)
Theorem facts_read_back `{!Unicode} f out : ValidateFacts f = Ok out → factsOf (factValues out) = out.
Proof.
  intros (_ & _ & _ & _ & Hc & Hm & Hd & _ & _ & Hb)%ValidateFacts_sound.
  unfold MaxCPUCores, MaxMemoryBytes, MaxDiskBytes in *. destruct out as [os arch kernel host cores mem disk backends]. cbn in *.
  unfold factsOf, factValues, value_of. cbn -[itoa join number_of].
  change (Z.shiftl 1 50) with (2 ^ 50) in Hm. change (Z.shiftl 1 60) with (2 ^ 60) in Hd.
  f_equal; [apply number_of_itoa; int64.. |].
  assert (Forall (λ s, lacks "," s = true ∧ s ≠ "") backends) as HF.
  { eapply Forall_impl; [exact Hb |]. intros b Hin. unfold allowedBackends in Hin. set_unfold in Hin.
    by repeat destruct Hin as [-> | Hin]. }
  destruct backends as [| b l]; [done |].
  assert (join "," (b :: l) =s "" = false) as ->.
  { apply seqb_neq. apply Forall_cons_1 in HF as [[_ Hne] _]. by destruct l, b. }
  apply Split_join_lacks; [done |]. eapply Forall_impl; [exact HF |]. naive_solver.
Qed.

Lemma facts_read_back_witness :
  let U := {| u_letter := λ _, false; u_digit := λ _, false; u_upper := λ r, r; u_lower := λ r, r |} : Unicode in
  ∃ out, ValidateFacts (mkFacts " Linux" "AMD64" "6.1.0-18" "" 8 1024 0 ["Podman"; "docker"; "podman "]) = Ok out ∧
    factsOf (factValues out) = out ∧ f_Backends (factsOf (factValues out)) = ["docker"; "podman"].
Proof.
  intros U. eexists. split; [vm_compute; reflexivity |]. split; [| vm_compute; reflexivity].
  apply (@facts_read_back U (mkFacts " Linux" "AMD64" "6.1.0-18" "" 8 1024 0 ["Podman"; "docker"; "podman "])).
  vm_compute. reflexivity.
Defined.
