(* ===== verification/FleetOps.v ===== *)
(** What every section of every operation of the fleet leaves of the tables
    ([promise]), the invariant it keeps ([calm]), the kinds of writes, and that
    every operation keeps the promise. *)
From stdpp Require Import prelude strings list gmap.
From Stdlib Require Import ZArith Lia.
From S2P Require Import Prelude GoTime Errors Threads Sql Rely Tran Text Token NodeValidate Outbound.
From S2P Require Import Cluster ClusterLock Fleet FleetTransport FleetTasks FleetEnroll.

(** * Rows *)

(** A node keeps its identifier, role and creation time; a write raises its version
    by one and moves it along an edge of the machine or not at all. *)
Definition node_moved (r r' : NodeRow) : Prop :=
  r' = r ∨
  (nr_id r' = nr_id r ∧ nr_role r' = nr_role r ∧ nr_created_at r' = nr_created_at r ∧
   nr_version r' = nr_version r + 1 ∧
   (nr_state r' = nr_state r ∨ CanTransition (nr_state r) (nr_state r') = true)).

Definition node_born (r : NodeRow) : Prop :=
  nr_version r = 1 ∧ nr_state r = StateEnrolled ∧ Role_Valid (nr_role r) = true.

(** A task is claimed, goes back to the queue while attempts are left, or ends. *)
Definition task_moved (r r' : TaskRow) : Prop :=
  r' = r ∨
  (kr_id r' = kr_id r ∧ kr_node_id r' = kr_node_id r ∧ kr_action r' = kr_action r ∧
   kr_payload r' = kr_payload r ∧ kr_max_attempts r' = kr_max_attempts r ∧
   kr_timeout_seconds r' = kr_timeout_seconds r ∧ kr_created_by r' = kr_created_by r ∧
   kr_created_at r' = kr_created_at r ∧ kr_version r' = kr_version r + 1 ∧
   finished (kr_state r) = false ∧
   (kr_state r = TaskQueued ∧ kr_state r' = TaskDispatched ∧ kr_attempts r' = kr_attempts r + 1 ∨
    kr_state r = TaskDispatched ∧ kr_state r' = TaskQueued ∧ kr_attempts r' = kr_attempts r ∧
      kr_attempts r < kr_max_attempts r ∨
    finished (kr_state r') = true ∧ kr_attempts r' = kr_attempts r)).

Definition task_born (r : TaskRow) : Prop :=
  kr_version r = 1 ∧ kr_state r = TaskQueued ∧ kr_attempts r = 0 ∧ 1 ≤ kr_max_attempts r ≤ MaxTaskAttempts.

(** A token may be used once more, revoked, or both; revoked it stays as it is. *)
Definition token_moved (r r' : TokenRow) : Prop :=
  r' = r ∨
  (tr_id r' = tr_id r ∧ tr_token_hash r' = tr_token_hash r ∧ tr_role r' = tr_role r ∧
   tr_node_id r' = tr_node_id r ∧ tr_max_uses r' = tr_max_uses r ∧ tr_expires_at r' = tr_expires_at r ∧
   tr_revoked_at r = 0 ∧
   (tr_uses r' = tr_uses r ∨ tr_uses r' = tr_uses r + 1 ∧ tr_uses r < tr_max_uses r)).

Definition token_born (r : TokenRow) : Prop :=
  tr_uses r = 0 ∧ tr_revoked_at r = 0 ∧ 1 ≤ tr_max_uses r ≤ MaxEnrollmentUses ∧ Role_Valid (tr_role r) = true.

Definition credential_moved (r r' : CredentialRow) : Prop :=
  cr_id r' = cr_id r ∧ cr_node_id r' = cr_node_id r ∧ cr_token_hash r' = cr_token_hash r ∧
  cr_issued_at r' = cr_issued_at r ∧ cr_expires_at r' = cr_expires_at r ∧
  (cr_revoked_at r' = cr_revoked_at r ∨ cr_revoked_at r = 0).

Definition fact_moved (r r' : FactRow) : Prop := fact_key r' = fact_key r.

(** ** Invariants of rows *)

Definition good_task (r : TaskRow) : Prop :=
  0 ≤ kr_attempts r ≤ kr_max_attempts r ∧ kr_max_attempts r ≤ MaxTaskAttempts ∧
  (kr_state r = TaskQueued → kr_attempts r < kr_max_attempts r).

Definition good_token (r : TokenRow) : Prop :=
  0 ≤ tr_uses r ≤ tr_max_uses r ∧ tr_max_uses r ≤ MaxEnrollmentUses.

Definition good_spec (a : ActionSpec) : Prop :=
  1 ≤ ac_MaxAttempts a ≤ MaxTaskAttempts ∧ 0 < ac_Timeout a ≤ MaxTaskTimeout ∧
  0 < ac_MaxPayloadBytes a ≤ MaxPayloadBytesLimit.

#[global] Instance good_task_dec r : Decision (good_task r).
Proof. unfold good_task. apply _. Defined.
#[global] Instance good_token_dec r : Decision (good_token r).
Proof. unfold good_token. apply _. Defined.
#[global] Instance good_spec_dec a : Decision (good_spec a).
Proof. unfold good_spec. apply _. Defined.

(** * The promise *)

Definition total_uses (s : Fleet) : Z := foldr (λ r n, tr_uses r + n) 0 (fl_tokens s).

Record promise (s s' : Fleet) : Prop := {
  pr_nodes : rows_step node_moved node_born nr_id (fl_nodes s) (fl_nodes s');
  pr_tokens : rows_step token_moved token_born tr_id (fl_tokens s) (fl_tokens s');
  pr_credentials : rows_step credential_moved (λ r, cr_revoked_at r = 0) cr_id (fl_credentials s) (fl_credentials s');
  pr_tasks : rows_step task_moved task_born kr_id (fl_tasks s) (fl_tasks s');
  pr_facts : rows_step fact_moved (λ _, True) fact_key (fl_facts s) (fl_facts s');
  pr_actions : fl_actions s ⊆ fl_actions s' ∧ (map_Forall (λ _, good_spec) (fl_actions s) → map_Forall (λ _, good_spec) (fl_actions s'));
  pr_cluster : lock_step (fl_cluster s) (fl_cluster s');
  pr_audit : fl_audit s `prefix_of` fl_audit s';
  (* each credential is paid for by one use of a token *)
  pr_paid : Z.of_nat (length (fl_credentials s')) - total_uses s' = Z.of_nat (length (fl_credentials s)) - total_uses s }.

(** Keys are keys, attempts and uses are within their budgets. *)
Definition calm (s : Fleet) : Prop :=
  NoDup (nr_id <$> fl_nodes s) ∧ NoDup (tr_id <$> fl_tokens s) ∧ NoDup (cr_id <$> fl_credentials s) ∧
  NoDup (kr_id <$> fl_tasks s) ∧ NoDup (fact_key <$> fl_facts s) ∧ Forall good_task (fl_tasks s) ∧
  Forall good_token (fl_tokens s) ∧ map_Forall (λ _, good_spec) (fl_actions s) ∧ one_each (fl_cluster s).

#[global] Instance calm_dec s : Decision (calm s).
Proof. unfold calm. apply _. Defined.

Lemma node_moved_refl r : node_moved r r.
Proof. by left. Qed.
Lemma task_moved_refl r : task_moved r r.
Proof. by left. Qed.
Lemma token_moved_refl r : token_moved r r.
Proof. by left. Qed.
Lemma credential_moved_refl r : credential_moved r r.
Proof. unfold credential_moved. naive_solver. Qed.
Lemma fact_moved_refl r : fact_moved r r.
Proof. done. Qed.

#[export] Hint Resolve node_moved_refl task_moved_refl token_moved_refl credential_moved_refl
  fact_moved_refl : rely.

#[global] Instance promise_refl : Reflexive promise.
Proof. intros s. split; try (apply rows_refl; auto with rely); done || reflexivity. Qed.

Lemma good_task_moved r r' : task_moved r r' → good_task r → good_task r'.
Proof.
  intros [-> | (_ & _ & _ & _ & E1 & _ & _ & _ & _ & _ & H)] (G1 & G2 & G3); [done |]. unfold good_task. rewrite E1.
  destruct H as [(E2 & -> & ->) | [(E2 & -> & -> & Hlt) | (Hf & ->)]].
  - specialize (G3 E2). split; [lia |]. split; [done |]. discriminate.
  - split; [lia |]. split; [done |]. lia.
  - split; [done |]. split; [done |]. intros E. by rewrite E in Hf.
Qed.

Lemma good_token_moved r r' : token_moved r r' → good_token r → good_token r'.
Proof.
  intros [-> | (_ & _ & _ & _ & E1 & _ & _ & H)] (G1 & G2); [done |]. unfold good_token. rewrite E1.
  destruct H as [-> | [-> Hlt]]; lia.
Qed.

Lemma calm_step s s' : calm s → promise s s' → calm s'.
Proof.
  intros (C1 & C2 & C3 & C4 & C5 & C6 & C7 & C8 & C9) [P1 P2 P3 P4 P5 [_ P6] P7 _ _]. split_and!.
  - by apply P1.
  - by apply P2.
  - by apply P3.
  - by apply P4.
  - by apply P5.
  - eapply (rows_Forall _ _ _ good_task); [apply good_task_moved | | exact P4 | done].
    intros r (_ & E1 & E2 & ?). unfold good_task. rewrite E2. repeat split; intros; lia.
  - eapply (rows_Forall _ _ _ good_token); [apply good_token_moved | | exact P2 | done].
    intros r (E & _ & ? & _). unfold good_token. rewrite E. lia.
  - by apply P6.
  - by apply P7.
Qed.

(** ** Kinds of writes *)

Ltac unchanged := by first [apply rows_refl; auto with rely | reflexivity | done].

Lemma promise_nodes s l : rows_step node_moved node_born nr_id (fl_nodes s) l → promise s (s {{ fl_nodes := l }}).
Proof. intros H. split; try exact H; unchanged. Qed.

Lemma promise_tasks s l : rows_step task_moved task_born kr_id (fl_tasks s) l → promise s (s {{ fl_tasks := l }}).
Proof. intros H. split; try exact H; unchanged. Qed.

Lemma promise_facts s l : rows_step fact_moved (λ _, True) fact_key (fl_facts s) l → promise s (s {{ fl_facts := l }}).
Proof. intros H. split; try exact H; unchanged. Qed.

(** No use, no credential. *)
Lemma promise_tokens s l : rows_step token_moved token_born tr_id (fl_tokens s) l →
  total_uses (s {{ fl_tokens := l }}) = total_uses s → promise s (s {{ fl_tokens := l }}).
Proof. intros H E. split; try exact H; try unchanged. by rewrite E. Qed.

Lemma promise_credentials s l :
  rows_step credential_moved (λ r, cr_revoked_at r = 0) cr_id (fl_credentials s) l →
  length l = length (fl_credentials s) → promise s (s {{ fl_credentials := l }}).
Proof.
  intros H E. split; try exact H; try unchanged. change (fl_credentials (s {{ fl_credentials := l }})) with l. rewrite E. reflexivity.
Qed.

Lemma promise_cluster s c : lock_step (fl_cluster s) c → promise s (s {{ fl_cluster := c }}).
Proof. intros H. split; try exact H; unchanged. Qed.

Lemma promise_audit s e : promise s (s {{ fl_audit := fl_audit s ++ [e] }}).
Proof. split; try unchanged. cbn. by apply prefix_app_r. Qed.

Lemma total_uses_update s (P : TokenRow → bool) f : (∀ r, tr_uses (f r) = tr_uses r) →
  total_uses (s {{ fl_tokens := (λ r, if P r then f r else r) <$> fl_tokens s }}) = total_uses s.
Proof.
  intros Hf. unfold total_uses. cbn. unfold constant. induction (fl_tokens s) as [| r l IH]; cbn; [done |].
  rewrite IH. destruct (P r); [by rewrite Hf | done].
Qed.

(** Every operation of the fleet keeps the promise. *)

Notation hist := (list Fleet).
Notation J := (kept_so_far calm promise).
Notation wpF := (wp J promise).
Notation Safe := (safe J promise).
Notation Safe_at := (safe_at J promise).

(** * Rows that were read *)

Definition read_node (n : Node) (h : hist) : Prop :=
  ∃ s r, s ∈ h ∧ r ∈ fl_nodes s ∧ n = scanNodeRow r.

Definition read_task (t : Task) (h : hist) : Prop :=
  ∃ s r, s ∈ h ∧ r ∈ fl_tasks s ∧ t = scanTaskRow r.

Lemma read_node_later n h h' : h `suffix_of` h' → read_node n h → read_node n h'.
Proof. intros [l ->] (s & r & Hs & ?). exists s, r. set_solver. Qed.

Lemma read_task_later t h h' : h `suffix_of` h' → read_task t h → read_task t h'.
Proof. intros [l ->] (s & r & Hs & ?). exists s, r. set_solver. Qed.

(** A node found at the version it was read at is as it was read. *)
Lemma node_now n h s h' r : read_node n h → h `suffix_of` s :: h' → J (s :: h') → r ∈ fl_nodes s →
  at_version (n_ID n) (n_Version n) r = true → n = scanNodeRow r.
Proof.
  intros Hn Hs HJ Hr [Ei%seqb_eq Ev%Z.eqb_eq]%andb_prop. apply (read_node_later _ _ _ Hs) in Hn as (s1 & r1 & Hs1 & Hr1 & ->).
  cbn in Ei, Ev. f_equal. symmetry.
  apply (version_fixes fl_nodes nr_id nr_version (λ r, r) calm promise node_moved node_born) with s h'; try done.
  - by intros ? ? [[? _]].
  - intros a b [-> | (? & ? & ? & ? & ?)]; [auto with lia |]. repeat split; [done | lia | lia].
  - by intros ? (? & _).
  - by exists s1, r1.
Qed.

Lemma task_now t h s h' r : read_task t h → h `suffix_of` s :: h' → J (s :: h') → r ∈ fl_tasks s →
  task_at (t_ID t) (t_Version t) r = true → t = scanTaskRow r.
Proof.
  intros Hn Hs HJ Hr [Ei%seqb_eq Ev%Z.eqb_eq]%andb_prop. apply (read_task_later _ _ _ Hs) in Hn as (s1 & r1 & Hs1 & Hr1 & ->).
  cbn in Ei, Ev. f_equal. symmetry.
  apply (version_fixes fl_tasks kr_id kr_version (λ r, r) calm promise task_moved task_born) with s h'; try done.
  - by intros ? ? [_ _ _ [? _]].
  - intros a b [-> | (? & ? & ? & ? & ? & ? & ? & ? & ? & ?)]; [auto with lia |]. repeat split; [done | lia | lia].
  - by intros ? (_ & _ & _ & ? & _).
  - by exists s1, r1.
Qed.

(** ** Writes to what was read *)

Lemma safe_at_node n f h : read_node n h →
  (∀ r, n = scanNodeRow r → node_moved r (f r) ∧ nr_id (f r) = nr_id r) →
  Safe_at (UpdateVersioned (UPDATE node_registry (at_version (n_ID n) (n_Version n)) f)) h.
Proof.
  intros Hn Hf. apply safe_at_UpdateVersioned. intros s h' Hs HJ. apply promise_nodes, rows_update; [auto with rely |].
  intros r Hr Hv. apply Hf. by eapply node_now.
Qed.

Lemma safe_at_task t f h : read_task t h →
  (∀ r, t = scanTaskRow r → task_moved r (f r) ∧ kr_id (f r) = kr_id r) →
  Safe_at (UpdateVersioned (UPDATE node_tasks (task_at (t_ID t) (t_Version t)) f)) h.
Proof.
  intros Hn Hf. apply safe_at_UpdateVersioned. intros s h' Hs HJ. apply promise_tasks, rows_update; [auto with rely |].
  intros r Hr Hv. apply Hf. by eapply task_now.
Qed.

(** * Helpers of the service *)

Section ops.
Context `{!FleetParams}.

Lemma Safe_now : Safe now_.
Proof. apply Safe_peek. Qed.

Lemma Safe_fleetID : Safe newID.
Proof. apply Safe_peek. Qed.

Lemma Safe_fleetAudit event actor target : Safe (audit event actor target).
Proof. apply Safe_atomic. intros e s. apply promise_audit. Qed.

Lemma Safe_checked {A} (r : Res A) : Safe (checked r).
Proof. apply Safe_ret. Qed.

Lemma safe_at_internally {A} op (m : D A) h : Safe_at m h → Safe_at (internally op m) h.
Proof. intros Hm. apply wp_bind. eapply wp_mono; [exact Hm |]. by intros [] ? ? ?. Qed.

Lemma safe_at_versioned {A} op (m : D A) h : Safe_at m h → Safe_at (versioned op m) h.
Proof. intros Hm. apply wp_bind. eapply wp_mono; [exact Hm |]. by intros [] ? ? ?. Qed.

Lemma Safe_internally {A} op (m : D A) : Safe m → Safe (internally op m).
Proof. intros Hm h. apply safe_at_internally, Hm. Qed.

Lemma Safe_execCount op f : (∀ s, promise s (f s).2) → Safe (execCount op f).
Proof.
  intros Hf. apply Safe_bindD; [by apply Safe_internally, Safe_exec |]. intros []; [apply Safe_ok | apply Safe_fail].
Qed.

Lemma wp_oneRow {R} op missing (f : Fleet → list R) h Q :
  (∀ s h' r, h `suffix_of` s :: h' → J (s :: h') → r ∈ f s → Q (Ok r) (s :: s :: h')) →
  (∀ e h', h `suffix_of` h' → Q (Err e) h') → wpF (oneRow op missing f) h Q.
Proof.
  intros HQ HE. apply wp_bind, wp_peek. intros e s h' Hs HJ.
  assert (h `suffix_of` s :: s :: h') as Hs' by by apply suffix_cons_r.
  assert (∀ err, wpF (if db_IsNotFound err then fail missing else fail (wrapInternal err op)) (s :: s :: h') Q) as Hf.
  { intros err. destruct (db_IsNotFound err); by apply HE. }
  destruct (e_fault e) as [[] |]; try apply Hf; [by apply HE |].
  destruct (f s) as [| r l] eqn:E; [by apply HE |]. apply HQ; [done | done |]. rewrite E. left.
Qed.

(** A node that is read is a row of the moment. *)
Lemma wp_Get_row nodeID h (Q : Res Node → hist → Prop) :
  (∀ s h' r, h `suffix_of` s :: h' → r ∈ fl_nodes s → nr_id r = nodeID → Q (Ok (scanNodeRow r)) (s :: s :: h')) →
  (∀ e h', h `suffix_of` h' → Q (Err e) h') → wpF (Get nodeID) h Q.
Proof.
  intros HQ HE. unfold Get, checked. destruct (ValidateNodeID nodeID) as [[] | e]; [| by apply HE].
  apply wp_bind, wp_ret, wp_bind, wp_oneRow; [| intros e h' Hs; by apply HE]. intros s h' r Hs HJ Hr.
  apply list_elem_of_In, filter_In in Hr as [?%list_elem_of_In ?%seqb_eq]. by apply HQ.
Qed.

Lemma wp_Get nodeID h (Q : Res Node → hist → Prop) :
  (∀ n h', h `suffix_of` h' → read_node n h' → n_ID n = nodeID → Q (Ok n) h') →
  (∀ e h', h `suffix_of` h' → Q (Err e) h') → wpF (Get nodeID) h Q.
Proof.
  intros HQ HE. apply wp_Get_row; [| done]. intros s h' r Hs Hr E. apply HQ; [by apply suffix_cons_r | | done].
  exists s, r. split; [left | done].
Qed.

Lemma Safe_Get nodeID : Safe (Get nodeID).
Proof. intros h. by apply wp_Get. Qed.

(** An operation that starts with reading its node. *)
Lemma safe_at_Get {A} nodeID (k : Node → D A) h :
  (∀ n h', h `suffix_of` h' → read_node n h' → n_ID n = nodeID → Safe_at (k n) h') → Safe_at (bindD (Get nodeID) k) h.
Proof. intros Hk. apply wp_bind, wp_Get; [intros n h' Hs Hr En; by apply Hk | done]. Qed.
End ops.

#[export] Hint Resolve Safe_now Safe_fleetID Safe_fleetAudit Safe_checked Safe_internally Safe_Get : rely.

(** Goes past a step about whose answer nothing is needed, keeping what was read. *)
Ltac past h :=
  match goal with
  | |- safe_at _ _ (pbind _ _) _ => apply safe_at_bind; [auto with rely |]; intros ? h ?
  | |- safe_at _ _ (bindD _ _) _ => apply safe_at_bindD; [auto with rely |]; intros ? h ?
  end.

Section nodes.
Context `{!FleetParams}.

Lemma Safe_transition nodeID to reason actor event : Safe (transition nodeID to reason actor event).
Proof.
  intros h. apply safe_at_Get. intros n h1 _ Hn _. destruct (CanTransition (n_State n) to) eqn:Hc; [cbn [negb] | done].
  apply safe_at_bind; [auto with rely |]. intros now h2 Hs2. cbn zeta.
  apply safe_at_seqD; [| intros; safely].
  apply safe_at_versioned, safe_at_node; [by eapply read_node_later |].
  intros r ->. split; [right | done]. cbn. repeat split. by right.
Qed.

Lemma Safe_Transition nodeID to reason actor : Safe (Transition nodeID to reason actor).
Proof. unfold Transition. destruct (negb _); [auto with rely |]. destruct (_ =s _); [auto with rely | apply Safe_transition]. Qed.

Lemma Safe_List role : Safe (List_ role).
Proof. unfold List_. safely. Qed.

Lemma Safe_RecordContact id version : Safe (RecordContact id version).
Proof.
  apply Safe_bind; [auto with rely |]. intros now. cbn zeta. destruct (_ && _); [auto with rely |].
  apply Safe_bindD.
  - apply Safe_internally, Safe_exec. intros s. apply promise_nodes, rows_update; [auto with rely |].
    intros r _ _. split; [right | done]. cbn. auto 6.
  - intros _. safely. apply Safe_transition.
Qed.

Lemma Safe_setFlags nodeID upd reason actor event : Safe (setFlags nodeID upd reason actor event).
Proof.
  intros h. apply safe_at_Get. intros n h1 _ Hn _. destruct (_ =s _); [done |]. cbn zeta.
  apply safe_at_bind; [auto with rely |]. intros now h2 Hs2. apply safe_at_seqD; [| intros; safely].
  apply safe_at_versioned, safe_at_node; [by eapply read_node_later |].
  intros r _. split; [right | done]. cbn. auto 6.
Qed.

Lemma Safe_SetCallbackURL nodeID url actor : Safe (SetCallbackURL nodeID url actor).
Proof.
  intros h. apply safe_at_Get. intros n h1 _ Hn _. destruct (negb _); [done |]. destruct (_ =s _); [done |]. cbn zeta.
  apply safe_at_bind; [destruct (_ =s _); auto with rely |]. intros allowed h2 Hs2. destruct (negb _); [done |].
  apply safe_at_bind; [auto with rely |]. intros now h3 Hs3. apply safe_at_seqD; [| intros; safely].
  apply safe_at_versioned, safe_at_node; [eapply read_node_later; [| exact Hn]; by trans h2 |].
  intros r _. split; [right | done]. cbn. auto 6.
Qed.

Lemma Safe_livenessLoop nodes now result : Safe (sweepLoop nodes now result).
Proof.
  revert result. induction nodes as [| n nodes IH]; intros result; cbn [sweepLoop]; [auto with rely |].
  destruct (swept n now); [| apply IH]. apply Safe_bind; [apply Safe_transition |]. intros []; [apply IH | auto with rely].
Qed.

Lemma Safe_SweepLiveness : Safe SweepLiveness.
Proof.
  apply Safe_bind; [apply Safe_List |]. intros []; [| auto with rely]. apply Safe_bind; [auto with rely |].
  intros now. apply Safe_livenessLoop.
Qed.

Lemma Safe_oneRow {R} op missing (f : Fleet → list R) : Safe (oneRow op missing f).
Proof. intros h. by apply wp_oneRow. Qed.

Lemma Safe_Notify node : Safe (Notify node).
Proof.
  unfold Notify. destruct o_http; [| auto with rely]. safely. apply Safe_bindD; [apply Safe_oneRow |]. intros. safely.
Qed.

(** ** The control plane *)

Lemma Safe_on_cluster {A} (p : prog Cluster Env A) :
  safe (kept_so_far one_each lock_step) lock_step p → Safe (on_cluster p).
Proof.
  intros Hp h. eapply wp_mono; [eapply (wp_zoom _ _ (kept_so_far one_each lock_step) lock_step) | done].
  - done.
  - intros h' [Hc Hch]. split.
    + apply Forall_fmap. eapply Forall_impl; [exact Hc |]. by intros s (_ & _ & _ & _ & _ & _ & _ & _ & ?).
    + clear Hc. induction h' as [| s [| s1 h'] IH]; [done | done |]. destruct Hch as [[] Hch]. split; [done | by apply IH].
  - intros t c Hl. by apply promise_cluster.
  - apply Hp.
Qed.

Lemma Safe_RegisterAction spec : Safe (RegisterAction spec).
Proof.
  unfold RegisterAction. destruct (completeSpec spec) as [a | e] eqn:E; [| auto with rely]. apply Safe_atomic.
  assert (good_spec a) as Hg.
  { unfold completeSpec in E. destruct (ValidateActionName _); [| done]. destruct (negb _); [done |].
    destruct (_ || _) eqn:Eb; [done |]. apply orb_false_iff in Eb as [B1 B2]. injection E as <-.
    unfold good_spec, MaxTaskAttempts, MaxTaskTimeout, DefaultMaxAttempts, DefaultTaskTimeout, Second. cbn [ac_MaxAttempts ac_Timeout ac_MaxPayloadBytes].
    assert (DefaultMaxPayloadBytes = 16384) as D1 by reflexivity.
    assert (MaxPayloadBytesLimit = 262144) as D2 by reflexivity.
    repeat match goal with |- context [if ?b then _ else _] => destruct b eqn:? end; lia. }
  intros _ s.
  assert (∀ b, fl_actions s !! ac_Name a = None ∨ fl_actions s !! ac_Name a = Some a →
    b = s {{ fl_actions := <[ac_Name a := a]> (fl_actions s) }} → promise s b) as Hins.
  { intros b Hold ->. split; try (by first [apply rows_refl; auto with rely | reflexivity | done]). split.
    - destruct Hold as [Hold | Hold]; [by apply insert_subseteq |]. cbn. unfold constant. by rewrite insert_id.
    - intros HF. by apply map_Forall_insert_2. }
  destruct (fl_actions s !! ac_Name a) as [b |] eqn:El; cbn; [| eapply Hins; [by left | done]].
  destruct (sameAction b a) eqn:Es; cbn; [| reflexivity]. eapply Hins; [right | done]. f_equal.
  unfold sameAction in Es. repeat (apply andb_prop in Es as [Es ?]). apply bool_decide_eq_true in H0.
  destruct a, b. cbn in *. rewrite ?seqb_eq, ?Z.eqb_eq in *. by simplify_eq.
Qed.

Lemma Safe_registerAll specs : Safe (registerAll specs).
Proof.
  induction specs as [| a specs IH]; cbn [registerAll]; [auto with rely |].
  apply Safe_bindD; [apply Safe_RegisterAction |]. intros _. exact IH.
Qed.

Lemma Safe_NewService specs : Safe (NewService specs).
Proof.
  unfold NewService. destruct (_ <? 0); [auto with rely |]. apply Safe_bindD; [apply Safe_registerAll |].
  intros _. apply Safe_registerAll.
Qed.
End nodes.

#[export] Hint Resolve Safe_transition Safe_Transition Safe_List Safe_RecordContact Safe_setFlags
  Safe_SetCallbackURL Safe_SweepLiveness Safe_oneRow Safe_Notify Safe_on_cluster Safe_RegisterAction
  Safe_NewService : rely.

Section tasks.
Context `{!FleetParams}.

Lemma keyed_task row s s' : task_born row → keyed node_tasks clash_task row s = Some s' → promise s s'.
Proof.
  intros Hb [-> Hk]%keyed_inv. apply promise_tasks, rows_insert; [auto with rely | done |].
  intros r Hr E. specialize (Hk r Hr). unfold clash_task in Hk. by apply seqb_neq in Hk.
Qed.

Lemma Safe_Dispatch req : Safe (Dispatch req).
Proof.
  apply Safe_bindD; [auto with rely |]. intros node h. apply wp_bind, wp_peek. intros e s h1 Hs [Hcalm _].
  destruct (fl_actions s !! dr_Action req) as [spec |] eqn:Es; [| done].
  assert (good_spec spec) as (Hatt & _ & _).
  { apply Forall_cons_1 in Hcalm as [(_ & _ & _ & _ & _ & _ & _ & Hg & _) _]. by apply (Hg (dr_Action req)). }
  destruct (negb (allows _ _)); [done |]. destruct (negb _); [done |].
  apply safe_at_bindD; [auto with rely |]. intros payload h2 Hs2. cbn zeta.
  set (attempts := if MaxTaskAttempts <? _ then _ else _).
  assert (1 ≤ attempts ≤ MaxTaskAttempts) as Ha.
  { subst attempts. unfold MaxTaskAttempts in *. repeat match goal with |- context [if ?b then _ else _] => destruct b eqn:? end; lia. }
  apply safe_at_bind; [auto with rely |]. intros id h3 _. apply safe_at_bind; [auto with rely |]. intros now h4 _.
  apply safe_at_bindD; [| intros; safely].
  apply Safe_internally, Safe_INSERT_KEYED. intros s1 h5 s2 _. by apply keyed_task.
Qed.

Lemma Safe_claimOne t now : Safe (claimOne t now).
Proof.
  unfold claimOne. cbn zeta. apply Safe_bind; [| intros []; safely]. intros h.
  apply safe_at_UpdateVersioned. intros s h' _ _. apply promise_tasks, rows_update; [auto with rely |].
  intros r _ [_ E%seqb_eq]%andb_prop. split; [right | done]. cbn. rewrite E. repeat split. by left.
Qed.

Lemma Safe_claimLoop nodeID l now : Safe (claimLoop nodeID l now).
Proof.
  induction l as [| t l IH]; cbn [claimLoop]; [auto with rely |]. apply Safe_bindD; [apply Safe_claimOne |].
  intros []; [| exact IH]. safely.
Qed.

Lemma Safe_Claim id limit : Safe (Claim id limit).
Proof.
  unfold Claim. cbn zeta. destruct (_ || _); [auto with rely |]. apply Safe_bind; [auto with rely |]. intros now.
  apply Safe_bindD; [auto with rely |]. intros rows. apply Safe_claimLoop.
Qed.

Lemma safe_at_failAttempt t exitCode result failure now actor h : read_task t h → t_State t = TaskDispatched →
  Safe_at (failAttempt t exitCode result failure now actor) h.
Proof.
  intros Hr Hd. unfold failAttempt. destruct (_ <? _) eqn:E; cbn zeta.
  all: apply safe_at_seqD; [| intros; safely]; apply safe_at_versioned, safe_at_task; [done |].
  all: intros r ->; cbn in Hd, E; split; [right | done]; cbn; rewrite Hd; repeat split; auto 6 with lia.
Qed.

Lemma wp_task {A} op (P : TaskRow → bool) (k : Task → D A) h :
  (∀ t h', h `suffix_of` h' → read_task t h' → Safe_at (k t) h') →
  Safe_at (let? t := (let? r := oneRow op ErrTaskNotFound (SELECT node_tasks P) in ok_ (scanTaskRow r)) in k t) h.
Proof.
  intros Hk. apply wp_bind, wp_bind, wp_oneRow; [| done]. intros s h' r Hs HJ Hr. cbn.
  apply Hk; [by apply suffix_cons_r |]. exists s, r.
  apply list_elem_of_In, filter_In in Hr as [?%list_elem_of_In _]. split; [left | done].
Qed.

Lemma Safe_Report id res : Safe (Report id res).
Proof.
  intros h. apply wp_task. intros t h1 _ Ht. destruct (t_State t =s TaskDispatched) eqn:Ed; [cbn [negb] | done].
  apply seqb_eq in Ed. cbn zeta. apply safe_at_bind; [auto with rely |]. intros now h2 Hs2.
  apply (read_task_later _ _ _ Hs2) in Ht. destruct (re_Success res); [| by apply safe_at_failAttempt].
  apply safe_at_seqD; [| intros; safely]. apply safe_at_versioned, safe_at_task; [done |].
  intros r ->. cbn in Ed. split; [right | done]. cbn. rewrite Ed. repeat split. auto.
Qed.

Lemma safe_at_reapLoop l now reaped h : Forall (λ t, read_task t h ∧ t_State t = TaskDispatched) l →
  Safe_at (reapLoop l now reaped) h.
Proof.
  revert reaped h. induction l as [| t l IH]; intros reaped h; cbn [reapLoop]; [done |].
  intros [[Hr Hd] HF]%Forall_cons_1. apply safe_at_seq; [by apply safe_at_failAttempt |]. intros r h' Hs.
  assert (Forall (λ t, read_task t h' ∧ t_State t = TaskDispatched) l) as HF'.
  { eapply Forall_impl; [exact HF |]. cbn. intros x [? ?]. split; [by eapply read_task_later | done]. }
  destruct r as [a | e]; [by apply IH |]. destruct (isConcurrentUpdate e); [by apply IH | done].
Qed.

Lemma sorted_elem {R} leb (l : list R) r : r ∈ ORDER_BY leb l → r ∈ l.
Proof. unfold ORDER_BY. by rewrite sort_by_perm. Qed.

Lemma Safe_ReapTasks : Safe ReapTasks.
Proof.
  apply Safe_bind; [auto with rely |]. intros now h. apply wp_bind, wp_bind, wp_peek. intros e s h' Hs HJ.
  destruct (e_fault e); [done |]. apply safe_at_reapLoop, Forall_fmap, Forall_forall. intros r Hr%sorted_elem.
  apply list_elem_of_In, filter_In in Hr as [Hr%list_elem_of_In HP]. cbn. split; [exists s, r; split; [left | done] |].
  apply andb_prop in HP as [[HP%seqb_eq _]%andb_prop _]. done.
Qed.

Lemma Safe_CancelTask taskID reason actor : Safe (CancelTask taskID reason actor).
Proof.
  intros h. apply wp_task. intros t h1 _ Ht. destruct (Terminal t) eqn:Et; [done |]. cbn zeta.
  apply safe_at_bind; [auto with rely |]. intros now h2 Hs2. apply (read_task_later _ _ _ Hs2) in Ht.
  apply safe_at_seqD; [| intros; safely]. apply safe_at_versioned, safe_at_task; [done |].
  intros r ->. unfold Terminal in Et. cbn in Et. split; [right | done]. cbn. rewrite Et. repeat split. auto.
Qed.

Lemma Safe_cancelQueued nodeID reason : Safe (cancelQueued nodeID reason).
Proof.
  apply Safe_bind; [auto with rely |]. intros now. apply Safe_execCount. intros s.
  apply promise_tasks, rows_update; [auto with rely |]. intros r _ [_ E%seqb_eq]%andb_prop.
  split; [right | done]. cbn. rewrite E. repeat split. auto.
Qed.

Lemma Safe_ListTasks nodeID state limit : Safe (ListTasks nodeID state limit).
Proof. unfold ListTasks. safely. Qed.
End tasks.
