(* ===== verification/FleetJoin.v ===== *)
(** Joining and leaving keep the promise: the transactions of [FleetEnroll.v] and
    the removal of a node. *)
From stdpp Require Import prelude strings list gmap.
From Stdlib Require Import ZArith Lia.
From S2P Require Import Prelude GoTime Errors Threads Sql Rely Tran Text Token NodeValidate Outbound.
From S2P Require Import Cluster ClusterLock Fleet FleetTransport FleetTasks FleetEnroll FleetOps.

Notation txokF := (txok (J := J) (G := promise)).
Notation replaysF := (replays (J := J)).

(** * Stages of an enrollment *)

(** The registry and the facts have changed. *)
Definition joined (s s' : Fleet) : Prop :=
  ∃ N F, s' = s {{ fl_nodes := N; fl_facts := F }} ∧
    rows_step node_moved node_born nr_id (fl_nodes s) N ∧
    rows_step fact_moved (λ _, True) fact_key (fl_facts s) F.

(** And a credential was issued. *)
Definition credited (s s' : Fleet) : Prop :=
  ∃ N F C, s' = s {{ fl_nodes := N; fl_facts := F; fl_credentials := C }} ∧
    rows_step node_moved node_born nr_id (fl_nodes s) N ∧
    rows_step fact_moved (λ _, True) fact_key (fl_facts s) F ∧
    rows_step credential_moved (λ r, cr_revoked_at r = 0) cr_id (fl_credentials s) C ∧
    length C = S (length (fl_credentials s)).

Section join.
Context `{!FleetParams}.

Lemma txok_internally {A} op (m : TXF A) ws h Φ : txokF m ws h Φ → txokF (txInternally op m) ws h Φ.
Proof.
  intros Hm. apply txwp_bind, txwp_try. eapply txwp_mono; [exact Hm |]. by intros [] ? ? ?.
Qed.

Lemma txok_update {R K} `{EqDecision R, EqDecision K} (tb : Table Fleet R) (key : R → K) op P f ws h Φ :
  (∀ l c h', h `suffix_of` h' → Forall (λ r, P r = true) l →
     c = Ok (Z.of_nat (length l)) ∨ (∃ e, c = Err e) →
     Φ c (ws ++ [locked tb key l (setRows tb key l f)]) h') →
  txokF (txInternally op (TxUpdate tb key P f)) ws h Φ.
Proof. intros HΦ. apply txok_internally, txwp_update; [intros l c h' Hs Hl Hc; by apply HΦ | done]. Qed.

Lemma txok_insert {R} `{EqDecision R} (tb : Table Fleet R) op clash r ws h Φ :
  (∀ h', h `suffix_of` h' → Φ () (ws ++ [keyed tb clash r]) h') →
  txokF (txInternally op (TxInsert tb clash r)) ws h Φ.
Proof. intros HΦ. apply txok_internally, txwp_insert; [done | done]. Qed.

Lemma txok_find {R} op (f : Fleet → list R) h Φ :
  (∀ s h' r, h `suffix_of` s :: h' → J (s :: h') → r ∈ f s → Φ (Some r) [] (s :: s :: h')) →
  (∀ h', h `suffix_of` h' → Φ None [] h') → txokF (txFind op f) [] h Φ.
Proof.
  intros HS HN. apply txwp_bind, txwp_try, txwp_queryRow.
  - intros s h' v r Hs HJ [= <-] Hr. by apply HS.
  - intros h' Hs. by apply HN.
  - intros e h' Hs. destruct (db_IsNotFound e); [by apply HN | done].
Qed.

Lemma joined_refl s : joined s s.
Proof. exists (fl_nodes s), (fl_facts s). split; [by destruct s |]. split; apply rows_refl; auto with rely. Qed.

(** ** The registry *)

Lemma txok_rejoin token nodeID name address version now h :
  txokF (rejoinNode token nodeID name address version now) [] h (λ _ ws h', replaysF ws h' joined).
Proof.
  apply txok_bind, txok_find; [| done]. intros s h1 r Hs HJ Hr.
  assert (read_node (scanNodeRow r) (s :: s :: h1)) as Hn.
  { exists s, r. apply list_elem_of_In, filter_In in Hr as [?%list_elem_of_In _]. split; [left | done]. }
  cbn zeta. destruct (negb _); [done |]. destruct (CanTransition _ _) eqn:Hc; [cbn [negb] | done].
  apply txok_bind, txok_update. intros l c h2 Hs2 HP _. apply txok_ok.
  intros s1 h3 s2 Hs3 HJ3 (s3 & [= <-] & [-> Hin]%locked_inv)%(replay_snoc []).
  eexists _, (fl_facts s1). split; [reflexivity |]. split; [| apply rows_refl; auto with rely].
  apply rows_update; [auto with rely |]. intros r' Hr' Ha. split; [| done].
  assert (scanNodeRow r = scanNodeRow r') as E.
  { eapply (node_now _ (s :: s :: h1)); [done | by trans h2 | done | done |]. rewrite Forall_forall in HP. auto. }
  right. cbn. repeat split. right. change (nr_state r') with (n_State (scanNodeRow r')). by rewrite <-E.
Qed.

Lemma txok_new token nodeID name address version now h : Role_Valid (et_Role token) = true →
  txokF (newNode token nodeID name address version now) [] h (λ _ ws h', replaysF ws h' joined).
Proof.
  intros Hv. apply txok_bind, txok_find; [done |]. intros h1 Hs1. cbn zeta.
  apply txok_bind, txok_insert. intros h2 _. apply txok_ok.
  intros s1 h3 s2 Hs3 HJ3 (s3 & [= <-] & [-> Hk]%keyed_inv)%(replay_snoc []).
  eexists _, (fl_facts s1). split; [reflexivity |]. split; [| apply rows_refl; auto with rely].
  apply rows_insert; [auto with rely | done |]. intros r Hr E. specialize (Hk r Hr). unfold clash_node in Hk.
  by apply seqb_neq in Hk.
Qed.

(** ** The facts *)

Lemma fact_moved_trans (a b c : FactRow) : fact_moved a b → fact_moved b c → fact_moved a c.
Proof. unfold fact_moved. congruence. Qed.

Lemma joined_facts s s1 F : joined s s1 → rows_step fact_moved (λ _, True) fact_key (fl_facts s1) F →
  joined s (s1 {{ fl_facts := F }}).
Proof.
  intros (N & F0 & -> & HN & HF) HF2. exists N, F. split; [done |]. split; [done |].
  eapply rows_trans; [apply fact_moved_trans | done | exact HF | exact HF2].
Qed.

Lemma txok_storeFacts nodeID keys f now ws h : replaysF ws h joined →
  txokF (storeFacts nodeID keys f now) ws h (λ _ ws' h', replaysF ws' h' joined).
Proof.
  revert ws h. induction keys as [| key keys IH]; intros ws h Hws; cbn [storeFacts]; [by apply txok_ok |]. cbn zeta.
  apply txok_bind, txok_update. intros l c h1 Hs1 _ _.
  assert (replaysF (ws ++ [locked node_facts fact_key l (setRows node_facts fact_key l
    (λ r, r {{ fr_fact_value := value_of key (factValues f); fr_reported_at := unixOf now }}))]) h1 joined) as H1.
  { eapply replays_snoc; [by eapply replays_later |]. intros s h' s1 s' _ _ Hj [-> _]%locked_inv.
    apply (joined_facts _ _ _ Hj), rows_update; [auto with rely |]. done. }
  destruct c as [n | e]; [| done]. destruct (0 <? n); [by apply IH |].
  apply txok_bind, txok_insert. intros h2 Hs2. apply IH.
  eapply replays_snoc; [by eapply replays_later |]. intros s h' s1 s' _ _ Hj [-> Hk]%keyed_inv.
  apply (joined_facts _ _ _ Hj), rows_insert; [auto with rely | done |]. intros r Hr E.
  specialize (Hk r Hr). unfold clash_fact, fact_key in *. injection E as E1 E2. cbn in E1, E2.
  cbn in Hk. by rewrite E1, E2, !seqb_refl in Hk.
Qed.

(** ** The credential *)

Lemma credential_moved_trans a b c : credential_moved a b → credential_moved b c → credential_moved a c.
Proof. unfold credential_moved. intros. naive_solver congruence. Qed.

Lemma revoke_moved now P l : (∀ r, r ∈ l → P r = true → cr_revoked_at r = 0) →
  rows_step credential_moved (λ r, cr_revoked_at r = 0) cr_id l
    ((λ r, if P r then r {{ cr_revoked_at := unixOf now }} else r) <$> l).
Proof. intros HP. apply rows_update; [auto with rely |]. intros r Hr H0. split; [| done]. unfold credential_moved. cbn. auto 8. Qed.

Lemma txok_issueCredential node now ws h : replaysF ws h joined →
  txokF (issueCredential node now) ws h (λ _ ws' h', replaysF ws' h' credited).
Proof.
  intros Hws. apply txok_bind, txok_update. intros l c h1 Hs1 HP _. apply txok_bind, txok_peek. intros g h2 Hs2.
  destruct g as [[secret hash] | e]; [| done]. apply txok_bind, txok_peek. intros id h3 Hs3. cbn zeta.
  apply txok_bind, txok_insert. intros h4 Hs4. apply txok_ok. rewrite <-app_assoc. cbn [app].
  intros s h' s' Hs HJ Hr.
  change (ws ++ [?a; ?b]) with (ws ++ ([a] ++ [b])) in Hr. rewrite app_assoc in Hr.
  apply replay_snoc in Hr as (s2 & (s1 & Hr & [-> Hin]%locked_inv)%replay_snoc & [-> Hk]%keyed_inv).
  assert (h `suffix_of` s :: h') as Hsuf by (trans h1; [done |]; trans h2; [done |]; trans h3; [done |]; by trans h4).
  destruct (Hws s h' s1 Hsuf HJ Hr) as (N & F & -> & HN & HF).
  exists N, F. eexists. split; [reflexivity |]. split; [done |]. split; [done |]. split.
  - apply rows_snoc.
    + apply (revoke_moved now (among cr_id l)). intros r Hr' Ha. rewrite Forall_forall in HP.
      specialize (HP r (Hin r Hr' Ha)). apply andb_prop in HP as [_ HP]. by apply Z.eqb_eq in HP.
    + done.
    + intros r Hr' E. specialize (Hk r Hr'). unfold clash_credential in Hk. apply orb_false_iff in Hk as [Hk _].
      apply seqb_neq in Hk. done.
  - unfold constant, setRows. cbn. unfold constant. rewrite length_app, length_fmap. cbn. rewrite Nat.add_1_r. done.
Qed.

(** ** The token *)

(** A token that was read, with a use left. *)
Definition read_token (t : EnrollmentToken) (h : hist) : Prop :=
  ∃ s r, s ∈ h ∧ r ∈ fl_tokens s ∧ t = (scanEnrollment r).1 ∧ 0 ≤ et_Uses t < et_MaxUses t ∧ et_MaxUses t ≤ MaxEnrollmentUses.

Lemma read_token_later t h h' : h `suffix_of` h' → read_token t h → read_token t h'.
Proof. intros [l ->] (s & r & Hs & ?). exists s, r. set_solver. Qed.

(** The number of uses allowed never changes. *)
Lemma token_now t h s h' r : read_token t h → h `suffix_of` s :: h' → J (s :: h') → r ∈ fl_tokens s →
  tr_id r = et_ID t → tr_max_uses r = et_MaxUses t.
Proof.
  intros Ht Hs HJ Hr Ei. apply (read_token_later _ _ _ Hs) in Ht as (s1 & r1 & Hs1 & Hr1 & -> & _).
  apply (version_fixes fl_tokens tr_id (λ _, 0) tr_max_uses calm promise token_moved token_born) with s h'; try done.
  - by intros ? ? [_ [? _]].
  - intros a b [-> | (? & ? & ? & ? & ? & _)]; [auto with lia |]. repeat split; [done | lia | done].
  - by intros ? (_ & ? & _).
  - by exists s1, r1.
Qed.

Lemma one_of_id (l : list TokenRow) id : NoDup (tr_id <$> l) → Forall (λ r, tr_id r = id) l → (length l ≤ 1)%nat.
Proof.
  intros Hn HF. destruct l as [| a [| b l]]; cbn; [lia.. |]. exfalso. cbn in Hn.
  apply NoDup_cons in Hn as [Hn _]. apply Forall_cons_1 in HF as [Ea HF]. apply Forall_cons_1 in HF as [Eb _].
  apply Hn. rewrite Ea, Eb. left.
Qed.

Lemma uses_counted (P : TokenRow → bool) f l : (∀ r, r ∈ l → P r = true → tr_uses (f r) = tr_uses r + 1) →
  foldr (λ r n, tr_uses r + n) 0 ((λ r, if P r then f r else r) <$> l) =
  foldr (λ r n, tr_uses r + n) 0 l + Z.of_nat (length (List.filter P l)).
Proof.
  induction l as [| r l IH]; intros Hf; [done |]. rewrite fmap_cons. cbn [foldr List.filter]. rewrite IH by set_solver.
  destruct (P r) eqn:E; [rewrite Hf by (done || left); cbn [length]; lia | lia].
Qed.

Lemma total_uses_set l f s :
  (∀ r, r ∈ fl_tokens s → among tr_id l r = true → tr_uses (f r) = tr_uses r + 1) →
  total_uses (setRows node_enrollment_tokens tr_id l f s) =
  total_uses s + Z.of_nat (length (List.filter (among tr_id l) (fl_tokens s))).
Proof. apply uses_counted. Qed.

Lemma NoDup_filter_ids (P : TokenRow → bool) l : NoDup (tr_id <$> l) → NoDup (tr_id <$> List.filter P l).
Proof.
  induction l as [| r l IH]; cbn; [done |]. intros [Hn Hd]%NoDup_cons. destruct (P r); [| by apply IH]. cbn.
  apply NoDup_cons. split; [| by apply IH]. intros (r' & E & Hr')%list_elem_of_fmap. apply Hn, list_elem_of_fmap.
  exists r'. split; [done |]. by apply list_elem_of_In, filter_In in Hr' as [?%list_elem_of_In _].
Qed.

Lemma txok_consume token now ws h : read_token token h → replaysF ws h credited →
  txokF (consumeEnrollment token now) ws h (λ _ ws' h', replaysF ws' h' promise).
Proof.
  intros Ht Hws. unfold consumeEnrollment. cbn zeta. apply txok_bind, txok_update. intros l c h1 Hs1 HP Hc.
  destruct c as [n | e]; [| done]. destruct (n =? 0) eqn:En; [done |]. apply txok_ok.
  destruct Hc as [[= ->] | (e & [=])].
  assert (wrap64 (et_Uses token + 1) = et_Uses token + 1) as Ew.
  { destruct Ht as (_ & _ & _ & _ & _ & H1 & H2). unfold MaxEnrollmentUses in H2. apply wrap64_id. int64. }
  rewrite Ew. generalize (if et_MaxUses token <=? et_Uses token + 1 then unixOf now else 0). intros revoked.
  assert (∀ r, r ∈ l → tr_id r = et_ID token ∧ tr_uses r = et_Uses token ∧ tr_revoked_at r = 0) as Hl.
  { intros r Hr. rewrite Forall_forall in HP. specialize (HP r Hr).
    apply andb_prop in HP as [[HP1%seqb_eq HP2%Z.eqb_eq]%andb_prop HP3%Z.eqb_eq]. done. }
  eapply replays_snoc; [by eapply replays_later |]. intros s h' s1 s' Hs HJ (N & F & C & -> & HN & HF & HC & Hlen) Hlk.
  pose proof Hlk as [-> Hin]%locked_inv. cbn in Hin. unfold constant in Hin.
  assert (List.filter (among tr_id l) (fl_tokens s) = l) as Efl.
  { unfold locked in Hlk. by case_bool_decide. }
  assert (h `suffix_of` s :: h') as Hsuf by by trans h1.
  assert (length l = 1)%nat as E1.
  { assert (length l ≤ 1)%nat; [| lia]. destruct HJ as [Hcalm _]. apply Forall_cons_1 in Hcalm as [(_ & Hd & _) _].
    apply (one_of_id l (et_ID token)); [rewrite <-Efl; by apply NoDup_filter_ids |].
    apply Forall_forall. intros r Hr. by apply Hl. }
  split; try done; try (apply rows_refl; auto with rely).
  - apply rows_update; [auto with rely |]. intros r Hr Ha. split; [| done].
    destruct (Hl r (Hin r Hr Ha)) as (A1 & A2 & A3).
    pose proof (token_now _ _ _ _ _ Ht Hsuf HJ Hr A1) as Em. right. cbn. unfold constant.
    destruct Ht as (_ & _ & _ & _ & _ & H1 & _). repeat split; [done |]. right. rewrite A2, Em. split; [done | lia].
  - rewrite total_uses_set.
    + change (total_uses (s {{ fl_nodes := N; fl_facts := F; fl_credentials := C }})) with (total_uses s).
      change (fl_tokens (s {{ fl_nodes := N; fl_facts := F; fl_credentials := C }})) with (fl_tokens s).
      change (fl_credentials (setRows _ _ _ _ _)) with C. rewrite Efl, E1, Hlen. lia.
    + intros r Hr Ha. cbn. unfold constant. destruct (Hl r (Hin r Hr Ha)) as (_ & A2 & _). by rewrite A2.
Qed.

(** * Enrolling *)

Lemma txok_enroll req facts hash now h :
  txokF (enrollTx req facts hash now) [] h (λ _ ws h', replaysF ws h' promise).
Proof.
  apply txok_bind, txok_find; [| done]. intros s h1 r Hs HJ Hr. cbn [scanEnrollment].
  set (token := mkEnrollmentToken _ _ _ _ _ _ _ _ _ _).
  destruct (negb (ConstantTimeEqualString _ _)); [done |].
  destruct (Live token now) eqn:El; [cbn [negb] | done].
  destruct (Role_Valid (et_Role token)) eqn:Ev; [cbn [negb] | done].
  assert (read_token token (s :: s :: h1)) as Ht.
  { apply list_elem_of_In, filter_In in Hr as [Hr%list_elem_of_In _]. exists s, r. split_and!; [left | done | done | ..].
    all: destruct HJ as [Hcalm _]; apply Forall_cons_1 in Hcalm as [(_ & _ & _ & _ & _ & _ & Hg & _) _].
    all: rewrite Forall_forall in Hg; specialize (Hg r Hr) as [? ?]; cbn; try lia.
    unfold Live in El. destruct (negb _); [done |]. destruct (_ && _); [done |]. cbn in El. lia. }
  destruct (joinDetails token req) as [[[[[rejoin nodeID] name] address] version] |]; [| done].
  apply txok_bind. eapply txok_mono.
  { unfold enrollNodeRow. destruct rejoin; [apply txok_rejoin | by apply txok_new]. }
  intros node ws h2 Hs2 H2. apply txok_bind. eapply txok_mono; [by apply txok_storeFacts |].
  intros u ws3 h3 Hs3 H3. apply txok_bind. eapply txok_mono; [by apply txok_issueCredential |].
  intros plain ws4 h4 Hs4 H4. apply txok_bind. eapply txok_mono; [apply txok_consume; [| done] |].
  - eapply read_token_later; [| exact Ht]. trans h2; [done |]. by trans h3.
  - intros u5 ws5 h5 _ H5. by apply txok_ok.
Qed.

Lemma Safe_Enroll req : Safe (Enroll req).
Proof.
  unfold Enroll. destruct (ParseToken _); [| auto with rely]. apply Safe_bindD; [auto with rely |]. intros facts. cbn zeta.
  apply Safe_bind; [auto with rely |]. intros now. apply Safe_bindD.
  - apply Safe_Transact. intros h. apply txok_enroll.
  - intros [[node cred] rejoin]. safely.
Qed.

Lemma keyed_token row s s' : token_born row → keyed node_enrollment_tokens clash_token row s = Some s' → promise s s'.
Proof.
  intros Hb [-> Hk]%keyed_inv. apply promise_tokens.
  - apply rows_insert; [auto with rely | done |]. intros r Hr E. specialize (Hk r Hr). unfold clash_token in Hk.
    apply orb_false_iff in Hk as [Hk _]. by apply seqb_neq in Hk.
  - unfold total_uses. cbn. unfold constant. rewrite foldr_app. cbn. destruct Hb as (-> & _). done.
Qed.

Lemma Safe_IssueEnrollmentToken req : Safe (IssueEnrollmentToken req).
Proof.
  unfold IssueEnrollmentToken. destruct (Role_Valid _) eqn:Ev; [cbn [negb] | apply Safe_fail].
  apply Safe_bindD; [safely |]. intros _. cbn zeta.
  apply Safe_bindD; [apply Safe_internally, Safe_peek |]. intros [secret hash].
  apply Safe_bind; [auto with rely |]. intros id. apply Safe_bind; [auto with rely |]. intros now.
  apply Safe_bindD; [| intros; safely]. apply Safe_internally, Safe_INSERT_KEYED. intros s h s' _. apply keyed_token.
  unfold token_born, MaxEnrollmentUses, DefaultEnrollmentUses. cbn [tr_uses tr_revoked_at tr_max_uses tr_role]. split_and!; try done.
  all: destruct (er_MaxUses req <=? 0) eqn:E; [done |]; destruct (64 <? er_MaxUses req) eqn:E2; lia.
Qed.

Lemma Safe_Rekey nodeID actor : Safe (Rekey nodeID actor).
Proof. apply Safe_bindD; [auto with rely |]. intros n. apply Safe_bindD; [apply Safe_IssueEnrollmentToken | intros; safely]. Qed.

(** Tokens are revoked. *)
Lemma promise_revoke_tokens s P v : (∀ r, r ∈ fl_tokens s → P r = true → tr_revoked_at r = 0) →
  promise s (UPDATE node_enrollment_tokens P (λ r, r {{ tr_revoked_at := v }}) s).2.
Proof.
  intros HP. apply promise_tokens; [| by apply total_uses_update]. apply rows_update; [auto with rely |].
  intros r Hr H0. split; [right | done]. cbn. auto 12.
Qed.

Lemma Safe_RevokeEnrollmentToken tokenID actor : Safe (RevokeEnrollmentToken tokenID actor).
Proof.
  apply Safe_bind; [auto with rely |]. intros now. apply Safe_bindD; [| intros; safely]. apply Safe_execCount.
  intros s. apply promise_revoke_tokens. by intros r _ [_ ?%Z.eqb_eq]%andb_prop.
Qed.

Lemma Safe_ExpireEnrollmentTokens : Safe ExpireEnrollmentTokens.
Proof.
  apply Safe_bind; [auto with rely |]. intros now. cbn zeta. apply Safe_bindD; [| intros; safely]. apply Safe_execCount.
  intros s. apply promise_revoke_tokens. by intros r _ [[?%Z.eqb_eq _]%andb_prop _]%andb_prop.
Qed.

Lemma Safe_ListEnrollmentTokens : Safe ListEnrollmentTokens.
Proof. unfold ListEnrollmentTokens. safely. Qed.

Lemma Safe_Authenticate secret : Safe (Authenticate secret).
Proof.
  unfold Authenticate. destruct (ParseToken secret) as [[prefix body] |]; [| auto with rely].
  destruct (_ && _); [auto with rely |]. cbn zeta. apply Safe_bind; [auto with rely |]. intros now.
  apply Safe_bindD; [auto with rely |]. intros row. safely.
  apply Safe_internally, Safe_exec. intros s. apply promise_credentials; [| apply length_fmap].
  apply rows_update; [auto with rely |]. intros r _ _. split; [| done]. unfold credential_moved. cbn. auto 8.
Qed.

Lemma Safe_RevokeCredentials nodeID actor : Safe (RevokeCredentials nodeID actor).
Proof.
  apply Safe_bindD; [auto with rely |]. intros _. apply Safe_bind; [auto with rely |]. intros now.
  apply Safe_bindD; [| intros; safely]. apply Safe_execCount. intros s.
  apply promise_credentials; [| apply length_fmap]. apply revoke_moved. by intros r _ [_ ?%Z.eqb_eq]%andb_prop.
Qed.

Lemma Safe_GetFacts nodeID : Safe (GetFacts nodeID).
Proof. unfold GetFacts. safely. Qed.

Lemma Safe_ReportFacts id f : Safe (ReportFacts id f).
Proof.
  apply Safe_bindD; [auto with rely |]. intros facts. apply Safe_bind; [auto with rely |]. intros now.
  apply Safe_bindD; [| intros; safely]. apply Safe_Transact. intros h. eapply txok_mono.
  - apply txok_storeFacts. intros s h' s' _ _ [= <-]. apply joined_refl.
  - intros u ws h' _ Hr s h1 s' Hs HJ Hrep. destruct (Hr s h1 s' Hs HJ Hrep) as (N & F & -> & HN & HF).
    split; try exact HN; try exact HF; try (apply rows_refl; auto with rely); try done; reflexivity.
Qed.

(** * Removal *)

Lemma Safe_Drain nodeID reason actor : Safe (Drain nodeID reason actor).
Proof.
  apply Safe_bindD; [auto with rely |]. intros n. destruct (negb _); [auto with rely |].
  apply Safe_bindD; [auto with rely |]. intros _. apply Safe_bindD; [apply Safe_cancelQueued |]. intros k. safely.
Qed.

Lemma Safe_revoke nodeID now : Safe (Transact (revokeTx nodeID now)).
Proof.
  apply Safe_Transact. intros h. apply txok_bind, txok_update. intros l c h1 _ HP _.
  apply txok_bind, txok_update. intros l2 c2 h2 _ HP2 _. apply txok_ok. intros s h' s' _ _.
  intros (s1 & (s0 & [= <-] & [-> Hin]%locked_inv)%(replay_snoc []) & [-> Hin2]%locked_inv)%replay_snoc.
  rewrite Forall_forall in HP. rewrite Forall_forall in HP2.
  destruct (promise_credentials s ((λ r, if among cr_id l r then r {{ cr_revoked_at := unixOf now }} else r) <$> fl_credentials s))
    as [_ _ PC _ _ _ _ _ _]; [| apply length_fmap |].
  { apply revoke_moved. intros r Hr Ha. specialize (HP r (Hin r Hr Ha)). by apply andb_prop in HP as [_ ?%Z.eqb_eq]. }
  destruct (promise_revoke_tokens s (among tr_id l2) (unixOf now)) as [_ PT _ _ _ _ _ _ PP].
  { intros r Hr Ha. specialize (HP2 r (Hin2 r Hr Ha)). by apply andb_prop in HP2 as [_ ?%Z.eqb_eq]. }
  split; try exact PC; try exact PT; try (apply rows_refl; auto with rely); try done.
  change (fl_credentials (setRows node_enrollment_tokens _ _ _ (setRows node_credentials cr_id l ?f s)))
    with ((λ r, if among cr_id l r then f r else r) <$> fl_credentials s).
  rewrite length_fmap. exact PP.
Qed.

Lemma Safe_Remove req : Safe (Remove req).
Proof.
  unfold Remove. destruct (negb _); [auto with rely |]. apply Safe_bindD; [auto with rely |]. intros n.
  destruct (negb _); [auto with rely |]. apply Safe_bind; [auto with rely |]. intros now.
  apply Safe_bindD; [apply Safe_revoke |]. intros _. apply Safe_bindD; [apply Safe_cancelQueued |]. intros _.
  apply Safe_bindD; [| intros; auto with rely]. destruct (_ =s _); auto with rely.
Qed.
End join.
