(* ===== verification/FleetLife.v ===== *)
(** The life of nodes, tasks and tokens under every interleaving of the fleet's
    operations and every failure, and who a credential lets in. *)
From stdpp Require Import prelude strings list gmap.
From Stdlib Require Import ZArith Lia.
From S2P Require Import Prelude GoTime Errors Threads Sql Rely Tran Text Token NodeValidate Outbound.
From S2P Require Import Cluster ClusterLock Fleet FleetTransport FleetTasks FleetEnroll FleetOps FleetJoin.

Section life.
Context `{!FleetParams}.

(** * Entry points *)

(** What administrators call. *)
Inductive admin_op : program () → Prop :=
| op_Get id : admin_op (ignore (Get id))
| op_List role : admin_op (ignore (List_ role))
| op_Transition id to reason actor : admin_op (ignore (Transition id to reason actor))
| op_Cordon id reason actor : admin_op (ignore (Cordon id reason actor))
| op_Uncordon id actor : admin_op (ignore (Uncordon id actor))
| op_SetMaintenance id on reason actor : admin_op (ignore (SetMaintenance id on reason actor))
| op_Drain id reason actor : admin_op (ignore (Drain id reason actor))
| op_Remove req : admin_op (ignore (Remove req))
| op_SetCallbackURL id url actor : admin_op (ignore (SetCallbackURL id url actor))
| op_Notify node : admin_op (ignore (Notify node))
| op_NewService actions : admin_op (ignore (NewService actions))
| op_RegisterAction spec : admin_op (ignore (RegisterAction spec))
| op_Action name : admin_op (ignore (Action name))
| op_Actions order : admin_op (ignore (Actions order))
| op_Dispatch req : admin_op (ignore (Dispatch req))
| op_CancelTask id reason actor : admin_op (ignore (CancelTask id reason actor))
| op_Task id : admin_op (ignore (Task_ id))
| op_ListTasks id state limit : admin_op (ignore (ListTasks id state limit))
| op_Issue req : admin_op (ignore (IssueEnrollmentToken req))
| op_Rekey id actor : admin_op (ignore (Rekey id actor))
| op_RevokeToken id actor : admin_op (ignore (RevokeEnrollmentToken id actor))
| op_ListTokens : admin_op (ignore ListEnrollmentTokens)
| op_RevokeCredentials id actor : admin_op (ignore (RevokeCredentials id actor))
| op_Facts id : admin_op (ignore (GetFacts id)).

(** What nodes call. *)
Inductive node_op : program () → Prop :=
| op_Enroll req : node_op (ignore (Enroll req))
| op_Authenticate secret : node_op (ignore (Authenticate secret))
| op_RecordContact id version : node_op (ignore (RecordContact id version))
| op_ReportFacts id f : node_op (ignore (ReportFacts id f))
| op_Claim id limit : node_op (ignore (Claim id limit))
| op_Report id res : node_op (ignore (Report id res))
| op_ControlPlane id : node_op (ignore (GetControlPlane id))
| op_cluster p : cluster_op p → node_op (on_cluster p).

(** What the scheduler calls. *)
Inductive scheduled_op : program () → Prop :=
| op_Sweep : scheduled_op (ignore SweepLiveness)
| op_Reap : scheduled_op (ignore ReapTasks)
| op_Expire : scheduled_op (ignore ExpireEnrollmentTokens).

Inductive fleet_op : program () → Prop :=
| by_admin p : admin_op p → fleet_op p
| by_node p : node_op p → fleet_op p
| by_scheduler p : scheduled_op p → fleet_op p.

Lemma Safe_Task taskID : Safe (Task_ taskID).
Proof. unfold Task_. safely. Qed.

Lemma Safe_GetControlPlane nodeID : Safe (GetControlPlane nodeID).
Proof. unfold GetControlPlane. safely. Qed.

#[local] Hint Resolve Safe_Drain Safe_Remove Safe_Dispatch Safe_CancelTask Safe_Task Safe_ListTasks Safe_IssueEnrollmentToken
  Safe_Rekey Safe_RevokeEnrollmentToken Safe_ListEnrollmentTokens Safe_RevokeCredentials Safe_GetFacts Safe_Enroll
  Safe_Authenticate Safe_ReportFacts Safe_Claim Safe_Report Safe_GetControlPlane Safe_ReapTasks
  Safe_ExpireEnrollmentTokens : rely.

Lemma Safe_Cordon nodeID reason actor : Safe (Cordon nodeID reason actor).
Proof. apply Safe_setFlags. Qed.

Lemma Safe_Uncordon nodeID actor : Safe (Uncordon nodeID actor).
Proof. apply Safe_setFlags. Qed.

Lemma Safe_SetMaintenance nodeID on reason actor : Safe (SetMaintenance nodeID on reason actor).
Proof. apply Safe_setFlags. Qed.

Lemma Safe_Action name : Safe (Action name).
Proof. apply Safe_peek. Qed.

Lemma Safe_Actions order : Safe (Actions order).
Proof. apply Safe_peek. Qed.

#[local] Hint Resolve Safe_Cordon Safe_Uncordon Safe_SetMaintenance Safe_Action Safe_Actions : rely.

Lemma Safe_fleet_op p : fleet_op p → Safe p.
Proof.
  destruct 1 as [p [] | p [] | p []]; try (apply Safe_ignore; solve [auto with rely]).
  by apply Safe_on_cluster, Safe_cluster_op.
Qed.

Lemma fleet_kept s0 (c : sys Fleet Env) : calm s0 → reachable fleet_op s0 c → J (seen c).
Proof. intros H0. apply reachable_kept; [apply calm_step | done |]. intros p Hp. by apply Safe_fleet_op. Qed.

Lemma fleet_later s0 (c : sys Fleet Env) s s' : calm s0 → reachable fleet_op s0 c → later c s s' → rtc promise s s'.
Proof.
  intros H0 Hr (i & j & Hi & Hj & Hle). destruct (fleet_kept s0 c H0 Hr) as [_ Hc]. by eapply chain_rtc.
Qed.

(** The history ends in the state at the start. *)
Lemma seen_start {St} (ops : prog St Env () → Prop) s0 (c : sys St Env) : reachable ops s0 c → ∃ l, seen c = l ++ [s0].
Proof.
  unfold reachable. remember (Sys s0 [] []) as c0. intros Hr.
  assert (∃ l, seen c0 = l ++ [s0]) as Hl by (subst; by exists []). clear Heqc0.
  induction Hr as [| c1 c2 c3 Hs _ IH]; [done |]. apply IH. destruct Hl as [l El].
  destruct Hs; unfold seen in *; cbn in *; [by exists l | | by exists l]. exists (s' :: l). cbn. by rewrite <-El.
Qed.

Lemma fleet_start s0 (c : sys Fleet Env) s : calm s0 → reachable fleet_op s0 c → s ∈ seen c → rtc promise s0 s.
Proof.
  intros H0 Hr (i & Hi)%list_elem_of_lookup_1. destruct (seen_start _ _ _ Hr) as [l El].
  apply (fleet_later s0 c s0 s); [done | done |]. exists i, (length l).
  split; [done |]. rewrite El in Hi |- *. split; [by apply list_lookup_middle |].
  apply lookup_lt_Some in Hi. rewrite length_app in Hi. cbn in Hi. lia.
Qed.

(** * Nodes *)

Definition edge (from to : string) : Prop := CanTransition from to = true.

Definition same_node (r r' : NodeRow) : Prop :=
  nr_id r' = nr_id r ∧ nr_role r' = nr_role r ∧ nr_created_at r' = nr_created_at r.

(** [r'] is [r] after [n] writes. *)
Definition node_after (n : nat) (r r' : NodeRow) : Prop :=
  same_node r r' ∧ nr_version r' = nr_version r + Z.of_nat n ∧ (n = 0%nat → r' = r) ∧
  nsteps (λ a b, a = b ∨ edge a b) n (nr_state r) (nr_state r').

Lemma node_written r r' : rtc node_moved r r' → ∃ n, node_after n r r'.
Proof.
  induction 1 as [r | r r1 r2 Hm _ (n & Hs & Hv & H0 & Hn)].
  { exists 0%nat. split; [done |]. split; [lia |]. split; [done | constructor]. }
  destruct Hm as [-> | (E1 & E2 & E3 & E4 & E5)]; [by exists n |].
  exists (S n). split; [unfold same_node in *; naive_solver congruence |]. split; [lia |]. split; [done |].
  econstructor; [| exact Hn]. destruct E5 as [E5 | E5]; [by left | by right].
Qed.

Lemma removed_stays n a b : nsteps (λ a b, a = b ∨ edge a b) n a b → a = StateRemoved → b = StateRemoved.
Proof. induction 1 as [| n a b c [<- | He] _ IH]; [done | done |]. intros ->. by cbv in He. Qed.

Lemma nodes_later s0 (c : sys Fleet Env) s s' : calm s0 → reachable fleet_op s0 c → later c s s' →
  evolves (rtc node_moved) (λ r', ∃ r, node_born r ∧ rtc node_moved r r') (fl_nodes s) (fl_nodes s').
Proof.
  intros H0 Hr Hl. eapply evolves_rtc; [| by eapply fleet_later]. intros s1 s2 [[? _]]. done.
Qed.

(** C13: Whatever administrators, nodes and the scheduler do at the same time, and
    whichever statements fail: a node keeps its identifier, its role (so a managed
    node never becomes a cluster node) and its creation time; every write raises
    its version by one and moves its state along an edge of the lifecycle or not at
    all; at an unchanged version it is unchanged; a removed node stays removed; and
    a node that appears starts enrolled, at version 1, with one of the two roles. *)
Theorem node_lifecycle s0 (c : sys Fleet Env) s s' i r' :
  calm s0 → reachable fleet_op s0 c → later c s s' → fl_nodes s' !! i = Some r' →
  (∃ n r, (fl_nodes s !! i = Some r ∨ fl_nodes s !! i = None ∧ node_born r) ∧ node_after n r r' ∧
     (nr_state r = StateRemoved → nr_state r' = StateRemoved)) ∧
  (∀ r, fl_nodes s !! i = Some r → ∃ n, node_after n r r').
Proof.
  intros H0 Hr Hl Hi. destruct (nodes_later s0 c s s' H0 Hr Hl) as [E1 E2].
  destruct (fl_nodes s !! i) as [r |] eqn:Es.
  - destruct (E1 i r Es) as (r2 & Hi2 & Hm). assert (r2 = r') as -> by congruence.
    destruct (node_written _ _ Hm) as (n & Hn). split; [| intros ? [= <-]; eauto].
    exists n, r. split; [by left |]. split; [done |]. destruct Hn as (_ & _ & _ & Hn). by eapply removed_stays.
  - apply lookup_ge_None in Es as Hge. destruct (E2 i r' Hge Hi) as (r & Hb & Hm).
    destruct (node_written _ _ Hm) as (n & Hn). split; [| done].
    exists n, r. split; [by right |]. split; [done |]. destruct Hn as (_ & _ & _ & Hn). by eapply removed_stays.
Qed.

(** * Tasks *)

Definition same_task (r r' : TaskRow) : Prop :=
  kr_id r' = kr_id r ∧ kr_node_id r' = kr_node_id r ∧ kr_action r' = kr_action r ∧
  kr_payload r' = kr_payload r ∧ kr_max_attempts r' = kr_max_attempts r ∧
  kr_created_by r' = kr_created_by r ∧ kr_created_at r' = kr_created_at r.

Lemma task_written r r' : rtc task_moved r r' →
  same_task r r' ∧ kr_version r ≤ kr_version r' ∧ kr_attempts r ≤ kr_attempts r' ∧
  (kr_version r' = kr_version r → r' = r) ∧ (finished (kr_state r) = true → r' = r).
Proof.
  induction 1 as [r | r r1 r2 Hm Hrest (Hs & Hv & Ha & H0 & Hf)]; [repeat split; lia || done |].
  destruct Hm as [-> | (E1 & E2 & E3 & E4 & E5 & E6 & E7 & E8 & E9 & E10 & E11)]; [done |].
  split; [unfold same_task in *; naive_solver congruence |]. split; [lia |]. split; [lia |].
  split; [intros E; lia | congruence].
Qed.

Lemma tasks_later s0 (c : sys Fleet Env) s s' : calm s0 → reachable fleet_op s0 c → later c s s' →
  evolves (rtc task_moved) (λ r', ∃ r, task_born r ∧ rtc task_moved r r') (fl_tasks s) (fl_tasks s').
Proof.
  intros H0 Hr Hl. eapply evolves_rtc; [| by eapply fleet_later]. by intros s1 s2 [_ _ _ [? _]].
Qed.

(** C15: Whatever happens at the same time and whichever statements fail: a task keeps
    its node, action, payload and budget; it is attempted at most [max_attempts]
    times, which is at most ten; it is in the queue only while an attempt is left;
    and once it has succeeded, failed or been cancelled its row never changes
    again. *)
Theorem task_lifecycle s0 (c : sys Fleet Env) s s' i r :
  calm s0 → reachable fleet_op s0 c → later c s s' → fl_tasks s !! i = Some r →
  ∃ r', fl_tasks s' !! i = Some r' ∧ same_task r r' ∧
    kr_attempts r ≤ kr_attempts r' ≤ kr_max_attempts r ∧ kr_max_attempts r ≤ MaxTaskAttempts ∧
    (kr_state r' = TaskQueued → kr_attempts r' < kr_max_attempts r') ∧
    (finished (kr_state r) = true → r' = r).
Proof.
  intros H0 Hr Hl Hi. pose proof Hl as (a & b & Ha & _).
  assert (calm s') as Hc'.
  { destruct (fleet_kept s0 c H0 Hr) as [HF _]. by eapply Forall_lookup_1 in HF. }
  destruct (tasks_later s0 c s s' H0 Hr Hl) as [E1 _].
  destruct (E1 i r Hi) as (r' & Hi' & Hm). apply task_written in Hm as (Hs & Hv & Hat & _ & Hf).
  destruct Hc' as (_ & _ & _ & _ & _ & Hg & _). pose proof (Forall_lookup_1 _ _ _ _ Hg Hi') as (G1 & G2 & G3).
  pose proof Hs as (_ & _ & _ & _ & Em & _). exists r'. rewrite <-Em. split_and!; try done; lia.
Qed.

(** * Tokens and credentials *)

Lemma paid_rtc s s' : rtc promise s s' →
  Z.of_nat (length (fl_credentials s')) - total_uses s' = Z.of_nat (length (fl_credentials s)) - total_uses s.
Proof. induction 1 as [| s1 s2 s3 [] _ IH]; [done | lia]. Qed.

(** C14: No credential without a use of an enrollment token, and no token used more
    often than it allows: at every moment there are as many credentials as uses,
    each token has been used at most [max_uses] times, which is at most 64; and a
    token that was revoked is never used again. *)
Theorem enrollment_paid s0 (c : sys Fleet Env) s :
  calm s0 → Z.of_nat (length (fl_credentials s0)) = total_uses s0 → reachable fleet_op s0 c → s ∈ seen c →
  Z.of_nat (length (fl_credentials s)) = total_uses s ∧
  Forall (λ r, 0 ≤ tr_uses r ≤ tr_max_uses r ∧ tr_max_uses r ≤ MaxEnrollmentUses) (fl_tokens s) ∧
  ∀ s' i r, later c s s' → fl_tokens s !! i = Some r → tr_revoked_at r ≠ 0 → fl_tokens s' !! i = Some r.
Proof.
  intros H0 Hp Hr Hs. destruct (fleet_kept s0 c H0 Hr) as [HF Hc]. split_and!.
  - assert (rtc promise s0 s) as Hrtc by by eapply fleet_start.
    apply paid_rtc in Hrtc. lia.
  - rewrite Forall_forall in HF. by destruct (HF s Hs) as (_ & _ & _ & _ & _ & _ & Hg & _).
  - intros s' i r Hl Hi Hrev. pose proof (fleet_later s0 c s s' H0 Hr Hl) as Hrtc. clear Hl Hs. revert Hi.
    induction Hrtc as [| s1 s2 s3 [_ [[E1 _] _]] _ IH]; [done |]. intros Hi. apply IH.
    destruct (E1 i r Hi) as (r' & Hi' & [-> | (_ & _ & _ & _ & _ & _ & Hz & _)]); [done | congruence].
Qed.
End life.

(** * Runs *)

#[local] Existing Instance plainFleet.

(** An operation from its start to its end, undisturbed. *)
Definition undisturbed {A} (p : program A) (t : Z) (random : string) : list (@Move Fleet Env) :=
  Begin (ignore p) :: repeat (Go 0 (at_second t random)) 100.

(** The tokens that the randomness ["A"] and ["B"] give. *)
Definition invitation : string := "adm_agt_daaaaaaaaaaaaaaaaaaaaaaaaaaaaaaa".
Definition admission : string := "adm_agt_eaaaaaaaaaaaaaaaaaaaaaaaaaaaaaaa".

Definition web1 : NodeRow := mkNodeRow "web1" "web1" RoleManaged StateEnrolled "enrolled" "" "" "" 0 0 20 20 20 20 20 1.

Definition web1_enrolls : D Enrollment :=
  Enroll (mkEnrollRequest invitation "web1" "" "" "" (mkFacts "linux" "amd64" "6.1" "" 8 1024 0 [])).

Definition web1_rejoins : D Enrollment :=
  Enroll (mkEnrollRequest "adm_agt_faaaaaaaaaaaaaaaaaaaaaaaaaaaaaaa" "" "" "" ""
    (mkFacts "linux" "amd64" "6.1" "" 8 1024 0 [])).

Definition web1_identity : Identity := mkIdentity (scanNodeRow web1) "B".

Definition ping : D Task := Dispatch (mkDispatchRequest "web1" "agent.ping" "" 0 3 "ada" false).

Definition joining : list (@Move Fleet Env) :=
  undisturbed (NewService []) 10 "" ++
  undisturbed (IssueEnrollmentToken (mkEnrollmentRequest RoleManaged "" 1 0 "ada")) 11 "A" ++
  undisturbed web1_enrolls 20 "B".

Definition working : list (@Move Fleet Env) :=
  joining ++ undisturbed ping 30 "t1" ++ undisturbed (Claim web1_identity 5) 40 "" ++
  undisturbed (Report web1_identity (mkTaskResult "t1" true 0 "pong" "")) 50 "" ++
  undisturbed (Remove (mkRemoveRequest "web1" true "" "ada")) 60 "".

(** The run of a list of moves from an empty fleet. *)
Definition run_of (moves : list (@Move Fleet Env)) : sys Fleet Env := foldl play (Sys noFleet [] []) moves.

Lemma begins_undisturbed {A} (p : program A) t random q : Begin q ∈ undisturbed p t random → q = ignore p.
Proof.
  intros [[= ->] | H]%elem_of_cons; [done |]. by apply list_elem_of_In, repeat_spec in H.
Qed.

Lemma begins_goes q i e n : ¬ Begin q ∈ repeat (@Go Fleet Env i e) n.
Proof. intros H%list_elem_of_In. by apply repeat_spec in H. Qed.

Lemma begins_cons p q (l : list (@Move Fleet Env)) : Begin q ∈ Begin p :: l → q = p ∨ Begin q ∈ l.
Proof. intros [[= ->] | H]%elem_of_cons; auto. Qed.

Ltac entry :=
  unfold web1_enrolls, web1_rejoins, ping;
  lazymatch goal with
  | |- fleet_op (ignore (NewService _)) => apply by_admin, op_NewService
  | |- fleet_op (ignore (IssueEnrollmentToken _)) => apply by_admin, op_Issue
  | |- fleet_op (ignore (Rekey _ _)) => apply by_admin, op_Rekey
  | |- fleet_op (ignore (Drain _ _ _)) => apply by_admin, op_Drain
  | |- fleet_op (ignore (Uncordon _ _)) => apply by_admin, op_Uncordon
  | |- fleet_op (ignore (Remove _)) => apply by_admin, op_Remove
  | |- fleet_op (ignore (Dispatch _)) => apply by_admin, op_Dispatch
  | |- fleet_op (ignore (Enroll _)) => apply by_node, op_Enroll
  | |- fleet_op (ignore (Claim _ _)) => apply by_node, op_Claim
  | |- fleet_op (ignore (Report _ _)) => apply by_node, op_Report
  | |- fleet_op (ignore (Authenticate _)) => apply by_node, op_Authenticate
  end.

(** Every operation that begins is one of the fleet's. *)
Ltac all_ops :=
  apply play_reachable; [| constructor]; intros q Hq; unfold working, joining in Hq;
  repeat match type of Hq with
  | _ ∈ _ ++ _ => apply elem_of_app in Hq as [Hq | Hq]
  | _ ∈ undisturbed _ _ _ => apply begins_undisturbed in Hq as ->
  | _ ∈ repeat _ _ => by apply begins_goes in Hq
  | _ ∈ _ :: _ => apply begins_cons in Hq as [-> | Hq]
  end; entry.

Lemma working_reachable : reachable fleet_op noFleet (run_of working).
Proof. all_ops. Qed.

Lemma noFleet_calm : calm noFleet.
Proof. by apply (bool_decide_unpack _); vm_compute. Qed.

(** From enrollment to removal. *)
Lemma node_lifecycle_witness : ∃ r r',
  fl_nodes (now_at (run_of joining)) !! 0%nat = Some r ∧ fl_nodes (now_at (run_of working)) !! 0%nat = Some r' ∧
  nr_state r = StateEnrolled ∧ nr_state r' = StateRemoved ∧ ∃ n, node_after n r r'.
Proof.
  exists web1, (web1 {{ nr_state := StateRemoved; nr_state_reason := ""; nr_state_changed_at := 60; nr_updated_at := 60; nr_version := 2 }}).
  split; [vm_compute; reflexivity |]. split; [vm_compute; reflexivity |]. split; [reflexivity |]. split; [reflexivity |].
  apply (node_lifecycle noFleet (run_of working) (now_at (run_of joining)) (now_at (run_of working)) 0).
  - apply noFleet_calm.
  - apply working_reachable.
  - exists 0%nat, 30%nat. vm_compute. split; [reflexivity |]. split; [reflexivity | lia].
  - vm_compute. reflexivity.
  - vm_compute. reflexivity.
Defined.

Definition dispatched : sys Fleet Env := run_of (joining ++ undisturbed ping 30 "t1").

(** From the queue to the result. *)
Lemma task_lifecycle_witness : ∃ r r',
  fl_tasks (now_at dispatched) !! 0%nat = Some r ∧ kr_state r = TaskQueued ∧
  fl_tasks (now_at (run_of working)) !! 0%nat = Some r' ∧ kr_state r' = TaskSucceeded ∧ same_task r r'.
Proof.
  eexists. destruct (task_lifecycle noFleet (run_of working) (now_at dispatched) (now_at (run_of working)) 0
    (mkTaskRow "t1" "web1" "agent.ping" "{}" TaskQueued 0 3 30 "ada" 30 30 0 0 0 0 "" "" 1)) as (r' & Hr' & Hs & _).
  - apply noFleet_calm.
  - apply working_reachable.
  - exists 0%nat, 24%nat. vm_compute. split; [reflexivity |]. split; [reflexivity | lia].
  - vm_compute. reflexivity.
  - exists r'. split; [vm_compute; reflexivity |]. split; [reflexivity |]. split; [exact Hr' |]. split; [| exact Hs].
    vm_compute in Hr'. injection Hr' as <-. reflexivity.
Defined.

(** One token, one use, one credential. *)
Lemma enrollment_paid_witness :
  length (fl_credentials (now_at (run_of working))) = 1%nat ∧ total_uses (now_at (run_of working)) = 1 ∧
  Z.of_nat (length (fl_credentials (now_at (run_of working)))) = total_uses (now_at (run_of working)).
Proof.
  split; [vm_compute; reflexivity |]. split; [vm_compute; reflexivity |].
  apply (enrollment_paid noFleet (run_of working)).
  - apply noFleet_calm.
  - reflexivity.
  - apply working_reachable.
  - left.
Defined.

(** ** Races *)

(** A task is dispatched while its node is drained: the node is read before the
    drain and the task stored after it, so a drained node has queued work. *)
Definition drain_race : list (@Move Fleet Env) :=
  joining ++ Begin (ignore ping) :: repeat (Go 0 (at_second 30 "t1")) 3 ++
  undisturbed (Drain "web1" "" "ada") 30 "" ++ repeat (Go 1 (at_second 30 "t1")) 100.

Example drained_with_work : reachable fleet_op noFleet (run_of drain_race) ∧
  nr_state <$> fl_nodes (now_at (run_of drain_race)) = [StateDrained] ∧
  kr_state <$> fl_tasks (now_at (run_of drain_race)) = [TaskQueued].
Proof. split; [unfold drain_race; all_ops |]. vm_compute. by split. Qed.

(** A drained node rejoins while its flags are changed: the update of its row
    matches no row, which nobody looks at, so it has a new credential, is audited as
    rejoined and stays drained. *)
Definition rejoin_race : list (@Move Fleet Env) :=
  joining ++ undisturbed (Drain "web1" "" "ada") 30 "" ++ undisturbed (Rekey "web1" "ada") 31 "C" ++
  Begin (ignore web1_rejoins) :: repeat (Go 0 (at_second 40 "D")) 4 ++
  undisturbed (Uncordon "web1" "ada") 40 "" ++ repeat (Go 1 (at_second 40 "D")) 100.

Example rejoin_lost : reachable fleet_op noFleet (run_of rejoin_race) ∧
  nr_state <$> fl_nodes (now_at (run_of rejoin_race)) = [StateDrained] ∧
  length (fl_credentials (now_at (run_of rejoin_race))) = 2%nat ∧
  last (ev_event <$> fl_audit (now_at (run_of rejoin_race))) = Some "nodes.rejoined".
Proof. split; [unfold rejoin_race; all_ops |]. vm_compute. by split. Qed.

(** Who a credential lets in. *)

Section auth.
Context `{!FleetParams}.

(** At some moment after [h], with [past] behind it. *)
Definition during (h h' : hist) (s : Fleet) (past : hist) : Prop :=
  h `suffix_of` s :: past ∧ s :: past `suffix_of` h'.

Lemma during_seen h h' s past : during h h' s past → s ∈ h'.
Proof. intros [_ [l ->]]. apply elem_of_app. right. left. Qed.

(** What a successful call has seen. *)
Definition let_in (secret : string) (h : hist) (id : Identity) (h' : hist) : Prop :=
  ∃ prefix body s1 past1 i c s2 past2 j r,
    ParseToken secret = Ok (prefix, body) ∧
    during h h' s1 past1 ∧ fl_credentials s1 !! i = Some c ∧
    cr_token_hash c = HashToken secret ∧ cr_revoked_at c = 0 ∧ cr_id c = id_CredentialID id ∧
    during h h' s2 past2 ∧ fl_nodes s2 !! j = Some r ∧
    nr_id r = cr_node_id c ∧ scanNodeRow r = id_Node id ∧ nr_state r ≠ StateRemoved ∧
    TokenPrefixFor (nr_role r) = prefix.

Lemma wp_Authenticate secret h : wpF (Authenticate secret) h (answers (let_in secret h)).
Proof.
  unfold Authenticate. destruct (ParseToken secret) as [[prefix body] | e] eqn:Ep; [| done].
  destruct (_ && _); [done |]. cbn zeta. apply wp_bind, wp_peek. intros e0 s0 h0 Hs0 _.
  apply wp_bind, wp_oneRow; [| done]. intros s1 h1 c Hs1 _ Hc.
  apply list_elem_of_In, filter_In in Hc as [Hc%list_elem_of_In Eh%seqb_eq].
  destruct (negb (ConstantTimeEqualString _ _)); [done |].
  destruct (cr_revoked_at c =? 0) eqn:Er; [cbn [negb] | done]. destruct (negb _ && _); [done |].
  apply wp_bind, wp_Get_row; [| done]. intros s2 h2 r Hs2 Hr Ei.
  destruct (n_State (scanNodeRow r) =s StateRemoved) eqn:Est; [done |].
  destruct (prefix =s TokenPrefixFor (n_Role (scanNodeRow r))) eqn:Epre; [cbn [negb] | done].
  apply wp_bind. eapply wp_mono.
  { apply Safe_internally, Safe_exec. intros s. apply promise_credentials; [| apply length_fmap].
    apply rows_update; [auto with rely |]. intros r1 _ _. split; [| done]. unfold credential_moved. cbn. auto 8. }
  intros [a | e] h3 Hs3 _; [| done]. apply list_elem_of_lookup_1 in Hc as [i Hi].
  apply list_elem_of_lookup_1 in Hr as [j Hj]. cbn [answers].
  assert (h `suffix_of` s1 :: h1) as H1 by (trans (s0 :: s0 :: h0); [by apply suffix_cons_r | done]).
  assert (s1 :: h1 `suffix_of` s2 :: h2) as H12 by (trans (s1 :: s1 :: h1); [by apply suffix_cons_r | done]).
  assert (s2 :: h2 `suffix_of` h3) as H2 by (trans (s2 :: s2 :: h2); [by apply suffix_cons_r | done]).
  exists prefix, body, s1, h1, i, c, s2, h2, j, r. unfold during.
  split_and!; try done; [by trans (s2 :: h2) | lia | by trans (s1 :: h1) | by apply seqb_neq | by apply seqb_eq in Epre].
Qed.

(** ** What was so before *)

Lemma credential_not_revoked (c c' : CredentialRow) :
  rtc credential_moved c c' → cr_revoked_at c' = 0 → cr_revoked_at c = 0.
Proof. induction 1 as [| c c1 c2 (_ & _ & _ & _ & _ & [E | E]) _ IH]; [done | | done]. intros H0. rewrite <-E. auto. Qed.

Lemma past_later (c : sys Fleet Env) s past s0 : s :: past `suffix_of` seen c → s0 ∈ s :: past → later c s0 s.
Proof.
  intros [l El] (k & Hk)%list_elem_of_lookup_1. exists (length l), (length l + k)%nat. rewrite El.
  split; [by apply list_lookup_middle |]. split; [| lia]. by rewrite lookup_app_r, Nat.add_comm, Nat.add_sub by lia.
Qed.

Lemma credentials_later s0 (c : sys Fleet Env) s s' : calm s0 → reachable fleet_op s0 c → later c s s' →
  evolves (rtc credential_moved) (λ r', ∃ r, cr_revoked_at r = 0 ∧ rtc credential_moved r r') (fl_credentials s) (fl_credentials s').
Proof.
  intros H0 Hr Hl. eapply (evolves_rtc promise fl_credentials); [| by eapply fleet_later]. by intros s1 s2 [_ _ [? _]].
Qed.

(** C12: When a secret is accepted, during the call there was a credential with its hash
    and a registered node it belongs to, whose role is the one the prefix of the
    secret names; at no moment before had that credential been revoked or that node
    been removed.  So revoking a credential or removing a node is final, whatever
    runs at the same time. *)
Theorem Authenticate_live s0 (c : sys Fleet Env) secret h l id :
  calm s0 → reachable fleet_op s0 c → own_steps (Authenticate secret) h l (Ok id) (seen c) →
  ∃ prefix body s1 past1 i cred s2 past2 j r,
    ParseToken secret = Ok (prefix, body) ∧
    during h (seen c) s1 past1 ∧ fl_credentials s1 !! i = Some cred ∧
    cr_token_hash cred = HashToken secret ∧ cr_id cred = id_CredentialID id ∧
    during h (seen c) s2 past2 ∧ fl_nodes s2 !! j = Some r ∧
    nr_id r = cr_node_id cred ∧ scanNodeRow r = id_Node id ∧ TokenPrefixFor (nr_role r) = prefix ∧
    (∀ s' cred', s' ∈ s1 :: past1 → fl_credentials s' !! i = Some cred' → cr_revoked_at cred' = 0) ∧
    (∀ s' r', s' ∈ s2 :: past2 → fl_nodes s' !! j = Some r' → nr_state r' ≠ StateRemoved).
Proof.
  intros H0 Hr Ho. pose proof (fleet_kept s0 c H0 Hr) as HJ.
  destruct (wp_own_steps J promise _ _ _ _ _ _ (kept_suffix calm promise) (wp_Authenticate secret h) Ho HJ) as [_ Hq].
  destruct Hq as (prefix & body & s1 & p1 & i & cred & s2 & p2 & j & r & Ep & D1 & Hi & Eh & Er & Ec & D2 & Hj & En & Eid & Est & Epre).
  exists prefix, body, s1, p1, i, cred, s2, p2, j, r. split_and!; try done.
  - intros s' c' Hs' Hc'. destruct (credentials_later s0 c s' s1 H0 Hr) as [E _]; [by eapply past_later; [apply D1 |] |].
    destruct (E i c' Hc') as (c2 & Hi2 & Hm). eapply credential_not_revoked; [exact Hm | congruence].
  - intros s' r' Hs' Hr' Erem. destruct (nodes_later s0 c s' s2 H0 Hr) as [E _]; [by eapply past_later; [apply D2 |] |].
    destruct (E j r' Hr') as (r2 & Hj2 & Hm). apply node_written in Hm as (n & _ & _ & _ & Hn).
    apply Est. assert (r2 = r) as <- by congruence. by eapply removed_stays.
Qed.
End auth.

(** * A run *)

#[local] Existing Instance plainFleet.

(** A fleet of one node. *)
Definition oneNode : Fleet :=
  noFleet {{ fl_nodes := [web1]; fl_credentials := [mkCredentialRow "B" "web1" ("sha:" +:+ admission) "adm_agt_" 20 0 0 0] }}.

Definition asking : sys Fleet Env := foldl play (Sys oneNode [] []) (undisturbed (Authenticate admission) 30 "").

Lemma Authenticate_live_witness : ∃ s i cred,
  s ∈ seen asking ∧ fl_credentials s !! i = Some cred ∧ cr_token_hash cred = HashToken admission ∧ cr_node_id cred = "web1".
Proof.
  set (run := own_run (λ _, at_second 30 "") (Authenticate admission) 0 oneNode []).
  destruct (Authenticate_live oneNode asking admission [oneNode] run.1.1 web1_identity)
    as (_ & _ & s1 & p1 & i & cred & s2 & p2 & j & r & _ & D1 & Hi & Eh & _ & _ & _ & En & Eid & _).
  - by apply (bool_decide_unpack _); vm_compute.
  - all_ops.
  - assert (run.1.2 = Ok web1_identity) as <- by (vm_compute; reflexivity).
    assert (run.2 = seen asking) as <- by (vm_compute; reflexivity). apply own_run_steps.
  - exists s1, i, cred. split; [apply (during_seen _ _ _ _ D1) |]. split; [exact Hi |]. split; [exact Eh |].
    rewrite <-En. apply (f_equal n_ID) in Eid. exact Eid.
Defined.
