(* ===== verification/Guard.v ===== *)
(** Denials, allowlists and authorization: [src/src/guard/guard.go],
    [identifier.go] and [authz.go].

    A denial is its reason with the code the reason maps to; the log-only detail is
    left out.  A check answers [Ok] or a denial. *)
From stdpp Require Import prelude strings list.
From Stdlib Require Import ZArith Lia Ascii.
From S2P Require Import Prelude Errors Text Outbound Token.

(** * Codes of package errors *)

Definition CodeAccountLocked : string := "ACCOUNT_LOCKED".
Definition CodePayloadTooLarge : string := "PAYLOAD_TOO_LARGE".
Definition CodeRateLimited : string := "RATE_LIMITED".

(** * guard.go *)

Definition ReasonSubjectInvalid : string := "subject_invalid".
Definition ReasonSubjectInactive : string := "subject_inactive".
Definition ReasonRoleUnknown : string := "role_unknown".
Definition ReasonActionUnknown : string := "action_unknown".
Definition ReasonResourceInvalid : string := "resource_invalid".
Definition ReasonCrossTenant : string := "cross_tenant".
Definition ReasonNoGrant : string := "no_grant".
Definition ReasonPlatformControlled : string := "platform_controlled".
Definition ReasonPrimaryAdminImmutable : string := "primary_admin_immutable".
Definition ReasonPeerAdminCredential : string := "peer_admin_credential".
Definition ReasonQuotaExceeded : string := "quota_exceeded".
Definition ReasonRateLimited : string := "rate_limited".
Definition ReasonLockedOut : string := "locked_out".
Definition ReasonWorkloadUnsafe : string := "workload_unsafe".
Definition ReasonInvalidInput : string := "invalid_input".
Definition ReasonOutboundBlocked : string := "outbound_blocked".
Definition ReasonBodyTooLarge : string := "body_too_large".
Definition ReasonUnsupportedMediaType : string := "unsupported_media_type".
Definition ReasonHostNotAllowed : string := "host_not_allowed".
Definition ReasonSignatureInvalid : string := "signature_invalid".
Definition ReasonReplay : string := "replay".

Definition reasonCodes : list (string * string) :=
  [(ReasonSubjectInvalid, CodeUnauthorized); (ReasonSubjectInactive, CodeAccountLocked);
   (ReasonRoleUnknown, CodeForbidden); (ReasonActionUnknown, CodeForbidden);
   (ReasonResourceInvalid, CodeForbidden); (ReasonCrossTenant, CodeNotFound);
   (ReasonNoGrant, CodeForbidden); (ReasonPlatformControlled, CodeForbidden);
   (ReasonPrimaryAdminImmutable, CodeForbidden); (ReasonPeerAdminCredential, CodeForbidden);
   (ReasonQuotaExceeded, CodeQuotaExceeded); (ReasonRateLimited, CodeRateLimited);
   (ReasonLockedOut, CodeAccountLocked); (ReasonWorkloadUnsafe, CodeValidation);
   (ReasonInvalidInput, CodeValidation); (ReasonOutboundBlocked, CodeForbidden);
   (ReasonBodyTooLarge, CodePayloadTooLarge); (ReasonUnsupportedMediaType, CodeBadRequest);
   (ReasonHostNotAllowed, CodeBadRequest); (ReasonSignatureInvalid, CodeUnauthorized);
   (ReasonReplay, CodeConflict)].

Definition CodeForReason (reason : string) : string := default CodeForbidden (assoc reason reasonCodes).

Record DenyError := mkDenyError { de_Reason : string; de_Code : string }.

Definition Deny (reason : string) : DenyError := mkDenyError reason (CodeForReason reason).

Notation Checked A := (Result DenyError A).

Definition deny {A} (reason : string) : Checked A := Err (Deny reason).

(** The line for the log. *)
Definition DenyError_Error (e : DenyError) : string := "guard: denied (" +:+ de_Reason e +:+ ")".

Definition AppError (e : DenyError) : error :=
  Wrap (Plain (DenyError_Error e)) (de_Code e) 0 (DefaultMessage (de_Code e)).

(** * identifier.go *)

Definition MaxIdentifierLen : Z := 64.
Definition MaxUsernameLen : Z := 32.
Definition MinUsernameLen : Z := 3.
Definition MaxHostnameLen : Z := 253.
Definition MaxLabelLen : Z := 63.
Definition MaxFilenameLen : Z := 255.
Definition MaxSQLIdentifierLen : Z := 63.
Definition MaxEnvNameLen : Z := 128.
Definition MaxEnvValueLen : Z := 32768.
Definition MaxExecArgLen : Z := 4096.
Definition MaxImageRefLen : Z := 512.

(** The bytes of [shellMeta]: backquote to backslash, then line feed, carriage
    return, tab, space and hash. *)
Definition shellMeta : list Z :=
  [96; 36; 38; 59; 124; 60; 62; 40; 41; 91; 93; 123; 125; 33; 42; 63; 126; 34; 39; 92; 10; 13; 9; 32; 35].

Definition deniedEnvNames : list string :=
  ["BASH_ENV"; "BASH_FUNC_"; "CDPATH"; "DYLD_INSERT_LIBRARIES"; "ENV"; "GCONV_PATH"; "GLIBC_TUNABLES";
   "IFS"; "LD_AUDIT"; "LD_LIBRARY_PATH"; "LD_PRELOAD"; "NODE_OPTIONS"; "PATH"; "PERL5LIB"; "PERL5OPT";
   "PYTHONPATH"; "PYTHONSTARTUP"; "SHELL"; "SHELLOPTS"; "ZDOTDIR"].

Definition reservedFilenames : list string :=
  ["."; ".."; "aux"; "com1"; "con"; "lpt1"; "nul"; "prn"].

Definition reservedDomainSuffixes : list string :=
  [".alt"; ".b32.i2p"; ".example"; ".i2p"; ".internal"; ".invalid"; ".local"; ".localhost"; ".onion"; ".test"].

(** ** Strings *)

Definition member (v : string) (l : list string) : bool := existsb (String.eqb v) l.

Fixpoint every (p : Z → bool) (s : string) : bool :=
  match s with EmptyString => true | String c s => p (byte c) && every p s end.

(** [strings.ContainsAny] and [strings.ContainsRune] on bytes. *)
Definition containsByte (p : Z → bool) (s : string) : bool := negb (every (λ b, negb (p b)) s).

Definition first_byte (s : string) : Z := match s with EmptyString => -1 | String c _ => byte c end.

Fixpoint last_byte (s : string) : Z :=
  match s with
  | EmptyString => -1
  | String c EmptyString => byte c
  | String _ s => last_byte s
  end.

Definition TrimSuffix (s suffix : string) : string :=
  if HasSuffix s suffix then String.substring 0 (String.length s - String.length suffix) s else s.

Definition TrimPrefix (s prefix : string) : string :=
  if HasPrefix s prefix
  then String.substring (String.length prefix) (String.length s - String.length prefix) s else s.

(** ** Bytes *)

Definition isASCIIPrintable (s : string) : bool := every (λ b, between 32 b 126) s.

Definition hasShellMeta (s : string) : bool := containsByte (λ b, existsb (Z.eqb b) shellMeta) s.

Definition isLowerAlnum (b : Z) : bool := between 97 b 122 || between 48 b 57.

Definition isAlnum (b : Z) : bool := between 97 b 122 || between 65 b 90 || between 48 b 57.

Definition invalid {A} : Checked A := deny ReasonInvalidInput.

Definition checkCommon (value : string) (maxLen : Z) : Checked () :=
  if value =s "" then invalid else
  if maxLen <? slen value then invalid else
  if containsByte (Z.eqb 0) value then invalid else
  if negb (isASCIIPrintable value) then invalid else Ok ().

(** ** Validators *)

Definition id_separator (b : Z) : bool := (b =? 45) || (b =? 95).

(** The loop of [ValidateIdentifier]; [prev] is the byte before. *)
Fixpoint identifierLoop (prev : Z) (s : string) : Checked () :=
  match s with
  | EmptyString => Ok ()
  | String c s =>
      if isLowerAlnum (byte c) then identifierLoop (byte c) s else
      if negb (id_separator (byte c)) then invalid else
      if id_separator prev then invalid else identifierLoop (byte c) s
  end.

Definition ValidateIdentifier (value : string) : Checked () :=
  try _ := checkCommon value MaxIdentifierLen in
  if negb (isLowerAlnum (first_byte value)) || negb (isLowerAlnum (last_byte value)) then invalid else
  identifierLoop (-1) value.

Definition ValidateUsername (value : string) : Checked () :=
  try _ := checkCommon value MaxUsernameLen in
  if slen value <? MinUsernameLen then invalid else ValidateIdentifier value.

Definition checkLabel (label : string) : Checked () :=
  if label =s "" then invalid else
  if MaxLabelLen <? slen label then invalid else
  if (first_byte label =? 45) || (last_byte label =? 45) then invalid else
  if negb (every (λ b, isAlnum b || (b =? 45)) label) then invalid else Ok ().

Fixpoint checkLabels (labels : list string) : Checked () :=
  match labels with [] => Ok () | label :: rest => try _ := checkLabel label in checkLabels rest end.

Definition ValidateHostname (value : string) : Checked () :=
  let trimmed := TrimSuffix value "." in
  try _ := checkCommon trimmed MaxHostnameLen in
  checkLabels (Split trimmed "."%char).

(** The name is printable ASCII here. *)
Definition ValidateFQDN (value : string) : Checked () :=
  try _ := ValidateHostname value in
  let labels := Split (TrimSuffix value ".") "."%char in
  if (length labels <? 2)%nat then invalid else
  let tld := ToLower (List.last labels "") in
  if HasPrefix tld "xn--" then Ok () else
  if slen tld <? 2 then invalid else
  if negb (every (λ b, between 97 b 122) tld) then invalid else Ok ().

Definition ValidateDomainName (value : string) : Checked () :=
  try _ := ValidateFQDN value in
  let lower := ToLower (TrimSuffix value ".") in
  if existsb (λ suffix, (lower =s TrimPrefix suffix ".") || HasSuffix lower suffix) reservedDomainSuffixes
  then invalid else Ok ().

(** The part before the first dot, unless it is empty. *)
Definition stem (s : string) : string :=
  let '(before, _, found) := Cut s "."%char in
  if found && negb (before =s "") then before else s.

Definition ValidateFilename (value : string) : Checked () :=
  try _ := checkCommon value MaxFilenameLen in
  if containsByte (λ b, (b =? 47) || (b =? 92)) value then invalid else
  if Contains value ".." then invalid else
  if negb (TrimSpace value =s value) then invalid else
  if HasSuffix value "." then invalid else
  if hasShellMeta value then invalid else
  if member (stem (ToLower value)) reservedFilenames then invalid else
  if member (ToLower value) reservedFilenames then invalid else Ok ().

Definition ValidateSQLIdentifier (value : string) : Checked () :=
  try _ := checkCommon value MaxSQLIdentifierLen in
  let first := first_byte value in
  if negb (between 97 first 122 || between 65 first 90 || (first =? 95)) then invalid else
  if negb (every (λ b, isAlnum b || (b =? 95)) value) then invalid else Ok ().

Definition ValidateEnvVarName (value : string) : Checked () :=
  try _ := checkCommon value MaxEnvNameLen in
  let first := first_byte value in
  if negb (between 65 first 90 || (first =? 95)) then invalid else
  if negb (every (λ b, between 65 b 90 || between 48 b 57 || (b =? 95)) value) then invalid else
  if member value deniedEnvNames then invalid else
  if HasPrefix value "BASH_FUNC_" || HasPrefix value "LD_" then invalid else Ok ().

Definition no_control (b : Z) : bool := (32 <=? b) && negb (b =? 127).

Definition ValidateEnvVarValue (value : string) : Checked () :=
  if MaxEnvValueLen <? slen value then invalid else
  if negb (every no_control value) then invalid else Ok ().

(** [env] in the order in which Go visits the map. *)
Fixpoint ValidateEnvVars (env : list (string * string)) : Checked (list string) :=
  match env with
  | [] => Ok []
  | (name, value) :: rest =>
      try _ := ValidateEnvVarName name in
      try _ := ValidateEnvVarValue value in
      try out := ValidateEnvVars rest in
      Ok ((name +:+ "=" +:+ value) :: out)
  end.

Definition ValidateExecArg (value : string) : Checked () :=
  if MaxExecArgLen <? slen value then invalid else
  if negb (every no_control value) then invalid else Ok ().

Definition image_char (b : Z) : bool :=
  isAlnum b || (b =? 46) || (b =? 45) || (b =? 95) || (b =? 47) || (b =? 58) || (b =? 64).

Definition ValidateImageReference (value : string) : Checked () :=
  try _ := checkCommon value MaxImageRefLen in
  if HasPrefix value "-" then invalid else
  if Contains value ".." then invalid else
  if negb (every image_char value) then invalid else Ok ().

(** * Properties *)

(** A check that denies, and goes on otherwise. *)
Lemma deny_or {A} (b : bool) reason (k : Checked A) a :
  (if b then deny reason else k) = Ok a ↔ b = false ∧ k = Ok a.
Proof. destruct b; naive_solver. Qed.

Lemma invalid_or {A} (b : bool) (k : Checked A) a : (if b then invalid else k) = Ok a ↔ b = false ∧ k = Ok a.
Proof. apply deny_or. Qed.

Lemma try_ok {A B} (m : Checked A) (k : A → Checked B) b :
  (try x := m in k x) = Ok b ↔ ∃ a, m = Ok a ∧ k a = Ok b.
Proof. destruct m; naive_solver. Qed.

Lemma member_elem v l : member v l = true ↔ v ∈ l.
Proof.
  unfold member. rewrite existsb_exists. setoid_rewrite String.eqb_eq. rewrite list_elem_of_In. naive_solver.
Qed.

Lemma member_not v l : member v l = false ↔ v ∉ l.
Proof. rewrite <-member_elem. destruct (member v l); naive_solver. Qed.

(** Whatever was denied, a client sees the code of the reason and its generic
    message, and a resource of another tenant looks like a missing one. *)
Theorem denial_generic reason :
  payload (AppError (Deny reason)) =
    mkPayload false (CodeForReason reason) (DefaultMessage (CodeForReason reason)) [] ∧
  CodeForReason ReasonCrossTenant = CodeNotFound.
Proof.
  split; [| done]. assert (CodeForReason reason ∈ reasonCodes.*2 ∨ CodeForReason reason = CodeForbidden) as Hc.
  { unfold CodeForReason. destruct (assoc reason reasonCodes) as [c |] eqn:E; [left | by right]. cbn [default].
    revert E. induction reasonCodes as [| [k v] l IH]; cbn; [done |]. destruct (reason =s k); [intros [= ->]; left | intros E; right; by apply IH]. }
  unfold AppError, Deny. cbn [de_Code de_Reason]. revert Hc. generalize (CodeForReason reason). intros c Hc.
  assert (c ∈ CodeForbidden :: reasonCodes.*2) as Hin by (destruct Hc as [? | ->]; [by right | left]).
  cbn in Hin. repeat (apply elem_of_cons in Hin as [-> | Hin]; [vm_compute; reflexivity |]). by apply elem_of_nil in Hin.
Qed.

(** Authorization: [src/src/guard/authz.go]. *)

(** * Data *)

Definition RoleGlobalAdmin : string := "global_admin".
Definition RoleAccountAdmin : string := "account_admin".
Definition RoleEndUser : string := "end_user".

Definition Role_Valid (r : string) : bool := member r [RoleGlobalAdmin; RoleAccountAdmin; RoleEndUser].

Definition ActionRead : string := "read".
Definition ActionCreate : string := "create".
Definition ActionUpdate : string := "update".
Definition ActionDelete : string := "delete".
Definition ActionAdminister : string := "administer".

Definition Action_Valid (a : string) : bool :=
  member a [ActionRead; ActionCreate; ActionUpdate; ActionDelete; ActionAdminister].

Definition Mutating (a : string) : bool := Action_Valid a && negb (a =s ActionRead).

Definition ResourceSite : string := "site".
Definition ResourceApp : string := "app".
Definition ResourceContainer : string := "container".
Definition ResourceVM : string := "vm".
Definition ResourceDatabase : string := "database".
Definition ResourceMailbox : string := "mailbox".
Definition ResourceDNSZone : string := "dns_zone".
Definition ResourceBackupJob : string := "backup_job".
Definition ResourceBillingAccount : string := "billing_account".
Definition ResourceInvoice : string := "invoice".
Definition ResourceSupportTicket : string := "support_ticket".
Definition ResourceUser : string := "user".
Definition ResourceTenant : string := "tenant".
Definition ResourceSecurityStack : string := "security_stack".
Definition ResourcePlatformSetting : string := "platform_setting".
Definition ResourcePrimaryAdminFlag : string := "primary_admin_flag".
Definition ResourceAdminCredential : string := "admin_credential".

Definition platformOwned : list string := [ResourceSecurityStack; ResourcePlatformSetting].

Record Grant := mkGrant { gr_ResourceType : string; gr_ResourceID : string; gr_Actions : list string }.

Definition Permits (g : Grant) (resourceType resourceID action : string) : bool :=
  if negb (gr_ResourceType g =s resourceType) || negb (gr_ResourceID g =s resourceID) then false
  else existsb (λ a, a =s action) (gr_Actions g).

Record Subject := mkSubject {
  su_UserID : string; su_TenantID : string; su_Role : string; su_Active : bool;
  su_PrimaryAdmin : bool; su_Grants : list Grant }.

Record Resource := mkResource {
  re_Type : string; re_ID : string; re_TenantID : string; re_OwnerUserID : string;
  re_OwnerRole : string; re_PlatformControlled : bool }.

Record TenantFilter := mkTenantFilter { tf_All : bool; tf_TenantID : string }.

Section authz.
Context {U : Unicode} {Dg : Digest}.

Definition ParseRole (s : string) : Checked string :=
  let r := TrimSpaceU (ToLowerU s) in
  if negb (Role_Valid r) then deny ReasonRoleUnknown else Ok r.

(** * Decisions *)

Definition requireSameTenant (s : Subject) (r : Resource) : Checked () :=
  if su_TenantID s =s "" then deny ReasonCrossTenant else
  if re_TenantID r =s "" then deny ReasonCrossTenant else
  if negb (ConstantTimeEqualString (su_TenantID s) (re_TenantID r)) then deny ReasonCrossTenant else Ok ().

Definition Authorize (s : Subject) (action : string) (r : Resource) : Checked () :=
  if (su_UserID s =s "") || negb (Role_Valid (su_Role s)) then deny ReasonSubjectInvalid else
  if negb (su_Active s) then deny ReasonSubjectInactive else
  if negb (Action_Valid action) then deny ReasonActionUnknown else
  if re_Type r =s "" then deny ReasonResourceInvalid else
  if (re_Type r =s ResourcePrimaryAdminFlag) && Mutating action then deny ReasonPrimaryAdminImmutable else
  if (re_Type r =s ResourceAdminCredential) && negb (ConstantTimeEqualString (re_OwnerUserID r) (su_UserID s))
  then deny ReasonPeerAdminCredential else
  if member (re_Type r) platformOwned || re_PlatformControlled r then
    if negb (su_Role s =s RoleGlobalAdmin) then deny ReasonPlatformControlled else Ok ()
  else if su_Role s =s RoleGlobalAdmin then Ok ()
  else if su_Role s =s RoleAccountAdmin then requireSameTenant s r
  else if su_Role s =s RoleEndUser then
    try _ := requireSameTenant s r in
    if action =s ActionAdminister then deny ReasonNoGrant else
    if existsb (λ g, Permits g (re_Type r) (re_ID r) action) (su_Grants s) then Ok () else deny ReasonNoGrant
  else deny ReasonRoleUnknown.

(** [RequireSameTenant]. *)
Definition RequireTenant (s : Subject) (tenantID : string) : Checked () :=
  if (su_UserID s =s "") || negb (Role_Valid (su_Role s)) then deny ReasonSubjectInvalid else
  if negb (su_Active s) then deny ReasonSubjectInactive else
  if su_Role s =s RoleGlobalAdmin then Ok () else
  requireSameTenant s (mkResource "record" "" tenantID "" "" false).

Definition RequireOwner (s : Subject) (r : Resource) : Checked () :=
  try _ := Authorize s ActionRead r in
  if su_Role s =s RoleGlobalAdmin then Ok () else
  if re_OwnerUserID r =s "" then deny ReasonResourceInvalid else
  if negb (ConstantTimeEqualString (re_OwnerUserID r) (su_UserID s)) then deny ReasonCrossTenant else Ok ().

Definition NewTenantFilter (s : Subject) : Checked TenantFilter :=
  if (su_UserID s =s "") || negb (Role_Valid (su_Role s)) then deny ReasonSubjectInvalid else
  if negb (su_Active s) then deny ReasonSubjectInactive else
  if su_Role s =s RoleGlobalAdmin then Ok (mkTenantFilter true "") else
  if su_TenantID s =s "" then deny ReasonCrossTenant else Ok (mkTenantFilter false (su_TenantID s)).

Definition Matches (f : TenantFilter) (tenantID : string) : bool :=
  if tf_All f then true else
  if (tf_TenantID f =s "") || (tenantID =s "") then false
  else ConstantTimeEqualString (tf_TenantID f) tenantID.

(** The predicate and its arguments. *)
Definition SQL (f : TenantFilter) (column : string) : Checked (string * list string) :=
  try _ := ValidateSQLIdentifier column in
  if tf_All f then Ok ("1 = 1", []) else
  if tf_TenantID f =s "" then deny ReasonCrossTenant else Ok (column +:+ " = ?", [tf_TenantID f]).

(** * What is permitted *)

(** Digests agree. *)
Definition same (a b : string) : Prop := sha256hex a = sha256hex b.

Definition known_caller (s : Subject) : Prop :=
  su_UserID s ≠ "" ∧ Role_Valid (su_Role s) = true ∧ su_Active s = true.

Definition own_tenant (s : Subject) (tenantID : string) : Prop :=
  su_TenantID s ≠ "" ∧ tenantID ≠ "" ∧ same (su_TenantID s) tenantID.

Definition platform (r : Resource) : Prop := re_Type r ∈ platformOwned ∨ re_PlatformControlled r = true.

Definition granted (s : Subject) (action : string) (r : Resource) : Prop :=
  ∃ g, g ∈ su_Grants s ∧ gr_ResourceType g = re_Type r ∧ gr_ResourceID g = re_ID r ∧ action ∈ gr_Actions g.

Definition permitted (s : Subject) (action : string) (r : Resource) : Prop :=
  known_caller s ∧ Action_Valid action = true ∧ re_Type r ≠ "" ∧
  (re_Type r = ResourcePrimaryAdminFlag → action = ActionRead) ∧
  (re_Type r = ResourceAdminCredential → same (re_OwnerUserID r) (su_UserID s)) ∧
  (su_Role s = RoleGlobalAdmin ∨
   ¬ platform r ∧ own_tenant s (re_TenantID r) ∧
   (su_Role s = RoleAccountAdmin ∨
    su_Role s = RoleEndUser ∧ action ≠ ActionAdminister ∧ granted s action r)).

Lemma Permits_spec g t i a :
  Permits g t i a = true ↔ gr_ResourceType g = t ∧ gr_ResourceID g = i ∧ a ∈ gr_Actions g.
Proof.
  unfold Permits. rewrite list_elem_of_In.
  destruct (String.eqb_spec (gr_ResourceType g) t) as [-> |]; [| naive_solver].
  destruct (String.eqb_spec (gr_ResourceID g) i) as [-> |]; [| naive_solver].
  cbn. rewrite existsb_exists. setoid_rewrite seqb_eq. naive_solver.
Qed.

Lemma requireSameTenant_spec s r : requireSameTenant s r = Ok () ↔ own_tenant s (re_TenantID r).
Proof.
  unfold requireSameTenant, own_tenant, ConstantTimeEqualString, same.
  destruct (String.eqb_spec (su_TenantID s) ""); [naive_solver |].
  destruct (String.eqb_spec (re_TenantID r) ""); [naive_solver |].
  destruct (String.eqb_spec (sha256hex (su_TenantID s)) (sha256hex (re_TenantID r))); naive_solver.
Qed.

Lemma known_spec s : (su_UserID s =s "") || negb (Role_Valid (su_Role s)) = false → su_Active s = true → known_caller s.
Proof. intros [?%seqb_neq ?%negb_false_iff]%orb_false_iff ?. done. Qed.

Lemma role_cases r : Role_Valid r = true → r = RoleGlobalAdmin ∨ r = RoleAccountAdmin ∨ r = RoleEndUser.
Proof. intros H%member_elem. set_solver. Qed.

Lemma marker_spec action r : Action_Valid action = true →
  (re_Type r =s ResourcePrimaryAdminFlag) && Mutating action = false ↔
  (re_Type r = ResourcePrimaryAdminFlag → action = ActionRead).
Proof.
  intros Ha. unfold Mutating. rewrite Ha. destruct (String.eqb_spec (re_Type r) ResourcePrimaryAdminFlag); [| naive_solver].
  cbn. rewrite negb_false_iff, seqb_eq. naive_solver.
Qed.

Lemma credential_spec s r :
  (re_Type r =s ResourceAdminCredential) && negb (ConstantTimeEqualString (re_OwnerUserID r) (su_UserID s)) = false ↔
  (re_Type r = ResourceAdminCredential → same (re_OwnerUserID r) (su_UserID s)).
Proof.
  unfold same, ConstantTimeEqualString. destruct (String.eqb_spec (re_Type r) ResourceAdminCredential); [| naive_solver].
  cbn. rewrite negb_false_iff, seqb_eq. naive_solver.
Qed.

Lemma platform_spec r : member (re_Type r) platformOwned || re_PlatformControlled r = true ↔ platform r.
Proof. unfold platform. by rewrite orb_true_iff, member_elem. Qed.

(** The last part of [Authorize]. *)
Definition by_role (s : Subject) (action : string) (r : Resource) : Prop :=
  su_Role s = RoleGlobalAdmin ∨
  ¬ platform r ∧ own_tenant s (re_TenantID r) ∧
  (su_Role s = RoleAccountAdmin ∨ su_Role s = RoleEndUser ∧ action ≠ ActionAdminister ∧ granted s action r).

Lemma granted_spec s action r :
  existsb (λ g, Permits g (re_Type r) (re_ID r) action) (su_Grants s) = true ↔ granted s action r.
Proof.
  unfold granted. rewrite existsb_exists. setoid_rewrite Permits_spec. setoid_rewrite list_elem_of_In. naive_solver.
Qed.

Lemma role_rules s action r : Role_Valid (su_Role s) = true →
  (if member (re_Type r) platformOwned || re_PlatformControlled r then
     if negb (su_Role s =s RoleGlobalAdmin) then deny ReasonPlatformControlled else Ok ()
   else if su_Role s =s RoleGlobalAdmin then Ok ()
   else if su_Role s =s RoleAccountAdmin then requireSameTenant s r
   else if su_Role s =s RoleEndUser then
     try _ := requireSameTenant s r in
     if action =s ActionAdminister then deny ReasonNoGrant else
     if existsb (λ g, Permits g (re_Type r) (re_ID r) action) (su_Grants s) then Ok () else deny ReasonNoGrant
   else deny ReasonRoleUnknown) = Ok () ↔ by_role s action r.
Proof.
  intros Hr. unfold by_role. rewrite <-platform_spec.
  destruct (role_cases _ Hr) as [E | [E | E]]; rewrite E.
  - cbn. destruct (_ || _); naive_solver.
  - destruct (_ || _); cbn; [naive_solver |]. rewrite requireSameTenant_spec. naive_solver.
  - destruct (_ || _); cbn; [naive_solver |]. pose proof (requireSameTenant_spec s r) as Ht.
    destruct (requireSameTenant s r) as [[] | e]; [| naive_solver]. rewrite deny_or, seqb_neq.
    pose proof (granted_spec s action r) as Hg. destruct (existsb _ _); naive_solver.
Qed.

Lemma Authorize_permitted s action r : Authorize s action r = Ok () ↔ permitted s action r.
Proof.
  unfold Authorize, permitted, known_caller. rewrite !deny_or, orb_false_iff, !negb_false_iff, !seqb_neq, credential_spec.
  split.
  - intros ((H1 & H2) & H3 & H4 & H5 & H6 & H7 & H8).
    split_and!; try done; [by apply marker_spec | by apply role_rules].
  - intros ((H1 & H2 & H3) & H4 & H5 & H6 & H7 & H8).
    split_and!; try done; [by apply marker_spec | by apply role_rules].
Qed.


(** A record that was loaded by its identifier is in the scope of a caller's query
    exactly when the caller may have it: the filter and the check agree. *)
Theorem filter_agrees s f tenantID : NewTenantFilter s = Ok f →
  Matches f tenantID = true ↔ RequireTenant s tenantID = Ok ().
Proof.
  unfold NewTenantFilter, RequireTenant. destruct (_ || negb (Role_Valid _)); [done |].
  destruct (negb (su_Active s)); [done |]. destruct (su_Role s =s RoleGlobalAdmin); [intros [= <-]; naive_solver |].
  rewrite deny_or, seqb_neq. intros [Hn [= <-]]. rewrite requireSameTenant_spec. unfold Matches, own_tenant, same, ConstantTimeEqualString.
  cbn. apply seqb_neq in Hn as Hb. rewrite Hb. cbn.
  destruct (String.eqb_spec tenantID ""); [naive_solver |]. rewrite seqb_eq. naive_solver.
Qed.

(** Nobody but a global administrator reaches another tenant through any check, and
    nobody without a tenant is let in by a missing one. *)
Theorem tenant_boundary s action r : Authorize s action r = Ok () → su_Role s ≠ RoleGlobalAdmin →
  own_tenant s (re_TenantID r) ∧ RequireTenant s (re_TenantID r) = Ok () ∧
  ∃ f, NewTenantFilter s = Ok f ∧ tf_All f = false ∧ Matches f (re_TenantID r) = true.
Proof.
  intros ((H1 & H2 & H3) & _ & _ & _ & _ & [Hg | (_ & Ho & _)])%Authorize_permitted Hn; [done |].
  pose proof Ho as (T1 & T2 & T3). apply seqb_neq in H1, T1, Hn.
  assert (NewTenantFilter s = Ok (mkTenantFilter false (su_TenantID s))) as Ef.
  { unfold NewTenantFilter. by rewrite H1, H2, H3, Hn, T1. }
  assert (RequireTenant s (re_TenantID r) = Ok ()) as Er.
  { unfold RequireTenant. rewrite H1, H2, H3, Hn. by apply requireSameTenant_spec. }
  split; [done |]. split; [done |]. eexists. split; [exact Ef |]. split; [done |]. by eapply filter_agrees.
Qed.
End authz.
