(* ===== verification/GuardQuota.v ===== *)
(** Abuse control: [src/src/guard/quota.go], with the destinations of
    [network.go], and [enumeration.go].

    A tracker is its policy and its table; the calls take the time that the clock
    answers.  Every method holds the mutex, so a call is one step. *)
From stdpp Require Import prelude strings list gmap.
From Stdlib Require Import ZArith Lia.
From coqutil Require Export Datatypes.RecordSetters.
From S2P Require Import Prelude GoTime Errors Sql Text Token Outbound Guard.
Export DoubleBraceUpdate.

Definition Second : Z := 1000000000.
Definition Minute : Z := 60 * Second.
Definition Millisecond : Z := 1000000.

(** * Quotas *)

Definition QuotaSites : string := "sites".
Definition QuotaApps : string := "apps".
Definition QuotaContainers : string := "containers".
Definition QuotaVMs : string := "vms".
Definition QuotaDatabases : string := "databases".
Definition QuotaMailboxes : string := "mailboxes".
Definition QuotaDNSZones : string := "dns_zones".
Definition QuotaStorageBytes : string := "storage_bytes".
Definition QuotaBackupBytes : string := "backup_bytes".
Definition QuotaBandwidthBytes : string := "bandwidth_bytes".
Definition QuotaCPUCores : string := "cpu_cores".
Definition QuotaMemoryBytes : string := "memory_bytes".
Definition QuotaOutboundEmails : string := "outbound_emails".

Definition Unlimited : Z := -1.

Notation Quota := (gmap string Z).
Notation Usage := (gmap string Z).

Definition Allowance (q : Quota) (kind : string) : Z := default 0 (q !! kind).

Definition CheckQuota (q : Quota) (current : Usage) (kind : string) (requested : Z) : Checked () :=
  if kind =s "" then deny ReasonInvalidInput else
  if requested <=? 0 then deny ReasonInvalidInput else
  let limit := Allowance q kind in
  if limit =? Unlimited then Ok () else
  if limit <=? 0 then deny ReasonQuotaExceeded else
  let used := default 0 (current !! kind) in
  if used <? 0 then deny ReasonInvalidInput else
  if max_int64 -! requested <? used then deny ReasonQuotaExceeded else
  if limit <? used +! requested then deny ReasonQuotaExceeded else Ok ().

(** * Destinations: network.go *)

Definition deniedHostSuffixes : list string :=
  [".cluster.local"; ".consul"; ".internal"; ".local"; ".localdomain"; ".localhost"; ".svc"].

Definition deniedHostNames : list string :=
  ["100.100.100.200"; "169.254.169.254"; "169.254.170.2"; "fd00:ec2::254"; "gateway.docker.internal";
   "host.containers.internal"; "host.docker.internal"; "host.lima.internal"; "instance-data"; "kubernetes";
   "kubernetes.default"; "kubernetes.default.svc"; "localhost"; "localhost.localdomain"; "metadata";
   "metadata.google.internal"; "metadata.oraclecloud.com"; "metadata.packet.net";
   "metadata.platformequinix.com"; "metadata.tencentyun.com"].

Definition IsGlobalUnicast (ip : IP) : bool :=
  ((length ip =? 4)%nat || (length ip =? 16)%nat) && negb (bool_decide (To4 ip = Some [255; 255; 255; 255])) &&
  negb (IsUnspecified ip) && negb (IsLoopback ip) && negb (IsMulticast ip) && negb (IsLinkLocalUnicast ip).

(** The octets of [netip.AddrFromSlice(ip).Unmap()]; [None] for a slice of another length. *)
Definition unmapped (ip : IP) : option (list Z) :=
  if (length ip =? 4)%nat then Some ip else
  if (length ip =? 16)%nat then Some (default ip (To4 ip)) else None.

(** A nil address is the empty list. *)
Definition checkAddr (ip : IP) : Checked () :=
  if (length ip =? 0)%nat then deny ReasonOutboundBlocked else
  if IsPrivateOrLoopbackIP ip then deny ReasonOutboundBlocked else
  if negb (IsGlobalUnicast ip) || IsMulticast ip || IsUnspecified ip then deny ReasonOutboundBlocked else
  match unmapped ip with
  | None => deny ReasonOutboundBlocked
  | Some octets =>
      if (length octets =? 4)%nat &&
         ((byte_at octets 0 =? 100) && (64 <=? byte_at octets 1) && (byte_at octets 1 <=? 127))
      then deny ReasonOutboundBlocked else
      if (length octets =? 4)%nat &&
         ((byte_at octets 0 =? 192) && (byte_at octets 1 =? 0) && (byte_at octets 2 =? 0))
      then deny ReasonOutboundBlocked else Ok ()
  end.

Fixpoint checkAddrs (ips : list IP) : Checked () :=
  match ips with [] => Ok () | ip :: rest => try _ := checkAddr ip in checkAddrs rest end.

Notation Resolver := (option (string → option (list IP))).

(** The resolver that answers with the addresses given. *)
Definition FixedResolver (ips : list IP) : Resolver := Some (λ _, Some ips).

(** [netip.ParseAddr], as the bytes of the address. *)
Class ParseAddr := { parse_addr : string → option IP }.

Section network.
Context {U : Unicode} {PA : ParseAddr}.

Definition CheckOutboundHost (host : string) (resolve : Resolver) : Checked () :=
  let host := TrimSpaceU host in
  if host =s "" then deny ReasonOutboundBlocked else
  let host := TrimSuffix (TrimPrefix host "[") "]" in
  let host := TrimSuffix host "." in
  let lower := ToLowerU host in
  if member lower deniedHostNames then deny ReasonOutboundBlocked else
  if existsb (HasSuffix lower) deniedHostSuffixes then deny ReasonOutboundBlocked else
  match parse_addr lower with
  | Some ip => checkAddr ip
  | None =>
      if negb (is_ok (ValidateHostname lower)) then deny ReasonOutboundBlocked else
      match resolve with
      | None => deny ReasonOutboundBlocked
      | Some answer =>
          match answer lower with
          | None => deny ReasonOutboundBlocked
          | Some ips => if (length ips =? 0)%nat then deny ReasonOutboundBlocked else checkAddrs ips
          end
      end
  end.

(** [strings.Trim(s, cutset)] for brackets. *)
Definition bracket (r : Z) : bool := (r =? 91) || (r =? 93).

Definition isLoopbackHost (host : string) : bool :=
  member (ToLowerU (string_of (trim bracket (runes (TrimSpaceU host))))) ["127.0.0.1"; "::1"; "localhost"].

Fixpoint portValue (value : Z) (s : string) : option Z :=
  match s with
  | EmptyString => Some value
  | String c s => if is_digit c then portValue (value *! 10 +! digit_value c) s else None
  end.

Definition ValidatePort (port : string) : Checked () :=
  if port =s "" then deny ReasonInvalidInput else
  if 5 <? slen port then deny ReasonInvalidInput else
  match portValue 0 port with
  | None => deny ReasonInvalidInput
  | Some value => if (value <? 1) || (65535 <? value) then deny ReasonInvalidInput else Ok ()
  end.

(** [net.SplitHostPort] is [split]. *)
Definition ValidateListenAddress (split : string → option (string * string)) (addr : string)
    (loopbackOnly : bool) : Checked () :=
  if addr =s "" then deny ReasonInvalidInput else
  match split addr with
  | None => deny ReasonInvalidInput
  | Some (host, port) =>
      try _ := ValidatePort port in
      if negb loopbackOnly then Ok () else
      if negb (isLoopbackHost host) then deny ReasonInvalidInput else Ok ()
  end.

(** * Outbound control *)

Definition deniedOutboundPorts : list Z :=
  [25; 135; 137; 138; 139; 445; 465; 587; 1900; 2375; 2376; 3333; 4444; 5555; 7777; 9999; 14433; 14444; 45700].

Record OutboundPolicy := mkOutboundPolicy { op_AllowedPorts : list Z; op_MaxDistinctTargets : Z; op_Window : Z }.

Definition DefaultOutboundPolicy : OutboundPolicy := mkOutboundPolicy [] 200 Minute.

(** Per tenant, when each target was last allowed. *)
Record OutboundControl := mkOutboundControl {
  oc_policy : OutboundPolicy; oc_targets : gmap string (gmap string Z) }.

Definition NewOutboundControl (policy : OutboundPolicy) : OutboundControl := mkOutboundControl policy ∅.

Definition CheckDestination (c : OutboundControl) (host : string) (port : Z) (resolve : Resolver) : Checked () :=
  if (port <? 1) || (65535 <? port) then deny ReasonOutboundBlocked else
  if existsb (Z.eqb port) deniedOutboundPorts then deny ReasonOutboundBlocked else
  let allowed := op_AllowedPorts (oc_policy c) in
  if negb (length allowed =? 0)%nat && negb (existsb (Z.eqb port) allowed) then deny ReasonOutboundBlocked else
  CheckOutboundHost host resolve.

Definition aged (cutoff : Z) (seen : gmap string Z) : gmap string Z := filter (λ kv, cutoff ≤ kv.2) seen.

Definition Allow (c : OutboundControl) (tenantID host : string) (port : Z) (resolve : Resolver) (now : Z)
    : Checked () * OutboundControl :=
  if tenantID =s "" then (deny ReasonOutboundBlocked, c) else
  match CheckDestination c host port resolve with
  | Err e => (Err e, c)
  | Ok _ =>
      if (op_MaxDistinctTargets (oc_policy c) <=? 0) || (op_Window (oc_policy c) <=? 0) then (Ok (), c) else
      let seen := aged (now - op_Window (oc_policy c)) (default ∅ (oc_targets c !! tenantID)) in
      let store seen := c {{ oc_targets := <[tenantID := seen]> (oc_targets c) }} in
      let target := host +:+ ":" +:+ itoa port in
      match seen !! target with
      | Some _ => (Ok (), store (<[target := now]> seen))
      | None =>
          if op_MaxDistinctTargets (oc_policy c) <=? Z.of_nat (size seen)
          then (deny ReasonRateLimited, store seen)
          else (Ok (), store (<[target := now]> seen))
      end
  end.

Definition Cleanup (c : OutboundControl) (now : Z) : OutboundControl :=
  if op_Window (oc_policy c) <=? 0 then c else
  c {{ oc_targets := omap (λ seen,
    let seen := aged (now - op_Window (oc_policy c)) seen in
    if (size seen =? 0)%nat then None else Some seen) (oc_targets c) }}.
End network.

(** * Lockout *)

Record LockoutPolicy := mkLockoutPolicy {
  lp_Threshold : Z; lp_Window : Z; lp_Duration : Z; lp_BaseBackoff : Z; lp_MaxBackoff : Z }.

Definition DefaultLockoutPolicy : LockoutPolicy :=
  mkLockoutPolicy 10 (15 * Minute) (15 * Minute) (250 * Millisecond) (8 * Second).

(** [until] is none for the zero time. *)
Record lockoutEntry := mklockoutEntry { le_failures : Z; le_first : Z; le_last : Z; le_until : option Z }.

Record Lockout := mkLockout { lo_policy : LockoutPolicy; lo_entries : gmap string lockoutEntry }.

Definition NewLockout (policy : LockoutPolicy) : Lockout := mkLockout policy ∅.

Definition before_until (now : Z) (e : lockoutEntry) : bool :=
  match le_until e with Some until => now <? until | None => false end.

Definition LockoutCheck (l : Lockout) (key : string) (now : Z) : Checked () :=
  if key =s "" then deny ReasonSubjectInvalid else
  match lo_entries l !! key with
  | None => Ok ()
  | Some entry => if before_until now entry then deny ReasonLockedOut else Ok ()
  end.

(** The loop of the back-off with [n] rounds to go. *)
Fixpoint backoffLoop (maxBackoff backoff : Z) (n : nat) : Z :=
  match n with
  | O => backoff
  | S n => if (0 <? maxBackoff) && (maxBackoff <=? backoff) then backoff
           else backoffLoop maxBackoff (backoff *! 2) n
  end.

Definition backoffOf (p : LockoutPolicy) (failures : Z) : Z :=
  if lp_BaseBackoff p <=? 0 then 0 else
  let backoff := backoffLoop (lp_MaxBackoff p) (lp_BaseBackoff p) (Z.to_nat (failures - 1)) in
  if (0 <? lp_MaxBackoff p) && (lp_MaxBackoff p <? backoff) then lp_MaxBackoff p else backoff.

(** The entry of a key after one more failure. *)
Definition failedEntry (p : LockoutPolicy) (old : option lockoutEntry) (now : Z) : lockoutEntry :=
  let fresh := mklockoutEntry 0 now 0 None in
  let entry := match old with
               | None => fresh
               | Some e => if (0 <? lp_Window p) && (lp_Window p <? time_Sub now (le_first e)) then fresh else e
               end in
  let entry := entry {{ le_failures := le_failures entry +! 1; le_last := now }} in
  if (0 <? lp_Threshold p) && (lp_Threshold p <=? le_failures entry) && (0 <? lp_Duration p)
  then entry {{ le_until := Some (now + lp_Duration p) }} else entry.

Definition Fail_ (l : Lockout) (key : string) (now : Z) : Z * Lockout :=
  if key =s "" then (0, l) else
  let entry := failedEntry (lo_policy l) (lo_entries l !! key) now in
  (backoffOf (lo_policy l) (le_failures entry), l {{ lo_entries := <[key := entry]> (lo_entries l) }}).

Definition Failures (l : Lockout) (key : string) : Z :=
  match lo_entries l !! key with Some e => le_failures e | None => 0 end.

Definition Succeed_ (l : Lockout) (key : string) : Lockout := l {{ lo_entries := base.delete key (lo_entries l) }}.

Definition stale (p : LockoutPolicy) (now : Z) (e : lockoutEntry) : bool :=
  negb (before_until now e) && negb ((0 <? lp_Window p) && (time_Sub now (le_last e) <=? lp_Window p)).

Definition LockoutCleanup (l : Lockout) (now : Z) : Lockout :=
  l {{ lo_entries := filter (λ kv, stale (lo_policy l) now kv.2 = false) (lo_entries l) }}.

(** * Quotas are exact *)

(** A request is granted exactly when it is for a kind, positive, and either
    unlimited or within what is left: no sum overflows. *)
Theorem CheckQuota_exact (q : Quota) (u : Usage) kind requested :
  in_int64 requested → in_int64 (default 0 (u !! kind)) → in_int64 (Allowance q kind) →
  CheckQuota q u kind requested = Ok () ↔
  kind ≠ "" ∧ 0 < requested ∧
  (Allowance q kind = Unlimited ∨ 0 ≤ default 0 (u !! kind) ∧ default 0 (u !! kind) + requested ≤ Allowance q kind).
Proof.
  intros Hr Hu Ha. unfold CheckQuota. cbv zeta. rewrite !deny_or, seqb_neq, Z.leb_gt. unfold Unlimited.
  destruct (Z.eqb_spec (Allowance q kind) (-1)) as [E | E]; [naive_solver |].
  rewrite !deny_or, Z.leb_gt, !Z.ltb_ge. split.
  - intros (H1 & H2 & H3 & H4 & H5 & H6 & _). rewrite wrap64_id in H5 by int64. rewrite wrap64_id in H6 by int64.
    split_and!; try done. right. lia.
  - intros (H1 & H2 & [? | [H4 H5]]); [done |]. rewrite wrap64_id by int64. rewrite wrap64_id by int64.
    split_and!; try done; int64.
Qed.

(** * Back-off *)

Lemma backoffLoop_min maxb (n : nat) : ∀ b, 0 < b → 0 < maxb → 2 * maxb ≤ max_int64 →
  Z.min maxb (backoffLoop maxb b n) = Z.min maxb (b * 2 ^ Z.of_nat n).
Proof.
  induction n as [| n IH]; intros b Hb Hm Hmax; cbn [backoffLoop].
  { change (Z.of_nat 0) with 0. rewrite Z.pow_0_r. f_equal. lia. }
  rewrite Nat2Z.inj_succ, Z.pow_succ_r by lia. pose proof (Z.pow_pos_nonneg 2 (Z.of_nat n)).
  destruct (Z.ltb_spec 0 maxb); [| lia]. cbn [andb]. destruct (Z.leb_spec maxb b); [nia |].
  rewrite wrap64_id by int64. rewrite IH by lia. f_equal. lia.
Qed.

(** The back-off after the [n]-th failure is the base doubled [n - 1] times, cut off
    at the maximum, and does not overflow when there is one. *)
Theorem backoff_doubles p failures :
  0 < lp_BaseBackoff p → 0 < lp_MaxBackoff p → 2 * lp_MaxBackoff p ≤ max_int64 →
  backoffOf p failures = Z.min (lp_MaxBackoff p) (lp_BaseBackoff p * 2 ^ Z.of_nat (Z.to_nat (failures - 1))).
Proof.
  intros Hb Hm Hmax. unfold backoffOf. destruct (Z.leb_spec (lp_BaseBackoff p) 0); [lia |]. cbv zeta.
  rewrite <-backoffLoop_min by done. destruct (Z.ltb_spec 0 (lp_MaxBackoff p)); [| lia]. cbn [andb].
  destruct (Z.ltb_spec (lp_MaxBackoff p) (backoffLoop (lp_MaxBackoff p) (lp_BaseBackoff p) (Z.to_nat (failures - 1)))); lia.
Qed.

(** * The budget of distinct targets *)

Section budget.
Context {U : Unicode} {PA : ParseAddr}.

(** A request of a tenant, or the clean-up. *)
Inductive OutOp := Ask (tenantID host : string) (port : Z) (resolve : Resolver) | Tidy.

Definition target_of (host : string) (port : Z) : string := host +:+ ":" +:+ itoa port.

(** The control and what was allowed, newest first. *)
Definition out_step (now : Z) (op : OutOp) (st : OutboundControl * list (Z * string * string))
    : OutboundControl * list (Z * string * string) :=
  let '(c, log) := st in
  match op with
  | Ask tenant host port resolve =>
      let '(r, c') := Allow c tenant host port resolve now in
      (c', if is_ok r then (now, tenant, target_of host port) :: log else log)
  | Tidy => (Cleanup c now, log)
  end.

Definition out_run (st : OutboundControl * list (Z * string * string)) (ops : list (Z * OutOp)) :=
  foldl (λ st '(now, op), out_step now op st) st ops.

(** The clock does not go back. *)
Fixpoint clock_from (t : Z) (ops : list (Z * OutOp)) : Prop :=
  match ops with [] => True | (now, _) :: ops => t ≤ now ∧ clock_from now ops end.

(** The targets of a tenant that were allowed between two times. *)
Definition reached (tenant : string) (lo hi : Z) (log : list (Z * string * string)) : gset string :=
  list_to_set (omap (M := list) (λ '(t, tn, target),
    if (tn =s tenant) && (lo <=? t) && (t <=? hi) then Some target else None) log).

Lemma elem_of_reached tenant lo hi log target :
  target ∈ reached tenant lo hi log ↔ ∃ t, (t, tenant, target) ∈ log ∧ lo ≤ t ≤ hi.
Proof.
  unfold reached. rewrite elem_of_list_to_set, list_elem_of_omap. split.
  - intros ([[t tn] tg] & Hin & Hc). destruct (_ && _) eqn:E; [injection Hc as -> | done].
    apply andb_prop in E as [[?%seqb_eq ?]%andb_prop ?]. subst. exists t. split; [done | lia].
  - intros (t & Hin & ? & ?). exists (t, tenant, target). split; [done |].
    rewrite seqb_refl. destruct (Z.leb_spec lo t), (Z.leb_spec t hi); [done | lia..].
Qed.

Definition seen_by (c : OutboundControl) (tenant : string) : gmap string Z := default ∅ (oc_targets c !! tenant).

Definition within_budget (p : OutboundPolicy) (log : list (Z * string * string)) : Prop :=
  ∀ tenant t, Z.of_nat (size (reached tenant (t - op_Window p) t log)) ≤ op_MaxDistinctTargets p.

(** The table holds what was allowed in the window. *)
Record budget_inv (p : OutboundPolicy) (now : Z) (c : OutboundControl) (log : list (Z * string * string)) : Prop := {
  bi_policy : oc_policy c = p;
  bi_past : ∀ t tenant target, (t, tenant, target) ∈ log → t ≤ now;
  bi_kept : ∀ t tenant target, (t, tenant, target) ∈ log → now - op_Window p ≤ t →
    ∃ t', seen_by c tenant !! target = Some t' ∧ t ≤ t';
  bi_stamp : ∀ tenant target t, seen_by c tenant !! target = Some t → t ≤ now;
  bi_size : ∀ tenant, Z.of_nat (size (seen_by c tenant)) ≤ op_MaxDistinctTargets p;
  bi_budget : within_budget p log }.

Lemma aged_kept cutoff (m : gmap string Z) k v : m !! k = Some v → cutoff ≤ v → aged cutoff m !! k = Some v.
Proof. intros Hk Hv. by apply map_lookup_filter_Some. Qed.

Lemma aged_size cutoff (m : gmap string Z) : (size (aged cutoff m) ≤ size m)%nat.
Proof. unfold aged. apply map_subseteq_size, map_filter_subseteq. Qed.

(** Time passes. *)
Lemma budget_later p now now' c log : budget_inv p now c log → now ≤ now' → budget_inv p now' c log.
Proof.
  intros [H1 H2 H3 Hv H4 H5] Hle. split; try done.
  - intros t tenant target Hin. specialize (H2 _ _ _ Hin). lia.
  - intros t tenant target Hin Ht. apply (H3 _ _ _ Hin). lia.
  - intros tenant target t Hl. specialize (Hv _ _ _ Hl). lia.
Qed.

(** A table keeps what the window needs: the targets not aged out, with their times
    or a later one. *)
Definition covers (cutoff : Z) (m m' : gmap string Z) : Prop :=
  ∀ k v, m !! k = Some v → cutoff ≤ v → ∃ v', m' !! k = Some v' ∧ v ≤ v'.

Lemma aged_covers cutoff m : covers cutoff m (aged cutoff m).
Proof. intros k v Hk Hv. exists v. split; [by apply aged_kept | lia]. Qed.

Lemma aged_stamp cutoff (m : gmap string Z) k v : aged cutoff m !! k = Some v → m !! k = Some v.
Proof. by intros [? _]%map_lookup_filter_Some. Qed.

(** The tables change to others that cover them and are no larger than allowed. *)
Lemma budget_tables p now c c' log : budget_inv p now c log → oc_policy c' = p →
  (∀ tenant, covers (now - op_Window p) (seen_by c tenant) (seen_by c' tenant)) →
  (∀ tenant target t, seen_by c' tenant !! target = Some t → t ≤ now) →
  (∀ tenant, Z.of_nat (size (seen_by c' tenant)) ≤ op_MaxDistinctTargets p) →
  budget_inv p now c' log.
Proof.
  intros [H1 H2 H3 Hv H4 H5] Hp Hc Ht Hs. split; try done. intros t tn target Hin Hle.
  destruct (H3 _ _ _ Hin Hle) as (t' & Hl & ?). destruct (Hc tn _ _ Hl) as (v' & Hv' & ?); [lia |].
  exists v'. split; [done | lia].
Qed.

Lemma seen_by_store c tenant m tn :
  seen_by (c {{ oc_targets := <[tenant := m]> (oc_targets c) }}) tn = if decide (tn = tenant) then m else seen_by c tn.
Proof.
  unfold seen_by. cbn. unfold constant. destruct (decide (tn = tenant)) as [-> |];
    [by rewrite lookup_insert_eq | by rewrite lookup_insert_ne].
Qed.

(** One tenant's table changes. *)
Lemma budget_store p now c log tenant (m : gmap string Z) : budget_inv p now c log →
  covers (now - op_Window p) (seen_by c tenant) m → (∀ k t, m !! k = Some t → t ≤ now) →
  Z.of_nat (size m) ≤ op_MaxDistinctTargets p →
  budget_inv p now (c {{ oc_targets := <[tenant := m]> (oc_targets c) }}) log.
Proof.
  intros Hi Hm Ht Hs. pose proof Hi as [H1 _ _ Hv H4 _]. apply (budget_tables p now c); [done | done | ..];
    intros tn; rewrite seen_by_store; case_decide; subst; try done.
  - intros k v Hk _. exists v. split; [done | lia].
  - eauto.
Qed.

(** A target is allowed that is in the table now. *)
Lemma budget_log p now c log tenant target : 0 < op_Window p → budget_inv p now c log →
  seen_by c tenant !! target = Some now → budget_inv p now c ((now, tenant, target) :: log).
Proof.
  intros Hw [H1 H2 H3 Hv H4 H5] Ht. assert (∀ t tn tg, (t, tn, tg) ∈ (now, tenant, target) :: log → now - op_Window p ≤ t →
    ∃ t', seen_by c tn !! tg = Some t' ∧ t ≤ t') as Hk.
  { intros t tn tg [[= -> -> ->] | Hin]%elem_of_cons Hle; [by exists now | by apply H3]. }
  split; try done.
  - intros t tn tg [[= -> -> ->] | Hin]%elem_of_cons; [lia | by eapply H2].
  - intros tn t. destruct (decide (t - op_Window p ≤ now ≤ t)) as [Hin | Hout].
    + etrans; [| apply (H4 tn)]. apply inj_le. rewrite <-(size_dom (D := gset string)). apply subseteq_size. intros tg.
      rewrite elem_of_reached, elem_of_dom. intros (t1 & Hi & ?). destruct (Hk _ _ _ Hi) as (t' & -> & _); [| done].
      apply elem_of_cons in Hi as [[= -> _ _] | Hi]; [lia |]. specialize (H2 _ _ _ Hi). lia.
    + etrans; [| apply (H5 tn t)]. apply inj_le, subseteq_size. intros tg. rewrite !elem_of_reached.
      intros (t1 & [[= -> -> ->] | Hi]%elem_of_cons & ?); [lia | by exists t1].
Qed.

(** A target is entered in a table that was aged. *)
Lemma covers_insert now cutoff (m : gmap string Z) k :
  (∀ k t, m !! k = Some t → t ≤ now) → covers cutoff m (<[k := now]> (aged cutoff m)).
Proof.
  intros Hv k' v Hk Hle. destruct (decide (k' = k)) as [-> | Hne].
  - exists now. rewrite lookup_insert_eq. split; [done |]. by apply (Hv k).
  - rewrite lookup_insert_ne by done. by apply aged_covers.
Qed.

Lemma stamp_insert now (m : gmap string Z) k : (∀ k t, m !! k = Some t → t ≤ now) →
  ∀ k' t, <[k := now]> m !! k' = Some t → t ≤ now.
Proof. intros Hv k' t [[_ <-] | [_ Hl]]%lookup_insert_Some; [lia | by apply (Hv k')]. Qed.

(** A tenant's target is recorded and allowed. *)
Lemma budget_enter p now c log tenant target :
  0 < op_Window p → budget_inv p now c log →
  let m := <[target := now]> (aged (now - op_Window p) (seen_by c tenant)) in
  Z.of_nat (size m) ≤ op_MaxDistinctTargets p →
  budget_inv p now (c {{ oc_targets := <[tenant := m]> (oc_targets c) }}) ((now, tenant, target) :: log).
Proof.
  intros Hw Hi m Hs. pose proof (bi_stamp _ _ _ _ Hi tenant) as Hv. apply budget_log; [done | |].
  - apply budget_store; [done | by apply covers_insert | | done].
    apply stamp_insert. intros k t ?%aged_stamp. by apply (Hv k).
  - rewrite seen_by_store, decide_True by done. apply lookup_insert_eq.
Qed.

Lemma budget_ask p now c log tenant host port resolve :
  0 < op_MaxDistinctTargets p → 0 < op_Window p → budget_inv p now c log →
  let '(c', log') := out_step now (Ask tenant host port resolve) (c, log) in budget_inv p now c' log'.
Proof.
  intros Hmax Hw Hi. pose proof Hi as [Hp _ _ Hv Hs _]. cbn [out_step]. unfold Allow.
  destruct (tenant =s ""); [done |]. destruct (CheckDestination c host port resolve) as [[] | e]; [| done].
  rewrite Hp. destruct (Z.leb_spec (op_MaxDistinctTargets p) 0), (Z.leb_spec (op_Window p) 0); try lia.
  cbn [orb]. cbv zeta. fold (seen_by c tenant). fold (target_of host port).
  pose proof (aged_size (now - op_Window p) (seen_by c tenant)) as Ha. specialize (Hs tenant).
  destruct (aged _ _ !! target_of host port) eqn:E; [| destruct (Z.leb_spec (op_MaxDistinctTargets p) (Z.of_nat (size (aged (now - op_Window p) (seen_by c tenant)))))].
  - apply budget_enter; [done | done |]. rewrite map_size_insert_Some by done. lia.
  - apply budget_store; [done | apply aged_covers | | lia]. intros k t ?%aged_stamp. by apply (Hv tenant k).
  - apply budget_enter; [done | done |]. rewrite map_size_insert_None by done. lia.
Qed.

Lemma budget_tidy p now c log : 0 < op_Window p → budget_inv p now c log → budget_inv p now (Cleanup c now) log.
Proof.
  intros Hw Hi. pose proof Hi as [Hp _ _ Hv Hs _]. unfold Cleanup. rewrite Hp.
  destruct (Z.leb_spec (op_Window p) 0); [lia |]. set (c' := c {{ oc_targets := _ }}).
  assert (∀ tn, seen_by c' tn = aged (now - op_Window p) (seen_by c tn)) as E.
  { intros tn. unfold seen_by, c'. cbn. unfold constant. rewrite lookup_omap.
    destruct (oc_targets c !! tn) as [m |]; cbn; [| unfold aged; by rewrite map_filter_empty].
    case_match eqn:Z; [| done]. apply Nat.eqb_eq, map_size_empty_iff in Z. by rewrite Z. }
  apply (budget_tables p now c); [done | done | ..]; intros tn; rewrite E.
  - apply aged_covers.
  - intros k t ?%aged_stamp. by apply (Hv tn k).
  - etrans; [| apply (Hs tn)]. apply inj_le, aged_size.
Qed.

Lemma budget_run p ops : 0 < op_MaxDistinctTargets p → 0 < op_Window p →
  ∀ now c log, budget_inv p now c log → clock_from now ops → within_budget p (snd (out_run (c, log) ops)).
Proof.
  intros Hmax Hw. induction ops as [| [now' op] ops IH]; intros now c log Hi Hc.
  { exact (bi_budget _ _ _ _ Hi). }
  destruct Hc as [Hle Hc]. apply (budget_later _ _ now') in Hi; [| done]. cbn [out_run foldl].
  fold (out_run (out_step now' op (c, log)) ops). destruct op as [tn host port resolve |].
  - pose proof (budget_ask p now' c log tn host port resolve Hmax Hw Hi) as Hn.
    destruct (out_step now' (Ask tn host port resolve) (c, log)) as [c' log']. by apply (IH now').
  - apply (IH now'); [by apply budget_tidy | done].
Qed.

(** C26: as long as the clock does not go back, a tenant is allowed no more distinct targets
    (host and port) in any span of one window than the policy's maximum, whatever the requests of the
    tenants and the clean-ups in between, on a control that starts empty. *)
Theorem outbound_within_budget (p : OutboundPolicy) (ops : list (Z * OutOp)) start :
  0 < op_MaxDistinctTargets p → 0 < op_Window p → clock_from start ops →
  within_budget p (snd (out_run (NewOutboundControl p, []) ops)).
Proof.
  intros Hmax Hw Hc. apply (budget_run p ops Hmax Hw start); [| done].
  split; [done | by intros ??? ?%elem_of_nil | by intros ??? ?%elem_of_nil | done | |].
  - intros tn. unfold seen_by. cbn. rewrite lookup_empty. cbn. rewrite map_size_empty. lia.
  - intros tn t. unfold reached. cbn. rewrite size_empty. lia.
Qed.
End budget.

(** * Lockout holds *)

Inductive LockOp := LFail (key : string) | LSucceed (key : string) | LTidy.

Definition lock_step (l : Lockout) (at_op : Z * LockOp) : Lockout :=
  let '(now, op) := at_op in
  match op with
  | LFail key => snd (Fail_ l key now)
  | LSucceed key => Succeed_ l key
  | LTidy => LockoutCleanup l now
  end.

Definition lock_run (l : Lockout) (ops : list (Z * LockOp)) : Lockout := foldl lock_step l ops.

(** The times at which a key failed. *)
Definition failures_of (key : string) (ops : list (Z * LockOp)) : list Z :=
  omap (M := list) (λ '(now, op), match op with LFail k => if k =s key then Some now else None | _ => None end) ops.

(** What is recorded of a key that failed at these times, within one window. *)
Definition record_of (p : LockoutPolicy) (times : list Z) : option lockoutEntry :=
  match head times, last times with
  | Some first, Some latest =>
      let n := Z.of_nat (length times) in
      Some (mklockoutEntry n first latest (if lp_Threshold p <=? n then Some (latest + lp_Duration p) else None))
  | _, _ => None
  end.

Definition spared (key : string) (at_op : Z * LockOp) : Prop := at_op.2 ≠ LSucceed key.
Definition untouched (key : string) (at_op : Z * LockOp) : Prop := at_op.2 ≠ LFail key ∧ at_op.2 ≠ LSucceed key.

Section lockout.
Context (p : LockoutPolicy) (key : string).
Context (Hthr : 0 < lp_Threshold p) (Hdur : 0 < lp_Duration p) (Hwin : 0 < lp_Window p ≤ max_int64).
Context (Hkey : key ≠ "").

Lemma last_range (start stop : Z) (times : list Z) t :
  last times = Some t → Forall (λ t, start ≤ t ≤ stop) times → start ≤ t ≤ stop.
Proof. intros Hl Hf. rewrite Forall_forall in Hf. by apply Hf, last_Some_elem_of. Qed.

(** One more failure in the window extends the record. *)
Lemma record_fail start times now : Forall (λ t, start ≤ t ≤ start + lp_Window p) times →
  start ≤ now ≤ start + lp_Window p → Z.of_nat (length times) < max_int64 →
  Some (failedEntry p (record_of p times) now) = record_of p (times ++ [now]).
Proof using Hthr Hdur Hwin.
  intros Hf Hn Hl. unfold record_of. rewrite last_snoc, length_app. cbn [length].
  unfold failedEntry. destruct (Z.ltb_spec 0 (lp_Threshold p)); [| lia]. destruct (Z.ltb_spec 0 (lp_Duration p)); [| lia].
  destruct times as [| first rest]; cbn [app head].
  { cbn. unfold constant. destruct (_ <=? _); [done | done]. }
  destruct (last (first :: rest)) as [latest |] eqn:E; [| by apply last_None in E].
  apply Forall_cons in Hf as [Hfst _]. destruct (Z.ltb_spec 0 (lp_Window p)); [| lia].
  cbn [andb le_first]. destruct (Z.ltb_spec (lp_Window p) (time_Sub now first)) as [Hbad |].
  { exfalso. unfold time_Sub in Hbad. revert Hbad Hwin. unfold max_int64, min_int64. lia. }
  cbv zeta. cbn -[Z.of_nat Nat.add length]. unfold constant. rewrite wrap64_id by (split; unfold min_int64; lia).
  rewrite andb_true_r. replace (Z.of_nat (length (first :: rest) + 1)) with (Z.of_nat (length (first :: rest)) + 1) by lia.
  destruct (Z.leb_spec (lp_Threshold p) (Z.of_nat (length (first :: rest)) + 1)); [done |].
  destruct (Z.leb_spec (lp_Threshold p) (Z.of_nat (length (first :: rest)))); [lia | done].
Qed.

(** The clean-up keeps a record of the window. *)
Lemma record_fresh start times now e : Forall (λ t, start ≤ t ≤ start + lp_Window p) times →
  start ≤ now ≤ start + lp_Window p → record_of p times = Some e → stale p now e = false.
Proof using Hwin.
  intros Hf Hn He. unfold record_of in He. destruct times as [| first rest]; [done |].
  destruct (last (first :: rest)) as [latest |] eqn:E; [injection He as <- | done].
  pose proof (last_range _ _ _ _ E Hf). unfold stale. cbn [le_last].
  destruct (Z.ltb_spec 0 (lp_Window p)); [| lia]. destruct (Z.leb_spec (time_Sub now latest) (lp_Window p)) as [| Hbad].
  { cbn. apply andb_false_r. }
  exfalso. unfold time_Sub in Hbad. revert Hbad Hwin. unfold max_int64, min_int64. lia.
Qed.

Lemma Succeed_other l k : k ≠ key → lo_entries (Succeed_ l k) !! key = lo_entries l !! key.
Proof. intros Hne. unfold Succeed_. cbn. unfold constant. by apply lookup_delete_ne. Qed.

Lemma Fail_other l k now : k ≠ key → lo_entries (snd (Fail_ l k now)) !! key = lo_entries l !! key.
Proof.
  intros Hne. unfold Fail_. destruct (k =s ""); [done |]. cbn. unfold constant. by apply lookup_insert_ne.
Qed.

Lemma Fail_same l now :
  lo_entries (snd (Fail_ l key now)) !! key = Some (failedEntry (lo_policy l) (lo_entries l !! key) now).
Proof using Hkey.
  unfold Fail_. apply seqb_neq in Hkey as ->. cbn. unfold constant. apply lookup_insert_eq.
Qed.

(** The clean-up leaves an entry that is not stale. *)
Lemma tidy_keeps l now e : lo_policy l = p →
  lo_entries l !! key = e → (∀ x, e = Some x → stale p now x = false) → lo_entries (LockoutCleanup l now) !! key = e.
Proof.
  intros Hp He Hs. unfold LockoutCleanup. cbn. unfold constant. rewrite Hp. destruct e as [x |].
  - apply map_lookup_filter_Some. split; [done |]. by apply Hs.
  - apply map_lookup_filter_None. by left.
Qed.

Lemma step_policy l o : lo_policy (lock_step l o) = lo_policy l.
Proof. destruct o as [now [k | k |]]; cbn; [| done | done]. unfold Fail_. by destruct (k =s ""). Qed.

(** What a tracker records of a key while a window lasts. *)
Lemma lock_run_records start ops :
  Forall (λ o, start ≤ o.1 ≤ start + lp_Window p) ops → Forall (spared key) ops →
  ∀ l times, lo_policy l = p → lo_entries l !! key = record_of p times →
  Forall (λ t, start ≤ t ≤ start + lp_Window p) times → Z.of_nat (length times + length ops) ≤ max_int64 →
  lo_policy (lock_run l ops) = p ∧
  lo_entries (lock_run l ops) !! key = record_of p (times ++ failures_of key ops).
Proof using Hthr Hdur Hwin Hkey.
  induction ops as [| [now op] ops IH]; intros Hr Hs l times Hp He Hf Hlen; cbn [lock_run foldl].
  { cbn. by rewrite app_nil_r. }
  apply Forall_cons in Hr as [Hnow Hr], Hs as [Hop Hs]. cbn in Hnow, Hop. cbn [length] in Hlen.
  assert (lo_policy (lock_step l (now, op)) = p) as Hp' by (by rewrite step_policy).
  fold (lock_run (lock_step l (now, op)) ops).
  destruct op as [k | k |]; cbn [failures_of omap list_omap].
  - destruct (String.eqb_spec k key) as [-> | Hne].
    + destruct (IH Hr Hs (lock_step l (now, LFail key)) (times ++ [now]) Hp') as [? E].
      * cbn [lock_step]. rewrite Fail_same, Hp, He. by apply (record_fail start); [.. | lia].
      * apply Forall_app. split; [done | by apply Forall_singleton].
      * rewrite length_app. cbn [length]. lia.
      * split; [done |]. rewrite E, <-app_assoc. done.
    + apply IH; [done | done | done | | done | lia]. cbn [lock_step]. by rewrite Fail_other.
  - apply IH; [done | done | done | | done | lia]. cbn [lock_step]. rewrite Succeed_other; [done |].
    intros ->. by apply Hop.
  - apply IH; [done | done | done | | done | lia]. cbn [lock_step]. apply tidy_keeps; [done | done |].
    intros x Hx. by apply (record_fresh start times).
Qed.

(** What is locked stays so until its time. *)
Lemma lock_run_keeps e until ops : le_until e = Some until →
  Forall (λ o, o.1 < until) ops → Forall (untouched key) ops →
  ∀ l, lo_policy l = p → lo_entries l !! key = Some e → lo_entries (lock_run l ops) !! key = Some e.
Proof using Type.
  clear Hthr Hdur Hwin Hkey. intros Hu. induction ops as [| [now op] ops IH]; intros Hr Hs l Hp He; [done |].
  apply Forall_cons in Hr as [Hnow Hr], Hs as [[Hf Hsu] Hs]. cbn in Hnow, Hf, Hsu. cbn [lock_run foldl].
  apply IH; [done | done | by rewrite step_policy |]. destruct op as [k | k |]; cbn [lock_step].
  - rewrite Fail_other; [done |]. by intros ->.
  - rewrite Succeed_other; [done |]. by intros ->.
  - apply tidy_keeps; [done | done |]. intros x [= <-]. unfold stale, before_until. rewrite Hu.
    by destruct (Z.ltb_spec now until); [| lia].
Qed.
End lockout.

(** Once a key has failed as often as the policy's threshold within one window, with no
    success in between, whatever happens to other keys and however often the clean-up runs, it is locked
    out until the policy's duration after the last failure: every check of the key before that time is
    refused, also after further calls for other keys and clean-ups; and the number of failures recorded
    is the number that happened. *)
Theorem lockout_holds (p : LockoutPolicy) key l start ops latest more now :
  0 < lp_Threshold p → 0 < lp_Duration p → 0 < lp_Window p ≤ max_int64 → key ≠ "" →
  lo_policy l = p → lo_entries l !! key = None →
  Forall (λ o, start ≤ o.1 ≤ start + lp_Window p) ops → Forall (spared key) ops →
  Z.of_nat (length ops) ≤ max_int64 →
  lp_Threshold p ≤ Z.of_nat (length (failures_of key ops)) → last (failures_of key ops) = Some latest →
  Forall (λ o, o.1 < latest + lp_Duration p) more → Forall (untouched key) more →
  now < latest + lp_Duration p →
  LockoutCheck (lock_run (lock_run l ops) more) key now = deny ReasonLockedOut ∧
  Failures (lock_run (lock_run l ops) more) key = Z.of_nat (length (failures_of key ops)).
Proof.
  intros Ht Hd Hw Hk Hp He Hr Hs Hlen Hn Hl Hm Hu Hnow.
  destruct (lock_run_records p key Ht Hd Hw Hk start ops Hr Hs l [] Hp He (Forall_nil_2 _) Hlen) as [Hp' E].
  cbn [app] in E. unfold record_of in E. destruct (failures_of key ops) as [| f fs] eqn:Ef; [done |].
  cbn [head] in E. rewrite Hl in E. cbv zeta in E.
  destruct (Z.leb_spec (lp_Threshold p) (Z.of_nat (length (f :: fs)))); [| lia].
  pose proof (λ Hl, lock_run_keeps p key _ (latest + lp_Duration p) more Hl Hm Hu _ Hp' E) as E'.
  specialize (E' eq_refl).
  unfold LockoutCheck, Failures. apply seqb_neq in Hk. rewrite Hk, E'. unfold before_until. cbn [le_until].
  by destruct (Z.ltb_spec now (latest + lp_Duration p)); [| lia].
Qed.

Lemma lockout_holds_witness :
  let ops := [(0, LFail "bob"); (5, LFail "eve"); (7, LTidy); (9, LFail "bob")] in
  let l := NewLockout (mkLockoutPolicy 2 100 50 1 8) in
  LockoutCheck (lock_run (lock_run l ops) [(40, LSucceed "eve"); (58, LTidy)]) "bob" 58 = deny ReasonLockedOut ∧
  Failures (lock_run (lock_run l ops) [(40, LSucceed "eve"); (58, LTidy)]) "bob" = 2.
Proof.
  apply (lockout_holds (mkLockoutPolicy 2 100 50 1 8) "bob" (NewLockout (mkLockoutPolicy 2 100 50 1 8)) 0
    [(0, LFail "bob"); (5, LFail "eve"); (7, LTidy); (9, LFail "bob")] 9 [(40, LSucceed "eve"); (58, LTidy)] 58);
    cbn; unfold max_int64, spared, untouched; try lia; try done; try (by repeat constructor).
  all: repeat (apply Forall_cons; split; [cbn; first [lia | done | by split] |]); apply Forall_nil_2.
Defined.

(** A failure that arrives more than a window after the first one starts a new record,
    and with it lifts a lockout that is running: here the key is locked until 69
    and open again at 16. *)
Example late_failure_unlocks :
  let p := mkLockoutPolicy 2 15 60 1 8 in
  let locked := lock_run (NewLockout p) [(0, LFail "bob"); (9, LFail "bob")] in
  LockoutCheck locked "bob" 16 = deny ReasonLockedOut ∧
  LockoutCheck (lock_run locked [(16, LFail "bob")]) "bob" 16 = Ok ().
Proof. by vm_compute. Qed.

(** Without a maximum the doubling overflows: the back-off of the 64th failure is none. *)
Example lockout_backoff_overflows : backoffOf (mkLockoutPolicy 0 0 0 (2 ^ 20) 0) 64 = 0.
Proof. by vm_compute. Qed.

Definition openUnicode : Unicode :=
  {| u_letter := λ _, false; u_digit := λ _, false; u_upper := λ r, r; u_lower := λ r, r |}.

Lemma outbound_within_budget_witness :
  let _ := openUnicode in let _ := {| parse_addr := λ _, None |} : ParseAddr in
  let p := mkOutboundPolicy [] 1 60 in let world := FixedResolver [[93; 184; 216; 34]] in
  let ops := [(0, Ask "t1" "a.example" 443 world); (1, Ask "t1" "b.example" 443 world); (2, Tidy);
              (61, Ask "t1" "b.example" 443 world)] in
  snd (out_run (NewOutboundControl p, []) ops) = [(61, "t1", "b.example:443"); (0, "t1", "a.example:443")] ∧
  within_budget p (snd (out_run (NewOutboundControl p, []) ops)).
Proof.
  intros U PA p world ops. split; [by vm_compute |].
  apply (outbound_within_budget p ops 0); [done | done |]. cbn. lia.
Defined.

(** Probing for names and accounts: [src/src/guard/enumeration.go].

    The clock is read once per call; a sleep is the time that is slept. *)

Definition StatusAvailable : string := "available".
Definition StatusUnavailable : string := "unavailable".
Definition StatusReserved : string := "reserved".

Definition MinAuthResponseTime : Z := 350 * Millisecond.

(** The answer with the error of the storage, if there is one. *)
Definition CheckNameAvailability (name : string) (blocked : option (string → bool))
    (taken : option (string → Result error bool)) : string * option error :=
  if match blocked with Some f => f name | None => false end then (StatusReserved, None) else
  if negb (is_ok (ValidateUsername name)) then (StatusUnavailable, None) else
  match taken with
  | None => (StatusUnavailable, None)
  | Some f =>
      match f name with
      | Err err => (StatusUnavailable, Some err)
      | Ok claimed => if claimed : bool then (StatusUnavailable, None) else (StatusAvailable, None)
      end
  end.

(** What [Pacer.sleep] sleeps. *)
Definition slept (d : Z) : Z := if d <=? 0 then 0 else d.

Definition PadTo (start minimum now : Z) : Z :=
  if minimum <=? 0 then 0 else slept (minimum -! time_Sub now start).

Definition PadAuth (start now : Z) : Z := PadTo start MinAuthResponseTime now.

(** The decoy: none before its first use, then what the first use computed, which is
    empty when [compute] failed.  [compute] stands for [security.RandomSecret] and
    [security.HashPassword]. *)
Definition decoy (hash : option string) (compute : option string) : string * option string :=
  match hash with
  | Some h => (h, hash)
  | None => let h := default "" compute in (h, Some h)
  end.

(** Whether the password is right and is to be hashed anew, with the hashes that were
    verified on the way and the decoy; [verify] is [security.VerifyPassword]. *)
Definition VerifyOrDecoy (verify : string → string → option (bool * bool)) (compute hash : option string)
    (encodedHash password : string) : bool * bool * list string * option string :=
  if encodedHash =s "" then
    let '(d, hash) := decoy hash compute in
    (false, false, if negb (d =s "") then [d] else [], hash)
  else
  match verify encodedHash password with
  | None => (false, false, [encodedHash], hash)
  | Some (valid, rehash) => (valid, rehash, [encodedHash], hash)
  end.

Definition UniformNotFound : DenyError := Deny ReasonCrossTenant.
Definition UniformAuthFailure : DenyError := Deny ReasonSubjectInvalid.

(** A padded answer takes the minimum at least, and exactly the minimum if the work
    was done by then. *)
Theorem PadTo_floor start minimum now : 0 ≤ minimum ≤ max_int64 → start ≤ now →
  now + PadTo start minimum now = Z.max now (start + minimum).
Proof.
  intros Hm Hn. unfold PadTo, slept. destruct (Z.leb_spec minimum 0); [lia |].
  unfold time_Sub. rewrite wrap64_id.
  - destruct (Z.leb_spec (minimum - Z.max min_int64 (Z.min max_int64 (now - start))) 0); revert Hm; unfold min_int64, max_int64 in *; lia.
  - revert Hm. unfold in_int64, min_int64, max_int64. lia.
Qed.

(** A name is offered only when it is not reserved, is well-formed and storage
    answered that it is free; every other name that is not reserved gets the same
    answer. *)
Theorem availability_coarse name blocked taken :
  (fst (CheckNameAvailability name blocked taken) = StatusAvailable ↔
     default (λ _, false) blocked name = false ∧ ValidateUsername name = Ok () ∧
     ∃ f, taken = Some f ∧ f name = Ok false) ∧
  (default (λ _, false) blocked name = false →
     fst (CheckNameAvailability name blocked taken) = StatusAvailable ∨
     fst (CheckNameAvailability name blocked taken) = StatusUnavailable).
Proof.
  unfold CheckNameAvailability. replace (match blocked with Some f => f name | None => false end)
    with (default (λ _, false) blocked name) by (by destruct blocked).
  destruct (default _ blocked name); [by split; [split; [| intros [? _]] |] |].
  destruct (ValidateUsername name) as [[] |]; cbn [negb is_ok]; [| by split; [split; [| intros (_ & ? & _)] | right]].
  destruct taken as [f |]; [| split; [split; [done | by intros (_ & _ & ? & ? & _)] | by right]].
  destruct (f name) as [[] |] eqn:E; cbn; (split; [split; [done || eauto 6 | intros (_ & _ & g & [= <-] & Eg); congruence || done] | by eauto]).
Qed.

(** When the decoy could not be computed once, unknown accounts cost no work from then on. *)
Example decoy_lost :
  let verify := λ _ _, Some (true, false) in
  let '(_, hash) := VerifyOrDecoy verify None None "" "pw" in VerifyOrDecoy verify (Some "argon2") hash "" "pw" =
    (false, false, [], Some "").
Proof. by vm_compute. Qed.
