(* ===== verification/GuardWebhook.v ===== *)
(** Signed deliveries: [src/src/guard/webhook.go].

    Bytes are integers; a MAC is what the class [Mac] answers for a key and a
    payload.  The zero time is [None].  [hex] and [base64] are those of Go's
    library, which skips line breaks in base64 and does not look at the bits of
    padding. *)
From stdpp Require Import prelude strings list gmap.
From Stdlib Require Import ZArith Lia Ascii Sorted.
From coqutil Require Export Datatypes.RecordSetters.
From S2P Require Import Prelude GoTime Errors Sql Text Guard GuardQuota.
Export DoubleBraceUpdate.

(** * Encodings *)

Definition hexDigit (n : Z) : ascii := chr (if n <? 10 then 48 + n else 87 + n).

Definition hexValue (c : ascii) : option Z :=
  let b := byte c in
  if between 48 b 57 then Some (b - 48) else
  if between 97 b 102 then Some (b - 87) else
  if between 65 b 70 then Some (b - 55) else None.

Fixpoint hexEncode (bs : list Z) : string :=
  match bs with [] => "" | b :: bs => String (hexDigit (b / 16)) (String (hexDigit (b mod 16)) (hexEncode bs)) end.

Fixpoint hexDecode (s : string) : option (list Z) :=
  match s with
  | EmptyString => Some []
  | String _ EmptyString => None
  | String a (String b s) =>
      x ← hexValue a; y ← hexValue b; rest ← hexDecode s; Some (x * 16 + y :: rest)
  end.

Definition digit64 (n : Z) : ascii :=
  chr (if n <? 26 then 65 + n else if n <? 52 then 71 + n else if n <? 62 then n - 4 else if n =? 62 then 43 else 47).

Definition value64 (c : ascii) : option Z :=
  let b := byte c in
  if between 65 b 90 then Some (b - 65) else
  if between 97 b 122 then Some (b - 71) else
  if between 48 b 57 then Some (b + 4) else
  if b =? 43 then Some 62 else if b =? 47 then Some 63 else None.

Fixpoint base64Encode (bs : list Z) : string :=
  match bs with
  | [] => ""
  | [a] => String (digit64 (a / 4)) (String (digit64 (a mod 4 * 16)) "==")
  | [a; b] => String (digit64 (a / 4)) (String (digit64 (a mod 4 * 16 + b / 16)) (String (digit64 (b mod 16 * 4)) "="))
  | a :: b :: c :: rest =>
      String (digit64 (a / 4)) (String (digit64 (a mod 4 * 16 + b / 16))
        (String (digit64 (b mod 16 * 4 + c / 64)) (String (digit64 (c mod 64)) (base64Encode rest))))
  end.

Fixpoint without_breaks (s : string) : string :=
  match s with
  | EmptyString => ""
  | String c s => if (byte c =? 10) || (byte c =? 13) then without_breaks s else String c (without_breaks s)
  end.

Fixpoint quanta (s : string) : option (list Z) :=
  match s with
  | EmptyString => Some []
  | String a (String b (String c (String d s))) =>
      x ← value64 a; y ← value64 b;
      if byte c =? 61 then
        if (byte d =? 61) && (s =s "") then Some [x * 4 + y / 16] else None
      else
        z ← value64 c;
        if byte d =? 61 then
          if s =s "" then Some [x * 4 + y / 16; y mod 16 * 16 + z / 4] else None
        else
          w ← value64 d; rest ← quanta s;
          Some (x * 4 + y / 16 :: y mod 16 * 16 + z / 4 :: z mod 4 * 64 + w :: rest)
  | _ => None
  end.

Definition base64Decode (s : string) : option (list Z) := quanta (without_breaks s).

(** * Signatures *)

Definition SignatureHMACSHA256 : string := "hmac-sha256".
Definition SignatureHMACSHA512 : string := "hmac-sha512".

Definition EncodingHex : string := "hex".
Definition EncodingBase64 : string := "base64".

Definition DefaultWebhookTolerance : Z := 5 * Minute.

Record WebhookPolicy := mkWebhookPolicy { wp_Algorithm : string; wp_Encoding : string; wp_Tolerance : Z }.

(** The MACs of crypto/hmac; they are 32 and 64 bytes long. *)
Class Mac := { mac256 : string → string → list Z; mac512 : string → string → list Z }.

Class MacLaws `{Mac} := {
  mac256_bytes k m : length (mac256 k m) = 32%nat ∧ Forall (λ b, 0 ≤ b < 256) (mac256 k m);
  mac512_bytes k m : length (mac512 k m) = 64%nat ∧ Forall (λ b, 0 ≤ b < 256) (mac512 k m) }.

Section webhook.
Context {U : Unicode} {M : Mac}.

Definition signPayload (algorithm secret payload : string) : Checked (list Z) :=
  if algorithm =s SignatureHMACSHA256 then Ok (mac256 secret payload) else
  if algorithm =s SignatureHMACSHA512 then Ok (mac512 secret payload) else deny ReasonSignatureInvalid.

Definition decodeSignature (encoding provided : string) : Checked (list Z) :=
  let decoded raw := match raw with
                     | None => deny ReasonSignatureInvalid
                     | Some [] => deny ReasonSignatureInvalid
                     | Some raw => Ok raw
                     end in
  if encoding =s EncodingBase64 then decoded (base64Decode provided) else
  if (encoding =s EncodingHex) || (encoding =s "") then decoded (hexDecode (ToLowerU provided)) else
  deny ReasonSignatureInvalid.

Definition SignPayload (policy : WebhookPolicy) (secret payload : string) : Checked string :=
  try mac := signPayload (wp_Algorithm policy) secret payload in
  if wp_Encoding policy =s EncodingBase64 then Ok (base64Encode mac) else
  if (wp_Encoding policy =s EncodingHex) || (wp_Encoding policy =s "") then Ok (hexEncode mac) else
  deny ReasonSignatureInvalid.

Definition toleranceOf (policy : WebhookPolicy) : Z :=
  if wp_Tolerance policy <=? 0 then DefaultWebhookTolerance else wp_Tolerance policy.

Definition driftOf (timestamp now : Z) : Z :=
  let drift := time_Sub now timestamp in
  if drift <? 0 then 0 -! drift else drift.

Definition VerifyWebhook (policy : WebhookPolicy) (secret signedPayload providedSignature : string)
    (timestamp : option Z) (now : Z) : Checked () :=
  if secret =s "" then deny ReasonSignatureInvalid else
  if slen signedPayload =? 0 then deny ReasonSignatureInvalid else
  let providedSignature := TrimSpaceU providedSignature in
  if providedSignature =s "" then deny ReasonSignatureInvalid else
  match timestamp with
  | None => deny ReasonReplay
  | Some timestamp =>
      if toleranceOf policy <? driftOf timestamp now then deny ReasonReplay else
      try expected := signPayload (wp_Algorithm policy) secret signedPayload in
      try provided := decodeSignature (wp_Encoding policy) providedSignature in
      if negb (bool_decide (expected = provided)) then deny ReasonSignatureInvalid else Ok ()
  end.
End webhook.

(** * Replays *)

Record ReplayGuard := mkReplayGuard { rg_retention : Z; rg_seen : gmap string Z }.

Definition NewReplayGuard (retention : Z) : ReplayGuard :=
  mkReplayGuard (if retention <=? 0 then 2 * DefaultWebhookTolerance else retention) ∅.

Definition NUL : ascii := "000".

Definition replayKey (provider eventID : string) : string := provider +:+ String NUL eventID.

Definition Claim (g : ReplayGuard) (provider eventID : string) (now : Z) : Checked () * ReplayGuard :=
  if (provider =s "") || (eventID =s "") then (deny ReasonReplay, g) else
  let key := replayKey provider eventID in
  let seen := aged (now - rg_retention g) (rg_seen g) in
  match seen !! key with
  | Some _ => (deny ReasonReplay, g {{ rg_seen := seen }})
  | None => (Ok (), g {{ rg_seen := <[key := now]> seen }})
  end.

Definition ReplayCleanup (g : ReplayGuard) (now : Z) : ReplayGuard :=
  g {{ rg_seen := aged (now - rg_retention g) (rg_seen g) }}.

(** * Round trips *)

Lemma hexValue_digit n : 0 ≤ n < 16 → hexValue (hexDigit n) = Some n.
Proof.
  intros Hn. unfold hexValue, hexDigit. destruct (Z.ltb_spec n 10); rewrite byte_chr by lia; unfold between; repeat case_match; f_equal; lia.
Qed.

Lemma value64_digit n : 0 ≤ n < 64 → value64 (digit64 n) = Some n ∧ byte (digit64 n) ≠ 61 ∧ 33 ≤ byte (digit64 n) < 127.
Proof.
  intros Hn. unfold value64, digit64.
  destruct (Z.ltb_spec n 26), (Z.ltb_spec n 52), (Z.ltb_spec n 62), (Z.eqb_spec n 62); try lia;
    rewrite byte_chr by lia; unfold between; (split; [repeat case_match; try done; f_equal; lia | lia]).
Qed.

Lemma hex_roundtrip bs : Forall (λ b, 0 ≤ b < 256) bs → hexDecode (hexEncode bs) = Some bs.
Proof.
  induction 1 as [| b bs Hb _ IH]; [done |]. cbn [hexEncode hexDecode].
  rewrite !hexValue_digit by (Z.to_euclidean_division_equations; lia). cbn. rewrite IH. cbn. do 2 f_equal.
  Z.to_euclidean_division_equations; lia.
Qed.

Ltac divmod := Z.to_euclidean_division_equations; lia.

(** Printable text has no line breaks, and nothing to trim. *)
Definition printable (s : string) : Prop := every (λ b, between 33 b 126) s = true.

Lemma printable_cons c s : printable (String c s) ↔ 33 ≤ byte c < 127 ∧ printable s.
Proof. unfold printable. cbn. rewrite andb_true_iff. unfold between. split; intros [? ?]; (split; [lia | done]). Qed.

Lemma without_breaks_printable s : printable s → without_breaks s = s.
Proof.
  induction s as [| c s IH]; [done |]. intros [Hc Hs]%printable_cons. cbn. rewrite IH by done.
  by destruct (Z.eqb_spec (byte c) 10), (Z.eqb_spec (byte c) 13); [lia.. |].
Qed.

Lemma base64_printable : ∀ bs, Forall (λ b, 0 ≤ b < 256) bs → printable (base64Encode bs).
Proof.
  fix IH 1. intros [| a [| b [| c bs]]] Hb; [done | | |]; decompose_Forall_hyps; cbn [base64Encode];
    rewrite !printable_cons; split_and!; try apply value64_digit; try divmod; try done; try (vm_compute; split; congruence).
  by apply IH.
Qed.

Ltac read64 :=
  repeat match goal with |- context [value64 (digit64 ?n)] =>
    let E := fresh in let N := fresh in
    destruct (value64_digit n) as (E & N & _); [divmod |];
    rewrite E, ?(proj2 (Z.eqb_neq _ _) N); clear E N; cbn [mbind option_bind] end.

Lemma quanta_roundtrip : ∀ bs, Forall (λ b, 0 ≤ b < 256) bs → quanta (base64Encode bs) = Some bs.
Proof.
  fix IH 1. intros [| a [| b [| c bs]]] Hb; [done | | |]; decompose_Forall_hyps; cbn [base64Encode quanta].
  - read64. cbn. do 2 f_equal. divmod.
  - destruct (value64_digit (b mod 16 * 4)) as (E & N & _); [divmod |]. apply Z.eqb_neq in N. rewrite N. read64. cbn. do 3 f_equal; divmod.
  - rewrite IH by done. destruct (value64_digit (b mod 16 * 4 + c / 64)) as (E & N & _); [divmod |].
    apply Z.eqb_neq in N. rewrite N. destruct (value64_digit (c mod 64)) as (E' & N' & _); [divmod |].
    apply Z.eqb_neq in N'. rewrite N'. read64. do 4 f_equal; divmod.
Qed.

Lemma base64_roundtrip bs : Forall (λ b, 0 ≤ b < 256) bs → base64Decode (base64Encode bs) = Some bs.
Proof.
  intros Hb. unfold base64Decode. rewrite without_breaks_printable by (by apply base64_printable).
  by apply quanta_roundtrip.
Qed.

Lemma hex_char n : 0 ≤ n < 16 → let b := byte (hexDigit n) in 48 ≤ b ≤ 57 ∨ 97 ≤ b ≤ 102.
Proof. intros Hn. unfold hexDigit. destruct (Z.ltb_spec n 10); rewrite byte_chr by lia; lia. Qed.

(** Hexadecimal digits and lower-case letters: printable, and their own lower case. *)
Definition lower_hex (s : string) : Prop := every (λ b, between 48 b 57 || between 97 b 102) s = true.

Lemma lower_hex_cons c s : lower_hex (String c s) ↔ (48 ≤ byte c ≤ 57 ∨ 97 ≤ byte c ≤ 102) ∧ lower_hex s.
Proof. unfold lower_hex. cbn. rewrite andb_true_iff. unfold between. split; intros [? ?]; (split; [lia | done]). Qed.

Lemma hexEncode_lower bs : Forall (λ b, 0 ≤ b < 256) bs → lower_hex (hexEncode bs).
Proof.
  induction 1 as [| b bs Hb _ IH]; [done |]. cbn [hexEncode]. rewrite !lower_hex_cons.
  split_and!; [apply hex_char; divmod | apply hex_char; divmod | done].
Qed.

Lemma lower_hex_printable s : lower_hex s → printable s.
Proof.
  induction s as [| c s IH]; [done |]. intros [Hc Hs]%lower_hex_cons. apply printable_cons. split; [lia | by apply IH].
Qed.

Fixpoint bytes (s : string) : list Z := match s with EmptyString => [] | String c s => byte c :: bytes s end.

Lemma runes_printable s : printable s → runes s = bytes s.
Proof.
  induction s as [| c s IH]; [done |]. intros [Hc Hs]%printable_cons. cbn [runes bytes].
  destruct (Z.ltb_spec (byte c) 128); [| lia]. by rewrite IH.
Qed.

Lemma chr_byte c : chr (byte c) = c.
Proof. unfold chr, byte. rewrite N2Z.id. apply Ascii.ascii_N_embedding. Qed.

Lemma string_of_bytes s : printable s → string_of (bytes s) = s.
Proof.
  induction s as [| c s IH]; [done |]. intros [Hc Hs]%printable_cons. cbn [bytes string_of]. rewrite IH by done.
  unfold encodeRune, scalar, between. destruct (Z.leb_spec 0 (byte c)), (Z.leb_spec (byte c) 55295); try lia. cbn [andb orb].
  destruct (Z.ltb_spec (byte c) 128); [| lia]. cbn. by rewrite chr_byte.
Qed.

Lemma bytes_printable s : printable s → Forall (λ b, 33 ≤ b < 127) (bytes s).
Proof. induction s as [| c s IH]; [constructor |]. intros [Hc Hs]%printable_cons. constructor; [done | by apply IH]. Qed.

Lemma printable_not_space b : 33 ≤ b < 127 → IsSpace b = false.
Proof. intros Hb. unfold IsSpace, between. lia. Qed.

Lemma TrimSpace_printable s : printable s → TrimSpaceU s = s.
Proof.
  intros Hs. pose proof (bytes_printable s Hs) as Hb. rewrite Forall_forall in Hb. unfold TrimSpaceU.
  rewrite runes_printable, trim_id; [by apply string_of_bytes | | | done].
  - destruct (bytes s) as [| b r]; [done |]. apply printable_not_space, Hb. left.
  - destruct (last (bytes s)) as [b |] eqn:E; [| done]. by apply printable_not_space, Hb, last_Some_elem_of.
Qed.

Lemma ToLower_hex {U : Unicode} s : lower_hex s → ToLowerU s = s.
Proof.
  intros Hs. unfold ToLowerU. rewrite runes_printable by (by apply lower_hex_printable).
  rewrite <-(string_of_bytes s) at 2 by (by apply lower_hex_printable). f_equal.
  induction s as [| c s IH]; [done |]. apply lower_hex_cons in Hs as [Hc Hs]. cbn. rewrite IH by done. f_equal.
  unfold rune_lower, between. destruct (Z.ltb_spec (byte c) 128); [| lia]. case_match; lia.
Qed.

Section signed.
Context {U : Unicode} {M : Mac} {L : MacLaws}.

Definition mac_of (algorithm secret payload : string) (mac : list Z) : Prop :=
  algorithm = SignatureHMACSHA256 ∧ mac = mac256 secret payload ∨
  algorithm = SignatureHMACSHA512 ∧ mac = mac512 secret payload.

Lemma signPayload_spec algorithm secret payload mac :
  signPayload algorithm secret payload = Ok mac ↔ mac_of algorithm secret payload mac.
Proof.
  unfold signPayload, mac_of. destruct (String.eqb_spec algorithm SignatureHMACSHA256) as [-> |]; [naive_solver |].
  destruct (String.eqb_spec algorithm SignatureHMACSHA512); naive_solver.
Qed.

Lemma mac_bytes algorithm secret payload mac :
  mac_of algorithm secret payload mac → mac ≠ [] ∧ Forall (λ b, 0 ≤ b < 256) mac.
Proof using L.
  intros [[_ ->] | [_ ->]]; [destruct (mac256_bytes secret payload) as [Hl ?] | destruct (mac512_bytes secret payload) as [Hl ?]];
    (split; [intros E; by rewrite E in Hl | done]).
Qed.

(** What is signed decodes to its MAC, and has nothing to trim. *)
Lemma SignPayload_decodes policy secret payload sig : SignPayload policy secret payload = Ok sig →
  ∃ mac, mac_of (wp_Algorithm policy) secret payload mac ∧
    decodeSignature (wp_Encoding policy) sig = Ok mac ∧ printable sig ∧ sig ≠ "".
Proof using L.
  unfold SignPayload. rewrite try_ok. intros (mac & Hm%signPayload_spec & Hs). exists mac. split; [done |].
  destruct (mac_bytes _ _ _ _ Hm) as [Hne Hb]. unfold decodeSignature. cbv zeta.
  destruct (wp_Encoding policy =s EncodingBase64).
  - injection Hs as <-. rewrite base64_roundtrip by done. split_and!; [by destruct mac | by apply base64_printable |].
    by destruct mac as [| a [| b [| c r]]].
  - destruct (_ || _); [| done]. injection Hs as <-. pose proof (hexEncode_lower mac Hb) as Hh.
    rewrite ToLower_hex, hex_roundtrip by done.
    split_and!; [by destruct mac | by apply lower_hex_printable | by destruct mac].
Qed.

Lemma drift_exact ts now : min_int64 < now - ts ≤ max_int64 → driftOf ts now = Z.abs (now - ts).
Proof.
  intros Hd. unfold driftOf, time_Sub. rewrite Z.min_r, Z.max_r by lia.
  destruct (Z.ltb_spec (now - ts) 0); [| lia]. rewrite wrap64_id; [lia |]. revert Hd. unfold in_int64, min_int64, max_int64. lia.
Qed.

(** A delivery verifies exactly when it is signed under the secret and in time. *)
Lemma VerifyWebhook_spec policy secret payload sig timestamp now :
  VerifyWebhook policy secret payload sig timestamp now = Ok () ↔
  secret ≠ "" ∧ slen payload ≠ 0 ∧ TrimSpaceU sig ≠ "" ∧ ∃ ts, timestamp = Some ts ∧
    driftOf ts now ≤ toleranceOf policy ∧ ∃ mac, mac_of (wp_Algorithm policy) secret payload mac ∧
    decodeSignature (wp_Encoding policy) (TrimSpaceU sig) = Ok mac.
Proof.
  unfold VerifyWebhook. cbv zeta. rewrite !deny_or, !seqb_neq, Z.eqb_neq.
  destruct timestamp as [ts |]; [| split; [by intros (?&?&?&?) | naive_solver]].
  rewrite deny_or, Z.ltb_ge, try_ok. setoid_rewrite try_ok. setoid_rewrite deny_or.
  setoid_rewrite negb_false_iff. setoid_rewrite bool_decide_eq_true. setoid_rewrite signPayload_spec. naive_solver.
Qed.

(** A payload that was signed under a policy verifies under it, for both algorithms and
    every encoding, at every time within the tolerance of its timestamp; and the signature of another
    payload or under another secret does not verify unless the MACs are equal. *)
Theorem signature_roundtrip policy secret payload sig ts now :
  SignPayload policy secret payload = Ok sig → secret ≠ "" → slen payload ≠ 0 →
  Z.abs (now - ts) ≤ toleranceOf policy → toleranceOf policy ≤ max_int64 →
  VerifyWebhook policy secret payload sig (Some ts) now = Ok () ∧
  ∀ secret' payload', VerifyWebhook policy secret' payload' sig (Some ts) now = Ok () →
    signPayload (wp_Algorithm policy) secret' payload' = signPayload (wp_Algorithm policy) secret payload.
Proof using L.
  intros (mac & Hm & Hd & Hp & Hne)%SignPayload_decodes Hs Hpl Hdrift Hmax. split.
  - apply VerifyWebhook_spec. rewrite TrimSpace_printable by done. split_and!; [done.. |]. exists ts. split; [done |].
    rewrite drift_exact by (revert Hdrift Hmax; unfold min_int64, max_int64; lia). split; [done |]. by exists mac.
  - intros secret' payload' (_ & _ & _ & ? & _ & _ & mac' & Hm' & Hd')%VerifyWebhook_spec.
    rewrite TrimSpace_printable, Hd in Hd' by done. injection Hd' as <-.
    apply signPayload_spec in Hm, Hm'. by rewrite Hm, Hm'.
Qed.
End signed.

(** * A delivery is accepted once *)

Section once.
Context {U : Unicode} {M : Mac}.

Record Delivery := mkDelivery {
  d_provider : string; d_event : string; d_payload : string; d_signature : string; d_timestamp : option Z }.

(** The order the code asks for: the event is claimed after the signature verified. *)
Definition receive (policy : WebhookPolicy) (secret : string) (g : ReplayGuard) (now : Z) (d : Delivery)
    : Checked () * ReplayGuard :=
  match VerifyWebhook policy secret (d_payload d) (d_signature d) (d_timestamp d) now with
  | Err e => (Err e, g)
  | Ok _ => Claim g (d_provider d) (d_event d) now
  end.

(** Deliveries, and clean-ups where there is none, as they arrive. *)
Fixpoint received (policy : WebhookPolicy) (secret : string) (g : ReplayGuard)
    (events : list (Z * option Delivery)) : ReplayGuard * list (Z * Delivery) :=
  match events with
  | [] => (g, [])
  | (now, None) :: rest => received policy secret (ReplayCleanup g now) rest
  | (now, Some d) :: rest =>
      let '(r, g') := receive policy secret g now d in
      let '(g'', accepted) := received policy secret g' rest in
      (g'', if is_ok r then (now, d) :: accepted else accepted)
  end.

Fixpoint times_from {A} (t : Z) (l : list (Z * A)) : Prop :=
  match l with [] => True | (now, _) :: l => t ≤ now ∧ times_from now l end.

(** A claim at [at_] is on record. *)
Definition claimed (g : ReplayGuard) (key : string) (at_ : Z) : Prop :=
  ∃ t, rg_seen g !! key = Some t ∧ at_ ≤ t.

Lemma Claim_retention g provider event now : rg_retention (snd (Claim g provider event now)) = rg_retention g.
Proof. unfold Claim. destruct (_ || _); [done |]. by case_match. Qed.

(** A record lasts for the retention. *)
Lemma aged_claimed g key at_ now : claimed g key at_ → now - rg_retention g ≤ at_ →
  ∃ t, aged (now - rg_retention g) (rg_seen g) !! key = Some t ∧ at_ ≤ t.
Proof. intros (t & Ht & Hle) Hn. exists t. split; [| done]. apply aged_kept; [done | lia]. Qed.

Lemma Claim_keeps g provider event now key at_ : claimed g key at_ → at_ ≤ now → now - rg_retention g ≤ at_ →
  claimed (snd (Claim g provider event now)) key at_.
Proof.
  intros Hc Hle Hn. pose proof (aged_claimed _ _ _ _ Hc Hn) as Ha. unfold Claim. destruct (_ || _); [done |].
  cbv zeta. case_match; cbn; unfold claimed; cbn; unfold constant; [done |].
  destruct (decide (key = replayKey provider event)) as [-> | Hne].
  - exists now. by rewrite lookup_insert_eq.
  - rewrite lookup_insert_ne by done. done.
Qed.

(** While a record lasts its event is refused. *)
Lemma Claim_refuses g provider event now at_ : claimed g (replayKey provider event) at_ → now - rg_retention g ≤ at_ →
  is_ok (fst (Claim g provider event now)) = false.
Proof.
  intros Hc Hn. destruct (aged_claimed _ _ _ _ Hc Hn) as (t & E & _). unfold Claim.
  destruct (_ || _); [done |]. cbv zeta. by rewrite E.
Qed.

Lemma Claim_records g provider event now :
  is_ok (fst (Claim g provider event now)) = true → claimed (snd (Claim g provider event now)) (replayKey provider event) now.
Proof.
  unfold Claim. destruct (_ || _); [done |]. cbv zeta. case_match; [done |]. intros _. exists now.
  split; [cbn; unfold constant; apply lookup_insert_eq | lia].
Qed.

Context (policy : WebhookPolicy) (secret : string).

Definition event_key (d : Delivery) : string := replayKey (d_provider d) (d_event d).

Lemma receive_retention g now d : rg_retention (snd (receive policy secret g now d)) = rg_retention g.
Proof. unfold receive. destruct (VerifyWebhook _ _ _ _ _ _); [apply Claim_retention | done]. Qed.

(** After a claim, the event is accepted again only when its record has expired. *)
Lemma accepted_later key at_ events : ∀ g t0, at_ ≤ t0 → times_from t0 events →
  claimed g key at_ ∨ at_ + rg_retention g < t0 →
  Forall (λ x, event_key x.2 = key → at_ + rg_retention g < x.1) (snd (received policy secret g events)).
Proof.
  induction events as [| [now [d |]] rest IH]; intros g t0 Hle Ht Hc; [constructor | |]; destruct Ht as [Hnow Ht];
    cbn [received].
  - destruct (receive policy secret g now d) as [r g'] eqn:E.
    assert (g' = snd (receive policy secret g now d)) as Hg' by (by rewrite E).
    assert (r = fst (receive policy secret g now d)) as Hr by (by rewrite E).
    assert (rg_retention g' = rg_retention g) as Hret by (rewrite Hg'; apply receive_retention).
    assert (claimed g' key at_ ∨ at_ + rg_retention g' < now) as Hc'.
    { destruct (decide (at_ + rg_retention g' < now)); [by right |]. left. destruct Hc as [Hc | ?]; [| lia].
      rewrite Hg'. unfold receive. destruct (VerifyWebhook _ _ _ _ _ _); [| done]. apply Claim_keeps; [done | lia..]. }
    specialize (IH g' now ltac:(lia) Ht Hc'). rewrite Hret in IH. destruct (received policy secret g' rest) as [g'' acc].
    cbn [snd] in IH |- *. destruct (is_ok r) eqn:Ok; [| done]. constructor; [| done]. cbn. intros <-.
    destruct (decide (at_ + rg_retention g < now)); [done |]. exfalso. destruct Hc as [Hc | ?]; [| lia].
    rewrite Hr in Ok. unfold receive in Ok. destruct (VerifyWebhook _ _ _ _ _ _); [| done].
    by rewrite (Claim_refuses _ _ _ _ at_) in Ok by (done || lia).
  - apply (IH (ReplayCleanup g now) now); [lia | done |]. change (rg_retention (ReplayCleanup g now)) with (rg_retention g).
    destruct (decide (at_ + rg_retention g < now)); [by right |]. left. destruct Hc as [Hc | ?]; [| lia].
    unfold claimed, ReplayCleanup. cbn. unfold constant. apply aged_claimed; [done | lia].
Qed.

(** Deliveries of one event are accepted further apart than the retention. *)
Lemma accepted_apart events : ∀ g t0, times_from t0 events →
  StronglySorted (λ x y, event_key y.2 = event_key x.2 → x.1 + rg_retention g < y.1)
    (snd (received policy secret g events)).
Proof.
  induction events as [| [now [d |]] rest IH]; intros g t0 Ht; [constructor | |]; destruct Ht as [_ Ht]; cbn [received].
  - pose proof (receive_retention g now d) as Hret. destruct (receive policy secret g now d) as [r g'] eqn:E.
    cbn [snd] in Hret. specialize (IH g' now Ht). rewrite Hret in IH.
    assert (is_ok r = true → claimed g' (event_key d) now) as Hc.
    { unfold receive in E. destruct (VerifyWebhook _ _ _ _ _ _); [| by injection E as <- <-].
      intros Ok. unfold event_key. replace g' with (snd (Claim g (d_provider d) (d_event d) now)) by (by rewrite E).
      apply Claim_records. by rewrite E. }
    pose proof (λ H, accepted_later (event_key d) now rest g' now (Z.le_refl _) Ht (or_introl (Hc H))) as Hl.
    rewrite Hret in Hl. destruct (received policy secret g' rest) as [g'' acc]. cbn [snd] in *.
    destruct (is_ok r); [| done]. constructor; [done |]. by apply Hl.
  - by apply (IH (ReplayCleanup g now) now).
Qed.

(** Every delivery accepted was verified when it arrived. *)
Lemma accepted_verified events : ∀ g,
  Forall (λ x, (x.1, Some x.2) ∈ events ∧
    VerifyWebhook policy secret (d_payload x.2) (d_signature x.2) (d_timestamp x.2) x.1 = Ok ())
    (snd (received policy secret g events)).
Proof.
  induction events as [| [now [d |]] rest IH]; intros g; [constructor | |]; cbn [received].
  - destruct (receive policy secret g now d) as [r g'] eqn:E. specialize (IH g').
    destruct (received policy secret g' rest) as [g'' acc]. cbn [snd] in *.
    assert (Forall (λ x, (x.1, Some x.2) ∈ (now, Some d) :: rest ∧
      VerifyWebhook policy secret (d_payload x.2) (d_signature x.2) (d_timestamp x.2) x.1 = Ok ()) acc) as Ha.
    { eapply Forall_impl; [exact IH |]. intros x [? ?]. split; [by right | done]. }
    destruct (is_ok r) eqn:Ok; [| done]. constructor; [| done]. split; [by left |]. cbn. unfold receive in E.
    destruct (VerifyWebhook _ _ _ _ _ _) as [[] |]; [done |]. by injection E as <- <-.
  - eapply Forall_impl; [apply IH |]. intros x [? ?]. split; [by right | done].
Qed.

(** No timestamp is so far in the future that the difference of the times saturates. *)
Definition representable (events : list (Z * option Delivery)) : Prop :=
  ∀ now d ts, (now, Some d) ∈ events → d_timestamp d = Some ts → min_int64 < now - ts.

Lemma drift_within ts now tol : min_int64 < now - ts → tol < max_int64 → driftOf ts now ≤ tol → Z.abs (now - ts) ≤ tol.
Proof.
  intros Hmin Ht Hd. destruct (decide (now - ts ≤ max_int64)); [by rewrite drift_exact in Hd by done |].
  exfalso. unfold driftOf, time_Sub in Hd. rewrite Z.min_l, Z.max_r in Hd by (unfold min_int64, max_int64 in *; lia).
  change (max_int64 <? 0) with false in Hd. cbv zeta iota in Hd. lia.
Qed.
End once.


Definition constantMac : Mac := {| mac256 := λ k m, repeat (slen k mod 256) 32; mac512 := λ k m, repeat (slen m mod 256) 64 |}.

Lemma repeat_bytes z n : length (repeat (z mod 256) n) = n ∧ Forall (λ b, 0 ≤ b < 256) (repeat (z mod 256) n).
Proof.
  split; [apply repeat_length |]. apply List.Forall_forall. intros b ->%repeat_spec. apply Z.mod_pos_bound. lia.
Qed.

Lemma constantMac_laws : @MacLaws constantMac.
Proof. split; intros k m; apply repeat_bytes. Qed.

Lemma signature_roundtrip_witness :
  let _ := openUnicode in let _ := constantMac in let policy := mkWebhookPolicy SignatureHMACSHA512 EncodingBase64 0 in
  ∃ sig, SignPayload policy "key" "payload" = Ok sig ∧ VerifyWebhook policy "key" "payload" sig (Some 70) 90 = Ok ().
Proof.
  intros U M policy. eexists. split; [vm_compute; reflexivity |].
  apply (signature_roundtrip (L := constantMac_laws) policy "key" "payload" _ 70 90); by vm_compute.
Defined.


(** A retention that exceeds the tolerance is not enough: the delivery of the example
    is accepted a second time when only its record has expired. *)
Example retention_too_short :
  let _ := openUnicode in let _ := constantMac in let policy := mkWebhookPolicy SignatureHMACSHA256 EncodingHex 5 in
  let d := mkDelivery "stripe" "evt_1" "body" (hexEncode (mac256 "key" "body")) (Some 10) in
  snd (received policy "key" (NewReplayGuard 6) [(6, Some d); (15, Some d)]) = [(6, d); (15, d)].
Proof. by vm_compute. Qed.

(** A timestamp more than 292 years ahead is within every tolerance: the saturated
    difference is its own negation. *)
Example far_future_verifies :
  let _ := openUnicode in let _ := constantMac in let policy := mkWebhookPolicy SignatureHMACSHA256 EncodingHex 5 in
  VerifyWebhook policy "key" "body" (hexEncode (mac256 "key" "body")) (Some (2 ^ 63)) 0 = Ok ().
Proof. by vm_compute. Qed.
