(* ===== verification/GuardWorkload.v ===== *)
(** Workloads and commands: [src/src/guard/workload.go] and [exec.go].

    CPU cores are floating-point numbers of the IEEE format, the other limits
    integers.  A map that is only ranged over is the list of its entries in the
    order Go visits them. *)
From stdpp Require Import prelude strings list gmap.
From Stdlib Require Import ZArith Lia Ascii SpecFloat.
From coqutil Require Export Datatypes.RecordSetters.
From S2P Require Import Prelude Files DeskFiles Errors Sql Text Token Outbound Guard GuardQuota.
Export DoubleBraceUpdate.

(** * workload.go *)

Definition BackendDocker : string := "docker".
Definition BackendPodman : string := "podman".
Definition BackendIncus : string := "incus".
Definition BackendLibvirt : string := "libvirt".

Definition Backend_Valid (b : string) : bool := member b [BackendDocker; BackendPodman; BackendIncus; BackendLibvirt].

Definition deniedCapabilities : list string :=
  ["AUDIT_CONTROL"; "BLOCK_SUSPEND"; "DAC_OVERRIDE"; "DAC_READ_SEARCH"; "MAC_ADMIN"; "MAC_OVERRIDE"; "MKNOD";
   "NET_ADMIN"; "NET_RAW"; "SETFCAP"; "SYS_ADMIN"; "SYS_BOOT"; "SYS_MODULE"; "SYS_PTRACE"; "SYS_RAWIO";
   "SYS_RESOURCE"; "SYS_TIME"; "WAKE_ALARM"].

Definition engineSocketNames : list string :=
  ["docker.sock"; "containerd.sock"; "containerd-shim"; "podman.sock"; "crio.sock"; "libvirt-sock";
   "virtqemud-sock"; "unix.socket"; "incus.sock"; "lxd.sock"; "buildkitd.sock"].

Definition deniedHostPathPrefixes : list string :=
  ["/boot"; "/dev"; "/etc"; "/home"; "/lib"; "/lib64"; "/proc"; "/root"; "/run"; "/sbin"; "/sys"; "/usr";
   "/var/lib/containerd"; "/var/lib/docker"; "/var/lib/incus"; "/var/lib/libvirt"; "/var/lib/lxd"; "/var/run"].

Definition allowedSysctls : list string :=
  ["net.ipv4.ip_unprivileged_port_start"; "net.ipv4.tcp_keepalive_intvl"; "net.ipv4.tcp_keepalive_probes";
   "net.ipv4.tcp_keepalive_time"].

Definition unconfinedMarkers : list string :=
  ["unconfined"; "label=disable"; "label:disable"; "seccomp=undefined"; "no-new-privileges=false";
   "no-new-privileges:false"; "apparmor="; "systempaths=unconfined"].

Definition noNewPrivileges : string := "no-new-privileges:true".

Record Mount := mkMount { mo_Source : string; mo_Target : string; mo_ReadOnly : bool }.

Record WorkloadPolicy := mkWorkloadPolicy {
  wl_TenantDataRoot : string; wl_MaxCPUCores : spec_float; wl_MaxMemoryBytes : Z; wl_MaxPids : Z;
  wl_MaxStorageBytes : Z; wl_MaxVCPUs : Z; wl_AllowedDevices : list string; wl_AllowedPassthrough : list string }.

(** The number four: the mantissa has its leading bit set. *)
Definition four : spec_float := S754_finite false (2 ^ 52) (-50).
Definition zero : spec_float := S754_zero false.

Definition DefaultWorkloadPolicy (tenantDataRoot : string) : WorkloadPolicy :=
  mkWorkloadPolicy tenantDataRoot four (Z.shiftl 8 30) 512 (Z.shiftl 64 30) 4 [] [].

Record WorkloadSpec := mkWorkloadSpec {
  ws_Backend : string; ws_TenantID : string; ws_Name : string; ws_Image : string;
  ws_Privileged : bool; ws_HostNetwork : bool; ws_HostPID : bool; ws_HostIPC : bool; ws_HostUTS : bool;
  ws_HostUserNS : bool; ws_NetworkName : string; ws_CapAdd : list string; ws_CapDrop : list string;
  ws_SecurityOpt : list string; ws_Devices : list string; ws_Mounts : list Mount;
  ws_Sysctls : list (string * string); ws_Env : list (string * string);
  ws_CPUCores : spec_float; ws_MemoryBytes : Z; ws_PidsLimit : Z; ws_StorageBytes : Z; ws_ReadOnlyRootFS : bool }.

Definition unsafe {A} : Checked A := deny ReasonWorkloadUnsafe.

Definition TenantNetworkName (tenantID : string) : string := "cashp-t-" +:+ tenantID.

Definition TenantRoot (policy : WorkloadPolicy) (tenantID : string) : Checked string :=
  if negb (IsAbs (wl_TenantDataRoot policy)) then unsafe else
  try _ := ValidateIdentifier tenantID in
  Ok (Files.Join [Clean (wl_TenantDataRoot policy); tenantID]).

Definition checkNamespaces (spec : WorkloadSpec) : Checked () :=
  if ws_Privileged spec then unsafe else
  if ws_HostNetwork spec then unsafe else
  if ws_HostPID spec then unsafe else
  if ws_HostIPC spec then unsafe else
  if ws_HostUTS spec then unsafe else
  if ws_HostUserNS spec then unsafe else Ok ().

(** [strings.EqualFold(s, "ALL")]: no other character folds to these letters. *)
Definition foldsToALL (s : string) : bool :=
  bool_decide ((λ r, if between 97 r 122 then r - 32 else r) <$> runes s = [65; 76; 76]).

Section workload.
Context {U : Unicode}.

(** The name of a capability as it is looked up. *)
Definition capability (c : string) : string := TrimPrefix (ToUpperU (TrimSpaceU c)) "CAP_".

Fixpoint checkCapAdd (caps : list string) : Checked () :=
  match caps with
  | [] => Ok ()
  | c :: rest =>
      let name := capability c in
      if name =s "" then unsafe else
      if name =s "ALL" then unsafe else
      if member name deniedCapabilities then unsafe else checkCapAdd rest
  end.

Definition checkCapabilities (spec : WorkloadSpec) : Checked () :=
  let dropsAll := existsb (λ c, foldsToALL (TrimSpaceU c)) (ws_CapDrop spec) in
  if negb dropsAll then unsafe else checkCapAdd (ws_CapAdd spec).

Definition normalizedOpt (opt : string) : string := ToLowerU (ReplaceChar (TrimSpaceU opt) " " "").

Definition noNewPrivs (opt : string) : bool :=
  (normalizedOpt opt =s noNewPrivileges) || (normalizedOpt opt =s "no-new-privileges=true").

Fixpoint securityLoop (hasNoNewPrivs : bool) (opts : list string) : Checked () :=
  match opts with
  | [] => if negb hasNoNewPrivs then unsafe else Ok ()
  | opt :: rest =>
      if noNewPrivs opt then securityLoop true rest else
      if existsb (Contains (normalizedOpt opt)) unconfinedMarkers then unsafe else securityLoop hasNoNewPrivs rest
  end.

Definition checkSecurityOpts (opts : list string) : Checked () := securityLoop false opts.

Fixpoint checkDevices (requested allowed : list string) : Checked () :=
  match requested with
  | [] => Ok ()
  | d :: rest =>
      let device := TrimSpaceU d in
      if device =s "" then unsafe else
      if negb (existsb (String.eqb device) allowed) then unsafe else checkDevices rest allowed
  end.

Definition checkMount (tenantRoot : string) (m : Mount) : Checked () :=
  let prefix := tenantRoot +:+ "/" in
  let src := mo_Source m in
  if (src =s "") || (mo_Target m =s "") then unsafe else
  if containsByte (Z.eqb 0) src || containsByte (Z.eqb 0) (mo_Target m) then unsafe else
  if negb (IsAbs src) then unsafe else
  if negb (Clean src =s src) then unsafe else
  let base := ToLowerU (Base src) in
  if existsb (Contains base) engineSocketNames then unsafe else
  if existsb (λ denied, (src =s denied) || HasPrefix src (denied +:+ "/")) deniedHostPathPrefixes then unsafe else
  if negb (src =s tenantRoot) && negb (HasPrefix src prefix) then unsafe else
  if negb (IsAbs (mo_Target m)) || negb (Clean (mo_Target m) =s mo_Target m) then unsafe else Ok ().

Fixpoint checkMounts (mounts : list Mount) (tenantRoot : string) : Checked () :=
  match mounts with [] => Ok () | m :: rest => try _ := checkMount tenantRoot m in checkMounts rest tenantRoot end.

Fixpoint checkSysctls (sysctls : list (string * string)) : Checked () :=
  match sysctls with
  | [] => Ok ()
  | (key, value) :: rest =>
      if negb (member key allowedSysctls) then unsafe else
      if negb (is_ok (ValidateEnvVarValue value)) then unsafe else checkSysctls rest
  end.

Definition checkNetwork (spec : WorkloadSpec) : Checked () :=
  if negb (ws_NetworkName spec =s TenantNetworkName (ws_TenantID spec)) then unsafe else Ok ().

(** A limit that is missing or above its ceiling. *)
Definition offLimit (limit ceiling : Z) : bool := (limit <=? 0) || (ceiling <=? 0) || (ceiling <? limit).

Definition checkLimits (spec : WorkloadSpec) (policy : WorkloadPolicy) : Checked () :=
  if SFleb (ws_CPUCores spec) zero || SFleb (wl_MaxCPUCores policy) zero ||
     SFltb (wl_MaxCPUCores policy) (ws_CPUCores spec) then unsafe else
  if offLimit (ws_MemoryBytes spec) (wl_MaxMemoryBytes policy) then unsafe else
  if offLimit (ws_PidsLimit spec) (wl_MaxPids policy) then unsafe else
  if offLimit (ws_StorageBytes spec) (wl_MaxStorageBytes policy) then unsafe else Ok ().

Definition ValidateWorkload (spec : WorkloadSpec) (policy : WorkloadPolicy) : Checked () :=
  if negb (Backend_Valid (ws_Backend spec)) then unsafe else
  try _ := ValidateIdentifier (ws_Name spec) in
  try _ := ValidateImageReference (ws_Image spec) in
  try root := TenantRoot policy (ws_TenantID spec) in
  try _ := checkNamespaces spec in
  try _ := checkCapabilities spec in
  try _ := checkSecurityOpts (ws_SecurityOpt spec) in
  try _ := checkDevices (ws_Devices spec) (wl_AllowedDevices policy) in
  try _ := checkMounts (ws_Mounts spec) root in
  try _ := checkSysctls (ws_Sysctls spec) in
  try _ := ValidateEnvVars (ws_Env spec) in
  try _ := checkNetwork spec in
  checkLimits spec policy.

Record VMSpec := mkVMSpec {
  vm_TenantID : string; vm_Name : string; vm_Arch : string; vm_VCPUs : Z; vm_MemoryBytes : Z; vm_DiskBytes : Z;
  vm_DiskPaths : list string; vm_PassthroughDevices : list string; vm_NetworkName : string;
  vm_HostBridge : bool; vm_ConsoleListen : string }.

Definition checkConsoleListen (addr : string) : Checked () := if isLoopbackHost addr then Ok () else unsafe.

Definition ValidateVM (spec : VMSpec) (policy : WorkloadPolicy) : Checked () :=
  try _ := ValidateIdentifier (vm_Name spec) in
  try _ := ValidateIdentifier (vm_Arch spec) in
  try root := TenantRoot policy (vm_TenantID spec) in
  if vm_HostBridge spec then unsafe else
  if negb (vm_NetworkName spec =s TenantNetworkName (vm_TenantID spec)) then unsafe else
  try _ := checkDevices (vm_PassthroughDevices spec) (wl_AllowedPassthrough policy) in
  let mounts := (λ p, mkMount p "/dev/null" false) <$> vm_DiskPaths spec in
  try _ := checkMounts mounts root in
  try _ := checkConsoleListen (vm_ConsoleListen spec) in
  if offLimit (vm_VCPUs spec) (wl_MaxVCPUs policy) then unsafe else
  if offLimit (vm_MemoryBytes spec) (wl_MaxMemoryBytes policy) then unsafe else
  if offLimit (vm_DiskBytes spec) (wl_MaxStorageBytes policy) then unsafe else Ok ().
End workload.

(** * exec.go *)

Definition shellBinaries : list string :=
  ["ash"; "awk"; "bash"; "busybox"; "csh"; "dash"; "env"; "eval"; "expect"; "fish"; "gawk"; "ksh"; "lua"; "mawk";
   "nc"; "ncat"; "node"; "perl"; "php"; "python"; "python2"; "python3"; "ruby"; "sh"; "socat"; "ssh"; "tclsh";
   "xargs"; "zsh"].

Definition interpreterFlags : list string := ["-c"; "--command"; "-e"; "--eval"; "--exec"].

Record ExecPolicy := mkExecPolicy {
  ep_Binaries : gmap string string; ep_AllowedFlags : gset string; ep_Dir : string; ep_Env : list (string * string) }.

Record Command := mkCommand { cm_path : string; cm_args : list string; cm_env : list string; cm_dir : string }.

Definition SensitiveParamNames : list string :=
  ["access_token"; "api_key"; "apikey"; "auth"; "code"; "key"; "password"; "pwd"; "refresh_token"; "secret";
   "session"; "token"].

Definition MaskedValue : string := "xxxxx".

(** [s[:strings.IndexByte(s, '=')]], all of [s] without an equals sign. *)
Definition before_equals (s : string) : string := (Cut s "="%char).1.1.

Section exec.
Context {U : Unicode}.

Fixpoint addBinaries (binaries : list (string * string)) (policy : ExecPolicy) : Checked ExecPolicy :=
  match binaries with
  | [] => Ok policy
  | (name, path) :: rest =>
      try _ := ValidateIdentifier name in
      if negb (IsAbs path) || negb (Clean path =s path) then invalid else
      if member (ToLowerU (Base path)) shellBinaries then invalid else
      addBinaries rest (policy {{ ep_Binaries := <[name := path]> (ep_Binaries policy) }})
  end.

Fixpoint addFlags (flags : list string) (policy : ExecPolicy) : Checked ExecPolicy :=
  match flags with
  | [] => Ok policy
  | flag :: rest =>
      if negb (HasPrefix flag "-") then invalid else
      if containsByte (λ b, (b =? 61) || (b =? 32)) flag then invalid else
      if member flag interpreterFlags then invalid else
      addFlags rest (policy {{ ep_AllowedFlags := {[flag]} ∪ ep_AllowedFlags policy }})
  end.

Definition NewExecPolicy (binaries : list (string * string)) (allowedFlags : list string) : Checked ExecPolicy :=
  try policy := addBinaries binaries (mkExecPolicy ∅ ∅ "" []) in
  addFlags allowedFlags policy.

Fixpoint checkArgs (policy : ExecPolicy) (args : list string) : Checked (list string) :=
  match args with
  | [] => Ok []
  | arg :: rest =>
      try _ := ValidateExecArg arg in
      if member arg interpreterFlags then invalid else
      if HasPrefix arg "-" && negb (bool_decide (before_equals arg ∈ ep_AllowedFlags policy)) then invalid else
      try checked := checkArgs policy rest in Ok (arg :: checked)
  end.

Definition NewCommand (policy : ExecPolicy) (name : string) (args : list string) : Checked Command :=
  match ep_Binaries policy !! name with
  | None => invalid
  | Some path =>
      try checked := checkArgs policy args in
      try env := ValidateEnvVars (ep_Env policy) in
      if negb (ep_Dir policy =s "") && (negb (IsAbs (ep_Dir policy)) || negb (Clean (ep_Dir policy) =s ep_Dir policy))
      then invalid else
      Ok (mkCommand path checked env (ep_Dir policy))
  end.

Definition IsSensitiveName (name : string) : bool :=
  let lower := ToLowerU name in existsb (Contains lower) SensitiveParamNames.

(** The loop of [Command.String]; [maskNext] as the code has it. *)
Fixpoint maskArgs (maskNext : bool) (args : list string) : list string :=
  match args with
  | [] => []
  | arg :: rest =>
      if maskNext then MaskedValue :: maskArgs false rest else
      if HasPrefix arg "-" && Contains arg "=" then
        let name := before_equals arg in
        (if IsSensitiveName name then name +:+ "=" +:+ MaskedValue else arg) :: maskArgs false rest else
      if HasPrefix arg "-" && IsSensitiveName arg then arg :: maskArgs true rest
      else arg :: maskArgs false rest
  end.

Definition Command_String (c : option Command) : string :=
  match c with None => "" | Some c => String.concat " " (cm_path c :: maskArgs false (cm_args c)) end.
End exec.

(** * Tenants stay apart *)

(** An identifier is a name below a directory. *)
Lemma identifierLoop_chars s : ∀ prev, identifierLoop prev s = Ok () →
  every (λ b, isLowerAlnum b || id_separator b) s = true.
Proof.
  induction s as [| c s IH]; intros prev; [done |]. cbn [identifierLoop every].
  destruct (isLowerAlnum (byte c)); [apply IH |]. destruct (id_separator (byte c)); [| done]. cbn [negb].
  rewrite invalid_or. intros [_ Hs]. by eapply IH.
Qed.

Lemma every_no_char (p : Z → bool) ch s : every p s = true → p (byte ch) = false → has_char ch s = false.
Proof.
  intros He Hp. induction s as [| c s IH]; [done |]. cbn in He |- *. apply andb_prop in He as [Hc Hs].
  rewrite IH by done. destruct (Ascii.eqb_spec c ch) as [-> |]; [congruence | done].
Qed.

Lemma identifier_name s : ValidateIdentifier s = Ok () → name_ok s.
Proof.
  unfold ValidateIdentifier, checkCommon. rewrite try_ok. intros ([] & Hc & H).
  rewrite !invalid_or in Hc. destruct Hc as (Hne%seqb_neq & _). rewrite invalid_or in H. destruct H as [Hf Hs].
  apply identifierLoop_chars in Hs. repeat split; [done | by intros -> | by eapply every_no_char | by intros ->].
Qed.

Lemma TenantRoot_spec policy tenant root : TenantRoot policy tenant = Ok root →
  clean_path root ∧ key root = key (wl_TenantDataRoot policy) ++ [tenant].
Proof.
  unfold TenantRoot, unsafe. rewrite deny_or, negb_false_iff, try_ok. intros (Ha & [] & Hn%identifier_name & [= <-]).
  destruct (clean_Clean _ Ha) as [Ha' _]. split; [apply clean_Join; [done | by destruct Hn as [(? & _) _]] |].
  change tenant with (join_comps [tenant]) at 1. rewrite key_Join; [by rewrite key_Clean | done | | done].
  by apply Forall_singleton.
Qed.

(** A mount that is let through names the tenant's directory, or something below. *)
Lemma checkMount_below {U : Unicode} root m : clean_path root → checkMount root m = Ok () →
  ∃ rest, key (mo_Source m) = key root ++ rest.
Proof.
  intros Hr. unfold checkMount, unsafe. cbv zeta. rewrite !deny_or.
  intros (_ & _ & Ha%negb_false_iff & Hc%negb_false_iff & _ & _ & Hin & _). apply seqb_eq in Hc.
  apply andb_false_iff in Hin as [E%negb_false_iff | E%negb_false_iff].
  { apply seqb_eq in E. exists []. by rewrite E, app_nil_r. }
  apply HasPrefix_split in E as [r E]. rewrite string_app_assoc in E. change ("/" +:+ r) with (String slash r) in E.
  exists (comps r). rewrite E. apply key_below.
  pose proof (key_names (mo_Source m)) as Hk. rewrite <-comps_key, E, comps_app in Hk by done.
  apply Forall_app in Hk as [_ Hk]. by apply names_no_dots.
Qed.

Lemma checkMounts_below {U : Unicode} root mounts : clean_path root → checkMounts mounts root = Ok () →
  Forall (λ m, ∃ rest, key (mo_Source m) = key root ++ rest) mounts.
Proof.
  intros Hr. induction mounts as [| m mounts IH]; cbn [checkMounts]; [constructor |]. rewrite try_ok.
  intros ([] & Hm & Hs). constructor; [by eapply checkMount_below | by apply IH].
Qed.

(** Splits what a sequence of checks let through. *)
Ltac checks H :=
  repeat first [apply deny_or in H as [? H] | let x := fresh in apply try_ok in H as (x & ? & H); lazymatch type of x with unit => destruct x | _ => idtac end].

Section isolation.
Context {U : Unicode}.

(** What a tenant may be given: a container or a virtual machine. *)
Inductive Guest := Container (spec : WorkloadSpec) | Machine (spec : VMSpec).

Definition admitted (g : Guest) (policy : WorkloadPolicy) : Checked () :=
  match g with Container spec => ValidateWorkload spec policy | Machine spec => ValidateVM spec policy end.

Definition tenant_of (g : Guest) : string :=
  match g with Container spec => ws_TenantID spec | Machine spec => vm_TenantID spec end.

Definition network_of (g : Guest) : string :=
  match g with Container spec => ws_NetworkName spec | Machine spec => vm_NetworkName spec end.

(** The paths of the host that are bound into it. *)
Definition paths_of (g : Guest) : list string :=
  match g with Container spec => mo_Source <$> ws_Mounts spec | Machine spec => vm_DiskPaths spec end.

Lemma admitted_parts g policy : admitted g policy = Ok () →
  network_of g = TenantNetworkName (tenant_of g) ∧ ∃ root, TenantRoot policy (tenant_of g) = Ok root ∧
  ∃ mounts, mo_Source <$> mounts = paths_of g ∧ checkMounts mounts root = Ok ().
Proof.
  destruct g as [spec | spec]; cbn; unfold ValidateWorkload, ValidateVM, unsafe; intros H; checks H.
  - match goal with Hn : checkNetwork _ = _ |- _ => apply deny_or in Hn as [Hn%negb_false_iff%seqb_eq _] end. by eauto 6.
  - match goal with Hn : negb (vm_NetworkName _ =s _) = false |- _ => apply negb_false_iff, seqb_eq in Hn end.
    split; [done |]. eexists. split; [done |]. eexists. split; [| done]. rewrite <-list_fmap_compose. by apply list_fmap_id.
Qed.

(** Everything an admitted guest is bound to lies in its tenant's directory. *)
Lemma admitted_below g policy p : admitted g policy = Ok () → p ∈ paths_of g →
  ∃ rest, key p = key (wl_TenantDataRoot policy) ++ tenant_of g :: rest.
Proof.
  intros Hv Hp. destruct (admitted_parts _ _ Hv) as (_ & root & Hr & mounts & Ep & Hm). rewrite <-Ep in Hp.
  destruct (TenantRoot_spec _ _ _ Hr) as [Hc Hk]. apply checkMounts_below in Hm; [| done]. apply list_elem_of_fmap in Hp as (m & -> & Hin). rewrite Forall_forall in Hm.
  destruct (Hm _ Hin) as [rest Hs]. exists rest. by rewrite Hs, Hk, <-app_assoc.
Qed.

Lemma apart (d : list string) a b r1 r2 : a ≠ b → ¬ (d ++ a :: r1) `prefix_of` (d ++ b :: r2).
Proof. intros Hne Hp. apply prefix_app_inv, prefix_cons_inv_1 in Hp. done. Qed.

(** C18: containers and virtual machines of different tenants that pass validation under one
    policy are kept apart: no path of the host that is bound into one is the same as, above or below a path
    bound into the other, whatever the spelling of the paths, and they are on different networks. *)
Theorem guests_isolated policy g1 g2 :
  admitted g1 policy = Ok () → admitted g2 policy = Ok () → tenant_of g1 ≠ tenant_of g2 →
  network_of g1 ≠ network_of g2 ∧
  ∀ p1 p2, p1 ∈ paths_of g1 → p2 ∈ paths_of g2 → ¬ key p1 `prefix_of` key p2 ∧ ¬ key p2 `prefix_of` key p1.
Proof.
  intros H1 H2 Hne. split.
  - destruct (admitted_parts _ _ H1) as [-> _], (admitted_parts _ _ H2) as [-> _]. intros E. by injection E.
  - intros p1 p2 Hp1 Hp2. destruct (admitted_below _ _ _ H1 Hp1) as [r1 ->], (admitted_below _ _ _ H2 Hp2) as [r2 ->].
    split; by apply apart.
Qed.

Lemma checkCapAdd_spec caps : checkCapAdd caps = Ok () ↔
  Forall (λ c, capability c ∉ "" :: "ALL" :: deniedCapabilities) caps.
Proof.
  induction caps as [| c caps IH]; cbn [checkCapAdd]; [split; [constructor | done] |].
  unfold unsafe. cbv zeta. rewrite !deny_or, !seqb_neq, member_not, IH, Forall_cons, !not_elem_of_cons. tauto.
Qed.

Lemma securityLoop_spec opts : ∀ seen, securityLoop seen opts = Ok () ↔
  (seen = true ∨ Exists (λ o, noNewPrivs o = true) opts) ∧
  Forall (λ o, noNewPrivs o = true ∨ existsb (Contains (normalizedOpt o)) unconfinedMarkers = false) opts.
Proof.
  induction opts as [| o opts IH]; intros seen; cbn [securityLoop]; unfold unsafe.
  - rewrite deny_or, negb_false_iff, Exists_nil. split; [by intros [? _]; split; [left |] | by intros [[? | []] _]].
  - rewrite Exists_cons, Forall_cons. destruct (noNewPrivs o) eqn:E.
    + rewrite IH. naive_solver.
    + rewrite deny_or, IH. naive_solver.
Qed.

Lemma offLimit_spec limit ceiling : offLimit limit ceiling = false ↔ 0 < limit ≤ ceiling.
Proof. unfold offLimit. rewrite !orb_false_iff, !Z.leb_gt, Z.ltb_ge. lia. Qed.

(** A container that passes validation has the whole isolation posture: it is not privileged
    and shares no namespace of the host; it drops all capabilities and asks for none of the denied ones, in
    whatever spelling; it forbids new privileges and no option disables a confinement profile; it has only
    devices and kernel parameters of the lists; and its memory, process and storage limits are set and within
    the ceilings. *)
Theorem workload_hardened spec policy : ValidateWorkload spec policy = Ok () →
  (ws_Privileged spec = false ∧ ws_HostNetwork spec = false ∧ ws_HostPID spec = false ∧ ws_HostIPC spec = false ∧
   ws_HostUTS spec = false ∧ ws_HostUserNS spec = false) ∧
  Exists (λ c, foldsToALL (TrimSpaceU c) = true) (ws_CapDrop spec) ∧
  Forall (λ c, capability c ∉ "" :: "ALL" :: deniedCapabilities) (ws_CapAdd spec) ∧
  Exists (λ o, noNewPrivs o = true) (ws_SecurityOpt spec) ∧
  Forall (λ o, noNewPrivs o = true ∨ existsb (Contains (normalizedOpt o)) unconfinedMarkers = false) (ws_SecurityOpt spec) ∧
  Forall (λ d, TrimSpaceU d ∈ wl_AllowedDevices policy) (ws_Devices spec) ∧
  Forall (λ kv, kv.1 ∈ allowedSysctls) (ws_Sysctls spec) ∧
  0 < ws_MemoryBytes spec ≤ wl_MaxMemoryBytes policy ∧ 0 < ws_PidsLimit spec ≤ wl_MaxPids policy ∧
  0 < ws_StorageBytes spec ≤ wl_MaxStorageBytes policy.
Proof.
  unfold ValidateWorkload, unsafe. intros H. checks H.
  rewrite offLimit_spec in *. match goal with Hn : checkNamespaces _ = _, Hc : checkCapabilities _ = _,
    Hs : checkSecurityOpts _ = _, Hd : checkDevices _ _ = _, Hy : checkSysctls _ = _ |- _ =>
    rename Hn into Hns; rename Hc into Hcap; rename Hs into Hsec; rename Hd into Hdev; rename Hy into Hsys end.
  unfold checkNamespaces, unsafe in Hns. checks Hns. apply deny_or in Hcap as [Hdrop%negb_false_iff Hcap%checkCapAdd_spec].
  apply securityLoop_spec in Hsec as [[? | Hnn] Hconf]; [done |].
  split_and!; try done; try lia.
  - apply existsb_exists in Hdrop as (c & Hin & Hc). apply Exists_exists. exists c. by rewrite list_elem_of_In.
  - clear -Hdev. induction (ws_Devices spec) as [| d ds IH]; [constructor |]. cbn in Hdev. unfold unsafe in Hdev.
    checks Hdev. constructor; [| by apply IH]. match goal with E : negb (existsb _ _) = false |- _ =>
      apply negb_false_iff in E; by apply (member_elem _ (wl_AllowedDevices policy)) in E end.
  - clear -Hsys. induction (ws_Sysctls spec) as [| [k v] l IH]; [constructor |]. cbn in Hsys. unfold unsafe in Hsys.
    checks Hsys. constructor; [| by apply IH]. cbn. apply member_elem. by apply negb_false_iff.
Qed.
End isolation.

(** * Commands *)

Section commands.
Context {U : Unicode}.

(** A binary that may be registered. *)
Definition registrable (path : string) : Prop := clean_path path ∧ ToLowerU (Base path) ∉ shellBinaries.

Lemma addBinaries_spec binaries : ∀ p p', addBinaries binaries p = Ok p' →
  ep_AllowedFlags p' = ep_AllowedFlags p ∧ ∀ name path, ep_Binaries p' !! name = Some path →
  ep_Binaries p !! name = Some path ∨ (name, path) ∈ binaries ∧ registrable path.
Proof.
  induction binaries as [| [n q] l IH]; intros p p' H; cbn [addBinaries] in H.
  { injection H as <-. split; [done |]. by left. }
  unfold invalid in H. apply try_ok in H as ([] & _ & H). apply deny_or in H as [Hc H]. apply deny_or in H as [Hs%member_not H].
  apply orb_false_iff in Hc as [Ha%negb_false_iff Hc%negb_false_iff%seqb_eq].
  destruct (IH _ _ H) as [-> Hb]. split; [done |]. intros name path Hl.
  destruct (Hb _ _ Hl) as [Hn | [Hin ?]]; [| right; split; [by right | done]]. cbn in Hn. unfold constant in Hn.
  apply lookup_insert_Some in Hn as [[<- <-] | [_ Hn]]; [| by left]. right. split; [left | by split].
Qed.

Lemma addFlags_spec flags : ∀ p p', addFlags flags p = Ok p' →
  ep_Binaries p' = ep_Binaries p ∧ ∀ f, f ∈ ep_AllowedFlags p' →
  f ∈ ep_AllowedFlags p ∨ f ∈ flags ∧ f ∉ interpreterFlags.
Proof.
  induction flags as [| g l IH]; intros p p' H; cbn [addFlags] in H.
  { injection H as <-. split; [done |]. by left. }
  unfold invalid in H. apply deny_or in H as [_ H]. apply deny_or in H as [_ H]. apply deny_or in H as [Hi%member_not H].
  destruct (IH _ _ H) as [-> Hf]. split; [done |]. intros f Hin.
  destruct (Hf _ Hin) as [Hn | [? ?]]; [| right; split; [by right | done]]. cbn in Hn. unfold constant in Hn.
  apply elem_of_union in Hn as [->%elem_of_singleton | ?]; [right; split; [left | done] | by left].
Qed.

Lemma checkArgs_spec p args : ∀ checked, checkArgs p args = Ok checked → checked = args ∧
  Forall (λ a, every no_control a = true ∧ a ∉ interpreterFlags ∧
    (HasPrefix a "-" = true → before_equals a ∈ ep_AllowedFlags p)) args.
Proof.
  induction args as [| a l IH]; intros checked H; cbn [checkArgs] in H; [injection H as <-; split; [done | constructor] |].
  unfold invalid in H. apply try_ok in H as ([] & He & H). apply deny_or in H as [Hi%member_not H].
  apply deny_or in H as [Hf H]. apply try_ok in H as (rest & Hr & [= <-]). destruct (IH _ Hr) as [-> Hs]. split; [done |].
  constructor; [| done]. split_and!; [| done |].
  - unfold ValidateExecArg in He. rewrite !invalid_or in He. by destruct He as (_ & ?%negb_false_iff & _).
  - intros Hp. rewrite Hp in Hf. cbn in Hf. by apply negb_false_iff, bool_decide_eq_true in Hf.
Qed.

(** A command that is built from a policy runs a binary that was registered under its name,
    by a clean absolute path that is not an interpreter; its arguments are the given ones, unchanged and without
    control bytes; none of them makes a program evaluate code, and every option is on the list of allowed flags,
    with or without a value; whatever directory and environment the policy was given. *)
Theorem command_registered binaries flags policy dir env name args c :
  NewExecPolicy binaries flags = Ok policy →
  NewCommand (policy {{ ep_Dir := dir; ep_Env := env }}) name args = Ok c →
  (name, cm_path c) ∈ binaries ∧ registrable (cm_path c) ∧ cm_args c = args ∧
  Forall (λ a, every no_control a = true ∧ a ∉ interpreterFlags ∧
    (HasPrefix a "-" = true → before_equals a ∈ flags ∧ before_equals a ∉ interpreterFlags)) args ∧
  (cm_dir c = "" ∨ clean_path (cm_dir c)).
Proof.
  unfold NewExecPolicy, NewCommand. rewrite try_ok.
  intros (p & [Ef Hb]%addBinaries_spec & [Eb Hf]%addFlags_spec) H. destruct policy as [bs fl d0 e0].
  cbn in Eb, Hf, H, Ef. unfold constant in H. rewrite Eb in H.
  destruct (ep_Binaries p !! name) as [path |] eqn:E; [| done].
  apply try_ok in H as (checked & [-> Ha]%checkArgs_spec & H). apply try_ok in H as (out & _ & H).
  apply deny_or in H as [Hd [= <-]]. cbn. rewrite Ef in Hf.
  destruct (Hb _ _ E) as [? | [? ?]]; [done |]. split_and!; [done | done | done | |].
  - eapply Forall_impl; [exact Ha |]. intros a (H1 & H2 & H3). split_and!; [done | done |]. intros Hp.
    destruct (Hf _ (H3 Hp)) as [Hn | ?]; [| done]. by apply elem_of_empty in Hn.
  - apply andb_false_iff in Hd as [Hd%negb_false_iff%seqb_eq | Hd]; [by left | right].
    apply orb_false_iff in Hd as [?%negb_false_iff ?%negb_false_iff%seqb_eq]. by split.
Qed.
End commands.

(** * Examples *)

Definition quietSpec (tenant src : string) : WorkloadSpec :=
  mkWorkloadSpec BackendPodman tenant "web" "docker.io/library/nginx:1" false false false false false false
    (TenantNetworkName tenant) ["cap_net_bind_service"] ["all"] [noNewPrivileges] [] [mkMount src "/data" false]
    [] [("MODE", "prod")] four 1024 10 4096 true.

Lemma guests_isolated_witness :
  let _ := openUnicode in let p := DefaultWorkloadPolicy "/srv/tenants" in
  ¬ key "/srv/tenants/acme/site" `prefix_of` key "/srv/tenants/acme-2" ∧
  ¬ key "/srv/tenants/acme-2" `prefix_of` key "/srv/tenants/acme/site".
Proof.
  intros U p. refine (proj2 (guests_isolated p (Container (quietSpec "acme" "/srv/tenants/acme/site"))
    (Machine (mkVMSpec "acme-2" "vm" "x86_64" 1 1024 4096 ["/srv/tenants/acme-2"] [] "cashp-t-acme-2" false "[::1]"))
    _ _ _) _ _ _ _); [by vm_compute | by vm_compute | done | left | left].
Defined.

Lemma workload_hardened_witness :
  let _ := openUnicode in Forall (λ c, capability c ∉ "" :: "ALL" :: deniedCapabilities) ["cap_net_bind_service"].
Proof.
  intros U. apply (workload_hardened (quietSpec "acme" "/srv/tenants/acme/site") (DefaultWorkloadPolicy "/srv/tenants")).
  by vm_compute.
Defined.

Lemma command_registered_witness :
  let _ := openUnicode in
  ∃ c, cm_path c = "/usr/bin/podman" ∧ cm_args c = ["run"; "--name=web"] ∧ registrable (cm_path c).
Proof.
  intros U. eexists (mkCommand "/usr/bin/podman" ["run"; "--name=web"] [] "/srv"). split; [done |]. split; [done |].
  eapply (command_registered [("podman", "/usr/bin/podman")] ["--name"] _ "/srv" [] "podman" ["run"; "--name=web"]);
    vm_compute; reflexivity.
Defined.

(** A number of cores that is not a number is within every ceiling. *)
Example nan_cores : let _ := openUnicode in let spec := quietSpec "acme" "/srv/tenants/acme" in
  ValidateWorkload (spec {{ ws_CPUCores := S754_nan }}) (DefaultWorkloadPolicy "/srv/tenants") = Ok ().
Proof. by vm_compute. Qed.

(** The log line masks the values of sensitive flags, and of nothing else. *)
Example string_masks : let _ := openUnicode in
  Command_String (Some (mkCommand "/bin/tool" ["--token=abc"; "--password"; "abc"; "password=abc"] [] "")) =
  "/bin/tool --token=xxxxx --password xxxxx password=abc".
Proof. by vm_compute. Qed.
